(* ===== verification/_CoqProject ===== *)
-Q . S2P
Prelude.v
Sha256.v
TxRoot.v
BytesOrder.v
MemDB.v
OverlayDB.v
CacheDB.v
Contract.v
Sink.v
Source.v
ReadLocal.v
Serialization.v
MerkleUtil.v
MerkleSpec.v
MerkleHasher.v
HashStore.v
MerkleTree.v
MerkleVerifier.v
Native.v
ExCrypto.v
Codec.v
Types.v
BlockBinding.v
Signature.v
NodeStates.v
NodeManager.v
NodeInv.v
NodeGov.v
NodeApproval.v
CrossCommon.v
ConsensusVote.v
Approval.v
RelayerMgr.v
StateMgr.v
SigMgr.v
SideStates.v
SideChain.v
SideGov.v
SideFee.v
CrossChain.v
CrossSafe.v
LedgerExec.v
StateStore.v
BlockStore.v
BlockStoreSpec.v
StateSpec.v
EventStore.v
Ledger.v
LedgerSpec.v
LedgerChain.v
VbftNode.v
VbftCommit.v
VbftStore.v
VbftPool.v
VbftPoolSpec.v
VbftSeal.v
VbftState.v
HsCommon.v
HeaderTree.v
Rlp.v
RlpSpec.v
EthHeader.v
PoaSync.v
PoaChain.v
PoaEpoch.v
PoaSafe.v
PoaGenesis.v
ExPoa.v
EvmProof.v
EvmSafe.v
EthashSizes.v
Ethash.v
EthashSpec.v
EthSync.v
EthChain.v
EthSafe.v
VbftMsg.v
Goroutine.v
VbftServer.v
VbftServerSpec.v
