(* ===== verification/Prelude.v ===== *)
(** * A verification development for the Poly relay node

    Poly is a relay chain in Go.  Consensus nodes keep a ledger whose blocks carry
    calls of native contracts; the contracts register side chains, verify transfers
    that happened on them and export requests to other chains, which prove them
    with merkle paths against a root in the block header.  The development models
    the node from the byte level up to the acceptance of a block and the decisions of
    the consensus, as executable definitions that follow the Go code function by
    function, and proves what each part promises to the next one.

    ** Conventions

    - A [uintN] is a [Z] with its wrap-around written out ([u8] .. [u64]); a byte
      slice is a [list byte]; [Uint256] and [Address] are fixed-size arrays.
    - A function that can fail returns [res] ([Ok], [Err] with the message, [Panic]);
      stateful code is in the monad [M S] over it.  Most arguments that are
      formatted into error messages are left out of them.
    - Go maps are [gmap]s, and code that ranges over one is modelled through the
      sort that follows, or shown not to depend on the order.
    - Loops over announced lengths have fuel bounded by the bytes that are there; a
      lemma beside each shows that it is enough.
    - Code that is not in the repository is a class, with what is relied on as laws:
      [Hasher] (SHA-256, also implemented, [Sha256]), [Crypto] (keys, RIPEMD-160, base58), [SigScheme]
      (signatures), [LevelDB] (goleveldb), [ARC] (the cache), [Rand] (skip-list
      heights), [NotifyCodec] and [LedgerEnv] (JSON, configuration, [sort.Slice]),
      [VbftEnv] (the hashes of JSON texts), [PoolEnv] (map iteration, keys of peers),
      [VbftAccount] (signing, the VRF, hashes of messages),
      [EthLib] (go-ethereum's Keccak, parameters and key recovery), [PoaChain] and
      [EthJson] (JSON texts of headers, and what differs between the chains),
      [EvmLib] (Merkle tries).  [LedgerDB], [StateServer], [HeaderHandlers],
      [ChainHandlers] and [EvmClient] are interfaces between parts of the repository.

    ** Files, in dependency order

    Bytes.  [Prelude] (this file: bytes, machine integers, results, the monad),
    [Sha256], [Sink] and [Source] (common/zero_copy_*.go), [ReadLocal] (what a read
    depends on), [Serialization] (common/serialization, core/states), [Codec].

    Storage.  [BytesOrder], [MemDB] (the skip list of core/store/overlaydb/memdb.go),
    [OverlayDB] (the block cache over leveldb), [CacheDB] (the transaction cache of
    native/storage), [Contract] (contract programs over any store with the interface
    [KV], so that the theorems about contracts are proved on finite maps and hold
    over the caches: [contract_cache_refines]).

    Merkle trees.  [TxRoot] (common/merkle_tree.go), [MerkleUtil], [MerkleSpec] (the
    reference tree [mth]), [MerkleHasher], [HashStore], [MerkleTree],
    [MerkleVerifier] (merkle/*.go).

    Contracts.  [Native] (native/native.go, service/utils, addresses), [ExCrypto]
    (concrete keys for the witnesses); the node manager in [NodeStates],
    [NodeManager], with its invariant and abstract peer pool in [NodeInv],
    [NodeGov], [NodeApproval] (also the genesis); the cross-chain data and the vote handler
    in [CrossCommon], [ConsensusVote]; the side chain manager in [SideStates],
    [SideChain], with [SideGov], [SideFee]; the entrance of the
    cross-chain manager in [CrossChain], with [CrossSafe] (the chain handlers are
    the interface [HandlerLaws], which the vote handler is shown to implement);
    what an approval shows, and numbered requests, in [Approval], the
    relayer, state validator and signature managers and the replenish contract in
    [RelayerMgr], [StateMgr], [SigMgr].

    Blocks and the ledger.  [Types] (core/types), [BlockBinding], [Signature]
    (core/signature, core/validation), [LedgerExec] (tx_handler.go and the loop of
    executeBlock), [StateStore] with [StateSpec], [BlockStore] with
    [BlockStoreSpec], [EventStore], [Ledger] (ledger_store.go) with [LedgerSpec] and
    [LedgerChain].

    Consensus (consensus/vbft).  [VbftNode] (configuration, participants of a round,
    commit quorum: config, node_utils.go, types.go), [VbftCommit] (what a commit
    decision shows), [VbftStore] (chain_store.go over the interface [LedgerDB], which
    [Ledger] implements), [VbftPool] (block_pool.go, where a sealed block shares its
    header with the proposals), [VbftPoolSpec] (its invariant), [VbftSeal] (counting
    endorsements and sealing), [VbftState] (the state machine of state_mgmt.go as
    runs of events).  The server: [VbftMsg] (msg_types.go, msg_pool.go,
    event_timer.go), [Goroutine] (goroutines as sequences of atomic steps on a shared
    state, and rely-guarantee reasoning about all their interleavings), [VbftServer]
    (service.go, msg_builder.go, node_utils.go: every handler of messages, actions and
    timers, with each operation under a lock, read of a shared field and send to a
    channel as one step), [VbftServerSpec].

    Light clients and transfers (native/service/header_sync, cross_chain_manager).
    [HsCommon] (the entrance and its parameters), [HeaderTree] (the specification: a
    tree of headers whose main chain is a heaviest branch), [Rlp] with [RlpSpec]
    (eth/rlp: encode.go, raw.go), [EthHeader] (eth/header1559.go, the rules for gas,
    base fee and difficulty); the proof-of-authority clients of bsc, bytom, heco and
    hsc, which share their code, in [PoaSync], with [PoaChain] (fork choice),
    [PoaEpoch] (validator sets), [PoaSafe], [PoaGenesis] and [ExPoa] (an example
    chain); Ethereum's client in [EthSync] (eth/header_sync.go, utils.go), with its
    proof of work in [EthashSizes], [Ethash] (cache.go) and [EthashSpec], and
    [EthChain], [EthSafe]; the transfer handlers that check Merkle proofs
    against such a client in [EvmProof] (bsc_handler.go and its copies, eth/utils.go)
    with [EvmSafe], which closes the circle to [CrossSafe].

    ** What is proved

    - Codecs: a sink appends the wire format, a source reads it back, no read panics
      on arbitrary bytes; data formats of the contracts do not depend on map order;
      transactions survive the wire, and exactly which raw bytes make the decoder
      panic.
    - Stores: the skip list is a finite map; the caches commit exactly their writes;
      a block saved to the block store is read back with warm or cold caches; the
      state store is saved whole or not at all and a restart restores what was
      committed.
    - Merkle trees: incremental, recursive and level-wise roots agree; paths of
      included leaves are accepted; accepted paths prove inclusion up to a SHA-256
      collision among the messages that were hashed; the hash of a block identifies
      its header fields and transactions in the same sense.
    - Governance: the methods of the node manager are steps of an abstract peer pool
      that keeps at least four active peers, those of the side chain, relayer and
      state validator managers steps of registers that change only by an approved
      request; approvals happen exactly at two thirds; a signed subject is announced
      once; a minority cannot move a fee.
    - Cross-chain: requests are made only between open chains, and each transfer of a
      source chain at most once; an exported value of a committed block has a proof
      that the verifier accepts.
    - Ledger: an accepted header carries signatures of a quorum of different peers;
      executing a block is running its transactions atomically one after the other;
      an accepted block commits to the chain before it and to the state after it;
      the header index has no gaps.
    - Consensus: drawing the participants of a round ends and gives different peers;
      two commit decisions share a peer that is not faulty; the block pool keeps one
      vote per peer and takes none back, decides exactly by quorum, and a block
      sealed on endorsements has the signatures that the ledger asks for; the chain
      store keeps every block the ledger lacks; a node moves between its states only
      along the listed transitions and asks only peers for blocks that have them.
      However its goroutines interleave, a node does not vote for two blocks in a
      round that it keeps, as long as no peer votes in its name.
    - Light clients: the RLP encoder computes RLP, and the hash of a header commits
      to it; Ethash is total and its caches are transparent; whatever forks are
      offered in whatever order, Ethereum's client accepts exactly the headers that
      follow the rules, the proof-of-authority clients only headers sealed by a
      validator in force, and the store represents the tree of accepted headers with
      a heaviest branch as main chain, from the genesis header on.
    - Transfers: a transfer from a chain with such a client is let through only if
      its hash is stored in the state of a confirmed header of the main chain, and
      the handlers keep the promise that excludes a second transfer.

    Theorems that show defects of the code say so: [SetBtcTxParam_count],
    [TransactionFromRawBytes_panics], [InitConfig_effect], [recoverStore_breaks],
    [approve_unknown_panics], [submit_failure_sticks], [sync_check_stalls]; so do the
    examples [proposer_counted_twice], [short_quorum], [consensus_depends_on_order],
    [forged_vote_is_sent].

    ** Bounds

    Sources are shorter than [2^63] bytes, merkle trees with a hash file have fewer
    than [2^31] leaves (the positions in the file are [uint32]), other trees fewer
    than [2^32]; the lists of state validators are stored in at most [2^44] bytes, so
    that they can be allocated.  The loops of the light clients run along branches of
    the tree: fuel above [2 B + 2] (proof of authority) or above [B] (Ethereum) is
    enough for heights up to [B], and Ethash is covered below block 61,440,000, where
    its tables of sizes end.  The loop of the VBFT server that seals several blocks in
    one action has fuel that a step chooses; the theorem holds for every fuel.  Block
    numbers stay below [2^32 - 1].  Where a theorem needs them they are hypotheses.

    ** Not modelled

    The handlers and light clients of the other side chains (Bitcoin, Cosmos, Neo,
    Ontology, Polygon, Zilliqa and so on: foreign formats and cryptography in
    third-party libraries), decoding RLP into Go values by reflection; of the VBFT
    server its start, the syncer and the peer pool, changes of the configuration, the
    content of a proposal of its own (a parameter), durations of timers and the
    capacity of channels; the transaction pool, the peer-to-peer and RPC servers,
    accounts and the command line.  Within the
    parts that are modelled: exhaustion of memory other than a slice that is too
    large to be allocated, the cached hash of a header, concurrency within an
    operation (each is run by one goroutine that holds the locks; goroutines
    interleave between operations), log output and published events, iterators over the caches, and merkle consistency proofs. *)

From Stdlib Require Export ZArith Lia.
From Stdlib Require Import Strings.Byte.
From stdpp Require Export base tactics list list_numbers numbers option gmap strings countable sorting.
Export stdpp.list_basics.list stdpp.list_relations.list stdpp.list_monad.list stdpp.list_misc.list.

#[export] Set Default Proof Using "Type".
#[export] Set Warnings "-clear-no-such-hyp".

#[global] Arguments Nat.div : simpl never.
#[global] Arguments Nat.modulo : simpl never.

Declare Scope go_scope.
Delimit Scope go_scope with go.
Open Scope Z_scope.

(** ** Bytes *)

Abbreviation byte := Byte.byte.
Abbreviation bytes := (list Byte.byte).

#[export] Instance byte_eq_dec : EqDecision byte := Byte.byte_eq_dec.

#[export] Program Instance byte_countable : Countable byte :=
  {| encode b := encode (Byte.to_N b);
     decode p := n ← decode p; Byte.of_N n |}.
Next Obligation. intros b. simpl. rewrite decode_encode. apply Byte.of_to_N. Qed.

Definition byte_to_Z (b : byte) : Z := Z.of_N (Byte.to_N b).

(** Go's conversion [byte(x)]: the low eight bits. *)
Definition byte_of_Z (z : Z) : byte :=
  default Byte.x00 (Byte.of_N (Z.to_N (z mod 256))).

Lemma byte_to_Z_range b : 0 ≤ byte_to_Z b < 256.
Proof.
  unfold byte_to_Z. pose proof (Byte.to_N_bounded b). lia.
Qed.

Lemma byte_to_of_Z z : byte_to_Z (byte_of_Z z) = z mod 256.
Proof.
  unfold byte_to_Z, byte_of_Z.
  assert (0 ≤ z mod 256 < 256) as Hr by (apply Z.mod_pos_bound; lia).
  destruct (Byte.of_N (Z.to_N (z mod 256))) as [b|] eqn:E; simpl.
  - apply Byte.to_of_N in E. rewrite E. lia.
  - apply Byte.of_N_None_iff in E. lia.
Qed.

Lemma byte_to_Z_inj b1 b2 : byte_to_Z b1 = byte_to_Z b2 → b1 = b2.
Proof.
  unfold byte_to_Z. intros H%N2Z.inj.
  pose proof (Byte.of_to_N b1) as E1. pose proof (Byte.of_to_N b2) as E2.
  rewrite H in E1. congruence.
Qed.

Lemma byte_of_to_Z b : byte_of_Z (byte_to_Z b) = b.
Proof.
  apply byte_to_Z_inj. rewrite byte_to_of_Z.
  apply Z.mod_small, byte_to_Z_range.
Qed.

(** Go string literals are byte sequences. *)
Definition gs (s : string) : bytes := String.list_byte_of_string s.
Definition go_str (b : bytes) : string := String.string_of_list_byte b.

Abbreviation blen l := (Z.of_nat (length l)).

(** ** Machine integers

    A Go integer of width [w] is a [Z]; the wrap-around of its arithmetic is
    written out with [uwrap] (unsigned) and [swrap] (two's complement). *)

Definition uwrap (w x : Z) : Z := x mod 2 ^ w.
Definition swrap (w x : Z) : Z := (x + 2 ^ (w - 1)) mod 2 ^ w - 2 ^ (w - 1).

Abbreviation u8 := (uwrap 8).
Abbreviation u16 := (uwrap 16).
Abbreviation u32 := (uwrap 32).
Abbreviation u64 := (uwrap 64).
(** Go's [int] on the 64-bit platforms the node is built for. *)
Abbreviation go_int := (swrap 64).

Definition in_range (w x : Z) : Prop := 0 ≤ x < 2 ^ w.
#[export] Instance in_range_dec w x : Decision (in_range w x).
Proof. unfold in_range. apply _. Defined.

Abbreviation is_u8 := (in_range 8).
Abbreviation is_u16 := (in_range 16).
Abbreviation is_u32 := (in_range 32).
Abbreviation is_u64 := (in_range 64).

Definition MAX_UINT64 : Z := 2 ^ 64 - 1.
(** [maxInt = int(^uint(0) >> 1)]. *)
Definition maxInt : Z := 2 ^ 63 - 1.

Lemma uwrap_range w x : 0 ≤ w → in_range w (uwrap w x).
Proof. intros. apply Z.mod_pos_bound. lia. Qed.

Lemma uwrap_small w x : in_range w x → uwrap w x = x.
Proof. apply Z.mod_small. Qed.

Lemma swrap_small w x : 0 < w → - 2 ^ (w - 1) ≤ x < 2 ^ (w - 1) → swrap w x = x.
Proof.
  intros Hw Hx. unfold swrap.
  replace (2 ^ w) with (2 * 2 ^ (w - 1)).
  - rewrite Z.mod_small; lia.
  - rewrite <- Z.pow_succ_r by lia. f_equal. lia.
Qed.

(** Reinterpreting a signed value as unsigned and back loses nothing. *)
Lemma swrap_uwrap w x : 0 < w → - 2 ^ (w - 1) ≤ x < 2 ^ (w - 1) → swrap w (uwrap w x) = x.
Proof.
  intros Hw Hx. unfold swrap, uwrap.
  rewrite Zplus_mod_idemp_l. by apply (swrap_small w).
Qed.

(** ** Little- and big-endian byte encodings ([encoding/binary]) *)

Fixpoint le_put (n : nat) (x : Z) : bytes :=
  match n with
  | O => []
  | S n' => byte_of_Z x :: le_put n' (Z.shiftr x 8)
  end.

Fixpoint le_get (l : bytes) : Z :=
  match l with
  | [] => 0
  | b :: l' => byte_to_Z b + 256 * le_get l'
  end.

Lemma length_le_put n x : length (le_put n x) = n.
Proof. revert x. induction n; intros; simpl; auto. Qed.

Lemma le_get_put n x : le_get (le_put n x) = x mod 2 ^ (8 * Z.of_nat n).
Proof.
  revert x. induction n as [|n IH]; intros x; simpl.
  - by rewrite Z.mod_1_r.
  - rewrite IH, byte_to_of_Z, Z.shiftr_div_pow2 by lia.
    replace (8 * Z.of_nat (S n)) with (8 + 8 * Z.of_nat n) by lia.
    by rewrite Z.pow_add_r, (Z.rem_mul_r x) by lia.
Qed.

Lemma le_get_put_small n x : in_range (8 * Z.of_nat n) x → le_get (le_put n x) = x.
Proof. intros. rewrite le_get_put. by apply Z.mod_small. Qed.

Lemma le_get_range l : in_range (8 * blen l) (le_get l).
Proof.
  unfold in_range. induction l as [|b l IH]; simpl length; [simpl; lia|].
  cbn [le_get]. pose proof (byte_to_Z_range b).
  replace (8 * Z.of_nat (S (length l))) with (8 + 8 * blen l) by lia.
  rewrite Z.pow_add_r by lia. lia.
Qed.

Lemma le_put_get l : le_put (length l) (le_get l) = l.
Proof.
  induction l as [|b l IH]; [done|]. cbn [le_get length le_put].
  pose proof (byte_to_Z_range b). f_equal.
  - apply byte_to_Z_inj. rewrite byte_to_of_Z, Z.mul_comm, Z.mod_add by lia.
    by apply Z.mod_small.
  - rewrite Z.shiftr_div_pow2 by lia. change (2 ^ 8) with 256.
    rewrite Z.mul_comm, Z.div_add, Z.div_small by lia. by rewrite Z.add_0_l.
Qed.

Lemma le_put_inj n x y :
  in_range (8 * Z.of_nat n) x → in_range (8 * Z.of_nat n) y → le_put n x = le_put n y → x = y.
Proof.
  intros Hx Hy E. rewrite <- (le_get_put_small n x), <- (le_get_put_small n y) by done.
  by rewrite E.
Qed.

(** [binary.BigEndian.PutUint32] and [Uint32]. *)
Definition be_put (n : nat) (x : Z) : bytes := reverse (le_put n x).
Definition be_get (l : bytes) : Z := le_get (reverse l).

Lemma length_be_put n x : length (be_put n x) = n.
Proof. unfold be_put. by rewrite length_reverse, length_le_put. Qed.

Lemma be_get_put_small n x : in_range (8 * Z.of_nat n) x → be_get (be_put n x) = x.
Proof. intros. unfold be_get, be_put. rewrite reverse_involutive. by apply le_get_put_small. Qed.

(** ** Fixed-size byte arrays: Go's [[n]byte] *)

Definition array (n : nat) : Type := dsig (λ l : bytes, length l = n).

Definition to_slice {n} (a : array n) : bytes := proj1_sig a.

(** [var a [n]byte; copy(a[:], l)]: truncates or zero-pads. *)
Definition copy_array_list (n : nat) (l : bytes) : bytes :=
  take n l ++ replicate (n - length l) Byte.x00.

Lemma length_copy_array_list n l : length (copy_array_list n l) = n.
Proof. unfold copy_array_list. rewrite length_app, length_take, length_replicate. lia. Qed.

Definition copy_array (n : nat) (l : bytes) : array n :=
  dexist (copy_array_list n l) (length_copy_array_list n l).

Lemma length_to_slice {n} (a : array n) : length (to_slice a) = n.
Proof. unfold to_slice. apply (proj2_dsig a). Qed.

Lemma to_slice_inj {n} (a b : array n) : to_slice a = to_slice b → a = b.
Proof. apply dsig_eq. Qed.

Lemma to_slice_copy {n} l : length l = n → to_slice (copy_array n l) = l.
Proof.
  intros <-. unfold to_slice, copy_array, copy_array_list. simpl.
  by rewrite take_ge, Nat.sub_diag, app_nil_r by lia.
Qed.

Lemma copy_to_slice {n} (a : array n) : copy_array n (to_slice a) = a.
Proof. apply to_slice_inj, to_slice_copy, length_to_slice. Qed.

#[export] Instance array_eq_dec n : EqDecision (array n).
Proof. unfold array. apply _. Defined.

#[export] Program Instance array_countable n : Countable (array n) :=
  {| encode a := encode (to_slice a); decode p := copy_array n <$> decode p |}.
Next Obligation. intros n a. simpl. rewrite decode_encode. simpl. by rewrite copy_to_slice. Qed.

Definition zero_array (n : nat) : array n := copy_array n [].

(** ** Results, panics and the state-and-error monad

    A Go function that returns [(T, error)] and may panic gives a [res T].  The
    monad [M S] threads the mutable state [S]; an error keeps the state reached
    so far, as a Go function that returns an error does not undo its writes. *)

Inductive res (A : Type) :=
  | Ok (a : A)
  | Err (e : string)
  | Panic.
Arguments Ok {A} _.
Arguments Err {A} _.
Arguments Panic {A}.

Definition is_ok {A} (r : res A) : bool := match r with Ok _ => true | _ => false end.
Definition ok_or {A} (d : A) (r : res A) : A := match r with Ok a => a | _ => d end.
Lemma ok_or_ok {A} (d : A) (r : res A) : is_ok r = true → r = Ok (ok_or d r).
Proof. by destruct r. Qed.

Definition M (S A : Type) : Type := S → res A * S.

#[export] Instance M_ret S : MRet (M S) := λ A a s, (Ok a, s).
#[export] Instance M_bind S : MBind (M S) := λ A B k m s,
  match m s with
  | (Ok a, s') => k a s'
  | (Err e, s') => (Err e, s')
  | (Panic, s') => (Panic, s')
  end.

Definition fail {S A} (e : string) : M S A := λ s, (Err e, s).
Definition panic {S A} : M S A := λ s, (Panic, s).
Definition get_state {S} : M S S := λ s, (Ok s, s).
Definition put_state {S} (s : S) : M S unit := λ _, (Ok tt, s).

(** [fmt.Errorf("prefix %v", err)]: an error from a callee, with a prefix. *)
Definition wrap_err {S A} (prefix : string) (m : M S A) : M S A := λ s,
  match m s with
  | (Err e, s') => (Err (prefix +:+ e), s')
  | r => r
  end.

(** [x, eof := m(); if eof { return errors.New(msg) }]. *)
Definition must {S A} (msg : string) (m : M S (A * bool)) : M S A :=
  '(x, eof) ← m; if (eof : bool) then fail msg else mret x.

(** [if !c { return errors.New(msg) }]. *)
Definition guard_err {S} (c : bool) (msg : string) : M S unit :=
  if c then mret tt else fail msg.

Lemma bind_ok {S A B} (m : M S A) (k : A → M S B) s a s' :
  m s = (Ok a, s') → (m ≫= k) s = k a s'.
Proof. intros H. unfold mbind, M_bind. by rewrite H. Qed.

Lemma bind_err {S A B} (m : M S A) (k : A → M S B) s e s' :
  m s = (Err e, s') → (m ≫= k) s = (Err e, s').
Proof. intros H. unfold mbind, M_bind. by rewrite H. Qed.

Lemma bind_inv_ok {S A B} (m : M S A) (k : A → M S B) s b s' :
  (m ≫= k) s = (Ok b, s') → ∃ a s1, m s = (Ok a, s1) ∧ k a s1 = (Ok b, s').
Proof.
  unfold mbind, M_bind. destruct (m s) as [[a| |] s1]; intros; simplify_eq. eauto.
Qed.

(** Go's slice expression [l[lo:hi]]; [None] is the run-time panic. *)
Definition go_slice {A} (l : list A) (lo hi : Z) : option (list A) :=
  if decide (0 ≤ lo ∧ lo ≤ hi ∧ hi ≤ blen l)
  then Some (take (Z.to_nat (hi - lo)) (drop (Z.to_nat lo) l))
  else None.

Lemma go_slice_app (l1 l2 l3 : bytes) :
  go_slice (l1 ++ l2 ++ l3) (blen l1) (blen (l1 ++ l2)) = Some l2.
Proof.
  unfold go_slice. rewrite !length_app. rewrite decide_True by lia.
  replace (Z.to_nat _) with (length l2) by lia. rewrite Nat2Z.id.
  by rewrite drop_app_length, take_app_length.
Qed.

(** ** Finite maps *)

Lemma map_to_list_filter {K V} `{Countable K} (P : K * V → Prop) `{∀ x, Decision (P x)} (m : gmap K V) :
  map_to_list (filter P m) ≡ₚ filter P (map_to_list m).
Proof.
  rewrite map_filter_alt. apply map_to_list_to_map.
  eapply sublist_NoDup; [apply (NoDup_fst_map_to_list m)|]. apply fmap_sublist, sublist_filter.
Qed.

Lemma size_filter_list `{Countable K} {V} (P : K * V → Prop) `{!∀ x, Decision (P x)} (p : gmap K V) :
  length (filter P (map_to_list p)) = size (filter P p).
Proof. by rewrite <- (length_map_to_list (filter P p)), map_to_list_filter. Qed.
