(* ===== verification/Sha256.v ===== *)
(** * Hashing: Go's [crypto/sha256]

    The [Hasher] class is what the merkle and governance components use of
    [crypto/sha256]: a function from byte slices to 32-byte arrays.  Their
    theorems hold for every such function.  [sha256] is the FIPS 180-4 function
    itself, executable, and its instance is the one the examples evaluate. *)

From S2P Require Import Prelude.

Abbreviation Uint256 := (array 32).
Definition UINT256_SIZE : Z := 32.
Definition EMPTY_HASH : Uint256 := zero_array 32.

Class Hasher := Sum256 : bytes → Uint256.

Module Sha256.

Definition add32 (x y : Z) : Z := u32 (x + y).
Definition rotr (x : Z) (n : Z) : Z :=
  Z.lor (Z.shiftr x n) (u32 (Z.shiftl x (32 - n))).
Definition Ch (x y z : Z) : Z := Z.lxor (Z.land x y) (Z.land (Z.lxor x (2 ^ 32 - 1)) z).
Definition Maj (x y z : Z) : Z :=
  Z.lxor (Z.lxor (Z.land x y) (Z.land x z)) (Z.land y z).
Definition Sigma0 (x : Z) : Z := Z.lxor (Z.lxor (rotr x 2) (rotr x 13)) (rotr x 22).
Definition Sigma1 (x : Z) : Z := Z.lxor (Z.lxor (rotr x 6) (rotr x 11)) (rotr x 25).
Definition sigma0 (x : Z) : Z := Z.lxor (Z.lxor (rotr x 7) (rotr x 18)) (Z.shiftr x 3).
Definition sigma1 (x : Z) : Z := Z.lxor (Z.lxor (rotr x 17) (rotr x 19)) (Z.shiftr x 10).

(** The constants are the first 32 fractional bits of the cube roots of the
    first 64 primes and of the square roots of the first 8. *)
Definition is_prime (n : nat) : bool :=
  forallb (λ d, negb (n mod d =? 0)%nat) (seq 2 (n - 2)).
Definition primes (n : nat) : list Z := Z.of_nat <$> take n (List.filter is_prime (seq 2 310)).

(** The cube root of [x] below [r + 2^b], rounded down, bit by bit. *)
Fixpoint cbrt (b : nat) (x r : Z) : Z :=
  match b with
  | O => r
  | S b' =>
      let r' := r + 2 ^ Z.of_nat b' in
      cbrt b' x (if (r' * r' * r' <=? x)%Z then r' else r)
  end.

Definition K : list Z :=
  Eval vm_compute in ((λ p, u32 (cbrt 36 (p * 2 ^ 96) 0)) <$> primes 64).
Definition H0 : list Z :=
  Eval vm_compute in ((λ p, u32 (Z.sqrt (p * 2 ^ 64))) <$> primes 8).

(** The message schedule, newest word first. *)
Fixpoint schedule (n : nat) (w : list Z) : list Z :=
  match n with
  | O => w
  | S n' =>
      let at_ i := nth i w 0 in
      schedule n'
        (add32 (add32 (sigma1 (at_ 1%nat)) (at_ 6%nat))
               (add32 (sigma0 (at_ 14%nat)) (at_ 15%nat)) :: w)
  end.

Definition round (st : list Z) (kw : Z * Z) : list Z :=
  match st with
  | [a; b; c; d; e; f; g; h] =>
      let t1 := add32 (add32 (add32 h (Sigma1 e)) (Ch e f g)) (add32 kw.1 kw.2) in
      let t2 := add32 (Sigma0 a) (Maj a b c) in
      [add32 t1 t2; a; b; c; add32 d t1; e; f; g]
  | _ => st
  end.

Fixpoint words (n : nat) (l : bytes) : list Z :=
  match n with
  | O => []
  | S n' => be_get (take 4 l) :: words n' (drop 4 l)
  end.

Definition block (hs : list Z) (l : bytes) : list Z :=
  let w := reverse (schedule 48 (reverse (words 16 l))) in
  zip_with add32 hs (foldl round hs (zip K w)).

Fixpoint blocks (n : nat) (hs : list Z) (l : bytes) : list Z :=
  match n with
  | O => hs
  | S n' => blocks n' (block hs (take 64 l)) (drop 64 l)
  end.

Definition pad (l : bytes) : bytes :=
  let z := Z.to_nat ((55 - blen l) mod 64) in
  l ++ [Byte.x80] ++ replicate z Byte.x00 ++ be_put 8 (8 * blen l).

Definition sha256 (l : bytes) : bytes :=
  let p := pad l in
  mjoin (be_put 4 <$> blocks (length p / 64) H0 p).

End Sha256.

#[export] Instance sha256_hasher : Hasher := λ l, copy_array 32 (Sha256.sha256 l).

Fixpoint hex_digits (l : bytes) : list Z :=
  match l with
  | [] => []
  | b :: l' => Z.shiftr (byte_to_Z b) 4 :: Z.land (byte_to_Z b) 15 :: hex_digits l'
  end.

(** The published test vectors of the empty message and of [abc]. *)
Example sha256_empty :
  foldl (λ acc d, 16 * acc + d) 0 (hex_digits (to_slice (sha256_hasher []))) =
  0xe3b0c44298fc1c149afbf4c8996fb92427ae41e4649b934ca495991b7852b855.
Proof. vm_compute. reflexivity. Qed.

Example sha256_abc :
  foldl (λ acc d, 16 * acc + d) 0 (hex_digits (to_slice (sha256_hasher (gs "abc")))) =
  0xba7816bf8f01cfea414140de5dae2223b00361a396177a9cb410ff61f20015ad.
Proof. vm_compute. reflexivity. Qed.

(** A cheap hash function for the concrete examples: the results that are
    generic in the hash function are applied at it. *)
Definition poly_hasher : Hasher := λ l,
  copy_array 32 (be_put 8 (foldl (λ a b, Z.land (257 * a + byte_to_Z b + 1) 0x1fffffffffffffff) 7 l)).
