(* ===== verification/TxRoot.v ===== *)
(** * The root of a block's transactions (common/merkle_tree.go)

    [ComputeMerkleRoot] folds the list of hashes in place, level by level, and
    pairs an odd last hash with itself.  [compute_level] shows that one pass of the
    loop is the functional [level], [ComputeMerkleRoot_root] that the loop
    terminates with the root of the levels, and [root_binding] that lists without
    duplicates have different roots, up to a collision or a hash of one list that
    is an inner node of the other: the duplicated last hash does no harm when
    duplicates are refused, as [Block.Deserialization] does. *)

From S2P Require Import Prelude Sha256.

Section tx_root.
Context `{Hasher}.

(** [sha256.Sum256] twice. *)
Definition dsum (b : bytes) : Uint256 := Sum256 (to_slice (Sum256 b)).
Definition pair_msg (a b : Uint256) : bytes := to_slice a ++ to_slice b.
Definition hash_pair (a b : Uint256) : Uint256 := dsum (pair_msg a b).

(** [for i := 0; i < n; i++ { hashes[i] = ... }], [k] passes from [i] on; [None]
    is an index out of range. *)
Fixpoint pair_loop (k i : nat) (hashes : list Uint256) : option (list Uint256) :=
  match k with
  | O => Some hashes
  | S k' =>
      a ← hashes !! (2 * i)%nat;
      b ← hashes !! (2 * i + 1)%nat;
      pair_loop k' (S i) (<[i := hash_pair a b]> hashes)
  end.

(** The body of the outer loop. *)
Definition merkle_pass (hashes : list Uint256) : option (list Uint256) :=
  let n := (length hashes / 2)%nat in
  let odd := bool_decide (length hashes = 2 * n + 1)%nat in
  hashes ← pair_loop n 0 hashes;
  if odd then
    a ← hashes !! (2 * n)%nat;
    Some (take (n + 1) (<[n := hash_pair a a]> hashes))
  else Some (take n hashes).

Fixpoint merkle_loop (fuel : nat) (hashes : list Uint256) : option Uint256 :=
  if decide (length hashes = 1%nat) then head hashes else
  match fuel with
  | O => None
  | S fuel' => hashes ← merkle_pass hashes; merkle_loop fuel' hashes
  end.

Definition ComputeMerkleRoot (hashes : list Uint256) : option Uint256 :=
  if decide (hashes = []) then Some (zero_array 32) else merkle_loop (length hashes) hashes.

(** ** The levels of the tree *)

Fixpoint level (l : list Uint256) : list Uint256 :=
  match l with
  | [] => []
  | [a] => [hash_pair a a]
  | a :: b :: l' => hash_pair a b :: level l'
  end.

Lemma pairs_ind (P : list Uint256 → Prop) :
  P [] → (∀ a, P [a]) → (∀ a b l, P l → P (a :: b :: l)) → ∀ l, P l.
Proof.
  intros H0 H1 H2 l. enough (P l ∧ ∀ a, P (a :: l)) as [? _] by done.
  induction l as [|b l [IH1 IH2]]; split; auto.
Qed.

Lemma length_level l : length (level l) = ((length l + 1) / 2)%nat.
Proof.
  induction l as [|a|a b l IH] using pairs_ind; [done..|]. cbn [level length]. rewrite IH.
  replace (S (S (length l)) + 1)%nat with (length l + 1 + 1 * 2)%nat by lia. rewrite Nat.div_add by done. lia.
Qed.

Lemma level_lookup l i a b : l !! (2 * i)%nat = Some a → l !! (2 * i + 1)%nat = Some b → level l !! i = Some (hash_pair a b).
Proof.
  revert i. induction l as [|x|x y l IH] using pairs_ind; intros i Ha Hb; [done| |].
  - destruct i; simplify_eq/=.
  - destruct i as [|i]; [by simplify_eq/=|]. replace (2 * S i)%nat with (S (S (2 * i))) in * by lia. by apply IH.
Qed.

Lemma level_last l i a : l !! (2 * i)%nat = Some a → length l = (2 * i + 1)%nat → level l !! i = Some (hash_pair a a).
Proof.
  revert i. induction l as [|x|x y l IH] using pairs_ind; intros i Ha Hl; [done| |].
  - destruct i; [by simplify_eq/=|done].
  - destruct i as [|i]; [simpl in Hl; lia|]. replace (2 * S i)%nat with (S (S (2 * i))) in * by lia. cbn in Hl.
    cbn. apply IH; [done|lia].
Qed.

(** ** The loop in place computes the level *)

Lemma pair_loop_level l k i :
  (2 * (i + k) ≤ length l)%nat →
  pair_loop k i (take i (level l) ++ drop i l) = Some (take (i + k) (level l) ++ drop (i + k) l).
Proof.
  revert i. induction k as [|k IH]; intros i Hi; cbn [pair_loop]; [by rewrite Nat.add_0_r|].
  assert (length (take i (level l)) = i) as Hlen.
  { rewrite length_take, length_level. apply Nat.min_l. apply Nat.div_le_lower_bound; lia. }
  assert (∀ j, (i ≤ j)%nat → (take i (level l) ++ drop i l) !! j = l !! j) as Hj.
  { intros j ?. rewrite lookup_app_r by lia. rewrite Hlen, lookup_drop. f_equal. lia. }
  rewrite !Hj by lia. destruct (l !! (2 * i)%nat) as [a|] eqn:Ea; [|apply lookup_ge_None in Ea; lia].
  destruct (l !! (2 * i + 1)%nat) as [b|] eqn:Eb; [|apply lookup_ge_None in Eb; lia]. cbn.
  pose proof (level_lookup l i a b Ea Eb) as E.
  replace (i + S k)%nat with (S i + k)%nat by lia. rewrite <- IH by lia. f_equal.
  rewrite (take_S_r _ _ _ E), <- app_assoc.
  destruct (drop i l) as [|x r] eqn:Ed; [apply (f_equal length) in Ed; rewrite length_drop in Ed; simpl in Ed; lia|].
  rewrite <- Hlen at 1. rewrite <- (Nat.add_0_r (length _)), insert_app_r. cbn. do 2 f_equal.
  replace (S i) with (i + 1)%nat by lia. by rewrite <- drop_drop, Ed.
Qed.

Lemma take_insert_app {A} (l r : list A) n x y :
  length l = n → take (n + 1) (<[n := x]> (l ++ y :: r)) = l ++ [x].
Proof.
  intros <-. replace (<[length l := x]> (l ++ y :: r)) with (l ++ x :: r); [by rewrite take_app_add|].
  induction l as [|z l IH]; [done|]. cbn. by f_equal.
Qed.

Lemma half_bounds n : n = (2 * (n / 2))%nat ∨ n = (2 * (n / 2) + 1)%nat.
Proof. pose proof (Nat.div_mod n 2). pose proof (Nat.mod_upper_bound n 2). lia. Qed.

Lemma compute_level l : merkle_pass l = Some (level l).
Proof.
  unfold merkle_pass. set (n := (length l / 2)%nat). pose proof (half_bounds (length l)) as Hn. fold n in Hn.
  pose proof (length_level l) as HL.
  assert (pair_loop n 0 l = Some (take n (level l) ++ drop n l)) as -> by (apply (pair_loop_level l n 0); lia).
  cbn [mbind option_bind].
  assert (n ≤ length (level l))%nat as Hle by (rewrite HL; apply Nat.Div0.div_le_mono; lia).
  case_bool_decide as Ho.
  - assert (length (level l) = n + 1)%nat as HL'.
    { rewrite HL, Ho. replace (2 * n + 1 + 1)%nat with ((n + 1) * 2)%nat by lia. by rewrite Nat.div_mul. }
    destruct (l !! (2 * n)%nat) as [a|] eqn:Ea; [|apply lookup_ge_None in Ea; lia].
    rewrite lookup_app_r, length_take, Nat.min_l, lookup_drop by (rewrite ?length_take; lia).
    replace (n + (2 * n - n))%nat with (2 * n)%nat by lia. rewrite Ea. cbn. f_equal.
    pose proof (level_last l n a Ea Ho) as E.
    destruct (drop n l) as [|x r] eqn:Ed; [apply (f_equal length) in Ed; rewrite length_drop in Ed; simpl in Ed; lia|].
    rewrite take_insert_app by (rewrite length_take; lia). rewrite <- (take_S_r _ _ _ E). apply take_ge. lia.
  - assert (length (level l) = n) as HL'.
    { rewrite HL. replace (length l + 1)%nat with (1 + n * 2)%nat by lia. by rewrite Nat.div_add. }
    rewrite take_app_le by (rewrite length_take; lia). rewrite take_take. f_equal. apply take_ge. lia.
Qed.

(** ** The root *)

(** The nodes above the given hashes, level by level, and the root. *)
Fixpoint inner (fuel : nat) (l : list Uint256) : list Uint256 :=
  match fuel with
  | O => []
  | S fuel' => if decide (length l ≤ 1)%nat then [] else level l ++ inner fuel' (level l)
  end.
Fixpoint tree_root (fuel : nat) (l : list Uint256) : Uint256 :=
  match fuel with
  | O => default (zero_array 32) (head l)
  | S fuel' => if decide (length l ≤ 1)%nat then default (zero_array 32) (head l) else tree_root fuel' (level l)
  end.

Lemma length_level_lt l : (1 < length l)%nat → (1 ≤ length (level l) < length l)%nat.
Proof.
  intros Hl. rewrite length_level. split; [apply Nat.div_le_lower_bound; lia|apply Nat.Div0.div_lt_upper_bound; lia].
Qed.

(** The loop ends, without running out of range, with the root. *)
Lemma ComputeMerkleRoot_root l : ComputeMerkleRoot l = Some (tree_root (length l) l).
Proof.
  unfold ComputeMerkleRoot. case_decide as E; [by subst|].
  assert (∀ fuel l, l ≠ [] → (length l ≤ fuel)%nat → merkle_loop fuel l = Some (tree_root fuel l)) as Hgen; [|by apply Hgen].
  clear l E. induction fuel as [|fuel IH]; intros l Hne Hf; [destruct l; simpl in *; [done|lia]|].
  cbn [merkle_loop tree_root]. case_decide as E1.
  - rewrite decide_True by lia. by destruct l.
  - rewrite decide_False by (destruct l; simpl in *; [done|lia]). rewrite compute_level. cbn.
    assert (1 < length l)%nat as Hl by (destruct l; simpl in *; [done|lia]). pose proof (length_level_lt l Hl).
    apply IH; [|lia]. destruct (level l); simpl in *; [lia|done].
Qed.

(** ** Binding *)

(** The messages hashed in one level, and in all. *)
Fixpoint level_msgs (l : list Uint256) : list bytes :=
  match l with
  | [] => []
  | [a] => [pair_msg a a]
  | a :: b :: l' => pair_msg a b :: level_msgs l'
  end.
Fixpoint root_msgs (fuel : nat) (l : list Uint256) : list bytes :=
  match fuel with
  | O => []
  | S fuel' => if decide (length l ≤ 1)%nat then [] else level_msgs l ++ root_msgs fuel' (level l)
  end.

(** Two different messages among [X] with the same double hash. *)
Definition dcollision (X : list bytes) : Prop :=
  Exists (λ x, Exists (λ y, x ≠ y ∧ dsum x = dsum y) X) X.
#[export] Instance dcollision_dec X : Decision (dcollision X).
Proof. unfold dcollision. apply _. Defined.

Definition dsum_inj_on (X : list bytes) : Prop := ∀ x y, x ∈ X → y ∈ X → dsum x = dsum y → x = y.

Lemma no_dcollision X : ¬ dcollision X → dsum_inj_on X.
Proof.
  intros Hn x y Hx Hy E. destruct (decide (x = y)) as [|Hne]; [done|]. destruct Hn.
  apply Exists_exists. exists x. split; [done|]. apply Exists_exists. by exists y.
Qed.

Lemma pair_msg_inj a b c d : pair_msg a b = pair_msg c d → a = c ∧ b = d.
Proof.
  intros E. apply app_inj_1 in E as [E1 E2]; [|by rewrite !length_to_slice]. split; by apply to_slice_inj.
Qed.

Lemma elem_of_level x l :
  x ∈ level l → ∃ a b, a ∈ l ∧ x = hash_pair a b ∧ pair_msg a b ∈ level_msgs l.
Proof.
  induction l as [|a|a b l IH] using pairs_ind; cbn [level level_msgs]; intros Hx; [set_solver| |].
  - apply list_elem_of_singleton in Hx as ->. exists a, a. set_solver.
  - apply elem_of_cons in Hx as [->|Hx]; [exists a, b; set_solver|].
    destruct (IH Hx) as (c & d & ? & ? & ?). exists c, d. set_solver.
Qed.

Lemma elem_of_inner x fuel l :
  x ∈ inner fuel l → ∃ a b, a ∈ l ++ inner fuel l ∧ x = hash_pair a b ∧ pair_msg a b ∈ root_msgs fuel l.
Proof.
  revert l. induction fuel as [|fuel IH]; intros l; cbn [inner root_msgs]; [set_solver|].
  case_decide; [set_solver|]. intros [Hx|Hx]%elem_of_app.
  - destruct (elem_of_level x l Hx) as (a & b & ? & ? & ?). exists a, b. set_solver.
  - destruct (IH _ Hx) as (a & b & ? & ? & ?). exists a, b. set_solver.
Qed.

Lemma tree_root_inner fuel l : (1 < length l ≤ fuel)%nat → tree_root fuel l ∈ inner fuel l.
Proof.
  revert l. induction fuel as [|fuel IH]; intros l Hl; [lia|]. cbn [tree_root inner]. rewrite !decide_False by lia.
  pose proof (length_level_lt l). apply elem_of_app. destruct (decide (length (level l) = 1)%nat) as [E|].
  - left. destruct (level l) as [|x [|]]; try done. destruct fuel; cbn; set_solver.
  - right. apply IH. lia.
Qed.

Section binding.
Variable X : list bytes.
Hypothesis inj : dsum_inj_on X.

Lemma hash_pair_inj a b c d :
  pair_msg a b ∈ X → pair_msg c d ∈ X → hash_pair a b = hash_pair c d → a = c ∧ b = d.
Proof using inj. intros Ha Hc E. by apply pair_msg_inj, inj. Qed.

Lemma level_NoDup l : level_msgs l ⊆ X → NoDup l → NoDup (level l).
Proof using inj.
  induction l as [|a|a b l IH] using pairs_ind; cbn [level level_msgs]; intros HX Hnd; [done|apply NoDup_singleton|].
  apply NoDup_cons in Hnd as [Ha Hnd]. apply NoDup_cons in Hnd as [_ Hnd]. apply NoDup_cons. split; [|apply IH; set_solver].
  intros (c & d & Hc & E & Hm)%elem_of_level. apply hash_pair_inj in E as [-> _]; set_solver.
Qed.

Lemma level_inj l1 l2 :
  level_msgs l1 ⊆ X → level_msgs l2 ⊆ X → NoDup l1 → NoDup l2 → level l1 = level l2 → l1 = l2.
Proof using inj.
  revert l2. induction l1 as [|a|a b l1 IH] using pairs_ind; intros l2 H1 H2 N1 N2 E; destruct l2 as [|c [|d l2]];
    cbn [level level_msgs] in *; try discriminate; [done|..].
  - injection E as E. apply hash_pair_inj in E as [-> _]; set_solver.
  - injection E as E _. apply hash_pair_inj in E as [-> ->]; [|set_solver..].
    apply NoDup_cons in N2 as [[]%not_elem_of_cons _]. done.
  - injection E as E _. apply hash_pair_inj in E as [-> ->]; [|set_solver..].
    apply NoDup_cons in N1 as [[]%not_elem_of_cons _]. done.
  - injection E as E E'. apply hash_pair_inj in E as [-> ->]; [|set_solver..]. do 2 f_equal.
    apply NoDup_cons in N1 as [_ N1], N2 as [_ N2]. apply NoDup_cons in N1 as [_ N1], N2 as [_ N2].
    apply IH; set_solver.
Qed.

(** No node of [level l1] is an inner node above [level l2] if no hash of [l1] is one above [l2]. *)
Lemma level_inner_disjoint l1 l2 fuel :
  level_msgs l1 ⊆ X → root_msgs fuel (level l2) ⊆ X → level l2 ++ inner fuel (level l2) ## l1 →
  ∀ x, x ∈ level l1 → x ∉ inner fuel (level l2).
Proof using inj.
  intros H1 H2 Hd x (a & b & Ha & -> & Hm)%elem_of_level (c & d & Hc & E & Hm')%elem_of_inner.
  apply hash_pair_inj in E as [-> _]; [|set_solver..]. by apply (Hd c).
Qed.

Lemma root_inj fuel1 fuel2 l1 l2 :
  (1 ≤ length l1 ≤ fuel1)%nat → (1 ≤ length l2 ≤ fuel2)%nat → NoDup l1 → NoDup l2 →
  root_msgs fuel1 l1 ⊆ X → root_msgs fuel2 l2 ⊆ X → inner fuel2 l2 ## l1 → inner fuel1 l1 ## l2 →
  tree_root fuel1 l1 = tree_root fuel2 l2 → l1 = l2.
Proof using inj.
  revert fuel2 l1 l2. induction fuel1 as [|f1 IH]; intros fuel2 l1 l2 L1 L2 N1 N2 X1 X2 D1 D2 E; [lia|].
  destruct fuel2 as [|f2]; [lia|].
  destruct (decide (length l1 ≤ 1)%nat) as [S1|S1], (decide (length l2 ≤ 1)%nat) as [S2|S2].
  - destruct l1 as [|x [|]], l2 as [|y [|]]; simpl in *; try lia. by subst.
  - destruct l1 as [|x [|]]; simpl in L1, S1; try lia. destruct (D1 x); [|set_solver].
    change x with (tree_root (S f1) [x]). rewrite E. apply tree_root_inner. lia.
  - destruct l2 as [|x [|]]; simpl in L2, S2; try lia. destruct (D2 x); [|set_solver].
    change x with (tree_root (S f2) [x]). rewrite <- E. apply tree_root_inner. lia.
  - cbn [tree_root root_msgs inner] in *.
    destruct (decide (length l1 ≤ 1)%nat); [lia|]. destruct (decide (length l2 ≤ 1)%nat); [lia|].
    pose proof (length_level_lt l1). pose proof (length_level_lt l2).
    apply level_inj; [set_solver..|done|done|].
    apply (IH f2); [lia|lia|apply level_NoDup; set_solver|apply level_NoDup; set_solver|set_solver|set_solver| | |done].
    + intros x Hx Hx'. revert Hx' Hx. apply level_inner_disjoint; [set_solver..|]. done.
    + intros x Hx Hx'. revert Hx' Hx. apply level_inner_disjoint; [set_solver..|]. done.
Qed.
End binding.

(** Lists of hashes without duplicates have different roots, unless a hash of one
    is an inner node of the other or the double hash collides on a message hashed
    for one of the roots. *)
Lemma root_binding l1 l2 r :
  NoDup l1 → NoDup l2 → l1 ≠ [] → l2 ≠ [] → ComputeMerkleRoot l1 = Some r → ComputeMerkleRoot l2 = Some r →
  inner (length l2) l2 ## l1 → inner (length l1) l1 ## l2 →
  l1 = l2 ∨ dcollision (root_msgs (length l1) l1 ++ root_msgs (length l2) l2).
Proof.
  rewrite !ComputeMerkleRoot_root. intros N1 N2 Z1 Z2 [= E1] [= E2] D1 D2.
  set (X := root_msgs _ l1 ++ _). destruct (decide (dcollision X)) as [|Hc]; [by right|left].
  apply (root_inj X (no_dcollision X Hc) (length l1) (length l2)); try done.
  - destruct l1; simpl; [done|lia].
  - destruct l2; simpl; [done|lia].
  - set_solver.
  - set_solver.
  - congruence.
Qed.

End tx_root.
