(* ===== verification/BytesOrder.v ===== *)
(** * The byte-wise order of keys (goleveldb's [comparer.DefaultComparer])

    [bytes.Compare] is the lexicographic order; the file has its laws and
    sorted association lists over it, the abstract state of the stores. *)

From S2P Require Import Prelude.

Fixpoint Compare (a b : bytes) : comparison :=
  match a, b with
  | [], [] => Eq
  | [], _ :: _ => Lt
  | _ :: _, [] => Gt
  | x :: a', y :: b' =>
      match (byte_to_Z x ?= byte_to_Z y)%Z with
      | Eq => Compare a' b'
      | c => c
      end
  end.

Definition bytes_lt (a b : bytes) : Prop := Compare a b = Lt.
Infix "≺" := bytes_lt (at level 70) : go_scope.
Open Scope go_scope.

#[export] Instance bytes_lt_dec : RelDecision bytes_lt.
Proof. intros a b. unfold bytes_lt. solve_decision. Defined.

Lemma Compare_refl a : Compare a a = Eq.
Proof. induction a as [|x a IH]; simpl; [done|]. by rewrite Z.compare_refl. Qed.

Lemma Compare_eq a b : Compare a b = Eq ↔ a = b.
Proof.
  split; [|intros ->; apply Compare_refl].
  revert b. induction a as [|x a IH]; intros [|y b]; simpl; try done.
  destruct (Z.compare_spec (byte_to_Z x) (byte_to_Z y)) as [E| |]; try done.
  intros H%IH. by rewrite (byte_to_Z_inj _ _ E), H.
Qed.

Lemma Compare_antisym a b : Compare b a = CompOpp (Compare a b).
Proof.
  revert b. induction a as [|x a IH]; intros [|y b]; simpl; try done.
  rewrite (Z.compare_antisym (byte_to_Z x)). destruct (byte_to_Z x ?= byte_to_Z y)%Z; simpl; auto.
Qed.

Lemma Compare_gt a b : Compare a b = Gt ↔ b ≺ a.
Proof. unfold bytes_lt. rewrite (Compare_antisym a b). by destruct (Compare a b). Qed.

#[export] Instance bytes_lt_trans : Transitive bytes_lt.
Proof.
  unfold bytes_lt. intros a. induction a as [|x a IH]; intros [|y b] [|z c]; simpl; try done.
  destruct (Z.compare_spec (byte_to_Z x) (byte_to_Z y)) as [E1|L1|];
    destruct (Z.compare_spec (byte_to_Z y) (byte_to_Z z)) as [E2|L2|]; try done; intros Hab Hbc.
  - rewrite E1, E2, Z.compare_refl. by eapply IH.
  - rewrite E1. by apply Z.compare_lt_iff in L2 as ->.
  - rewrite <- E2. by apply Z.compare_lt_iff in L1 as ->.
  - assert (byte_to_Z x < byte_to_Z z)%Z as L by lia. by apply Z.compare_lt_iff in L as ->.
Qed.

Lemma bytes_lt_irrefl a : ¬ a ≺ a.
Proof. unfold bytes_lt. by rewrite Compare_refl. Qed.

#[export] Instance bytes_lt_strict : StrictOrder bytes_lt.
Proof. split; [exact bytes_lt_irrefl|apply _]. Qed.

Lemma bytes_trichotomy a b : a ≺ b ∨ a = b ∨ b ≺ a.
Proof.
  destruct (Compare a b) eqn:E; [right; left; by apply Compare_eq|by left|].
  right. right. by apply Compare_gt.
Qed.

(** ** Sorted association lists *)

Definition entry : Type := bytes * bytes.
Definition sorted_entries (l : list entry) : Prop := StronglySorted bytes_lt (fst <$> l).

(** Insert or replace, keeping the order. *)
Fixpoint mput (k v : bytes) (l : list entry) : list entry :=
  match l with
  | [] => [(k, v)]
  | (k', v') :: l' =>
      match Compare k k' with
      | Lt => (k, v) :: l
      | Eq => (k, v) :: l'
      | Gt => (k', v') :: mput k v l'
      end
  end.

Definition to_gmap (l : list entry) : gmap bytes bytes := list_to_map l.

Lemma sorted_cons_inv k v l :
  sorted_entries ((k, v) :: l) → sorted_entries l ∧ ∀ k' v', (k', v') ∈ l → k ≺ k'.
Proof.
  intros H. apply StronglySorted_inv in H as [Hs Hk]. split; [done|]. intros k' v' Hin.
  rewrite Forall_forall in Hk. apply Hk, (list_elem_of_fmap_2 fst _ _ Hin).
Qed.

Lemma sorted_NoDup l : sorted_entries l → NoDup (fst <$> l).
Proof.
  unfold sorted_entries. induction (fst <$> l) as [|k ks IH]; intros Hs; constructor.
  - apply StronglySorted_inv in Hs as [_ Hk]. intros Hin. rewrite Forall_forall in Hk.
    by apply (bytes_lt_irrefl k), Hk.
  - apply IH. by apply StronglySorted_inv in Hs as [? _].
Qed.

Lemma to_gmap_lookup l k v : sorted_entries l → to_gmap l !! k = Some v ↔ (k, v) ∈ l.
Proof. intros Hs. symmetry. apply elem_of_list_to_map. by apply sorted_NoDup. Qed.

Lemma to_gmap_none l k : to_gmap l !! k = None ↔ k ∉ fst <$> l.
Proof. symmetry. apply not_elem_of_list_to_map. Qed.

Lemma mput_keys k v l k' : k' ∈ fst <$> mput k v l → k' = k ∨ k' ∈ fst <$> l.
Proof.
  induction l as [|[k1 v1] l IH]; simpl; [rewrite list_elem_of_singleton; auto|].
  destruct (Compare k k1) eqn:E; simpl; rewrite !elem_of_cons; tauto.
Qed.

Lemma mput_sorted k v l : sorted_entries l → sorted_entries (mput k v l).
Proof.
  unfold sorted_entries. induction l as [|[k1 v1] l IH]; simpl; intros Hs; [by repeat constructor|].
  apply StronglySorted_inv in Hs as Hs'. destruct Hs' as [Hs1 Hk]. destruct (Compare k k1) eqn:E; simpl.
  - apply Compare_eq in E as ->. by constructor.
  - constructor; [by constructor|]. constructor; [done|].
    eapply Forall_impl; [exact Hk|]. intros x Hx. by transitivity k1.
  - constructor; [by apply IH|]. rewrite Forall_forall in Hk |- *. intros x [->|Hx]%mput_keys.
    + by apply Compare_gt.
    + by apply Hk.
Qed.

Lemma to_gmap_mput k v l : sorted_entries l → to_gmap (mput k v l) = <[k := v]> (to_gmap l).
Proof.
  induction l as [|[k1 v1] l IH]; intros Hs; [done|]. cbn [mput].
  apply sorted_cons_inv in Hs as [Hs1 Hk]. destruct (Compare k k1) eqn:E.
  - apply Compare_eq in E as ->. cbn. by rewrite insert_insert_eq.
  - done.
  - cbn. change (list_to_map (mput k v l)) with (to_gmap (mput k v l)).
    rewrite IH by done. apply insert_insert_ne. intros ->. by rewrite Compare_refl in E.
Qed.

(** [mput] on a list split at the key. *)
Lemma mput_split k v l1 l2 :
  Forall (λ e, e.1 ≺ k) l1 → mput k v (l1 ++ l2) = l1 ++ mput k v l2.
Proof.
  induction l1 as [|[k1 v1] l1 IH]; intros H; [done|]. apply Forall_cons in H as [Hk H].
  cbn [app mput]. simpl in Hk. apply Compare_gt in Hk as ->. by rewrite IH.
Qed.

Lemma sorted_size l : sorted_entries l → size (to_gmap l) = length l.
Proof.
  intros Hs. rewrite <- length_map_to_list.
  transitivity (length (fst <$> map_to_list (to_gmap l))); [by rewrite length_fmap|].
  transitivity (length (fst <$> l)); [|apply length_fmap].
  apply Permutation_length, NoDup_Permutation.
  - apply NoDup_fst_map_to_list.
  - by apply sorted_NoDup.
  - intros k. split.
    + intros ([k' v] & -> & Hin%elem_of_map_to_list)%list_elem_of_fmap.
      apply elem_of_list_to_map_2 in Hin. by apply (list_elem_of_fmap_2 fst _ _ Hin).
    + intros ([k' v] & -> & Hin)%list_elem_of_fmap.
      apply (to_gmap_lookup l k' v Hs), elem_of_map_to_list in Hin.
      by apply (list_elem_of_fmap_2 fst _ _ Hin).
Qed.

(** A sorted list is determined by its map. *)
Lemma sorted_entries_unique l1 l2 :
  sorted_entries l1 → sorted_entries l2 → to_gmap l1 = to_gmap l2 → l1 = l2.
Proof.
  revert l2. induction l1 as [|[k1 v1] l1 IH]; intros [|[k2 v2] l2] H1 H2 E; [done|..].
  - assert (to_gmap [] !! k2 = Some v2) as H by (rewrite E; apply lookup_insert_eq). done.
  - assert (to_gmap [] !! k1 = Some v1) as H by (rewrite <- E; apply lookup_insert_eq). done.
  - assert ((k1, v1) ∈ (k2, v2) :: l2) as Hin1.
    { apply (to_gmap_lookup _ _ _ H2). rewrite <- E. apply lookup_insert_eq. }
    assert ((k2, v2) ∈ (k1, v1) :: l1) as Hin2.
    { apply (to_gmap_lookup _ _ _ H1). rewrite E. apply lookup_insert_eq. }
    apply sorted_cons_inv in H1 as [Hs1 Hk1]. apply sorted_cons_inv in H2 as [Hs2 Hk2].
    assert ((k1, v1) = (k2, v2)) as [= -> ->].
    { apply elem_of_cons in Hin1 as [->|Hin1]; [done|]. apply elem_of_cons in Hin2 as [->|Hin2]; [done|].
      apply Hk2 in Hin1. apply Hk1 in Hin2. exfalso. apply (bytes_lt_irrefl k1). by transitivity k2. }
    f_equal. apply IH; [done|done|]. apply map_eq. intros k.
    pose proof (f_equal (lookup k) E) as Ek. cbn in Ek. destruct (decide (k = k2)) as [->|Hne].
    + assert (∀ l v, (∀ k' v', (k', v') ∈ l → k2 ≺ k') → to_gmap l !! k2 = Some v → False) as Hno.
      { intros l v Hl Hv. apply elem_of_list_to_map_2 in Hv. apply Hl in Hv. by apply bytes_lt_irrefl in Hv. }
      destruct (to_gmap l1 !! k2) eqn:E1; [by eapply Hno in E1|].
      destruct (to_gmap l2 !! k2) eqn:E2; [by eapply Hno in E2|done].
    + by rewrite !lookup_insert_ne in Ek by done.
Qed.
