(* ===== verification/MemDB.v ===== *)
(** * The in-memory table (core/store/overlaydb/memdb.go)

    A skip list in two flat arrays: [kvData] holds keys and values, [nodeData]
    holds per node the offset of its key, the lengths of key and value, its height
    and one successor per level.  Indices are [nat] (they are positions in
    buffers that exist); [None] is an index out of range.  The generator of
    [math/rand] is a parameter: the table is correct for any heights.

    [mem_ok p ns] relates a table to the list [ns] of its nodes in key order;
    [Put] and [Delete] refine insertion into a sorted association list. *)

From S2P Require Import Prelude BytesOrder.

(** [rand.New(rand.NewSource(0xdeadbeef))] and its [Int]. *)
Class Rand := {
  rnd_state : Type;
  rnd_init : rnd_state;
  rnd_Int : rnd_state → Z * rnd_state;
}.

Definition tMaxHeight : nat := 12.
Definition nKV : nat := 0.
Definition nKey : nat := 1.
Definition nVal : nat := 2.
Definition nHeight : nat := 3.
Definition nNext : nat := 4.

Record MemDB `{Rand} := mkMemDB {
  rnd : rnd_state;
  kvData : bytes;
  nodeData : list nat;
  prevNode : list nat;
  maxHeight : nat;
  db_n : nat;
  kvSize : Z;
}.

(** Array store [l[i] = x] and slice [l[o:o+n]], with their bounds checks. *)
Definition set_at (l : list nat) (i x : nat) : option (list nat) :=
  if decide (i < length l)%nat then Some (<[i := x]> l) else None.
Definition slice_at (l : bytes) (o n : nat) : option bytes :=
  if decide (o + n ≤ length l)%nat then Some (take n (drop o l)) else None.

Section memdb.
Context `{Rand}.
Implicit Types p : MemDB.

(** ** The code *)

Fixpoint randHeight_loop (fuel h : nat) (r : rnd_state) : nat * rnd_state :=
  match fuel with
  | O => (h, r)
  | S fuel' =>
      if decide (h < tMaxHeight)%nat then
        let '(x, r') := rnd_Int r in
        if decide (x mod 4 = 0) then randHeight_loop fuel' (S h) r' else (h, r')
      else (h, r)
  end.
Definition randHeight (r : rnd_state) : nat * rnd_state := randHeight_loop tMaxHeight 1 r.

(** [p.kvData[o : o+p.nodeData[node+nKey]]] with [o = p.nodeData[node]]. *)
Definition node_key p (node : nat) : option bytes :=
  o ← nodeData p !! node;
  n ← nodeData p !! (node + nKey)%nat;
  slice_at (kvData p) o n.

Fixpoint findGE_loop (fuel : nat) (key : bytes) (prev : bool) p (node h : nat) (pn : list nat)
    : option (nat * bool * list nat) :=
  match fuel with
  | O => None
  | S fuel' =>
      next ← nodeData p !! (node + nNext + h)%nat;
      cmp ← (if decide (next ≠ 0%nat) then k ← node_key p next; Some (Compare k key) else Some Gt);
      match cmp with
      | Lt => findGE_loop fuel' key prev p next h pn
      | _ =>
          pn' ← (if prev then set_at pn h node else Some pn);
          if negb prev && bool_decide (cmp = Eq) then Some (next, true, pn')
          else match h with
               | O => Some (next, bool_decide (cmp = Eq), pn')
               | S h' => findGE_loop fuel' key prev p node h' pn'
               end
      end
  end.

Definition search_fuel p : nat := length (nodeData p) + tMaxHeight.

Definition findGE (key : bytes) (prev : bool) p : option (nat * bool * list nat) :=
  findGE_loop (search_fuel p) key prev p 0 (maxHeight p - 1) (prevNode p).

(** [for i := p.maxHeight; i < h; i++ { p.prevNode[i] = 0 }]. *)
Fixpoint zero_prev (n i : nat) (pn : list nat) : option (list nat) :=
  match n with
  | O => Some pn
  | S n' => pn' ← set_at pn i 0; zero_prev n' (S i) pn'
  end.

(** [for i, n := range p.prevNode[:h] { ... }]. *)
Fixpoint link_loop (ps : list nat) (i node : nat) (nd : list nat) : option (list nat) :=
  match ps with
  | [] => Some nd
  | n :: ps' =>
      let m := (n + nNext + i)%nat in
      x ← nd !! m;
      nd' ← set_at (nd ++ [x]) m node;
      link_loop ps' (S i) node nd'
  end.

Definition Put_exact (key value : bytes) (node : nat) p : option MemDB :=
  p ← (if decide (length value ≠ 0)%nat then
         nd ← set_at (nodeData p) node (length (kvData p));
         Some (mkMemDB _ (rnd p) (kvData p ++ key ++ value) nd (prevNode p) (maxHeight p) (db_n p) (kvSize p))
       else Some p);
  m ← nodeData p !! (node + nVal)%nat;
  nd ← set_at (nodeData p) (node + nVal) (length value);
  Some (mkMemDB _ (rnd p) (kvData p) nd (prevNode p) (maxHeight p) (db_n p)
          (kvSize p + (blen value - Z.of_nat m))).

Definition Put_new (key value : bytes) p : option MemDB :=
  let '(h, r) := randHeight (rnd p) in
  pn ← (if decide (maxHeight p < h)%nat then zero_prev (h - maxHeight p) (maxHeight p) (prevNode p)
        else Some (prevNode p));
  let mh := if decide (maxHeight p < h)%nat then h else maxHeight p in
  let kvOffset := length (kvData p) in
  let node := length (nodeData p) in
  if decide (h ≤ length pn)%nat then
    nd ← link_loop (take h pn) 0 node (nodeData p ++ [kvOffset; length key; length value; h]);
    Some (mkMemDB _ r (kvData p ++ key ++ value) nd pn mh (S (db_n p))
            (kvSize p + (blen key + blen value)))
  else None.

Definition Put (key value : bytes) p : option MemDB :=
  '(node, exact, pn) ← findGE key true p;
  let p := mkMemDB _ (rnd p) (kvData p) (nodeData p) pn (maxHeight p) (db_n p) (kvSize p) in
  if (exact : bool) then Put_exact key value node p else Put_new key value p.

Definition Delete (key : bytes) p : option MemDB := Put key [] p.

(** The value ([nil] is the empty slice) and [unknown]. *)
Definition Get (key : bytes) p : option (bytes * bool) :=
  '(node, exact, _) ← findGE key false p;
  if (exact : bool) then
    valen ← nodeData p !! (node + nVal)%nat;
    if decide (valen ≠ 0)%nat then
      o1 ← nodeData p !! node;
      o2 ← nodeData p !! (node + nKey)%nat;
      value ← slice_at (kvData p) (o1 + o2) valen;
      Some (value, false)
    else Some ([], false)
  else Some ([], true).

(** The key and value slices of a node, as [ForEach] and [fill] take them. *)
Definition node_entry p (node : nat) : option entry :=
  n ← nodeData p !! node;
  kl ← nodeData p !! (node + nKey)%nat;
  key ← slice_at (kvData p) n kl;
  vl ← nodeData p !! (node + nVal)%nat;
  val ← slice_at (kvData p) (n + kl) vl;
  Some (key, val).

Definition Find (key : bytes) p : option (res entry) :=
  '(node, _, _) ← findGE key false p;
  if decide (node ≠ 0)%nat then e ← node_entry p node; Some (Ok e)
  else Some (Err "leveldb: not found").

(** The pairs [ForEach] calls its argument on, in order. *)
Fixpoint ForEach_loop (fuel : nat) p (node : nat) : option (list entry) :=
  match fuel with
  | O => None
  | S fuel' =>
      if decide (node ≠ 0)%nat then
        e ← node_entry p node;
        next ← nodeData p !! (node + nNext)%nat;
        es ← ForEach_loop fuel' p next;
        Some (e :: es)
      else Some []
  end.
Definition ForEach p : option (list entry) :=
  node ← nodeData p !! nNext; ForEach_loop (search_fuel p) p node.

Definition db_Size p : Z := kvSize p.
Definition db_Len p : nat := db_n p.

Definition head_data : list nat := [0; 0; 0; tMaxHeight]%nat ++ replicate tMaxHeight 0%nat.

Definition Reset p : MemDB := mkMemDB _ rnd_init [] head_data (replicate tMaxHeight 0%nat) 1 0 0.
Definition NewMemDB : MemDB := mkMemDB _ rnd_init [] head_data (replicate tMaxHeight 0%nat) 1 0 0.

(** ** The invariant *)

Record anode := mkANode { a_pos : nat; a_h : nat; a_key : bytes; a_val : bytes }.
Definition a_head : anode := mkANode 0 tMaxHeight [] [].
Definition a_entry (a : anode) : entry := (a_key a, a_val a).
Definition entries (ns : list anode) : list entry := a_entry <$> ns.

(** The first node of a suffix that takes part in level [i]. *)
Fixpoint first_at (i : nat) (l : list anode) : option anode :=
  match l with
  | [] => None
  | a :: l' => if decide (i < a_h a)%nat then Some a else first_at i l'
  end.
Definition pos_of (o : option anode) : nat := from_option a_pos 0%nat o.

Record node_ok p (a : anode) : Prop := {
  n_pos : (0 < a_pos a)%nat;
  n_height : (1 ≤ a_h a ≤ maxHeight p)%nat;
  n_klen : nodeData p !! (a_pos a + nKey)%nat = Some (length (a_key a));
  n_vlen : nodeData p !! (a_pos a + nVal)%nat = Some (length (a_val a));
  n_data : ∃ o, nodeData p !! a_pos a = Some o ∧
    slice_at (kvData p) o (length (a_key a)) = Some (a_key a) ∧
    slice_at (kvData p) (o + length (a_key a)) (length (a_val a)) = Some (a_val a);
}.

(** What [Size] reports: the bytes of the current keys and values. *)
Definition entries_size (ns : list anode) : nat :=
  sum_list_with (λ a, length (a_key a) + length (a_val a))%nat ns.

Definition a_end (a : anode) : nat := (a_pos a + nNext + a_h a)%nat.

Record mem_ok p (ns : list anode) : Prop := {
  m_sorted : sorted_entries (entries ns);
  m_prev : length (prevNode p) = tMaxHeight;
  m_height : (1 ≤ maxHeight p ≤ tMaxHeight)%nat;
  m_nodes : Forall (node_ok p) ns;
  m_links : ∀ l1 a l2, a_head :: ns = l1 ++ a :: l2 → ∀ i, (i < a_h a)%nat →
    nodeData p !! (a_pos a + nNext + i)%nat = Some (pos_of (first_at i l2));
  m_nodup : NoDup (a_pos <$> a_head :: ns);
  m_disjoint : ∀ a b, a ∈ a_head :: ns → b ∈ a_head :: ns → (a_pos a < a_pos b)%nat →
    (a_end a ≤ a_pos b)%nat;
  m_bound : ∀ a, a ∈ a_head :: ns → (a_end a ≤ length (nodeData p))%nat;
  m_len : db_n p = length ns;
  m_size : kvSize p = Z.of_nat (entries_size ns);
}.

(** ** Searching *)

Lemma slice_at_app l o n x l' : slice_at l o n = Some x → slice_at (l ++ l') o n = Some x.
Proof.
  unfold slice_at. case_decide; [|done]. intros [= <-].
  rewrite decide_True by (rewrite length_app; lia).
  by rewrite drop_app_le, take_app_le by (rewrite ?length_drop; lia).
Qed.

Lemma slice_at_end l x l' : slice_at (l ++ x ++ l') (length l) (length x) = Some x.
Proof.
  unfold slice_at. rewrite decide_True by (rewrite !length_app; lia).
  by rewrite drop_app_length, take_app_length.
Qed.

Lemma set_at_ok l i x : (i < length l)%nat → set_at l i x = Some (<[i := x]> l).
Proof. intros. unfold set_at. by rewrite decide_True. Qed.

Lemma first_at_app i l1 l2 :
  first_at i (l1 ++ l2) = match first_at i l1 with Some a => Some a | None => first_at i l2 end.
Proof. induction l1 as [|a l1 IH]; [done|]. simpl. by case_decide. Qed.

Lemma first_at_Some i l a :
  first_at i l = Some a → ∃ m1 m2, l = m1 ++ a :: m2 ∧ first_at i m1 = None ∧ (i < a_h a)%nat.
Proof.
  induction l as [|b l IH]; simpl; [done|]. case_decide as Hb.
  - intros [= ->]. by exists [], l.
  - intros (m1 & m2 & -> & Hm & Ha)%IH. exists (b :: m1), m2. simpl. by rewrite decide_False.
Qed.

Lemma first_at_None i l : first_at i l = None ↔ Forall (λ a, a_h a ≤ i)%nat l.
Proof.
  induction l as [|b l IH]; simpl; [by split; [constructor|]|]. rewrite Forall_cons. case_decide as Hb.
  - split; [done|]. intros [? _]. lia.
  - rewrite IH. split; [|tauto]. intros. split; [lia|done].
Qed.

Lemma node_key_ok p a : node_ok p a → node_key p (a_pos a) = Some (a_key a).
Proof.
  intros [_ _ Hk _ (o & Ho & Hs & _)]. unfold node_key. rewrite Ho. cbn [mbind option_bind].
  rewrite Hk. done.
Qed.

Lemma node_entry_ok p a : node_ok p a → node_entry p (a_pos a) = Some (a_entry a).
Proof.
  intros [_ _ Hk Hv (o & Ho & Hs & Hs2)]. unfold node_entry. rewrite Ho. cbn [mbind option_bind].
  rewrite Hk. cbn [mbind option_bind]. rewrite Hs. cbn [mbind option_bind]. rewrite Hv.
  cbn [mbind option_bind]. by rewrite Hs2.
Qed.

(** The split of the nodes at a key. *)
Definition split_at (key : bytes) (ns lt ge : list anode) : Prop :=
  ns = lt ++ ge ∧ Forall (λ a, a_key a ≺ key) lt ∧ Forall (λ a, ¬ a_key a ≺ key) ge.

Lemma split_exists key ns : sorted_entries (entries ns) → ∃ lt ge, split_at key ns lt ge.
Proof.
  unfold sorted_entries, entries. induction ns as [|a ns IH]; intros Hs.
  - exists [], []. by split_and!.
  - simpl in Hs. apply StronglySorted_inv in Hs as [Hs Ha].
    destruct (IH Hs) as (lt & ge & -> & Hlt & Hge). destruct (decide (a_key a ≺ key)) as [Hk|Hk].
    + exists (a :: lt), ge. split_and!; [done|by constructor|done].
    + exists [], (a :: lt ++ ge). split_and!; [done|constructor|]. constructor; [done|].
      rewrite Forall_forall in Ha. apply Forall_forall. intros b Hb Hbk. apply Hk.
      etrans; [|exact Hbk]. apply Ha. rewrite <- list_fmap_compose.
      by apply (list_elem_of_fmap_2 (λ a, (a_entry a).1)).
Qed.

Lemma sorted_app_lt l1 l2 a b :
  sorted_entries (entries (l1 ++ l2)) → a ∈ l1 → b ∈ l2 → a_key a ≺ a_key b.
Proof.
  unfold sorted_entries, entries. rewrite !fmap_app. intros Hs Ha Hb.
  eapply StronglySorted_app_1_elem_of; [exact Hs| |].
  - by apply (list_elem_of_fmap_2 fst _ (a_entry a)), list_elem_of_fmap_2.
  - by apply (list_elem_of_fmap_2 fst _ (a_entry b)), list_elem_of_fmap_2.
Qed.

(** In the upper part only the first node can have the key itself. *)
Lemma split_exact key ns lt c ge m1 m2 :
  sorted_entries (entries ns) → split_at key ns lt ge → ge = m1 ++ c :: m2 → a_key c = key → m1 = [].
Proof.
  intros Hs (-> & _ & Hge) -> Hc. destruct m1 as [|b m1]; [done|exfalso].
  apply Forall_cons in Hge as [Hb _]. apply Hb. rewrite <- Hc.
  rewrite (app_assoc lt (b :: m1)) in Hs. eapply sorted_app_lt; [exact Hs|set_solver..].
Qed.

(** [last_at i l] is the last node of [l] on level [i]. *)
Definition last_at (i : nat) (l : list anode) (a : anode) : Prop :=
  ∃ l1 l2, l = l1 ++ a :: l2 ∧ (i < a_h a)%nat ∧ first_at i l2 = None.

(** What the search returns, for the split of the nodes at the key. *)
Definition found (key : bytes) (ge : list anode) : nat * bool :=
  match ge with
  | [] => (0%nat, false)
  | c :: _ => (a_pos c, bool_decide (a_key c = key))
  end.

Lemma compare_ge k key : ¬ k ≺ key → Compare k key ≠ Lt ∧ bool_decide (Compare k key = Eq) = bool_decide (k = key).
Proof.
  unfold bytes_lt. intros Hk. split; [done|]. apply bool_decide_ext. apply Compare_eq.
Qed.

Lemma findGE_loop_ok p ns lt ge key prev :
  mem_ok p ns → split_at key ns lt ge →
  ∀ fuel h l1 a l2 pn,
    a_head :: lt = l1 ++ a :: l2 → (h < a_h a)%nat → (length l2 + h < fuel)%nat →
    length pn = tMaxHeight → (h < tMaxHeight)%nat →
    ∃ pn', findGE_loop fuel key prev p (a_pos a) h pn = Some (found key ge, pn') ∧
      length pn' = tMaxHeight ∧
      if prev then (∀ i, (i ≤ h)%nat → ∃ b, last_at i (a_head :: lt) b ∧ pn' !! i = Some (a_pos b)) ∧
                   (∀ i, (h < i)%nat → pn' !! i = pn !! i)
      else pn' = pn.
Proof.
  intros Hok Hsp. pose proof Hsp as (Hns & Hlt & Hge).
  induction fuel as [|fuel IH]; intros h l1 a l2 pn Hsplit Ha Hf Hpn Hh; [lia|].
  cbn [findGE_loop]. rewrite (m_links _ _ Hok l1 a (l2 ++ ge)); [|by rewrite Hns, app_comm_cons, Hsplit, <- app_assoc|done].
  cbn [mbind option_bind]. rewrite first_at_app.
  pose proof (m_nodes _ _ Hok) as Hnodes. rewrite Hns, Forall_app in Hnodes.
  destruct Hnodes as [Hnl Hng]. rewrite Forall_forall in Hnl, Hng.
  destruct (first_at h l2) as [b|] eqn:Eb.
  - (* keep searching in this list *)
    apply first_at_Some in Eb as (m1 & m2 & -> & Hm1 & Hb). cbn [pos_of from_option].
    assert (b ∈ lt) as Hin.
    { destruct l1 as [|x l1]; simplify_eq/=; set_solver. }
    pose proof (Hnl b Hin) as Hbok. pose proof (n_pos _ _ Hbok).
    rewrite decide_True by (unfold default, id in *; lia). rewrite (node_key_ok p b) by done.
    cbn [mbind option_bind]. rewrite Forall_forall in Hlt. rewrite (Hlt b Hin).
    destruct (IH h (l1 ++ a :: m1) b m2 pn) as (pn' & E & Hpn'); [|done| |done|done|by exists pn'].
    + by rewrite Hsplit, <- app_assoc.
    + rewrite length_app in Hf. simpl in Hf. lia.
  - (* the level is exhausted *)
    set (cmp := match first_at h ge with Some c => Compare (a_key c) key | None => Gt end).
    assert ((if decide (pos_of (first_at h ge) ≠ 0%nat)
             then k ← node_key p (pos_of (first_at h ge)); Some (Compare k key) else Some Gt) = Some cmp) as ->.
    { subst cmp. destruct (first_at h ge) as [c|] eqn:Ec; [|done].
      apply first_at_Some in Ec as (m1 & m2 & -> & _ & _). cbn [pos_of from_option].
      assert (node_ok p c) as Hc by (apply Hng; set_solver). pose proof (n_pos _ _ Hc).
      rewrite decide_True by lia. by rewrite node_key_ok. }
    cbn [mbind option_bind].
    assert (cmp ≠ Lt) as Hcmp.
    { subst cmp. destruct (first_at h ge) as [c|] eqn:Ec; [|done].
      apply first_at_Some in Ec as (m1 & m2 & -> & _ & _).
      apply Forall_app in Hge as [_ [Hc _]%Forall_cons]. by apply compare_ge. }
    assert (last_at h (a_head :: lt) a) as Hlast by (by exists l1, l2).
    assert (∃ pn1, (if prev then set_at pn h (a_pos a) else Some pn) = Some pn1 ∧
      pn1 = (if prev then <[h := a_pos a]> pn else pn)) as (pn1 & -> & Hpn1).
    { destruct prev; [|by eauto]. rewrite set_at_ok by lia. eauto. }
    cbn [mbind option_bind].
    assert (length pn1 = tMaxHeight) by (subst; destruct prev; by rewrite ?length_insert).
    destruct (negb prev && bool_decide (cmp = Eq)) eqn:Eex.
    { apply andb_prop in Eex as [Ep Ec]. destruct prev; [done|]. apply bool_decide_eq_true_1 in Ec.
      exists pn. assert (found key ge = (pos_of (first_at h ge), true)) as ->; [|subst pn1; by destruct cmp].
      subst cmp. destruct (first_at h ge) as [c|] eqn:E; [|done]. apply Compare_eq in Ec.
      apply first_at_Some in E as (m1 & m2 & Hge' & _ & _).
      pose proof (split_exact _ _ _ _ _ _ _ (m_sorted _ _ Hok) Hsp Hge' Ec) as ->. subst ge. simpl.
      by rewrite bool_decide_true. }
    destruct h as [|h].
    + exists pn1. assert (found key ge = (pos_of (first_at 0 ge), bool_decide (cmp = Eq))) as ->.
      { subst cmp. destruct ge as [|c ge]; [done|]. simpl.
        assert (node_ok p c) as Hc by (apply Hng; set_solver). pose proof (n_height _ _ Hc).
        rewrite decide_True by lia. simpl. f_equal. apply Forall_cons in Hge as [Hc' _].
        symmetry. by apply compare_ge. }
      split; [by destruct cmp|]. split; [done|]. destruct prev; [|done]. subst pn1. split.
      * intros i Hi. replace i with 0%nat by lia. exists a. split; [done|].
        apply list_lookup_insert_eq. lia.
      * intros i Hi. by apply list_lookup_insert_ne; lia.
    + destruct (IH h l1 a l2 pn1) as (pn' & E & Hl & Hprev); [done|lia|lia|done|lia|].
      exists pn'. split; [by destruct cmp|]. split; [done|].
      destruct prev; [|by subst]. destruct Hprev as [Hlow Hhigh]. split.
      * intros i Hi. destruct (decide (i = S h)) as [->|Hne]; [|apply Hlow; lia].
        exists a. split; [done|]. rewrite Hhigh by lia. subst pn1. apply list_lookup_insert_eq. lia.
      * intros i Hi. rewrite Hhigh by lia. subst pn1. apply list_lookup_insert_ne. lia.
Qed.

Lemma length_nodes p ns : mem_ok p ns → (length ns < length (nodeData p))%nat.
Proof.
  intros Hok. assert (length (a_pos <$> a_head :: ns) ≤ length (seq 0 (length (nodeData p))))%nat as Hle.
  { apply submseteq_length, NoDup_submseteq; [apply (m_nodup _ _ Hok)|].
    intros x (a & -> & Ha)%list_elem_of_fmap. apply elem_of_seq.
    pose proof (m_bound _ _ Hok a Ha). unfold a_end, nNext in *. lia. }
  rewrite length_fmap, length_seq in Hle. simpl in Hle. lia.
Qed.

Lemma findGE_ok p ns lt ge key prev :
  mem_ok p ns → split_at key ns lt ge →
  ∃ pn', findGE key prev p = Some (found key ge, pn') ∧ length pn' = tMaxHeight ∧
    if prev then ∀ i, (i < maxHeight p)%nat →
      ∃ b, last_at i (a_head :: lt) b ∧ pn' !! i = Some (a_pos b)
    else pn' = prevNode p.
Proof.
  intros Hok Hsp. pose proof (m_height _ _ Hok). pose proof (length_nodes _ _ Hok).
  assert (length lt ≤ length ns)%nat by (destruct Hsp as (-> & _); rewrite length_app; lia).
  destruct (findGE_loop_ok p ns lt ge key prev Hok Hsp (search_fuel p) (maxHeight p - 1) [] a_head lt (prevNode p))
    as (pn' & E & Hl & Hprev); [done|simpl; lia|unfold search_fuel; lia|apply Hok|lia|].
  exists pn'. split_and!; [done|done|]. destruct prev; [|done].
  intros i Hi. apply Hprev. lia.
Qed.

(** ** Reading *)

Lemma Get_ok p ns lt ge key :
  mem_ok p ns → split_at key ns lt ge →
  Get key p = Some match ge with
                   | c :: _ => if decide (a_key c = key) then (a_val c, false) else ([], true)
                   | [] => ([], true)
                   end.
Proof.
  intros Hok Hsp. destruct (findGE_ok _ _ _ _ _ false Hok Hsp) as (pn' & E & _ & _).
  unfold Get. rewrite E. destruct ge as [|c ge]; [done|]. cbn [found mbind option_bind].
  case_decide as Hc; [|by rewrite bool_decide_false]. rewrite bool_decide_true by done.
  assert (node_ok p c) as [_ _ Hk Hv (o & Ho & Hs & Hs2)].
  { destruct Hsp as (Hns & _ & _). pose proof (m_nodes _ _ Hok) as Hn. rewrite Hns, Forall_app in Hn.
    by destruct Hn as [_ [? _]%Forall_cons]. }
  rewrite Hv. cbn [mbind option_bind]. case_decide as Hz.
  - rewrite Ho. cbn [mbind option_bind]. rewrite Hk. cbn [mbind option_bind]. by rewrite Hs2.
  - destruct (a_val c); [done|simpl in Hz; lia].
Qed.

Lemma ForEach_loop_ok p ns :
  mem_ok p ns → ∀ l2 l1 fuel, ns = l1 ++ l2 → (length l2 < fuel)%nat →
  ForEach_loop fuel p (pos_of (first_at 0 l2)) = Some (entries l2).
Proof.
  intros Hok. induction l2 as [|a l2 IH]; intros l1 fuel Hns Hf; (destruct fuel as [|fuel]; [simpl in Hf; lia|]).
  { done. }
  assert (node_ok p a) as Ha.
  { pose proof (m_nodes _ _ Hok) as Hn. rewrite Hns, Forall_app in Hn. by destruct Hn as [_ [? _]%Forall_cons]. }
  pose proof (n_pos _ _ Ha). pose proof (n_height _ _ Ha).
  cbn [first_at]. rewrite decide_True by lia. cbn [pos_of from_option ForEach_loop].
  rewrite decide_True by lia. rewrite node_entry_ok by done. cbn [mbind option_bind].
  pose proof (m_links _ _ Hok (a_head :: l1) a l2) as Hl. specialize (Hl ltac:(by rewrite Hns) 0%nat ltac:(lia)).
  rewrite Nat.add_0_r in Hl. rewrite Hl. cbn [mbind option_bind].
  rewrite (IH (l1 ++ [a])); [done| |simpl in Hf; lia]. by rewrite Hns, <- app_assoc.
Qed.

Lemma ForEach_ok p ns : mem_ok p ns → ForEach p = Some (entries ns).
Proof.
  intros Hok. unfold ForEach.
  pose proof (m_links _ _ Hok [] a_head ns eq_refl 0%nat ltac:(simpl; unfold tMaxHeight; lia)) as Hl.
  change (a_pos a_head + nNext + 0)%nat with nNext in Hl. rewrite Hl. cbn [mbind option_bind].
  apply (ForEach_loop_ok p ns Hok ns []); [done|].
  pose proof (length_nodes _ _ Hok). unfold search_fuel. lia.
Qed.

Lemma Find_ok p ns lt ge key :
  mem_ok p ns → split_at key ns lt ge →
  Find key p = Some match ge with
                    | c :: _ => Ok (a_entry c)
                    | [] => Err "leveldb: not found"
                    end.
Proof.
  intros Hok Hsp. destruct (findGE_ok _ _ _ _ _ false Hok Hsp) as (pn' & E & _ & _).
  unfold Find. rewrite E. destruct ge as [|c ge]; [done|]. cbn [found mbind option_bind].
  assert (node_ok p c) as Hc.
  { destruct Hsp as (Hns & _ & _). pose proof (m_nodes _ _ Hok) as Hn. rewrite Hns, Forall_app in Hn.
    by destruct Hn as [_ [? _]%Forall_cons]. }
  pose proof (n_pos _ _ Hc). rewrite decide_True by lia. by rewrite node_entry_ok.
Qed.

(** ** Overwriting a value *)

(** Nodes only depend on the two arrays and the height bound. *)
Lemma node_ok_frame p p' a :
  node_ok p a → (∃ l, kvData p' = kvData p ++ l) → (maxHeight p ≤ maxHeight p')%nat →
  (∀ j, (j < nNext)%nat → nodeData p' !! (a_pos a + j)%nat = nodeData p !! (a_pos a + j)%nat) →
  node_ok p' a.
Proof.
  intros [Hp Hh Hk Hv (o & Ho & Hs & Hs2)] [l Hl] Hmax Hnd. unfold nNext in Hnd. split; [done|lia|..].
  - by rewrite Hnd by (unfold nKey; lia).
  - by rewrite Hnd by (unfold nVal; lia).
  - exists o. rewrite Hl. split_and!; [|by apply slice_at_app..].
    rewrite <- (Nat.add_0_r (a_pos a)), Hnd, Nat.add_0_r by lia. done.
Qed.

(** The cells of two nodes do not overlap. *)
Lemma cells_apart p ns a b i j :
  mem_ok p ns → a ∈ a_head :: ns → b ∈ a_head :: ns →
  (i < nNext + a_h a)%nat → (j < nNext + a_h b)%nat → (a_pos a + i = a_pos b + j)%nat →
  a_pos a = a_pos b ∧ i = j.
Proof.
  intros Hok Ha Hb Hi Hj E. pose proof (m_disjoint _ _ Hok a b Ha Hb) as H1.
  pose proof (m_disjoint _ _ Hok b a Hb Ha) as H2. unfold a_end in *. lia.
Qed.

(** Two decompositions of a list at elements with the same position agree. *)
Lemma split_unique L l1 a l2 l1' a' l2' :
  NoDup (a_pos <$> L) → L = l1 ++ a :: l2 → L = l1' ++ a' :: l2' → a_pos a = a_pos a' →
  a = a' ∧ l2 = l2'.
Proof.
  intros Hnd -> E Hpos. revert l1' E. induction l1 as [|x l1 IH]; intros l1' E;
    destruct l1' as [|y l1']; simplify_eq/=; apply NoDup_cons in Hnd as [Hx Hnd].
  - done.
  - exfalso. apply Hx. rewrite Hpos, fmap_app. apply elem_of_app. right. apply list_elem_of_here.
  - exfalso. apply Hx. rewrite <- Hpos, fmap_app. apply elem_of_app. right. apply list_elem_of_here.
  - by eapply IH.
Qed.

Definition set_val (c : anode) (v : bytes) : anode := mkANode (a_pos c) (a_h c) (a_key c) v.

Lemma first_at_set_val i l1 c v l2 :
  pos_of (first_at i (l1 ++ set_val c v :: l2)) = pos_of (first_at i (l1 ++ c :: l2)).
Proof. rewrite !first_at_app. destruct (first_at i l1); [done|]. simpl. by case_decide. Qed.

(** Changing the value of one node keeps every decomposition. *)
Lemma set_val_split L1 c v L2 l1 a l2 :
  L1 ++ set_val c v :: L2 = l1 ++ a :: l2 →
  ∃ l1' a' l2', L1 ++ c :: L2 = l1' ++ a' :: l2' ∧ a_pos a' = a_pos a ∧ a_h a' = a_h a ∧
    ∀ i, pos_of (first_at i l2') = pos_of (first_at i l2).
Proof.
  intros [(k & -> & E)|(k & -> & E)]%app_eq_inv.
  - destruct k as [|x k]; simplify_eq/=.
    + exists l1, c, L2. by rewrite app_nil_r.
    + exists l1, x, (k ++ c :: L2). split_and!; [by rewrite <- app_assoc|done|done|].
      intros i. by rewrite first_at_set_val.
  - destruct k as [|x k]; simplify_eq/=.
    + by exists L1, c, l2.
    + exists (L1 ++ c :: k), a, l2. split_and!; [by rewrite <- app_assoc|done..].
Qed.

Lemma set_val_elem L1 c v L2 a :
  a ∈ L1 ++ set_val c v :: L2 → ∃ a', a' ∈ L1 ++ c :: L2 ∧ a_pos a' = a_pos a ∧ a_h a' = a_h a.
Proof.
  intros [Ha|[->|Ha]%elem_of_cons]%elem_of_app; [exists a|exists c|exists a];
    (split; [set_solver|done]).
Qed.

Lemma entries_size_app l1 l2 : entries_size (l1 ++ l2) = (entries_size l1 + entries_size l2)%nat.
Proof. unfold entries_size. induction l1; simpl; lia. Qed.

(** An update of the value cells of one node. *)
Lemma mem_ok_set_val p p' lt c ge v :
  mem_ok p (lt ++ c :: ge) →
  (∃ l, kvData p' = kvData p ++ l) → prevNode p' = prevNode p → maxHeight p' = maxHeight p →
  db_n p' = db_n p → length (nodeData p') = length (nodeData p) →
  kvSize p' = kvSize p + (blen v - blen (a_val c)) →
  (∀ j, j ≠ a_pos c → j ≠ (a_pos c + nVal)%nat → nodeData p' !! j = nodeData p !! j) →
  node_ok p' (set_val c v) → mem_ok p' (lt ++ set_val c v :: ge).
Proof.
  intros Hok Hkv Hpn Hmh Hn Hlen Hsz Hnd Hc'. pose proof (m_nodup _ _ Hok) as Hdup.
  set (L := a_head :: lt ++ c :: ge).
  assert (∀ a i, a ∈ L → (i < nNext + a_h a)%nat → (nNext ≤ i)%nat →
            nodeData p' !! (a_pos a + i)%nat = nodeData p !! (a_pos a + i)%nat) as Hlink.
  { intros a i Ha Hi Hi4. assert (c ∈ L) as HcL by (subst L; set_solver).
    apply Hnd; intros E; unfold nNext, nVal in *.
    - rewrite <- (Nat.add_0_r (a_pos c)) in E. apply (cells_apart _ _ a c _ _ Hok Ha HcL) in E; unfold nNext in *; lia.
    - apply (cells_apart _ _ a c _ _ Hok Ha HcL) in E; unfold nNext in *; lia. }
  split.
  - pose proof (m_sorted _ _ Hok) as Hs. unfold sorted_entries, entries in *.
    rewrite !fmap_app, !fmap_cons in *. exact Hs.
  - rewrite Hpn. apply Hok.
  - rewrite Hmh. apply Hok.
  - pose proof (m_nodes _ _ Hok) as Hns. apply Forall_app in Hns as [Hlt Hge].
    apply Forall_cons in Hge as [Hc Hge].
    assert (∀ a, a ∈ lt ∨ a ∈ ge → node_ok p a → node_ok p' a) as Hother.
    { intros a Ha Haok. apply (node_ok_frame p); [done|done|lia|]. intros j Hj.
      assert (a_pos a ≠ a_pos c) as Hne.
      { intros E. rewrite fmap_cons, fmap_app, fmap_cons in Hdup. apply NoDup_cons in Hdup as [_ Hdup].
        apply NoDup_app in Hdup as (_ & H1 & H2). apply NoDup_cons in H2 as [H2 _].
        destruct Ha as [Ha|Ha]; apply (list_elem_of_fmap_2 a_pos) in Ha; rewrite E in Ha; [|done].
        apply (H1 _ Ha), list_elem_of_here. }
      assert (a ∈ L) as HaL by (subst L; set_solver). assert (c ∈ L) as HcL by (subst L; set_solver).
      apply Hnd; intros E; apply Hne; unfold nNext, nVal in *.
      - rewrite <- (Nat.add_0_r (a_pos c)) in E. apply (cells_apart _ _ a c _ _ Hok HaL HcL) in E; unfold nNext in *; lia.
      - apply (cells_apart _ _ a c _ _ Hok HaL HcL) in E; unfold nNext in *; lia. }
    rewrite Forall_forall in Hlt, Hge. apply Forall_app. split; [|constructor; [done|]];
      apply Forall_forall; auto.
  - intros l1 a l2 E i Hi. change (a_head :: lt ++ set_val c v :: ge) with ((a_head :: lt) ++ set_val c v :: ge) in E.
    apply set_val_split in E as (l1' & a' & l2' & E & Ep & Eh & Ef). rewrite <- Ef, <- Ep.
    rewrite <- Nat.add_assoc, Hlink.
    + rewrite Nat.add_assoc. apply (m_links _ _ Hok l1' a' l2' E). lia.
    + subst L. change (a_head :: lt ++ c :: ge) with ((a_head :: lt) ++ c :: ge). rewrite E. set_solver.
    + lia.
    + lia.
  - rewrite fmap_cons, fmap_app, fmap_cons in *. exact Hdup.
  - intros a b Ha Hb Hlt. change (a_head :: lt ++ set_val c v :: ge) with ((a_head :: lt) ++ set_val c v :: ge) in Ha, Hb.
    apply set_val_elem in Ha as (a' & Ha & E1 & E2). apply set_val_elem in Hb as (b' & Hb & E3 & E4).
    pose proof (m_disjoint _ _ Hok a' b' Ha Hb). unfold a_end in *. lia.
  - intros a Ha. change (a_head :: lt ++ set_val c v :: ge) with ((a_head :: lt) ++ set_val c v :: ge) in Ha.
    apply set_val_elem in Ha as (a' & Ha & E1 & E2). pose proof (m_bound _ _ Hok a' Ha). unfold a_end in *. lia.
  - rewrite Hn, (m_len _ _ Hok), !length_app. done.
  - rewrite Hsz, (m_size _ _ Hok), !entries_size_app. unfold entries_size. simpl. lia.
Qed.

Lemma Put_exact_ok p lt c ge value :
  mem_ok p (lt ++ c :: ge) →
  ∃ p', Put_exact (a_key c) value (a_pos c) p = Some p' ∧ mem_ok p' (lt ++ set_val c value :: ge).
Proof.
  intros Hok.
  assert (node_ok p c) as Hc.
  { pose proof (m_nodes _ _ Hok) as Hn. apply Forall_app in Hn as [_ Hn]. by apply Forall_cons in Hn as [? _]. }
  pose proof Hc as [Hp Hh Hk Hv (o & Ho & Hs & Hs2)].
  pose proof (lookup_lt_Some _ _ _ Ho). pose proof (lookup_lt_Some _ _ _ Hv).
  unfold Put_exact. destruct (decide (length value ≠ 0)%nat) as [Hne|He].
  - rewrite set_at_ok by done. cbn [mbind option_bind nodeData].
    rewrite list_lookup_insert_ne, Hv by (unfold nVal; lia). cbn [mbind option_bind].
    rewrite set_at_ok by (by rewrite length_insert). cbn [mbind option_bind].
    eexists. split; [done|]. eapply mem_ok_set_val; [exact Hok|by eexists|done..| |done| |].
    + cbn [nodeData]. by rewrite !length_insert.
    + cbn [nodeData]. intros j Hj1 Hj2. by rewrite !list_lookup_insert_ne.
    + split; cbn [nodeData set_val a_pos a_h a_key a_val kvData maxHeight]; [done|done|..].
      * rewrite !list_lookup_insert_ne by (unfold nVal, nKey; lia). done.
      * by rewrite list_lookup_insert_eq by (by rewrite length_insert).
      * exists (length (kvData p)). rewrite list_lookup_insert_ne by (unfold nVal; lia).
        rewrite list_lookup_insert_eq by done. split_and!; [done|apply slice_at_end|].
        rewrite (app_assoc (kvData p)), <- length_app. rewrite <- (app_nil_r value) at 1. apply slice_at_end.
  - cbn [mbind option_bind]. rewrite Hv. cbn [mbind option_bind]. rewrite set_at_ok by done.
    cbn [mbind option_bind]. eexists. split; [done|].
    eapply mem_ok_set_val; [exact Hok|exists []; by rewrite app_nil_r|done..| |done| |].
    + cbn [nodeData]. by rewrite !length_insert.
    + cbn [nodeData]. intros j Hj1 Hj2. by rewrite !list_lookup_insert_ne.
    + assert (value = []) as -> by (destruct value; [done|simpl in He; lia]).
      split; cbn [nodeData set_val a_pos a_h a_key a_val kvData maxHeight]; [done|done|..].
      * rewrite !list_lookup_insert_ne by (unfold nVal, nKey; lia). done.
      * by rewrite list_lookup_insert_eq by done.
      * exists o. rewrite list_lookup_insert_ne by (unfold nVal; lia). split_and!; [done|done|].
        unfold slice_at in *. case_decide; [|done]. rewrite decide_True by (simpl; lia). done.
Qed.

(** ** Inserting a node *)

Lemma randHeight_loop_range fuel h r :
  (1 ≤ h ≤ tMaxHeight)%nat → (1 ≤ (randHeight_loop fuel h r).1 ≤ tMaxHeight)%nat.
Proof.
  revert h r. induction fuel as [|fuel IH]; intros h r Hh; simpl; [done|].
  case_decide; [|done]. destruct (rnd_Int r) as [x r']. case_decide; [|done]. apply IH. lia.
Qed.

Lemma zero_prev_ok n i pn :
  (i + n ≤ length pn)%nat →
  ∃ pn', zero_prev n i pn = Some pn' ∧ length pn' = length pn ∧
    (∀ j, (j < i)%nat → pn' !! j = pn !! j) ∧
    (∀ j, (i ≤ j < i + n)%nat → pn' !! j = Some 0%nat).
Proof.
  revert i pn. induction n as [|n IH]; intros i pn Hn; simpl.
  - exists pn. split_and!; [done|done|done|lia].
  - rewrite set_at_ok by lia. cbn [mbind option_bind].
    destruct (IH (S i) (<[i := 0%nat]> pn)) as (pn' & -> & Hl & Hlow & Hhigh);
      [rewrite length_insert; lia|].
    exists pn'. split_and!; [done|by rewrite Hl, length_insert|..]; intros j Hj.
    + rewrite Hlow by lia. apply list_lookup_insert_ne. lia.
    + destruct (decide (j = i)) as [->|]; [|apply Hhigh; lia].
      rewrite Hlow by lia. apply list_lookup_insert_eq. lia.
Qed.

Definition target (ps : list nat) (i k j : nat) : Prop :=
  ∃ n, ps !! k = Some n ∧ j = (n + nNext + (i + k))%nat.

Lemma link_loop_ok ps i node nd :
  (∀ k j, target ps i k j → (j < length nd)%nat) →
  (∀ k k' j, target ps i k j → target ps i k' j → k = k') →
  ∃ nd', link_loop ps i node nd = Some nd' ∧ length nd' = (length nd + length ps)%nat ∧
    (∀ k j, target ps i k j → nd' !! (length nd + k)%nat = nd !! j ∧ nd' !! j = Some node) ∧
    (∀ j, (j < length nd)%nat → (∀ k, ¬ target ps i k j) → nd' !! j = nd !! j).
Proof.
  revert i nd. induction ps as [|n ps IH]; intros i nd Hlt Hinj; simpl.
  { exists nd. split_and!; [done|lia| |done]. intros k j (x & Hx & _). done. }
  set (m := (n + nNext + i)%nat).
  assert (target (n :: ps) i 0 m) as Hm by (exists n; split; [done|subst m; lia]).
  assert (∀ k j, target ps (S i) k j → target (n :: ps) i (S k) j) as Hsucc.
  { intros k j (x & Hx & ->). exists x. split; [done|lia]. }
  assert (∀ k j, target (n :: ps) i (S k) j → target ps (S i) k j) as Hpred.
  { intros k j (x & Hx & ->). exists x. split; [done|lia]. }
  pose proof (Hlt _ _ Hm) as Hmlt. destruct (lookup_lt_is_Some_2 _ _ Hmlt) as [x Hx].
  rewrite Hx. cbn [mbind option_bind]. rewrite set_at_ok by (rewrite length_app; lia).
  cbn [mbind option_bind].
  destruct (IH (S i) (<[m := node]> (nd ++ [x]))) as (nd' & -> & Hlen & Htgt & Hoth).
  { intros k j Hj%Hsucc%Hlt. rewrite length_insert, length_app. lia. }
  { intros k k' j Hj%Hsucc Hj'%Hsucc. pose proof (Hinj _ _ _ Hj Hj'). lia. }
  rewrite length_insert, length_app in *. simpl length in *.
  assert (∀ k, ¬ target ps (S i) k (length nd)) as Hend.
  { intros k Hk%Hsucc%Hlt. lia. }
  assert (∀ k, ¬ target ps (S i) k m) as Hmno.
  { intros k Hk%Hsucc. pose proof (Hinj _ _ _ Hm Hk). lia. }
  exists nd'. split_and!; [done|lia| |].
  - intros [|k] j Hj.
    + assert (j = m) as -> by (destruct Hj as (y & Hy & ->); simplify_eq/=; subst m; lia).
      rewrite Nat.add_0_r. split.
      * rewrite Hoth by (lia || done). rewrite list_lookup_insert_ne by lia.
        rewrite lookup_app_r, Nat.sub_diag by lia. done.
      * rewrite Hoth by (lia || done). apply list_lookup_insert_eq. rewrite length_app. simpl. lia.
    + pose proof (Hlt _ _ Hj). assert (j ≠ m) as Hjm by (intros ->; pose proof (Hinj _ _ _ Hm Hj); lia).
      apply Hpred in Hj. destruct (Htgt _ _ Hj) as [H1 H2]. split; [|done].
      replace (length nd + S k)%nat with (length nd + 1 + k)%nat by lia.
      rewrite H1, list_lookup_insert_ne by done. by rewrite lookup_app_l by lia.
  - intros j Hj Hno. assert (j ≠ m) by (intros ->; by apply (Hno 0%nat)).
    rewrite Hoth; [|lia|intros k Hk; by apply (Hno (S k)), Hsucc].
    rewrite list_lookup_insert_ne by done. by rewrite lookup_app_l by lia.
Qed.

(** The decompositions of a list with one more element. *)
Lemma insert_split (X : list anode) nw Y l1 a l2 :
  X ++ nw :: Y = l1 ++ a :: l2 →
  (∃ m, X = l1 ++ a :: m ∧ l2 = m ++ nw :: Y) ∨ (a = nw ∧ l1 = X ∧ l2 = Y) ∨
  (∃ m, Y = m ++ a :: l2 ∧ l1 = X ++ nw :: m).
Proof.
  intros [(k & -> & E)|(k & -> & E)]%app_eq_inv; destruct k as [|x k]; simplify_eq/=.
  - right. left. by rewrite app_nil_r.
  - left. eauto.
  - right. left. by rewrite app_nil_r.
  - right. right. eauto.
Qed.

Lemma last_at_In i L b : last_at i L b → b ∈ L ∧ (i < a_h b)%nat.
Proof. intros (l1 & l2 & -> & ? & _). split; [set_solver|done]. Qed.

(** The arrays after linking a new node [nw] behind [lt]. *)
Record linked p (lt ge : list anode) (nw : anode) (nd : list nat) : Prop := {
  k_len : length nd = a_end nw;
  k_new : ∀ i, (i < a_h nw)%nat → nd !! (a_pos nw + nNext + i)%nat = Some (pos_of (first_at i ge));
  k_last : ∀ i b, (i < a_h nw)%nat → last_at i (a_head :: lt) b →
    nd !! (a_pos b + nNext + i)%nat = Some (a_pos nw);
  k_other : ∀ j, (j < length (nodeData p))%nat →
    (∀ i b, (i < a_h nw)%nat → last_at i (a_head :: lt) b → j ≠ (a_pos b + nNext + i)%nat) →
    nd !! j = nodeData p !! j;
  k_cells : ∀ j, (j < nNext)%nat →
    nd !! (a_pos nw + j)%nat = [length (kvData p); length (a_key nw); length (a_val nw); a_h nw]%nat !! j;
}.

Lemma last_at_unique p ns lt ge i b b' :
  mem_ok p ns → ns = lt ++ ge → last_at i (a_head :: lt) b → last_at i (a_head :: lt) b' → b = b'.
Proof.
  intros _ _ (l1 & l2 & E & Hb & Hn) (l1' & l2' & E' & Hb' & Hn'). rewrite E in E'. clear E.
  apply first_at_None in Hn, Hn'. rewrite Forall_forall in Hn, Hn'.
  apply app_eq_inv in E' as [(k & -> & E)|(k & -> & E)]; destruct k as [|x k]; simplify_eq/=.
  - done.
  - exfalso. specialize (Hn' b ltac:(set_solver)). lia.
  - done.
  - exfalso. specialize (Hn b' ltac:(set_solver)). lia.
Qed.

Lemma link_new p ns lt ge nw pn :
  mem_ok p ns → ns = lt ++ ge → a_pos nw = length (nodeData p) → (a_h nw ≤ length pn)%nat →
  (∀ i, (i < a_h nw)%nat → ∃ b, last_at i (a_head :: lt) b ∧ pn !! i = Some (a_pos b)) →
  ∃ nd, link_loop (take (a_h nw) pn) 0 (a_pos nw)
          (nodeData p ++ [length (kvData p); length (a_key nw); length (a_val nw); a_h nw]) = Some nd ∧
    linked p lt ge nw nd.
Proof.
  intros Hok Hns Hpos Hlen Hprev. pose proof (m_nodup _ _ Hok) as Hdup.
  assert (∀ i b, last_at i (a_head :: lt) b → b ∈ a_head :: ns ∧ (i < a_h b)%nat) as Hmem.
  { intros i b [Hin Hi]%last_at_In. split; [subst; set_solver|done]. }
  assert (∀ k j, target (take (a_h nw) pn) 0 k j ↔
     ∃ b, (k < a_h nw)%nat ∧ last_at k (a_head :: lt) b ∧ j = (a_pos b + nNext + k)%nat) as Htg.
  { intros k j. split.
    - intros (n & Hk & ->). apply lookup_take_Some in Hk as [Hk Hlt].
      destruct (Hprev k Hlt) as (b & Hb & Hk'). rewrite Hk in Hk'. simplify_eq. by exists b.
    - intros (b & Hlt & Hb & ->). destruct (Hprev k Hlt) as (b' & Hb' & Hk').
      pose proof (last_at_unique _ _ _ _ _ _ _ Hok Hns Hb Hb') as ->.
      exists (a_pos b'). split; [|done]. by rewrite lookup_take_lt. }
  destruct (link_loop_ok (take (a_h nw) pn) 0 (a_pos nw)
    (nodeData p ++ [length (kvData p); length (a_key nw); length (a_val nw); a_h nw]))
    as (nd & -> & Hl & Htgt & Hoth).
  { intros k j (b & Hk & Hb & ->)%Htg. apply Hmem in Hb as [Hb Hi].
    pose proof (m_bound _ _ Hok b Hb). rewrite length_app. unfold a_end in *. lia. }
  { intros k k' j (b & Hk & Hb & ->)%Htg (b' & Hk' & Hb' & E)%Htg. apply Hmem in Hb as [Hb Hi], Hb' as [Hb' Hi'].
    rewrite <- !Nat.add_assoc in E. apply (cells_apart _ _ b b' _ _ Hok Hb Hb') in E; lia. }
  rewrite length_app in Hl, Htgt, Hoth. simpl length in Hl, Htgt, Hoth.
  assert (∀ j, (length (nodeData p) ≤ j)%nat → ∀ k, ¬ target (take (a_h nw) pn) 0 k j) as Hno.
  { intros j Hj k (b & Hk & Hb & ->)%Htg. apply Hmem in Hb as [Hb Hi].
    pose proof (m_bound _ _ Hok b Hb). unfold a_end in *. lia. }
  exists nd. split; [done|]. split.
  - rewrite Hl, length_take. unfold a_end, nNext. lia.
  - intros i Hi. destruct (Hprev i Hi) as (b & Hb & _).
    destruct (Htgt i (a_pos b + nNext + i)%nat) as [E _]; [apply Htg; by exists b|].
    rewrite Hpos. unfold nNext at 1. rewrite E. destruct Hb as (l1 & l2 & Hsplit & Hib & Hnone).
    assert (a_head :: ns = l1 ++ b :: l2 ++ ge) as Hs by (by rewrite Hns, app_comm_cons, Hsplit, <- app_assoc).
    pose proof (m_links _ _ Hok _ _ _ Hs i Hib) as Hlink. rewrite first_at_app, Hnone in Hlink.
    rewrite lookup_app_l; [done|]. by apply lookup_lt_Some in Hlink.
  - intros i b Hi Hb. apply (Htgt i (a_pos b + nNext + i)%nat). apply Htg. by exists b.
  - intros j Hj Hn. rewrite Hoth; [by rewrite lookup_app_l| lia|].
    intros k (b & Hk & Hb & E)%Htg. by apply (Hn k b).
  - intros j Hj. unfold nNext in Hj. rewrite Hoth; [|lia|apply Hno; lia].
    rewrite lookup_app_r by lia. f_equal. lia.
Qed.

(** All other cells keep their contents. *)
Lemma linked_frame p ns lt ge nw nd a i :
  mem_ok p ns → ns = lt ++ ge → linked p lt ge nw nd →
  a ∈ a_head :: ns → (i < nNext + a_h a)%nat →
  (∀ k, i = (nNext + k)%nat → (k < a_h nw)%nat → ¬ last_at k (a_head :: lt) a) →
  nd !! (a_pos a + i)%nat = nodeData p !! (a_pos a + i)%nat.
Proof.
  intros Hok Hns Hl Ha Hi Hno. apply (k_other _ _ _ _ _ Hl).
  - pose proof (m_bound _ _ Hok a Ha). unfold a_end in *. lia.
  - intros k b Hk' Hb E. pose proof (last_at_In _ _ _ Hb) as [Hin Hkb].
    assert (b ∈ a_head :: ns) as Hin' by (subst ns; set_solver).
    rewrite <- Nat.add_assoc in E. apply (cells_apart _ _ a b _ _ Hok Ha Hin') in E as [E ->]; [|done|lia].
    apply (Hno k); [done|done|]. pose proof Hb as (l1 & l2 & Hs & ? & ?).
    apply list_elem_of_split in Ha as (r1 & r2 & Ha).
    destruct (split_unique (a_head :: ns) r1 a r2 l1 b (l2 ++ ge)) as [-> _]; [apply Hok|done| |done|done].
    by rewrite Hns, app_comm_cons, Hs, <- app_assoc.
Qed.

Lemma linked_links p ns lt ge nw nd :
  mem_ok p ns → ns = lt ++ ge → linked p lt ge nw nd →
  ∀ l1 a l2, (a_head :: lt) ++ nw :: ge = l1 ++ a :: l2 → ∀ i, (i < a_h a)%nat →
    nd !! (a_pos a + nNext + i)%nat = Some (pos_of (first_at i l2)).
Proof.
  intros Hok Hns Hl l1 a l2 E i Hi.
  apply insert_split in E as [(m & E & ->)|[(-> & -> & ->)|(m & E & ->)]].
  - (* a node before the new one *)
    assert (a_head :: ns = l1 ++ a :: m ++ ge) as Hs by (by rewrite Hns, app_comm_cons, E, <- app_assoc).
    assert (a ∈ a_head :: ns) as Ha by (rewrite Hs; set_solver).
    pose proof (m_links _ _ Hok _ _ _ Hs i Hi) as Hold. rewrite first_at_app in Hold |- *.
    destruct (first_at i m) as [b|] eqn:Em.
    + rewrite <- Hold, <- !Nat.add_assoc. apply (linked_frame p ns lt ge nw); [done..|lia|].
      intros k Hk _ (r1 & r2 & Hr & _ & Hnone). assert (k = i) as -> by lia.
      destruct (split_unique (a_head :: lt) l1 a m r1 a r2) as [_ ->]; [|done|done|done|congruence].
      pose proof (m_nodup _ _ Hok) as Hdup. rewrite Hns, app_comm_cons, fmap_app in Hdup.
      by apply NoDup_app in Hdup as [? _].
    + cbn [first_at]. case_decide as Hin.
      * apply (k_last _ _ _ _ _ Hl); [done|]. by exists l1, m.
      * rewrite <- Hold, <- !Nat.add_assoc. apply (linked_frame p ns lt ge nw); [done..|lia|].
        intros k Hk Hk' _. lia.
  - by apply (k_new _ _ _ _ _ Hl).
  - (* a node behind it *)
    assert (a_head :: ns = (a_head :: lt ++ m) ++ a :: l2) as Hs by (by rewrite Hns, E; simpl; rewrite <- app_assoc).
    assert (a ∈ a_head :: ns) as Ha by (rewrite Hs; set_solver).
    rewrite <- (m_links _ _ Hok _ _ _ Hs i Hi), <- !Nat.add_assoc.
    apply (linked_frame p ns lt ge nw); [done..|lia|]. intros k _ _ [Hin _]%last_at_In.
    pose proof (m_nodup _ _ Hok) as Hdup. rewrite Hns, app_comm_cons, fmap_app in Hdup.
    apply NoDup_app in Hdup as (_ & Hd & _). apply (Hd (a_pos a)).
    + by apply list_elem_of_fmap_2.
    + apply list_elem_of_fmap_2. rewrite E. set_solver.
Qed.

Lemma linked_nodes p p' ns lt ge nw :
  mem_ok p ns → ns = lt ++ ge → a_pos nw = length (nodeData p) → (1 ≤ a_h nw)%nat →
  linked p lt ge nw (nodeData p') → kvData p' = kvData p ++ a_key nw ++ a_val nw →
  maxHeight p' = Nat.max (maxHeight p) (a_h nw) →
  Forall (node_ok p') (lt ++ nw :: ge).
Proof.
  intros Hok Hns Hpos Hh Hl Hkv Hmh.
  assert (∀ a, a ∈ ns → node_ok p' a) as Hold.
  { intros a Ha. pose proof (m_nodes _ _ Hok) as Hn. rewrite Forall_forall in Hn.
    apply (node_ok_frame p); [by apply Hn|by eexists|lia|].
    intros j Hj. apply (linked_frame p ns lt ge nw); [done..|set_solver|lia|]. intros k -> _ _. lia. }
  apply Forall_forall. intros a [Ha|[->|Ha]%elem_of_cons]%elem_of_app; [subst ns; set_solver| |subst ns; set_solver].
  pose proof (k_cells _ _ _ _ _ Hl) as Hc. unfold nNext in Hc. split; [|lia|..].
  - pose proof (m_bound _ _ Hok a_head ltac:(set_solver)) as Hb. unfold a_end, nNext in Hb. simpl in Hb. lia.
  - by rewrite Hc by (unfold nKey; lia).
  - by rewrite Hc by (unfold nVal; lia).
  - exists (length (kvData p)). specialize (Hc 0%nat). rewrite Nat.add_0_r in Hc.
    rewrite Hc, Hkv by lia. split_and!; [done|apply slice_at_end|].
    rewrite (app_assoc (kvData p)), <- length_app. rewrite <- (app_nil_r (a_val nw)) at 1. apply slice_at_end.
Qed.

(** Linking a node gives a table with that node. *)
Lemma mem_ok_insert p p' ns lt ge nw :
  mem_ok p ns → ns = lt ++ ge → sorted_entries (entries (lt ++ nw :: ge)) →
  a_pos nw = length (nodeData p) → (1 ≤ a_h nw ≤ tMaxHeight)%nat →
  linked p lt ge nw (nodeData p') → kvData p' = kvData p ++ a_key nw ++ a_val nw →
  length (prevNode p') = tMaxHeight → maxHeight p' = Nat.max (maxHeight p) (a_h nw) →
  db_n p' = S (db_n p) → kvSize p' = kvSize p + (blen (a_key nw) + blen (a_val nw)) →
  mem_ok p' (lt ++ nw :: ge).
Proof.
  intros Hok Hns Hsorted Hpos Hh Hl Hkv Hpn Hmh Hn Hsz. pose proof (m_height _ _ Hok).
  assert (∀ a, a ∈ a_head :: lt ++ nw :: ge → a = nw ∨ a ∈ a_head :: ns) as Hcase.
  { intros a Ha. subst ns. set_solver. }
  split; [done|done|lia|by eapply linked_nodes; [..|lia| | |]|by eapply linked_links|..].
  - change (a_head :: lt ++ nw :: ge) with ((a_head :: lt) ++ nw :: ge). rewrite fmap_app, (fmap_cons _ nw ge), <- Permutation_middle.
    rewrite <- fmap_app. cbn [app]. rewrite <- Hns. constructor; [|apply Hok].
    intros (a & E & Ha)%list_elem_of_fmap. pose proof (m_bound _ _ Hok a Ha). unfold a_end, nNext in *. lia.
  - intros a b Ha Hb Hlt'. apply Hcase in Ha as [->|Ha], Hb as [->|Hb].
    + lia.
    + pose proof (m_bound _ _ Hok b Hb). unfold a_end in *. lia.
    + pose proof (m_bound _ _ Hok a Ha). lia.
    + by apply (m_disjoint _ _ Hok).
  - intros a Ha. rewrite (k_len _ _ _ _ _ Hl). apply Hcase in Ha as [->|Ha]; [done|].
    pose proof (m_bound _ _ Hok a Ha). unfold a_end in *. lia.
  - rewrite Hn, (m_len _ _ Hok), Hns, !length_app. simpl. lia.
  - rewrite Hsz, (m_size _ _ Hok), Hns, !entries_size_app. unfold entries_size. simpl. lia.
Qed.

Lemma entries_insert key ns lt ge nw :
  split_at key ns lt ge → (∀ c ge', ge = c :: ge' → a_key c ≠ key) → a_key nw = key →
  entries (lt ++ nw :: ge) = mput key (a_val nw) (entries ns).
Proof.
  intros (-> & Hlt & Hge) Hnew Hk. unfold entries. rewrite !fmap_app, fmap_cons, mput_split; [|by apply Forall_fmap].
  f_equal. destruct ge as [|c ge]; simpl; [by rewrite <- Hk|].
  apply Forall_cons in Hge as [Hc _]. pose proof (Hnew c ge eq_refl) as Hck.
  destruct (bytes_trichotomy key (a_key c)) as [Hlt'|[E|E]]; [|by symmetry in E|done].
  rewrite Hlt'. by rewrite <- Hk.
Qed.

Lemma entries_set_val key ns lt c ge v :
  split_at key ns lt (c :: ge) → a_key c = key →
  entries (lt ++ set_val c v :: ge) = mput key v (entries ns).
Proof.
  intros (-> & Hlt & _) <-. unfold entries. rewrite !fmap_app, !fmap_cons, mput_split; [|by apply Forall_fmap].
  simpl. by rewrite Compare_refl.
Qed.

Lemma mem_ok_prevNode p ns pn :
  mem_ok p ns → length pn = tMaxHeight →
  mem_ok (mkMemDB _ (rnd p) (kvData p) (nodeData p) pn (maxHeight p) (db_n p) (kvSize p)) ns.
Proof.
  intros [] Hpn. split; try done. eapply Forall_impl; [done|]. intros a [].
  by split.
Qed.

Lemma Put_new_ok p ns lt ge key value :
  mem_ok p ns → split_at key ns lt ge → (∀ c ge', ge = c :: ge' → a_key c ≠ key) →
  (∀ i, (i < maxHeight p)%nat → ∃ b, last_at i (a_head :: lt) b ∧ prevNode p !! i = Some (a_pos b)) →
  ∃ p' ns', Put_new key value p = Some p' ∧ mem_ok p' ns' ∧ entries ns' = mput key value (entries ns).
Proof.
  intros Hok Hsp Hnew Hprev. unfold Put_new. pose proof (m_height _ _ Hok). pose proof (m_prev _ _ Hok) as Hpn.
  pose proof (randHeight_loop_range tMaxHeight 1 (rnd p) ltac:(unfold tMaxHeight; lia)) as Hh.
  fold (randHeight (rnd p)) in Hh. destruct (randHeight (rnd p)) as [h r]. simpl in Hh.
  set (nw := mkANode (length (nodeData p)) h key value).
  assert (∃ pn, (if decide (maxHeight p < h)%nat then zero_prev (h - maxHeight p) (maxHeight p) (prevNode p)
                 else Some (prevNode p)) = Some pn ∧ length pn = tMaxHeight ∧
     ∀ i, (i < h)%nat → ∃ b, last_at i (a_head :: lt) b ∧ pn !! i = Some (a_pos b)) as (pn & -> & Hl & Hp).
  { case_decide as Hgt; [|exists (prevNode p); split_and!; [done|done|intros i Hi; apply Hprev; lia]].
    destruct (zero_prev_ok (h - maxHeight p) (maxHeight p) (prevNode p)) as (pn & -> & Hl & Hlow & Hhigh); [lia|].
    exists pn. split_and!; [done|lia|]. intros i Hi. destruct (decide (i < maxHeight p)%nat) as [Hi'|Hi'].
    - rewrite Hlow by done. by apply Hprev.
    - exists a_head. rewrite Hhigh by lia. split; [|done]. exists [], lt. split_and!; [done|simpl; lia|].
      apply first_at_None, Forall_forall. intros a Ha. pose proof (m_nodes _ _ Hok) as Hn.
      destruct Hsp as (-> & _). rewrite Forall_forall in Hn. specialize (Hn a ltac:(set_solver)).
      pose proof (n_height _ _ Hn). lia. }
  cbn [mbind option_bind]. rewrite decide_True by lia. pose proof Hsp as (Hns & _).
  destruct (link_new p ns lt ge nw pn) as (nd & Hlink & Hlinked); [done|done|done|simpl; lia|done|].
  change (link_loop (take h pn) 0 (length (nodeData p)) _) with
    (link_loop (take (a_h nw) pn) 0 (a_pos nw)
      (nodeData p ++ [length (kvData p); length (a_key nw); length (a_val nw); a_h nw])).
  rewrite Hlink. cbn [mbind option_bind]. do 2 eexists.
  assert (entries (lt ++ nw :: ge) = mput key value (entries ns)) as He by (by apply entries_insert).
  split_and!; [done| |exact He].
  eapply mem_ok_insert; [done|done|rewrite He; apply mput_sorted, Hok|done|done|done|done|done| |done|done].
  cbn [maxHeight a_h nw]. case_decide; lia.
Qed.

Lemma Put_ok p ns key value :
  mem_ok p ns →
  ∃ p' ns', Put key value p = Some p' ∧ mem_ok p' ns' ∧ entries ns' = mput key value (entries ns).
Proof.
  intros Hok. destruct (split_exists key ns (m_sorted _ _ Hok)) as (lt & ge & Hsp).
  destruct (findGE_ok _ _ _ _ _ true Hok Hsp) as (pn & E & Hl & Hprev).
  unfold Put. rewrite E. pose proof (mem_ok_prevNode _ _ pn Hok Hl) as Hok'.
  destruct ge as [|c ge]; cbn [found mbind option_bind].
  { by apply (Put_new_ok _ ns lt []). }
  case_bool_decide as Hc; [|apply (Put_new_ok _ ns lt (c :: ge)); [done|done| |done]; by intros c' ge' [= <- <-]].
  pose proof Hsp as (Hns & _). rewrite Hns in Hok'. subst key.
  destruct (Put_exact_ok _ _ _ _ value Hok') as (p' & E' & Hok1). exists p', (lt ++ set_val c value :: ge).
  split_and!; [done|done|]. by apply entries_set_val.
Qed.

(** ** The table as a finite map *)

Lemma mem_ok_new : mem_ok NewMemDB [].
Proof.
  split; simpl; try done; unfold tMaxHeight; try lia.
  - constructor.
  - intros l1 a l2 E i Hi. destruct l1 as [|x l1]; simplify_eq/=; [|by destruct l1].
    unfold tMaxHeight in Hi. do 12 (destruct i as [|i]; [done|]). lia.
  - apply NoDup_singleton.
  - intros a b [->|?]%elem_of_cons [->|?]%elem_of_cons; [simpl; lia|set_solver..].
  - intros a [->|?]%elem_of_cons; [unfold a_end, nNext, tMaxHeight; simpl; unfold tMaxHeight; lia|set_solver].
Qed.

Lemma entries_elem k v ns : (k, v) ∈ entries ns → ∃ a, a ∈ ns ∧ a_key a = k ∧ a_val a = v.
Proof. intros (a & E & Ha)%list_elem_of_fmap. exists a. by injection E as -> ->. Qed.

Lemma Get_lookup p ns key :
  mem_ok p ns →
  Get key p = Some (match to_gmap (entries ns) !! key with Some v => (v, false) | None => ([], true) end).
Proof.
  intros Hok. destruct (split_exists key ns (m_sorted _ _ Hok)) as (lt & ge & Hsp).
  rewrite (Get_ok _ _ _ _ _ Hok Hsp). f_equal. pose proof Hsp as (Hns & Hlt & _).
  assert (∀ a, a ∈ ns → a_key a = key → ∃ ge', ge = a :: ge') as Honly.
  { intros a Ha Hk. rewrite Hns in Ha. apply elem_of_app in Ha as [Ha|Ha].
    - rewrite Forall_forall in Hlt. specialize (Hlt a Ha). simpl in Hlt. rewrite Hk in Hlt.
      by apply bytes_lt_irrefl in Hlt.
    - apply list_elem_of_split in Ha as (m1 & m2 & Hm).
      pose proof (split_exact _ _ _ _ _ _ _ (m_sorted _ _ Hok) Hsp Hm Hk) as ->. by exists m2. }
  destruct (to_gmap (entries ns) !! key) as [v|] eqn:E.
  - apply to_gmap_lookup in E; [|apply Hok]. apply entries_elem in E as (a & Ha & Hk & <-).
    destruct (Honly a Ha Hk) as [ge' ->]. by rewrite decide_True.
  - destruct ge as [|c ge]; [done|]. case_decide as Hc; [|done]. exfalso.
    apply to_gmap_none in E. apply E. rewrite <- Hc. unfold entries. rewrite <- list_fmap_compose.
    apply (list_elem_of_fmap_2 (fst ∘ a_entry)). rewrite Hns. set_solver.
Qed.

(** The operations that change the table. *)
Inductive db_op := DbPut (k v : bytes) | DbDelete (k : bytes).

Definition run_db_op (o : db_op) p : option MemDB :=
  match o with DbPut k v => Put k v p | DbDelete k => Delete k p end.

Fixpoint run_db_ops (os : list db_op) p : option MemDB :=
  match os with
  | [] => Some p
  | o :: os' => p' ← run_db_op o p; run_db_ops os' p'
  end.

(** Their meaning on finite maps; a deleted key is kept with an empty value. *)
Definition db_step (m : gmap bytes bytes) (o : db_op) : gmap bytes bytes :=
  match o with DbPut k v => <[k := v]> m | DbDelete k => <[k := []]> m end.
Definition db_map (os : list db_op) : gmap bytes bytes := foldl db_step ∅ os.

Lemma run_db_op_ok o p ns :
  mem_ok p ns →
  ∃ p' ns', run_db_op o p = Some p' ∧ mem_ok p' ns' ∧
    to_gmap (entries ns') = db_step (to_gmap (entries ns)) o.
Proof.
  intros Hok. destruct o as [k v|k]; simpl.
  - destruct (Put_ok p ns k v Hok) as (p' & ns' & E & Hok' & He). exists p', ns'. split_and!; [done..|].
    rewrite He. apply to_gmap_mput, Hok.
  - destruct (Put_ok p ns k [] Hok) as (p' & ns' & E & Hok' & He). exists p', ns'. split_and!; [done..|].
    rewrite He. apply to_gmap_mput, Hok.
Qed.

Lemma run_db_ops_ok os p ns :
  mem_ok p ns →
  ∃ p' ns', run_db_ops os p = Some p' ∧ mem_ok p' ns' ∧
    to_gmap (entries ns') = foldl db_step (to_gmap (entries ns)) os.
Proof.
  revert p ns. induction os as [|o os IH]; intros p ns Hok; [by exists p, ns|].
  destruct (run_db_op_ok o p ns Hok) as (p1 & ns1 & E1 & Hok1 & He1).
  destruct (IH p1 ns1 Hok1) as (p2 & ns2 & E2 & Hok2 & He2). exists p2, ns2.
  cbn [run_db_ops foldl]. rewrite E1. cbn [mbind option_bind]. by rewrite <- He1.
Qed.

(** C31 (the skip list is a sorted map).  Whatever heights the generator draws,
    every sequence of [Put] and [Delete] on a new table runs without an index out
    of range or a search that does not end; [Get] then answers from the finite
    map of the last write per key, [ForEach] visits that map once per key in
    ascending order, and [Len] and [Size] count it. *)
Theorem memdb_refines_map (os : list db_op) :
  ∃ p l, run_db_ops os NewMemDB = Some p ∧
    (∀ k, Get k p = Some (match db_map os !! k with Some v => (v, false) | None => ([], true) end)) ∧
    ForEach p = Some l ∧ sorted_entries l ∧ list_to_map l = db_map os ∧
    db_Len p = size (db_map os) ∧
    db_Size p = Z.of_nat (sum_list_with (λ e, length e.1 + length e.2)%nat l).
Proof.
  destruct (run_db_ops_ok os NewMemDB [] mem_ok_new) as (p & ns & E & Hok & He).
  exists p, (entries ns). pose proof (m_sorted _ _ Hok) as Hs. unfold db_map.
  change (to_gmap (entries [])) with (∅ : gmap bytes bytes) in He. split_and!; [done| |by apply ForEach_ok|done|done| |].
  - intros k. rewrite <- He. by apply Get_lookup.
  - unfold db_Len. rewrite <- He, sorted_size, (m_len _ _ Hok) by done. unfold entries. by rewrite length_fmap.
  - unfold db_Size. rewrite (m_size _ _ Hok). f_equal. unfold entries_size, entries. clear.
    induction ns as [|a ns IH]; simpl; [done|]. by rewrite IH.
Qed.

(** After any sequence of operations [Find] returns
    the entry with the smallest key that is not below the one asked for, and
    fails exactly when there is none. *)
Lemma Find_lower_bound (os : list db_op) (key : bytes) :
  ∃ p r, run_db_ops os NewMemDB = Some p ∧ Find key p = Some r ∧
    match r with
    | Ok (k, v) => db_map os !! k = Some v ∧ ¬ k ≺ key ∧
        ∀ k' v', db_map os !! k' = Some v' → ¬ k' ≺ key → k' = k ∨ k ≺ k'
    | Err _ => ∀ k' v', db_map os !! k' = Some v' → k' ≺ key
    | Panic => False
    end.
Proof.
  destruct (run_db_ops_ok os NewMemDB [] mem_ok_new) as (p & ns & E & Hok & He).
  change (to_gmap (entries [])) with (∅ : gmap bytes bytes) in He. fold (db_map os) in He.
  pose proof (m_sorted _ _ Hok) as Hs. destruct (split_exists key ns Hs) as (lt & ge & Hsp).
  exists p. rewrite (Find_ok _ _ _ _ _ Hok Hsp). eexists. split_and!; [done|done|].
  assert (∀ k v, db_map os !! k = Some v → ∃ a, a ∈ ns ∧ a_key a = k ∧ a_val a = v) as Hin.
  { intros k v. rewrite <- He, to_gmap_lookup by done. apply entries_elem. }
  destruct Hsp as (Hns & Hlt & Hge). rewrite Forall_forall in Hlt. destruct ge as [|c ge].
  - intros k' v' (a & Ha & <- & _)%Hin. apply Hlt. rewrite Hns, app_nil_r in Ha. done.
  - apply Forall_cons in Hge as [Hc Hge]. simpl. split_and!; [|done|].
    + rewrite <- He. apply to_gmap_lookup; [done|]. apply (list_elem_of_fmap_2 a_entry). rewrite Hns. set_solver.
    + intros k' v' (a & Ha & <- & _)%Hin Hk. rewrite Hns in Ha, Hs.
      apply elem_of_app in Ha as [Ha|[->|Ha]%elem_of_cons]; [by apply Hlt in Ha|by left|right].
      rewrite (cons_middle c lt ge), app_assoc in Hs. eapply sorted_app_lt; [exact Hs|set_solver..].
Qed.

End memdb.

(** A generator for examples: it counts. *)
Definition counting_rand : Rand := {|
  rnd_state := Z;
  rnd_init := 0;
  rnd_Int r := (r, r + 1);
|}.

(** Heights differ between generators and the contents do not. *)
Example memdb_example :
  let _ := counting_rand in
  (p ← run_db_ops [DbPut (gs "b") (gs "1"); DbPut (gs "a") (gs "2"); DbDelete (gs "b"); DbPut (gs "c") (gs "33")] NewMemDB;
   ForEach p) = Some [(gs "a", gs "2"); (gs "b", []); (gs "c", gs "33")].
Proof. vm_compute. reflexivity. Qed.
