(* ===== verification/OverlayDB.v ===== *)
(** * The block cache over the persistent store
    (core/store/overlaydb/overlaydb.go, core/store/leveldbstore/leveldb_store.go)

    [OverlayDB] buffers the writes of a block in a [MemDB] over a [PersistStore].
    goleveldb is a parameter ([LevelDB]) with its documented behaviour: a read
    returns the stored value, [ErrNotFound] or an I/O error, and a batch is
    applied in order and as a whole or not at all.  Go's [nil] and empty slices
    are both [[]]; neither store ever keeps an empty value, so they agree. *)

From S2P Require Import Prelude Sha256 BytesOrder MemDB.

Definition ErrNotFound : string := "not found".

(** ** goleveldb *)

Inductive batch_op := BPut (k v : bytes) | BDelete (k : bytes).

Definition apply_batch (m : gmap bytes bytes) (b : list batch_op) : gmap bytes bytes :=
  foldl (λ m o, match o with BPut k v => <[k := v]> m | BDelete k => delete k m end) m b.

Class LevelDB (D : Type) := {
  ldb_Get : bytes → D → res bytes;
  ldb_Put : bytes → bytes → D → res unit * D;
  ldb_Write : option (list batch_op) → D → res unit * D;    (* a pointer to a batch *)
  ldb_Iter : bytes → D → res (list entry);                  (* all pairs with the prefix, in order *)
  ldb_view : D → gmap bytes bytes;
  ldb_Get_view : ∀ k d,
    ldb_Get k d = (match ldb_view d !! k with Some v => Ok v | None => Err "leveldb: not found" end) ∨
    ∃ e, e ≠ ErrNotFound ∧ e ≠ "leveldb: not found" ∧ ldb_Get k d = Err e;
  ldb_Put_view : ∀ k v d,
    (∃ d', ldb_Put k v d = (Ok tt, d') ∧ ldb_view d' = <[k := v]> (ldb_view d)) ∨
    (∃ e d', ldb_Put k v d = (Err e, d') ∧ ldb_view d' = ldb_view d);
  ldb_Write_view : ∀ b d,
    (∃ d', ldb_Write (Some b) d = (Ok tt, d') ∧ ldb_view d' = apply_batch (ldb_view d) b) ∨
    (∃ e d', ldb_Write (Some b) d = (Err e, d') ∧ ldb_view d' = ldb_view d);
  ldb_Iter_view : ∀ p d,
    (∃ l, ldb_Iter p d = Ok l ∧ sorted_entries l ∧ ∀ k v, (k, v) ∈ l ↔ p `prefix_of` k ∧ ldb_view d !! k = Some v) ∨
    (∃ e, ldb_Iter p d = Err e);
}.

(** A database that never fails. *)
Definition gmap_ldb_Get (k : bytes) (d : gmap bytes bytes) : res bytes :=
  match d !! k with Some v => Ok v | None => Err "leveldb: not found" end.
Definition gmap_entries (p : bytes) (d : gmap bytes bytes) : list entry :=
  foldr (λ kv l, mput kv.1 kv.2 l) [] (filter (λ kv, p `prefix_of` kv.1) (map_to_list d)).

Lemma foldr_mput (l : list entry) :
  sorted_entries (foldr (λ kv l, mput kv.1 kv.2 l) [] l) ∧ to_gmap (foldr (λ kv l, mput kv.1 kv.2 l) [] l) = list_to_map l.
Proof.
  induction l as [|[k v] l [IHs IHm]]; cbn; [split; [constructor|done]|]. split; [by apply mput_sorted|].
  by rewrite to_gmap_mput, IHm.
Qed.

Lemma gmap_entries_sorted p d : sorted_entries (gmap_entries p d).
Proof. apply foldr_mput. Qed.

Lemma elem_of_gmap_entries p d k v : (k, v) ∈ gmap_entries p d ↔ p `prefix_of` k ∧ d !! k = Some v.
Proof.
  unfold gmap_entries. set (l := filter (λ kv : entry, p `prefix_of` kv.1) (map_to_list d)). destruct (foldr_mput l) as [Hs Hm].
  assert (NoDup (fst <$> l)) as Hnd.
  { unfold l. eapply sublist_NoDup; [apply (NoDup_fst_map_to_list d)|]. apply fmap_sublist, sublist_filter. }
  transitivity ((k, v) ∈ l).
  - transitivity (to_gmap (foldr (λ kv l, mput kv.1 kv.2 l) [] l) !! k = Some v); [symmetry; by apply to_gmap_lookup|].
    rewrite Hm. symmetry. by apply elem_of_list_to_map.
  - unfold l. by rewrite list_elem_of_filter, elem_of_map_to_list.
Qed.

#[export] Program Instance gmap_leveldb : LevelDB (gmap bytes bytes) := {|
  ldb_Get := gmap_ldb_Get;
  ldb_Put k v d := (Ok tt, <[k := v]> d);
  ldb_Write b d := (Ok tt, apply_batch d (default [] b));
  ldb_Iter p d := Ok (gmap_entries p d);
  ldb_view d := d;
|}.
Next Obligation. intros k d. by left. Qed.
Next Obligation. intros k v d. left. eexists. by split. Qed.
Next Obligation. intros b d. left. eexists. by split. Qed.
Next Obligation.
  intros p d. left. eexists. split; [done|]. split; [apply gmap_entries_sorted|]. intros k v. rewrite elem_of_gmap_entries. tauto.
Qed.

(** ** LevelDBStore *)

Record LevelDBStore (D : Type) := mkLevelDBStore {
  ldb : D;
  batch : option (list batch_op);   (* [None] is the nil pointer *)
}.
Arguments mkLevelDBStore {D}.
Arguments ldb {D}.
Arguments batch {D}.

(** What the stores above rely on (core/store/common/store.go). *)
Class PersistStore (PS : Type) := {
  ps_Get : bytes → PS → res bytes;
  ps_NewBatch : M PS unit;
  ps_BatchPut : bytes → bytes → M PS unit;
  ps_BatchDelete : bytes → M PS unit;
  ps_BatchCommit : M PS unit;
  ps_Put : bytes → bytes → M PS unit;
  ps_Iter : bytes → PS → res (list entry);
  ps_view : PS → gmap bytes bytes;
  ps_pending : PS → option (list batch_op);
  ps_Get_view : ∀ k s,
    ps_Get k s = (match ps_view s !! k with Some v => Ok v | None => Err ErrNotFound end) ∨
    ∃ e, e ≠ ErrNotFound ∧ ps_Get k s = Err e;
  ps_NewBatch_law : ∀ s, ∃ s', ps_NewBatch s = (Ok tt, s') ∧ ps_view s' = ps_view s ∧
    ps_pending s' = Some [];
  ps_BatchPut_law : ∀ k v s b, ps_pending s = Some b →
    ∃ s', ps_BatchPut k v s = (Ok tt, s') ∧ ps_view s' = ps_view s ∧ ps_pending s' = Some (b ++ [BPut k v]);
  ps_BatchDelete_law : ∀ k s b, ps_pending s = Some b →
    ∃ s', ps_BatchDelete k s = (Ok tt, s') ∧ ps_view s' = ps_view s ∧ ps_pending s' = Some (b ++ [BDelete k]);
  ps_BatchCommit_law : ∀ s b, ps_pending s = Some b →
    (∃ s', ps_BatchCommit s = (Ok tt, s') ∧ ps_view s' = apply_batch (ps_view s) b) ∨
    (∃ e s', ps_BatchCommit s = (Err e, s') ∧ ps_view s' = ps_view s);
  ps_Put_law : ∀ k v s,
    (∃ s', ps_Put k v s = (Ok tt, s') ∧ ps_view s' = <[k := v]> (ps_view s)) ∨
    (∃ e s', ps_Put k v s = (Err e, s') ∧ ps_view s' = ps_view s);
  ps_Iter_law : ∀ p s,
    (∃ l, ps_Iter p s = Ok l ∧ sorted_entries l ∧ ∀ k v, (k, v) ∈ l ↔ p `prefix_of` k ∧ ps_view s !! k = Some v) ∨
    (∃ e, ps_Iter p s = Err e);
}.

Section leveldb_store.
Context `{LevelDB D}.

Definition ldbs_Get (key : bytes) (s : LevelDBStore D) : res bytes :=
  match ldb_Get key (ldb s) with
  | Ok dat => Ok dat
  | Err e => if decide (e = "leveldb: not found"%string) then Err ErrNotFound else Err e
  | Panic => Panic
  end.

Definition ldbs_NewBatch : M (LevelDBStore D) unit :=
  s ← get_state; put_state (mkLevelDBStore (ldb s) (Some [])).

Definition ldbs_batch_add (o : batch_op) : M (LevelDBStore D) unit :=
  s ← get_state;
  match batch s with
  | None => panic
  | Some b => put_state (mkLevelDBStore (ldb s) (Some (b ++ [o])))
  end.
Definition ldbs_BatchPut (key value : bytes) : M (LevelDBStore D) unit := ldbs_batch_add (BPut key value).
Definition ldbs_BatchDelete (key : bytes) : M (LevelDBStore D) unit := ldbs_batch_add (BDelete key).

Definition ldbs_BatchCommit : M (LevelDBStore D) unit :=
  s ← get_state;
  match ldb_Write (batch s) (ldb s) with
  | (Ok _, d) => put_state (mkLevelDBStore d None)
  | (Err e, d) => put_state (mkLevelDBStore d (batch s)) ;; fail e
  | (Panic, d) => put_state (mkLevelDBStore d (batch s)) ;; panic
  end.

Definition ldbs_Put (key value : bytes) : M (LevelDBStore D) unit := λ s,
  let '(r, d) := ldb_Put key value (ldb s) in (r, mkLevelDBStore d (batch s)).

Definition ldbs_NewIterator (prefix : bytes) (s : LevelDBStore D) : res (list entry) := ldb_Iter prefix (ldb s).

#[export] Program Instance leveldb_persist_store : PersistStore (LevelDBStore D) := {|
  ps_Get := ldbs_Get;
  ps_NewBatch := ldbs_NewBatch;
  ps_BatchPut := ldbs_BatchPut;
  ps_BatchDelete := ldbs_BatchDelete;
  ps_BatchCommit := ldbs_BatchCommit;
  ps_Put := ldbs_Put;
  ps_Iter := ldbs_NewIterator;
  ps_view s := ldb_view (ldb s);
  ps_pending := batch;
|}.
Next Obligation.
  intros k s. unfold ldbs_Get. destruct (ldb_Get_view k (ldb s)) as [->|(e & He & He' & ->)].
  - left. by destruct (ldb_view (ldb s) !! k).
  - right. exists e. by rewrite decide_False.
Qed.
Next Obligation. intros s. by eexists. Qed.
Next Obligation.
  intros k v s b Hb. unfold ldbs_BatchPut, ldbs_batch_add. erewrite bind_ok by done.
  rewrite Hb. by eexists.
Qed.
Next Obligation.
  intros k s b Hb. unfold ldbs_BatchDelete, ldbs_batch_add. erewrite bind_ok by done.
  rewrite Hb. by eexists.
Qed.
Next Obligation.
  intros s b Hb. unfold ldbs_BatchCommit. erewrite bind_ok by done. rewrite Hb.
  destruct (ldb_Write_view b (ldb s)) as [(d' & -> & Hv)|(e & d' & -> & Hv)].
  - left. by eexists.
  - right. by do 2 eexists.
Qed.
Next Obligation.
  intros k v s. unfold ldbs_Put. destruct (ldb_Put_view k v (ldb s)) as [(d' & -> & Hv)|(e & d' & -> & Hv)].
  - left. by eexists.
  - right. by do 2 eexists.
Qed.
Next Obligation. intros p s. apply ldb_Iter_view. Qed.

End leveldb_store.

(** ** OverlayDB *)

Record OverlayDB `{Rand} (PS : Type) := mkOverlayDB {
  ov_store : PS;
  ov_memdb : MemDB;
  ov_dbErr : option string;
}.
Arguments mkOverlayDB {_ PS}.
Arguments ov_store {_ PS}.
Arguments ov_memdb {_ PS}.
Arguments ov_dbErr {_ PS}.

Section overlaydb.
Context `{Rand} `{PersistStore PS} `{Hasher}.
Implicit Types db : OverlayDB PS.

Definition NewOverlayDB (store : PS) : OverlayDB PS := mkOverlayDB store NewMemDB None.

Definition ov_Reset : M (OverlayDB PS) unit :=
  db ← get_state; put_state (mkOverlayDB (ov_store db) (Reset (ov_memdb db)) (ov_dbErr db)).

Definition ov_Error db : option string := ov_dbErr db.
Definition ov_SetError (err : option string) : M (OverlayDB PS) unit :=
  db ← get_state; put_state (mkOverlayDB (ov_store db) (ov_memdb db) err).

Definition ov_Get (key : bytes) : M (OverlayDB PS) bytes :=
  db ← get_state;
  match Get key (ov_memdb db) with
  | None => panic
  | Some (value, false) => mret value
  | Some (_, true) =>
      match ps_Get key (ov_store db) with
      | Ok value => mret value
      | Err e =>
          if decide (e = ErrNotFound) then mret []
          else ov_SetError (Some e) ;; fail e
      | Panic => panic
      end
  end.

Definition ov_Put (key value : bytes) : M (OverlayDB PS) unit :=
  db ← get_state;
  match Put key value (ov_memdb db) with
  | None => panic
  | Some m => put_state (mkOverlayDB (ov_store db) m (ov_dbErr db))
  end.

Definition ov_Delete (key : bytes) : M (OverlayDB PS) unit :=
  db ← get_state;
  match Delete key (ov_memdb db) with
  | None => panic
  | Some m => put_state (mkOverlayDB (ov_store db) m (ov_dbErr db))
  end.

(** The callback of [CommitTo] on the pairs [ForEach] visits. *)
Fixpoint commit_entries (l : list entry) : M PS unit :=
  match l with
  | [] => mret tt
  | (key, val) :: l' =>
      (if decide (length val = 0)%nat then ps_BatchDelete key else ps_BatchPut key val) ;;
      commit_entries l'
  end.

(** Runs an operation of the store on the field. *)
Definition on_store {A} (m : M PS A) : M (OverlayDB PS) A := λ db,
  let '(r, s) := m (ov_store db) in (r, mkOverlayDB s (ov_memdb db) (ov_dbErr db)).

Definition ov_CommitTo : M (OverlayDB PS) unit :=
  db ← get_state;
  match ForEach (ov_memdb db) with
  | None => panic
  | Some l => on_store (commit_entries l)
  end.

Definition ov_GetWriteSet db : MemDB := ov_memdb db.

(** [stateDiff.Write] concatenates what is hashed. *)
Definition ov_ChangeHash : M (OverlayDB PS) Uint256 :=
  db ← get_state;
  match ForEach (ov_memdb db) with
  | None => panic
  | Some l => mret (Sum256 (mjoin ((λ e, e.1 ++ e.2) <$> l)))
  end.

(** ** What an overlay holds *)

(** The write set, and the value a read sees. *)
Definition writes_of db (w : gmap bytes bytes) : Prop :=
  ∃ ns, mem_ok (ov_memdb db) ns ∧ to_gmap (entries ns) = w.

Definition seen (w store : gmap bytes bytes) (k : bytes) : bytes :=
  match w !! k with Some v => v | None => default [] (store !! k) end.

Lemma writes_of_new store : writes_of (NewOverlayDB store) ∅.
Proof. exists []. split; [apply mem_ok_new|done]. Qed.

Lemma ov_Get_ok db w k :
  writes_of db w →
  ov_Get k db = (Ok (seen w (ps_view (ov_store db)) k), db) ∨
  ∃ e, ov_Get k db = (Err e, mkOverlayDB (ov_store db) (ov_memdb db) (Some e)).
Proof.
  intros (ns & Hok & Hw). unfold ov_Get. erewrite bind_ok by done.
  rewrite (Get_lookup _ _ _ Hok), Hw. unfold seen. destruct (w !! k) as [v|]; [by left|].
  destruct (ps_Get_view k (ov_store db)) as [->|(e & He & ->)].
  - left. by destruct (ps_view (ov_store db) !! k).
  - right. exists e. by rewrite decide_False.
Qed.

Lemma ov_Put_ok db w k v :
  writes_of db w →
  ∃ db', ov_Put k v db = (Ok tt, db') ∧ writes_of db' (<[k := v]> w) ∧ ov_store db' = ov_store db ∧
    ov_dbErr db' = ov_dbErr db.
Proof.
  intros (ns & Hok & Hw). unfold ov_Put. erewrite bind_ok by done.
  destruct (run_db_op_ok (DbPut k v) _ _ Hok) as (p' & ns' & E & Hok' & He). simpl in E, He.
  rewrite E. eexists. split_and!; [done| |done..]. exists ns'. by rewrite He, Hw.
Qed.

Lemma ov_Delete_ok db w k :
  writes_of db w →
  ∃ db', ov_Delete k db = (Ok tt, db') ∧ writes_of db' (<[k := []]> w) ∧ ov_store db' = ov_store db ∧
    ov_dbErr db' = ov_dbErr db.
Proof.
  intros (ns & Hok & Hw). unfold ov_Delete. erewrite bind_ok by done.
  destruct (run_db_op_ok (DbDelete k) _ _ Hok) as (p' & ns' & E & Hok' & He). simpl in E, He.
  rewrite E. eexists. split_and!; [done| |done..]. exists ns'. by rewrite He, Hw.
Qed.

Definition entry_op (e : entry) : batch_op :=
  if decide (length e.2 = 0)%nat then BDelete e.1 else BPut e.1 e.2.

Lemma commit_entries_ok l s b :
  ps_pending s = Some b →
  ∃ s', commit_entries l s = (Ok tt, s') ∧ ps_view s' = ps_view s ∧
    ps_pending s' = Some (b ++ (entry_op <$> l)).
Proof.
  revert s b. induction l as [|[k v] l IH]; intros s b Hb; cbn [commit_entries].
  { exists s. by rewrite app_nil_r. }
  assert (∃ s1, (if decide (length v = 0)%nat then ps_BatchDelete k else ps_BatchPut k v) s = (Ok tt, s1) ∧
    ps_view s1 = ps_view s ∧ ps_pending s1 = Some (b ++ [entry_op (k, v)])) as (s1 & E & Hv & Hp).
  { unfold entry_op. simpl. case_decide; [by apply ps_BatchDelete_law|by apply ps_BatchPut_law]. }
  rewrite (bind_ok _ _ _ _ _ E). destruct (IH s1 _ Hp) as (s2 & E2 & Hv2 & Hp2).
  exists s2. split_and!; [done|congruence|]. by rewrite Hp2, <- app_assoc.
Qed.

(** A batch with at most one operation per key. *)
Lemma apply_batch_lookup m l k :
  sorted_entries l →
  apply_batch m (entry_op <$> l) !! k =
    match to_gmap l !! k with
    | Some v => if decide (length v = 0)%nat then None else Some v
    | None => m !! k
    end.
Proof.
  revert m. induction l as [|[k1 v1] l IH]; intros m Hs; [done|].
  apply sorted_cons_inv in Hs as Hs'. destruct Hs' as [Hs1 Hk].
  change (apply_batch m (entry_op <$> (k1, v1) :: l)) with
    (apply_batch (apply_batch m [entry_op (k1, v1)]) (entry_op <$> l)).
  rewrite IH by done. change (to_gmap ((k1, v1) :: l)) with (<[k1 := v1]> (to_gmap l)).
  destruct (decide (k1 = k)) as [->|Hne].
  - rewrite lookup_insert_eq. destruct (to_gmap l !! k) as [v|] eqn:E.
    + apply to_gmap_lookup in E; [|done]. apply Hk in E. by apply bytes_lt_irrefl in E.
    + unfold entry_op. simpl. case_decide; simpl; [by rewrite lookup_delete_eq|by rewrite lookup_insert_eq].
  - rewrite lookup_insert_ne by done. destruct (to_gmap l !! k); [done|].
    unfold entry_op. simpl. case_decide; simpl; [by rewrite lookup_delete_ne|by rewrite lookup_insert_ne].
Qed.

(** ** Properties *)

(** Committing a block.  After [CommitTo] and [BatchCommit] the persistent
    store holds for every key exactly what reads through the overlay returned,
    deleted keys are absent, and if the commit fails the store is unchanged. *)
Lemma ov_CommitTo_correct db w :
  writes_of db w → ps_pending (ov_store db) = Some [] →
  ∃ db', ov_CommitTo db = (Ok tt, db') ∧ writes_of db' w ∧
    ps_view (ov_store db') = ps_view (ov_store db) ∧
    match ps_BatchCommit (ov_store db') with
    | (Ok _, s) => ∀ k, default [] (ps_view s !! k) = seen w (ps_view (ov_store db)) k ∧
        (w !! k = Some [] → ps_view s !! k = None)
    | (Err _, s) => ps_view s = ps_view (ov_store db)
    | (Panic, _) => False
    end.
Proof.
  intros (ns & Hok & Hw) Hb. unfold ov_CommitTo. erewrite bind_ok by done.
  rewrite (ForEach_ok _ _ Hok). unfold on_store.
  destruct (commit_entries_ok (entries ns) (ov_store db) [] Hb) as (s1 & -> & Hv & Hp).
  eexists. split_and!; [done|by exists ns|done|]. cbn [ov_store].
  destruct (ps_BatchCommit_law s1 _ Hp) as [(s2 & -> & Hv2)|(e & s2 & -> & Hv2)]; [|congruence].
  intros k. rewrite Hv2, Hv. cbn [app]. rewrite apply_batch_lookup, Hw by apply Hok. unfold seen. split.
  - destruct (w !! k) as [v|]; [|done]. case_decide as Hl; [|done]. by destruct v.
  - by intros ->.
Qed.

(** The hash of a write set.  [ChangeHash] depends only on the final value
    of each written key, not on the order or number of the writes, nor on the
    heights the skip list drew: nodes that executed the same writes agree. *)
Lemma ov_ChangeHash_deterministic db1 db2 w :
  writes_of db1 w → writes_of db2 w →
  ∃ h, ov_ChangeHash db1 = (Ok h, db1) ∧ ov_ChangeHash db2 = (Ok h, db2).
Proof.
  intros (ns1 & Hok1 & Hw1) (ns2 & Hok2 & Hw2). unfold ov_ChangeHash.
  erewrite !bind_ok by done. rewrite (ForEach_ok _ _ Hok1), (ForEach_ok _ _ Hok2).
  assert (entries ns1 = entries ns2) as ->; [|by eexists].
  apply sorted_entries_unique; [apply Hok1|apply Hok2|]. by rewrite Hw1, Hw2.
Qed.

End overlaydb.

(** ** Examples *)

Definition ex_rand : Rand := counting_rand.
#[local] Existing Instance ex_rand.

#[local] Existing Instance poly_hasher.

Definition ex_ops : list db_op :=
  [DbPut (gs "b") (gs "1"); DbPut (gs "a") (gs "2"); DbDelete (gs "b"); DbPut (gs "c") (gs "33")].
Definition ex_ldb : LevelDBStore (gmap bytes bytes) :=
  mkLevelDBStore {[ gs "b" := gs "old"; gs "d" := gs "kept" ]} (Some []).
Definition ex_overlay (os : list db_op) : OverlayDB (LevelDBStore (gmap bytes bytes)) :=
  mkOverlayDB ex_ldb (default NewMemDB (run_db_ops os NewMemDB)) None.

Lemma ex_overlay_writes os : writes_of (ex_overlay os) (db_map os).
Proof.
  destruct (run_db_ops_ok os NewMemDB [] mem_ok_new) as (p & ns & E & Hok & He).
  exists ns. unfold ex_overlay. cbn [ov_memdb]. rewrite E. by split.
Qed.

Lemma ov_CommitTo_correct_example :
  ∃ db', ov_CommitTo (ex_overlay ex_ops) = (Ok tt, db') ∧ writes_of db' (db_map ex_ops) ∧
    ps_view (ov_store db') = ps_view (ov_store (ex_overlay ex_ops)) ∧
    match ps_BatchCommit (ov_store db') with
    | (Ok _, s) => ∀ k, default [] (ps_view s !! k) = seen (db_map ex_ops) (ps_view (ov_store (ex_overlay ex_ops))) k ∧
        (db_map ex_ops !! k = Some [] → ps_view s !! k = None)
    | (Err _, s) => ps_view s = ps_view (ov_store (ex_overlay ex_ops))
    | (Panic, _) => False
    end.
Proof.
  apply (ov_CommitTo_correct (ex_overlay ex_ops) (db_map ex_ops)).
  - apply ex_overlay_writes.
  - reflexivity.
Defined.

(** The same final values, reached by other writes in another order. *)
Definition ex_ops2 : list db_op :=
  [DbPut (gs "c") (gs "x"); DbDelete (gs "b"); DbPut (gs "c") (gs "33"); DbPut (gs "a") (gs "2")].

Lemma ov_ChangeHash_deterministic_example :
  ∃ h, ov_ChangeHash (ex_overlay ex_ops) = (Ok h, ex_overlay ex_ops) ∧
    ov_ChangeHash (ex_overlay ex_ops2) = (Ok h, ex_overlay ex_ops2).
Proof.
  apply (ov_ChangeHash_deterministic (ex_overlay ex_ops) (ex_overlay ex_ops2) (db_map ex_ops)).
  - apply ex_overlay_writes.
  - replace (db_map ex_ops) with (db_map ex_ops2) by (vm_compute; reflexivity). apply ex_overlay_writes.
Defined.
