(* ===== verification/CacheDB.v ===== *)
(** * The transaction cache (native/storage/cachedb.go)

    [CacheDB] buffers the writes of one transaction over the block's [OverlayDB];
    the keys of native contracts get the prefix [ST_STORAGE].  [KV] is what the
    contracts rely on: a store with get, put and delete.  [CacheDB] implements it,
    and so does a plain finite map; [cache_sim] relates the two. *)

From S2P Require Import Prelude Sha256 BytesOrder MemDB OverlayDB.

(** ** The interface of the contracts *)

Class KV (C : Type) := {
  kv_get : bytes → M C bytes;     (* [nil] for an absent key *)
  kv_put : bytes → bytes → M C unit;
  kv_del : bytes → M C unit;
}.

(** The abstract store: absent keys read as [nil]. *)
Abbreviation kvmap := (gmap bytes bytes).
Definition kv_at (m : kvmap) (k : bytes) : bytes := default [] (m !! k).

#[export] Instance kvmap_kv : KV kvmap := {|
  kv_get k m := (Ok (kv_at m k), m);
  kv_put k v m := (Ok tt, <[k := v]> m);
  kv_del k m := (Ok tt, delete k m);
|}.

(** ** The code *)

Definition ST_STORAGE : byte := byte_of_Z 5.

Record CacheDB `{Rand} (PS : Type) := mkCacheDB {
  cache_memdb : MemDB;
  backend : OverlayDB PS;
  keyScratch : bytes;        (* the buffer up to its capacity *)
}.
Arguments mkCacheDB {_ PS}.
Arguments cache_memdb {_ PS}.
Arguments backend {_ PS}.
Arguments keyScratch {_ PS}.

(** The backing array of the result of [ensureBuffer]; its length is [n]. *)
Definition ensureBuffer (b : bytes) (n : nat) : bytes :=
  if decide (length b < n)%nat then replicate n Byte.x00 else b.

(** The backing array after [dst[0] = prefix; copy(dst[1:], key)]; the key is its
    first [len(key)+1] bytes. *)
Definition makePrefixedKey (dst : bytes) (prefix : byte) (key : bytes) : bytes :=
  let dst := ensureBuffer dst (length key + 1) in
  [prefix] ++ key ++ drop (length key + 1) dst.

Section cachedb.
Context `{Rand} `{PersistStore PS}.
Implicit Types c : CacheDB PS.

Definition NewCacheDB (store : OverlayDB PS) : CacheDB PS := mkCacheDB NewMemDB store [].

Definition cache_Reset : M (CacheDB PS) unit :=
  c ← get_state; put_state (mkCacheDB (Reset (cache_memdb c)) (backend c) (keyScratch c)).

(** Runs an operation of the backend on the field. *)
Definition on_backend {A} (m : M (OverlayDB PS) A) : M (CacheDB PS) A := λ c,
  let '(r, b) := m (backend c) in (r, mkCacheDB (cache_memdb c) b (keyScratch c)).

(** [self.keyScratch = makePrefixedKey(self.keyScratch, prefix, key)] and the
    slice it denotes. *)
Definition scratch_key (prefix : byte) (key : bytes) : M (CacheDB PS) bytes :=
  c ← get_state;
  let b := makePrefixedKey (keyScratch c) prefix key in
  put_state (mkCacheDB (cache_memdb c) (backend c) b) ;;
  mret (take (length key + 1) b).

Definition cache_memdb_op (f : MemDB → option MemDB) : M (CacheDB PS) unit :=
  c ← get_state;
  match f (cache_memdb c) with
  | None => panic
  | Some m => put_state (mkCacheDB m (backend c) (keyScratch c))
  end.

Definition cache_put (prefix : byte) (key value : bytes) : M (CacheDB PS) unit :=
  k ← scratch_key prefix key; cache_memdb_op (Put k value).

Definition cache_get (prefix : byte) (key : bytes) : M (CacheDB PS) bytes :=
  k ← scratch_key prefix key;
  c ← get_state;
  match Get k (cache_memdb c) with
  | None => panic
  | Some (value, false) => mret value
  | Some (_, true) => on_backend (ov_Get k)
  end.

Definition cache_delete (prefix : byte) (key : bytes) : M (CacheDB PS) unit :=
  k ← scratch_key prefix key; cache_memdb_op (Delete k).

Definition cache_Put (key value : bytes) : M (CacheDB PS) unit := cache_put ST_STORAGE key value.
Definition cache_Get (key : bytes) : M (CacheDB PS) bytes := cache_get ST_STORAGE key.
Definition cache_Delete (key : bytes) : M (CacheDB PS) unit := cache_delete ST_STORAGE key.

#[export] Instance cache_kv : KV (CacheDB PS) := {|
  kv_get := cache_Get;
  kv_put := cache_Put;
  kv_del := cache_Delete;
|}.

(** The callback of [Commit] on the pairs [ForEach] visits. *)
Fixpoint commit_cache (l : list entry) : M (OverlayDB PS) unit :=
  match l with
  | [] => mret tt
  | (key, val) :: l' =>
      (if decide (length val = 0)%nat then ov_Delete key else ov_Put key val) ;;
      commit_cache l'
  end.

Definition cache_Commit : M (CacheDB PS) unit :=
  c ← get_state;
  match ForEach (cache_memdb c) with
  | None => panic
  | Some l => on_backend (commit_cache l)
  end.

(** ** What a cache holds *)

Definition cache_writes c (w : gmap bytes bytes) : Prop :=
  ∃ ns, mem_ok (cache_memdb c) ns ∧ to_gmap (entries ns) = w.

(** The value the transaction sees under a raw key. *)
Definition cache_seen (w bw store : gmap bytes bytes) (k : bytes) : bytes :=
  match w !! k with Some v => v | None => seen bw store k end.

Lemma take_makePrefixedKey dst prefix key :
  take (length key + 1) (makePrefixedKey dst prefix key) = prefix :: key.
Proof.
  unfold makePrefixedKey. rewrite app_assoc, take_app_le by (rewrite length_app; simpl; lia).
  apply take_ge. simpl. lia.
Qed.

Lemma scratch_key_ok prefix key c :
  ∃ b, scratch_key prefix key c = (Ok (prefix :: key), mkCacheDB (cache_memdb c) (backend c) b).
Proof.
  unfold scratch_key. do 2 erewrite bind_ok by done. eexists. by rewrite take_makePrefixedKey.
Qed.

Lemma cache_put_ok c w prefix k v :
  cache_writes c w →
  ∃ c', cache_put prefix k v c = (Ok tt, c') ∧ cache_writes c' (<[prefix :: k := v]> w) ∧ backend c' = backend c.
Proof.
  intros (ns & Hok & Hw). destruct (scratch_key_ok prefix k c) as [b E].
  unfold cache_put. rewrite (bind_ok _ _ _ _ _ E). unfold cache_memdb_op. erewrite bind_ok by done.
  destruct (run_db_op_ok (DbPut (prefix :: k) v) _ _ Hok) as (p' & ns' & Ep & Hok' & He). simpl in Ep, He.
  cbn [cache_memdb]. rewrite Ep. eexists. split_and!; [done| |done]. exists ns'. by rewrite He, Hw.
Qed.

Lemma cache_delete_ok c w prefix k :
  cache_writes c w →
  ∃ c', cache_delete prefix k c = (Ok tt, c') ∧ cache_writes c' (<[prefix :: k := []]> w) ∧ backend c' = backend c.
Proof.
  intros (ns & Hok & Hw). destruct (scratch_key_ok prefix k c) as [b E].
  unfold cache_delete. rewrite (bind_ok _ _ _ _ _ E). unfold cache_memdb_op. erewrite bind_ok by done.
  destruct (run_db_op_ok (DbDelete (prefix :: k)) _ _ Hok) as (p' & ns' & Ep & Hok' & He). simpl in Ep, He.
  cbn [cache_memdb]. rewrite Ep. eexists. split_and!; [done| |done]. exists ns'. by rewrite He, Hw.
Qed.

Lemma cache_get_ok c w bw prefix k :
  cache_writes c w → writes_of (backend c) bw →
  ∃ c', cache_writes c' w ∧ writes_of (backend c') bw ∧ ov_store (backend c') = ov_store (backend c) ∧
    (cache_get prefix k c = (Ok (cache_seen w bw (ps_view (ov_store (backend c))) (prefix :: k)), c') ∨
     ∃ e, cache_get prefix k c = (Err e, c')).
Proof.
  intros (ns & Hok & Hw) Hbw. destruct (scratch_key_ok prefix k c) as [b E].
  unfold cache_get. rewrite (bind_ok _ _ _ _ _ E). erewrite bind_ok by done. cbn [cache_memdb].
  rewrite (Get_lookup _ _ _ Hok), Hw. unfold cache_seen. destruct (w !! (prefix :: k)) as [v|].
  { eexists. split_and!; [| | |by left]; [by exists ns|done|done]. }
  unfold on_backend. cbn [backend]. destruct (ov_Get_ok (backend c) bw (prefix :: k) Hbw) as [->|(e & ->)].
  - eexists. split_and!; [| | |by left]; [by exists ns|done|done].
  - eexists. split_and!; [| | |right; by eexists]; [by exists ns|done|done].
Qed.

Lemma commit_cache_ok l b bw :
  writes_of b bw → ∃ b', commit_cache l b = (Ok tt, b') ∧
    writes_of b' (foldl (λ m e, <[e.1 := e.2]> m) bw l) ∧ ov_store b' = ov_store b ∧ ov_dbErr b' = ov_dbErr b.
Proof.
  revert b bw. induction l as [|[k v] l IH]; intros b bw Hb; cbn [commit_cache foldl]; [by exists b|].
  assert (∃ b1, (if decide (length v = 0)%nat then ov_Delete k else ov_Put k v) b = (Ok tt, b1) ∧
    writes_of b1 (<[k := v]> bw) ∧ ov_store b1 = ov_store b ∧ ov_dbErr b1 = ov_dbErr b) as (b1 & E & Hb1 & Hs1 & He1).
  { case_decide as Hv; [|by apply ov_Put_ok]. destruct v; [|done]. by apply ov_Delete_ok. }
  rewrite (bind_ok _ _ _ _ _ E). destruct (IH b1 _ Hb1) as (b2 & E2 & Hb2 & Hs2 & He2).
  exists b2. split_and!; [done|done|congruence..].
Qed.

Lemma foldl_insert_union (l : list entry) (bw : gmap bytes bytes) :
  sorted_entries l → foldl (λ m e, <[e.1 := e.2]> m) bw l = to_gmap l ∪ bw.
Proof.
  revert bw. induction l as [|[k v] l IH]; intros bw Hs; cbn [foldl]; [symmetry; apply map_empty_union|].
  apply sorted_cons_inv in Hs as [Hs Hk]. rewrite IH by done. cbn.
  change (list_to_map l) with (to_gmap l). rewrite <- insert_union_r; [by rewrite insert_union_l|].
  destruct (to_gmap l !! k) as [v'|] eqn:E; [|done].
  apply elem_of_list_to_map_2 in E. apply Hk in E. by apply bytes_lt_irrefl in E.
Qed.

Lemma cache_Commit_ok c w bw :
  cache_writes c w → writes_of (backend c) bw →
  ∃ c' bw', cache_Commit c = (Ok tt, c') ∧ cache_writes c' w ∧ writes_of (backend c') bw' ∧
    ov_store (backend c') = ov_store (backend c) ∧ ov_dbErr (backend c') = ov_dbErr (backend c) ∧ bw' = w ∪ bw ∧
    ∀ k, seen bw' (ps_view (ov_store (backend c))) k = cache_seen w bw (ps_view (ov_store (backend c))) k.
Proof.
  intros (ns & Hok & Hw) Hbw. unfold cache_Commit. erewrite bind_ok by done.
  rewrite (ForEach_ok _ _ Hok). unfold on_backend.
  destruct (commit_cache_ok (entries ns) (backend c) bw Hbw) as (b' & -> & Hb' & Hs & He).
  rewrite foldl_insert_union, Hw in Hb' by apply Hok. do 2 eexists.
  split_and!; [done|by exists ns|exact Hb'|done|done|done|].
  intros k. unfold cache_seen, seen. rewrite lookup_union. by destruct (w !! k), (bw !! k).
Qed.

(** Committing a transaction.  [Commit] never fails, and afterwards every
    read through the block cache alone returns what the transaction saw; the
    cache itself and the store below are unchanged. *)
Lemma cache_Commit_correct c w bw :
  cache_writes c w → writes_of (backend c) bw →
  ∃ c' bw', cache_Commit c = (Ok tt, c') ∧ cache_writes c' w ∧ writes_of (backend c') bw' ∧
    ov_store (backend c') = ov_store (backend c) ∧
    ∀ k, seen bw' (ps_view (ov_store (backend c))) k = cache_seen w bw (ps_view (ov_store (backend c))) k.
Proof.
  intros Hc Hb. destruct (cache_Commit_ok c w bw Hc Hb) as (c' & bw' & ? & ? & ? & ? & _ & _ & ?). by exists c', bw'.
Qed.

(** ** The cache implements the contracts' store *)

(** The store does not fail to read. *)
Definition store_ok (s : PS) : Prop := ∀ k,
  ps_Get k s = match ps_view s !! k with Some v => Ok v | None => Err ErrNotFound end.

(** All written keys belong to the contracts' storage. *)
Definition storage_only (w : gmap bytes bytes) : Prop := ∀ k v, w !! k = Some v → head k = Some ST_STORAGE.

Lemma storage_only_empty : storage_only ∅.
Proof. intros k v. by rewrite lookup_empty. Qed.
Lemma storage_only_insert k v w : storage_only w → storage_only (<[ST_STORAGE :: k := v]> w).
Proof. intros Hw k' v' [[<- _]|[_ ?]]%lookup_insert_Some; [done|by eapply Hw]. Qed.
Lemma storage_only_union w1 w2 : storage_only w1 → storage_only w2 → storage_only (w1 ∪ w2).
Proof. intros H1 H2 k v [?|[_ ?]]%lookup_union_Some_raw; [by eapply H1|by eapply H2]. Qed.

Definition cache_sim c (m : kvmap) : Prop :=
  ∃ w bw, cache_writes c w ∧ writes_of (backend c) bw ∧ store_ok (ov_store (backend c)) ∧
    storage_only w ∧ storage_only bw ∧
    ∀ k, kv_at m k = cache_seen w bw (ps_view (ov_store (backend c))) (ST_STORAGE :: k).

Lemma ov_Get_store_ok b bw k :
  writes_of b bw → store_ok (ov_store b) → ov_Get k b = (Ok (seen bw (ps_view (ov_store b)) k), b).
Proof.
  intros (ns & Hok & Hw) Hs. unfold ov_Get. erewrite bind_ok by done.
  rewrite (Get_lookup _ _ _ Hok), Hw. unfold seen. destruct (bw !! k) as [v|]; [done|].
  rewrite Hs. by destruct (ps_view (ov_store b) !! k).
Qed.

Lemma cache_sim_get c m k :
  cache_sim c m → ∃ c', cache_Get k c = (Ok (kv_at m k), c') ∧ cache_sim c' m ∧ backend c' = backend c.
Proof.
  intros (w & bw & Hc & Hb & Hs & Hsw & Hsb & Hk). pose proof Hc as (ns & Hok & Hw).
  destruct (scratch_key_ok ST_STORAGE k c) as [b E]. unfold cache_Get, cache_get.
  rewrite (bind_ok _ _ _ _ _ E). erewrite bind_ok by done. cbn [cache_memdb].
  rewrite (Get_lookup _ _ _ Hok), Hw, Hk. unfold cache_seen.
  assert (cache_sim (mkCacheDB (cache_memdb c) (backend c) b) m) as Hsim by (by exists w, bw).
  destruct (w !! (ST_STORAGE :: k)) as [v|]; [by eexists|].
  unfold on_backend. cbn [backend]. rewrite (ov_Get_store_ok _ _ _ Hb Hs). by eexists.
Qed.

Lemma cache_sim_put c m k v :
  cache_sim c m → ∃ c', cache_Put k v c = (Ok tt, c') ∧ cache_sim c' (<[k := v]> m) ∧ backend c' = backend c.
Proof.
  intros (w & bw & Hc & Hb & Hs & Hsw & Hsb & Hk). destruct (cache_put_ok c w ST_STORAGE k v Hc) as (c' & E & Hc' & Hb').
  exists c'. split; [done|]. split; [|done]. exists (<[ST_STORAGE :: k := v]> w), bw. rewrite Hb'. split_and!; [done|done|done|by apply storage_only_insert|done|].
  intros k'. unfold kv_at, cache_seen. destruct (decide (k = k')) as [->|Hne].
  - by rewrite !lookup_insert_eq.
  - rewrite !lookup_insert_ne by congruence. apply Hk.
Qed.

Lemma cache_sim_del c m k :
  cache_sim c m → ∃ c', cache_Delete k c = (Ok tt, c') ∧ cache_sim c' (delete k m) ∧ backend c' = backend c.
Proof.
  intros (w & bw & Hc & Hb & Hs & Hsw & Hsb & Hk). destruct (cache_delete_ok c w ST_STORAGE k Hc) as (c' & E & Hc' & Hb').
  exists c'. split; [done|]. split; [|done]. exists (<[ST_STORAGE :: k := []]> w), bw. rewrite Hb'. split_and!; [done|done|done|by apply storage_only_insert|done|].
  intros k'. unfold kv_at, cache_seen. destruct (decide (k = k')) as [->|Hne].
  - by rewrite lookup_delete_eq, lookup_insert_eq.
  - rewrite lookup_delete_ne, lookup_insert_ne by congruence. apply Hk.
Qed.

End cachedb.

(** ** Examples *)

#[local] Existing Instance ex_rand.

Definition ex_cache : CacheDB (LevelDBStore (gmap bytes bytes)) :=
  mkCacheDB (default NewMemDB (run_db_ops [DbPut (gs "a") (gs "tx"); DbDelete (gs "c")] NewMemDB))
    (ex_overlay ex_ops) [].

Lemma ex_cache_writes : cache_writes ex_cache (db_map [DbPut (gs "a") (gs "tx"); DbDelete (gs "c")]).
Proof.
  destruct (run_db_ops_ok [DbPut (gs "a") (gs "tx"); DbDelete (gs "c")] NewMemDB [] mem_ok_new)
    as (p & ns & E & Hok & He).
  exists ns. unfold ex_cache. cbn [cache_memdb]. rewrite E. by split.
Qed.

Lemma cache_Commit_correct_example :
  let w := db_map [DbPut (gs "a") (gs "tx"); DbDelete (gs "c")] in
  ∃ c' bw', cache_Commit ex_cache = (Ok tt, c') ∧ cache_writes c' w ∧ writes_of (backend c') bw' ∧
    ov_store (backend c') = ov_store (backend ex_cache) ∧
    ∀ k, seen bw' (ps_view (ov_store (backend ex_cache))) k =
         cache_seen w (db_map ex_ops) (ps_view (ov_store (backend ex_cache))) k.
Proof.
  intros w. apply (cache_Commit_correct ex_cache w (db_map ex_ops)).
  - apply ex_cache_writes.
  - apply ex_overlay_writes.
Defined.

Lemma ex_cache_sim : cache_sim (NewCacheDB (NewOverlayDB ex_ldb)) ∅.
Proof.
  exists ∅, ∅. split_and!; [exists []; split; [apply mem_ok_new|done]|apply writes_of_new| |apply storage_only_empty..|].
  - intros k. simpl. unfold ldbs_Get. simpl. unfold gmap_ldb_Get. by destruct (_ !! k).
  - intros k. unfold cache_seen, seen, kv_at. rewrite !lookup_empty. cbn [ov_store backend NewCacheDB NewOverlayDB].
    simpl ps_view. by rewrite lookup_insert_ne, lookup_singleton_ne by discriminate.
Qed.
