(* ===== verification/Contract.v ===== *)
(** * Programs of native contracts

    A contract is a tree of calls to the cache ([KV]) and accesses to the rest of
    the service's state.  [run] executes it over any store.  Two stores that
    answer alike give the same result ([run_sim]), so the contracts are proved
    over finite maps and hold over [CacheDB] with its skip lists, block cache and
    database. *)

From S2P Require Import Prelude Sha256 BytesOrder MemDB OverlayDB CacheDB.

Inductive contract (E A : Type) : Type :=
  | CRet (a : A)
  | CFail (e : string)
  | CPanic
  | CGet (k : bytes) (f : res bytes → contract E A)
  | CPut (k v : bytes) (c : contract E A)
  | CDel (k : bytes) (c : contract E A)
  | CGetS (f : E → contract E A)
  | CPutS (s : E) (c : contract E A).
Arguments CRet {E A}.
Arguments CFail {E A}.
Arguments CPanic {E A}.
Arguments CGet {E A}.
Arguments CPut {E A}.
Arguments CDel {E A}.
Arguments CGetS {E A}.
Arguments CPutS {E A}.

Fixpoint cbind {E A B} (m : contract E A) (k : A → contract E B) : contract E B :=
  match m with
  | CRet a => k a
  | CFail e => CFail e
  | CPanic => CPanic
  | CGet key f => CGet key (λ r, cbind (f r) k)
  | CPut key v c => CPut key v (cbind c k)
  | CDel key c => CDel key (cbind c k)
  | CGetS f => CGetS (λ s, cbind (f s) k)
  | CPutS s c => CPutS s (cbind c k)
  end.

#[export] Instance contract_ret E : MRet (contract E) := λ A, CRet.
#[export] Instance contract_bind E : MBind (contract E) := λ A B k m, cbind m k.

(** [value, err := native.GetCacheDB().Get(key); if err != nil { return err }]. *)
Definition cget {E} (k : bytes) : contract E bytes :=
  CGet k (λ r, match r with Ok v => CRet v | Err e => CFail e | Panic => CPanic end).
Definition cput {E} (k v : bytes) : contract E unit := CPut k v (CRet tt).
Definition cdel {E} (k : bytes) : contract E unit := CDel k (CRet tt).
Definition cstate {E} : contract E E := CGetS CRet.
Definition cset {E} (s : E) : contract E unit := CPutS s (CRet tt).

Definition lift_res {E A} (r : res A) : contract E A :=
  match r with Ok a => CRet a | Err e => CFail e | Panic => CPanic end.

(** [if err != nil { return fmt.Errorf(prefix, err) }]. *)
Fixpoint cwrap {E A} (prefix : string) (m : contract E A) : contract E A :=
  match m with
  | CRet a => CRet a
  | CFail e => CFail (prefix +:+ e)
  | CPanic => CPanic
  | CGet key f => CGet key (λ r, cwrap prefix (f r))
  | CPut key v c => CPut key v (cwrap prefix c)
  | CDel key c => CDel key (cwrap prefix c)
  | CGetS f => CGetS (λ s, cwrap prefix (f s))
  | CPutS s c => CPutS s (cwrap prefix c)
  end.

(** [if !b { return errors.New(msg) }]. *)
Definition cguard {E} (b : bool) (msg : string) : contract E unit :=
  if b then CRet tt else CFail msg.

(** A loop over a Go slice or map. *)
Fixpoint cforeach {E A B} (l : list A) (acc : B) (f : B → A → contract E B) : contract E B :=
  match l with
  | [] => CRet acc
  | x :: l' => cbind (f acc x) (λ acc', cforeach l' acc' f)
  end.

(** ** Execution *)

Section run.
Context {E : Type} `{KV C}.

Fixpoint run {A} (m : contract E A) (s : C * E) : res A * (C * E) :=
  match m with
  | CRet a => (Ok a, s)
  | CFail e => (Err e, s)
  | CPanic => (Panic, s)
  | CGet k f => let '(r, c) := kv_get k s.1 in run (f r) (c, s.2)
  | CPut k v p =>
      match kv_put k v s.1 with
      | (Ok _, c) => run p (c, s.2)
      | (Err e, c) => (Err e, (c, s.2))
      | (Panic, c) => (Panic, (c, s.2))
      end
  | CDel k p =>
      match kv_del k s.1 with
      | (Ok _, c) => run p (c, s.2)
      | (Err e, c) => (Err e, (c, s.2))
      | (Panic, c) => (Panic, (c, s.2))
      end
  | CGetS f => run (f s.2) s
  | CPutS e p => run p (s.1, e)
  end.

Lemma run_bind {A B} (m : contract E A) (k : A → contract E B) s :
  run (m ≫= k) s =
    match run m s with
    | (Ok a, s') => run (k a) s'
    | (Err e, s') => (Err e, s')
    | (Panic, s') => (Panic, s')
    end.
Proof.
  change (m ≫= k) with (cbind m k). revert s.
  induction m as [a|e| |key f IH|key v p IH|key p IH|f IH|st p IH]; intros s; simpl; try done.
  - destruct (kv_get key s.1). apply IH.
  - destruct (kv_put key v s.1) as [[] ?]; [apply IH|done|done].
  - destruct (kv_del key s.1) as [[] ?]; [apply IH|done|done].
Qed.

Lemma run_bind_ok {A B} (m : contract E A) (k : A → contract E B) s a s' :
  run m s = (Ok a, s') → run (m ≫= k) s = run (k a) s'.
Proof. intros E1. by rewrite run_bind, E1. Qed.

Lemma run_bind_inv {A B} (m : contract E A) (k : A → contract E B) s b s' :
  run (m ≫= k) s = (Ok b, s') → ∃ a s1, run m s = (Ok a, s1) ∧ run (k a) s1 = (Ok b, s').
Proof. rewrite run_bind. destruct (run m s) as [[a| |] s1]; intros; simplify_eq. eauto. Qed.

Lemma run_cwrap {A} prefix (m : contract E A) s :
  run (cwrap prefix m) s =
    match run m s with
    | (Ok a, s') => (Ok a, s')
    | (Err e, s') => (Err e, s')
    | (Panic, s') => (Panic, s')
    end ∨ ∃ e s', run m s = (Err e, s') ∧ run (cwrap prefix m) s = (Err (prefix +:+ e), s').
Proof.
  revert s. induction m as [a|e| |key f IH|key v p IH|key p IH|f IH|st p IH]; intros s; simpl.
  - by left.
  - right. eauto.
  - by left.
  - destruct (kv_get key s.1). apply IH.
  - destruct (kv_put key v s.1) as [[] ?]; [apply IH|by left..].
  - destruct (kv_del key s.1) as [[] ?]; [apply IH|by left..].
  - apply IH.
  - apply IH.
Qed.

Lemma run_cwrap_ok {A} prefix (m : contract E A) s a s' :
  run (cwrap prefix m) s = (Ok a, s') ↔ run m s = (Ok a, s').
Proof.
  destruct (run_cwrap prefix m s) as [->|(e & s1 & -> & ->)]; [|done].
  by destruct (run m s) as [[] ?].
Qed.

Lemma run_lift_inv {A} (r : res A) s a s' : run (lift_res r) s = (Ok a, s') → r = Ok a ∧ s' = s.
Proof. destruct r; simpl; intros; by simplify_eq. Qed.

Lemma run_guard_inv b msg s u s' : run (cguard b msg) s = (Ok u, s') → b = true ∧ s' = s.
Proof. destruct b; simpl; intros; by simplify_eq. Qed.
Lemma run_guard_bind {A} (b : bool) msg (k : unit → contract E A) s a s' :
  run (cguard b msg ≫= k) s = (Ok a, s') → b = true ∧ run (k tt) s = (Ok a, s').
Proof. destruct b; [done|]. intros Hr. discriminate. Qed.

End run.

(** ** Over finite maps *)

Section kvmap_run.
Context {E : Type}.
Implicit Types (m : kvmap) (s : E).

Lemma run_cget k m s : run (cget k) (m, s) = (Ok (kv_at m k), (m, s)).
Proof. done. Qed.
Lemma run_cput k v m s : run (cput k v) (m, s) = (Ok tt, (<[k := v]> m, s)).
Proof. done. Qed.
Lemma run_cdel k m s : run (cdel k) (m, s) = (Ok tt, (delete k m, s)).
Proof. done. Qed.
Lemma run_cset e m s : run (cset e) (m, s) = (Ok tt, (m, e)).
Proof. done. Qed.

Lemma run_ret_inv {A} (a b : A) (st st' : kvmap * E) :
  run (mret a : contract E A) st = (Ok b, st') → b = a ∧ st' = st.
Proof. intros H. by inversion H. Qed.
Lemma run_CRet_inv {A} (a b : A) (st st' : kvmap * E) :
  run (CRet a : contract E A) st = (Ok b, st') → b = a ∧ st' = st.
Proof. intros H. by inversion H. Qed.

(** A contract that only reads. *)
Definition read_only {A} (c : contract E A) : Prop := ∀ st : kvmap * E, (run c st).2 = st.

Lemma read_only_ret {A} (a : A) : read_only (mret a : contract E A).
Proof. done. Qed.
Lemma read_only_fail {A} e : read_only (CFail e : contract E A).
Proof. done. Qed.
Lemma read_only_panic {A} : read_only (CPanic : contract E A).
Proof. done. Qed.
Lemma read_only_lift {A} (r : res A) : read_only (lift_res r : contract E A).
Proof. by destruct r. Qed.
Lemma read_only_get k : read_only (cget k : contract E _).
Proof. by intros [m s]. Qed.
Lemma read_only_state : read_only (cstate : contract E E).
Proof. done. Qed.
Lemma read_only_guard b msg : read_only (cguard b msg : contract E unit).
Proof. by destruct b. Qed.
Lemma read_only_bind {A B} (c : contract E A) (k : A → contract E B) :
  read_only c → (∀ a, read_only (k a)) → read_only (c ≫= k).
Proof.
  intros Hc Hk st. rewrite run_bind. specialize (Hc st). destruct (run c st) as [[] st']; simpl in *; subst; [|done..].
  apply Hk.
Qed.
Lemma read_only_wrap {A} p (c : contract E A) : read_only c → read_only (cwrap p c).
Proof.
  intros Hc st. specialize (Hc st). destruct (run_cwrap p c st) as [->|(e & st' & E1 & ->)].
  - by destruct (run c st) as [[] ?].
  - by rewrite E1 in Hc.
Qed.
Lemma read_only_foreach {A B} (l : list A) (acc : B) (f : B → A → contract E B) :
  (∀ b a, read_only (f b a)) → read_only (cforeach l acc f).
Proof.
  intros Hf. revert acc. induction l as [|x l IH]; intros acc; [apply read_only_ret|].
  cbn [cforeach]. apply (read_only_bind (f acc x) (λ acc', cforeach l acc' f)); auto.
Qed.

Lemma read_only_inv {A} (c : contract E A) st a st' :
  read_only c → run c st = (Ok a, st') → st' = st.
Proof. intros Hc E1. specialize (Hc st). by rewrite E1 in Hc. Qed.

(** A contract that keeps a property of the store, whether it succeeds or not. *)
Definition keeps {A : Type} (P : kvmap → Prop) (c : contract E A) : Prop := ∀ st : kvmap * E, P st.1 → P (run c st).2.1.

Lemma keeps_ro {A : Type} (P : kvmap → Prop) (c : contract E A) : read_only c → keeps P c.
Proof. intros Hc st. by rewrite Hc. Qed.
Lemma keeps_put (P : kvmap → Prop) k v : (∀ m, P m → P (<[k := v]> m)) → keeps P (cput k v : contract E unit).
Proof. intros Hk [m s]. apply Hk. Qed.
Lemma keeps_del (P : kvmap → Prop) k : (∀ m, P m → P (delete k m)) → keeps P (cdel k : contract E unit).
Proof. intros Hk [m s]. apply Hk. Qed.
Lemma keeps_set (P : kvmap → Prop) e : keeps P (cset e : contract E unit).
Proof. by intros [m s]. Qed.
Lemma keeps_bind {A B : Type} (P : kvmap → Prop) (c : contract E A) (k : A → contract E B) :
  keeps P c → (∀ a, keeps P (k a)) → keeps P (c ≫= k).
Proof.
  intros Hc Hk st Hst. rewrite run_bind. specialize (Hc st Hst). destruct (run c st) as [[] st']; [by apply Hk|done..].
Qed.
Lemma keeps_wrap {A : Type} (P : kvmap → Prop) p (c : contract E A) : keeps P c → keeps P (cwrap p c).
Proof.
  intros Hc st Hst. specialize (Hc st Hst). destruct (run_cwrap p c st) as [->|(e & st' & E1 & ->)].
  - by destruct (run c st) as [[] ?].
  - by rewrite E1 in Hc.
Qed.
Lemma keeps_foreach {A B : Type} (P : kvmap → Prop) (l : list A) (acc : B) (f : B → A → contract E B) :
  (∀ b a, keeps P (f b a)) → keeps P (cforeach l acc f).
Proof.
  intros Hf. revert acc. induction l as [|x l IH]; intros acc; [by apply keeps_ro|].
  cbn [cforeach]. apply (keeps_bind P (f acc x) (λ acc', cforeach l acc' f)); auto.
Qed.
Lemma keeps_run {A : Type} (P : kvmap → Prop) (c : contract E A) m s r m' s' : keeps P c → P m → run c (m, s) = (r, (m', s')) → P m'.
Proof. intros Hc Hm Hr. specialize (Hc (m, s) Hm). by rewrite Hr in Hc. Qed.

End kvmap_run.

Create HintDb keeps.
Create HintDb ro.
#[export] Hint Resolve read_only_ret read_only_fail read_only_panic read_only_lift read_only_get
  read_only_state read_only_guard read_only_wrap : ro.
Ltac solve_ro :=
  repeat first
    [ solve [auto with ro nocore]
    | apply read_only_wrap
    | apply read_only_bind; [|intros]
    | apply read_only_foreach; intros
    | match goal with |- read_only (if ?b then _ else _) => destruct b end
    | match goal with |- read_only (match ?x with _ => _ end) => destruct x end ].

Ltac solve_keeps :=
  repeat first
    [ solve [auto with keeps nocore]
    | apply keeps_wrap
    | apply keeps_put; intros; solve [auto with keeps]
    | apply keeps_del; intros; solve [auto with keeps]
    | apply keeps_set
    | apply keeps_bind; [|intros]
    | apply keeps_foreach; intros
    | match goal with |- keeps _ (if ?b then _ else _) => destruct b end
    | match goal with |- keeps _ (match ?x with _ => _ end) => destruct x end
    | apply keeps_ro; solve_ro ].

(** Takes a successful run apart, call by call; [crun_hook] is extended by the
    files that define further operations. *)
Ltac crun_hook H := fail.
Ltac crun H :=
  lazymatch type of H with
  | run (_ ≫= _) _ = (Ok _, _) =>
      let a := fresh "x" in let m := fresh "m" in let s := fresh "s" in let H1 := fresh "Hr" in
      apply run_bind_inv in H as (a & [m s] & H1 & H); crun H1; crun H
  | run (cwrap _ _) _ = _ => apply run_cwrap_ok in H; crun H
  | run (cguard _ _) _ = _ =>
      let E := fresh "Hg" in apply run_guard_inv in H as [E H]
  | run (lift_res _) _ = _ =>
      let E := fresh "Hl" in apply run_lift_inv in H as [E H]
  | run (cget _) _ = _ => rewrite run_cget in H
  | run (cput _ _) _ = _ => rewrite run_cput in H
  | run (cdel _) _ = _ => rewrite run_cdel in H
  | run (cset _) _ = _ => rewrite run_cset in H
  | run cstate _ = _ => cbn in H
  | run (mret _) _ = _ => apply run_ret_inv in H as [? H]
  | run (CFail _) _ = _ => discriminate H
  | run CPanic _ = _ => discriminate H
  | _ => try crun_hook H
  end; simplify_eq.

(** ** Simulation *)

Section sim.
Context {E : Type} `{KV C1} `{KV C2} (R : C1 → C2 → Prop).
Context (sim_get : ∀ c1 c2 k, R c1 c2 →
  ∃ r c1' c2', kv_get k c1 = (r, c1') ∧ kv_get k c2 = (r, c2') ∧ R c1' c2').
Context (sim_put : ∀ c1 c2 k v, R c1 c2 →
  ∃ c1' c2', kv_put k v c1 = (Ok tt, c1') ∧ kv_put k v c2 = (Ok tt, c2') ∧ R c1' c2').
Context (sim_del : ∀ c1 c2 k, R c1 c2 →
  ∃ c1' c2', kv_del k c1 = (Ok tt, c1') ∧ kv_del k c2 = (Ok tt, c2') ∧ R c1' c2').

Lemma run_sim {A} (m : contract E A) c1 c2 e :
  R c1 c2 →
  ∃ r e' c1' c2', run m (c1, e) = (r, (c1', e')) ∧ run m (c2, e) = (r, (c2', e')) ∧ R c1' c2'.
Proof using sim_get sim_put sim_del.
  revert c1 c2 e. induction m as [a|err| |key f IH|key v p IH|key p IH|f IH|st p IH];
    intros c1 c2 e HR; simpl; [by eauto 10..| | | | |].
  - destruct (sim_get c1 c2 key HR) as (r & c1' & c2' & -> & -> & HR'). by apply IH.
  - destruct (sim_put c1 c2 key v HR) as (c1' & c2' & -> & -> & HR'). by apply IH.
  - destruct (sim_del c1 c2 key HR) as (c1' & c2' & -> & -> & HR'). by apply IH.
  - by apply IH.
  - by apply IH.
Qed.

End sim.

(** A contract over the transaction cache and over the map of what it sees: the
    same result; the block cache below is left alone. *)
Lemma run_cache `{Rand} `{PersistStore PS} {E A : Type} (c : contract E A) (ca : CacheDB PS) (mp : kvmap) (e : E) :
  cache_sim ca mp →
  ∃ r e' ca' mp', run c (ca, e) = (r, (ca', e')) ∧ run c (mp, e) = (r, (mp', e')) ∧ cache_sim ca' mp' ∧
    backend ca' = backend ca.
Proof.
  intros Hsim.
  unshelve epose proof (run_sim (E := E) (λ (x : CacheDB PS) (y : kvmap), cache_sim x y ∧ backend x = backend ca)
    _ _ _ c ca mp e _) as (r & e' & ca' & mp' & ? & ? & ? & ?); [..|done|by eauto 10].
  - intros c1 c2 k [Hs <-]. destruct (cache_sim_get c1 c2 k Hs) as (c' & E1 & Hs' & ?).
    by exists (Ok (kv_at c2 k)), c', c2.
  - intros c1 c2 k v [Hs <-]. destruct (cache_sim_put c1 c2 k v Hs) as (c' & E1 & Hs' & ?). by exists c', (<[k := v]> c2).
  - intros c1 c2 k [Hs <-]. destruct (cache_sim_del c1 c2 k Hs) as (c' & E1 & Hs' & ?). by exists c', (delete k c2).
Qed.

(** C38 (contracts see a map).  A contract that runs over the transaction cache,
    the block cache and the database returns the same result, and leaves the
    service in the same state, as over the finite map of the values it sees; the
    cache then stands for the map's final contents. *)
Theorem contract_cache_refines `{Rand} `{PersistStore PS} {E A} (m : contract E A)
    (c : CacheDB PS) (mp : kvmap) (e : E) :
  cache_sim c mp →
  ∃ r e' c' mp', run m (c, e) = (r, (c', e')) ∧ run m (mp, e) = (r, (mp', e')) ∧ cache_sim c' mp'.
Proof. intros (r & e' & c' & mp' & ? & ? & ? & _)%(run_cache m c mp e). by exists r, e', c', mp'. Qed.

#[local] Existing Instance ex_rand.

(** A counter contract, on the empty cache. *)
Definition ex_contract : contract unit bytes :=
  v ← cget (gs "n"); cput (gs "n") (byte_of_Z 1 :: v) ;; cdel (gs "x") ;; cget (gs "n").

Lemma contract_cache_refines_witness :
  ∃ r e' c' mp', run ex_contract (NewCacheDB (NewOverlayDB ex_ldb), tt) = (r, (c', e')) ∧
    run ex_contract (∅ : kvmap, tt) = (r, (mp', e')) ∧ cache_sim c' mp'.
Proof.
  apply (contract_cache_refines ex_contract (NewCacheDB (NewOverlayDB ex_ldb)) ∅ tt). apply ex_cache_sim.
Defined.
