(* ===== verification/Sink.v ===== *)
(** * ZeroCopySink: the growable write buffer (common/zero_copy_sink.go)

    The slice [buf] is modelled with its backing array: [sink_data] has the
    slice's capacity as its length and [sink_len] is [len(buf)].  Growing by
    reslicing therefore exposes whatever bytes the array holds, as in Go, and
    [BackUp] leaves written bytes behind the end.  The slice that [NextBytes]
    returns aliases the buffer: it is represented by its start index.

    [sink_op] is the first-order form of one write: a [Serialization] method is
    the list of the writes it performs.  [run_ops] executes such a list on the
    buffer and [enc_ops] is the byte string it is meant to produce; [appends_ops]
    is the refinement between them. *)

From S2P Require Import Prelude Sha256.

Abbreviation Address := (array 20).
Definition ADDR_LEN : Z := 20.
Definition ADDRESS_EMPTY : Address := zero_array 20.

Record ZeroCopySink := mkSink {
  sink_data : bytes;   (* the backing array: its length is cap(buf) *)
  sink_len : Z;        (* len(buf) *)
}.

Definition sink_cap (s : ZeroCopySink) : Z := blen (sink_data s).

Definition sink_wf (s : ZeroCopySink) : Prop := 0 ≤ sink_len s ≤ sink_cap s.

(** [Bytes]. *)
Definition Bytes (s : ZeroCopySink) : bytes := take (Z.to_nat (sink_len s)) (sink_data s).

Definition sink_Size : M ZeroCopySink Z := λ s, (Ok (sink_len s), s).

(** [self.buf = self.buf[:n]], which panics outside the capacity. *)
Definition reslice (n : Z) : M ZeroCopySink unit := λ s,
  if decide (0 ≤ n ≤ sink_cap s) then (Ok tt, mkSink (sink_data s) n) else (Panic, s).

Definition tryGrowByReslice (n : Z) : M ZeroCopySink (Z * bool) :=
  s ← get_state;
  let l := sink_len s in
  if decide (n ≤ sink_cap s - l)
  then reslice (l + n) ;; mret (l, true)
  else mret (0, false).

(** [makeSlice] with memory always available. *)
Definition makeSlice (n : Z) : bytes := replicate (Z.to_nat n) Byte.x00.

Definition grow (n : Z) : M ZeroCopySink Z :=
  '(i, ok) ← tryGrowByReslice n;
  if (ok : bool) then mret i else
  s ← get_state;
  let l := sink_len s in
  let c := sink_cap s in
  if decide (maxInt - c - n < c) then panic else
  let buf := makeSlice (2 * c + n) in
  put_state (mkSink (Bytes s ++ drop (length (Bytes s)) buf) l) ;;
  reslice (l + n) ;;
  mret l.

(** [NextBytes(n)]: the start index of the slice it returns. *)
Definition NextBytes (n : Z) : M ZeroCopySink Z :=
  '(m, ok) ← tryGrowByReslice (go_int n);
  if (ok : bool) then mret m else grow (go_int n).

(** [copy(buf[m:], p)] on the buffer. *)
Definition copy_at (m : Z) (p : bytes) : M ZeroCopySink unit := λ s,
  if decide (0 ≤ m ≤ sink_len s) then
    let q := take (Z.to_nat (sink_len s - m)) p in
    (Ok tt, mkSink (take (Z.to_nat m) (sink_data s) ++ q ++
                    drop (Z.to_nat m + length q) (sink_data s)) (sink_len s))
  else (Panic, s).

(** A write that needs [len(p)] bytes from index [m], such as [buf[0] = b] or
    [PutUint32(buf, v)]: it panics when the slice is shorter. *)
Definition put_at (m : Z) (p : bytes) : M ZeroCopySink unit :=
  s ← get_state;
  if decide (blen p ≤ sink_len s - m) then copy_at m p else panic.

Definition WriteBytes (p : bytes) : M ZeroCopySink unit :=
  m ← NextBytes (blen p); copy_at m p.

Definition sink_BackUp (n : Z) : M ZeroCopySink unit :=
  s ← get_state; reslice (sink_len s - go_int n).

Definition WriteUint8 (data : Z) : M ZeroCopySink unit :=
  m ← NextBytes 1; put_at m [byte_of_Z data].

Definition WriteByte (c : byte) : M ZeroCopySink unit := WriteUint8 (byte_to_Z c).

Definition WriteBool (data : bool) : M ZeroCopySink unit :=
  if data then WriteByte (byte_of_Z 1) else WriteByte (byte_of_Z 0).

Definition WriteUint16 (data : Z) : M ZeroCopySink unit :=
  m ← NextBytes 2; put_at m (le_put 2 data).

Definition WriteUint32 (data : Z) : M ZeroCopySink unit :=
  m ← NextBytes 4; put_at m (le_put 4 data).

Definition WriteUint64 (data : Z) : M ZeroCopySink unit :=
  m ← NextBytes 8; put_at m (le_put 8 data).

Definition WriteInt64 (data : Z) : M ZeroCopySink unit := WriteUint64 (u64 data).
Definition WriteInt32 (data : Z) : M ZeroCopySink unit := WriteUint32 (u32 data).
Definition WriteInt16 (data : Z) : M ZeroCopySink unit := WriteUint16 (u16 data).

Definition WriteVarUint (data : Z) : M ZeroCopySink Z :=
  m ← NextBytes 9;
  size ←
    (if decide (data < 0xFD) then
       put_at m [byte_of_Z data] ;; mret 1
     else if decide (data ≤ 0xFFFF) then
       put_at m [byte_of_Z 0xFD] ;; put_at (m + 1) (le_put 2 (u16 data)) ;; mret 3
     else if decide (data ≤ 0xFFFFFFFF) then
       put_at m [byte_of_Z 0xFE] ;; put_at (m + 1) (le_put 4 (u32 data)) ;; mret 5
     else
       put_at m [byte_of_Z 0xFF] ;; put_at (m + 1) (le_put 8 data) ;; mret 9);
  sink_BackUp (9 - size) ;;
  mret size.

Definition WriteVarBytes (data : bytes) : M ZeroCopySink Z :=
  let l := blen data in
  n ← WriteVarUint l;
  WriteBytes data ;;
  mret (u64 (n + l)).

Definition WriteString (data : bytes) : M ZeroCopySink Z := WriteVarBytes data.
Definition WriteAddress (addr : Address) : M ZeroCopySink unit := WriteBytes (to_slice addr).
Definition WriteHash (hash : Uint256) : M ZeroCopySink unit := WriteBytes (to_slice hash).

(** [NewZeroCopySink(nil)]: an empty buffer of capacity 512. *)
Definition NewZeroCopySink : ZeroCopySink := mkSink (replicate 512 Byte.x00) 0.

Definition sink_Reset : M ZeroCopySink unit := reslice 0.

(** ** Sequences of writes *)

Inductive sink_op :=
  | OpBytes (p : bytes)
  | OpUint8 (x : Z)
  | OpByte (b : byte)
  | OpBool (b : bool)
  | OpUint16 (x : Z)
  | OpUint32 (x : Z)
  | OpUint64 (x : Z)
  | OpInt16 (x : Z)
  | OpInt32 (x : Z)
  | OpInt64 (x : Z)
  | OpVarUint (x : Z)
  | OpVarBytes (p : bytes)
  | OpString (p : bytes)
  | OpAddress (a : Address)
  | OpHash (h : Uint256).

Definition run_op (o : sink_op) : M ZeroCopySink unit :=
  match o with
  | OpBytes p => WriteBytes p
  | OpUint8 x => WriteUint8 x
  | OpByte b => WriteByte b
  | OpBool b => WriteBool b
  | OpUint16 x => WriteUint16 x
  | OpUint32 x => WriteUint32 x
  | OpUint64 x => WriteUint64 x
  | OpInt16 x => WriteInt16 x
  | OpInt32 x => WriteInt32 x
  | OpInt64 x => WriteInt64 x
  | OpVarUint x => WriteVarUint x ;; mret tt
  | OpVarBytes p => WriteVarBytes p ;; mret tt
  | OpString p => WriteString p ;; mret tt
  | OpAddress a => WriteAddress a
  | OpHash h => WriteHash h
  end.

Fixpoint run_ops (os : list sink_op) : M ZeroCopySink unit :=
  match os with
  | [] => mret tt
  | o :: os' => run_op o ;; run_ops os'
  end.

(** ** The wire format *)

Definition enc_varuint (x : Z) : bytes :=
  if decide (x < 0xFD) then [byte_of_Z x]
  else if decide (x ≤ 0xFFFF) then byte_of_Z 0xFD :: le_put 2 x
  else if decide (x ≤ 0xFFFFFFFF) then byte_of_Z 0xFE :: le_put 4 x
  else byte_of_Z 0xFF :: le_put 8 x.

Definition enc_op (o : sink_op) : bytes :=
  match o with
  | OpBytes p => p
  | OpUint8 x => [byte_of_Z x]
  | OpByte b => [b]
  | OpBool b => [byte_of_Z (if b then 1 else 0)]
  | OpUint16 x | OpInt16 x => le_put 2 x
  | OpUint32 x | OpInt32 x => le_put 4 x
  | OpUint64 x | OpInt64 x => le_put 8 x
  | OpVarUint x => enc_varuint x
  | OpVarBytes p | OpString p => enc_varuint (blen p) ++ p
  | OpAddress a => to_slice a
  | OpHash h => to_slice h
  end.

Definition enc_ops (os : list sink_op) : bytes := mjoin (enc_op <$> os).

(** ** Refinement: every write appends its wire format

    [2^59] bytes of output keep the doubling of [grow] below [maxInt], so the
    [ErrTooLarge] panic is out of reach; [sink_ok] carries the capacity bound. *)

Definition max_sink : Z := 2 ^ 59.

Definition sink_ok (s : ZeroCopySink) : Prop := sink_wf s ∧ sink_cap s ≤ 2 ^ 61.

Definition appends {A} (m : M ZeroCopySink A) (a : A) (bs : bytes) : Prop :=
  ∀ s, sink_ok s → sink_len s + blen bs ≤ max_sink →
    ∃ s', m s = (Ok a, s') ∧ Bytes s' = Bytes s ++ bs ∧ sink_ok s'.

Lemma length_Bytes s : sink_wf s → blen (Bytes s) = sink_len s.
Proof.
  unfold sink_wf, sink_cap, Bytes. intros. rewrite length_take. lia.
Qed.

Lemma reslice_ok n s : 0 ≤ n ≤ sink_cap s → reslice n s = (Ok tt, mkSink (sink_data s) n).
Proof. intros. unfold reslice. by rewrite decide_True. Qed.

(** Reserving [n] bytes keeps the written prefix. *)
Definition reserved (n : Z) (s s' : ZeroCopySink) : Prop :=
  sink_len s' = sink_len s + n ∧ sink_ok s' ∧
  take (Z.to_nat (sink_len s)) (sink_data s') = Bytes s.

Lemma tryGrow_fits n s :
  sink_ok s → 0 ≤ n → sink_len s + n ≤ sink_cap s →
  ∃ s', tryGrowByReslice n s = (Ok (sink_len s, true), s') ∧ reserved n s s'.
Proof.
  intros [Hwf Hcap] Hn Hfit. unfold tryGrowByReslice.
  rewrite (bind_ok _ _ _ s s) by done. rewrite decide_True by lia.
  unfold sink_wf in Hwf. erewrite bind_ok by (apply reslice_ok; lia).
  eexists. split; [done|]. unfold reserved, sink_ok, sink_wf in *. simpl.
  unfold sink_cap in *; simpl. split_and!; try lia. done.
Qed.

Lemma tryGrow_full n s :
  sink_cap s < sink_len s + n → tryGrowByReslice n s = (Ok (0, false), s).
Proof.
  intros. unfold tryGrowByReslice. rewrite (bind_ok _ _ _ s s) by done.
  by rewrite decide_False by lia.
Qed.

Lemma grow_full n s :
  sink_ok s → 0 ≤ n → sink_cap s < sink_len s + n → sink_len s + n ≤ max_sink + 9 →
  ∃ s', grow n s = (Ok (sink_len s), s') ∧ reserved n s s'.
Proof.
  intros [Hwf Hcap] Hn Hfull Hmax. unfold grow.
  pose proof (length_Bytes s Hwf) as HB. unfold sink_wf, max_sink in *.
  rewrite (bind_ok _ _ _ _ _ (tryGrow_full n s Hfull)).
  rewrite (bind_ok _ _ _ s s) by done. unfold maxInt. rewrite decide_False by lia.
  erewrite bind_ok by reflexivity.
  assert (blen (Bytes s ++ drop (length (Bytes s)) (makeSlice (2 * sink_cap s + n)))
          = 2 * sink_cap s + n) as HL.
  { unfold makeSlice. rewrite length_app, length_drop, length_replicate. lia. }
  erewrite bind_ok; [|apply reslice_ok; unfold sink_cap in *; simpl; lia].
  eexists. split; [done|]. unfold reserved, sink_ok, sink_wf, sink_cap in *. simpl in *.
  split_and!; try lia. rewrite take_app_le by lia. apply take_ge. lia.
Qed.

Lemma NextBytes_spec n s :
  sink_ok s → 0 ≤ n → sink_len s + n ≤ max_sink + 9 →
  ∃ s', NextBytes n s = (Ok (sink_len s), s') ∧ reserved n s s'.
Proof.
  intros Hok Hn Hmax. unfold NextBytes.
  assert (0 ≤ sink_len s) by (destruct Hok; unfold sink_wf in *; lia).
  rewrite swrap_small by (unfold max_sink in *; lia).
  destruct (decide (sink_len s + n ≤ sink_cap s)) as [Hfit|Hfull].
  - destruct (tryGrow_fits n s) as (s' & E & Hr); [done..|].
    rewrite (bind_ok _ _ _ _ _ E). eauto.
  - apply Z.nle_gt in Hfull. rewrite (bind_ok _ _ _ _ _ (tryGrow_full n s Hfull)). apply grow_full; auto; lia.
Qed.

(** A store of [p] at [m] fixes the first [m + len p] bytes. *)
Lemma put_at_spec m p s :
  sink_ok s → 0 ≤ m → m + blen p ≤ sink_len s →
  ∃ s', put_at m p s = (Ok tt, s') ∧ copy_at m p s = (Ok tt, s') ∧
    sink_len s' = sink_len s ∧ sink_ok s' ∧
    take (Z.to_nat (m + blen p)) (sink_data s') = take (Z.to_nat m) (sink_data s) ++ p.
Proof.
  intros [Hwf Hcap] Hm Hfit. unfold put_at.
  rewrite (bind_ok _ _ _ s s) by done. rewrite decide_True by lia.
  unfold copy_at. rewrite decide_True by lia. rewrite (take_ge p) by lia.
  eexists. split_and!; [done|done|done| |].
  - unfold sink_ok, sink_wf, sink_cap in *; simpl.
    rewrite !length_app, length_take, length_drop. lia.
  - simpl. unfold sink_wf, sink_cap in *. rewrite app_assoc, take_app_le.
    + apply take_ge. rewrite length_app, length_take. lia.
    + rewrite length_app, length_take. lia.
Qed.

Lemma appends_fixed n (m : Z → M ZeroCopySink unit) p :
  blen p = n → (∀ i, m i = put_at i p ∨ m i = copy_at i p) →
  appends (i ← NextBytes n; m i) tt p.
Proof.
  intros Hn Hm s Hok Hmax.
  assert (0 ≤ sink_len s) by (destruct Hok; unfold sink_wf in *; lia).
  destruct (NextBytes_spec n s) as (s1 & E1 & HL & Hok1 & Ht); [done|lia|lia|].
  destruct (put_at_spec (sink_len s) p s1) as (s2 & E2 & E2' & HL2 & Hok2 & Ht2); [done|lia|lia|].
  exists s2. rewrite (bind_ok _ _ _ _ _ E1). split_and!; [|unfold Bytes at 1|done].
  - destruct (Hm (sink_len s)) as [-> | ->]; done.
  - rewrite HL2, HL. rewrite <- Hn, Ht2, Ht. done.
Qed.

Lemma appends_bind {A B} (m : M ZeroCopySink A) (k : A → M ZeroCopySink B) a b bs1 bs2 :
  appends m a bs1 → appends (k a) b bs2 → appends (m ≫= k) b (bs1 ++ bs2).
Proof.
  intros Hm Hk s Hok Hmax. rewrite length_app in Hmax.
  destruct (Hm s) as (s1 & E1 & HB1 & Hok1); [done|lia|].
  assert (sink_len s1 = sink_len s + blen bs1) as HL.
  { rewrite <- !length_Bytes by (apply Hok1 || apply Hok). rewrite HB1, length_app. lia. }
  destruct (Hk s1) as (s2 & E2 & HB2 & Hok2); [done|lia|].
  exists s2. rewrite (bind_ok _ _ _ _ _ E1). split_and!; [done| |done].
  by rewrite HB2, HB1, app_assoc.
Qed.

Lemma appends_ret {A} (a : A) : appends (mret a) a [].
Proof. intros s Hok _. exists s. rewrite app_nil_r. done. Qed.

Lemma le_put_uwrap n x : le_put n (uwrap (8 * Z.of_nat n) x) = le_put n x.
Proof.
  pose proof (le_put_get (le_put n x)) as H.
  rewrite length_le_put, le_get_put in H. exact H.
Qed.

Definition varuint_size (x : Z) : Z :=
  if decide (x < 0xFD) then 1 else if decide (x ≤ 0xFFFF) then 3
  else if decide (x ≤ 0xFFFFFFFF) then 5 else 9.

Lemma length_enc_varuint x : blen (enc_varuint x) = varuint_size x.
Proof.
  unfold enc_varuint, varuint_size. repeat case_decide; simpl; rewrite ?length_le_put; lia.
Qed.

(** Storing the pieces of an encoding one after the other and backing up. *)
Lemma put_two m p1 p2 s :
  sink_ok s → 0 ≤ m → m + blen (p1 ++ p2) ≤ sink_len s → blen p1 = 1 →
  ∃ s', (put_at m p1 ;; put_at (m + 1) p2) s = (Ok tt, s') ∧
    sink_len s' = sink_len s ∧ sink_ok s' ∧
    take (Z.to_nat (m + blen (p1 ++ p2))) (sink_data s') =
      take (Z.to_nat m) (sink_data s) ++ p1 ++ p2.
Proof.
  intros Hok Hm Hfit H1. rewrite length_app in *.
  destruct (put_at_spec m p1 s) as (s1 & E1 & _ & HL1 & Hok1 & Ht1); [done|lia|lia|].
  destruct (put_at_spec (m + 1) p2 s1) as (s2 & E2 & _ & HL2 & Hok2 & Ht2); [done|lia|lia|].
  exists s2. rewrite (bind_ok _ _ _ _ _ E1), E2.
  split_and!; [done|congruence|done|].
  replace (m + Z.of_nat (length p1 + length p2)) with (m + 1 + blen p2) by lia.
  rewrite Ht2. replace (m + 1) with (m + blen p1) by lia. by rewrite Ht1, app_assoc.
Qed.

(** The common end of [WriteVarUint]: the nine reserved bytes are cut back to
    the ones that were written. *)
Lemma appends_reserve9 (body : Z → M ZeroCopySink Z) p :
  1 ≤ blen p ≤ 9 →
  (∀ i s, sink_ok s → 0 ≤ i → i + blen p ≤ sink_len s →
     ∃ s', body i s = (Ok (blen p), s') ∧ sink_len s' = sink_len s ∧ sink_ok s' ∧
       take (Z.to_nat (i + blen p)) (sink_data s') = take (Z.to_nat i) (sink_data s) ++ p) →
  appends (m ← NextBytes 9; size ← body m; sink_BackUp (9 - size) ;; mret size) (blen p) p.
Proof.
  intros Hp Hbody s Hok Hmax.
  assert (0 ≤ sink_len s) by (destruct Hok; unfold sink_wf in *; lia).
  destruct (NextBytes_spec 9 s) as (s1 & E1 & HL1 & Hok1 & Ht1); [done|lia|lia|].
  destruct (Hbody (sink_len s) s1) as (s2 & E2 & HL2 & Hok2 & Ht2); [done|lia|lia|].
  assert (0 ≤ sink_len s + blen p ≤ sink_cap s2) as Hr.
  { destruct Hok2 as [Hwf2 _]. unfold sink_wf in Hwf2. lia. }
  exists (mkSink (sink_data s2) (sink_len s + blen p)).
  rewrite (bind_ok _ _ _ _ _ E1), (bind_ok _ _ _ _ _ E2). split_and!.
  - unfold sink_BackUp. erewrite bind_ok; [done|]. erewrite bind_ok by done.
    rewrite swrap_small by lia. rewrite HL2, HL1.
    replace (sink_len s + 9 - (9 - blen p)) with (sink_len s + blen p) by lia.
    by apply reslice_ok.
  - unfold Bytes at 1. simpl. by rewrite Ht2, Ht1.
  - destruct Hok2 as [Hwf2 Hcap2]. done.
Qed.

Lemma appends_WriteVarUint x :
  appends (WriteVarUint x) (varuint_size x) (enc_varuint x).
Proof.
  rewrite <- length_enc_varuint. apply appends_reserve9.
  - rewrite length_enc_varuint. unfold varuint_size. repeat case_decide; lia.
  - intros i s Hok Hi Hfit. unfold enc_varuint in *. repeat case_decide.
    + destruct (put_at_spec i [byte_of_Z x] s) as (s' & E & _ & ?); [done|lia|simpl in *; lia|].
      exists s'. by rewrite (bind_ok _ _ _ _ _ E).
    + destruct (put_two i [byte_of_Z 0xFD] (le_put 2 x) s) as (s' & E & ?); [done..|].
      exists s'. rewrite (le_put_uwrap 2). apply bind_inv_ok in E as ([] & s1 & E1 & E2).
      by rewrite (bind_ok _ _ _ _ _ E1), (bind_ok _ _ _ _ _ E2).
    + destruct (put_two i [byte_of_Z 0xFE] (le_put 4 x) s) as (s' & E & ?); [done..|].
      exists s'. rewrite (le_put_uwrap 4). apply bind_inv_ok in E as ([] & s1 & E1 & E2).
      by rewrite (bind_ok _ _ _ _ _ E1), (bind_ok _ _ _ _ _ E2).
    + destruct (put_two i [byte_of_Z 0xFF] (le_put 8 x) s) as (s' & E & ?); [done..|].
      exists s'. apply bind_inv_ok in E as ([] & s1 & E1 & E2).
      by rewrite (bind_ok _ _ _ _ _ E1), (bind_ok _ _ _ _ _ E2).
Qed.

Lemma appends_WriteBytes p : appends (WriteBytes p) tt p.
Proof. apply appends_fixed; auto. Qed.

Lemma appends_WriteVarBytes p :
  appends (WriteVarBytes p) (u64 (varuint_size (blen p) + blen p)) (enc_varuint (blen p) ++ p).
Proof.
  unfold WriteVarBytes. eapply appends_bind; [apply appends_WriteVarUint|].
  rewrite <- (app_nil_r p) at 4. eapply appends_bind; [apply appends_WriteBytes|].
  apply appends_ret.
Qed.

Lemma appends_drop {A} (m : M ZeroCopySink A) a bs : appends m a bs → appends (m ;; mret tt) tt bs.
Proof.
  intros H. rewrite <- (app_nil_r bs). eapply appends_bind; [done|]. apply appends_ret.
Qed.

Lemma appends_WriteUint8 x : appends (WriteUint8 x) tt [byte_of_Z x].
Proof. by apply appends_fixed; [|auto]. Qed.

Lemma appends_WriteByte b : appends (WriteByte b) tt [b].
Proof. unfold WriteByte. rewrite <- (byte_of_to_Z b) at 2. apply appends_WriteUint8. Qed.

Lemma appends_le n x :
  appends (m ← NextBytes (Z.of_nat n); put_at m (le_put n x)) tt (le_put n x).
Proof. apply appends_fixed; [by rewrite length_le_put|auto]. Qed.

Lemma appends_le_signed n x :
  appends (m ← NextBytes (Z.of_nat n); put_at m (le_put n (uwrap (8 * Z.of_nat n) x))) tt (le_put n x).
Proof. rewrite <- (le_put_uwrap n x). apply appends_le. Qed.

Create HintDb sink.
#[export] Hint Resolve appends_ret appends_WriteBytes appends_WriteVarUint
  appends_WriteVarBytes appends_drop appends_WriteUint8 appends_WriteByte : sink.

Lemma appends_op o : appends (run_op o) tt (enc_op o).
Proof.
  destruct o; simpl; unfold WriteString, WriteAddress, WriteHash; eauto with sink.
  - destruct b; apply appends_WriteByte.
  - exact (appends_le 2 x).
  - exact (appends_le 4 x).
  - exact (appends_le 8 x).
  - exact (appends_le_signed 2 x).
  - exact (appends_le_signed 4 x).
  - exact (appends_le_signed 8 x).
Qed.

Lemma appends_ops os : appends (run_ops os) tt (enc_ops os).
Proof.
  induction os as [|o os IH]; simpl; [apply appends_ret|].
  apply appends_bind with tt; [apply appends_op|done].
Qed.

Lemma sink_ok_new : sink_ok NewZeroCopySink.
Proof. unfold sink_ok, sink_wf, sink_cap. simpl. lia. Qed.

Lemma enc_ops_app os1 os2 : enc_ops (os1 ++ os2) = enc_ops os1 ++ enc_ops os2.
Proof. unfold enc_ops. by rewrite fmap_app, join_app. Qed.

Lemma enc_ops_cons o os : enc_ops (o :: os) = enc_op o ++ enc_ops os.
Proof. done. Qed.

Lemma enc_ops_nil : enc_ops [] = [].
Proof. done. Qed.

(** ** Properties *)

(** Any sequence of writes into a new
    sink whose output fits 2^59 bytes succeeds, whatever reallocations it takes,
    and [Bytes] is then the concatenation of the wire formats, in order. *)
Lemma run_ops_Bytes (os : list sink_op) :
  blen (enc_ops os) ≤ max_sink →
  ∃ s, run_ops os NewZeroCopySink = (Ok tt, s) ∧ Bytes s = enc_ops os ∧
    sink_Size s = (Ok (blen (enc_ops os)), s).
Proof.
  intros Hlen. destruct (appends_ops os NewZeroCopySink) as (s & E & HB & [Hwf _]);
    [apply sink_ok_new|done|].
  exists s. split_and!; [done|by rewrite HB|].
  unfold sink_Size. by rewrite <- (length_Bytes s Hwf), HB.
Qed.
