(* ===== verification/Source.v ===== *)
(** * ZeroCopySource: the read cursor (common/zero_copy_source.go, common/safeMath.go)

    The source is the byte slice and the [uint64] offset.  Reads are in the
    monad [M ZeroCopySource] and return the value with the [eof] flag of the
    code.  [decodes m bs a] says that [m], run where [bs] starts, returns [a] and
    stops where [bs] ends; it composes along [bind], and the reads are related to
    the writes of [Sink] through it. *)

From S2P Require Import Prelude Sha256 Sink.

(** ** SafeMath *)

Definition SafeSub (x y : Z) : Z * bool := (u64 (x - y), bool_decide (x < y)).
Definition SafeAdd (x y : Z) : Z * bool := (u64 (x + y), bool_decide (MAX_UINT64 - x < y)).
Definition SafeMul (x y : Z) : Z * bool :=
  if decide (x = 0 ∨ y = 0) then (0, false)
  else (u64 (x * y), bool_decide (MAX_UINT64 / x < y)).

(** ** The source *)

Record ZeroCopySource := mkSource {
  src_s : bytes;
  src_off : Z;
}.

Definition NewZeroCopySource (b : bytes) : ZeroCopySource := mkSource b 0.

Definition src_wf (s : ZeroCopySource) : Prop :=
  0 ≤ src_off s ≤ blen (src_s s) ∧ blen (src_s s) < 2 ^ 63.

Definition src_Len : M ZeroCopySource Z :=
  s ← get_state;
  let length := blen (src_s s) in
  if decide (length ≤ src_off s) then mret 0 else mret (length - src_off s).

Definition src_Pos : M ZeroCopySource Z := s ← get_state; mret (src_off s).
Definition src_Size : M ZeroCopySource Z := s ← get_state; mret (blen (src_s s)).

Definition src_OffBytes : M ZeroCopySource bytes :=
  s ← get_state;
  match go_slice (src_s s) (src_off s) (blen (src_s s)) with
  | Some l => mret l
  | None => panic
  end.

Definition src_NextBytes (n : Z) : M ZeroCopySource (bytes * bool) :=
  s ← get_state;
  let m := blen (src_s s) in
  let '(end0, overflow) := SafeAdd (src_off s) n in
  let eof := overflow || bool_decide (m < end0) in
  let end_ := if eof then m else end0 in
  match go_slice (src_s s) (src_off s) end_ with
  | Some data => put_state (mkSource (src_s s) end_) ;; mret (data, eof)
  | None => panic
  end.

Definition src_Skip (n : Z) : M ZeroCopySource bool :=
  s ← get_state;
  let m := blen (src_s s) in
  let '(end0, overflow) := SafeAdd (src_off s) n in
  let eof := overflow || bool_decide (m < end0) in
  put_state (mkSource (src_s s) (if eof then m else end0)) ;;
  mret eof.

Definition NextByte : M ZeroCopySource (byte * bool) :=
  s ← get_state;
  if decide (blen (src_s s) ≤ src_off s) then mret (Byte.x00, true) else
  match src_s s !! Z.to_nat (src_off s) with
  | Some b => put_state (mkSource (src_s s) (u64 (src_off s + 1))) ;; mret (b, false)
  | None => panic
  end.

Definition NextUint8 : M ZeroCopySource (Z * bool) :=
  '(val, eof) ← NextByte; mret (byte_to_Z val, eof).

Definition NextBool : M ZeroCopySource (bool * bool) :=
  '(val, eof) ← NextByte;
  if decide (val = byte_of_Z 0) then mret (false, eof)
  else if decide (val = byte_of_Z 1) then mret (true, eof)
  else mret (false, true).

Definition src_BackUp (n : Z) : M ZeroCopySource unit :=
  s ← get_state; put_state (mkSource (src_s s) (u64 (src_off s - n))).

Definition NextUint16 : M ZeroCopySource (Z * bool) :=
  '(buf, eof) ← src_NextBytes 2;
  if (eof : bool) then mret (0, true) else mret (le_get buf, eof).

Definition NextUint32 : M ZeroCopySource (Z * bool) :=
  '(buf, eof) ← src_NextBytes 4;
  if (eof : bool) then mret (0, true) else mret (le_get buf, eof).

Definition NextUint64 : M ZeroCopySource (Z * bool) :=
  '(buf, eof) ← src_NextBytes 8;
  if (eof : bool) then mret (0, true) else mret (le_get buf, eof).

Definition NextInt32 : M ZeroCopySource (Z * bool) :=
  '(val, eof) ← NextUint32; mret (swrap 32 val, eof).

Definition NextInt64 : M ZeroCopySource (Z * bool) :=
  '(val, eof) ← NextUint64; mret (swrap 64 val, eof).

Definition NextInt16 : M ZeroCopySource (Z * bool) :=
  '(val, eof) ← NextUint16; mret (swrap 16 val, eof).

Definition NextVarUint : M ZeroCopySource (Z * bool) :=
  '(fb, eof) ← NextByte;
  if (eof : bool) then mret (0, true) else
  if decide (fb = byte_of_Z 0xFD) then
    '(val, e) ← NextUint16; if (e : bool) then mret (0, true) else mret (val, false)
  else if decide (fb = byte_of_Z 0xFE) then
    '(val, e) ← NextUint32; if (e : bool) then mret (0, true) else mret (val, false)
  else if decide (fb = byte_of_Z 0xFF) then
    '(val, e) ← NextUint64; if (e : bool) then mret (0, true) else mret (val, false)
  else mret (byte_to_Z fb, false).

Definition NextVarBytes : M ZeroCopySource (bytes * bool) :=
  '(count, eof) ← NextVarUint;
  if (eof : bool) then mret ([], true) else src_NextBytes count.

Definition NextAddress : M ZeroCopySource (Address * bool) :=
  '(buf, eof) ← src_NextBytes ADDR_LEN;
  if (eof : bool) then mret (ADDRESS_EMPTY, true) else mret (copy_array 20 buf, eof).

Definition NextHash : M ZeroCopySource (Uint256 * bool) :=
  '(buf, eof) ← src_NextBytes UINT256_SIZE;
  if (eof : bool) then mret (EMPTY_HASH, true) else mret (copy_array 32 buf, eof).

Definition NextString : M ZeroCopySource (bytes * bool) :=
  '(val, eof) ← NextVarBytes; mret (val, eof).

(** ** Reading what was written *)

Definition decodes {A} (m : M ZeroCopySource A) (bs : bytes) (a : A) : Prop :=
  ∀ pre post, blen (pre ++ bs ++ post) < 2 ^ 63 →
    m (mkSource (pre ++ bs ++ post) (blen pre)) =
    (Ok a, mkSource (pre ++ bs ++ post) (blen (pre ++ bs))).

Lemma decodes_ret {A} (a : A) : decodes (mret a) [] a.
Proof. intros pre post _. by rewrite app_nil_r. Qed.

Lemma decodes_bind {A B} (m : M ZeroCopySource A) (k : A → M ZeroCopySource B) bs1 bs2 a b :
  decodes m bs1 a → decodes (k a) bs2 b → decodes (m ≫= k) (bs1 ++ bs2) b.
Proof.
  intros Hm Hk pre post Hlen. rewrite <- (app_assoc bs1) in *.
  rewrite (bind_ok _ _ _ _ _ (Hm pre (bs2 ++ post) Hlen)).
  specialize (Hk (pre ++ bs1) post). rewrite <- !(app_assoc pre) in Hk. by apply Hk.
Qed.

Lemma decodes_map {A B} (m : M ZeroCopySource A) (k : A → M ZeroCopySource B) bs a b :
  decodes m bs a → k a = mret b → decodes (m ≫= k) bs b.
Proof.
  intros Hm Hk. rewrite <- (app_nil_r bs). eapply decodes_bind; [done|].
  rewrite Hk. apply decodes_ret.
Qed.

Lemma decodes_must {A} msg (m : M ZeroCopySource (A * bool)) bs a :
  decodes m bs (a, false) → decodes (must msg m) bs a.
Proof. intros H. by eapply decodes_map. Qed.

Lemma decodes_must_bind {A B} msg (m : M ZeroCopySource (A * bool)) (k : A → M ZeroCopySource B)
    bs1 bs2 a b :
  decodes m bs1 (a, false) → decodes (k a) bs2 b → decodes (must msg m ≫= k) (bs1 ++ bs2) b.
Proof. intros. eapply decodes_bind; [by apply decodes_must|done]. Qed.

Lemma decodes_NextBytes p n : n = blen p → decodes (src_NextBytes n) p (p, false).
Proof.
  intros -> pre post Hlen. unfold src_NextBytes. erewrite bind_ok by done. simpl.
  rewrite !length_app in Hlen.
  rewrite uwrap_small by (unfold in_range; lia).
  rewrite bool_decide_false by (unfold MAX_UINT64; lia).
  rewrite bool_decide_false by (rewrite !length_app; lia). simpl.
  replace (blen pre + blen p) with (blen (pre ++ p)) by (rewrite length_app; lia).
  by rewrite go_slice_app.
Qed.

Lemma decodes_NextByte b : decodes NextByte [b] (b, false).
Proof.
  intros pre post Hlen. unfold NextByte. erewrite bind_ok by done. simpl in *.
  rewrite !length_app in *. simpl in *. rewrite decide_False by lia.
  rewrite Nat2Z.id, list_lookup_middle by done.
  rewrite uwrap_small by (unfold in_range; lia). erewrite bind_ok by done.
  unfold mret, M_ret. do 2 f_equal. lia.
Qed.

Lemma decodes_NextBool (b : bool) : decodes NextBool [byte_of_Z (if b then 1 else 0)] (b, false).
Proof. eapply decodes_map; [apply decodes_NextByte|]. by destruct b. Qed.

Lemma decodes_NextUint8 x : is_u8 x → decodes NextUint8 [byte_of_Z x] (x, false).
Proof.
  intros Hx. eapply decodes_map; [apply decodes_NextByte|]. cbn.
  rewrite byte_to_of_Z. by rewrite Z.mod_small.
Qed.

Lemma decodes_le {A} (n : nat) x (f : Z → A) (k : bytes * bool → M ZeroCopySource (A * bool)) :
  in_range (8 * Z.of_nat n) x →
  (∀ buf, k (buf, false) = mret (f (le_get buf), false)) →
  decodes (src_NextBytes (Z.of_nat n) ≫= k) (le_put n x) (f x, false).
Proof.
  intros Hx Hk. eapply decodes_map; [apply decodes_NextBytes; by rewrite length_le_put|].
  rewrite Hk. by rewrite le_get_put_small.
Qed.

Lemma decodes_NextUint16 x : is_u16 x → decodes NextUint16 (le_put 2 x) (x, false).
Proof. intros. by apply (decodes_le 2 x id). Qed.
Lemma decodes_NextUint32 x : is_u32 x → decodes NextUint32 (le_put 4 x) (x, false).
Proof. intros. by apply (decodes_le 4 x id). Qed.
Lemma decodes_NextUint64 x : is_u64 x → decodes NextUint64 (le_put 8 x) (x, false).
Proof. intros. by apply (decodes_le 8 x id). Qed.

Lemma decodes_signed w m bs x :
  0 < w → - 2 ^ (w - 1) ≤ x < 2 ^ (w - 1) → decodes m bs (uwrap w x, false) →
  decodes ('(val, eof) ← m; mret (swrap w val, eof)) bs (x, false).
Proof. intros Hw Hx Hm. eapply decodes_map; [done|]. cbn. by rewrite swrap_uwrap. Qed.

Lemma decodes_NextInt16 x : - 2 ^ 15 ≤ x < 2 ^ 15 → decodes NextInt16 (le_put 2 x) (x, false).
Proof.
  intros. apply decodes_signed; [lia..|]. rewrite <- (le_put_uwrap 2).
  apply decodes_NextUint16, uwrap_range. lia.
Qed.
Lemma decodes_NextInt32 x : - 2 ^ 31 ≤ x < 2 ^ 31 → decodes NextInt32 (le_put 4 x) (x, false).
Proof.
  intros. apply decodes_signed; [lia..|]. rewrite <- (le_put_uwrap 4).
  apply decodes_NextUint32, uwrap_range. lia.
Qed.
Lemma decodes_NextInt64 x : - 2 ^ 63 ≤ x < 2 ^ 63 → decodes NextInt64 (le_put 8 x) (x, false).
Proof.
  intros. apply decodes_signed; [lia..|]. rewrite <- (le_put_uwrap 8).
  apply decodes_NextUint64, uwrap_range. lia.
Qed.

Lemma byte_of_Z_inj x y : is_u8 x → is_u8 y → byte_of_Z x = byte_of_Z y → x = y.
Proof.
  intros Hx Hy E%(f_equal byte_to_Z). rewrite !byte_to_of_Z in E.
  by rewrite !Z.mod_small in E.
Qed.

Lemma decodes_NextVarUint x : is_u64 x → decodes NextVarUint (enc_varuint x) (x, false).
Proof.
  intros Hx. unfold NextVarUint, enc_varuint, in_range in *. repeat case_decide.
  - eapply decodes_map; [apply decodes_NextByte|]. cbn.
    assert (∀ c, 0xFD ≤ c < 256 → byte_of_Z x ≠ byte_of_Z c) as Hne.
    { intros c Hc E%byte_of_Z_inj; unfold in_range; lia. }
    rewrite !decide_False by (apply Hne; lia).
    by rewrite byte_to_of_Z, Z.mod_small by lia.
  - apply (decodes_bind _ _ [_] _ _ _ (decodes_NextByte _)). cbn.
    eapply decodes_map; [apply decodes_NextUint16; unfold in_range; lia|done].
  - apply (decodes_bind _ _ [_] _ _ _ (decodes_NextByte _)). cbn.
    eapply decodes_map; [apply decodes_NextUint32; unfold in_range; lia|done].
  - apply (decodes_bind _ _ [_] _ _ _ (decodes_NextByte _)). cbn.
    eapply decodes_map; [apply decodes_NextUint64; unfold in_range; lia|done].
Qed.

Definition short (p : bytes) : Prop := blen p < 2 ^ 63.

Lemma decodes_NextVarBytes p : decodes NextVarBytes (enc_varuint (blen p) ++ p) (p, false).
Proof.
  intros pre post Hlen. revert pre post Hlen.
  enough (blen p < 2 ^ 63 → decodes NextVarBytes (enc_varuint (blen p) ++ p) (p, false)) as H.
  { intros pre post Hlen. apply H; [|done]. rewrite !length_app in Hlen. lia. }
  intros Hp. eapply decodes_bind; [apply decodes_NextVarUint; unfold in_range; lia|].
  cbn. by apply decodes_NextBytes.
Qed.

Lemma decodes_NextString p : decodes NextString (enc_varuint (blen p) ++ p) (p, false).
Proof. eapply decodes_map; [apply decodes_NextVarBytes|done]. Qed.

Lemma decodes_NextAddress a : decodes NextAddress (to_slice a) (a, false).
Proof.
  eapply decodes_map; [apply decodes_NextBytes; by rewrite length_to_slice|]. cbn.
  by rewrite copy_to_slice.
Qed.

Lemma decodes_NextHash h : decodes NextHash (to_slice h) (h, false).
Proof.
  eapply decodes_map; [apply decodes_NextBytes; by rewrite length_to_slice|]. cbn.
  by rewrite copy_to_slice.
Qed.

(** ** Totality on arbitrary input

    [safe m]: from any well-formed source [m] returns a value or an error, never
    panics, leaves the bytes alone and moves the cursor forward inside them.
    [progress m]: a successful run consumes at least one byte. *)

Definition safe {A} (m : M ZeroCopySource A) : Prop :=
  ∀ s, src_wf s → ∃ r s', m s = (r, s') ∧ r ≠ Panic ∧
    src_s s' = src_s s ∧ src_wf s' ∧ src_off s ≤ src_off s'.

Definition progress {A} (m : M ZeroCopySource A) : Prop :=
  ∀ s a s', src_wf s → m s = (Ok a, s') → src_off s < src_off s'.

Definition progress_eof {A} (m : M ZeroCopySource (A * bool)) : Prop :=
  ∀ s a s', src_wf s → m s = (Ok (a, false), s') → src_off s < src_off s'.

Lemma safe_ret {A} (a : A) : safe (mret a).
Proof. intros s Hs. do 2 eexists. split_and!; try done. Qed.

Lemma safe_fail {A} e : safe (fail (A:=A) e).
Proof. intros s Hs. do 2 eexists. split_and!; try done. Qed.

Lemma safe_at {A} (m : M ZeroCopySource A) s r s' :
  safe m → src_wf s → m s = (r, s') →
  r ≠ Panic ∧ src_s s' = src_s s ∧ src_wf s' ∧ src_off s ≤ src_off s'.
Proof. intros Hm Hs E. destruct (Hm s Hs) as (? & ? & E' & ?). rewrite E in E'. by injection E' as -> ->. Qed.

Lemma safe_bind {A B} (m : M ZeroCopySource A) (k : A → M ZeroCopySource B) :
  safe m → (∀ a, safe (k a)) → safe (m ≫= k).
Proof.
  intros Hm Hk s Hs. destruct (Hm s Hs) as (r & s1 & E & Hr & Es & Hs1 & Hle).
  unfold mbind, M_bind. rewrite E. destruct r as [a|e|]; [|by eauto 10|done].
  destruct (Hk a s1 Hs1) as (r2 & s2 & E2 & Hr2 & Es2 & Hs2 & Hle2).
  do 2 eexists. split_and!; [done|done|congruence|done|lia].
Qed.

Lemma safe_if {A} (b : bool) (m1 m2 : M ZeroCopySource A) : safe m1 → safe m2 → safe (if b then m1 else m2).
Proof. by destruct b. Qed.

Lemma safe_decide {A} P `{Decision P} (m1 m2 : M ZeroCopySource A) :
  safe m1 → safe m2 → safe (if decide P then m1 else m2).
Proof. by case_decide. Qed.

Lemma safe_must {A} msg (m : M ZeroCopySource (A * bool)) : safe m → safe (must msg m).
Proof. intros. apply safe_bind; [done|]. intros [x []]; [apply safe_fail|apply safe_ret]. Qed.

Lemma progress_must {A} msg (m : M ZeroCopySource (A * bool)) : progress_eof m → progress (must msg m).
Proof.
  intros Hm s a s' Hs ([x [|]] & s1 & E1 & E2)%bind_inv_ok; [done|].
  injection E2 as -> ->. eauto.
Qed.

Lemma progress_bind {A B} (m : M ZeroCopySource A) (k : A → M ZeroCopySource B) :
  safe m → progress m → (∀ a, safe (k a)) → progress (m ≫= k).
Proof.
  intros Hm Hp Hk s b s' Hs (a & s1 & E1 & E2)%bind_inv_ok.
  pose proof (Hp _ _ _ Hs E1). apply safe_at in E1 as (_ & _ & Hs1 & _); [|done..].
  apply safe_at in E2 as (_ & _ & _ & Hle); [|done..]. lia.
Qed.

Lemma progress_eof_bind {A B} (m : M ZeroCopySource (A * bool)) (k : A * bool → M ZeroCopySource (B * bool)) :
  safe m → progress_eof m → (∀ a, safe (k a)) →
  (∀ x s b s', k (x, true) s = (Ok b, s') → b.2 = true) → progress_eof (m ≫= k).
Proof.
  intros Hm Hp Hk Heof s b s' Hs ([a eof] & s1 & E1 & E2)%bind_inv_ok.
  destruct eof; [by apply Heof in E2|].
  pose proof (Hp _ _ _ Hs E1). apply safe_at in E1 as (_ & _ & Hs1 & _); [|done..].
  apply safe_at in E2 as (_ & _ & _ & Hle); [|done..]. lia.
Qed.

Lemma NextBytes_cases n s :
  src_wf s → is_u64 n →
  ∃ data end_, src_off s ≤ end_ ≤ blen (src_s s) ∧
    src_NextBytes n s =
      (Ok (data, bool_decide (blen (src_s s) < src_off s + n)), mkSource (src_s s) end_) ∧
    (src_off s + n ≤ blen (src_s s) → end_ = src_off s + n ∧ blen data = n).
Proof.
  unfold in_range. intros [Hoff Hlen] Hn. unfold src_NextBytes. erewrite bind_ok by done.
  cbn [SafeAdd]. unfold SafeAdd, MAX_UINT64.
  destruct (decide (blen (src_s s) < src_off s + n)) as [Hbig|Hfit].
  - rewrite (bool_decide_true _ Hbig).
    assert (bool_decide (2 ^ 64 - 1 - src_off s < n)
            || bool_decide (blen (src_s s) < u64 (src_off s + n)) = true) as ->.
    { apply orb_true_intro. destruct (decide (2 ^ 64 - 1 - src_off s < n)).
      - left. by apply bool_decide_true.
      - right. apply bool_decide_true. rewrite uwrap_small; unfold in_range; lia. }
    unfold go_slice. rewrite decide_True by lia. do 2 eexists. split_and!; [..|done|]; lia.
  - rewrite (bool_decide_false _ Hfit), (bool_decide_false (2 ^ 64 - 1 - src_off s < n)) by lia.
    rewrite uwrap_small by (unfold in_range; lia). rewrite (bool_decide_false _ Hfit). simpl.
    unfold go_slice. rewrite decide_True by lia. do 2 eexists. split_and!; [..|done|]; try lia.
    intros _. split; [done|]. rewrite length_take, length_drop. lia.
Qed.

Lemma safe_NextBytes n : is_u64 n → safe (src_NextBytes n).
Proof.
  intros Hn s Hs. destruct (NextBytes_cases n s Hs Hn) as (d & e & He & E & _).
  do 2 eexists. split; [done|]. destruct Hs as [Hoff Hlen].
  split_and!; simpl; try done; unfold src_wf; simpl; lia.
Qed.

Lemma progress_NextBytes n : is_u64 n → 0 < n → progress_eof (src_NextBytes n).
Proof.
  intros Hn Hpos s a s' Hs E. destruct (NextBytes_cases n s Hs Hn) as (d & e & He & E' & Hend).
  rewrite E in E'.
  injection E' as -> Hb ->. symmetry in Hb. apply bool_decide_eq_false_1 in Hb. simpl. lia.
Qed.

Lemma NextByte_cases s :
  src_wf s →
  NextByte s = (Ok (Byte.x00, true), s) ∨
  ∃ b, NextByte s = (Ok (b, false), mkSource (src_s s) (src_off s + 1)) ∧ src_off s < blen (src_s s).
Proof.
  intros [Hoff Hlen]. unfold NextByte. erewrite bind_ok by done. case_decide; [by left|right].
  destruct (src_s s !! Z.to_nat (src_off s)) as [b|] eqn:E.
  - exists b. split; [|lia]. erewrite bind_ok by done.
    rewrite uwrap_small by (unfold in_range; lia). done.
  - apply lookup_ge_None in E. lia.
Qed.

Lemma safe_NextByte : safe NextByte.
Proof.
  intros s Hs. destruct (NextByte_cases s Hs) as [E | (b & E & Hlt)]; do 2 eexists; (split; [done|]);
    destruct Hs; split_and!; simpl; try done; unfold src_wf; simpl; lia.
Qed.

Lemma progress_NextByte : progress_eof NextByte.
Proof.
  intros s a s' Hs E. destruct (NextByte_cases s Hs) as [E' | (b & E' & Hlt)];
    rewrite E in E'; simplify_eq. simpl. lia.
Qed.

Create HintDb safe.
#[export] Hint Resolve safe_ret safe_fail safe_NextByte progress_NextByte : safe.

(** Splits a read into its primitive reads. *)
Ltac solve_safe :=
  repeat (first
    [ solve [auto with safe nocore]
    | apply safe_must
    | apply safe_bind; [|intros]
    | apply safe_if
    | apply safe_decide
    | case_match ]).

Lemma safe_NextUint16 : safe NextUint16.
Proof. apply safe_bind; [by apply safe_NextBytes|]. intros [? []]; auto with safe. Qed.
Lemma safe_NextUint32 : safe NextUint32.
Proof. apply safe_bind; [by apply safe_NextBytes|]. intros [? []]; auto with safe. Qed.
Lemma safe_NextUint64 : safe NextUint64.
Proof. apply safe_bind; [by apply safe_NextBytes|]. intros [? []]; auto with safe. Qed.
Lemma safe_NextAddress : safe NextAddress.
Proof. apply safe_bind; [by apply safe_NextBytes|]. intros [? []]; auto with safe. Qed.
Lemma safe_NextHash : safe NextHash.
Proof. apply safe_bind; [by apply safe_NextBytes|]. intros [? []]; auto with safe. Qed.
#[export] Hint Resolve safe_NextUint16 safe_NextUint32 safe_NextUint64 safe_NextAddress
  safe_NextHash : safe.

Lemma safe_NextUint8 : safe NextUint8.
Proof. unfold NextUint8. solve_safe. Qed.
Lemma safe_NextBool : safe NextBool.
Proof. unfold NextBool. solve_safe. Qed.
Lemma safe_NextInt32 : safe NextInt32.
Proof. unfold NextInt32. solve_safe. Qed.
Lemma safe_NextInt64 : safe NextInt64.
Proof. unfold NextInt64. solve_safe. Qed.
Lemma safe_NextVarUint : safe NextVarUint.
Proof. unfold NextVarUint. solve_safe. Qed.
#[export] Hint Resolve safe_NextUint8 safe_NextBool safe_NextInt32 safe_NextInt64 safe_NextVarUint : safe.

Lemma NextUint_range n (m : M ZeroCopySource (Z * bool)) s x e s' :
  m = ('(buf, eof) ← src_NextBytes (Z.of_nat n);
       if (eof : bool) then mret (0, true) else mret (le_get buf, eof)) →
  (n ≤ 8)%nat → src_wf s → m s = (Ok (x, e), s') → in_range (8 * Z.of_nat n) x.
Proof.
  intros -> Hn Hs ([buf eof] & s1 & E1 & E2)%bind_inv_ok.
  destruct eof; injection E2 as <- <- <-; [unfold in_range; lia|].
  destruct (NextBytes_cases (Z.of_nat n) s Hs) as (d & e & He & E & Hend); [unfold in_range; lia|].
  rewrite E1 in E. injection E as -> Hb ->. symmetry in Hb. apply bool_decide_eq_false_1 in Hb.
  destruct Hend as [_ <-]; [lia|]. apply le_get_range.
Qed.

Lemma in_range_le w1 w2 x : 0 ≤ w1 ≤ w2 → in_range w1 x → in_range w2 x.
Proof.
  unfold in_range. intros Hw Hx. split; [lia|]. eapply Z.lt_le_trans; [apply Hx|].
  apply Z.pow_le_mono_r; lia.
Qed.

Lemma NextVarUint_range s x s' :
  src_wf s → NextVarUint s = (Ok (x, false), s') → is_u64 x.
Proof.
  intros Hs ([fb eof] & s1 & E1 & E2)%bind_inv_ok.
  apply safe_at in E1 as (_ & _ & Hs1 & _); [|apply safe_NextByte|done].
  destruct eof; [done|]. repeat case_decide.
  - apply bind_inv_ok in E2 as ([v []] & s2 & E2 & E3); [done|]. injection E3 as <- _.
    apply (in_range_le 16); [lia|]. by apply (NextUint_range 2 NextUint16 s1 v false s2); [|lia|..].
  - apply bind_inv_ok in E2 as ([v []] & s2 & E2 & E3); [done|]. injection E3 as <- _.
    apply (in_range_le 32); [lia|]. by apply (NextUint_range 4 NextUint32 s1 v false s2); [|lia|..].
  - apply bind_inv_ok in E2 as ([v []] & s2 & E2 & E3); [done|]. injection E3 as <- _.
    by apply (NextUint_range 8 NextUint64 s1 v false s2); [|lia|..].
  - injection E2 as <- _. unfold in_range. pose proof (byte_to_Z_range fb). lia.
Qed.

Lemma safe_NextVarBytes : safe NextVarBytes.
Proof.
  intros s Hs. destruct (safe_NextVarUint s Hs) as (r & s1 & E & Hr & Es & Hs1 & Hle).
  unfold NextVarBytes, mbind, M_bind. rewrite E. destruct r as [[n []]| |]; [|..|done].
  - do 2 eexists. by split_and!.
  - pose proof (NextVarUint_range _ _ _ Hs E) as Hn.
    destruct (safe_NextBytes n Hn s1 Hs1) as (r2 & s2 & E2 & ? & ? & ? & ?).
    do 2 eexists. split_and!; [done|done|congruence|done|lia].
  - do 2 eexists. by split_and!.
Qed.

Lemma safe_NextString : safe NextString.
Proof. apply safe_bind; [apply safe_NextVarBytes|]. intros []. apply safe_ret. Qed.
#[export] Hint Resolve safe_NextVarBytes safe_NextString : safe.

Lemma progress_NextBool : progress_eof NextBool.
Proof.
  apply progress_eof_bind; [auto with safe..|intros [? ?]; solve_safe|].
  intros x s b s'. repeat case_decide; by intros [= <- <-].
Qed.

Lemma progress_NextVarUint : progress_eof NextVarUint.
Proof.
  apply progress_eof_bind; [auto with safe..|intros [? ?]; solve_safe|].
  intros x s b s'. by intros [= <- <-].
Qed.

Lemma progress_NextVarBytes : progress_eof NextVarBytes.
Proof.
  intros s a s' Hs ([n eof] & s1 & E1 & E2)%bind_inv_ok. destruct eof; [done|].
  pose proof (NextVarUint_range _ _ _ Hs E1) as Hn.
  pose proof (progress_NextVarUint _ _ _ Hs E1).
  apply safe_at in E1 as (_ & _ & Hs1 & _); [|auto with safe..].
  apply safe_at in E2 as (_ & _ & _ & Hle); [lia|by apply safe_NextBytes|done].
Qed.

Lemma progress_NextString : progress_eof NextString.
Proof.
  apply progress_eof_bind; [auto with safe|apply progress_NextVarBytes|intros []; auto with safe|].
  intros x s b s'. by intros [= <- <-].
Qed.

Lemma progress_fixed {A} n (f : bytes → A) (d : A) : is_u64 n → 0 < n →
  progress_eof ('(buf, eof) ← src_NextBytes n; if (eof : bool) then mret (d, true) else mret (f buf, eof)).
Proof.
  intros Hn Hp. apply progress_eof_bind; [by apply safe_NextBytes|by apply progress_NextBytes| |].
  - intros [? []]; auto with safe.
  - intros x s b s'. by intros [= <- <-].
Qed.
Lemma progress_NextUint16 : progress_eof NextUint16.
Proof. by apply progress_fixed. Qed.
Lemma progress_NextUint32 : progress_eof NextUint32.
Proof. by apply progress_fixed. Qed.
Lemma progress_NextUint64 : progress_eof NextUint64.
Proof. by apply progress_fixed. Qed.
Lemma progress_NextAddress : progress_eof NextAddress.
Proof. by apply progress_fixed. Qed.
#[export] Hint Resolve progress_NextBool progress_NextVarUint progress_NextVarBytes
  progress_NextString progress_NextUint32 progress_NextUint64 progress_NextAddress
  progress_must : safe.

(** ** Counted loops: [for i := 0; uint64(i) < n; i++ { body }]

    The count comes from the input, so it is not bounded by it.  Every [body]
    used here consumes at least one byte or fails, so one step per byte of the
    input and one more for the last failure are enough fuel; running out is a
    [Panic], which [safe_loopM] excludes. *)
Fixpoint loop_fuel {A} (fuel : nat) (n : Z) (body : M ZeroCopySource A) : M ZeroCopySource (list A) :=
  if decide (n ≤ 0) then mret [] else
  match fuel with
  | O => panic
  | S fuel' => x ← body; xs ← loop_fuel fuel' (n - 1) body; mret (x :: xs)
  end.

Definition loopM {A} (n : Z) (body : M ZeroCopySource A) : M ZeroCopySource (list A) :=
  s ← get_state; loop_fuel (S (length (src_s s))) n body.

Lemma safe_loop_fuel {A} (body : M ZeroCopySource A) fuel n s :
  safe body → progress body → src_wf s → blen (src_s s) - src_off s < Z.of_nat fuel →
  ∃ r s', loop_fuel fuel n body s = (r, s') ∧ r ≠ Panic ∧
    src_s s' = src_s s ∧ src_wf s' ∧ src_off s ≤ src_off s'.
Proof.
  intros Hb Hp. revert n s. induction fuel as [|fuel IH]; intros n s Hs Hf; simpl.
  - destruct Hs. lia.
  - case_decide; [by apply safe_ret|].
    destruct (Hb s Hs) as (r & s1 & E & Hr & Es & Hs1 & Hle).
    unfold mbind at 1, M_bind at 1. rewrite E. destruct r as [a|e|]; [|by eauto 10|done].
    pose proof (Hp _ _ _ Hs E).
    destruct (IH (n - 1) s1 Hs1) as (r2 & s2 & E2 & Hr2 & Es2 & Hs2 & Hle2); [rewrite Es; lia|].
    unfold mbind, M_bind. rewrite E2.
    destruct r2; [| |done]; (do 2 eexists; split_and!; [done|done|congruence|done|lia]).
Qed.

Lemma safe_loopM {A} (body : M ZeroCopySource A) n : safe body → progress body → safe (loopM n body).
Proof.
  intros Hb Hp s Hs. unfold loopM. erewrite bind_ok by done.
  apply safe_loop_fuel; auto. destruct Hs. lia.
Qed.

Lemma decodes_loop_fuel {A} (body : M ZeroCopySource A) (enc : A → bytes) l fuel :
  (∀ a, a ∈ l → decodes body (enc a) a) → (length l ≤ fuel)%nat →
  decodes (loop_fuel fuel (blen l) body) (mjoin (enc <$> l)) l.
Proof.
  revert fuel. induction l as [|a l IH]; intros fuel Hm Hf.
  { destruct fuel; apply decodes_ret. }
  destruct fuel as [|fuel]; simpl in Hf; [lia|]. cbn [loop_fuel fmap list_fmap mjoin list_join].
  rewrite decide_False by (simpl; lia).
  eapply decodes_bind; [apply Hm; set_solver|].
  rewrite <- (app_nil_r (mjoin _)). eapply decodes_bind.
  - replace (blen (a :: l) - 1) with (blen l) by (simpl; lia). apply IH; [set_solver|lia].
  - apply decodes_ret.
Qed.

Lemma length_mjoin_ge {A} (enc : A → bytes) l :
  (∀ a, a ∈ l → (0 < length (enc a))%nat) → (length l ≤ length (mjoin (enc <$> l)))%nat.
Proof.
  induction l as [|a l IH]; intros H; [simpl; lia|].
  change (mjoin (enc <$> a :: l)) with (enc a ++ mjoin (enc <$> l)). rewrite length_app. simpl length at 1.
  assert (0 < length (enc a))%nat by (apply H; set_solver).
  assert (length l ≤ length (mjoin (enc <$> l)))%nat by (apply IH; set_solver). lia.
Qed.

Lemma decodes_loopM {A} (body : M ZeroCopySource A) (enc : A → bytes) l n :
  n = blen l → (∀ a, a ∈ l → decodes body (enc a) a) →
  (∀ a, a ∈ l → (0 < length (enc a))%nat) →
  decodes (loopM n body) (mjoin (enc <$> l)) l.
Proof.
  intros -> Hm Hlen pre post Hs. unfold loopM. erewrite bind_ok by done. simpl src_s.
  apply (decodes_loop_fuel body enc); [done| |done].
  pose proof (length_mjoin_ge enc l Hlen). rewrite !length_app. lia.
Qed.

(** The proof step for a [Deserialization] method: one read per field. *)
Create HintDb codec.
#[export] Hint Resolve decodes_NextByte decodes_NextBool decodes_NextUint8 decodes_NextUint16
  decodes_NextUint32 decodes_NextUint64 decodes_NextInt16 decodes_NextInt32 decodes_NextInt64
  decodes_NextVarUint decodes_NextVarBytes decodes_NextString decodes_NextAddress
  decodes_NextHash decodes_ret decodes_must : codec.

Ltac solve_decodes :=
  cbn -[Z.pow];
  repeat (first
    [ apply decodes_ret
    | eapply decodes_must_bind; [solve [eauto with codec]|]
    | eapply decodes_bind; [solve [eauto with codec]|] ]; cbn -[Z.pow]).

(** ** The interface between data types and the buffers

    What [Serialization]/[Deserialization] promise to their callers. *)
Class Serializable (A : Type) := {
  Serialization : A → list sink_op;
  Deserialization : M ZeroCopySource A;
  ser_wf : A → Prop;
  ser_roundtrip : ∀ a, ser_wf a → decodes Deserialization (enc_ops (Serialization a)) a;
  ser_safe : safe Deserialization;
}.
Arguments Deserialization _ {_}.

(** [sink := NewZeroCopySink(nil); x.Serialization(sink); sink.Bytes()]. *)
Definition sink_bytes {A} `{Serializable A} (a : A) : bytes := enc_ops (Serialization a).

Lemma deserialize_bytes `{Serializable A} (a : A) post :
  ser_wf a → blen (sink_bytes a ++ post) < 2 ^ 63 →
  Deserialization A (NewZeroCopySource (sink_bytes a ++ post)) =
    (Ok a, mkSource (sink_bytes a ++ post) (blen (sink_bytes a))).
Proof. intros Hwf Hlen. by apply (ser_roundtrip a Hwf [] post). Qed.

(** ** Reading back a sequence of writes *)

(** The read that belongs to a write: the reader passes the kind (for raw bytes
    the length) and gets the value. *)
Definition read_op (o : sink_op) : M ZeroCopySource sink_op :=
  match o with
  | OpBytes p => x ← must "eof" (src_NextBytes (blen p)); mret (OpBytes x)
  | OpUint8 _ => x ← must "eof" NextUint8; mret (OpUint8 x)
  | OpByte _ => x ← must "eof" NextByte; mret (OpByte x)
  | OpBool _ => x ← must "eof" NextBool; mret (OpBool x)
  | OpUint16 _ => x ← must "eof" NextUint16; mret (OpUint16 x)
  | OpUint32 _ => x ← must "eof" NextUint32; mret (OpUint32 x)
  | OpUint64 _ => x ← must "eof" NextUint64; mret (OpUint64 x)
  | OpInt16 _ => x ← must "eof" NextInt16; mret (OpInt16 x)
  | OpInt32 _ => x ← must "eof" NextInt32; mret (OpInt32 x)
  | OpInt64 _ => x ← must "eof" NextInt64; mret (OpInt64 x)
  | OpVarUint _ => x ← must "eof" NextVarUint; mret (OpVarUint x)
  | OpVarBytes _ => x ← must "eof" NextVarBytes; mret (OpVarBytes x)
  | OpString _ => x ← must "eof" NextString; mret (OpString x)
  | OpAddress _ => x ← must "eof" NextAddress; mret (OpAddress x)
  | OpHash _ => x ← must "eof" NextHash; mret (OpHash x)
  end.

Fixpoint read_ops (os : list sink_op) : M ZeroCopySource (list sink_op) :=
  match os with
  | [] => mret []
  | o :: os' => x ← read_op o; xs ← read_ops os'; mret (x :: xs)
  end.

(** The value fits the Go type of the argument. *)
Definition op_wf (o : sink_op) : Prop :=
  match o with
  | OpUint8 x => is_u8 x
  | OpUint16 x => is_u16 x
  | OpUint32 x => is_u32 x
  | OpUint64 x | OpVarUint x => is_u64 x
  | OpInt16 x => - 2 ^ 15 ≤ x < 2 ^ 15
  | OpInt32 x => - 2 ^ 31 ≤ x < 2 ^ 31
  | OpInt64 x => - 2 ^ 63 ≤ x < 2 ^ 63
  | _ => True
  end.

Lemma decodes_read_op o : op_wf o → decodes (read_op o) (enc_op o) o.
Proof.
  intros Ho. destruct o; simpl in *;
    (eapply decodes_map; [apply decodes_must; by eauto using decodes_NextBytes with codec|done]).
Qed.

Lemma decodes_read_ops os : Forall op_wf os → decodes (read_ops os) (enc_ops os) os.
Proof.
  induction 1 as [|o os Ho Hos IH]; [apply decodes_ret|]. rewrite enc_ops_cons. cbn [read_ops].
  eapply decodes_bind; [by apply decodes_read_op|].
  eapply decodes_map; [apply IH|done].
Qed.

Lemma safe_NextInt16 : safe NextInt16.
Proof. unfold NextInt16. solve_safe. Qed.
#[export] Hint Resolve safe_NextInt16 : safe.

Lemma safe_read_op o : (∀ p, o = OpBytes p → blen p < 2 ^ 64) → safe (read_op o).
Proof.
  intros Hp. destruct o; simpl; (apply safe_bind; [apply safe_must|intros; apply safe_ret]);
    auto with safe.
  apply safe_NextBytes. unfold in_range. specialize (Hp p eq_refl). lia.
Qed.

Lemma safe_read_ops os : Forall (λ o, ∀ p, o = OpBytes p → blen p < 2 ^ 64) os → safe (read_ops os).
Proof.
  induction 1 as [|o os Ho Hos IH]; simpl; [apply safe_ret|].
  apply safe_bind; [by apply safe_read_op|intros x].
  apply safe_bind; [done|intros; apply safe_ret].
Qed.

(** ** Properties *)

(** Round trip of the codec.  What a sink wrote, a source reads back:
    after any sequence of writes of values in range, reading the same kinds from
    [sink.Bytes()] gives the same values and consumes the whole buffer. *)
Theorem sink_source_roundtrip (os : list sink_op) :
  Forall op_wf os → blen (enc_ops os) ≤ max_sink →
  ∃ s, run_ops os NewZeroCopySink = (Ok tt, s) ∧
    read_ops os (NewZeroCopySource (Bytes s)) = (Ok os, mkSource (Bytes s) (blen (Bytes s))).
Proof.
  intros Hos Hlen. destruct (appends_ops os NewZeroCopySink sink_ok_new Hlen) as (s & E & HB & _).
  exists s. split; [done|]. rewrite HB. change (Bytes NewZeroCopySink) with (@nil byte).
  pose proof (decodes_read_ops os Hos [] []) as Hd. rewrite app_nil_r in Hd.
  apply Hd. unfold max_sink in Hlen. cbn [app]. lia.
Qed.

(** Reads are total.  On an arbitrary buffer, any sequence of reads ends
    with values or an error, never with a panic, and the cursor stays inside the
    buffer. *)
Lemma read_ops_total (os : list sink_op) (buf : bytes) :
  blen buf < 2 ^ 63 → Forall (λ o, ∀ p, o = OpBytes p → blen p < 2 ^ 64) os →
  ∃ r s, read_ops os (NewZeroCopySource buf) = (r, s) ∧ r ≠ Panic ∧
    src_s s = buf ∧ 0 ≤ src_off s ≤ blen buf.
Proof.
  intros Hb Hos. destruct (safe_read_ops os Hos (NewZeroCopySource buf)) as (r & s & E & Hr & Es & Hs & _).
  { unfold src_wf. simpl. lia. }
  exists r, s. destruct Hs as [Hs _]. rewrite Es in Hs. split_and!; [done|done|done|..]; apply Hs.
Qed.

Lemma sink_source_roundtrip_example :
  let os := [OpUint64 (2 ^ 64 - 1); OpString (gs "poly"); OpInt32 (-5); OpVarUint 70000; OpBool true] in
  ∃ s, run_ops os NewZeroCopySink = (Ok tt, s) ∧
    read_ops os (NewZeroCopySource (Bytes s)) = (Ok os, mkSource (Bytes s) (blen (Bytes s))).
Proof.
  intros os. apply (sink_source_roundtrip os).
  - subst os. repeat constructor; unfold in_range; simpl; lia.
  - vm_compute. discriminate.
Defined.

Lemma read_ops_total_example :
  let os := [OpVarBytes []; OpHash EMPTY_HASH; OpUint16 0] in
  ∃ r s, read_ops os (NewZeroCopySource (gs "xyz")) = (r, s) ∧ r ≠ Panic ∧
    src_s s = gs "xyz" ∧ 0 ≤ src_off s ≤ blen (gs "xyz").
Proof.
  intros os. apply (read_ops_total os (gs "xyz")).
  - simpl. lia.
  - subst os. repeat constructor; discriminate.
Defined.
