(* ===== verification/ReadLocal.v ===== *)
(** * What a read depends on

    A successful read of a [ZeroCopySource] is determined by the bytes it
    consumed: at any place where the same bytes stand it gives the same value.
    This is the converse of [decodes], and what makes the hash of the consumed
    bytes an identifier of the decoded value. *)

From S2P Require Import Prelude Sha256 Sink Source.

Definition consumed (s s' : ZeroCopySource) (bs : bytes) : Prop :=
  ∃ pre post, s = mkSource (pre ++ bs ++ post) (blen pre) ∧ s' = mkSource (pre ++ bs ++ post) (blen (pre ++ bs)).

Definition local {A} (m : M ZeroCopySource A) : Prop :=
  ∀ s a s', src_wf s → m s = (Ok a, s') → ∃ bs, consumed s s' bs ∧ decodes m bs a.

(** For a read with an end-of-input flag: when the flag is not set. *)
Definition local_eof {A} (m : M ZeroCopySource (A * bool)) : Prop :=
  ∀ s a s', src_wf s → m s = (Ok (a, false), s') → ∃ bs, consumed s s' bs ∧ decodes m bs (a, false).

Lemma consumed_app s1 s2 s3 bs1 bs2 : consumed s1 s2 bs1 → consumed s2 s3 bs2 → consumed s1 s3 (bs1 ++ bs2).
Proof.
  intros (pre & post & -> & ->) (pre' & post' & [= E1 E2] & ->).
  assert (pre' = pre ++ bs1) as ->.
  { apply Nat2Z.inj in E2. rewrite app_assoc in E1. apply app_inj_1 in E1 as [? _]; [done|]. by rewrite <- E2. }
  rewrite <- !app_assoc in E1. apply app_inv_head, app_inv_head in E1 as ->.
  exists pre, post'. by rewrite <- !app_assoc.
Qed.

Lemma consumed_split s s' bs1 bs2 : consumed s s' (bs1 ++ bs2) → ∃ s1, consumed s s1 bs1 ∧ consumed s1 s' bs2.
Proof.
  intros (pre & post & -> & ->). eexists. split.
  - exists pre, (bs2 ++ post). by rewrite <- !app_assoc.
  - exists (pre ++ bs1), post. by rewrite <- !app_assoc.
Qed.

Lemma decodes_run {A} (m : M ZeroCopySource A) s s' bs a : src_wf s → consumed s s' bs → decodes m bs a → m s = (Ok a, s').
Proof. intros [_ Hl] (pre & post & -> & ->) Hm. by apply Hm. Qed.

Lemma consumed_nil s : src_wf s → consumed s s [].
Proof.
  intros [[H0 H1] _]. destruct s as [l o]. cbn in *. exists (take (Z.to_nat o) l), (drop (Z.to_nat o) l).
  rewrite app_nil_l, take_drop, app_nil_r. by replace (blen (take (Z.to_nat o) l)) with o by (rewrite length_take; lia).
Qed.

Lemma consumed_wf s s' bs : src_wf s → consumed s s' bs → src_wf s'.
Proof. intros [_ Hl] (pre & post & -> & ->). split; cbn in *; rewrite ?length_app in *; lia. Qed.

Lemma consumed_len s s' bs : consumed s s' bs → src_off s' = src_off s + blen bs.
Proof. intros (pre & post & -> & ->). cbn. rewrite length_app. lia. Qed.

Lemma local_ret {A} (a : A) : local (mret a).
Proof. intros s a' s' Hs [= <- <-]. exists []. split; [by apply consumed_nil|apply decodes_ret]. Qed.

Lemma local_fail {A} e : local (fail (A:=A) e).
Proof. intros s a s' _ [=]. Qed.

Lemma local_panic {A} : local (panic (A:=A)).
Proof. intros s a s' _ [=]. Qed.

Lemma local_bind {A B} (m : M ZeroCopySource A) (k : A → M ZeroCopySource B) :
  local m → (∀ a, local (k a)) → local (m ≫= k).
Proof.
  intros Hm Hk s b s' Hs (a & s1 & E1 & E2)%bind_inv_ok. destruct (Hm _ _ _ Hs E1) as (b1 & C1 & D1).
  destruct (Hk a s1 b s' (consumed_wf _ _ _ Hs C1) E2) as (b2 & C2 & D2).
  exists (b1 ++ b2). split; [by eapply consumed_app|by eapply decodes_bind].
Qed.

Lemma local_must {A} msg (m : M ZeroCopySource (A * bool)) : local_eof m → local (must msg m).
Proof.
  intros Hm s a s' Hs E. unfold must in E. apply bind_inv_ok in E as ([x []] & s1 & E1 & E2); [done|].
  injection E2 as -> ->. destruct (Hm _ _ _ Hs E1) as (bs & C & D). exists bs. split; [done|by apply decodes_must].
Qed.

Lemma local_guard b msg : local (guard_err b msg).
Proof. unfold guard_err. destruct b; [apply local_ret|apply local_fail]. Qed.

(** The flag of the first read is handed on. *)
Lemma local_eof_bind {A B} (m : M ZeroCopySource (A * bool)) (k : A * bool → M ZeroCopySource (B * bool)) :
  local_eof m → (∀ a, local_eof (k (a, false))) → (∀ a s b s', k (a, true) s = (Ok (b, false), s') → False) →
  local_eof (m ≫= k).
Proof.
  intros Hm Hk Ht s b s' Hs ([a []] & s1 & E1 & E2)%bind_inv_ok; [by apply Ht in E2|].
  destruct (Hm _ _ _ Hs E1) as (b1 & C1 & D1).
  destruct (Hk a s1 b s' (consumed_wf _ _ _ Hs C1) E2) as (b2 & C2 & D2).
  exists (b1 ++ b2). split; [by eapply consumed_app|by eapply decodes_bind].
Qed.

Lemma local_eof_ret {A} (x : A * bool) : local_eof (mret x).
Proof. intros s a s' Hs [= -> <-]. exists []. split; [by apply consumed_nil|apply decodes_ret]. Qed.

Lemma NextBytes_inv n s a s' :
  0 ≤ n → src_wf s → src_NextBytes n s = (Ok (a, false), s') → consumed s s' a ∧ blen a = n.
Proof.
  intros Hn [Ho Hl] E. destruct s as [l o]. cbn [src_s src_off] in *.
  unfold src_NextBytes in E. apply bind_inv_ok in E as (s0 & s1 & [= <- <-] & E). cbn [src_s src_off] in E.
  destruct (SafeAdd o n) as [e ov] eqn:Ea. destruct (ov || bool_decide (blen l < e)) eqn:Eo.
  - destruct (go_slice l o (blen l)); [|done]. apply bind_inv_ok in E as ([] & s2 & [= <-] & [= _ E _]).
  - apply orb_false_elim in Eo as [-> He%bool_decide_eq_false_1]. unfold SafeAdd in Ea. injection Ea as <- Ea.
    destruct (go_slice l o _) as [d|] eqn:Eg; [|done]. apply bind_inv_ok in E as ([] & s2 & [= <-] & [= -> <-]).
    unfold go_slice in Eg. case_decide as Hg; [|done]. injection Eg as <-.
    assert (u64 (o + n) = o + n) as Eu.
    { apply bool_decide_eq_false_1 in Ea. unfold uwrap in *. apply Z.mod_small. unfold MAX_UINT64 in Ea. lia. }
    rewrite Eu in *. set (d := take _ _).
    assert (blen d = n) as Hd by (unfold d; rewrite length_take, length_drop; lia). split; [|done].
    exists (take (Z.to_nat o) l), (drop (Z.to_nat (o + n)) l).
    assert (l = take (Z.to_nat o) l ++ d ++ drop (Z.to_nat (o + n)) l) as El.
    { unfold d. replace (Z.to_nat (o + n)) with (Z.to_nat o + Z.to_nat (o + n - o))%nat by lia.
      by rewrite <- drop_drop, take_drop, take_drop. }
    rewrite <- El, length_app. split; f_equal; rewrite length_take; lia.
Qed.

Lemma local_eof_NextBytes n : 0 ≤ n → local_eof (src_NextBytes n).
Proof.
  intros Hn s a s' Hs E. destruct (NextBytes_inv n s a s' Hn Hs E) as [? ?]. exists a.
  split; [done|by apply decodes_NextBytes].
Qed.

Lemma local_eof_NextByte : local_eof NextByte.
Proof.
  intros [l o] a s' [Ho Hl] E. cbn [src_s src_off] in *.
  unfold NextByte in E. apply bind_inv_ok in E as (s0 & s1 & [= <- <-] & E). cbn [src_s src_off] in E.
  case_decide; [done|]. destruct (l !! Z.to_nat o) as [b|] eqn:Eb; [|done].
  apply bind_inv_ok in E as ([] & s2 & [= <-] & [= -> <-]). rewrite uwrap_small by (split; lia).
  exists [a]. split; [|apply decodes_NextByte]. exists (take (Z.to_nat o) l), (drop (S (Z.to_nat o)) l).
  assert (l = take (Z.to_nat o) l ++ [a] ++ drop (S (Z.to_nat o)) l) as El.
  { cbn. by rewrite <- drop_S, take_drop. }
  rewrite <- El, length_app. cbn [length]. split; f_equal; rewrite length_take; lia.
Qed.

Lemma local_eof_fixed {A} n (f : bytes → A) (d : A) : 0 ≤ n →
  local_eof ('(buf, eof) ← src_NextBytes n; if (eof : bool) then mret (d, true) else mret (f buf, eof)).
Proof.
  intros. apply local_eof_bind; [by apply local_eof_NextBytes|intros; apply local_eof_ret|].
  intros b s a s' E. discriminate E.
Qed.

Lemma local_eof_NextUint16 : local_eof NextUint16.
Proof. by apply local_eof_fixed. Qed.
Lemma local_eof_NextUint32 : local_eof NextUint32.
Proof. by apply local_eof_fixed. Qed.
Lemma local_eof_NextUint64 : local_eof NextUint64.
Proof. by apply local_eof_fixed. Qed.
Lemma local_eof_NextAddress : local_eof NextAddress.
Proof. by apply local_eof_fixed. Qed.
Lemma local_eof_NextHash : local_eof NextHash.
Proof. by apply local_eof_fixed. Qed.

Lemma local_eof_again {A} (m : M ZeroCopySource (A * bool)) (d : A) :
  local_eof m → local_eof ('(val, e) ← m; if (e : bool) then mret (d, true) else mret (val, false)).
Proof.
  intros Hm. apply local_eof_bind; [done|intros; apply local_eof_ret|]. intros b s a s' E. discriminate E.
Qed.

Lemma local_eof_NextVarUint : local_eof NextVarUint.
Proof.
  apply local_eof_bind; [apply local_eof_NextByte| |intros b s a s' E; discriminate E].
  intros b. cbn. repeat case_decide; [apply local_eof_again, local_eof_NextUint16|
    apply local_eof_again, local_eof_NextUint32|apply local_eof_again, local_eof_NextUint64|apply local_eof_ret].
Qed.

(** A number that was read has the width of its bytes. *)
Lemma local_uint_range n s x s' :
  0 ≤ n → src_wf s →
  ('(buf, eof) ← src_NextBytes n; if (eof : bool) then mret (0, true) else mret (le_get buf, eof)) s = (Ok (x, false), s') →
  in_range (8 * n) x.
Proof.
  intros Hn Hs ([b []] & s1 & E1 & E2)%bind_inv_ok; [done|]. injection E2 as <- _.
  destruct (NextBytes_inv _ _ _ _ Hn Hs E1) as [_ <-]. apply le_get_range.
Qed.

Lemma NextByte_wf s b s' : src_wf s → NextByte s = (Ok (b, false), s') → src_wf s'.
Proof. intros Hs E. destruct (local_eof_NextByte _ _ _ Hs E) as (bs & C & _). by eapply consumed_wf. Qed.

Lemma NextVarUint_nonneg s x s' : src_wf s → NextVarUint s = (Ok (x, false), s') → 0 ≤ x.
Proof.
  intros Hs ([b []] & s1 & Eb & E)%bind_inv_ok; [done|]. apply NextByte_wf in Eb; [|done].
  repeat case_decide; [..|injection E as <- _; apply byte_to_Z_range].
  all: apply bind_inv_ok in E as ([v []] & s2 & E1 & E2); [done|]; injection E2 as -> _; by apply local_uint_range in E1 as [? _].
Qed.

Lemma must_inv {A} msg (m : M ZeroCopySource (A * bool)) s x s' : must msg m s = (Ok x, s') → m s = (Ok (x, false), s').
Proof. intros ([y []] & s1 & E1 & E2)%bind_inv_ok; [done|]. by injection E2 as -> ->. Qed.

Lemma local_eof_NextVarBytes : local_eof NextVarBytes.
Proof.
  intros s a s' Hs ([n []] & s1 & E1 & E2)%bind_inv_ok; [done|].
  destruct (local_eof_NextVarUint _ _ _ Hs E1) as (b1 & C1 & D1).
  destruct (local_eof_NextBytes n (NextVarUint_nonneg _ _ _ Hs E1) s1 a s' (consumed_wf _ _ _ Hs C1) E2) as (b2 & C2 & D2).
  exists (b1 ++ b2). split; [by eapply consumed_app|]. by eapply decodes_bind.
Qed.

Lemma local_of_wrap {A} p (m : M ZeroCopySource A) : local m → local (wrap_err p m).
Proof.
  intros Hm s a s' Hs E. unfold wrap_err in E. destruct (m s) as [[]] eqn:Em; simplify_eq.
  destruct (Hm _ _ _ Hs Em) as (bs & C & D). exists bs. split; [done|]. intros pre post Hl. unfold wrap_err. by rewrite D.
Qed.

Lemma local_of_res {A} (r : res A) : local (λ s, (r, s)).
Proof.
  intros s a s' Hs [= -> <-]. exists []. split; [by apply consumed_nil|]. intros pre post _. by rewrite app_nil_r.
Qed.

Lemma local_loop_fuel {A} (body : M ZeroCopySource A) fuel n s l s' :
  local body → progress body → src_wf s → loop_fuel fuel n body s = (Ok l, s') →
  ∃ bs, consumed s s' bs ∧ ∀ fuel', (length bs < fuel')%nat → decodes (loop_fuel fuel' n body) bs l.
Proof.
  intros Hb Hp. revert n s l s'. induction fuel as [|fuel IH]; intros n s l s' Hs E; cbn [loop_fuel] in E; case_decide as Hn.
  1, 3: injection E as <- <-; exists []; split; [by apply consumed_nil|]; intros [|f] _; cbn [loop_fuel];
    rewrite decide_True by done; apply decodes_ret.
  { by unfold panic in E. }
  apply bind_inv_ok in E as (x & s1 & E1 & E). apply bind_inv_ok in E as (xs & s2 & E2 & [= <- <-]).
  destruct (Hb _ _ _ Hs E1) as (b1 & C1 & D1). pose proof (Hp _ _ _ Hs E1) as Hlt. rewrite (consumed_len _ _ _ C1) in Hlt.
  destruct (IH _ _ _ _ (consumed_wf _ _ _ Hs C1) E2) as (b2 & C2 & D2).
  exists (b1 ++ b2). split; [by eapply consumed_app|]. intros [|f] Hf; rewrite length_app in Hf; [lia|].
  cbn [loop_fuel]. rewrite decide_False by done. eapply decodes_bind; [exact D1|].
  eapply decodes_map; [apply D2; lia|done].
Qed.

(** Fewer elements than passes. *)
Lemma loop_fuel_length {A} (body : M ZeroCopySource A) fuel n s l s' :
  loop_fuel fuel n body s = (Ok l, s') → (length l ≤ fuel)%nat ∧ blen l ≤ Z.max 0 n.
Proof.
  revert n s l. induction fuel as [|fuel IH]; intros n s l E; cbn [loop_fuel] in E; case_decide.
  1, 3: injection E as <- _; cbn; lia.
  { by unfold panic in E. }
  apply bind_inv_ok in E as (x & s1 & _ & E). apply bind_inv_ok in E as (xs & s2 & E & E').
  injection E' as <- ->. apply IH in E. cbn [length]. lia.
Qed.

Lemma loopM_length {A} (body : M ZeroCopySource A) n s l s' :
  loopM n body s = (Ok l, s') → (length l ≤ S (length (src_s s)))%nat ∧ blen l ≤ Z.max 0 n.
Proof. intros E. unfold loopM in E. apply bind_inv_ok in E as (s0 & s1 & [= <- <-] & E). by eapply loop_fuel_length. Qed.

Lemma local_loopM {A} n (body : M ZeroCopySource A) : local body → progress body → local (loopM n body).
Proof.
  intros Hb Hp s l s' Hs E. unfold loopM in E. apply bind_inv_ok in E as (s0 & s1 & [= <- <-] & E).
  destruct (local_loop_fuel body _ n s l s' Hb Hp Hs E) as (bs & C & D). exists bs. split; [done|].
  intros pre post Hl. unfold loopM. erewrite bind_ok by done. apply D; [|done]. cbn [src_s]. rewrite !length_app. lia.
Qed.

Create HintDb local.
#[export] Hint Resolve local_ret local_fail local_panic local_guard local_must local_eof_NextByte local_eof_NextUint16
  local_eof_NextUint32 local_eof_NextUint64 local_eof_NextAddress local_eof_NextHash local_eof_NextVarUint
  local_eof_NextVarBytes : local.
Ltac solve_local :=
  repeat (first
    [ solve [eauto with local nocore]
    | apply local_bind; [|intros]
    | match goal with |- local (if ?b then _ else _) => destruct b end
    | match goal with |- local (let '(_, _) := ?p in _) => destruct p end ]).
