(* ===== verification/Serialization.v ===== *)
(** * Reader/writer serialization and storage items
    (common/serialization/serialize.go, core/states/state_base.go, storage_item.go)

    A reader is a [bytes.Buffer], its state the unread bytes; a writer is a
    [bytes.Buffer] too, whose writes do not fail, so a [Write] is the bytes it
    appends.  The format is the one of the sinks. *)

From S2P Require Import Prelude Sha256 Sink Source.

Definition ErrRange : string := "value out of range".
Definition ErrEof : string := "got EOF, can not get the next byte".

(** ** Writers *)

Module Ser.

Definition WriteVarUint (value : Z) : bytes :=
  if decide (value < 0xFD) then [byte_of_Z value]
  else if decide (value ≤ 0xFFFF) then byte_of_Z 0xFD :: le_put 2 (u16 value)
  else if decide (value ≤ 0xFFFFFFFF) then byte_of_Z 0xFE :: le_put 4 (u32 value)
  else byte_of_Z 0xFF :: le_put 8 value.

Definition WriteVarBytes (value : bytes) : bytes := WriteVarUint (blen value) ++ value.
Definition WriteString (value : bytes) : bytes := WriteVarBytes value.
Definition WriteBytes (value : bytes) : bytes := value.
Definition WriteUint8 (v : Z) : bytes := [byte_of_Z v].
Definition WriteUint16 (v : Z) : bytes := le_put 2 v.
Definition WriteUint32 (v : Z) : bytes := le_put 4 v.
Definition WriteUint64 (v : Z) : bytes := le_put 8 v.
Definition WriteByte (v : byte) : bytes := [v].
Definition WriteBool (v : bool) : bytes := [byte_of_Z (if v then 1 else 0)].

(** ** Readers *)

(** [io.ReadFull] into a slice of length [n]. *)
Definition ReadFull (n : nat) : M bytes bytes := λ r,
  if decide (n ≤ length r)%nat then (Ok (take n r), drop n r)
  else if decide (length r = 0)%nat then (Err "EOF", r)
  else (Err "unexpected EOF", []).

Definition byteXReader (x : Z) : M bytes bytes :=
  if decide (x = 0) then mret []
  else if decide (x < 2 * 1024 * 1024) then ReadFull (Z.to_nat x)
  else λ r,
    (* [io.LimitReader(reader, int64(x))] gives at most [int64(x)] bytes *)
    let lim := swrap 64 x in
    let p := take (Z.to_nat lim) r in
    let r' := drop (Z.to_nat lim) r in
    if decide (blen p = lim) then (Ok p, r') else (Err ErrEof, r').

Definition ReadVarUint (maxint : Z) : M bytes Z :=
  let maxint := if decide (maxint = 0) then 2 ^ 64 - 1 else maxint in
  fb ← ReadFull 1;
  res ← (if decide (fb = [byte_of_Z 0xfd]) then b ← ReadFull 2; mret (le_get b)
         else if decide (fb = [byte_of_Z 0xfe]) then b ← ReadFull 4; mret (le_get b)
         else if decide (fb = [byte_of_Z 0xff]) then b ← ReadFull 8; mret (le_get b)
         else mret (le_get fb));
  if decide (maxint < res) then fail ErrRange else mret res.

Definition ReadVarBytes : M bytes bytes := val ← ReadVarUint 0; byteXReader val.
Definition ReadString : M bytes bytes := ReadVarBytes.
Definition ReadBytes (length : Z) : M bytes bytes := byteXReader length.

(** [if err != nil { return 0, ErrEof }]. *)
Definition or_eof {A} (m : M bytes A) : M bytes A := λ r,
  match m r with (Err _, r') => (Err ErrEof, r') | x => x end.

Definition ReadUint8 : M bytes Z := or_eof (b ← ReadFull 1; mret (le_get b)).
Definition ReadUint16 : M bytes Z := or_eof (b ← ReadFull 2; mret (le_get b)).
Definition ReadUint32 : M bytes Z := or_eof (b ← ReadFull 4; mret (le_get b)).
Definition ReadUint64 : M bytes Z := or_eof (b ← ReadFull 8; mret (le_get b)).
Definition ReadBool : M bytes bool := b ← ReadFull 1; mret (bool_decide (le_get b ≠ 0)).
Definition ReadByte : M bytes byte :=
  b ← byteXReader 1; match b with x :: _ => mret x | [] => panic end.

Definition ReadHash : M bytes Uint256 :=
  val ← byteXReader UINT256_SIZE;
  if decide (blen val = UINT256_SIZE) then mret (copy_array 32 val)
  else fail "[Common]: Uint256ParseFromBytes err, len != 32".
Definition ReadAddress : M bytes Address :=
  val ← byteXReader ADDR_LEN;
  if decide (blen val = ADDR_LEN) then mret (copy_array 20 val)
  else fail "[Common]: AddressParseFromBytes err, len != 20".

Definition GetVarUintSize (value : Z) : Z :=
  if decide (value < 0xfd) then 1
  else if decide (value ≤ 0xffff) then 3
  else if decide (value ≤ 0xFFFFFFFF) then 5 else 9.

End Ser.

(** ** StorageItem *)

Record StorageItem := mkStorageItem { StateVersion : byte; Value : bytes }.

Definition StateBase_Serialize (i : StorageItem) : bytes := Ser.WriteByte (StateVersion i).
Definition StorageItem_Serialize (i : StorageItem) : bytes :=
  StateBase_Serialize i ++ Ser.WriteVarBytes (Value i).

Definition StateBase_Deserialize : M bytes byte :=
  wrap_err "[StateBase], StateBase Deserialize failed," Ser.ReadByte.
Definition StorageItem_Deserialize : M bytes StorageItem :=
  v ← wrap_err "[StorageItem], StateBase Deserialize failed, error:" StateBase_Deserialize;
  value ← wrap_err "[StorageItem], Value Deserialize failed, error:" Ser.ReadVarBytes;
  mret (mkStorageItem v value).

Definition StorageItem_ToArray (i : StorageItem) : bytes := StorageItem_Serialize i.

Definition GetValueFromRawStorageItem (raw : bytes) : res bytes :=
  match StorageItem_Deserialize raw with
  | (Ok item, _) => Ok (Value item)
  | (Err e, _) => Err e
  | (Panic, _) => Panic
  end.

Definition GenRawStorageItem (value : bytes) : bytes :=
  StorageItem_ToArray (mkStorageItem (byte_of_Z 0) value).

(** [Deserialize] of [Uint256] (common/uint256.go). *)
Definition Uint256_Deserialize : M bytes Uint256 := λ r,
  match Ser.ReadFull 32 r with
  | (Ok b, r') => (Ok (copy_array 32 b), r')
  | (Err _, r') => (Err "deserialize Uint256 error", r')
  | (Panic, r') => (Panic, r')
  end.

(** ** Round trips *)

(** [reads m bs a]: reading [m] off a buffer that starts with [bs] gives [a]. *)
Definition reads {A} (m : M bytes A) (bs : bytes) (a : A) : Prop :=
  ∀ rest, m (bs ++ rest) = (Ok a, rest).

Lemma reads_ReadFull bs : reads (Ser.ReadFull (length bs)) bs bs.
Proof.
  intros rest. unfold Ser.ReadFull. rewrite decide_True by (rewrite length_app; lia).
  by rewrite take_app_length, drop_app_length.
Qed.

Lemma reads_bind {A B} (m : M bytes A) (k : A → M bytes B) bs1 bs2 a b :
  reads m bs1 a → reads (k a) bs2 b → reads (m ≫= k) (bs1 ++ bs2) b.
Proof. intros Hm Hk rest. rewrite <- app_assoc. by rewrite (bind_ok _ _ _ _ _ (Hm _)). Qed.

Lemma reads_map {A B} (m : M bytes A) (k : A → M bytes B) bs a b :
  reads m bs a → k a = mret b → reads (m ≫= k) bs b.
Proof. intros Hm Hk rest. rewrite (bind_ok _ _ _ _ _ (Hm _)). by rewrite Hk. Qed.

Lemma reads_wrap {A} prefix (m : M bytes A) bs a : reads m bs a → reads (wrap_err prefix m) bs a.
Proof. intros Hm rest. unfold wrap_err. by rewrite Hm. Qed.

Lemma WriteVarUint_enc x : Ser.WriteVarUint x = enc_varuint x.
Proof.
  unfold Ser.WriteVarUint, enc_varuint.
  change (u16 x) with (uwrap (8 * Z.of_nat 2) x). change (u32 x) with (uwrap (8 * Z.of_nat 4) x).
  by rewrite (le_put_uwrap 2 x), (le_put_uwrap 4 x).
Qed.

Lemma reads_le n x : in_range (8 * Z.of_nat n) x →
  reads (b ← Ser.ReadFull n; mret (le_get b)) (le_put n x) x.
Proof.
  intros Hx. eapply reads_map; [|by rewrite le_get_put_small].
  rewrite <- (length_le_put n x) at 1. apply reads_ReadFull.
Qed.

Lemma reads_Uint256 h : reads Uint256_Deserialize (to_slice h) h.
Proof.
  intros rest. unfold Uint256_Deserialize. pose proof (reads_ReadFull (to_slice h) rest) as E.
  rewrite length_to_slice in E. by rewrite E, copy_to_slice.
Qed.

Lemma reads_ReadUint32 x : is_u32 x → reads Ser.ReadUint32 (le_put 4 x) x.
Proof. apply (reads_le 4). Qed.

Lemma reads_ReadVarUint x : is_u64 x → reads (Ser.ReadVarUint 0) (Ser.WriteVarUint x) x.
Proof.
  intros Hx. rewrite WriteVarUint_enc. unfold Ser.ReadVarUint, enc_varuint.
  rewrite (decide_True (P := 0 = 0)) by done. cbv zeta.
  assert (∀ c d, byte_of_Z c = byte_of_Z d → c mod 256 = d mod 256) as Hinj.
  { intros c d E. by rewrite <- !byte_to_of_Z, E. }
  unfold in_range in Hx. repeat case_decide.
  - rewrite <- (app_nil_r [byte_of_Z x]). eapply reads_bind; [apply (reads_ReadFull [_])|].
    assert (∀ c, 0xfd ≤ c < 256 → [byte_of_Z x] ≠ [byte_of_Z c]) as Hne.
    { intros c Hc [= E]. apply Hinj in E. rewrite !Z.mod_small in E by lia. lia. }
    rewrite !decide_False by (apply Hne; lia). intros rest. erewrite bind_ok by done. simpl.
    rewrite byte_to_of_Z, (Z.mod_small x) by lia. replace (x + 256 * 0) with x by lia.
    by rewrite decide_False by lia.
  - apply (reads_bind _ _ [byte_of_Z 0xfd] _ _ _ (reads_ReadFull [_])).
    rewrite decide_True by done.
    eapply reads_map; [apply (reads_le 2 x); unfold in_range; lia|]. by rewrite decide_False by lia.
  - apply (reads_bind _ _ [byte_of_Z 0xfe] _ _ _ (reads_ReadFull [_])).
    rewrite decide_False, decide_True by done.
    eapply reads_map; [apply (reads_le 4 x); unfold in_range; lia|]. by rewrite decide_False by lia.
  - apply (reads_bind _ _ [byte_of_Z 0xff] _ _ _ (reads_ReadFull [_])).
    rewrite decide_False, decide_False, decide_True by done.
    eapply reads_map; [apply (reads_le 8 x); unfold in_range; lia|]. by rewrite decide_False by lia.
Qed.

Lemma reads_byteXReader v : blen v < 2 ^ 63 → reads (Ser.byteXReader (blen v)) v v.
Proof.
  intros Hv. unfold Ser.byteXReader. case_decide as H0; [by destruct v|].
  case_decide; [rewrite Nat2Z.id; apply reads_ReadFull|].
  intros rest. rewrite swrap_small by lia. rewrite Nat2Z.id, take_app_length, drop_app_length.
  by rewrite decide_True.
Qed.

Lemma reads_ReadVarBytes v : blen v < 2 ^ 63 → reads Ser.ReadVarBytes (Ser.WriteVarBytes v) v.
Proof.
  intros Hv. eapply reads_bind; [apply reads_ReadVarUint; unfold in_range; lia|]. by apply reads_byteXReader.
Qed.

Lemma reads_ReadByte b : reads Ser.ReadByte (Ser.WriteByte b) b.
Proof. eapply reads_map; [apply (reads_byteXReader [b]); simpl; lia|done]. Qed.

Lemma reads_StorageItem i :
  blen (Value i) < 2 ^ 63 → reads StorageItem_Deserialize (StorageItem_Serialize i) i.
Proof.
  intros Hv. unfold StorageItem_Deserialize, StorageItem_Serialize.
  eapply reads_bind.
  - apply reads_wrap, reads_wrap, reads_ReadByte.
  - eapply reads_map; [by apply reads_wrap, reads_ReadVarBytes|]. by destruct i.
Qed.

(** What contracts store they read back, and it is never the empty value that
    stands for an absent key. *)
Lemma storage_item_roundtrip v :
  blen v < 2 ^ 63 → GetValueFromRawStorageItem (GenRawStorageItem v) = Ok v.
Proof.
  intros Hv. unfold GetValueFromRawStorageItem, GenRawStorageItem, StorageItem_ToArray.
  set (i := mkStorageItem (byte_of_Z 0) v). rewrite <- (app_nil_r (StorageItem_Serialize i)).
  by rewrite reads_StorageItem.
Qed.

Lemma GenRawStorageItem_nonempty v : GenRawStorageItem v ≠ [].
Proof. done. Qed.

(** ** Totality of the readers *)

Definition total {A} (m : M bytes A) : Prop := ∀ r, (m r).1 ≠ Panic.

Lemma total_bind {A B} (m : M bytes A) (k : A → M bytes B) :
  total m → (∀ a, total (k a)) → total (m ≫= k).
Proof.
  intros Hm Hk r. specialize (Hm r). unfold mbind, M_bind. destruct (m r) as [[a| |] r']; [apply Hk|done|done].
Qed.
Lemma total_wrap {A} p (m : M bytes A) : total m → total (wrap_err p m).
Proof. intros Hm r. specialize (Hm r). unfold wrap_err. by destruct (m r) as [[] ?]. Qed.
Lemma total_ret {A} (a : A) : total (mret a).
Proof. done. Qed.
Lemma total_ReadFull n : total (Ser.ReadFull n).
Proof. intros r. unfold Ser.ReadFull. by repeat case_decide. Qed.
Lemma total_byteXReader x : total (Ser.byteXReader x).
Proof.
  unfold Ser.byteXReader. repeat case_decide; [done|apply total_ReadFull|]. intros r. by case_decide.
Qed.
Lemma total_ReadByte : total Ser.ReadByte.
Proof.
  intros r. unfold Ser.ReadByte, Ser.byteXReader. simpl. unfold mbind, M_bind, Ser.ReadFull.
  destruct r as [|x r]; [done|]. rewrite decide_True by (simpl; lia). done.
Qed.
Lemma total_ReadVarUint n : total (Ser.ReadVarUint n).
Proof.
  apply total_bind; [apply total_ReadFull|intros fb]. apply total_bind.
  - repeat case_decide; [apply total_bind; [apply total_ReadFull|done]..|done].
  - intros x. case_decide; [|done]. by intros r.
Qed.

(** [GetValueFromRawStorageItem] inverts
    [GenRawStorageItem] for every value, no stored item is empty, and on arbitrary
    stored bytes the reader returns a value or an error but does not panic. *)
Lemma storage_item_correct (v raw : bytes) :
  blen v < 2 ^ 63 →
  GetValueFromRawStorageItem (GenRawStorageItem v) = Ok v ∧ GenRawStorageItem v ≠ [] ∧
  GetValueFromRawStorageItem raw ≠ Panic.
Proof.
  intros Hv. split_and!; [by apply storage_item_roundtrip|done|].
  unfold GetValueFromRawStorageItem.
  assert (total StorageItem_Deserialize) as Ht.
  { apply total_bind; [do 2 apply total_wrap; apply total_ReadByte|].
    intros b. apply total_bind; [|done]. apply total_wrap, total_bind; [apply total_ReadVarUint|].
      apply total_byteXReader. }
  specialize (Ht raw). by destruct (StorageItem_Deserialize raw) as [[] ?].
Qed.
