(* ===== verification/MerkleUtil.v ===== *)
(** * Bit arithmetic of the merkle trees (merkle/util.go)

    The loops of [countBit] and [highBit] run on [uint32] values; 33 steps of
    fuel are enough for both, which [countBit_popcount] and [highBit_log2] show
    by giving their closed forms.  The rest of the file is the arithmetic of
    splitting a tree at the largest power of two below its size. *)

From S2P Require Import Prelude.

(** ** The code *)

Fixpoint countBit_loop (fuel : nat) (num count : Z) : Z :=
  match fuel with
  | O => count
  | S fuel' =>
      if decide (num = 0) then count
      else countBit_loop fuel' (Z.land num (u32 (num - 1))) (count + 1)
  end.

Definition countBit (num : Z) : Z := countBit_loop 33 num 0.

Definition isPower2 (num : Z) : bool := bool_decide (countBit num = 1).

Fixpoint highBit_loop (fuel : nat) (num hiBit : Z) : Z :=
  match fuel with
  | O => hiBit
  | S fuel' =>
      if decide (num = 0) then hiBit
      else highBit_loop fuel' (Z.shiftr num 1) (hiBit + 1)
  end.

Definition highBit (num : Z) : Z := highBit_loop 33 num 0.

(** [highBit(num & -num)]. *)
Definition lowBit (num : Z) : Z := highBit (Z.land num (u32 (- num))).

(** [uint32(1 << c)] for a [uint] shift count [c]. *)
Definition shl1 (c : Z) : Z := if decide (c < 32) then Z.shiftl 1 c else 0.

(** [k := uint32(1 << (highBit(n-1) - 1))]. *)
Definition split_k (n : Z) : Z := shl1 (u64 (highBit (u32 (n - 1)) - 1)).

(** ** Closed forms *)

Fixpoint popcount (p : positive) : nat :=
  match p with
  | xH => 1
  | xO p => popcount p
  | xI p => S (popcount p)
  end.

Definition Zpopcount (n : Z) : Z :=
  match n with Zpos p => Z.of_nat (popcount p) | _ => 0 end.

Lemma land_double a b : Z.land (2 * a) (2 * b + 1) = 2 * Z.land a b.
Proof.
  apply Z.bits_inj'. intros i Hi. rewrite Z.land_spec.
  destruct (decide (i = 0)) as [->|Hne].
  - by rewrite Z.testbit_even_0, (Z.testbit_even_0 (Z.land a b)).
  - replace i with (Z.succ (i - 1)) by lia.
    rewrite Z.testbit_even_succ, Z.testbit_odd_succ, Z.testbit_even_succ by lia.
    by rewrite Z.land_spec.
Qed.

Lemma land_odd_pred a : Z.land (2 * a + 1) (2 * a) = 2 * a.
Proof.
  apply Z.bits_inj'. intros i Hi. rewrite Z.land_spec.
  destruct (decide (i = 0)) as [->|Hne].
  - by rewrite Z.testbit_even_0, andb_false_r.
  - replace i with (Z.succ (i - 1)) by lia.
    rewrite Z.testbit_odd_succ, Z.testbit_even_succ by lia. by rewrite andb_diag.
Qed.

(** Clearing the lowest set bit removes exactly one bit. *)
Lemma land_pred_popcount p :
  0 ≤ Z.land (Zpos p) (Zpos p - 1) < Zpos p ∧
  Zpopcount (Z.land (Zpos p) (Zpos p - 1)) = Z.of_nat (popcount p) - 1.
Proof.
  induction p as [p IH|p IH|].
  - replace (Zpos p~1 - 1) with (2 * Zpos p) by lia.
    replace (Zpos p~1) with (2 * Zpos p + 1) by lia. rewrite land_odd_pred.
    change (2 * Zpos p) with (Zpos p~0). cbn [Zpopcount popcount]. lia.
  - replace (Zpos p~0 - 1) with (2 * (Zpos p - 1) + 1) by lia.
    change (Zpos p~0) with (2 * Zpos p). rewrite land_double.
    destruct IH as [Hr Hc]. split; [lia|]. cbn [popcount].
    rewrite <- Hc. destruct (Z.land (Zpos p) (Zpos p - 1)) as [|q|q]; [done| |lia].
    done.
  - done.
Qed.

Lemma countBit_loop_spec fuel n c :
  0 ≤ n < 2 ^ 32 → Zpopcount n < Z.of_nat fuel → countBit_loop fuel n c = c + Zpopcount n.
Proof.
  revert n c. induction fuel as [|fuel IH]; intros n c Hn Hf; simpl.
  - destruct n as [|p|p]; simpl in *; lia.
  - case_decide as Hz; [subst; simpl; lia|].
    destruct n as [|p|p]; [lia| |lia].
    pose proof (land_pred_popcount p) as [Hr Hc].
    rewrite uwrap_small by (unfold in_range; lia).
    rewrite IH by (rewrite ?Hc; simpl in *; lia).
    rewrite Hc. simpl. lia.
Qed.

Lemma popcount_bound p k : Zpos p < 2 ^ Z.of_nat k → (popcount p ≤ k)%nat.
Proof.
  revert p. induction k as [|k IH]; intros p Hp; [change (2 ^ Z.of_nat 0) with 1 in Hp; lia|].
  rewrite Nat2Z.inj_succ, Z.pow_succ_r in Hp by lia.
  destruct p as [p|p|]; simpl; [|..|lia].
  - specialize (IH p). lia.
  - specialize (IH p). lia.
Qed.

Lemma popcount_pos p : (0 < popcount p)%nat.
Proof. induction p; simpl; lia. Qed.

Lemma countBit_popcount n : is_u32 n → countBit n = Zpopcount n.
Proof.
  intros Hn. unfold countBit. rewrite countBit_loop_spec; [lia|done|].
  destruct n as [|p|p]; simpl; [lia| |lia].
  pose proof (popcount_bound p 32 (proj2 Hn)). lia.
Qed.

Lemma highBit_loop_spec fuel n c :
  0 ≤ n < 2 ^ Z.of_nat fuel →
  highBit_loop fuel n c = c + (if decide (n = 0) then 0 else Z.log2 n + 1).
Proof.
  revert n c. induction fuel as [|fuel IH]; intros n c Hn; simpl.
  - rewrite decide_True; [lia|]. change (2 ^ Z.of_nat 0) with 1 in Hn. lia.
  - case_decide as Hz; [lia|].
    rewrite Nat2Z.inj_succ, Z.pow_succ_r in Hn by lia.
    rewrite Z.shiftr_div_pow2 by lia. change (2 ^ 1) with 2.
    assert (0 ≤ n / 2 < 2 ^ Z.of_nat fuel) as Hd.
    { split; [apply Z.div_pos; lia|apply Z.div_lt_upper_bound; lia]. }
    rewrite IH by done. case_decide as Hq.
    + assert (n = 1) as -> by (apply Z.div_small_iff in Hq; lia). simpl. lia.
    + assert (Z.log2 n = Z.succ (Z.log2 (n / 2))) as ->; [|lia].
      rewrite <- Z.log2_double by (pose proof (Z.div_pos n 2); lia).
      pose proof (Z.div_mod n 2). pose proof (Z.mod_pos_bound n 2).
      destruct (decide (n mod 2 = 0)).
      * f_equal. lia.
      * replace n with (2 * (n / 2) + 1) at 1 by lia.
        rewrite Z.log2_succ_double, Z.log2_double by lia. done.
Qed.

Lemma highBit_log2 n : is_u32 n → highBit n = if decide (n = 0) then 0 else Z.log2 n + 1.
Proof.
  intros Hn. unfold highBit. rewrite highBit_loop_spec; [done|].
  unfold in_range in Hn. change (Z.of_nat 33) with 33. lia.
Qed.

Lemma split_k_log2 n : 2 ≤ n < 2 ^ 32 → split_k n = 2 ^ Z.log2 (n - 1).
Proof.
  intros Hn. unfold split_k. rewrite (uwrap_small 32) by (unfold in_range; lia).
  rewrite highBit_log2 by (unfold in_range; lia). rewrite decide_False by lia.
  assert (0 ≤ Z.log2 (n - 1) < 32) as Hl.
  { split; [apply Z.log2_nonneg|]. apply Z.log2_lt_pow2; lia. }
  replace (Z.log2 (n - 1) + 1 - 1) with (Z.log2 (n - 1)) by lia.
  rewrite uwrap_small by (unfold in_range; lia).
  unfold shl1. rewrite decide_True by lia. by rewrite Z.shiftl_mul_pow2, Z.mul_1_l by lia.
Qed.

(** ** Splitting a size

    [splits n j]: a tree of [n] leaves splits into [2^j] leaves on the left and
    between one and [2^j] on the right. *)
Definition splits (n j : nat) : Prop := (2 ^ j < n ≤ 2 * 2 ^ j)%nat.

Lemma splits_exists n : (2 ≤ n)%nat → ∃ j, splits n j.
Proof.
  intros Hn. exists (Nat.log2 (n - 1)). unfold splits.
  pose proof (Nat.log2_spec (n - 1)). simpl in *. lia.
Qed.

Lemma pow2_pos j : (1 ≤ 2 ^ j)%nat.
Proof. induction j; simpl; lia. Qed.

Lemma pow2_Z j : Z.of_nat (2 ^ j) = 2 ^ Z.of_nat j.
Proof. by rewrite Nat2Z.inj_pow. Qed.

Lemma splits_log2 n j : splits n j → Nat.log2 (n - 1) = j.
Proof.
  unfold splits. intros. apply Nat.log2_unique; simpl; lia.
Qed.

Lemma split_k_splits n j : splits n j → Z.of_nat n < 2 ^ 32 → split_k (Z.of_nat n) = Z.of_nat (2 ^ j).
Proof.
  intros Hs Hn. pose proof (pow2_pos j). unfold splits in Hs.
  rewrite split_k_log2 by lia. rewrite pow2_Z. f_equal.
  apply Z.log2_unique; [lia|]. rewrite Z.pow_succ_r, <- pow2_Z by lia. lia.
Qed.
