(* ===== verification/MerkleSpec.v ===== *)
(** * The reference merkle tree

    The tree over a list of leaf hashes is split at the largest power of two
    below its size (RFC 6962).  [split_fold] is that recursion; three results are
    read off it: [mth], the root hash; [roots], the roots of the maximal full
    subtrees from left to right; [stored], the hashes of all full subtrees in the
    order in which appending the leaves one by one completes them.  [split_ind]
    is the matching induction principle and the [_app] equations are all the
    components below use of the recursion.  The file also has the hash functions
    of [TreeHasher] (merkle/merkle_hasher.go). *)

From S2P Require Import Prelude Sha256 MerkleUtil.

(** ** Splitting lists *)

Section split.
Context {A : Type}.

Lemma split_ind (P : list A → Prop) :
  P [] → (∀ h, P [h]) →
  (∀ j l1 l2, length l1 = (2 ^ j)%nat → (0 < length l2 ≤ 2 ^ j)%nat → P l1 → P l2 → P (l1 ++ l2)) →
  ∀ l, P l.
Proof.
  intros H0 H1 Happ l. remember (length l) as n eqn:Hn.
  revert l Hn. induction n as [n IH] using lt_wf_ind. intros l Hn.
  destruct l as [|h1 [|h2 l']]; [done|done|]. remember (h1 :: h2 :: l') as l.
  assert (2 ≤ n)%nat by (subst; simpl; lia).
  destruct (splits_exists n) as [j Hj]; [done|]. unfold splits in Hj. pose proof (pow2_pos j).
  rewrite <- (take_drop (2 ^ j) l). apply Happ with j.
  - rewrite length_take. lia.
  - rewrite length_drop. lia.
  - eapply IH; [|done]. rewrite length_take. lia.
  - eapply IH; [|done]. rewrite length_drop. lia.
Qed.

Context {B : Type} (e : B) (one : A → B) (join : nat → nat → B → B → B).

Fixpoint split_rec (fuel : nat) (l : list A) : B :=
  match fuel with
  | O => e
  | S fuel' =>
      match l with
      | [] => e
      | [h] => one h
      | _ =>
          let k := (2 ^ Nat.log2 (length l - 1))%nat in
          join k (length l - k) (split_rec fuel' (take k l)) (split_rec fuel' (drop k l))
      end
  end.

Definition split_fold (l : list A) : B := split_rec (length l) l.

Lemma split_rec_app fuel j l1 l2 :
  length l1 = (2 ^ j)%nat → (0 < length l2 ≤ 2 ^ j)%nat →
  split_rec (S fuel) (l1 ++ l2) =
    join (length l1) (length l2) (split_rec fuel l1) (split_rec fuel l2).
Proof.
  intros H1 H2. pose proof (pow2_pos j).
  assert (Nat.log2 (length (l1 ++ l2) - 1) = j) as Hj.
  { apply splits_log2. unfold splits. rewrite length_app. lia. }
  assert (∃ a b l, l1 ++ l2 = a :: b :: l) as (a & b & l & E).
  { destruct l1 as [|a [|b l1]]; simpl in *; [lia| |by eauto].
    destruct l2 as [|b l2]; simpl in *; [lia|by eauto]. }
  cbn [split_rec]. rewrite E at 1. rewrite Hj, <- H1.
  rewrite take_app_length, drop_app_length, length_app.
  by replace (length l1 + length l2 - length l1)%nat with (length l2) by lia.
Qed.

Lemma split_rec_fuel fuel l : (length l ≤ fuel)%nat → split_rec fuel l = split_fold l.
Proof.
  unfold split_fold. revert fuel. induction l as [|h|j l1 l2 H1 H2 IH1 IH2] using split_ind.
  - by intros [|fuel].
  - intros [|fuel] Hf; [simpl in Hf; lia|done].
  - pose proof (pow2_pos j). intros fuel Hf. rewrite length_app in *.
    destruct fuel as [|fuel]; [lia|]. rewrite (split_rec_app _ j) by done.
    destruct (length l1 + length l2)%nat as [|n] eqn:En; [lia|].
    rewrite (split_rec_app _ j) by done.
    by rewrite !(IH1 fuel), !(IH2 fuel), (IH1 n), (IH2 n) by lia.
Qed.

Lemma split_fold_app j l1 l2 :
  length l1 = (2 ^ j)%nat → (0 < length l2 ≤ 2 ^ j)%nat →
  split_fold (l1 ++ l2) = join (length l1) (length l2) (split_fold l1) (split_fold l2).
Proof.
  intros H1 H2. rewrite <- (split_rec_fuel (S (length (l1 ++ l2)))) by lia.
  rewrite (split_rec_app _ j) by done. rewrite !split_rec_fuel; [done|rewrite length_app; lia..].
Qed.

End split.

(** ** Hashing *)

Section hasher.
Context `{Hasher}.

Definition hash_empty : Uint256 := Sum256 [].
Definition hash_leaf (data : bytes) : Uint256 := Sum256 (byte_of_Z 0 :: data).
Definition hash_children (left right : Uint256) : Uint256 :=
  Sum256 (byte_of_Z 1 :: to_slice left ++ to_slice right).

(** The messages behind [hash_leaf] and [hash_children]. *)
Definition leaf_msg (data : bytes) : bytes := byte_of_Z 0 :: data.
Definition children_msg (left right : Uint256) : bytes :=
  byte_of_Z 1 :: to_slice left ++ to_slice right.

(** ** The three results *)

Definition mth (l : list Uint256) : Uint256 :=
  split_fold hash_empty id (λ _ _, hash_children) l.

Definition roots_join (n1 n2 : nat) (a b : Uint256 * list Uint256) : Uint256 * list Uint256 :=
  let r := hash_children a.1 b.1 in
  (r, if decide (n1 = n2) then [r] else a.2 ++ b.2).
Definition roots_pair (l : list Uint256) : Uint256 * list Uint256 :=
  split_fold (hash_empty, []) (λ h, (h, [h])) roots_join l.
Definition roots (l : list Uint256) : list Uint256 := (roots_pair l).2.

Definition stored_join (n1 n2 : nat) (a b : Uint256 * list Uint256) : Uint256 * list Uint256 :=
  let r := hash_children a.1 b.1 in
  (r, a.2 ++ b.2 ++ if decide (n1 = n2) then [r] else []).
Definition stored_pair (l : list Uint256) : Uint256 * list Uint256 :=
  split_fold (hash_empty, []) (λ h, (h, [h])) stored_join l.
Definition stored (l : list Uint256) : list Uint256 := (stored_pair l).2.

(** The messages that are hashed to build the tree over the leaf hashes [l]. *)
Definition msgs_join (n1 n2 : nat) (a b : Uint256 * list bytes) : Uint256 * list bytes :=
  (hash_children a.1 b.1, a.2 ++ b.2 ++ [children_msg a.1 b.1]).
Definition msgs_pair (l : list Uint256) : Uint256 * list bytes :=
  split_fold (hash_empty, [[]]) (λ h, (h, [])) msgs_join l.
Definition node_msgs (l : list Uint256) : list bytes := (msgs_pair l).2.

Lemma mth_app j l1 l2 :
  length l1 = (2 ^ j)%nat → (0 < length l2 ≤ 2 ^ j)%nat →
  mth (l1 ++ l2) = hash_children (mth l1) (mth l2).
Proof. intros. unfold mth. by rewrite (split_fold_app _ _ _ j). Qed.

Lemma roots_pair_fst l : (roots_pair l).1 = mth l.
Proof.
  unfold roots_pair, mth. induction l as [| |j l1 l2 H1 H2 IH1 IH2] using split_ind; [done..|].
  rewrite !(split_fold_app _ _ _ j) by done. simpl. by rewrite IH1, IH2.
Qed.

Lemma stored_pair_fst l : (stored_pair l).1 = mth l.
Proof.
  unfold stored_pair, mth. induction l as [| |j l1 l2 H1 H2 IH1 IH2] using split_ind; [done..|].
  rewrite !(split_fold_app _ _ _ j) by done. simpl. by rewrite IH1, IH2.
Qed.

Lemma msgs_pair_fst l : (msgs_pair l).1 = mth l.
Proof.
  unfold msgs_pair, mth. induction l as [| |j l1 l2 H1 H2 IH1 IH2] using split_ind; [done..|].
  rewrite !(split_fold_app _ _ _ j) by done. simpl. by rewrite IH1, IH2.
Qed.

Lemma node_msgs_app j l1 l2 :
  length l1 = (2 ^ j)%nat → (0 < length l2 ≤ 2 ^ j)%nat →
  node_msgs (l1 ++ l2) = node_msgs l1 ++ node_msgs l2 ++ [children_msg (mth l1) (mth l2)].
Proof.
  intros H1 H2. unfold node_msgs. rewrite <- !msgs_pair_fst. unfold msgs_pair.
  by rewrite (split_fold_app _ _ _ j) by done.
Qed.

Lemma roots_app j l1 l2 :
  length l1 = (2 ^ j)%nat → (0 < length l2 ≤ 2 ^ j)%nat →
  roots (l1 ++ l2) =
    if decide (length l1 = length l2) then [mth (l1 ++ l2)] else roots l1 ++ roots l2.
Proof.
  intros H1 H2. unfold roots. rewrite (mth_app j) by done.
  rewrite <- !roots_pair_fst. unfold roots_pair.
  rewrite (split_fold_app _ _ _ j) by done. done.
Qed.

Lemma stored_app j l1 l2 :
  length l1 = (2 ^ j)%nat → (0 < length l2 ≤ 2 ^ j)%nat →
  stored (l1 ++ l2) =
    stored l1 ++ stored l2 ++ if decide (length l1 = length l2) then [mth (l1 ++ l2)] else [].
Proof.
  intros H1 H2. unfold stored. rewrite (mth_app j) by done.
  rewrite <- !stored_pair_fst. unfold stored_pair.
  rewrite (split_fold_app _ _ _ j) by done. done.
Qed.

(** A full tree is its own only root. *)
Lemma roots_full j l : length l = (2 ^ j)%nat → roots l = [mth l].
Proof.
  destruct j as [|j]; intros Hl.
  - destruct l as [|h [|]]; done.
  - pose proof (pow2_pos j). simpl in Hl. rewrite <- (take_drop (2 ^ j) l).
    rewrite (roots_app j) by (rewrite ?length_take, ?length_drop; lia).
    by rewrite decide_True by (rewrite length_take, length_drop; lia).
Qed.

Lemma roots_app_lt j l1 l2 :
  length l1 = (2 ^ j)%nat → (length l2 < 2 ^ j)%nat → roots (l1 ++ l2) = mth l1 :: roots l2.
Proof.
  intros H1 H2. destruct l2 as [|h l2].
  - rewrite app_nil_r. by rewrite (roots_full j).
  - rewrite (roots_app j) by (simpl in *; lia). rewrite decide_False by lia.
    by rewrite (roots_full j).
Qed.

Lemma stored_app_lt j l1 l2 :
  length l1 = (2 ^ j)%nat → (length l2 < 2 ^ j)%nat → stored (l1 ++ l2) = stored l1 ++ stored l2.
Proof.
  intros H1 H2. destruct l2 as [|h l2].
  - by rewrite !app_nil_r.
  - rewrite (stored_app j) by (simpl in *; lia). rewrite decide_False by lia. by rewrite app_nil_r.
Qed.

Lemma stored_app_full j l1 l2 :
  length l1 = (2 ^ j)%nat → length l2 = (2 ^ j)%nat →
  stored (l1 ++ l2) = stored l1 ++ stored l2 ++ [mth (l1 ++ l2)].
Proof.
  intros H1 H2. pose proof (pow2_pos j). rewrite (stored_app j) by lia.
  by rewrite decide_True by lia.
Qed.

Lemma length_stored_full j l : length l = (2 ^ j)%nat → length (stored l) = (2 * 2 ^ j - 1)%nat.
Proof.
  revert l. induction j as [|j IH]; intros l Hl.
  - destruct l as [|h [|]]; done.
  - pose proof (pow2_pos j). simpl in Hl. rewrite <- (take_drop (2 ^ j) l).
    rewrite (stored_app_full j) by (rewrite ?length_take, ?length_drop; lia).
    rewrite !length_app, !IH by (rewrite ?length_take, ?length_drop; lia). simpl. lia.
Qed.

(** The root of a full tree is stored last. *)
Lemma stored_full_last j l : length l = (2 ^ j)%nat → last (stored l) = Some (mth l).
Proof.
  destruct j as [|j]; intros Hl.
  - destruct l as [|h [|]]; done.
  - pose proof (pow2_pos j). simpl in Hl. rewrite <- (take_drop (2 ^ j) l).
    rewrite (stored_app_full j) by (rewrite ?length_take, ?length_drop; lia).
    by rewrite app_assoc, last_snoc.
Qed.

End hasher.
