(* ===== verification/MerkleHasher.v ===== *)
(** * Tree hashing and leaf paths (merkle/merkle_hasher.go)

    The code's [TreeHasher._hash_full] with its panics, [_hash_fold],
    [MerkleHashes] (the level-by-level tree), [MerkleLeafPath] and [MerkleProve].
    A block commits to its cross-chain requests with [HashFullTreeWithLeafHash]
    and hands out proofs with [MerkleLeafPath]; the theorems are that the two
    constructions give the same root, that every request in the block has a path
    which [MerkleProve] accepts, and that a path accepted against the root proves
    a request of the block, or else exhibits a collision of the hash function between the messages
    hashed on the two sides. *)

From S2P Require Import Prelude Sha256 Sink Source MerkleUtil MerkleSpec.

Section merkle_hasher.
Context `{Hasher}.

(** ** The code *)

(** [_hash_full(leaves, l_idx, r_idx)]; [None] is a panic.  The recursion is on
    the width, so the number of leaves plus one is enough fuel. *)
Fixpoint hash_full (fuel : nat) (leaves : list Uint256) (l_idx r_idx : Z)
    : option (Uint256 * list Uint256) :=
  match fuel with
  | O => None
  | S fuel' =>
      let width := u32 (r_idx - l_idx) in
      if decide (width = 0) then Some (hash_empty, [])
      else if decide (width = 1) then
        leaf_hash ← leaves !! Z.to_nat l_idx;
        Some (leaf_hash, [leaf_hash])
      else
        let split_width := split_k width in
        '(l_root, l_hashes) ← hash_full fuel' leaves l_idx (u32 (l_idx + split_width));
        if decide (length l_hashes ≠ 1%nat) then None else
        '(r_root, r_hashes) ← hash_full fuel' leaves (u32 (l_idx + split_width)) r_idx;
        let root_hash := hash_children l_root r_root in
        if decide (u32 (split_width * 2) = width)
        then Some (root_hash, [root_hash])
        else Some (root_hash, l_hashes ++ r_hashes)
  end.

Definition HashFullTreeWithLeafHash (leaves : list Uint256) : option Uint256 :=
  let length_ := u32 (blen leaves) in
  '(root_hash, hashes) ← hash_full (S (length leaves)) leaves 0 length_;
  if decide (blen hashes ≠ countBit length_) then None else Some root_hash.

Definition HashFullTree (leaves : list bytes) : option Uint256 :=
  HashFullTreeWithLeafHash (hash_leaf <$> leaves).

(** [_hash_fold]: panics on the empty slice. *)
Definition hash_fold (hashes : list Uint256) : option Uint256 :=
  match reverse hashes with
  | [] => None
  | accum :: rest => Some (foldl (λ accum h, hash_children h accum) accum rest)
  end.

Definition HashLeaf (data : bytes) : Uint256 := Sum256 (byte_of_Z 0 :: data).
Definition HashChildren (left right : Uint256) : Uint256 :=
  Sum256 (byte_of_Z 1 :: to_slice left ++ to_slice right).

Definition LEFT : byte := byte_of_Z 0.
Definition RIGHT : byte := byte_of_Z 1.
Definition MAX_SIZE : Z := 1024 * 1024.

(** [depth(n)]: the value of [ceil(log2(n))], which the floating-point
    computation of the code gives exactly for the sizes below [MAX_SIZE]. *)
Definition depth (n : Z) : Z := Z.log2_up n.

(** The first index holding [leaf], or [-1]. *)
Fixpoint getIndex_from (i : Z) (leaf : Uint256) (hashes : list Uint256) : Z :=
  match hashes with
  | [] => -1
  | v :: rest => if decide (v = leaf) then i else getIndex_from (i + 1) leaf rest
  end.
Definition getIndex (leaf : Uint256) (hashes : list Uint256) : Z := getIndex_from 0 leaf hashes.

(** One round of [MerkleHashes]: pairs are hashed, an odd last node moves up. *)
Fixpoint nextLevel (level : list Uint256) : list Uint256 :=
  match level with
  | l :: r :: rest => HashChildren l r :: nextLevel rest
  | _ => level
  end.

(** [MerkleHashes(preLeaves, depth)]: element [i] of the result is [levels[i]]. *)
Fixpoint MerkleHashes (preLeaves : list Uint256) (depth : nat) : list (list Uint256) :=
  match depth with
  | O => [preLeaves]
  | S d => MerkleHashes (nextLevel preLeaves) d ++ [preLeaves]
  end.

(** The loop of [MerkleLeafPath]: the writes for levels [i .. 1]. *)
Fixpoint leaf_path_loop (merkleTree : list (list Uint256)) (i : nat) (index : Z)
    : option (list sink_op) :=
  match i with
  | O => Some []
  | S i' =>
      subTree ← merkleTree !! i;
      let subLen := blen subTree in
      let nIndex := index / 2 in
      if decide (index = subLen - 1 ∧ subLen mod 2 ≠ 0) then
        leaf_path_loop merkleTree i' nIndex
      else if decide (index mod 2 ≠ 0) then
        v ← subTree !! Z.to_nat (index - 1);
        rest ← leaf_path_loop merkleTree i' nIndex;
        Some (OpByte LEFT :: OpHash v :: rest)
      else
        v ← subTree !! Z.to_nat (index + 1);
        rest ← leaf_path_loop merkleTree i' nIndex;
        Some (OpByte RIGHT :: OpHash v :: rest)
  end.

Definition MerkleLeafPath (data : bytes) (hashes : list Uint256) : res bytes :=
  let size := blen hashes * (UINT256_SIZE + 1) + blen data + 8 in
  if decide (MAX_SIZE < size) then Err "data length over max value" else
  let index := getIndex (HashLeaf data) hashes in
  if decide (index < 0) then Err "values doesn't exist!" else
  let d := Z.to_nat (depth (blen hashes)) in
  match leaf_path_loop (MerkleHashes hashes d) d index with
  | Some ops => Ok (enc_ops (OpVarBytes data :: ops))
  | None => Panic
  end.

Fixpoint prove_loop (size : nat) (hash : Uint256) : M ZeroCopySource Uint256 :=
  match size with
  | O => mret hash
  | S size' =>
      f ← must "read byte error" NextByte;
      v ← must "read hash error" NextHash;
      prove_loop size'
        (if decide (f = LEFT) then HashChildren v hash else HashChildren hash v)
  end.

Definition MerkleProve_M (root : bytes) : M ZeroCopySource bytes :=
  value ← must "read bytes error" NextVarBytes;
  let hash := HashLeaf value in
  total ← src_Size;
  pos ← src_Pos;
  let size := Z.to_nat (u64 (total - pos) / (UINT256_SIZE + 1)) in
  hash ← prove_loop size hash;
  if decide (to_slice hash = root) then mret value
  else fail "expect root is not equal actual root".

Definition MerkleProve (path root : bytes) : res bytes :=
  (MerkleProve_M root (NewZeroCopySource path)).1.

(** ** [_hash_full] computes the reference tree *)

Lemma Zpopcount_double n b : 0 ≤ n → (b = 0 ∨ b = 1) → Zpopcount (2 * n + b) = Zpopcount n + b.
Proof.
  intros Hn [-> | ->].
  - rewrite !Z.add_0_r. destruct n as [|p|p]; [done|done|lia].
  - destruct n as [|p|p]; [done| |lia].
    change (2 * Zpos p + 1) with (Zpos p~1). cbn [Zpopcount popcount]. lia.
Qed.

Lemma Zpopcount_add j m : 0 ≤ m < 2 ^ Z.of_nat j → Zpopcount (2 ^ Z.of_nat j + m) = 1 + Zpopcount m.
Proof.
  revert m. induction j as [|j IH]; intros m Hm.
  - change (2 ^ Z.of_nat 0) with 1 in *. by replace m with 0 by lia.
  - rewrite Nat2Z.inj_succ, Z.pow_succ_r in * by lia.
    pose proof (Z.div_mod m 2). pose proof (Z.mod_pos_bound m 2).
    assert (0 ≤ m / 2 < 2 ^ Z.of_nat j).
    { split; [apply Z.div_pos; lia|apply Z.div_lt_upper_bound; lia]. }
    replace m with (2 * (m / 2) + m mod 2) by lia.
    replace (2 * 2 ^ Z.of_nat j + (2 * (m / 2) + m mod 2))
      with (2 * (2 ^ Z.of_nat j + m / 2) + m mod 2) by lia.
    rewrite !Zpopcount_double, IH by lia. lia.
Qed.

(** There is one root for each bit of the size. *)
Lemma length_roots l : blen (roots l) = Zpopcount (blen l).
Proof.
  induction l as [| |j l1 l2 H1 H2 IH1 IH2] using split_ind; [done..|].
  destruct (decide (length l2 = (2 ^ j)%nat)) as [He|Hne].
  - rewrite (roots_full (S j)) by (rewrite length_app; simpl; lia).
    rewrite length_app, H1, He. replace (2 ^ j + 2 ^ j)%nat with (2 ^ S j)%nat by (simpl; lia).
    rewrite pow2_Z. pose proof (Zpopcount_add (S j) 0) as Hp. rewrite Z.add_0_r in Hp.
    rewrite Hp by lia. done.
  - rewrite (roots_app_lt j) by lia. rewrite length_app, Nat2Z.inj_add, H1, pow2_Z.
    rewrite Zpopcount_add by (rewrite <- pow2_Z; lia). cbn [length]. lia.
Qed.

Lemma Zpopcount_pos n : 0 < n → 0 < Zpopcount n.
Proof.
  destruct n as [|p|p]; [lia| |lia]. intros _. cbn [Zpopcount].
  pose proof (popcount_pos p). lia.
Qed.

Lemma roots_nil l : roots l = [] → l = [].
Proof.
  intros Hr. pose proof (length_roots l) as Hl. rewrite Hr in Hl. destruct l as [|h l]; [done|].
  pose proof (Zpopcount_pos (blen (h :: l))) as Hp. simpl in *. lia.
Qed.

Lemma length_roots_full j l : length l = (2 ^ j)%nat → length (roots l) = 1%nat.
Proof. intros. by rewrite (roots_full j). Qed.

(** A power of two below [2^32] whose double is not below it is [2^31]. *)
Lemma pow2_double_bound j : 0 ≤ j → 2 ^ j < 2 ^ 32 → ¬ 2 ^ j * 2 < 2 ^ 32 → 2 ^ j * 2 = 2 ^ 32.
Proof.
  intros Hj Hlt Hge. rewrite Z.mul_comm, <- Z.pow_succ_r in * by lia.
  apply Z.pow_lt_mono_r_iff in Hlt; [|lia..].
  assert (¬ Z.succ j < 32) by (intros Hs; apply Hge, Z.pow_lt_mono_r; lia).
  by replace (Z.succ j) with 32 by lia.
Qed.

Lemma hash_full_segment fuel pre l post :
  (length l < fuel)%nat → blen (pre ++ l ++ post) < 2 ^ 32 →
  hash_full fuel (pre ++ l ++ post) (blen pre) (blen pre + blen l) = Some (mth l, roots l).
Proof.
  revert fuel pre post. induction l as [|h|j l1 l2 H1 H2 IH1 IH2] using split_ind;
    intros fuel pre post Hf Hlen; (destruct fuel as [|fuel]; [lia|]); cbn [hash_full].
  - rewrite Z.add_simpl_l. by rewrite uwrap_small.
  - rewrite Z.add_simpl_l. rewrite uwrap_small by done. cbn [decide].
    rewrite decide_False, decide_True by done.
    rewrite Nat2Z.id. cbn [app]. by rewrite list_lookup_middle.
  - pose proof (pow2_pos j). rewrite !length_app in Hlen. rewrite !length_app in Hf.
    rewrite Z.add_simpl_l. rewrite uwrap_small by (unfold in_range; rewrite length_app; lia).
    rewrite decide_False, decide_False by (rewrite length_app; lia).
    rewrite (split_k_splits _ j) by (unfold splits; rewrite length_app; lia).
    rewrite <- H1. rewrite (uwrap_small 32 (blen pre + blen l1)) by (unfold in_range; lia).
    replace (pre ++ (l1 ++ l2) ++ post) with (pre ++ l1 ++ l2 ++ post) by (by rewrite (app_assoc l1)).
    rewrite IH1 by (rewrite ?length_app; lia). cbn [mbind option_bind].
    rewrite decide_False by (rewrite (length_roots_full j); auto).
    replace (pre ++ l1 ++ l2 ++ post) with ((pre ++ l1) ++ l2 ++ post) by (by rewrite <- (app_assoc pre)).
    replace (blen pre + blen l1) with (blen (pre ++ l1)) by (rewrite length_app; lia).
    replace (blen pre + blen (l1 ++ l2)) with (blen (pre ++ l1) + blen l2) by (rewrite !length_app; lia).
    rewrite IH2 by (rewrite ?length_app; lia). cbn [mbind option_bind].
    rewrite (mth_app j), (roots_app j) by lia. rewrite length_app.
    assert (u32 (blen l1 * 2) = Z.of_nat (length l1 + length l2) ↔ length l1 = length l2) as Hiff.
    { destruct (decide (blen l1 * 2 < 2 ^ 32)).
      - rewrite uwrap_small by (unfold in_range; lia). lia.
      - pose proof (pow2_double_bound (Z.of_nat j)) as Hd. rewrite <- pow2_Z, <- H1 in Hd.
        rewrite Hd by lia.
        change (u32 (2 ^ 32)) with 0. lia. }
    repeat case_decide; try tauto. by rewrite (mth_app j) by lia.
Qed.

Lemma hash_full_whole l :
  blen l < 2 ^ 32 → hash_full (S (length l)) l 0 (blen l) = Some (mth l, roots l).
Proof.
  intros Hl. pose proof (hash_full_segment (S (length l)) [] l []) as E.
  rewrite app_nil_r in E. simpl in E. apply E; [lia|done].
Qed.

Lemma HashFullTree_mth l : blen l < 2 ^ 32 → HashFullTreeWithLeafHash l = Some (mth l).
Proof.
  intros Hl. unfold HashFullTreeWithLeafHash. rewrite uwrap_small by (unfold in_range; lia).
  rewrite hash_full_whole by done. cbn [mbind option_bind].
  rewrite decide_False; [done|]. rewrite countBit_popcount by (unfold in_range; lia).
  rewrite length_roots. lia.
Qed.

Lemma hash_fold_cons h l : l ≠ [] → hash_fold (h :: l) = (λ a, hash_children h a) <$> hash_fold l.
Proof.
  intros Hl. unfold hash_fold. rewrite reverse_cons.
  destruct (reverse l) as [|a r] eqn:E.
  - apply (f_equal reverse) in E. rewrite reverse_involutive in E. done.
  - cbn [app]. by rewrite foldl_snoc.
Qed.

(** Folding the roots from the right gives the root of the tree. *)
Lemma hash_fold_roots l : l ≠ [] → hash_fold (roots l) = Some (mth l).
Proof.
  induction l as [| |j l1 l2 H1 H2 IH1 IH2] using split_ind; intros Hne; [done|done|].
  destruct (decide (length l2 = (2 ^ j)%nat)) as [He|Hlt].
  - by rewrite (roots_full (S j)) by (rewrite length_app; simpl; lia).
  - rewrite (roots_app_lt j) by lia. rewrite hash_fold_cons, IH2, (mth_app j); try done.
    + intros ->. simpl in *. lia.
    + intros Hr. apply roots_nil in Hr. subst. simpl in *. lia.
Qed.

(** ** Level by level: the same root *)

Lemma nextLevel_app l1 l2 : Nat.Even (length l1) → nextLevel (l1 ++ l2) = nextLevel l1 ++ nextLevel l2.
Proof.
  intros [k Hk]. revert l1 Hk. induction k as [|k IH]; intros l1 Hk.
  - destruct l1; [done|simpl in *; lia].
  - destruct l1 as [|a [|b l1]]; simpl in *; [lia|lia|]. f_equal. apply IH. lia.
Qed.

Lemma nextLevel_lookup l i :
  nextLevel l !! i =
    match l !! (2 * i)%nat, l !! (2 * i + 1)%nat with
    | Some a, Some b => Some (HashChildren a b)
    | Some a, None => Some a
    | None, _ => None
    end.
Proof.
  revert l. induction i as [|i IH]; intros l.
  - by destruct l as [|a [|b l]].
  - replace (2 * S i)%nat with (S (S (2 * i)))%nat by lia.
    replace (S (S (2 * i)) + 1)%nat with (S (S (2 * i + 1)))%nat by lia.
    destruct l as [|a [|b l]]; [done..|]. cbn [nextLevel lookup list_lookup]. apply IH.
Qed.

Lemma length_nextLevel n l : (length l ≤ 2 * n)%nat → (length (nextLevel l) ≤ n)%nat.
Proof.
  revert l. induction n as [|n IH]; intros l Hl.
  - destruct l; simpl in *; lia.
  - destruct l as [|a [|b l]]; simpl in *; [lia..|]. apply le_n_S, IH. lia.
Qed.

Lemma length_nextLevel_even n l : length l = (2 * n)%nat → length (nextLevel l) = n.
Proof.
  revert l. induction n as [|n IH]; intros l Hl.
  - destruct l; simpl in *; [done|lia].
  - destruct l as [|a [|b l]]; simpl in *; [lia..|]. f_equal. apply IH. lia.
Qed.

Lemma nextLevel_nonempty l : l ≠ [] → (0 < length (nextLevel l))%nat.
Proof. destruct l as [|a [|b l]]; [done|simpl; lia..]. Qed.

Lemma mth_nextLevel l : l ≠ [] → mth (nextLevel l) = mth l.
Proof.
  induction l as [| |j l1 l2 H1 H2 IH1 IH2] using split_ind; intros Hne; [done..|].
  pose proof (pow2_pos j).
  destruct j as [|j].
  - destruct l1 as [|a [|]], l2 as [|b [|]]; simpl in *; try lia. by rewrite (mth_app 0 [a] [b]).
  - simpl in H1, H2. pose proof (pow2_pos j).
    rewrite nextLevel_app by (exists (2 ^ j)%nat; lia).
    rewrite (mth_app (S j) l1 l2) by (simpl; lia). rewrite (mth_app j).
    + by rewrite IH1, IH2 by (intros ->; simpl in *; lia).
    + apply length_nextLevel_even. lia.
    + split; [apply nextLevel_nonempty; intros ->; simpl in *; lia|]. apply length_nextLevel. lia.
Qed.

Lemma length_MerkleHashes l d : length (MerkleHashes l d) = S d.
Proof.
  revert l. induction d as [|d IH]; intros l; [done|]. simpl. rewrite length_app, IH. simpl. lia.
Qed.

(** ** Paths *)

Definition path_step (hash : Uint256) (fv : byte * Uint256) : Uint256 :=
  if decide (fv.1 = LEFT) then HashChildren fv.2 hash else HashChildren hash fv.2.

Definition path_root (leaf : Uint256) (p : list (byte * Uint256)) : Uint256 := foldl path_step leaf p.

Definition path_ops (p : list (byte * Uint256)) : list sink_op :=
  mjoin ((λ fv, [OpByte fv.1; OpHash fv.2]) <$> p).

Lemma leaf_path_loop_snoc tree l i index :
  (i < length tree)%nat → leaf_path_loop (tree ++ [l]) i index = leaf_path_loop tree i index.
Proof.
  revert index. induction i as [|i IH]; intros index Hi; [done|]. cbn [leaf_path_loop].
  rewrite lookup_app_l by lia. destruct (tree !! S i); [|done]. cbn [mbind option_bind].
  by rewrite IH by lia.
Qed.

(** What one level contributes: the node above [h] is [h] itself or one hashing
    step with the sibling that the loop writes out. *)
Lemma leaf_path_loop_step l d (index : nat) h :
  l !! index = Some h →
  ∃ q, (length q ≤ 1)%nat ∧
    (∀ tree rest, tree !! S d = Some l →
       leaf_path_loop tree d (Z.of_nat index / 2) = Some rest →
       leaf_path_loop tree (S d) (Z.of_nat index) = Some (path_ops q ++ rest)) ∧
    nextLevel l !! (index / 2)%nat = Some (path_root h q).
Proof.
  intros Hh. pose proof (lookup_lt_Some _ _ _ Hh) as Hlt.
  pose proof (Nat.div_mod_eq index 2) as Hd. pose proof (Nat.mod_upper_bound index 2) as Hm.
  assert (Z.of_nat index mod 2 = Z.of_nat (index mod 2)) as Hzm by (by rewrite Nat2Z.inj_mod).
  rewrite nextLevel_lookup.
  destruct (decide (index mod 2 = 0)%nat) as [He|Ho].
  - replace (2 * (index / 2))%nat with index by lia. rewrite Hh.
    destruct (l !! (index + 1)%nat) as [v|] eqn:Hv.
    + pose proof (lookup_lt_Some _ _ _ Hv). exists [(RIGHT, v)]. split_and!; [simpl; lia| |done].
      intros tree rest Ht Hr. cbn [leaf_path_loop]. rewrite Ht. cbn [mbind option_bind].
      rewrite decide_False by lia. rewrite decide_False by lia.
      replace (Z.to_nat (Z.of_nat index + 1)) with (index + 1)%nat by lia.
      rewrite Hv. cbn [mbind option_bind]. by rewrite Hr.
    + apply lookup_ge_None in Hv. exists []. split_and!; [simpl; lia| |done].
      intros tree rest Ht Hr. cbn [leaf_path_loop]. rewrite Ht. cbn [mbind option_bind].
      rewrite decide_True; [done|]. split; [lia|].
      replace (blen l) with (Z.of_nat index + 1) by lia. rewrite <- Zplus_mod_idemp_l, Hzm, He.
      done.
  - replace (2 * (index / 2) + 1)%nat with index by lia. rewrite Hh.
    destruct (l !! (2 * (index / 2))%nat) as [v|] eqn:Hv; [|apply lookup_ge_None in Hv; lia].
    exists [(LEFT, v)]. split_and!; [simpl; lia| |done].
    intros tree rest Ht Hr. cbn [leaf_path_loop]. rewrite Ht. cbn [mbind option_bind].
    rewrite decide_False.
    + rewrite decide_True by lia.
      replace (Z.to_nat (Z.of_nat index - 1)) with (2 * (index / 2))%nat by lia.
      rewrite Hv. cbn [mbind option_bind]. by rewrite Hr.
    + intros [Hi Hodd]. apply Hodd. replace (blen l) with (Z.of_nat index + 1) by lia.
      rewrite <- Zplus_mod_idemp_l, Hzm. by replace (index mod 2)%nat with 1%nat by lia.
Qed.

Lemma path_ops_app p q : path_ops (p ++ q) = path_ops p ++ path_ops q.
Proof. unfold path_ops. by rewrite fmap_app, join_app. Qed.

Lemma leaf_path_loop_root d l index h :
  (length l ≤ 2 ^ d)%nat → l !! index = Some h →
  ∃ p, (length p ≤ d)%nat ∧
    leaf_path_loop (MerkleHashes l d) d (Z.of_nat index) = Some (path_ops p) ∧
    path_root h p = mth l.
Proof.
  revert l index h. induction d as [|d IH]; intros l index h Hl Hh.
  - exists []. destruct l as [|a [|]]; simpl in Hl; [done| |lia].
    destruct index; simplify_eq/=. done.
  - destruct (leaf_path_loop_step l d index h Hh) as (q & Hq & Hloop & Hup).
    destruct (IH _ _ _ (length_nextLevel (2 ^ d) l ltac:(simpl in Hl; lia)) Hup)
      as (p & Hp & Hrest & Hroot).
    assert (l ≠ []) as Hne by (by intros ->).
    exists (q ++ p). split_and!.
    + rewrite length_app. lia.
    + cbn [MerkleHashes]. rewrite path_ops_app. apply Hloop.
      * rewrite lookup_app_r, length_MerkleHashes, Nat.sub_diag by (rewrite length_MerkleHashes; lia). done.
      * rewrite leaf_path_loop_snoc by (rewrite length_MerkleHashes; lia).
        change 2 with (Z.of_nat 2). by rewrite <- Nat2Z.inj_div.
    + unfold path_root in *. rewrite foldl_app, Hroot. by apply mth_nextLevel.
Qed.

(** ** Proving a path *)

Lemma decodes_prove_loop p hash :
  decodes (prove_loop (length p) hash) (enc_ops (path_ops p)) (path_root hash p).
Proof.
  revert hash. induction p as [|[f v] p IH]; intros hash; [apply decodes_ret|].
  change (path_ops ((f, v) :: p)) with (OpByte f :: OpHash v :: path_ops p).
  rewrite !enc_ops_cons. cbn [length prove_loop enc_op].
  eapply decodes_must_bind; [auto with codec|].
  eapply decodes_must_bind; [auto with codec|]. apply IH.
Qed.

Lemma length_path_ops p : blen (enc_ops (path_ops p)) = 33 * blen p.
Proof.
  induction p as [|[f v] p IH]; [done|].
  change (path_ops ((f, v) :: p)) with (OpByte f :: OpHash v :: path_ops p).
  rewrite !enc_ops_cons, !length_app. cbn [enc_op length]. rewrite length_to_slice. lia.
Qed.

Lemma MerkleProve_encoded data p root :
  blen (enc_ops (OpVarBytes data :: path_ops p)) < 2 ^ 63 →
  MerkleProve (enc_ops (OpVarBytes data :: path_ops p)) root =
    if decide (to_slice (path_root (HashLeaf data) p) = root) then Ok data
    else Err "expect root is not equal actual root".
Proof.
  rewrite enc_ops_cons. cbn [enc_op]. set (hd := enc_varuint _ ++ data).
  intros Hlen. unfold MerkleProve, MerkleProve_M, NewZeroCopySource.
  pose proof (decodes_must "read bytes error" _ _ _ (decodes_NextVarBytes data) [] (enc_ops (path_ops p)) Hlen) as E1.
  cbn [app] in E1. fold hd in E1. rewrite (bind_ok _ _ _ _ _ E1).
  do 2 erewrite bind_ok by done. cbn [src_s src_off].
  pose proof (length_path_ops p). rewrite length_app in Hlen |- *.
  replace (Z.of_nat (length hd + length (enc_ops (path_ops p))) - blen hd)
    with (33 * blen p) by lia.
  rewrite uwrap_small by (unfold in_range; lia). change (UINT256_SIZE + 1) with 33.
  rewrite Z.mul_comm, Z.div_mul, Nat2Z.id by lia.
  pose proof (decodes_prove_loop p (HashLeaf data) hd []) as E2. rewrite app_nil_r in E2.
  rewrite (bind_ok _ _ _ _ _ (E2 ltac:(rewrite length_app; lia))).
  by case_decide.
Qed.

Lemma getIndex_from_spec i leaf hashes :
  0 ≤ i →
  (getIndex_from i leaf hashes = -1 ∧ leaf ∉ hashes) ∨
  ∃ k : nat, getIndex_from i leaf hashes = i + Z.of_nat k ∧ hashes !! k = Some leaf.
Proof.
  revert i. induction hashes as [|v l IH]; intros i Hi; simpl.
  - left. split; [done|]. apply not_elem_of_nil.
  - case_decide as Hv; [right; exists 0%nat; subst; split; [lia|done]|].
    destruct (IH (i + 1)) as [[E Hn] | (k & E & Hk)]; [lia| |].
    + left. split; [done|]. by apply not_elem_of_cons.
    + right. exists (S k). split; [rewrite E; lia|done].
Qed.

Lemma log2_up_pow2_nat n : (0 < n)%nat → (n ≤ 2 ^ Z.to_nat (Z.log2_up (Z.of_nat n)))%nat.
Proof.
  intros Hn. pose proof (Z.log2_log2_up_spec (Z.of_nat n)).
  assert (0 ≤ Z.log2_up (Z.of_nat n)) by apply Z.log2_up_nonneg.
  apply Nat2Z.inj_le. rewrite pow2_Z, Z2Nat.id by done. lia.
Qed.

(** A leaf that is present has a path to the root. *)
Lemma MerkleLeafPath_found data hashes :
  HashLeaf data ∈ hashes → blen hashes * 33 + blen data + 8 ≤ MAX_SIZE →
  ∃ p, (length p ≤ length hashes)%nat ∧
    MerkleLeafPath data hashes = Ok (enc_ops (OpVarBytes data :: path_ops p)) ∧
    path_root (HashLeaf data) p = mth hashes.
Proof.
  intros Hin Hsize. unfold MerkleLeafPath. change (UINT256_SIZE + 1) with 33.
  rewrite decide_False by lia. unfold getIndex, depth.
  destruct (getIndex_from_spec 0 (HashLeaf data) hashes) as [[_ Hn] | (k & -> & Hk)]; [lia|done|].
  rewrite Z.add_0_l, decide_False by lia.
  assert (0 < length hashes)%nat by (apply lookup_lt_Some in Hk; lia).
  destruct (leaf_path_loop_root (Z.to_nat (Z.log2_up (blen hashes))) hashes k (HashLeaf data))
    as (p & Hp & -> & Hroot); [by apply log2_up_pow2_nat|done|].
  exists p. split_and!; [|done|done].
  pose proof (Z.log2_up_le_lin (blen hashes)). lia.
Qed.

Lemma length_enc_varuint_le x : blen (enc_varuint x) ≤ 9.
Proof. rewrite length_enc_varuint. unfold varuint_size. repeat case_decide; lia. Qed.

(** ** Soundness *)

(** A collision: two different messages with the same hash, one that the
    verifier hashed ([X]) and one that was hashed to build the tree ([Y]). *)
Definition collision (X Y : list bytes) : Prop :=
  ∃ x y, x ∈ X ∧ y ∈ Y ∧ x ≠ y ∧ Sum256 x = Sum256 y.

Lemma Sum256_inj_or_collision X Y x y :
  x ∈ X → y ∈ Y → Sum256 x = Sum256 y → x = y ∨ collision X Y.
Proof.
  intros Hx Hy E. destruct (decide (x = y)) as [->|Hne]; [by left|]. right. by exists x, y.
Qed.

Lemma collision_mono X X' Y Y' : collision X Y → X ⊆ X' → Y ⊆ Y' → collision X' Y'.
Proof. intros (x & y & Hx & Hy & Hne & E) HX HY. exists x, y. auto. Qed.

Lemma hash_children_inj X Y l1 r1 l2 r2 :
  children_msg l1 r1 ∈ X → children_msg l2 r2 ∈ Y →
  hash_children l1 r1 = hash_children l2 r2 → (l1 = l2 ∧ r1 = r2) ∨ collision X Y.
Proof.
  intros Hx Hy [E|?]%(Sum256_inj_or_collision X Y); [left|by right|done..].
  injection E as E. apply app_inj_1 in E as [El Er]; [|by rewrite !length_to_slice].
  split; by apply to_slice_inj.
Qed.

(** The leaf hashes [l] and the nodes above them were hashed in [Y]. *)
Definition built (l : list Uint256) (Y : list bytes) : Prop :=
  (∀ h, h ∈ l → ∃ x, h = hash_leaf x ∧ leaf_msg x ∈ Y) ∧ node_msgs l ⊆ Y.

(** The three shapes of a tree, for case analysis on its root hash. *)
Lemma mth_shape (l : list Uint256) Y :
  built l Y →
  (mth l = Sum256 [] ∧ [] ∈ Y) ∨
  (∃ h x, l = [h] ∧ mth l = h ∧ h = hash_leaf x ∧ leaf_msg x ∈ Y) ∨
  (∃ l1 l2, l = l1 ++ l2 ∧ mth l = hash_children (mth l1) (mth l2) ∧
     children_msg (mth l1) (mth l2) ∈ Y ∧ built l1 Y ∧ built l2 Y).
Proof.
  intros [Hl Hn]. destruct l as [|h|j l1 l2 H1 H2 _ _] using split_ind.
  - left. split; [done|]. apply Hn. apply list_elem_of_here.
  - right. left. destruct (Hl h) as (x & E & Hx); [apply list_elem_of_here|]. eauto 10.
  - right. right. exists l1, l2. rewrite (node_msgs_app j) in Hn by done.
    split_and!; [done|by apply (mth_app j)|set_solver| |]; split; set_solver.
Qed.

(** The messages hashed to go up the path [p] from the hash [hash]. *)
Fixpoint path_msgs (hash : Uint256) (p : list (byte * Uint256)) : list bytes :=
  match p with
  | [] => []
  | fv :: p' =>
      (if decide (fv.1 = LEFT) then children_msg fv.2 hash else children_msg hash fv.2)
        :: path_msgs (path_step hash fv) p'
  end.

Lemma path_msgs_app hash p q :
  path_msgs hash (p ++ q) = path_msgs hash p ++ path_msgs (path_root hash p) q.
Proof. revert hash. induction p as [|fv p IH]; intros hash; [done|]. simpl. by rewrite IH. Qed.

Lemma path_step_children hash fv :
  ∃ l r, path_step hash fv = hash_children l r ∧ path_msgs hash [fv] = [children_msg l r] ∧
    (hash = l ∨ hash = r).
Proof. unfold path_step. simpl. case_decide; eauto 10. Qed.

Lemma path_sound p value l X Y :
  built l Y → leaf_msg value ∈ X → path_msgs (hash_leaf value) p ⊆ X →
  path_root (hash_leaf value) p = mth l → hash_leaf value ∈ l ∨ collision X Y.
Proof.
  intros Hl Hv. revert l Hl. induction p as [|fv p IH] using rev_ind; intros l Hl HX Hroot.
  - unfold path_root in Hroot. simpl in Hroot.
    destruct (mth_shape l Y Hl) as [[E Hy]|[(h & x & -> & E & -> & Hx)|(l1 & l2 & -> & E & Hy & _)]];
      rewrite E in Hroot.
    + apply (Sum256_inj_or_collision X Y) in Hroot as [E'|?]; [discriminate E'|by right|done..].
    + left. rewrite Hroot. apply list_elem_of_here.
    + apply (Sum256_inj_or_collision X Y) in Hroot as [E'|?]; [discriminate E'|by right|done..].
  - rewrite path_msgs_app in HX. unfold path_root in *. rewrite foldl_app in Hroot. simpl in Hroot.
    destruct (path_step_children (foldl path_step (hash_leaf value) p) fv) as (x & y & Ex & Em & Hxy).
    unfold path_root in HX. rewrite Em in HX. rewrite Ex in Hroot.
    assert (children_msg x y ∈ X) as Hc by set_solver.
    destruct (mth_shape l Y Hl) as [[E Hy]|[(h & z & -> & E & -> & Hz)|(l1 & l2 & -> & E & Hy & Hl1 & Hl2)]];
      rewrite E in Hroot.
    + apply (Sum256_inj_or_collision X Y) in Hroot as [E'|?]; [discriminate E'|by right|done..].
    + apply (Sum256_inj_or_collision X Y) in Hroot as [E'|?]; [discriminate E'|by right|done..].
    + apply (hash_children_inj X Y) in Hroot as [[-> ->]|?]; [|by right|done..].
      destruct Hxy as [Hx|Hx]; (apply IH in Hx as [Hin|?];
        [left; apply elem_of_app; auto|by right|done|set_solver]).
Qed.

(** What [prove_loop] reads. *)
Fixpoint read_path (size : nat) : M ZeroCopySource (list (byte * Uint256)) :=
  match size with
  | O => mret []
  | S size' =>
      f ← must "read byte error" NextByte;
      v ← must "read hash error" NextHash;
      p ← read_path size';
      mret ((f, v) :: p)
  end.

(** The messages that [MerkleProve] hashes on the input [path]. *)
Definition prove_msgs (path : bytes) : list bytes :=
  match (value ← must "read bytes error" NextVarBytes;
         total ← src_Size;
         pos ← src_Pos;
         p ← read_path (Z.to_nat (u64 (total - pos) / (UINT256_SIZE + 1)));
         mret (leaf_msg value :: path_msgs (HashLeaf value) p)) (NewZeroCopySource path) with
  | (Ok l, _) => l
  | _ => []
  end.

Lemma prove_loop_inv n hash s r s' :
  prove_loop n hash s = (Ok r, s') →
  ∃ p, read_path n s = (Ok p, s') ∧ r = path_root hash p.
Proof.
  revert hash s. induction n as [|n IH]; intros hash s E; cbn [prove_loop] in E.
  - injection E as <- <-. by exists [].
  - apply bind_inv_ok in E as (f & s1 & E1 & E). apply bind_inv_ok in E as (v & s2 & E2 & E).
    apply IH in E as (p & Hp & ->). exists ((f, v) :: p). split; [|done]. cbn [read_path].
    by rewrite (bind_ok _ _ _ _ _ E1), (bind_ok _ _ _ _ _ E2), (bind_ok _ _ _ _ _ Hp).
Qed.

Lemma MerkleProve_inv path root value :
  MerkleProve path root = Ok value →
  ∃ p, to_slice (path_root (HashLeaf value) p) = root ∧
    prove_msgs path = leaf_msg value :: path_msgs (HashLeaf value) p.
Proof.
  unfold MerkleProve. destruct (MerkleProve_M root _) as [r s'] eqn:E. simpl. intros ->.
  apply bind_inv_ok in E as (v & s1 & E1 & E).
  apply bind_inv_ok in E as (t & s2 & E2 & E). apply bind_inv_ok in E as (q & s3 & E3 & E).
  apply bind_inv_ok in E as (h & s4 & E4 & E). apply prove_loop_inv in E4 as (p & Hp & ->).
  case_decide as Hd; [|done]. injection E as -> ->. exists p. split; [done|]. unfold prove_msgs.
  by rewrite (bind_ok _ _ _ _ _ E1), (bind_ok _ _ _ _ _ E2), (bind_ok _ _ _ _ _ E3), (bind_ok _ _ _ _ _ Hp).
Qed.

(** The messages hashed to build the tree of the values [datas]. *)
Definition tree_msgs (datas : list bytes) : list bytes :=
  (leaf_msg <$> datas) ++ node_msgs (HashLeaf <$> datas).

Lemma tree_msgs_built datas : built (HashLeaf <$> datas) (tree_msgs datas).
Proof.
  unfold tree_msgs. split; [|set_solver]. intros h (d & -> & Hd)%list_elem_of_fmap. exists d.
  split; [done|]. apply elem_of_app. left. by apply list_elem_of_fmap_2.
Qed.

(** ** Properties *)

(** C10 (soundness of cross-chain proofs).  If [MerkleProve] accepts a path
    against the root that [HashFullTreeWithLeafHash] computed from the leaf
    hashes of the values [datas], then the value it returns is one of them,
    unless one of the messages [MerkleProve] hashed collides with a different
    message that was hashed to build the tree. *)
Theorem MerkleProve_sound (datas : list bytes) (root : Uint256) (path value : bytes) :
  blen datas < 2 ^ 32 →
  HashFullTreeWithLeafHash (HashLeaf <$> datas) = Some root →
  MerkleProve path (to_slice root) = Ok value →
  value ∈ datas ∨ collision (prove_msgs path) (tree_msgs datas).
Proof.
  intros Hlen Hroot (p & Hp%to_slice_inj & Hm)%MerkleProve_inv. rewrite Hm.
  rewrite HashFullTree_mth in Hroot by (by rewrite length_fmap). injection Hroot as <-.
  set (X := leaf_msg value :: _). assert (leaf_msg value ∈ X) by apply list_elem_of_here.
  apply (path_sound _ _ _ X (tree_msgs datas)) in Hp as [Hin|?];
    [|by right|apply tree_msgs_built|done|set_solver].
  apply list_elem_of_fmap in Hin as (d & E & Hd).
  apply (Sum256_inj_or_collision X (tree_msgs datas)) in E as [[= ->]|?]; [by left|by right|done|].
  apply elem_of_app. left. by apply list_elem_of_fmap_2.
Qed.

(** Completeness of cross-chain proofs.  For every value whose leaf hash
    is in the block, within the size limit, [MerkleLeafPath] returns a path and
    [MerkleProve] accepts it against the root of [HashFullTreeWithLeafHash] and
    returns the value: the level-by-level tree of the path and the recursive
    tree of the root agree. *)
Lemma MerkleLeafPath_complete (data : bytes) (hashes : list Uint256) :
  HashLeaf data ∈ hashes → blen hashes * 33 + blen data + 8 ≤ MAX_SIZE →
  ∃ path root, MerkleLeafPath data hashes = Ok path ∧
    HashFullTreeWithLeafHash hashes = Some root ∧
    MerkleProve path (to_slice root) = Ok data.
Proof.
  intros Hin Hsize. destruct (MerkleLeafPath_found data hashes) as (p & Hp & Hpath & Hroot); [done..|].
  unfold MAX_SIZE in Hsize.
  exists (enc_ops (OpVarBytes data :: path_ops p)), (mth hashes). split_and!; [done| |].
  - apply HashFullTree_mth. lia.
  - rewrite MerkleProve_encoded; [by rewrite Hroot, decide_True|].
    rewrite enc_ops_cons, length_app. cbn [enc_op]. rewrite length_app.
    pose proof (length_path_ops p). pose proof (length_enc_varuint_le (blen data)). lia.
Qed.

End merkle_hasher.

#[local] Existing Instance poly_hasher.

Definition ex_datas : list bytes := [gs "a"; gs "bc"; gs "d"; gs "e"; gs "fgh"].

Lemma MerkleLeafPath_complete_example :
  ∃ path root, MerkleLeafPath (gs "fgh") (HashLeaf <$> ex_datas) = Ok path ∧
    HashFullTreeWithLeafHash (HashLeaf <$> ex_datas) = Some root ∧
    MerkleProve path (to_slice root) = Ok (gs "fgh").
Proof.
  apply (MerkleLeafPath_complete (gs "fgh") (HashLeaf <$> ex_datas)).
  - apply list_elem_of_lookup. by exists 4%nat.
  - unfold MAX_SIZE. simpl. lia.
Defined.

Definition ex_root : Uint256 := default EMPTY_HASH (HashFullTreeWithLeafHash (HashLeaf <$> ex_datas)).
Definition ex_path : bytes :=
  match MerkleLeafPath (gs "d") (HashLeaf <$> ex_datas) with Ok p => p | _ => [] end.

Lemma MerkleProve_sound_witness :
  gs "d" ∈ ex_datas ∨ collision (prove_msgs ex_path) (tree_msgs ex_datas).
Proof.
  apply (MerkleProve_sound ex_datas ex_root ex_path (gs "d")).
  - simpl. lia.
  - vm_compute. reflexivity.
  - vm_compute. reflexivity.
Defined.
