(* ===== verification/HashStore.v ===== *)
(** * Hash stores (merkle/file_hash_store.go)

    The [HashStore] interface of the code as a class: what the compact tree
    relies on is that [Append] adds to the end and that [GetHash] reads back.
    The two implementations are the in-memory slice and the file, of which the
    contents and the write cursor are modelled; writes succeed. *)

From S2P Require Import Prelude Sha256 MerkleUtil.

Class HashStore (S : Type) := {
  hs_Append : list Uint256 → S → S;
  (** [None] is a panic; an error of the store, which the tree ignores, gives
      [EMPTY_HASH]. *)
  hs_GetHash : Z → S → option Uint256;
  hs_view : S → list Uint256;
  hs_wf : S → Prop;
  hs_Append_wf : ∀ s l, hs_wf s → hs_wf (hs_Append l s);
  hs_Append_view : ∀ s l, hs_wf s → hs_view (hs_Append l s) = hs_view s ++ l;
  hs_GetHash_view : ∀ s (i : nat) h, hs_wf s → hs_view s !! i = Some h →
    hs_GetHash (Z.of_nat i) s = Some h;
}.

(** ** memHashStore *)

Record memHashStore := mkMemHashStore { mem_hashes : list Uint256 }.

Definition NewMemHashStore : memHashStore := mkMemHashStore [].

Definition mem_Append (hash : list Uint256) (s : memHashStore) : memHashStore :=
  mkMemHashStore (mem_hashes s ++ hash).

Definition mem_GetHash (pos : Z) (s : memHashStore) : option Uint256 :=
  mem_hashes s !! Z.to_nat pos.

#[export] Program Instance mem_hash_store : HashStore memHashStore := {|
  hs_Append := mem_Append;
  hs_GetHash := mem_GetHash;
  hs_view := mem_hashes;
  hs_wf _ := True;
|}.
Next Obligation. done. Qed.
Next Obligation. done. Qed.
Next Obligation. intros s i h _ Hi. unfold mem_GetHash. by rewrite Nat2Z.id. Qed.

(** ** fileHashStore *)

Record fileHashStore := mkFileHashStore {
  file_data : bytes;    (* the contents of the file *)
  file_pos : Z;         (* the cursor of [file.Write] *)
}.

(** [file.Write(buf)]: overwrites from the cursor and extends the file. *)
Definition file_Write (buf : bytes) (f : fileHashStore) : fileHashStore :=
  let p := Z.to_nat (file_pos f) in
  mkFileHashStore (take p (file_data f) ++ buf ++ drop (p + length buf) (file_data f))
                  (file_pos f + blen buf).

(** [file.ReadAt(buf, off)] with [len(buf) = n]: an error if fewer bytes are there. *)
Definition file_ReadAt (n : nat) (off : Z) (f : fileHashStore) : option bytes :=
  let l := take n (drop (Z.to_nat off) (file_data f)) in
  if decide (length l = n) then Some l else None.

(** The array writes of [getSubTreeSize]: [i] counts down the set bits. *)
Fixpoint subtree_loop (fuel : nat) (n i id : Z) (subtreesize : list Z) : option (list Z) :=
  match fuel with
  | O => None
  | S fuel' =>
      if decide (n = 0) then Some subtreesize else
      let id := u32 (id * 2) in
      if decide (n mod 2 = 1) then
        if decide (0 ≤ i < blen subtreesize)
        then subtree_loop fuel' (Z.shiftr n 1) (u64 (i - 1)) id
               (<[Z.to_nat i := u32 (id - 1)]> subtreesize)
        else None
      else subtree_loop fuel' (Z.shiftr n 1) i id subtreesize
  end.

Definition getSubTreeSize (n : Z) : option (list Z) :=
  let nhashes := countBit n in
  subtree_loop 33 n (u64 (nhashes - 1)) 1 (replicate (Z.to_nat nhashes) 0).

Definition getStoredHashNum (tree_size : Z) : option Z :=
  subtreesize ← getSubTreeSize tree_size; Some (foldl Z.add 0 subtreesize).

Definition checkConsistence (tree_size : Z) (f : fileHashStore) : option (res unit) :=
  num_hashes ← getStoredHashNum tree_size;
  Some (if decide (blen (file_data f) < num_hashes * UINT256_SIZE)
        then Err "stored hashes are less than expected" else Ok tt).

(** [NewFileHashStore(name, tree_size)] on a file with the given contents: the
    cursor goes to the end of the hashes of the first [tree_size] leaves, so
    what a crash left behind them is overwritten. *)
Definition NewFileHashStore (contents : bytes) (tree_size : Z) : option (res fileHashStore) :=
  let store := mkFileHashStore contents 0 in
  err ← checkConsistence tree_size store;
  match err with
  | Ok _ =>
      num_hashes ← getStoredHashNum tree_size;
      Some (Ok (mkFileHashStore contents (num_hashes * UINT256_SIZE)))
  | Err e => Some (Err e)
  | Panic => Some Panic
  end.

Definition hashes_bytes (hash : list Uint256) : bytes := mjoin (to_slice <$> hash).

Definition file_Append (hash : list Uint256) (f : fileHashStore) : fileHashStore :=
  file_Write (hashes_bytes hash) f.

Definition file_GetHash (pos : Z) (f : fileHashStore) : option Uint256 :=
  Some (match file_ReadAt 32 (pos * UINT256_SIZE) f with
        | Some l => copy_array 32 l
        | None => EMPTY_HASH
        end).

(** The hashes before the cursor. *)
Fixpoint parse_hashes (n : nat) (l : bytes) : list Uint256 :=
  match n with
  | O => []
  | S n' => copy_array 32 (take 32 l) :: parse_hashes n' (drop 32 l)
  end.

Definition file_view (f : fileHashStore) : list Uint256 :=
  parse_hashes (Z.to_nat (file_pos f) / 32) (file_data f).

Definition file_wf (f : fileHashStore) : Prop :=
  ∃ n : nat, file_pos f = 32 * Z.of_nat n ∧ (32 * n ≤ length (file_data f))%nat.

Lemma length_hashes_bytes l : length (hashes_bytes l) = (32 * length l)%nat.
Proof.
  induction l as [|h l IH]; [done|].
  change (hashes_bytes (h :: l)) with (to_slice h ++ hashes_bytes l).
  rewrite length_app, length_to_slice, IH. simpl. lia.
Qed.

Lemma length_parse_hashes n l : length (parse_hashes n l) = n.
Proof. revert l. induction n; intros; simpl; auto. Qed.

Lemma parse_hashes_take n m l : (32 * n ≤ m)%nat → parse_hashes n (take m l) = parse_hashes n l.
Proof.
  revert m l. induction n as [|n IH]; intros m l Hm; [done|]. cbn [parse_hashes].
  rewrite take_take, Nat.min_l by lia.
  f_equal. rewrite skipn_firstn_comm. apply IH. lia.
Qed.

Lemma parse_hashes_lookup n l i h :
  (32 * n ≤ length l)%nat → parse_hashes n l !! i = Some h →
  take 32 (drop (32 * i) l) = to_slice h.
Proof.
  revert l i. induction n as [|n IH]; intros l i Hl Hi; [done|].
  destruct i as [|i]; simpl in Hi.
  - injection Hi as <-. rewrite Nat.mul_0_r, drop_0. rewrite to_slice_copy; [done|].
    rewrite length_take. lia.
  - apply IH in Hi; [|rewrite length_drop; lia]. rewrite drop_drop in Hi.
    by replace (32 * S i)%nat with (32 + 32 * i)%nat by lia.
Qed.

Lemma parse_hashes_app n l hs :
  length l = (32 * n)%nat →
  parse_hashes (n + length hs) (l ++ hashes_bytes hs) = parse_hashes n l ++ hs.
Proof.
  revert l. induction n as [|n IH]; intros l Hl.
  - destruct l; [|simpl in Hl; lia]. simpl. induction hs as [|h hs IHh]; [done|].
    change (hashes_bytes (h :: hs)) with (to_slice h ++ hashes_bytes hs). simpl.
    rewrite take_app_length', drop_app_length' by (by rewrite length_to_slice).
    by rewrite copy_to_slice, IHh.
  - cbn [Nat.add parse_hashes]. rewrite take_app_le, drop_app_le by lia. cbn [app]. f_equal.
    apply IH. rewrite length_drop. lia.
Qed.

Lemma hashes_bytes_app l1 l2 : hashes_bytes (l1 ++ l2) = hashes_bytes l1 ++ hashes_bytes l2.
Proof. unfold hashes_bytes. by rewrite fmap_app, join_app. Qed.

Lemma hashes_bytes_parse n l : (32 * n ≤ length l)%nat → hashes_bytes (parse_hashes n l) = take (32 * n) l.
Proof.
  revert l. induction n as [|n IH]; intros l Hl; [done|]. cbn [parse_hashes].
  change (hashes_bytes (?h :: ?t)) with (to_slice h ++ hashes_bytes t).
  rewrite to_slice_copy by (rewrite length_take; lia). rewrite IH by (rewrite length_drop; lia).
  replace (32 * S n)%nat with (32 + 32 * n)%nat by lia. apply take_take_drop.
Qed.

(** The file begins with the hashes before the cursor. *)
Lemma file_data_view f l : file_wf f → file_view f = l → ∃ junk, file_data f = hashes_bytes l ++ junk.
Proof.
  intros (n & Hp & Hl) <-. exists (drop (32 * n) (file_data f)). unfold file_view. rewrite Hp.
  replace (Z.to_nat (32 * Z.of_nat n)) with (n * 32)%nat by lia. rewrite Nat.div_mul by lia.
  by rewrite hashes_bytes_parse, take_drop by lia.
Qed.

Lemma file_Append_wf f l : file_wf f → file_wf (file_Append l f).
Proof.
  intros (n & Hp & Hl). exists (n + length l)%nat. unfold file_Append, file_Write. simpl.
  rewrite Hp, !length_app, length_take, length_drop, length_hashes_bytes. lia.
Qed.

Lemma file_Append_view f l : file_wf f → file_view (file_Append l f) = file_view f ++ l.
Proof.
  intros (n & Hp & Hl). unfold file_view, file_Append, file_Write. cbn [file_data file_pos].
  rewrite Hp, length_hashes_bytes.
  replace (Z.to_nat (32 * Z.of_nat n + Z.of_nat (32 * length l)) / 32)%nat with (n + length l)%nat.
  2:{ replace (Z.to_nat _) with ((n + length l) * 32)%nat by lia. by rewrite Nat.div_mul. }
  replace (Z.to_nat (32 * Z.of_nat n)) with (n * 32)%nat by lia. rewrite Nat.div_mul by lia.
  rewrite app_assoc.
  rewrite <- (parse_hashes_take _ (32 * (n + length l))) by lia.
  rewrite take_app_le by (rewrite length_app, length_take, length_hashes_bytes; lia).
  rewrite (take_ge (_ ++ _)) by (rewrite length_app, length_take, length_hashes_bytes; lia).
  rewrite parse_hashes_app by (rewrite length_take; lia).
  by rewrite parse_hashes_take by lia.
Qed.

Lemma file_GetHash_view f (i : nat) h :
  file_wf f → file_view f !! i = Some h → file_GetHash (Z.of_nat i) f = Some h.
Proof.
  intros (n & Hp & Hl). unfold file_view, file_GetHash, file_ReadAt. rewrite Hp.
  replace (Z.to_nat (32 * Z.of_nat n)) with (n * 32)%nat by lia. rewrite Nat.div_mul by lia.
  intros Hi. change UINT256_SIZE with 32.
  replace (Z.to_nat (Z.of_nat i * 32)) with (32 * i)%nat by lia.
  rewrite (parse_hashes_lookup n _ _ _ Hl Hi).
  by rewrite length_to_slice, decide_True, copy_to_slice.
Qed.

#[export] Instance file_hash_store : HashStore fileHashStore := {|
  hs_Append := file_Append;
  hs_GetHash := file_GetHash;
  hs_view := file_view;
  hs_wf := file_wf;
  hs_Append_wf := file_Append_wf;
  hs_Append_view := file_Append_view;
  hs_GetHash_view := file_GetHash_view;
|}.

(** ** Sizes of the maximal full subtrees *)

(** For the set bits of [p], highest first, the size [2 * 2^j * id - 1] of the
    post-order numbering of a full subtree. *)
Fixpoint psizes (p : positive) (id : Z) : list Z :=
  match p with
  | xH => [2 * id - 1]
  | xO p => psizes p (2 * id)
  | xI p => psizes p (2 * id) ++ [2 * id - 1]
  end.

Definition Zsizes (n : Z) : list Z := match n with Zpos p => psizes p 1 | _ => [] end.

Lemma length_psizes p id : length (psizes p id) = popcount p.
Proof. revert id. induction p; intros; simpl; rewrite ?length_app, ?IHp; simpl; lia. Qed.

Lemma shiftr_xO p : Z.shiftr (Zpos p~0) 1 = Zpos p.
Proof. rewrite Z.shiftr_div_pow2 by lia. change (Zpos p~0) with (2 * Zpos p). rewrite Z.mul_comm. by rewrite Z.div_mul. Qed.

Lemma shiftr_xI p : Z.shiftr (Zpos p~1) 1 = Zpos p.
Proof.
  rewrite Z.shiftr_div_pow2 by lia. change (Zpos p~1) with (2 * Zpos p + 1).
  rewrite Z.mul_comm, Z.div_add_l by lia. change (1 / 2 ^ 1) with 0. lia.
Qed.

Lemma insert_zeros c (x : Z) tail :
  <[c := x]> (replicate (S c) 0 ++ tail) = replicate c 0 ++ x :: tail.
Proof.
  replace (S c) with (c + 1)%nat by lia. rewrite replicate_add, <- app_assoc.
  rewrite insert_app_r_alt by (rewrite length_replicate; lia).
  by rewrite length_replicate, Nat.sub_diag.
Qed.

Lemma subtree_loop_psizes p fuel c id tail :
  (Pos.size_nat p < fuel)%nat → popcount p = S c → 0 < id → Zpos p * (2 * id) < 2 ^ 32 →
  Z.of_nat c < 64 →
  subtree_loop fuel (Zpos p) (Z.of_nat c) id (replicate (S c) 0 ++ tail) =
    Some (psizes p id ++ tail).
Proof.
  revert fuel c id tail.
  induction p as [p IH|p IH|]; intros fuel c id tail Hf Hc Hid Hmax Hc64;
    (destruct fuel as [|fuel]; [simpl in Hf; lia|]); cbn [subtree_loop popcount psizes] in *;
    assert (2 * id < 2 ^ 32) by nia;
    rewrite decide_False by done; rewrite (Z.mul_comm id 2), (uwrap_small 32 (2 * id)) by (unfold in_range; lia).
  - rewrite decide_True by (by rewrite Zmod_odd).
    rewrite length_app, length_replicate, decide_True by lia.
    rewrite Nat2Z.id, shiftr_xI, (uwrap_small 32) by (unfold in_range; lia).
    destruct c as [|c]; [pose proof (popcount_pos p); lia|].
    rewrite insert_zeros, (uwrap_small 64) by (unfold in_range; lia).
    replace (Z.of_nat (S c) - 1) with (Z.of_nat c) by lia.
    rewrite IH by (simpl in *; nia). by rewrite <- app_assoc.
  - rewrite decide_False by (by rewrite Zmod_odd). rewrite shiftr_xO.
    apply IH; simpl in *; nia.
  - assert (c = 0%nat) as -> by lia. cbn [decide]. rewrite decide_True by done.
    rewrite decide_True by (simpl; lia). cbn [replicate app insert list_insert Z.to_nat Z.of_nat].
    rewrite (uwrap_small 32) by (unfold in_range; lia). by destruct fuel; [simpl in Hf; lia|].
Qed.

Lemma size_nat_bound p k : Zpos p < 2 ^ Z.of_nat k → (Pos.size_nat p ≤ k)%nat.
Proof.
  revert p. induction k as [|k IH]; intros p Hp; [change (2 ^ Z.of_nat 0) with 1 in Hp; lia|].
  rewrite Nat2Z.inj_succ, Z.pow_succ_r in Hp by lia.
  destruct p as [p|p|]; simpl; [specialize (IH p)|specialize (IH p)|]; lia.
Qed.

Lemma getSubTreeSize_spec n : 0 ≤ n < 2 ^ 31 → getSubTreeSize n = Some (Zsizes n).
Proof.
  intros Hn. unfold getSubTreeSize. rewrite countBit_popcount by (unfold in_range; lia).
  destruct n as [|p|p]; [done| |lia]. cbn [Zpopcount Zsizes].
  destruct (popcount p) as [|c] eqn:Ec; [pose proof (popcount_pos p); lia|].
  pose proof (popcount_bound p 32). pose proof (size_nat_bound p 32).
  rewrite uwrap_small by (unfold in_range; lia). rewrite Nat2Z.id.
  replace (Z.of_nat (S c) - 1) with (Z.of_nat c) by lia.
  pose proof (subtree_loop_psizes p 33 c 1 []) as E. rewrite !app_nil_r in E. apply E; lia.
Qed.

(** Splitting off the highest bit. *)
Lemma psizes_pow2 j p id :
  Zpos p = 2 ^ Z.of_nat j → psizes p id = [2 * (2 ^ Z.of_nat j * id) - 1].
Proof.
  revert p id. induction j as [|j IH]; intros p id Hp.
  - change (2 ^ Z.of_nat 0) with 1 in *. injection Hp as ->. cbn [psizes]. f_equal. lia.
  - rewrite Nat2Z.inj_succ, Z.pow_succ_r in * by lia.
    destruct p as [p|p|]; [lia| |lia]. cbn [psizes]. rewrite (IH p) by lia. f_equal. lia.
Qed.

Lemma psizes_add j p q id :
  Zpos q < 2 ^ Z.of_nat j → Zpos p = 2 ^ Z.of_nat j + Zpos q →
  psizes p id = (2 * (2 ^ Z.of_nat j * id) - 1) :: psizes q id.
Proof.
  revert p q id. induction j as [|j IH]; intros p q id Hq Hp.
  - change (2 ^ Z.of_nat 0) with 1 in *. lia.
  - rewrite Nat2Z.inj_succ, Z.pow_succ_r in * by lia.
    replace (2 * (2 * 2 ^ Z.of_nat j * id)) with (2 * (2 ^ Z.of_nat j * (2 * id))) by lia.
    destruct q as [q|q|], p as [p|p|]; try lia; cbn [psizes].
    + by rewrite (IH p q) by lia.
    + by rewrite (IH p q) by lia.
    + by rewrite (psizes_pow2 j) by lia.
Qed.

Lemma Zsizes_add j m :
  0 ≤ m < 2 ^ Z.of_nat j → Zsizes (2 ^ Z.of_nat j + m) = (2 * 2 ^ Z.of_nat j - 1) :: Zsizes m.
Proof.
  intros Hm. destruct (2 ^ Z.of_nat j + m) as [|p|p] eqn:E; [lia| |lia]. cbn [Zsizes].
  destruct m as [|q|q]; [| |lia].
  - rewrite (psizes_pow2 j) by lia. cbn [Zsizes]. do 2 f_equal. lia.
  - rewrite (psizes_add j p q) by lia. cbn [Zsizes]. do 2 f_equal. lia.
Qed.

Lemma Zsizes_pow2 j : Zsizes (Z.of_nat (2 ^ j)) = [2 * Z.of_nat (2 ^ j) - 1].
Proof.
  rewrite pow2_Z. pose proof (Zsizes_add j 0) as Hz. rewrite Z.add_0_r in Hz. apply Hz. lia.
Qed.
