(* ===== verification/MerkleTree.v ===== *)
(** * The compact merkle tree (merkle/merkle_tree.go)

    The tree keeps the roots of its maximal full subtrees and appends the hashes
    it completes to a [HashStore].  A panic is [None].  [tree_ok t D] relates a
    tree to the list [D] of the leaf hashes appended so far; every operation is
    specified against the reference tree over [D]. *)

From S2P Require Import Prelude Sha256 Sink Source MerkleUtil MerkleSpec MerkleHasher HashStore.

Record CompactMerkleTree (St : Type) := mkTree {
  mintree_h : Z;
  hashes : list Uint256;
  hashStore : option St;     (* [None] is the nil interface *)
  rootHash : Uint256;
  treeSize : Z;
}.
Arguments mkTree {St}.
Arguments mintree_h {St}.
Arguments hashes {St}.
Arguments hashStore {St}.
Arguments rootHash {St}.
Arguments treeSize {St}.

Section merkle_tree.
Context `{Hasher} {St : Type} `{HashStore St}.
Implicit Types t : CompactMerkleTree St.

(** ** The code *)

Definition update (tree_size : Z) (hs : list Uint256) t : option (CompactMerkleTree St) :=
  let numBit := countBit tree_size in
  if decide (blen hs ≠ numBit) then None
  else Some (mkTree (lowBit tree_size) hs (hashStore t) EMPTY_HASH tree_size).

Definition NewTree (tree_size : Z) (hs : list Uint256) (store : option St)
    : option (CompactMerkleTree St) :=
  update tree_size hs (mkTree 0 [] store EMPTY_HASH 0).

Definition Marshal t : bytes := be_put 4 (treeSize t) ++ hashes_bytes (hashes t).

Definition UnMarshal (buf : bytes) t : option (res (CompactMerkleTree St)) :=
  hd ← go_slice buf 0 4;
  let tree_size := be_get hd in
  let nhashes := countBit tree_size in
  if decide (blen buf < 4 + nhashes * UINT256_SIZE)
  then Some (Err "Too short input buf length")
  else t' ← update tree_size (parse_hashes (Z.to_nat nhashes) (drop 4 buf)) t; Some (Ok t').

Definition Root t : option (Uint256 * CompactMerkleTree St) :=
  if decide (rootHash t = EMPTY_HASH) then
    r ← (if decide (blen (hashes t) ≠ 0) then hash_fold (hashes t) else Some hash_empty);
    Some (r, mkTree (mintree_h t) (hashes t) (hashStore t) r (treeSize t))
  else Some (rootHash t, t).

Definition GetRootWithNewLeaf (newLeaf : Uint256) t : option Uint256 :=
  hash_fold (hashes t ++ [hash_leaf (to_slice newLeaf)]).

Definition cloneMem t : CompactMerkleTree St :=
  mkTree (mintree_h t) (hashes t) None (rootHash t) (treeSize t).

(** The loop of [appendHash]: [(size, leaf, mintree_h, storehashes)] at its end. *)
Fixpoint append_loop (fuel : nat) (hs : list Uint256) (s size : Z) (leaf : Uint256) (mh : Z)
    (storehashes : list Uint256) : option (Z * Uint256 * Z * list Uint256) :=
  match fuel with
  | O => None
  | S fuel' =>
      if decide (s mod 2 = 1) then
        last ← hs !! Z.to_nat (size - 1);
        let leaf := hash_children last leaf in
        append_loop fuel' hs (Z.shiftr s 1) (size - 1) leaf (mh + 1) (storehashes ++ [leaf])
      else Some (size, leaf, mh, storehashes)
  end.

Definition appendHash (leaf : Uint256) t : option (list Uint256 * CompactMerkleTree St) :=
  let auditPath := reverse (hashes t) in
  '(size, leaf', mh, storehashes) ←
    append_loop 33 (hashes t) (treeSize t) (blen (hashes t)) leaf 1 [leaf];
  let store := hs_Append storehashes <$> hashStore t in
  Some (auditPath,
        mkTree mh (take (Z.to_nat size) (hashes t) ++ [leaf']) store EMPTY_HASH
               (u32 (treeSize t + 1))).

Definition Append (leafv : bytes) t : option (list Uint256 * CompactMerkleTree St) :=
  appendHash (hash_leaf leafv) t.

Fixpoint append_all (leaves : list bytes) t : option (CompactMerkleTree St) :=
  match leaves with
  | [] => Some t
  | leafv :: rest => '(_, t') ← Append leafv t; append_all rest t'
  end.

Definition GetRootWithNewLeaves (newLeaf : list Uint256) t : option Uint256 :=
  t' ← append_all (to_slice <$> newLeaf) (cloneMem t);
  '(r, _) ← Root t';
  Some r.

(** ** The invariant *)

Record tree_ok (t : CompactMerkleTree St) (D : list Uint256) : Prop := {
  ok_size : treeSize t = blen D;
  ok_bound : blen D < 2 ^ 32;
  ok_hashes : hashes t = roots D;
  ok_store : ∀ s, hashStore t = Some s → hs_wf s ∧ hs_view s = stored D;
  ok_root : rootHash t = EMPTY_HASH ∨ rootHash t = mth D;
}.

(** ** Appending a leaf

    [carried pre L h new]: after the loop has used up the bits of [L], it holds
    the root of [L ++ [h]] and has produced the hashes [new]. *)

Lemma append_loop_carry j :
  ∀ fuel pre L h s mh acc,
    (length L < 2 ^ j)%nat → 0 ≤ s → s mod 2 ^ Z.of_nat j = blen L → (j ≤ fuel)%nat →
    ∃ new, stored L ++ [h] ++ new = stored (L ++ [h]) ∧
    (if decide (length L + 1 = 2 ^ j)%nat
     then append_loop fuel (pre ++ roots L) s (blen (pre ++ roots L)) h mh acc =
          append_loop (fuel - j) (pre ++ roots L) (s / 2 ^ Z.of_nat j) (blen pre)
            (mth (L ++ [h])) (mh + Z.of_nat j) (acc ++ new)
     else ∃ size leaf mh',
          append_loop fuel (pre ++ roots L) s (blen (pre ++ roots L)) h mh acc =
            Some (size, leaf, mh', acc ++ new) ∧
          take (Z.to_nat size) (pre ++ roots L) ++ [leaf] = pre ++ roots (L ++ [h])).
Proof.
  induction j as [|j IH]; intros fuel pre L h s mh acc HL Hs Hmod Hf.
  - exists []. destruct L; [|simpl in HL; lia]. split; [done|].
    change (2 ^ Z.of_nat 0) with 1. rewrite Z.div_1_r, Nat.sub_0_r, !app_nil_r, Z.add_0_r. done.
  - pose proof (pow2_pos j) as Hp. simpl in HL.
    assert (2 ^ Z.of_nat (S j) = 2 * Z.of_nat (2 ^ j)) as Hpow.
    { rewrite pow2_Z, Nat2Z.inj_succ, Z.pow_succ_r; lia. }
    assert (s = 2 * Z.of_nat (2 ^ j) * (s / (2 * Z.of_nat (2 ^ j))) + blen L) as Hdiv.
    { rewrite <- Hpow, <- Hmod. apply Z.div_mod. lia. }
    set (q := s / (2 * Z.of_nat (2 ^ j))) in *.
    destruct (decide (length L < 2 ^ j)%nat) as [Hsmall|Hbig].
    + destruct (IH fuel pre L h s mh acc) as (new & Hst & Hloop); [done..| |lia|].
      { rewrite <- pow2_Z. symmetry. apply Z.mod_unique with (2 * q); [left; lia|lia]. }
      exists new. split; [done|]. rewrite decide_False by (simpl; lia).
      case_decide as Hfull; [|done].
      assert (s / 2 ^ Z.of_nat j = 2 * q) as Hq.
      { rewrite <- pow2_Z. symmetry. apply Z.div_unique with (blen L); [left; lia|lia]. }
      rewrite Hloop, Hq. destruct (fuel - j)%nat as [|f] eqn:Ef; [lia|].
      cbn [append_loop]. rewrite decide_False by (rewrite Z.mul_comm, Z_mod_mult; lia).
      do 3 eexists. split; [done|]. rewrite Nat2Z.id, take_app_length.
      rewrite (roots_full j); [done|]. rewrite length_app. simpl. lia.
    + set (L1 := take (2 ^ j) L). set (L2 := drop (2 ^ j) L).
      assert (L = L1 ++ L2) as HLe by (symmetry; apply take_drop).
      assert (length L1 = 2 ^ j)%nat as H1 by (subst L1; rewrite length_take; lia).
      assert (length L2 = length L - 2 ^ j)%nat as H2 by (subst L2; rewrite length_drop; lia).
      clearbody L1 L2. subst L. rewrite length_app in *. rewrite <- (app_assoc L1).
      destruct (IH fuel (pre ++ [mth L1]) L2 h s mh acc) as (new & Hst & Hloop); [lia|lia| |lia|].
      { rewrite <- pow2_Z. symmetry. apply Z.mod_unique with (2 * q + 1); [left; lia|lia]. }
      rewrite (roots_app_lt j L1 L2) by lia. rewrite (stored_app_lt j L1 L2) by lia.
      rewrite <- (app_assoc pre) in Hloop. cbn [app] in Hloop.
      case_decide as Hfull.
      * assert (s / 2 ^ Z.of_nat j = 2 * q + 1) as Hq.
        { rewrite <- pow2_Z. symmetry. apply Z.div_unique with (blen L2); [left; lia|lia]. }
        assert (length (L2 ++ [h]) = 2 ^ j)%nat as Hlen by (rewrite length_app; simpl; lia).
        exists (new ++ [mth (L1 ++ L2 ++ [h])]). split.
        { rewrite (stored_app_full j) by done. rewrite <- Hst, <- !app_assoc. done. }
        rewrite decide_True by (simpl; lia).
        rewrite Hloop, Hq. destruct (fuel - j)%nat as [|f] eqn:Ef; [lia|].
        cbn [append_loop]. rewrite decide_True by (rewrite Z.add_comm, Z.mul_comm, Z_mod_plus_full; done).
        rewrite length_app. cbn [length].
        replace (Z.to_nat (Z.of_nat (length pre + 1) - 1)) with (length pre) by lia.
        rewrite list_lookup_middle by done. cbn [mbind option_bind].
        rewrite <- (mth_app j) by lia. rewrite <- app_assoc.
        f_equal; [lia| |lia|lia].
        rewrite Hpow. rewrite Z.shiftr_div_pow2 by lia. change (2 ^ 1) with 2.
        rewrite Z.mul_comm, Z.div_add_l by lia. change (1 / 2) with 0. subst q. lia.
      * destruct Hloop as (size & leaf & mh' & Hloop & Htake).
        exists new. split.
        { rewrite (stored_app_lt j) by (rewrite ?length_app; simpl; lia).
          rewrite <- Hst, <- !app_assoc. done. }
        rewrite decide_False by (simpl; lia).
        exists size, leaf, mh'. split; [done|]. rewrite Htake.
        rewrite (roots_app_lt j L1) by (rewrite ?length_app; simpl; lia).
        by rewrite <- (app_assoc pre).
Qed.

Lemma append_loop_top j fuel L h mh acc :
  blen L + 1 < 2 ^ Z.of_nat j → (j ≤ fuel)%nat →
  ∃ size leaf mh' new,
    append_loop fuel (roots L) (blen L) (blen (roots L)) h mh acc = Some (size, leaf, mh', acc ++ new) ∧
    take (Z.to_nat size) (roots L) ++ [leaf] = roots (L ++ [h]) ∧
    stored (L ++ [h]) = stored L ++ h :: new.
Proof.
  intros HL Hf. rewrite <- pow2_Z in HL.
  destruct (append_loop_carry j fuel [] L h (blen L) mh acc) as (new & Hst & Hloop); [lia|lia| |done|].
  { rewrite <- pow2_Z. apply Z.mod_small. lia. }
  rewrite decide_False in Hloop by lia. destruct Hloop as (size & leaf & mh' & Hloop & Htake).
  exists size, leaf, mh', new. by split_and!.
Qed.

(** The store only grows. *)
Lemma stored_snoc L h : ∃ new, stored (L ++ [h]) = stored L ++ h :: new.
Proof.
  destruct (append_loop_top (S (length L)) (S (length L)) L h 0 []) as (_ & _ & _ & new & _ & _ & E);
    [|done|by exists new].
  rewrite <- pow2_Z. pose proof (Nat.pow_gt_lin_r 2 (S (length L))). lia.
Qed.

Lemma stored_prefix L1 L2 : stored L1 `prefix_of` stored (L1 ++ L2).
Proof.
  induction L2 as [|h L2 IH] using rev_ind; [by rewrite app_nil_r|].
  rewrite app_assoc. destruct (stored_snoc (L1 ++ L2) h) as [new ->].
  by apply prefix_app_r.
Qed.

Lemma appendHash_ok t D leaf :
  tree_ok t D → blen D + 1 < 2 ^ 32 →
  ∃ t', appendHash leaf t = Some (reverse (roots D), t') ∧ tree_ok t' (D ++ [leaf]) ∧
    (hashStore t' = None ↔ hashStore t = None).
Proof.
  intros [Hsz Hb Hh Hst Hr] HD. unfold appendHash. rewrite Hsz, Hh.
  destruct (append_loop_top 32 33 D leaf 1 [leaf]) as (size & lf & mh & new & -> & Htake & Hstored);
    [done|lia|]. cbn [mbind option_bind]. rewrite uwrap_small by (unfold in_range; lia).
  eexists. split_and!; [done| |by destruct (hashStore t)]. split; simpl.
  - rewrite length_app. simpl. lia.
  - rewrite length_app. simpl. lia.
  - done.
  - intros s. destruct (hashStore t) as [s0|]; [|done]. simpl. intros [= <-].
    destruct (Hst s0) as [Hwf Hv]; [done|]. split; [by apply hs_Append_wf|].
    by rewrite hs_Append_view, Hv, Hstored.
  - by left.
Qed.

Lemma Root_ok t D :
  tree_ok t D → ∃ t', Root t = Some (mth D, t') ∧ tree_ok t' D.
Proof.
  intros Hok. pose proof Hok as [Hsz Hb Hh Hst Hr]. unfold Root.
  case_decide as He; [|destruct Hr as [|Hr]; [done|]; rewrite Hr; eauto].
  assert ((if decide (blen (hashes t) ≠ 0) then hash_fold (hashes t) else Some hash_empty)
          = Some (mth D)) as ->.
  { rewrite Hh. case_decide as Hn.
    - apply hash_fold_roots. intros ->. done.
    - destruct (roots D) as [|] eqn:E; [|simpl in Hn; lia]. apply roots_nil in E as ->. done. }
  cbn [mbind option_bind]. eexists. split; [done|]. split; simpl; auto.
Qed.

Lemma hash_fold_roots_snoc D h : hash_fold (roots D ++ [h]) = Some (mth (D ++ [h])).
Proof.
  induction D as [|h0|j L1 L2 H1 H2 IH1 IH2] using split_ind.
  - done.
  - rewrite (mth_app 0 [h0] [h]) by (simpl; lia). done.
  - pose proof (pow2_pos j). destruct (decide (length L2 = 2 ^ j)%nat) as [He|Hne].
    + rewrite (roots_full (S j)) by (rewrite length_app; simpl; lia).
      rewrite (mth_app (S j) (L1 ++ L2) [h]) by (rewrite ?length_app; simpl; lia). done.
    + rewrite (roots_app_lt j), <- app_assoc by lia. cbn [app]. rewrite hash_fold_cons, IH2.
      * by rewrite (mth_app j L1) by (rewrite ?length_app; simpl; lia).
      * by destruct (roots L2).
Qed.

Lemma append_all_ok t D ls :
  tree_ok t D → blen D + blen ls < 2 ^ 32 →
  ∃ t', append_all ls t = Some t' ∧ tree_ok t' (D ++ (hash_leaf <$> ls)).
Proof.
  revert t D. induction ls as [|h ls IH]; intros t D Hok Hlen.
  - rewrite app_nil_r. by exists t.
  - cbn [length] in Hlen. destruct (appendHash_ok t D (hash_leaf h)) as (t1 & E1 & Hok1 & _); [done|lia|].
    destruct (IH t1 _ Hok1) as (t2 & E2 & Hok2); [rewrite length_app; simpl; lia|].
    exists t2. cbn [append_all]. unfold Append. rewrite E1. cbn [mbind option_bind]. split; [done|].
    rewrite <- app_assoc in Hok2. done.
Qed.

Lemma cloneMem_ok t D : tree_ok t D → tree_ok (cloneMem t) D.
Proof. intros [Hsz Hb Hh Hst Hr]. by split. Qed.

Lemma update_ok t D :
  blen D < 2 ^ 32 → (∀ s, hashStore t = Some s → hs_wf s ∧ hs_view s = stored D) →
  ∃ t', update (blen D) (roots D) t = Some t' ∧ tree_ok t' D.
Proof.
  intros HD Hst. unfold update. rewrite countBit_popcount by (unfold in_range; lia).
  rewrite decide_False by (rewrite length_roots; lia).
  eexists. split; [done|]. split; simpl; auto.
Qed.

Lemma parse_hashes_bytes l : parse_hashes (length l) (hashes_bytes l) = l.
Proof. apply (parse_hashes_app 0 [] l). done. Qed.

(** ** Positions of the roots in the store *)

(** Prefix sums: the second loop of [getSubTreePos]. *)
Fixpoint accumulate (acc : Z) (l : list Z) : list Z :=
  match l with
  | [] => []
  | x :: l' => let y := u32 (x + acc) in y :: accumulate y l'
  end.

Definition getSubTreePos (n : Z) : option (list Z) :=
  sizes ← getSubTreeSize n; Some (accumulate 0 sizes).

(** [for p := range pos { pos[p] += base; h[p], _ = GetHash(pos[p] - 1) }]. *)
Fixpoint gather (s : St) (base : Z) (pos : list Z) : option (list Uint256) :=
  match pos with
  | [] => Some []
  | p :: pos' =>
      h ← hs_GetHash (u32 (u32 (p + base) - 1)) s;
      hs ← gather s base pos';
      Some (h :: hs)
  end.

(** [merkleRoot(n)]: the root of the first [n] leaves. *)
Definition merkleRoot (n : Z) t : option Uint256 :=
  hashespos ← getSubTreePos n;
  s ← hashStore t;
  hs ← gather s 0 hashespos;
  hash_fold hs.

(** The store holds the hashes of the tree over [L] from index [o] on. *)
Definition embeds (s : St) (o : Z) (L : list Uint256) : Prop :=
  hs_wf s ∧ ∃ pre post, hs_view s = pre ++ stored L ++ post ∧ blen pre = o.

Lemma embeds_left s o j L1 L2 :
  length L1 = (2 ^ j)%nat → (0 < length L2 ≤ 2 ^ j)%nat → embeds s o (L1 ++ L2) → embeds s o L1.
Proof.
  intros H1 H2 (Hwf & pre & post & Hv & Ho). split; [done|].
  rewrite (stored_app j) in Hv by done. rewrite <- app_assoc in Hv. eauto.
Qed.

Lemma embeds_right s o j L1 L2 :
  length L1 = (2 ^ j)%nat → (0 < length L2 ≤ 2 ^ j)%nat → embeds s o (L1 ++ L2) →
  embeds s (o + (2 * Z.of_nat (2 ^ j) - 1)) L2.
Proof.
  intros H1 H2 (Hwf & pre & post & Hv & Ho). split; [done|].
  rewrite (stored_app j), <- !app_assoc in Hv by done.
  rewrite (app_assoc pre) in Hv. eexists _, _. split; [exact Hv|].
  rewrite length_app, (length_stored_full j) by done. pose proof (pow2_pos j). lia.
Qed.

Lemma length_stored L : blen (stored L) ≤ 2 * blen L.
Proof.
  induction L as [| |j L1 L2 H1 H2 IH1 IH2] using split_ind; [simpl; lia..|].
  rewrite (stored_app j) by done. rewrite !length_app, (length_stored_full j) by done.
  pose proof (pow2_pos j). case_decide; simpl; lia.
Qed.

(** The last hash of a full subtree is its root. *)
Lemma embeds_root s o j L :
  length L = (2 ^ j)%nat → embeds s o L →
  hs_GetHash (o + (2 * Z.of_nat (2 ^ j) - 1) - 1) s = Some (mth L).
Proof.
  intros HL (Hwf & pre & post & Hv & <-). pose proof (pow2_pos j).
  pose proof (length_stored_full j L HL) as Hlen.
  replace (blen pre + (2 * Z.of_nat (2 ^ j) - 1) - 1)
    with (Z.of_nat (length pre + pred (length (stored L)))) by lia.
  apply hs_GetHash_view; [done|]. rewrite Hv, lookup_app_r by lia.
  replace (length pre + pred (length (stored L)) - length pre)%nat with (pred (length (stored L))) by lia.
  rewrite lookup_app_l by lia. rewrite <- last_lookup. by apply (stored_full_last j).
Qed.

Lemma u32_pred x : 1 ≤ x < 2 ^ 32 → u32 (u32 x - 1) = x - 1.
Proof. intros Hx. by rewrite (uwrap_small 32 x), (uwrap_small 32 (x - 1)) by (unfold in_range; lia). Qed.

Lemma gather_roots s o base L acc :
  embeds s o L → 0 ≤ o → acc + base = o → 0 ≤ acc → 0 ≤ base → o + 2 * blen L < 2 ^ 32 →
  gather s base (accumulate acc (Zsizes (blen L))) = Some (roots L).
Proof.
  revert o acc. induction L as [|h|j L1 L2 H1 H2 IH1 IH2] using split_ind;
    intros o acc Hemb Ho Hbase Hacc Hb Hmax; [done| |].
  - cbn [length accumulate Zsizes psizes Z.of_nat gather]. change (Zsizes (Z.of_nat 1)) with [1].
    cbn [accumulate gather]. simpl length in Hmax.
    rewrite (uwrap_small 32 (1 + acc)), u32_pred by (unfold in_range; lia).
    pose proof (embeds_root s o 0 [h] eq_refl Hemb) as E.
    replace (1 + acc + base - 1) with (o + (2 * Z.of_nat (2 ^ 0) - 1) - 1) by (simpl; lia).
    rewrite E. done.
  - pose proof (pow2_pos j). rewrite length_app in Hmax.
    destruct (decide (length L2 = 2 ^ j)%nat) as [He|Hne].
    + assert (length (L1 ++ L2) = 2 ^ S j)%nat as HL by (rewrite length_app; simpl; lia).
      rewrite HL, (roots_full (S j)), Zsizes_pow2 by done. cbn [accumulate gather].
      assert (Z.of_nat (2 ^ S j) = 2 * Z.of_nat (2 ^ j)) as Hp by (simpl; lia).
      rewrite (uwrap_small 32 (_ + acc)), u32_pred by (unfold in_range; lia).
      pose proof (embeds_root s o (S j) (L1 ++ L2) HL Hemb) as E.
      replace (2 * Z.of_nat (2 ^ S j) - 1 + acc + base - 1)
        with (o + (2 * Z.of_nat (2 ^ S j) - 1) - 1) by lia.
      rewrite E. done.
    + rewrite length_app, Nat2Z.inj_add, H1, pow2_Z.
      rewrite Zsizes_add, (roots_app_lt j) by (rewrite <- ?pow2_Z; lia). rewrite <- pow2_Z.
      cbn [accumulate gather]. rewrite (uwrap_small 32 (_ + acc)), u32_pred by (unfold in_range; lia).
      replace (2 * Z.of_nat (2 ^ j) - 1 + acc + base - 1)
        with (o + (2 * Z.of_nat (2 ^ j) - 1) - 1) by lia.
      rewrite (embeds_root s o j L1) by (done || by eapply embeds_left). cbn [mbind option_bind].
      rewrite (IH2 (o + (2 * Z.of_nat (2 ^ j) - 1))); try lia; [done|].
      by apply (embeds_right s o j L1 L2).
Qed.

Lemma getSubTreePos_spec n : 0 ≤ n < 2 ^ 31 → getSubTreePos n = Some (accumulate 0 (Zsizes n)).
Proof. intros Hn. unfold getSubTreePos. by rewrite getSubTreeSize_spec. Qed.

(** Reading the roots of an embedded tree and folding them. *)
Lemma subtree_root s o L :
  embeds s o L → L ≠ [] → 0 ≤ o → o + 2 * blen L < 2 ^ 32 →
  (pos ← getSubTreePos (blen L); hs ← gather s o pos; hash_fold hs) = Some (mth L).
Proof.
  intros Hemb Hne Ho Hmax. rewrite getSubTreePos_spec by lia. cbn [mbind option_bind].
  rewrite (gather_roots s o) by (done || lia). cbn [mbind option_bind]. by apply hash_fold_roots.
Qed.

(** ** Inclusion proofs *)

(** The loop that [InclusionProof] and [MerkleInclusionLeafPath] share: the
    hashes with their positions, outermost first. *)
Fixpoint inclusion_loop (fuel : nat) (s : St) (m n offset : Z) (acc : list (byte * Uint256))
    : option (list (byte * Uint256)) :=
  match fuel with
  | O => None
  | S fuel' =>
      if decide (n = 1) then Some acc else
      let k := split_k n in
      if decide (m < k) then
        rootk2n ← (pos ← getSubTreePos (u32 (n - k));
                   subhashes ← gather s (u32 (offset + k * 2 - 1)) pos;
                   hash_fold subhashes);
        inclusion_loop fuel' s m k offset (acc ++ [(byte_of_Z 1, rootk2n)])
      else
        let offset := u32 (offset + k * 2 - 1) in
        root02k ← hs_GetHash (u32 (offset - 1)) s;
        inclusion_loop fuel' s (u32 (m - k)) (u32 (n - k)) offset (acc ++ [(byte_of_Z 0, root02k)])
  end.

Definition InclusionProof (m n : Z) t : option (res (list Uint256)) :=
  if decide (n ≤ m) then Some (Err "wrong parameters")
  else if decide (treeSize t < n) then Some (Err "not available yet")
  else match hashStore t with
       | None => Some (Err "hash store not available")
       | Some s =>
           acc ← inclusion_loop 33 s m n 0 [];
           Some (Ok (reverse (snd <$> acc)))
       end.

Definition MerkleInclusionLeafPath (data : bytes) (m n : Z) t : option (res bytes) :=
  if decide (n ≤ m) then Some (Err "wrong parameters")
  else if decide (treeSize t < n) then Some (Err "not available yet")
  else match hashStore t with
       | None => Some (Err "hash store not available")
       | Some s =>
           acc ← inclusion_loop 33 s m n 0 [];
           Some (Ok (enc_ops (OpVarBytes data ::
                   mjoin ((λ ph, [OpByte ph.1; OpHash ph.2]) <$> reverse acc))))
       end.

(** The audit path of leaf [m], innermost first. *)
Inductive incl_path : list Uint256 → nat → list (byte * Uint256) → Prop :=
  | ip_one h : incl_path [h] 0 []
  | ip_left j l1 l2 m p :
      length l1 = (2 ^ j)%nat → (0 < length l2 ≤ 2 ^ j)%nat → (m < length l1)%nat →
      incl_path l1 m p → incl_path (l1 ++ l2) m (p ++ [(RIGHT, mth l2)])
  | ip_right j l1 l2 m p :
      length l1 = (2 ^ j)%nat → (0 < length l2 ≤ 2 ^ j)%nat →
      incl_path l2 m p → incl_path (l1 ++ l2) (length l1 + m) (p ++ [(LEFT, mth l1)]).

Lemma incl_path_root L m p h :
  incl_path L m p → L !! m = Some h → path_root h p = mth L.
Proof.
  intros Hp. revert h. induction Hp as [h0|j l1 l2 m p H1 H2 Hm Hp IH|j l1 l2 m p H1 H2 Hp IH];
    intros h Hh.
  - simpl in Hh. by injection Hh as ->.
  - rewrite lookup_app_l in Hh by done. unfold path_root in *. rewrite foldl_app, (IH h) by done.
    simpl. by rewrite (mth_app j).
  - rewrite lookup_app_r in Hh by lia. replace (length l1 + m - length l1)%nat with m in Hh by lia.
    unfold path_root in *. rewrite foldl_app, (IH h) by done. simpl. by rewrite (mth_app j).
Qed.

Lemma incl_path_length L m p : incl_path L m p → (length p < length L)%nat.
Proof.
  induction 1 as [h0|j l1 l2 m p H1 H2 Hm Hp IH|j l1 l2 m p H1 H2 Hp IH];
    rewrite ?length_app; simpl; lia.
Qed.

Lemma inclusion_loop_ok s fuel d L (m : nat) o acc :
  (length L ≤ 2 ^ d)%nat → (d < fuel)%nat → (m < length L)%nat →
  embeds s o L → 0 ≤ o → o + 2 * blen L < 2 ^ 32 →
  ∃ p, incl_path L m p ∧
    inclusion_loop fuel s (Z.of_nat m) (blen L) o acc = Some (acc ++ reverse p).
Proof.
  revert fuel d m o acc. induction L as [|h|j L1 L2 H1 H2 IH1 IH2] using split_ind;
    intros fuel d m o acc Hd Hf Hm Hemb Ho Hmax; [simpl in Hm; lia| |].
  - exists []. destruct m; [|simpl in Hm; lia]. split; [constructor|].
    destruct fuel; [lia|]. simpl. by rewrite app_nil_r.
  - pose proof (pow2_pos j). rewrite length_app in Hd, Hm, Hmax.
    destruct fuel as [|fuel]; [lia|]. destruct d as [|d]; [simpl in Hd; lia|].
    assert (2 ^ j ≤ 2 ^ d)%nat as Hjd.
    { apply Nat.pow_le_mono_r; [done|]. assert (j < S d)%nat; [|lia].
      apply (Nat.pow_lt_mono_r_iff 2); lia. }
    cbn [inclusion_loop]. rewrite length_app. rewrite decide_False by lia.
    rewrite (split_k_splits _ j) by (unfold splits; lia). rewrite H1.
    assert (u32 (o + Z.of_nat (2 ^ j) * 2 - 1) = o + (2 * Z.of_nat (2 ^ j) - 1)) as Hoff.
    { rewrite uwrap_small; unfold in_range; lia. }
    assert (u32 (Z.of_nat (2 ^ j + length L2) - Z.of_nat (2 ^ j)) = blen L2) as Hn.
    { rewrite uwrap_small; unfold in_range; lia. }
    pose proof (embeds_left _ _ _ _ _ H1 H2 Hemb) as Hl.
    pose proof (embeds_right _ _ _ _ _ H1 H2 Hemb) as Hr.
    case_decide as Hside.
    + rewrite Hoff, Hn.
      rewrite (subtree_root s _ L2) by (done || lia || (intros ->; simpl in *; lia)).
      cbn [mbind option_bind].
      destruct (IH1 fuel d m o (acc ++ [(byte_of_Z 1, mth L2)])) as (p & Hp & E); [lia..|done|lia|lia|].
      exists (p ++ [(RIGHT, mth L2)]). split; [by apply (ip_left j); [..|lia|]|].
      rewrite <- H1, E, reverse_app, <- app_assoc. done.
    + rewrite Hoff, Hn.
      rewrite (uwrap_small 32 (o + (2 * Z.of_nat (2 ^ j) - 1) - 1)) by (unfold in_range; lia).
      rewrite (embeds_root s o j L1) by done. cbn [mbind option_bind].
      rewrite uwrap_small by (unfold in_range; lia).
      replace (Z.of_nat m - Z.of_nat (2 ^ j)) with (Z.of_nat (m - 2 ^ j)) by lia.
      destruct (IH2 fuel d (m - 2 ^ j)%nat (o + (2 * Z.of_nat (2 ^ j) - 1)) (acc ++ [(byte_of_Z 0, mth L1)]))
        as (p & Hp & E); [lia..|done|lia|lia|].
      exists (p ++ [(LEFT, mth L1)]). split.
      * replace m with (length L1 + (m - 2 ^ j))%nat by lia. by apply (ip_right j).
      * rewrite E, reverse_app, <- app_assoc. done.
Qed.

Lemma embeds_prefix t D s n :
  tree_ok t D → hashStore t = Some s → embeds s 0 (take n D).
Proof.
  intros Hok Hs. destruct (ok_store _ _ Hok s Hs) as [Hwf Hv]. split; [done|].
  destruct (stored_prefix (take n D) (drop n D)) as [post Hpost]. rewrite take_drop in Hpost.
  exists [], post. by rewrite Hv, Hpost.
Qed.

Lemma inclusion_loop_tree t D s (m n : nat) :
  tree_ok t D → hashStore t = Some s → (m < n ≤ length D)%nat → blen D < 2 ^ 31 →
  ∃ p, incl_path (take n D) m p ∧
    inclusion_loop 33 s (Z.of_nat m) (Z.of_nat n) 0 [] = Some (reverse p).
Proof.
  intros Hok Hs Hmn HD. pose proof (embeds_prefix t D s n Hok Hs) as Hemb.
  assert (length (take n D) = n) as Hlen by (rewrite length_take; lia).
  destruct (inclusion_loop_ok s 33 (Nat.log2_up n) (take n D) m 0 []) as (p & Hp & E).
  - rewrite Hlen. apply Nat.log2_log2_up_spec. lia.
  - assert (Nat.log2_up n ≤ 32)%nat; [|lia]. apply Nat.log2_up_le_pow2; [lia|].
    apply Nat2Z.inj_le. rewrite pow2_Z. lia.
  - lia.
  - done.
  - done.
  - rewrite Hlen. lia.
  - exists p. by rewrite Hlen in E.
Qed.

(** ** Size of the stored hashes *)

Lemma foldl_add_acc (l : list Z) acc : foldl Z.add acc l = acc + foldl Z.add 0 l.
Proof.
  revert acc. induction l as [|x l IH]; intros acc; simpl; [lia|].
  rewrite (IH (acc + x)), (IH (0 + x)). lia.
Qed.

Lemma sum_Zsizes L : foldl Z.add 0 (Zsizes (blen L)) = blen (stored L).
Proof.
  induction L as [| |j L1 L2 H1 H2 IH1 IH2] using split_ind; [done..|].
  pose proof (pow2_pos j). destruct (decide (length L2 = 2 ^ j)%nat) as [He|Hne].
  - assert (length (L1 ++ L2) = 2 ^ S j)%nat as HL by (rewrite length_app; simpl; lia).
    rewrite HL, Zsizes_pow2, (length_stored_full (S j)) by done. cbn [foldl].
    pose proof (pow2_pos (S j)). lia.
  - rewrite (stored_app_lt j) by lia. rewrite !length_app, Nat2Z.inj_add, H1, pow2_Z.
    rewrite Zsizes_add by (rewrite <- pow2_Z; lia). cbn [foldl]. rewrite foldl_add_acc, IH2.
    rewrite (length_stored_full j L1), <- pow2_Z by done. lia.
Qed.

Lemma getStoredHashNum_stored L : blen L < 2 ^ 31 → getStoredHashNum (blen L) = Some (blen (stored L)).
Proof.
  intros HL. unfold getStoredHashNum. rewrite getSubTreeSize_spec by lia. cbn [mbind option_bind].
  by rewrite sum_Zsizes.
Qed.

(** ** Properties *)

(** The incremental tree is the reference tree.  Starting from an empty
    tree, with or without a hash store, appending fewer than 2^32 values never
    panics and [Root] is then the root that [HashFullTree] computes from the
    whole list of values. *)
Theorem append_all_Root (leaves : list bytes) (store : option St) :
  (∀ s, store = Some s → hs_wf s ∧ hs_view s = []) → blen leaves < 2 ^ 32 →
  ∃ t0 t t', NewTree 0 [] store = Some t0 ∧ append_all leaves t0 = Some t ∧
    Root t = (λ r, (r, t')) <$> HashFullTree leaves ∧ treeSize t = blen leaves.
Proof.
  intros Hst Hlen. destruct (update_ok (mkTree 0 [] store EMPTY_HASH 0) []) as (t0 & E0 & Hok0);
    [done|done|].
  destruct (append_all_ok t0 [] leaves Hok0) as (t & Et & Hok); [done|].
  destruct (Root_ok t _ Hok) as (t' & Er & _).
  exists t0, t, t'. split_and!; [done|done| |].
  - rewrite Er. unfold HashFullTree. by rewrite HashFullTree_mth by (by rewrite length_fmap).
  - rewrite (ok_size _ _ Hok). simpl. by rewrite length_fmap.
Qed.

Lemma GetRootWithNewLeaves_ok t D newLeaf :
  tree_ok t D → blen D + blen newLeaf < 2 ^ 32 →
  GetRootWithNewLeaves newLeaf t = Some (mth (D ++ (hash_leaf <$> (to_slice <$> newLeaf)))).
Proof.
  intros Hok Hlen. destruct (append_all_ok (cloneMem t) D (to_slice <$> newLeaf)) as (t1 & E1 & Hok1);
    [by apply cloneMem_ok|by rewrite length_fmap|].
  destruct (Root_ok t1 _ Hok1) as (t2 & E2 & _). unfold GetRootWithNewLeaves.
  rewrite E1. cbn [mbind option_bind]. by rewrite E2.
Qed.

Lemma GetRootWithNewLeaf_ok t D h : tree_ok t D → GetRootWithNewLeaf h t = Some (mth (D ++ [hash_leaf (to_slice h)])).
Proof. intros Hok. unfold GetRootWithNewLeaf. rewrite (ok_hashes _ _ Hok). apply hash_fold_roots_snoc. Qed.

(** In a tree holding the leaf hashes [D],
    [GetRootWithNewLeaves] returns the root that the tree would have after
    appending the new leaves, which for a single leaf is also what
    [GetRootWithNewLeaf] returns. *)
Lemma GetRootWithNewLeaves_correct t D (newLeaf : list Uint256) :
  tree_ok t D → blen D + blen newLeaf < 2 ^ 32 →
  GetRootWithNewLeaves newLeaf t = Some (mth (D ++ (hash_leaf <$> (to_slice <$> newLeaf)))) ∧
  ∀ h, GetRootWithNewLeaf h t = Some (mth (D ++ [hash_leaf (to_slice h)])).
Proof. intros Hok Hlen. split; [by apply GetRootWithNewLeaves_ok|intros h; by apply GetRootWithNewLeaf_ok]. Qed.

(** Historical inclusion proofs.  For every leaf [m] and every earlier
    size [n] of the tree, [MerkleInclusionLeafPath] returns a path and
    [MerkleProve] accepts it for the leaf's value against the root the tree had
    when its size was [n]. *)
Lemma MerkleInclusionLeafPath_complete t D s (data : bytes) (m n : nat) :
  tree_ok t D → hashStore t = Some s → blen D < 2 ^ 31 → (m < n ≤ length D)%nat →
  D !! m = Some (HashLeaf data) → blen data < 2 ^ 60 →
  ∃ path root, MerkleInclusionLeafPath data (Z.of_nat m) (Z.of_nat n) t = Some (Ok path) ∧
    HashFullTreeWithLeafHash (take n D) = Some root ∧
    MerkleProve path (to_slice root) = Ok data.
Proof.
  intros Hok Hs HD Hmn Hm Hdata. unfold MerkleInclusionLeafPath. rewrite Hs.
  rewrite decide_False by lia. rewrite decide_False by (rewrite (ok_size _ _ Hok); lia).
  destruct (inclusion_loop_tree t D s m n) as (p & Hp & ->); [done..|]. cbn [mbind option_bind].
  rewrite reverse_involutive. exists (enc_ops (OpVarBytes data :: path_ops p)), (mth (take n D)).
  split_and!; [done|apply HashFullTree_mth; rewrite length_take; lia|].
  rewrite MerkleProve_encoded.
  - rewrite (incl_path_root _ _ _ _ Hp), decide_True; [done..|].
    by rewrite lookup_take_lt by lia.
  - rewrite enc_ops_cons, length_app. cbn [enc_op]. rewrite length_app.
    pose proof (length_path_ops p). pose proof (length_enc_varuint_le (blen data)).
    pose proof (incl_path_length _ _ _ Hp) as Hlp. rewrite length_take in Hlp. lia.
Qed.

(** Serializing a tree and reading it back gives a
    tree over the same leaves. *)
Lemma UnMarshal_Marshal t D t0 :
  tree_ok t D → (∀ s, hashStore t0 = Some s → hs_wf s ∧ hs_view s = stored D) →
  ∃ t', UnMarshal (Marshal t) t0 = Some (Ok t') ∧ tree_ok t' D ∧ hashStore t' = hashStore t0.
Proof.
  intros [Hsz Hb Hh Hst Hr] Hst0. unfold UnMarshal, Marshal. rewrite Hsz, Hh.
  pose proof (go_slice_app [] (be_put 4 (blen D)) (hashes_bytes (roots D))) as Hgs.
  cbn [app] in Hgs. rewrite length_be_put in Hgs. change (blen []) with 0 in Hgs.
  change (Z.of_nat 4) with 4 in Hgs. rewrite Hgs. cbn [mbind option_bind].
  rewrite be_get_put_small by (unfold in_range; simpl; lia).
  rewrite countBit_popcount, <- length_roots by (unfold in_range; lia).
  rewrite length_app, length_be_put, length_hashes_bytes.
  rewrite decide_False by (unfold UINT256_SIZE; lia).
  rewrite drop_app_length' by (by rewrite length_be_put). rewrite Nat2Z.id, parse_hashes_bytes.
  destruct (update_ok t0 D) as (t' & E & Hok); [done..|]. rewrite E. cbn [mbind option_bind].
  exists t'. split_and!; [done|done|]. unfold update in E. by case_decide; simplify_eq.
Qed.

End merkle_tree.

(** Restart after a crash: reopening the hash file for a tree of the
    leaves [D] recovers exactly the hashes of that tree, whatever was written
    behind them. *)
Lemma NewFileHashStore_recovers `{Hasher} (D : list Uint256) (junk : bytes) :
  blen D < 2 ^ 31 →
  ∃ f, NewFileHashStore (hashes_bytes (stored D) ++ junk) (blen D) = Some (Ok f) ∧
    hs_wf f ∧ hs_view f = stored D.
Proof.
  intros HD. unfold NewFileHashStore, checkConsistence. rewrite getStoredHashNum_stored by done.
  cbn [mbind option_bind file_data]. change UINT256_SIZE with 32.
  rewrite decide_False by (rewrite length_app, length_hashes_bytes; lia).
  eexists. split; [done|]. split.
  - exists (length (stored D)). simpl. rewrite length_app, length_hashes_bytes. lia.
  - cbn [hs_view file_hash_store]. unfold file_view. cbn [file_pos file_data].
    replace (Z.to_nat (blen (stored D) * 32)) with (length (stored D) * 32)%nat by lia.
    rewrite Nat.div_mul by lia.
    rewrite <- (parse_hashes_take _ (32 * length (stored D))) by lia.
    rewrite take_app_length' by (rewrite length_hashes_bytes; lia). apply parse_hashes_bytes.
Qed.

(** ** Examples *)

#[local] Existing Instance poly_hasher.

Definition ex_leaves : list Uint256 := HashLeaf <$> ex_datas.

(** The tree over a memory store after appending [ex_datas]. *)
Definition ex_tree : CompactMerkleTree memHashStore :=
  match (t ← NewTree 0 [] (Some (mkMemHashStore [])); append_all ex_datas t) with
  | Some t => t
  | None => mkTree 0 [] None EMPTY_HASH 0
  end.
Definition ex_store : memHashStore := default (mkMemHashStore []) (hashStore ex_tree).

Lemma ex_tree_ok : tree_ok ex_tree ex_leaves.
Proof.
  unfold ex_tree.
  destruct (update_ok (mkTree 0 [] (Some (mkMemHashStore [])) EMPTY_HASH 0) []) as (t0 & E0 & Hok0);
    [done|by intros s [= <-]|].
  change (NewTree 0 [] (Some (mkMemHashStore []))) with
    (update (blen (@nil Uint256)) (roots []) (mkTree 0 [] (Some (mkMemHashStore [])) EMPTY_HASH 0)).
  rewrite E0. cbn [mbind option_bind].
  destruct (append_all_ok t0 [] ex_datas Hok0) as (t & -> & Hok); [done|]. exact Hok.
Qed.

Lemma append_all_Root_example :
  ∃ t0 t t', NewTree 0 [] (Some (mkMemHashStore [])) = Some t0 ∧ append_all ex_datas t0 = Some t ∧
    Root t = (λ r, (r, t')) <$> HashFullTree ex_datas ∧ treeSize t = 5.
Proof.
  apply (append_all_Root ex_datas (Some (mkMemHashStore []))).
  - intros s [= <-]. done.
  - simpl. lia.
Defined.

Lemma MerkleInclusionLeafPath_complete_example :
  ∃ path root, MerkleInclusionLeafPath (gs "bc") 1 3 ex_tree = Some (Ok path) ∧
    HashFullTreeWithLeafHash (take 3 ex_leaves) = Some root ∧
    MerkleProve path (to_slice root) = Ok (gs "bc").
Proof.
  apply (MerkleInclusionLeafPath_complete ex_tree ex_leaves ex_store (gs "bc") 1 3).
  - apply ex_tree_ok.
  - reflexivity.
  - simpl. lia.
  - simpl. lia.
  - reflexivity.
  - simpl. lia.
Defined.
