(* ===== verification/MerkleVerifier.v ===== *)
(** * Verifying audit paths (merkle/merkle_tree.go, MerkleVerifier)

    [calculate_root_hash_from_audit_path] walks from a leaf index to the root,
    level by level.  It accepts exactly the audit path of the leaf: the proofs of
    [InclusionProof] verify, and a path that verifies fixes the leaf up to a
    collision of the hash function. *)

From S2P Require Import Prelude Sha256 Sink Source MerkleUtil MerkleSpec MerkleHasher HashStore MerkleTree.

Section verifier.
Context `{Hasher}.

(** ** The code *)

(** The loop on [(calculated_hash, node_index, audit_path[pos:], last_node)]. *)
Fixpoint audit_loop (fuel : nat) (calculated_hash : Uint256) (node_index last_node : Z)
    (audit_path : list Uint256) : res (Uint256 * list Uint256) :=
  match fuel with
  | O => Panic
  | S fuel' =>
      if decide (0 < last_node) then
        match audit_path with
        | [] => Err "Proof too short"
        | v :: rest =>
            let '(h, path) :=
              if decide (node_index mod 2 = 1) then (hash_children v calculated_hash, rest)
              else if decide (node_index < last_node) then (hash_children calculated_hash v, rest)
              else (calculated_hash, audit_path) in
            audit_loop fuel' h (node_index / 2) (last_node / 2) path
        end
      else Ok (calculated_hash, audit_path)
  end.

Definition calculate_root_hash_from_audit_path (leaf_hash : Uint256) (node_index : Z)
    (audit_path : list Uint256) (tree_size : Z) : res Uint256 :=
  match audit_loop 33 leaf_hash node_index (u32 (tree_size - 1)) audit_path with
  | Ok (calculated_hash, []) => Ok calculated_hash
  | Ok (_, _ :: _) => Err "Proof too long"
  | Err e => Err e
  | Panic => Panic
  end.

Definition VerifyLeafHashInclusion (leaf_hash : Uint256) (leaf_index : Z) (proof : list Uint256)
    (root_hash : Uint256) (tree_size : Z) : res unit :=
  if decide (tree_size ≤ leaf_index)
  then Err "Wrong params: the tree size is smaller than the leaf index" else
  match calculate_root_hash_from_audit_path leaf_hash leaf_index proof tree_size with
  | Ok calculated_root_hash =>
      if decide (calculated_root_hash ≠ root_hash)
      then Err "Constructed root hash differs from provided root hash" else Ok tt
  | Err e => Err e
  | Panic => Panic
  end.

Definition VerifyLeafInclusion (leaf : bytes) (leaf_index : Z) (proof : list Uint256)
    (root_hash : Uint256) (tree_size : Z) : res unit :=
  VerifyLeafHashInclusion (hash_leaf leaf) leaf_index proof root_hash tree_size.

(** ** One level of an audit path *)

Definition sibling (L : list Uint256) (m : nat) : list (byte * Uint256) :=
  if decide (m mod 2 = 1)%nat
  then match L !! (m - 1)%nat with Some v => [(LEFT, v)] | None => [] end
  else match L !! (m + 1)%nat with Some v => [(RIGHT, v)] | None => [] end.

Lemma even_pow2 j : (2 ^ S j mod 2 = 0)%nat.
Proof. simpl. replace (2 ^ j + (2 ^ j + 0))%nat with (2 ^ j * 2)%nat by lia. by rewrite Nat.Div0.mod_mul. Qed.

Lemma sibling_app_l j l1 l2 m :
  length l1 = (2 ^ S j)%nat → (m < length l1)%nat → sibling (l1 ++ l2) m = sibling l1 m.
Proof.
  intros H1 Hm. unfold sibling. pose proof (even_pow2 j) as Hev. rewrite <- H1 in Hev.
  pose proof (Nat.div_mod_eq m 2). pose proof (Nat.div_mod_eq (length l1) 2).
  pose proof (Nat.mod_upper_bound m 2). case_decide.
  - by rewrite lookup_app_l by lia.
  - by rewrite lookup_app_l by lia.
Qed.

Lemma sibling_app_r j l1 l2 m :
  length l1 = (2 ^ S j)%nat → sibling (l1 ++ l2) (length l1 + m) = sibling l2 m.
Proof.
  intros H1. unfold sibling. pose proof (even_pow2 j) as Hev. rewrite <- H1 in Hev.
  rewrite Nat.Div0.add_mod, Hev, Nat.add_0_l, Nat.Div0.mod_mod.
  pose proof (Nat.div_mod_eq m 2). pose proof (Nat.mod_upper_bound m 2).
  case_decide.
  - rewrite lookup_app_r by lia. by replace (length l1 + m - 1 - length l1)%nat with (m - 1)%nat by lia.
  - rewrite lookup_app_r by lia. by replace (length l1 + m + 1 - length l1)%nat with (m + 1)%nat by lia.
Qed.

Lemma incl_path_lt L m p : incl_path L m p → (m < length L)%nat.
Proof. induction 1; rewrite ?length_app; simpl; lia. Qed.

Lemma incl_path_single a m p : incl_path [a] m p → m = 0%nat ∧ p = [].
Proof.
  intros Hp. remember [a] as L eqn:HL.
  destruct Hp as [h0|j l1 l2 m p H1 H2|j l1 l2 m p H1 H2]; [done|..];
    apply (f_equal length) in HL; rewrite length_app in HL; pose proof (pow2_pos j); simpl in HL; lia.
Qed.

Lemma incl_path_nil L m : incl_path L m [] → length L = 1%nat.
Proof.
  intros Hp. remember [] as p eqn:E. destruct Hp; [done|..];
    by apply (f_equal length) in E; rewrite length_app in E; simpl in E; lia.
Qed.

(** An audit path is the sibling of its leaf followed by an audit path of the
    next level. *)
Lemma incl_path_level L m p :
  incl_path L m p → (2 ≤ length L)%nat →
  ∃ p', p = sibling L m ++ p' ∧ incl_path (nextLevel L) (m / 2) p'.
Proof.
  induction 1 as [h0|j l1 l2 m p H1 H2 Hm Hp IH|j l1 l2 m p H1 H2 Hp IH]; intros HL;
    [simpl in HL; lia|..]; (destruct j as [|j]; [clear IH|]).
  - destruct l1 as [|a [|]], l2 as [|b [|]]; simpl in *; try lia.
    apply incl_path_single in Hp as [-> ->]. exists []. split; [done|constructor].
  - pose proof (pow2_pos j). destruct IH as (p' & -> & Hp'); [simpl in *; lia|].
    rewrite (sibling_app_l j) by done. rewrite nextLevel_app by (exists (2 ^ j)%nat; simpl in *; lia).
    exists (p' ++ [(RIGHT, mth (nextLevel l2))]). split.
    { by rewrite <- app_assoc, mth_nextLevel by (intros ->; simpl in *; lia). }
    apply (ip_left j); [apply length_nextLevel_even; simpl in *; lia| | |done].
    + split; [apply nextLevel_nonempty; intros ->; simpl in *; lia|].
      apply length_nextLevel. simpl in *. lia.
    + by apply incl_path_lt in Hp'.
  - destruct l1 as [|a [|]], l2 as [|b [|]]; simpl in *; try lia.
    apply incl_path_single in Hp as [-> ->]. exists []. split; [done|constructor].
  - pose proof (pow2_pos j). rewrite (sibling_app_r j) by done.
    assert (length (nextLevel l1) = 2 ^ j)%nat as Hn1 by (apply length_nextLevel_even; simpl in *; lia).
    rewrite nextLevel_app by (exists (2 ^ j)%nat; simpl in *; lia).
    assert ((length l1 + m) / 2 = length (nextLevel l1) + m / 2)%nat as ->.
    { rewrite Hn1, H1. simpl. replace (2 ^ j + (2 ^ j + 0) + m)%nat with (m + 2 ^ j * 2)%nat by lia.
      rewrite Nat.div_add by lia. lia. }
    assert (∃ p', p = sibling l2 m ++ p' ∧ incl_path (nextLevel l2) (m / 2) p') as (p' & -> & Hp').
    { destruct (decide (2 ≤ length l2)%nat) as [Hge|Hlt]; [by apply IH|].
      destruct l2 as [|b [|]]; simpl in *; try lia.
      apply incl_path_single in Hp as [-> ->]. exists []. split; [done|constructor]. }
    exists (p' ++ [(LEFT, mth (nextLevel l1))]). split.
    { by rewrite <- app_assoc, mth_nextLevel by (intros ->; simpl in *; lia). }
    apply (ip_right j); [done| |done].
    split; [apply nextLevel_nonempty; intros ->; simpl in *; lia|].
    apply length_nextLevel. simpl in *. lia.
Qed.

(** ** The level loop *)

Lemma length_nextLevel_half l : length (nextLevel l) = ((length l + 1) / 2)%nat.
Proof.
  remember (length l) as n eqn:Hn. revert l Hn. induction n as [n IH] using lt_wf_ind. intros l ->.
  destruct l as [|a [|b l]]; [done..|]. cbn [nextLevel length].
  rewrite (IH (length l)) by (simpl; lia || done).
  replace (S (S (length l)) + 1)%nat with (length l + 1 + 1 * 2)%nat by lia.
  rewrite Nat.div_add by lia. lia.
Qed.

Lemma last_node_half L : (2 ≤ length L)%nat → (blen L - 1) / 2 = blen (nextLevel L) - 1.
Proof.
  intros HL. rewrite length_nextLevel_half.
  replace (length L + 1)%nat with (length L - 1 + 1 * 2)%nat by lia. rewrite Nat.div_add by lia.
  rewrite Nat2Z.inj_add, Nat2Z.inj_div, Nat2Z.inj_sub by lia. simpl. lia.
Qed.

Lemma nextLevel_shrinks d L : (length L ≤ 2 ^ S d)%nat → (length (nextLevel L) ≤ 2 ^ d)%nat.
Proof. intros HL. apply length_nextLevel. simpl in HL. lia. Qed.

(** The node above leaf [m], and the value the loop computes for it. *)
Lemma nextLevel_node L (m : nat) h :
  L !! m = Some h →
  nextLevel L !! (m / 2)%nat = Some (path_root h (sibling L m)) ∧
  (sibling L m = [] ↔ (m mod 2 = 0)%nat ∧ (m + 1 = length L)%nat).
Proof.
  intros Hh. pose proof (lookup_lt_Some _ _ _ Hh).
  pose proof (Nat.div_mod_eq m 2). pose proof (Nat.mod_upper_bound m 2).
  rewrite nextLevel_lookup. unfold sibling. case_decide as Ho.
  - replace (2 * (m / 2) + 1)%nat with m by lia. replace (2 * (m / 2))%nat with (m - 1)%nat by lia.
    rewrite Hh. destruct (L !! (m - 1)%nat) eqn:E; [|apply lookup_ge_None in E; lia].
    split; [done|]. split; [done|lia].
  - replace (2 * (m / 2))%nat with m by lia. rewrite Hh.
    destruct (L !! (m + 1)%nat) eqn:E.
    + apply lookup_lt_Some in E as ?. split; [done|]. split; [done|lia].
    + apply lookup_ge_None in E. split; [done|]. split; [lia|done].
Qed.

Lemma Zmod2_nat (m : nat) : Z.of_nat m mod 2 = Z.of_nat (m mod 2).
Proof. by rewrite Nat2Z.inj_mod. Qed.

Lemma audit_loop_complete fuel d L (m : nat) p h :
  (length L ≤ 2 ^ d)%nat → (d < fuel)%nat → L !! m = Some h → incl_path L m p →
  audit_loop fuel h (Z.of_nat m) (blen L - 1) (snd <$> p) = Ok (mth L, []).
Proof.
  revert d L m p h. induction fuel as [|fuel IH]; intros d L m p h Hd Hf Hh Hp; [lia|].
  pose proof (lookup_lt_Some _ _ _ Hh) as Hm. cbn [audit_loop].
  destruct (decide (length L = 1)%nat) as [H1|Hne].
  - destruct L as [|a [|]]; simplify_eq/=. apply incl_path_single in Hp as [-> ->].
    simpl in Hh. by simplify_eq.
  - rewrite decide_True by lia.
    destruct (incl_path_level L m p) as (p' & -> & Hp'); [done|lia|].
    destruct (nextLevel_node L m h Hh) as [Hnode Hnil].
    destruct d as [|d]; [simpl in Hd; lia|].
    assert (audit_loop fuel (path_root h (sibling L m)) (Z.of_nat m / 2) ((blen L - 1) / 2) (snd <$> p')
            = Ok (mth L, [])) as IHL.
    { rewrite last_node_half by lia. change 2 with (Z.of_nat 2). rewrite <- Nat2Z.inj_div.
      rewrite <- (mth_nextLevel L) by (intros ->; simpl in *; lia).
      apply (IH d); [by apply nextLevel_shrinks|lia|done|done]. }
    rewrite fmap_app, Zmod2_nat. unfold sibling in *. case_decide as Ho.
    + destruct (L !! (m - 1)%nat) as [v|] eqn:E; [|apply lookup_ge_None in E; lia].
      cbn [fmap list_fmap app snd]. rewrite decide_True by lia. exact IHL.
    + destruct (L !! (m + 1)%nat) as [v|] eqn:E.
      * apply lookup_lt_Some in E as ?. cbn [fmap list_fmap app snd].
        rewrite decide_False, decide_True by lia. exact IHL.
      * apply lookup_ge_None in E. cbn [fmap list_fmap app].
        destruct (snd <$> p') as [|v rest] eqn:Ep.
        { exfalso. apply fmap_nil_inv in Ep. subst p'.
          assert (length (nextLevel L) = 1)%nat as Hl1.
          { by apply incl_path_nil in Hp'. }
          rewrite length_nextLevel_half in Hl1. pose proof (Nat.div_mod_eq (length L + 1) 2).
          pose proof (Nat.mod_upper_bound (length L + 1) 2). pose proof (Nat.mod_upper_bound m 2).
          pose proof (Nat.div_mod_eq m 2). lia. }
        rewrite decide_False, decide_False by (pose proof (Nat.mod_upper_bound m 2); lia).
        exact IHL.
Qed.

(** ** Soundness of the loop *)

(** The messages that the loop hashes. *)
Fixpoint audit_msgs (fuel : nat) (calculated_hash : Uint256) (node_index last_node : Z)
    (audit_path : list Uint256) : list bytes :=
  match fuel, audit_path with
  | S fuel', v :: rest =>
      if decide (0 < last_node) then
        if decide (node_index mod 2 = 1)
        then children_msg v calculated_hash ::
             audit_msgs fuel' (hash_children v calculated_hash) (node_index / 2) (last_node / 2) rest
        else if decide (node_index < last_node)
        then children_msg calculated_hash v ::
             audit_msgs fuel' (hash_children calculated_hash v) (node_index / 2) (last_node / 2) rest
        else audit_msgs fuel' calculated_hash (node_index / 2) (last_node / 2) audit_path
      else []
  | _, _ => []
  end.

(** The nodes of one level and of all levels above it are nodes of the tree. *)
Lemma node_msgs_nextLevel L :
  (∀ i a b, L !! (2 * i)%nat = Some a → L !! (2 * i + 1)%nat = Some b →
     children_msg a b ∈ node_msgs L) ∧
  (L ≠ [] → node_msgs (nextLevel L) ⊆ node_msgs L).
Proof.
  induction L as [|h|j L1 L2 H1 H2 [IHa IHb] [IHc IHd]] using split_ind; [split; done|split|].
  - intros i a b Ha Hb. by apply lookup_lt_Some in Hb; simpl in Hb; lia.
  - done.
  - rewrite (node_msgs_app j) by done. destruct j as [|j].
    { destruct L1 as [|a1 [|]], L2 as [|b1 [|]]; simpl in *; try lia. split; [|intros _; set_solver].
      intros [|i] a b Ha Hb; simpl in *; [|rewrite Nat.add_succ_r in Ha; done].
      simplify_eq. set_solver. }
    pose proof (pow2_pos j). assert (Nat.Even (length L1)) as Hev by (exists (2 ^ j)%nat; simpl in *; lia).
    split.
    + intros i a b Ha Hb. destruct (decide (2 * i < length L1)%nat) as [Hlt|Hge].
      * destruct Hev as [q Hq]. rewrite lookup_app_l in Ha, Hb by lia.
        pose proof (IHa i a b Ha Hb). set_solver.
      * destruct Hev as [q Hq]. rewrite lookup_app_r in Ha, Hb by lia.
        pose proof (IHc (i - q)%nat a b) as Hin.
        replace (2 * (i - q))%nat with (2 * i - length L1)%nat in Hin by lia.
        replace (2 * i - length L1 + 1)%nat with (2 * i + 1 - length L1)%nat in Hin by lia.
        set_solver.
    + intros _. assert (L1 ≠ []) by (intros ->; simpl in *; lia).
      assert (L2 ≠ []) by (intros ->; simpl in *; lia).
      rewrite nextLevel_app by (by destruct Hev as [q Hq]; exists q).
      rewrite (node_msgs_app j), !mth_nextLevel; [set_solver|done|done| |].
      * apply length_nextLevel_even. simpl in *. lia.
      * split; [by apply nextLevel_nonempty|apply length_nextLevel; simpl in *; lia].
Qed.

Lemma audit_loop_sound fuel L (m : nat) path h Y :
  (m < length L)%nat → node_msgs L ⊆ Y →
  audit_loop fuel h (Z.of_nat m) (blen L - 1) path = Ok (mth L, []) →
  L !! m = Some h ∨ collision (audit_msgs fuel h (Z.of_nat m) (blen L - 1) path) Y.
Proof.
  revert L m path h. induction fuel as [|fuel IH]; intros L m path h Hm HY E; [done|].
  cbn [audit_loop] in E. destruct (lookup_lt_is_Some_2 L m Hm) as [x Hx].
  destruct (decide (length L = 1)%nat) as [H1|Hne].
  { destruct L as [|a [|]]; simplify_eq/=. destruct m; [by left|lia]. }
  rewrite decide_True in E by lia. destruct path as [|v rest]; [done|].
  destruct (nextLevel_node L m x Hx) as [Hnode _]. cbn [audit_msgs].
  rewrite (decide_True (P := 0 < blen L - 1)) by lia.
  rewrite Zmod2_nat in E |- *. pose proof (Nat.mod_upper_bound m 2). pose proof (Nat.div_mod_eq m 2).
  destruct (node_msgs_nextLevel L) as [Hpair Hnext].
  assert (∀ h' path', audit_loop fuel h' (Z.of_nat m / 2) ((blen L - 1) / 2) path' = Ok (mth L, []) →
          h' = path_root x (sibling L m) ∨
          collision (audit_msgs fuel h' (Z.of_nat m / 2) ((blen L - 1) / 2) path') Y) as IHL.
  { intros h' path' E'. rewrite last_node_half in E' |- * by lia.
    change 2 with (Z.of_nat 2) in E' |- *. rewrite <- Nat2Z.inj_div in E' |- *.
    assert (L ≠ []) by (intros ->; simpl in *; lia). rewrite <- (mth_nextLevel L) in E' by done.
    apply IH in E' as [E'|?]; [|by right|by apply lookup_lt_Some in Hnode|set_solver].
    left. by rewrite E' in Hnode; simplify_eq. }
  unfold sibling in IHL. destruct (decide (m mod 2 = 1)%nat) as [Ho|He].
  - rewrite (decide_True (P := Z.of_nat (m mod 2) = 1)) in E by lia.
    rewrite (decide_True (P := Z.of_nat (m mod 2) = 1)) by lia.
    destruct (L !! (m - 1)%nat) as [w|] eqn:Ew; [|apply lookup_ge_None in Ew; lia].
    destruct (IHL _ _ E) as [E'|Hc]; [|right; eapply collision_mono; [exact Hc|set_solver|done]].
    eapply hash_children_inj in E' as [[_ ->]|?]; [by left|by right|apply list_elem_of_here|].
    apply HY, (Hpair (m / 2)%nat); [by replace (2 * (m / 2))%nat with (m - 1)%nat by lia|].
    by replace (2 * (m / 2) + 1)%nat with m by lia.
  - rewrite (decide_False (P := Z.of_nat (m mod 2) = 1)) in E by lia.
    rewrite (decide_False (P := Z.of_nat (m mod 2) = 1)) by lia.
    destruct (L !! (m + 1)%nat) as [w|] eqn:Ew.
    + apply lookup_lt_Some in Ew as ?.
      rewrite (decide_True (P := Z.of_nat m < blen L - 1)) in E by lia.
    rewrite (decide_True (P := Z.of_nat m < blen L - 1)) by lia.
      destruct (IHL _ _ E) as [E'|Hc]; [|right; eapply collision_mono; [exact Hc|set_solver|done]].
      eapply hash_children_inj in E' as [[-> _]|?]; [by left|by right|apply list_elem_of_here|].
      apply HY, (Hpair (m / 2)%nat); [by replace (2 * (m / 2))%nat with m by lia|].
      by replace (2 * (m / 2) + 1)%nat with (m + 1)%nat by lia.
    + apply lookup_ge_None in Ew.
      rewrite (decide_False (P := Z.of_nat m < blen L - 1)) in E by lia.
    rewrite (decide_False (P := Z.of_nat m < blen L - 1)) by lia.
      destruct (IHL _ _ E) as [->|?]; [by left|by right].
Qed.

Lemma pow2_32_nat (l : list Uint256) : blen l < 2 ^ 32 → (length l ≤ 2 ^ 32)%nat.
Proof. intros Hl. apply Nat2Z.inj_le. rewrite pow2_Z. change (Z.of_nat 32) with 32. lia. Qed.

(** ** Properties *)

(** Audit paths fix the leaf.  If [VerifyLeafHashInclusion] accepts an
    audit path for index [m] of the tree over the leaf hashes [D] then the leaf
    at [m] is the one claimed, unless a message the verifier hashed collides
    with a different one of the tree. *)
Lemma VerifyLeafHashInclusion_sound (D : list Uint256) (leaf : Uint256) (m : nat) (proof : list Uint256)
    (root : Uint256) :
  blen D < 2 ^ 32 → HashFullTreeWithLeafHash D = Some root →
  VerifyLeafHashInclusion leaf (Z.of_nat m) proof root (blen D) = Ok tt →
  D !! m = Some leaf ∨
  collision (audit_msgs 33 leaf (Z.of_nat m) (blen D - 1) proof) (node_msgs D).
Proof.
  intros HD Hroot. rewrite HashFullTree_mth in Hroot by done. injection Hroot as <-.
  unfold VerifyLeafHashInclusion, calculate_root_hash_from_audit_path.
  case_decide as Hm; [done|]. rewrite uwrap_small by (unfold in_range; lia).
  destruct (audit_loop _ _ _ _ _) as [[r [|]]| |] eqn:E; try done.
  case_decide as Hr; [done|]. intros _. subst r.
  apply audit_loop_sound; [lia|done|done].
Qed.

End verifier.

Section verifier_tree.
Context `{Hasher} {St : Type} `{HashStore St}.

(** Audit paths of the tree verify.  For every leaf [m] and every size [n]
    the tree has had, [InclusionProof] returns an audit path that
    [VerifyLeafHashInclusion] accepts for that leaf, index, size and the root
    the tree had at that size. *)
Lemma InclusionProof_verifies (t : CompactMerkleTree St) D s (m n : nat) (leaf : Uint256) :
  tree_ok t D → hashStore t = Some s → blen D < 2 ^ 31 → (m < n ≤ length D)%nat →
  D !! m = Some leaf →
  ∃ proof root, InclusionProof (Z.of_nat m) (Z.of_nat n) t = Some (Ok proof) ∧
    HashFullTreeWithLeafHash (take n D) = Some root ∧
    VerifyLeafHashInclusion leaf (Z.of_nat m) proof root (Z.of_nat n) = Ok tt.
Proof.
  intros Hok Hs HD Hmn Hm. unfold InclusionProof. rewrite Hs.
  rewrite decide_False by lia. rewrite decide_False by (rewrite (ok_size _ _ Hok); lia).
  destruct (inclusion_loop_tree t D s m n) as (p & Hp & ->); [done..|]. cbn [mbind option_bind].
  rewrite fmap_reverse, reverse_involutive. exists (snd <$> p), (mth (take n D)).
  assert (length (take n D) = n) as Hlen by (rewrite length_take; lia).
  split_and!; [done|apply HashFullTree_mth; lia|].
  unfold VerifyLeafHashInclusion, calculate_root_hash_from_audit_path.
  rewrite decide_False by lia. rewrite uwrap_small by (unfold in_range; lia).
  rewrite <- Hlen at 1. rewrite (audit_loop_complete 33 32 _ m p leaf); [|apply pow2_32_nat; lia|lia| |done].
  - by case_decide.
  - by rewrite lookup_take_lt by lia.
Qed.

End verifier_tree.

#[local] Existing Instance poly_hasher.

(** ** Examples *)

Lemma VerifyLeafHashInclusion_sound_example :
  let D := HashLeaf <$> [gs "a"; gs "b"; gs "c"] in
  let proof := [HashLeaf (gs "a"); HashLeaf (gs "c")] in
  D !! 1%nat = Some (HashLeaf (gs "b")) ∨
  collision (audit_msgs 33 (HashLeaf (gs "b")) 1 2 proof) (node_msgs D).
Proof.
  intros D proof. apply (VerifyLeafHashInclusion_sound D (HashLeaf (gs "b")) 1 proof
    (default EMPTY_HASH (HashFullTreeWithLeafHash D))).
  - simpl. lia.
  - vm_compute. reflexivity.
  - vm_compute. reflexivity.
Defined.

Lemma InclusionProof_verifies_example :
  ∃ proof root, InclusionProof 1 3 ex_tree = Some (Ok proof) ∧
    HashFullTreeWithLeafHash (take 3 ex_leaves) = Some root ∧
    VerifyLeafHashInclusion (HashLeaf (gs "bc")) 1 proof root 3 = Ok tt.
Proof.
  apply (InclusionProof_verifies ex_tree ex_leaves ex_store 1 3).
  - apply ex_tree_ok.
  - reflexivity.
  - simpl. lia.
  - simpl. lia.
  - reflexivity.
Defined.
