(* ===== verification/Native.v ===== *)
(** * The native contract service
    (native/native.go, native/states/contract.go, native/service/utils,
    core/types/address.go, transaction.go (signature addresses), common/address.go)

    The service's state apart from the cache is [NativeService]; a handler is a
    [contract] over it.  Key handling of ontology-crypto, RIPEMD-160, base58 and
    the VRF check are parameters ([Crypto]).  No handler of the repository calls
    [NativeCall], so handlers do not nest. *)

From S2P Require Import Prelude Sha256 Sink Source Serialization BytesOrder MemDB OverlayDB CacheDB Contract MerkleSpec MerkleHasher.

(** ** Hexadecimal strings ([encoding/hex]) *)

Definition hex_digit (d : Z) : byte :=
  if decide (d < 10) then byte_of_Z (48 + d) else byte_of_Z (87 + d).
Definition hex_encode (l : bytes) : bytes :=
  mjoin ((λ b, [hex_digit (byte_to_Z b / 16); hex_digit (byte_to_Z b mod 16)]) <$> l).

Definition hex_val (b : byte) : option Z :=
  let c := byte_to_Z b in
  if decide (48 ≤ c ≤ 57) then Some (c - 48)
  else if decide (97 ≤ c ≤ 102) then Some (c - 87)
  else if decide (65 ≤ c ≤ 70) then Some (c - 55)
  else None.

Fixpoint hex_decode (l : bytes) : res bytes :=
  match l with
  | [] => Ok []
  | [x] => match hex_val x with
           | Some _ => Err "encoding/hex: odd length hex string"
           | None => Err "encoding/hex: invalid byte"
           end
  | x :: y :: l' =>
      match hex_val x, hex_val y with
      | Some a, Some b =>
          match hex_decode l' with
          | Ok r => Ok (byte_of_Z (16 * a + b) :: r)
          | e => e
          end
      | _, _ => Err "encoding/hex: invalid byte"
      end
  end.

Lemma hex_val_digit d : 0 ≤ d < 16 → hex_val (hex_digit d) = Some d.
Proof.
  intros Hd. unfold hex_digit. case_decide; unfold hex_val; cbv zeta; rewrite byte_to_of_Z, Z.mod_small by lia;
    repeat first [rewrite decide_True by lia | rewrite decide_False by lia]; f_equal; lia.
Qed.

Lemma hex_decode_encode l : hex_decode (hex_encode l) = Ok l.
Proof.
  induction l as [|b l IH]; [done|]. unfold hex_encode in *. cbn [fmap list_fmap].
  pose proof (byte_to_Z_range b) as Hb.
  change (hex_decode (hex_digit (byte_to_Z b / 16) :: hex_digit (byte_to_Z b mod 16) ::
    mjoin ((λ b, [hex_digit (byte_to_Z b / 16); hex_digit (byte_to_Z b mod 16)]) <$> l)) = Ok (b :: l)).
  cbn [hex_decode]. rewrite !hex_val_digit, IH by (try apply Z.mod_pos_bound; try lia; Z.to_euclidean_division_equations; lia).
  rewrite <- Z.div_mod by lia. by rewrite byte_of_to_Z.
Qed.

#[export] Instance hex_encode_inj : Inj (=) (=) hex_encode.
Proof. intros a b E. enough (Ok a = Ok b) as E' by congruence. by rewrite <- !hex_decode_encode, E. Qed.

(** ** Keys and addresses *)

Class Crypto := {
  PublicKey : Type;
  SerializePublicKey : PublicKey → bytes;
  DeserializePublicKey : bytes → res PublicKey;
  SortPublicKeys : list PublicKey → list PublicKey;
  ValidatePublicKey : PublicKey → bool;       (* vrf.ValidatePublicKey *)
  ripemd160 : bytes → Address;
  base58_encode : Z → bytes;
  base58_decode : bytes → option Z;
}.

(** Global configuration the contracts read ([config.DefConfig]). *)
Record Config := mkConfig { NetworkId : Z; EnableEventLog : bool }.
Definition NETWORK_ID_MAIN_NET : Z := 1.
Definition NETWORK_ID_TEST_NET : Z := 2.
Definition MULTI_SIG_MAX_PUBKEY_SIZE : Z := 16.

Section addresses.
Context `{Hasher} `{Crypto}.

Definition AddressFromVmCode (code : bytes) : Address := ripemd160 (to_slice (Sum256 code)).
Definition AddressFromPubKey (pubkey : PublicKey) : Address := AddressFromVmCode (SerializePublicKey pubkey).

Definition EncodeMultiPubKeyProgramInto (pubkeys : list PublicKey) (m : Z) : res (list sink_op) :=
  let n := blen pubkeys in
  if decide (1 ≤ m ∧ m ≤ n ∧ 1 < n ∧ n ≤ MULTI_SIG_MAX_PUBKEY_SIZE) then
    let pubkeys := SortPublicKeys pubkeys in
    Ok ([OpUint16 (u16 (blen pubkeys))] ++
        ((λ pk, OpVarBytes (SerializePublicKey pk)) <$> pubkeys) ++ [OpUint16 m])
  else Err "wrong multi-sig param".

Definition AddressFromMultiPubKeys (pubkeys : list PublicKey) (m : Z) : res Address :=
  match EncodeMultiPubKeyProgramInto pubkeys (u16 m) with
  | Ok ops => Ok (AddressFromVmCode (enc_ops ops))
  | _ => Ok ADDRESS_EMPTY
  end.

Definition AddressFromBookkeepers (bookkeepers : list PublicKey) : res Address :=
  match bookkeepers with
  | [pk] => Ok (AddressFromPubKey pk)
  | _ => AddressFromMultiPubKeys bookkeepers (blen bookkeepers - (blen bookkeepers - 1) ÷ 3)
  end.

Definition AddressParseFromBytes (f : bytes) : res Address :=
  if decide (blen f ≠ ADDR_LEN) then Err "[Common]: AddressParseFromBytes err, len != 20"
  else Ok (copy_array 20 f).

Definition ToArrayReverse (arr : bytes) : bytes := reverse arr.
Definition ToHexString (a : Address) : bytes := hex_encode (ToArrayReverse (to_slice a)).

#[export] Instance ToHexString_inj : Inj (=) (=) ToHexString.
Proof. intros a b E. apply to_slice_inj. by apply (inj hex_encode), (inj reverse) in E. Qed.

Definition address_data (a : Address) : bytes :=
  let data := byte_of_Z 23 :: to_slice a in
  data ++ take 4 (to_slice (Sum256 (to_slice (Sum256 data)))).
Definition ToBase58 (a : Address) : bytes := base58_encode (be_get (address_data a)).

(** [big.Int.Bytes]: big endian without leading zeros. *)
Definition big_bytes (x : Z) : bytes :=
  if decide (x = 0) then [] else be_put (Z.to_nat ((Z.log2 x + 8) / 8)) x.

Lemma be_get_big_bytes x : 0 ≤ x → be_get (big_bytes x) = x.
Proof.
  intros Hx. unfold big_bytes. case_decide as E; [by subst|]. apply be_get_put_small.
  pose proof (Z.log2_nonneg x). pose proof (Z.log2_spec x). rewrite Z2Nat.id by (apply Z.div_pos; lia).
  assert (Z.succ (Z.log2 x) ≤ 8 * ((Z.log2 x + 8) / 8)) by (Z.to_euclidean_division_equations; lia).
  split; [done|]. eapply Z.lt_le_trans; [apply Z.log2_spec; lia|]. apply Z.pow_le_mono_r; lia.
Qed.

Definition AddressFromBase58 (encoded : bytes) : res Address :=
  if decide (encoded = []) then Err "invalid address"
  else if decide (2048 < blen encoded) then Err "invalid address"
  else match base58_decode encoded with
  | None => Err "invalid address"
  | Some x =>
      let buf := big_bytes x in
      if decide (blen buf ≠ 25 ∨ head buf ≠ Some (byte_of_Z 23)) then Err "wrong encoded address" else
      match AddressParseFromBytes (take 20 (drop 1 buf)) with
      | Ok ph => if decide (ToBase58 ph ≠ encoded)
                 then Err "[AddressFromBase58]: decode encoded verify failed." else Ok ph
      | e => e
      end
  end.

(** ** Transactions *)

Record Sig := mkSig { SigData : list bytes; PubKeys : list PublicKey; sig_M : Z }.

Definition Invoke_type : byte := byte_of_Z 0xd1.

Record Transaction := mkTransaction {
  tx_Version : byte;
  TxType : byte;
  Nonce : Z;
  tx_ChainID : Z;
  GasLimit : Z;
  GasPrice : Z;
  Payload : option bytes;       (* the code of an InvokeCode; [None] is nil *)
  Attributes : bytes;
  Payer : Address;
  CoinType : byte;
  tx_Sigs : list Sig;
  Raw : bytes;
  tx_hash : Uint256;
  SignedAddr : list Address;    (* set by the signature check *)
}.

(** The address of one group of keys, and of all. *)
Definition sig_address (prog : Sig) : res Address :=
  match PubKeys prog with
  | [] => Err "[GetSignatureAddresses] no public key"
  | [pk] => Ok (AddressFromVmCode (SerializePublicKey pk))
  | pks => match EncodeMultiPubKeyProgramInto pks (sig_M prog) with
           | Ok ops => Ok (AddressFromVmCode (enc_ops ops))
           | Err e => Err e
           | Panic => Panic
           end
  end.
Fixpoint signature_addresses (sigs : list Sig) : res (list Address) :=
  match sigs with
  | [] => Ok []
  | prog :: sigs' =>
      match sig_address prog, signature_addresses sigs' with
      | Ok a, Ok l => Ok (a :: l)
      | Err e, _ => Err e
      | Panic, _ => Panic
      | _, e => e
      end
  end.
(** The result is also kept in [SignedAddr], which only saves the recomputation. *)
Definition GetSignatureAddresses (tx : Transaction) : res (list Address) :=
  match SignedAddr tx with
  | [] => signature_addresses (tx_Sigs tx)
  | l => Ok l
  end.

(** ** The service *)

Inductive nval := NStr (s : bytes) | NInt (z : Z) | NStrs (l : list bytes) | NInts (l : list Z).
Record NotifyEventInfo := mkNotify { ContractAddress : Address; States : list nval }.

Record NativeService := mkNativeService {
  ns_chainID : Z;
  ns_serviceMap : gmap bytes Address;     (* method to the contract that registered it *)
  ns_notifications : list NotifyEventInfo;
  ns_input : bytes;
  ns_tx : Transaction;
  ns_height : Z;
  ns_time : Z;
  ns_blockHash : Uint256;
  ns_crossHashes : list Uint256;
  ns_contexts : list Address;
  ns_preExec : bool;
}.

Definition NewNativeService (tx : Transaction) (time height : Z) (blockHash : Uint256) (chainID : Z)
    (input : bytes) (preExec : bool) : res NativeService :=
  if decide (tx_ChainID tx ≠ chainID)
  then Err "NewNativeService Error: ChainId in Tx not equal to current block ChainId"
  else Ok (mkNativeService chainID ∅ [] input tx height time blockHash [] [] preExec).

Definition ns_set_input (i : bytes) (s : NativeService) : NativeService :=
  mkNativeService (ns_chainID s) (ns_serviceMap s) (ns_notifications s) i (ns_tx s) (ns_height s)
    (ns_time s) (ns_blockHash s) (ns_crossHashes s) (ns_contexts s) (ns_preExec s).
Definition ns_set_notifications (l : list NotifyEventInfo) (s : NativeService) : NativeService :=
  mkNativeService (ns_chainID s) (ns_serviceMap s) l (ns_input s) (ns_tx s) (ns_height s)
    (ns_time s) (ns_blockHash s) (ns_crossHashes s) (ns_contexts s) (ns_preExec s).
Definition ns_set_crossHashes (l : list Uint256) (s : NativeService) : NativeService :=
  mkNativeService (ns_chainID s) (ns_serviceMap s) (ns_notifications s) (ns_input s) (ns_tx s) (ns_height s)
    (ns_time s) (ns_blockHash s) l (ns_contexts s) (ns_preExec s).
Definition ns_set_contexts (l : list Address) (s : NativeService) : NativeService :=
  mkNativeService (ns_chainID s) (ns_serviceMap s) (ns_notifications s) (ns_input s) (ns_tx s) (ns_height s)
    (ns_time s) (ns_blockHash s) (ns_crossHashes s) l (ns_preExec s).
Definition ns_set_serviceMap (m : gmap bytes Address) (s : NativeService) : NativeService :=
  mkNativeService (ns_chainID s) m (ns_notifications s) (ns_input s) (ns_tx s) (ns_height s)
    (ns_time s) (ns_blockHash s) (ns_crossHashes s) (ns_contexts s) (ns_preExec s).

Definition Handler : Type := contract NativeService bytes.

Definition cmodify (f : NativeService → NativeService) : contract NativeService unit :=
  s ← cstate; cset (f s).
Definition cask {A} (f : NativeService → A) : contract NativeService A := s ← cstate; mret (f s).

Definition MAX_CONTEXT_LEN : Z := 1024.

Definition PushContext (address : Address) : contract NativeService unit :=
  s ← cstate;
  if decide (MAX_CONTEXT_LEN < blen (ns_contexts s)) then CFail "context over max context lenght"
  else cset (ns_set_contexts (ns_contexts s ++ [address]) s).

Definition CallingContext (s : NativeService) : Address :=
  if decide (blen (ns_contexts s) < 2) then ADDRESS_EMPTY
  else default ADDRESS_EMPTY (ns_contexts s !! (length (ns_contexts s) - 2)%nat).

Definition PopContext : contract NativeService unit :=
  s ← cstate;
  if decide (1 < blen (ns_contexts s))
  then cset (ns_set_contexts (take (length (ns_contexts s) - 1) (ns_contexts s)) s) else mret tt.

Definition CurrentContext (s : NativeService) : Address :=
  match ns_contexts s with
  | [] => ADDRESS_EMPTY
  | _ => default ADDRESS_EMPTY (last (ns_contexts s))
  end.

Definition PutMerkleVal (data : bytes) : contract NativeService unit :=
  cmodify (λ s, ns_set_crossHashes (ns_crossHashes s ++ [HashLeaf data]) s).

Definition checkAccountAddress (address : Address) (s : NativeService) : bool :=
  match GetSignatureAddresses (ns_tx s) with
  | Ok addresses => existsb (λ v, bool_decide (v = address)) addresses
  | _ => false
  end.
Definition checkContractAddress (address : Address) (s : NativeService) : bool :=
  bool_decide (CallingContext s ≠ ADDRESS_EMPTY) && bool_decide (CallingContext s = address).
Definition CheckWitness (address : Address) (s : NativeService) : bool :=
  checkAccountAddress address s || checkContractAddress address s.

Definition AddNotify (notify : NotifyEventInfo) : contract NativeService unit :=
  cmodify (λ s, ns_set_notifications (ns_notifications s ++ [notify]) s).

(** ** Calling a contract *)

Record ContractInvokeParam := mkInvokeParam {
  Version : byte;
  ip_Address : Address;
  Method : bytes;
  Args : bytes;
}.
Definition MAX_NATIVE_VERSION : Z := 0.

Definition InvokeParam_Serialization (c : ContractInvokeParam) : list sink_op :=
  [OpByte (Version c); OpAddress (ip_Address c); OpVarBytes (Method c); OpVarBytes (Args c)].

Definition InvokeParam_Deserialization : M ZeroCopySource ContractInvokeParam :=
  version ← must "[ContractInvokeParam] deserialize version error" NextByte;
  guard_err (bool_decide (byte_to_Z version ≤ MAX_NATIVE_VERSION))
    "[ContractInvokeParam] current version over max native contract version" ;;
  address ← must "[ContractInvokeParam] deserialize address error" NextAddress;
  method ← must "[ContractInvokeParam] deserialize method error" NextVarBytes;
  args ← must "[ContractInvokeParam] deserialize args error" NextVarBytes;
  mret (mkInvokeParam version address method args).

#[export] Program Instance InvokeParam_ser : Serializable ContractInvokeParam := {|
  Serialization := InvokeParam_Serialization;
  Deserialization := InvokeParam_Deserialization;
  ser_wf c := byte_to_Z (Version c) ≤ MAX_NATIVE_VERSION;
|}.
Next Obligation.
  intros c Hwf. unfold InvokeParam_Deserialization, InvokeParam_Serialization.
  rewrite !enc_ops_cons. cbn [enc_op].
  eapply decodes_must_bind; [auto with codec|]. unfold guard_err. rewrite bool_decide_true by done.
  change (decodes ?m ?bs ?a) with (decodes m ([] ++ bs) a). eapply decodes_bind; [apply decodes_ret|].
  eapply decodes_must_bind; [auto with codec|]. eapply decodes_must_bind; [auto with codec|].
  eapply decodes_must_bind; [auto with codec|]. destruct c. apply decodes_ret.
Qed.
Next Obligation.
  unfold InvokeParam_Deserialization. apply safe_bind; [auto using safe_must with safe|intros v].
  apply safe_bind; [unfold guard_err; case_bool_decide; auto with safe|intros _]. solve_safe.
Qed.

(** [x.Deserialization(common.NewZeroCopySource(b))]. *)
Definition deserialize {A} `{Serializable A} (b : bytes) : res A := (Deserialization A (NewZeroCopySource b)).1.
Definition cdeserialize {E A} `{Serializable A} (b : bytes) : contract E A := lift_res (deserialize b).

(** The registry [Contracts]: the methods each contract registers. *)
Definition Registry : Type := gmap Address (list (bytes * Handler)).

Definition Register (addr : Address) (methods : list (bytes * Handler)) : contract NativeService unit :=
  cmodify (λ s, ns_set_serviceMap (foldl (λ m mh, <[mh.1 := addr]> m) (ns_serviceMap s) methods) s).

(** The handler registered last under a method name of one contract. *)
Definition find_method (methods : list (bytes * Handler)) (name : bytes) : option Handler :=
  snd <$> last (filter (λ mh, mh.1 = name) methods).

(** The result of [Invoke]: the bytes of the handler, or the [error] value that
    is returned in their place with a nil error. *)
Inductive invoke_result := RBytes (b : bytes) | RErrorValue (e : string).

Definition try_push (address : Address) : contract NativeService (option string) :=
  s ← cstate;
  if decide (MAX_CONTEXT_LEN < blen (ns_contexts s)) then mret (Some "context over max context lenght"%string)
  else PushContext address ;; mret None.

Definition Invoke (contracts : Registry) : contract NativeService invoke_result :=
  input ← cask ns_input;
  invokeParam ← cdeserialize (A := ContractInvokeParam) input;
  match contracts !! ip_Address invokeParam with
  | None => CFail "[Invoke] Native contract address haven't been registered."
  | Some services =>
      Register (ip_Address invokeParam) services ;;
      sm ← cask ns_serviceMap;
      match (addr ← sm !! Method invokeParam; ms ← contracts !! addr; find_method ms (Method invokeParam)) with
      | None => CFail "[Invoke] Native contract doesn't support this function"
      | Some service =>
          cmodify (ns_set_input (Args invokeParam)) ;;
          notifications ← cask ns_notifications;
          cmodify (ns_set_notifications []) ;;
          hashes ← cask ns_crossHashes;
          cmodify (ns_set_crossHashes []) ;;
          pushed ← try_push (ip_Address invokeParam);
          match pushed with
          | Some err => mret (RErrorValue err)         (* return err, nil *)
          | None =>
              result ← cwrap "[Invoke] Native serivce function execute error:" service;
              PopContext ;;
              cmodify (λ s, ns_set_notifications (notifications ++ ns_notifications s) s) ;;
              cmodify (λ s, ns_set_crossHashes (ns_crossHashes s ++ hashes) s) ;;
              cmodify (ns_set_input input) ;;
              mret (RBytes result)
          end
      end
  end.

Definition NativeCall (contracts : Registry) (address : Address) (method args : bytes)
    : contract NativeService invoke_result :=
  cmodify (ns_set_input (sink_bytes (mkInvokeParam (byte_of_Z 0) address method args))) ;;
  Invoke contracts.

(** ** native/service/utils *)

Definition BYTE_FALSE : bytes := [byte_of_Z 0].
Definition BYTE_TRUE : bytes := [byte_of_Z 1].

Definition contract_address (n : Z) : Address := copy_array 20 (replicate 19 Byte.x00 ++ [byte_of_Z n]).
Definition HeaderSyncContractAddress : Address := contract_address 2.
Definition CrossChainManagerContractAddress : Address := contract_address 3.
Definition SideChainManagerContractAddress : Address := contract_address 4.
Definition NodeManagerContractAddress : Address := contract_address 5.
Definition RelayerManagerContractAddress : Address := contract_address 6.
Definition Neo3StateManagerContractAddress : Address := contract_address 7.
Definition SignatureManagerContractAddress : Address := contract_address 8.
Definition ReplenishContractAddress : Address := contract_address 9.

Definition ConcatKey (contract : Address) (args : list bytes) : bytes := to_slice contract ++ mjoin args.

Definition ValidateOwner (address : Address) : contract NativeService unit :=
  ok ← cask (CheckWitness address);
  cguard ok "validateOwner, authentication failed!".

Definition GetUint32Bytes (num : Z) : bytes := le_put 4 num.
Definition GetBytesUint32 (b : bytes) : Z := if decide (blen b ≠ 4) then 0 else le_get b.
Definition GetUint64Bytes (num : Z) : bytes := le_put 8 num.
Definition GetBytesUint64 (b : bytes) : Z := if decide (blen b ≠ 8) then 0 else le_get b.

(** vbftconfig.Pubkey *)
Definition Pubkey (nodeid : bytes) : res PublicKey :=
  match hex_decode nodeid with
  | Ok k => match DeserializePublicKey k with
            | Ok pk => Ok pk
            | Err e => Err ("deserialize failed: " +:+ e)
            | Panic => Panic
            end
  | Err e => Err e
  | Panic => Panic
  end.

Definition ValidatePeerPubKeyFormat (pubkey : bytes) : res unit :=
  match Pubkey pubkey with
  | Ok pk => if ValidatePublicKey pk then Ok tt else Err "invalid for VRF"
  | Err _ => Err "failed to parse pubkey"
  | Panic => Panic
  end.

Definition PutBytes (key value : bytes) : contract NativeService unit := cput key (GenRawStorageItem value).

Definition GetStorageItem (key : bytes) : contract NativeService (option StorageItem) :=
  store ← cget key;
  if decide (store = []) then mret None
  else match StorageItem_Deserialize store with
       | (Ok item, _) => mret (Some item)
       | (Err _, _) => CFail "[GetStorageItem] instance doesn't StorageItem!"
       | (Panic, _) => CPanic
       end.

(** Runs a reader on the value of a storage item; an absent item gives [d]. *)
Definition read_item {A} (d : A) (m : M bytes A) (key : bytes) : contract NativeService A :=
  item ← GetStorageItem key;
  match item with
  | None => mret d
  | Some i => lift_res (m (Value i)).1
  end.
Definition GetStorageUInt64 (key : bytes) : contract NativeService Z := read_item 0 Ser.ReadUint64 key.
Definition GetStorageUInt32 (key : bytes) : contract NativeService Z := read_item 0 Ser.ReadUint32 key.
Definition GetStorageVarBytes (key : bytes) : contract NativeService bytes := read_item [] Ser.ReadVarBytes key.

Definition GenUInt64StorageItem (value : Z) : StorageItem := mkStorageItem (byte_of_Z 0) (Ser.WriteUint64 value).
Definition GenUInt32StorageItem (value : Z) : StorageItem := mkStorageItem (byte_of_Z 0) (Ser.WriteUint32 value).
Definition GenVarBytesStorageItem (value : bytes) : StorageItem :=
  mkStorageItem (byte_of_Z 0) (Ser.WriteVarBytes value).

(** [GetValueFromRawStorageItem] followed by [Deserialization], as the contracts
    read back what they stored under a key. *)
Definition load_item {A} `{Serializable A} (raw : bytes) : contract NativeService A :=
  v ← lift_res (GetValueFromRawStorageItem raw); cdeserialize v.
Definition store_item {A} `{Serializable A} (key : bytes) (a : A) : contract NativeService unit :=
  cput key (GenRawStorageItem (sink_bytes a)).

End addresses.
