(* ===== verification/ExCrypto.v ===== *)
(** * A concrete service for the witnesses

    Public keys are their 33 bytes; the address of a key is the start of its
    hash.  The functions have the properties the contracts rely on
    (deserialization inverts serialization, base58 decoding inverts encoding). *)

From S2P Require Import Prelude Sha256 Sink Source Serialization BytesOrder MemDB OverlayDB CacheDB Contract MerkleSpec MerkleHasher Native.

#[export] Existing Instance poly_hasher.

#[export] Instance ex_crypto : Crypto := {|
  PublicKey := bytes;
  SerializePublicKey pk := pk;
  DeserializePublicKey b := if decide (length b = 33%nat) then Ok b else Err "invalid public key";
  SortPublicKeys l := l;
  ValidatePublicKey _ := true;
  ripemd160 b := copy_array 20 b;
  base58_encode x := be_put 25 x;
  base58_decode b := if decide (length b = 25%nat) then Some (be_get b) else None;
|}.

(** The [i]-th key, its hexadecimal form and its address. *)
Definition ex_pk (i : Z) : bytes := byte_of_Z i :: replicate 32 Byte.x02.
Definition ex_hex (i : Z) : bytes := hex_encode (ex_pk i).
Definition ex_addr (i : Z) : Address := AddressFromPubKey (H0 := ex_crypto) (ex_pk i).

(** An invocation with the code, signed by the [i]-th key. *)
Definition ex_transaction (i : Z) (hash : Uint256) (code : bytes) : Transaction :=
  mkTransaction (byte_of_Z 0) Invoke_type 0 0 0 0 (Some code) [] ADDRESS_EMPTY (byte_of_Z 0)
    [mkSig [] [ex_pk i : PublicKey] 1] [] hash [].

(** A call with the input, signed by the [i]-th key, in the block at [height]. *)
Definition ex_service (i height : Z) (input : bytes) : NativeService :=
  mkNativeService 0 ∅ [] input
    (ex_transaction i (zero_array 32) [])
    height 1000 (zero_array 32) [] [] false.

(** Facts about a concrete run [E : run c st = (r, (m, s))], by evaluation. *)
Lemma run_result_1 {R C E} {x : R * (C * E)} {r m s} (P : R → Prop) : x = (r, (m, s)) → P x.1 → P r.
Proof. by intros ->. Qed.
Lemma run_result_2 {R C E} {x : R * (C * E)} {r m s} (P : C → Prop) : x = (r, (m, s)) → P x.2.1 → P m.
Proof. by intros ->. Qed.
Ltac run_compute E :=
  first [ refine (run_result_1 (λ r, r = _) E _); vm_compute; reflexivity
        | refine (run_result_2 (λ m, map_Forall _ m) E _); refine (bool_decide_unpack _ _); vm_compute; exact I ].
