(* ===== verification/Codec.v ===== *)
(** * Shared parts of the contracts' data formats

    Reading an address, lists and the maps that are written in a sorted order.
    Go iterates over a map in an unspecified order; the contracts collect the
    entries and sort them, so the bytes do not depend on it ([sort_desc_unique]). *)

From S2P Require Import Prelude Sha256 Sink Source Serialization BytesOrder MemDB OverlayDB CacheDB Contract MerkleSpec MerkleHasher Native.

(** ** Reads *)

Definition of_res {S A} (r : res A) : M S A := λ s, (r, s).

Lemma decodes_of_res {A} (r : res A) a : r = Ok a → decodes (of_res r) [] a.
Proof. intros -> pre post _. unfold of_res. by rewrite app_nil_r. Qed.

Lemma safe_of_res {A} (r : res A) : r ≠ Panic → safe (of_res r).
Proof. intros Hr s Hs. exists r, s. by split_and!. Qed.

Lemma decodes_wrap {A} p (m : M ZeroCopySource A) bs a : decodes m bs a → decodes (wrap_err p m) bs a.
Proof. intros Hm pre post Hl. unfold wrap_err. by rewrite (Hm pre post Hl). Qed.

Lemma safe_wrap {A} p (m : M ZeroCopySource A) : safe m → safe (wrap_err p m).
Proof.
  intros Hm s Hs. destruct (Hm s Hs) as (r & s' & E & Hr & ?). unfold wrap_err. rewrite E.
  destruct r; [by eauto 10|by eauto 10|done].
Qed.

Lemma progress_wrap {A} p (m : M ZeroCopySource A) : progress m → progress (wrap_err p m).
Proof.
  intros Hm s a s' Hs E. unfold wrap_err in E. destruct (m s) as [[] ?] eqn:Em; simplify_eq.
  by eapply Hm.
Qed.

(** An address written with [WriteVarBytes(addr[:])]. *)
Definition read_address (msg1 msg2 : string) : M ZeroCopySource Address :=
  address ← must msg1 NextVarBytes;
  wrap_err msg2 (of_res (AddressParseFromBytes address)).

Definition OpVarAddress (a : Address) : sink_op := OpVarBytes (to_slice a).

Lemma AddressParse_to_slice a : AddressParseFromBytes (to_slice a) = Ok a.
Proof.
  unfold AddressParseFromBytes, ADDR_LEN. rewrite length_to_slice, decide_False by lia.
  by rewrite copy_to_slice.
Qed.

Lemma AddressParse_no_panic b : AddressParseFromBytes b ≠ Panic.
Proof. unfold AddressParseFromBytes. by case_decide. Qed.

Lemma decodes_read_address m1 m2 a :
  decodes (read_address m1 m2) (enc_varuint (blen (to_slice a)) ++ to_slice a) a.
Proof.
  unfold read_address. rewrite <- (app_nil_r (_ ++ to_slice a)).
  eapply decodes_must_bind; [auto with codec|]. apply decodes_wrap, decodes_of_res, AddressParse_to_slice.
Qed.

Lemma safe_read_address m1 m2 : safe (read_address m1 m2).
Proof.
  apply safe_bind; [auto using safe_must with safe|intros b].
  apply safe_wrap, safe_of_res, AddressParse_no_panic.
Qed.

Lemma progress_read_address m1 m2 : progress (read_address m1 m2).
Proof.
  apply progress_bind; [auto using safe_must with safe|auto with safe|intros b].
  apply safe_wrap, safe_of_res, AddressParse_no_panic.
Qed.

#[export] Hint Resolve decodes_read_address decodes_wrap : codec.
#[export] Hint Resolve safe_read_address progress_read_address safe_wrap progress_wrap safe_must : safe.

Lemma ser_roundtrip_wrap `{Serializable A} p (a : A) :
  ser_wf a → decodes (wrap_err p (Deserialization A)) (enc_ops (Serialization a)) a.
Proof. intros. by apply decodes_wrap, ser_roundtrip. Qed.

#[export] Hint Resolve ser_roundtrip ser_roundtrip_wrap : codec.
#[export] Hint Resolve ser_safe : safe.

(** A check that reads nothing. *)
Lemma decodes_bind_nil {A B} (m : M ZeroCopySource A) (k : A → M ZeroCopySource B) bs a b :
  decodes m [] a → decodes (k a) bs b → decodes (m ≫= k) bs b.
Proof. apply (decodes_bind m k [] bs). Qed.

(** The two obligations of a [Serializable] instance, field by field. *)
Ltac codec_step :=
  first
    [ apply decodes_ret
    | eapply decodes_must_bind; [solve [eauto with codec]|]
    | eapply decodes_bind; [solve [eauto with codec]|]
    | eapply decodes_bind_nil; [solve [eauto with codec]|] ];
  cbv beta.
Ltac solve_roundtrip :=
  rewrite ?enc_ops_app, ?enc_ops_cons, ?enc_ops_nil, <- ?app_assoc, ?app_nil_l; unfold OpVarAddress;
  cbn [enc_op]; repeat codec_step.
Ltac solve_total :=
  repeat (first
    [ solve [eauto with safe nocore]
    | apply safe_must
    | apply safe_wrap
    | apply safe_bind; [|intros]
    | apply safe_decide
    | match goal with |- safe (let '(_, _) := ?p in _) => destruct p end ]).

(** ** Lists with a length prefix *)

Definition enc_list {A} (f : A → list sink_op) (l : list A) : list sink_op := mjoin (f <$> l).

Lemma enc_ops_list {A} (f : A → list sink_op) l : enc_ops (enc_list f l) = mjoin ((λ x, enc_ops (f x)) <$> l).
Proof.
  induction l as [|x l IH]; [done|]. unfold enc_list in *. cbn [fmap list_fmap].
  change (mjoin (f x :: (f <$> l))) with (f x ++ mjoin (f <$> l)). rewrite enc_ops_app, IH. done.
Qed.

Lemma decodes_list {A} (body : M ZeroCopySource A) (f : A → list sink_op) l n :
  n = blen l → (∀ a, a ∈ l → decodes body (enc_ops (f a)) a) →
  (∀ a, a ∈ l → (0 < length (enc_ops (f a)))%nat) →
  decodes (loopM n body) (enc_ops (enc_list f l)) l.
Proof. intros Hn Hb Hl. rewrite enc_ops_list. by apply decodes_loopM. Qed.

Lemma enc_varbytes_pos p ops : (0 < length (enc_ops (OpVarBytes p :: ops)))%nat.
Proof.
  rewrite enc_ops_cons. cbn [enc_op]. rewrite !length_app. pose proof (length_enc_varuint (blen p)) as E.
  unfold varuint_size in E. repeat case_decide; lia.
Qed.

(** ** Sorting by a key, descending: [sort.SliceStable(l, func(i, j) { k(l[i]) > k(l[j]) })] *)

Section sort_desc.
Context {A K : Type} (R : relation K) `{!RelDecision R} (k : A → K).

Fixpoint insert_desc (x : A) (l : list A) : list A :=
  match l with
  | [] => [x]
  | y :: l' => if decide (R (k x) (k y)) then y :: insert_desc x l' else x :: l
  end.
Fixpoint sort_desc (l : list A) : list A :=
  match l with
  | [] => []
  | x :: l' => insert_desc x (sort_desc l')
  end.

Lemma insert_desc_perm x l : insert_desc x l ≡ₚ x :: l.
Proof.
  induction l as [|y l IH]; simpl; [done|]. case_decide; [|done].
  rewrite IH. constructor.
Qed.

Lemma sort_desc_perm l : sort_desc l ≡ₚ l.
Proof. induction l as [|x l IH]; simpl; [done|]. by rewrite insert_desc_perm, IH. Qed.

(** No element has a smaller key than one behind it. *)
Definition desc (l : list A) : Prop := StronglySorted (λ a b, ¬ R (k a) (k b)) l.

Context `{!StrictOrder R} (tri : ∀ x y, R x y ∨ x = y ∨ R y x).

Lemma insert_desc_sorted x l : desc l → desc (insert_desc x l).
Proof using All.
  unfold desc. induction l as [|y l IH]; simpl; intros Hl; [by repeat constructor|].
  apply StronglySorted_inv in Hl as Hl'. destruct Hl' as [Hs Hy]. case_decide as Hxy.
  - constructor; [by apply IH|]. rewrite insert_desc_perm. constructor; [|done].
    intros Hyx. apply (irreflexivity R (k x)). by transitivity (k y).
  - constructor; [done|]. constructor; [done|]. eapply Forall_impl; [exact Hy|].
    intros z Hz Hxz. simpl in Hz. destruct (tri (k y) (k z)) as [?|[E|E]]; [done| |].
    + by rewrite E in Hxy.
    + apply Hxy. by transitivity (k z).
Qed.

Lemma sort_desc_sorted l : desc (sort_desc l).
Proof using All. induction l as [|x l IH]; simpl; [constructor|]. by apply insert_desc_sorted. Qed.

(** With distinct keys the order of the input does not matter. *)
Lemma desc_unique l1 l2 : NoDup (k <$> l1) → desc l1 → desc l2 → l1 ≡ₚ l2 → l1 = l2.
Proof using All.
  intros Hnd H1 H2 Hp. unfold desc in *.
  apply (StronglySorted_unique_strong (λ a b, ¬ R (k a) (k b))); [|done..].
  intros x y Hx Hy Hxy Hyx. rewrite <- Hp in Hy.
  destruct (tri (k x) (k y)) as [?|[E|?]]; [done| |done].
  apply list_elem_of_lookup in Hx as [i Hi]. apply list_elem_of_lookup in Hy as [j Hj].
  assert (i = j) as ->; [|congruence]. eapply NoDup_lookup; [exact Hnd| |]; rewrite list_lookup_fmap.
  - by rewrite Hi.
  - by rewrite Hj, E.
Qed.

Lemma sort_desc_unique l1 l2 : NoDup (k <$> l1) → l1 ≡ₚ l2 → sort_desc l1 = sort_desc l2.
Proof using All.
  intros Hnd Hp. apply desc_unique; [|apply sort_desc_sorted..|].
  - by rewrite sort_desc_perm.
  - by rewrite !sort_desc_perm.
Qed.

End sort_desc.

#[export] Instance Z_lt_rel_dec : RelDecision Z.lt := λ x y, decide (x < y).
Lemma Z_tri (x y : Z) : x < y ∨ x = y ∨ y < x.
Proof. lia. Qed.

(** ** Maps *)

(** [for i := 0; i < n; i++ { ... m[k] = v }]. *)
Definition map_of_list {K V} `{Countable K} (l : list (K * V)) : gmap K V :=
  foldl (λ m kv, <[kv.1 := kv.2]> m) ∅ l.

Lemma map_of_list_acc {K V} `{Countable K} (l : list (K * V)) (m0 : gmap K V) :
  NoDup l.*1 → foldl (λ m kv, <[kv.1 := kv.2]> m) m0 l = list_to_map l ∪ m0.
Proof.
  revert m0. induction l as [|[i v] l IH]; intros m0 Hnd; simpl; [by rewrite (left_id ∅ (∪))|].
  apply NoDup_cons in Hnd as [Hi Hnd]. rewrite IH by done.
  rewrite <- insert_union_l, insert_union_r; [done|]. by apply not_elem_of_list_to_map_1.
Qed.

Lemma map_of_list_nodup {K V} `{Countable K} (l : list (K * V)) :
  NoDup l.*1 → map_of_list l = list_to_map l.
Proof. intros. unfold map_of_list. rewrite map_of_list_acc by done. by rewrite (right_id ∅ (∪)). Qed.

Lemma map_of_list_perm {K V} `{Countable K} (m : gmap K V) l :
  l ≡ₚ map_to_list m → map_of_list l = m.
Proof.
  intros Hp. assert (NoDup l.*1) by (rewrite Hp; apply NoDup_fst_map_to_list).
  rewrite map_of_list_nodup by done. rewrite <- (list_to_map_to_list m). by apply list_to_map_proper.
Qed.

(** The entries of a map whose values carry their keys. *)
Lemma keyed_values {K V} `{Countable K} (k : V → K) (m : gmap K V) (l : list V) :
  map_Forall (λ i v, k v = i) m → l ≡ₚ (map_to_list m).*2 →
  (λ v, (k v, v)) <$> l ≡ₚ map_to_list m.
Proof.
  intros Hk Hl. assert ((λ v, (k v, v)) <$> (map_to_list m).*2 = map_to_list m) as E.
  { rewrite <- list_fmap_compose. rewrite <- (list_fmap_id (map_to_list m)) at 2.
    apply list_fmap_ext. intros i [a v] Hi. simpl. apply list_elem_of_lookup_2, elem_of_map_to_list in Hi.
    by rewrite (Hk _ _ Hi). }
  by rewrite Hl, E.
Qed.

Lemma keyed_map_of_list {K V} `{Countable K} (k : V → K) (m : gmap K V) (l : list V) :
  map_Forall (λ i v, k v = i) m → l ≡ₚ (map_to_list m).*2 →
  map_of_list ((λ v, (k v, v)) <$> l) = m.
Proof. intros. by apply map_of_list_perm, keyed_values. Qed.

Lemma keyed_nodup {K V} `{Countable K} (k : V → K) (m : gmap K V) :
  map_Forall (λ i v, k v = i) m → NoDup (k <$> (map_to_list m).*2).
Proof.
  intros Hk. change k with (fst ∘ (λ v, (k v, v))). rewrite list_fmap_compose, (keyed_values k m) by done.
  apply NoDup_fst_map_to_list.
Qed.

(** A map written as its sorted entries and read back entry by entry. *)
Lemma decodes_map_entries {K V X} `{Countable X} (R : relation K) `{!RelDecision R} (k : X * V → K)
    (body : M ZeroCopySource (X * V)) (f : X * V → list sink_op) (m : gmap X V) n :
  n = Z.of_nat (size m) →
  (∀ kv, kv ∈ map_to_list m → decodes body (enc_ops (f kv)) kv) →
  (∀ kv, kv ∈ map_to_list m → (0 < length (enc_ops (f kv)))%nat) →
  decodes (l ← loopM n body; mret (map_of_list l)) (enc_ops (enc_list f (sort_desc R k (map_to_list m)))) m.
Proof.
  intros -> Hb Hl. eapply decodes_map.
  - apply decodes_list; [by rewrite sort_desc_perm, length_map_to_list| |];
      intros a; rewrite sort_desc_perm; [apply Hb|apply Hl].
  - f_equal. apply map_of_list_perm. by rewrite sort_desc_perm.
Qed.

Lemma decodes_map_ret {A B C} (m : M ZeroCopySource A) (f : A → B) (g : B → C) bs b :
  decodes (x ← m; mret (f x)) bs b → decodes (x ← m; mret (g (f x))) bs (g b).
Proof.
  intros Hm pre post Hl. specialize (Hm pre post Hl). unfold mbind, M_bind in *.
  destruct (m _) as [[] ?]; unfold mret, M_ret in *; by simplify_eq.
Qed.

Lemma decodes_guard (b : bool) msg : b = true → decodes (guard_err b msg) [] tt.
Proof. intros ->. apply decodes_ret. Qed.

Lemma safe_guard b msg : safe (guard_err b msg : M ZeroCopySource unit).
Proof. unfold guard_err. destruct b; [apply safe_ret|apply safe_fail]. Qed.

(** [make([]T, l)]: a slice whose size in bytes exceeds the address space of a
    64-bit machine panics. *)
Definition make_elems {S} (size l : Z) : M S unit := if decide (l ≤ 2 ^ 48 / size) then mret tt else panic.
Definition max_slices : Z := 2 ^ 48 / 24.
Definition make_slices {S} (l : Z) : M S unit := make_elems 24 l.

Lemma decodes_make_elems size l : l ≤ 2 ^ 48 / size → decodes (make_elems size l) [] tt.
Proof. intros. unfold make_elems. rewrite decide_True by done. apply decodes_ret. Qed.

Lemma decodes_make_slices l : l ≤ max_slices → decodes (make_slices l) [] tt.
Proof. apply (decodes_make_elems 24). Qed.

Lemma decodes_slices msg (l : list bytes) n : n = blen l → decodes (loopM n (must msg NextVarBytes)) (enc_ops (enc_list (λ v, [OpVarBytes v]) l)) l.
Proof.
  intros ->. apply decodes_list; [done| |intros; apply enc_varbytes_pos].
  intros a _. rewrite enc_ops_cons, enc_ops_nil, app_nil_r. apply decodes_must, decodes_NextVarBytes.
Qed.
