(* ===== verification/Types.v ===== *)
(** * Transactions, headers and blocks
    (core/types/transaction.go, header.go, block.go, version.go; core/payload/invoke_code.go)

    The wire formats, the hashes and [Block.Deserialization], which refuses
    duplicate transactions and a wrong transaction root.  The cached hash of a
    header is not kept: [Header_Hash] recomputes it. *)

From S2P Require Import Prelude Sha256 TxRoot Sink Source ReadLocal Serialization BytesOrder MemDB OverlayDB CacheDB Contract MerkleSpec MerkleHasher Native Codec.

Definition CURR_TX_VERSION : Z := 0.
Definition CURR_HEADER_VERSION : Z := 0.
Definition MAX_ATTRIBUTES_LEN : Z := 0.
Definition MAX_TX_SIZE : Z := 1024 * 1024.
Definition ONG : byte := byte_of_Z 0.

Section types.
Context `{Hasher} `{Crypto}.

(** ** Signatures of a transaction *)

Definition enc_pubkey (pk : PublicKey) : list sink_op := [OpVarBytes (SerializePublicKey pk)].
Definition Sig_Serialize (s : Sig) : res (list sink_op) :=
  if decide (PubKeys s = []) then Err "[Sig Serialize] no pubkeys in sig" else
  Ok ([OpUint16 (u16 (blen (SigData s)))] ++ enc_list (λ v, [OpVarBytes v]) (SigData s) ++
      [OpUint16 (u16 (blen (PubKeys s)))] ++ enc_list enc_pubkey (PubKeys s) ++ [OpUint16 (sig_M s)]).

(** [DeserializePublicKey] of the next bytes. *)
Definition read_pubkey (msg : string) : M ZeroCopySource PublicKey :=
  buf ← must msg NextVarBytes; of_res (DeserializePublicKey buf).

Definition Sig_Deserialize : M ZeroCopySource Sig :=
  l ← must "[Sig] deserialize read sigData length error" NextUint16;
  sigData ← loopM l (must "[Sig] deserialize read sigData error" NextVarBytes);
  l ← must "[Sig] deserialize read publicKey length error" NextUint16;
  pubKeys ← loopM l (read_pubkey "[Sig] deserialize read sigData error");
  m ← must "[Sig] deserialize read M error" NextUint16;
  mret (mkSig sigData pubKeys m).

(** ** Transactions *)

Definition InvokeCode_Serialization (code : bytes) : list sink_op := [OpVarBytes code].
Definition InvokeCode_Deserialization : M ZeroCopySource bytes := must "[InvokeCode] deserialize code error" NextVarBytes.

Definition SerializeUnsigned (tx : Transaction) : res (list sink_op) :=
  if decide (CURR_TX_VERSION < byte_to_Z (tx_Version tx)) then Err "invalid tx version" else
  match Payload tx with
  | None => Err "transaction payload is nil"
  | Some code =>
      if decide (MAX_ATTRIBUTES_LEN < blen (Attributes tx)) then Err "attributes length over max length" else
      Ok ([OpByte (tx_Version tx); OpByte (TxType tx); OpUint32 (Nonce tx); OpUint64 (tx_ChainID tx);
           OpUint64 (GasLimit tx); OpUint64 (GasPrice tx)] ++ InvokeCode_Serialization code ++
          [OpVarBytes (Attributes tx); OpAddress (Payer tx); OpByte (CoinType tx)])
  end.

Fixpoint sigs_Serialize (sigs : list Sig) : res (list sink_op) :=
  match sigs with
  | [] => Ok []
  | s :: sigs' =>
      match Sig_Serialize s, sigs_Serialize sigs' with
      | Ok a, Ok b => Ok (a ++ b)
      | Err e, _ => Err e
      | Panic, _ => Panic
      | _, e => e
      end
  end.

Definition Transaction_Serialization (tx : Transaction) : res (list sink_op) :=
  match SerializeUnsigned tx, sigs_Serialize (tx_Sigs tx) with
  | Ok u, Ok s => Ok (u ++ [OpVarUint (blen (tx_Sigs tx))] ++ s)
  | Err e, _ => Err e
  | Panic, _ => Panic
  | _, e => e
  end.

(** The fields the hash covers. *)
Definition unsigned_tx (version txType : byte) (nonce chainID gasLimit gasPrice : Z) (code attributes : bytes)
    (payer : Address) (coinType : byte) : Transaction :=
  mkTransaction version txType nonce chainID gasLimit gasPrice (Some code) attributes payer coinType [] [] EMPTY_HASH [].

Definition DeserializationUnsigned : M ZeroCopySource Transaction :=
  version ← must "[deserializationUnsigned] read version error" NextByte;
  guard_err (bool_decide (byte_to_Z version ≤ CURR_TX_VERSION)) "[deserializationUnsigned] tx version over max version" ;;
  txType ← must "[deserializationUnsigned] read txType error" NextByte;
  nonce ← must "[deserializationUnsigned] read nonce error" NextUint32;
  chainID ← must "[deserializationUnsigned] read chainid error" NextUint64;
  gasLimit ← must "[deserializationUnsigned] read gaslimit error" NextUint64;
  gasPrice ← must "[deserializationUnsigned] read gasprice error" NextUint64;
  guard_err (bool_decide (txType = Invoke_type)) "unsupported tx type" ;;
  code ← InvokeCode_Deserialization;
  attributes ← must "[deserializationUnsigned] read attributes error" NextVarBytes;
  guard_err (bool_decide (blen attributes ≤ MAX_ATTRIBUTES_LEN)) "[deserializationUnsigned] attributes length over max limit" ;;
  payer ← must "[deserializationUnsigned] read payer error" NextAddress;
  coinType ← must "[deserializationUnsigned] read coinType error" NextByte;
  guard_err (bool_decide (coinType = ONG)) "[deserializationUnsigned] unsupported coinType" ;;
  mret (unsigned_tx version txType nonce chainID gasLimit gasPrice code attributes payer coinType).

(** The deserialized transaction from its unsigned part. *)
Definition tx_with (u : Transaction) (sigs : list Sig) (raw : bytes) (hash : Uint256) : Transaction :=
  mkTransaction (tx_Version u) (TxType u) (Nonce u) (tx_ChainID u) (GasLimit u) (GasPrice u) (Payload u) (Attributes u)
    (Payer u) (CoinType u) sigs raw hash [].

(** [make([]Sig, l)] with elements of 56 bytes. *)
Definition sig_size : Z := 56.

Definition Transaction_Deserialization : M ZeroCopySource Transaction :=
  pstart ← src_Pos;
  u ← DeserializationUnsigned;
  pos ← src_Pos;
  let lenUnsigned := u64 (pos - pstart) in
  src_BackUp lenUnsigned ;;
  rawUnsigned ← must "read unsigned code error" (src_NextBytes lenUnsigned);
  let hash := dsum rawUnsigned in
  l ← must "[Deserialization] read sigs length error" NextVarUint;
  make_elems sig_size l ;;
  sigs ← loopM (go_int l) Sig_Deserialize;
  pend ← src_Pos;
  let lenAll := u64 (pend - pstart) in
  guard_err (bool_decide (lenAll ≤ MAX_TX_SIZE)) "execced max transaction size" ;;
  src_BackUp lenAll ;;
  '(raw, _) ← src_NextBytes lenAll;
  mret (tx_with u sigs raw hash).

Definition TransactionFromRawBytes (raw : bytes) : res Transaction :=
  if decide (MAX_TX_SIZE < blen raw) then Err "execced max transaction size"
  else (Transaction_Deserialization (NewZeroCopySource raw)).1.

(** ** Headers *)

Record Header := mkHeader {
  h_Version : Z;
  h_ChainID : Z;
  PrevBlockHash : Uint256;
  TransactionsRoot : Uint256;
  CrossStateRoot : Uint256;
  BlockRoot : Uint256;
  Timestamp : Z;
  Height : Z;
  ConsensusData : Z;
  ConsensusPayload : bytes;
  NextBookkeeper : Address;
  Bookkeepers : list PublicKey;
  h_SigData : list bytes;
}.

Definition unsigned_ops (h : Header) : list sink_op :=
  [OpUint32 (h_Version h); OpUint64 (h_ChainID h); OpHash (PrevBlockHash h); OpHash (TransactionsRoot h);
   OpHash (CrossStateRoot h); OpHash (BlockRoot h); OpUint32 (Timestamp h); OpUint32 (Height h);
   OpUint64 (ConsensusData h); OpVarBytes (ConsensusPayload h); OpAddress (NextBookkeeper h)].
Definition serializationUnsigned (h : Header) : res (list sink_op) :=
  if decide (CURR_HEADER_VERSION < h_Version h) then Panic else Ok (unsigned_ops h).
Definition Header_Serialization (h : Header) : res (list sink_op) :=
  match serializationUnsigned h with
  | Ok u => Ok (u ++ [OpVarUint (blen (Bookkeepers h))] ++ enc_list enc_pubkey (Bookkeepers h) ++
                [OpVarUint (blen (h_SigData h))] ++ enc_list (λ v, [OpVarBytes v]) (h_SigData h))
  | e => e
  end.

Definition deserializationUnsigned : M ZeroCopySource Header :=
  version ← must "[Header] read version error" NextUint32;
  guard_err (bool_decide (version ≤ CURR_HEADER_VERSION)) "[Header] header version over max version" ;;
  chainID ← must "[Header] read chainID error" NextUint64;
  prevBlockHash ← must "[Header] read prevBlockHash error" NextHash;
  transactionsRoot ← must "[Header] read transactionsRoot error" NextHash;
  crossStateRoot ← must "[Header] read crossStatesRoot error" NextHash;
  blockRoot ← must "[Header] read blockRoot error" NextHash;
  timestamp ← must "[Header] read timestamp error" NextUint32;
  height ← must "[Header] read height error" NextUint32;
  consensusData ← must "[Header] read consensusData error" NextUint64;
  consensusPayload ← must "[Header] read consensusPayload error" NextVarBytes;
  nextBookkeeper ← must "[Header] read nextBookkeeper error" NextAddress;
  mret (mkHeader version chainID prevBlockHash transactionsRoot crossStateRoot blockRoot timestamp height consensusData
          consensusPayload nextBookkeeper [] []).

Definition header_with (u : Header) (bookkeepers : list PublicKey) (sigData : list bytes) : Header :=
  mkHeader (h_Version u) (h_ChainID u) (PrevBlockHash u) (TransactionsRoot u) (CrossStateRoot u) (BlockRoot u) (Timestamp u)
    (Height u) (ConsensusData u) (ConsensusPayload u) (NextBookkeeper u) bookkeepers sigData.

Definition Header_Deserialization : M ZeroCopySource Header :=
  u ← deserializationUnsigned;
  n ← must "[Header] deserialize bookkeepers length error" NextVarUint;
  bookkeepers ← loopM (go_int n) (read_pubkey "[Header] deserialize bookkeepers public key error");
  m ← must "[Header] deserialize sigData length error" NextVarUint;
  sigData ← loopM (go_int m) (must "[Header] deserialize sigData error" NextVarBytes);
  mret (header_with u bookkeepers sigData).

Definition HeaderFromRawBytes (raw : bytes) : res Header := (Header_Deserialization (NewZeroCopySource raw)).1.

(** [GetMessage] and [Hash]; the version of a header that was read is never too high. *)
Definition GetMessage (h : Header) : res bytes :=
  match serializationUnsigned h with Ok u => Ok (enc_ops u) | Err e => Err e | Panic => Panic end.
Definition Header_Hash (h : Header) : res Uint256 :=
  match GetMessage h with Ok b => Ok (dsum b) | Err e => Err e | Panic => Panic end.

(** ** Blocks *)

Record Block := mkBlock { blk_Header : Header; Transactions : list Transaction }.

Definition Block_Hash (b : Block) : res Uint256 := Header_Hash (blk_Header b).

Fixpoint txs_Serialization (txs : list Transaction) : res (list sink_op) :=
  match txs with
  | [] => Ok []
  | tx :: txs' =>
      match Transaction_Serialization tx, txs_Serialization txs' with
      | Ok a, Ok b => Ok (a ++ b)
      | Err e, _ => Err e
      | Panic, _ => Panic
      | _, e => e
      end
  end.
Definition Block_Serialization (b : Block) : res (list sink_op) :=
  match Header_Serialization (blk_Header b), txs_Serialization (Transactions b) with
  | Ok h, Ok t => Ok (h ++ [OpUint32 (u32 (blen (Transactions b)))] ++ t)
  | Err e, _ => Err e
  | Panic, _ => Panic
  | _, e => e
  end.

(** The loop over the transactions, with the hashes seen so far.  Every
    transaction takes at least one byte, so [S (length src)] passes are enough. *)
Fixpoint txs_loop (fuel : nat) (n : Z) (mask : gset Uint256) : M ZeroCopySource (list Transaction) :=
  if decide (n ≤ 0) then mret [] else
  match fuel with
  | O => panic
  | S fuel' =>
      tx ← Transaction_Deserialization;
      guard_err (bool_decide (tx_hash tx ∉ mask)) "duplicated transaction in block" ;;
      txs ← txs_loop fuel' (n - 1) ({[tx_hash tx]} ∪ mask);
      mret (tx :: txs)
  end.

Definition Block_Deserialization : M ZeroCopySource Block :=
  header ← Header_Deserialization;
  length_ ← must "unexpected EOF" NextUint32;
  s ← get_state;
  txs ← txs_loop (S (length (src_s s))) length_ ∅;
  match ComputeMerkleRoot (tx_hash <$> txs) with
  | None => panic
  | Some root =>
      guard_err (bool_decide (TransactionsRoot header = root)) "mismatched transaction root" ;;
      mret (mkBlock header txs)
  end.
Definition BlockFromRawBytes (raw : bytes) : res Block := (Block_Deserialization (NewZeroCopySource raw)).1.

Definition set_txroot (root : Uint256) (h : Header) : Header :=
  mkHeader (h_Version h) (h_ChainID h) (PrevBlockHash h) root (CrossStateRoot h) (BlockRoot h) (Timestamp h)
    (Height h) (ConsensusData h) (ConsensusPayload h) (NextBookkeeper h) (Bookkeepers h) (h_SigData h).
Definition RebuildMerkleRoot (b : Block) : option Block :=
  hash ← ComputeMerkleRoot (tx_hash <$> Transactions b);
  Some (mkBlock (set_txroot hash (blk_Header b)) (Transactions b)).

End types.
