(* ===== verification/BlockBinding.v ===== *)
(** * What the hash of a block identifies

    A transaction survives the wire ([Transaction_roundtrip]); a transaction that
    was read carries the hash of its unsigned bytes; and two accepted blocks with
    the same hash agree on everything the hash is meant to cover
    ([Block_hash_binding]). *)

From S2P Require Import Prelude Sha256 TxRoot Sink Source ReadLocal Serialization BytesOrder MemDB OverlayDB CacheDB Contract MerkleSpec MerkleHasher Native ExCrypto Codec Types.

(** ** Positions *)

Lemma run_Pos s : src_Pos s = (Ok (src_off s), s).
Proof. done. Qed.
Lemma run_BackUp n l o : src_BackUp n (mkSource l o) = (Ok tt, mkSource l (u64 (o - n))).
Proof. done. Qed.

(** Going back over bytes that were consumed and reading them again. *)
Lemma reread s s' bs : src_wf s → consumed s s' bs →
  u64 (src_off s' - src_off s) = blen bs ∧
  (∀ {B} (k : unit → M ZeroCopySource B), (src_BackUp (blen bs) ≫= k) s' = k tt s) ∧
  src_NextBytes (blen bs) s = (Ok (bs, false), s').
Proof.
  intros [_ Hl] (pre & post & -> & ->). cbn [src_s src_off] in *.
  assert (blen (pre ++ bs) = blen pre + blen bs) as E by (rewrite length_app; lia).
  assert (blen pre + blen bs < 2 ^ 63) by (rewrite !length_app in Hl; lia).
  assert (∀ x, 0 ≤ x < 2 ^ 63 → u64 x = x) as Hu by (intros; apply uwrap_small; split; lia).
  split; [rewrite E, Hu; lia|]. split.
  - intros B k. rewrite (bind_ok _ _ _ _ _ (run_BackUp _ _ _)). do 2 f_equal. rewrite E, Hu; lia.
  - by apply decodes_NextBytes.
Qed.

Lemma run_capture {A B} (m : M ZeroCopySource A) msg (K : A → bytes → M ZeroCopySource B) s0 s1 bs a :
  src_wf s0 → consumed s0 s1 bs → m s0 = (Ok a, s1) →
  (a ← m; pos ← src_Pos; let len := u64 (pos - src_off s0) in
   src_BackUp len ;; raw ← must msg (src_NextBytes len); K a raw) s0 = K a bs s1.
Proof.
  intros Hs C E. rewrite (bind_ok _ _ _ _ _ E). destruct (reread _ _ _ Hs C) as (El & Hb & Hr).
  rewrite (bind_ok _ _ _ _ _ (run_Pos s1)). cbv zeta. rewrite El, Hb.
  by rewrite (bind_ok _ _ _ bs s1) by (by unfold must; rewrite (bind_ok _ _ _ _ _ Hr)).
Qed.

Lemma run_recapture {A} (K : bytes → A) s0 s1 bs msg max :
  src_wf s0 → consumed s0 s1 bs → blen bs ≤ max →
  (pend ← src_Pos; let lenAll := u64 (pend - src_off s0) in
   guard_err (bool_decide (lenAll ≤ max)) msg ;; src_BackUp lenAll ;;
   '(raw, _) ← src_NextBytes lenAll; mret (K raw)) s1 = (Ok (K bs), s1).
Proof.
  intros Hs C Hm. destruct (reread _ _ _ Hs C) as (El & Hb & Hr). rewrite (bind_ok _ _ _ _ _ (run_Pos s1)).
  cbv zeta. rewrite El. unfold guard_err. rewrite bool_decide_true by done. rewrite (bind_ok _ _ _ tt s1) by done.
  by rewrite Hb, (bind_ok _ _ _ _ _ Hr).
Qed.

Section binding.
Context `{Hasher} `{Crypto}.

Lemma decodes_Transaction bu bv bs u l sigs :
  decodes DeserializationUnsigned bu u → decodes NextVarUint bv (l, false) → l ≤ 2 ^ 48 / sig_size →
  decodes (loopM (go_int l) Sig_Deserialize) bs sigs → blen (bu ++ bv ++ bs) ≤ MAX_TX_SIZE →
  decodes Transaction_Deserialization (bu ++ bv ++ bs) (tx_with u sigs (bu ++ bv ++ bs) (dsum bu)).
Proof.
  intros Du Dv Hl Ds Hmax pre post Hlen. set (raw := bu ++ bv ++ bs) in *.
  set (s0 := mkSource (pre ++ raw ++ post) (blen pre)). set (s3 := mkSource _ (blen (pre ++ raw))).
  assert (src_wf s0) as Hs0 by (split; cbn; rewrite !length_app in *; lia).
  assert (consumed s0 s3 raw) as Call by (by exists pre, post).
  destruct (consumed_split _ _ _ _ Call) as (s1 & C1 & (s2 & C2 & C3)%consumed_split).
  pose proof (consumed_wf _ _ _ Hs0 C1) as Hs1. pose proof (consumed_wf _ _ _ Hs1 C2) as Hs2.
  unfold Transaction_Deserialization. rewrite (bind_ok _ _ _ _ _ (run_Pos _)).
  rewrite (run_capture _ _ _ s0 s1 bu u Hs0 C1 (decodes_run _ _ _ _ _ Hs0 C1 Du)).
  rewrite (bind_ok _ _ _ _ _ (decodes_run _ _ _ _ _ Hs1 C2 (decodes_must _ _ _ _ Dv))).
  rewrite (bind_ok _ _ _ tt s2) by (unfold make_elems; by rewrite decide_True).
  rewrite (bind_ok _ _ _ _ _ (decodes_run _ _ _ _ _ Hs2 C3 Ds)).
  exact (run_recapture (λ raw, tx_with u sigs raw (dsum bu)) s0 s3 raw _ _ Hs0 Call Hmax).
Qed.

(** ** Reads of transactions and headers *)

Lemma local_DeserializationUnsigned : local DeserializationUnsigned.
Proof. unfold DeserializationUnsigned, InvokeCode_Deserialization. solve_local. Qed.

Lemma local_read_pubkey msg : local (read_pubkey msg).
Proof. apply local_bind; [solve_local|intros b; apply local_of_res]. Qed.

(** A read that starts with one that takes at least a byte. *)
Lemma progress_local {A B} (m : M ZeroCopySource A) (k : A → M ZeroCopySource B) :
  local m → progress m → (∀ a, local (k a)) → progress (m ≫= k).
Proof.
  intros Hm Hp Hk s b s' Hs (a & s1 & E1 & E2)%bind_inv_ok. pose proof (Hp _ _ _ Hs E1).
  destruct (Hm _ _ _ Hs E1) as (b1 & C1 & _). destruct (Hk a _ _ _ (consumed_wf _ _ _ Hs C1) E2) as (b2 & C2 & _).
  rewrite (consumed_len _ _ _ C2). lia.
Qed.

Lemma progress_pubkey msg : progress (read_pubkey msg).
Proof. apply progress_local; [solve_local|auto with safe|intros b; apply local_of_res]. Qed.

Lemma local_sig_fields l :
  local (sigData ← loopM l (must "[Sig] deserialize read sigData error" NextVarBytes);
  l ← must "[Sig] deserialize read publicKey length error" NextUint16;
  pubKeys ← loopM l (read_pubkey "[Sig] deserialize read sigData error");
  m ← must "[Sig] deserialize read M error" NextUint16;
  mret (mkSig sigData pubKeys m)).
Proof.
  repeat (first [ apply local_loopM; [apply local_read_pubkey|apply progress_pubkey] | apply local_loopM; [solve_local|auto with safe]
                | solve [eauto with local] | apply local_bind; [|intros] ]).
Qed.

Lemma local_Sig : local Sig_Deserialize.
Proof. apply local_bind; [solve_local|apply local_sig_fields]. Qed.

Lemma progress_Sig : progress Sig_Deserialize.
Proof. apply progress_local; [solve_local|apply progress_must, progress_NextUint16|apply local_sig_fields]. Qed.

Lemma local_sigs n : local (loopM n Sig_Deserialize).
Proof. apply local_loopM; [apply local_Sig|apply progress_Sig]. Qed.

(** The fields the hash of a transaction covers. *)
Definition unsigned_of (tx : Transaction) : Transaction := tx_with tx [] [] EMPTY_HASH.

(** The bytes that were hashed. *)
Definition unsigned_raw (tx : Transaction) : bytes :=
  let '(_, s) := DeserializationUnsigned (NewZeroCopySource (Raw tx)) in take (Z.to_nat (src_off s)) (Raw tx).

Lemma unsigned_of_decoded s u s' : DeserializationUnsigned s = (Ok u, s') → unsigned_of u = u.
Proof.
  unfold DeserializationUnsigned. intros E.
  repeat (apply bind_inv_ok in E as (? & ? & _ & E)). injection E as <- _. done.
Qed.

(** An accepted transaction. *)
Record accepted_tx (tx : Transaction) : Prop := {
  acc_hash : tx_hash tx = dsum (unsigned_raw tx);
  acc_fields : decodes DeserializationUnsigned (unsigned_raw tx) (unsigned_of tx);
  acc_len : blen (unsigned_raw tx) < 2 ^ 63;
  acc_max : blen (Raw tx) ≤ MAX_TX_SIZE;
}.

Lemma Transaction_accepted s tx s' :
  src_wf s → Transaction_Deserialization s = (Ok tx, s') → accepted_tx tx ∧ consumed s s' (Raw tx) ∧
  decodes Transaction_Deserialization (Raw tx) tx.
Proof.
  intros Hs E. unfold Transaction_Deserialization in E.
  apply bind_inv_ok in E as (p0 & s0 & Ep & E). rewrite run_Pos in Ep. injection Ep as <- <-.
  apply bind_inv_ok in E as (u & s1 & Eu & E). pose proof (unsigned_of_decoded _ _ _ Eu) as Hu.
  destruct (local_DeserializationUnsigned _ _ _ Hs Eu) as (bu & Cu & Du).
  apply bind_inv_ok in E as (p1 & s1' & Ep & E). rewrite run_Pos in Ep. injection Ep as <- <-.
  destruct (reread _ _ _ Hs Cu) as (El & Hb & Hr). cbv zeta in E. rewrite El in E.
  rewrite Hb in E. rewrite (bind_ok _ _ _ bu s1) in E by (by unfold must; rewrite (bind_ok _ _ _ _ _ Hr)).
  clear Hb Hr El. pose proof (consumed_wf _ _ _ Hs Cu) as Hs1.
  apply bind_inv_ok in E as (n & s2 & En & E). destruct (local_eof_NextVarUint _ _ _ Hs1 (must_inv _ _ _ _ _ En)) as (b2 & C2 & D2).
  apply bind_inv_ok in E as ([] & s2' & Em & E). assert (s2' = s2 ∧ n ≤ 2 ^ 48 / sig_size) as [-> Hn].
  { unfold make_elems in Em. case_decide; [by injection Em|done]. }
  pose proof (consumed_wf _ _ _ Hs1 C2) as Hs2.
  apply bind_inv_ok in E as (sigs & s3 & Es & E). destruct (local_sigs _ _ _ _ Hs2 Es) as (b3 & C3 & D3).
  apply bind_inv_ok in E as (p3 & s3' & Ep & E). rewrite run_Pos in Ep. injection Ep as <- <-.
  pose proof (consumed_app _ _ _ _ _ Cu (consumed_app _ _ _ _ _ C2 C3)) as Call.
  destruct (reread _ _ _ Hs Call) as (El & Hb & Hr). rewrite El in E.
  apply bind_inv_ok in E as ([] & s4 & Eg & E). assert (s4 = s3 ∧ blen (bu ++ b2 ++ b3) ≤ MAX_TX_SIZE) as [-> Hmax].
  { unfold guard_err in Eg. by case_bool_decide; [injection Eg|]. }
  rewrite Hb, (bind_ok _ _ _ _ _ Hr) in E. injection E as <- <-. split; [|split; [done|by eapply decodes_Transaction]].
  assert (blen ([] ++ bu ++ b2 ++ b3) < 2 ^ 63) as Hlen.
  { destruct Call as (pre & post & -> & _). destruct Hs as [_ Hs]. cbn [src_s] in Hs. rewrite !length_app in *. cbn. lia. }
  assert (unsigned_raw (tx_with u sigs (bu ++ b2 ++ b3) (dsum bu)) = bu) as Er.
  { unfold unsigned_raw. cbn [Raw tx_with]. unfold NewZeroCopySource.
    pose proof (Du [] (b2 ++ b3) Hlen) as E. cbn [app length] in E. change (Z.of_nat 0) with 0 in E. rewrite E. cbn [src_off].
    by rewrite Nat2Z.id, take_app_length. }
  constructor; [by rewrite Er| | |done].
  - rewrite Er. change (unsigned_of (tx_with u sigs _ _)) with (unsigned_of u). by rewrite Hu.
  - rewrite Er. rewrite !length_app in Hlen. lia.
Qed.

Lemma txs_loop_accepted fuel n mask s txs s' :
  src_wf s → txs_loop fuel n mask s = (Ok txs, s') →
  Forall accepted_tx txs ∧ NoDup (tx_hash <$> txs) ∧ (∀ h, h ∈ tx_hash <$> txs → h ∉ mask) ∧
  Forall (λ tx, decodes Transaction_Deserialization (Raw tx) tx) txs.
Proof.
  revert n mask s txs s'. induction fuel as [|fuel IH]; intros n mask s txs s' Hs E; cbn [txs_loop] in E; case_decide;
    try by (injection E as <- _; split_and!; [constructor|constructor|set_solver|constructor]).
  { by unfold panic in E. }
  apply bind_inv_ok in E as (tx & s1 & E1 & E). destruct (Transaction_accepted _ _ _ Hs E1) as (Ha & C & Hd).
  apply bind_inv_ok in E as ([] & s2 & Eg & E).
  assert (s2 = s1 ∧ tx_hash tx ∉ mask) as [-> Hm]. { unfold guard_err in Eg. by case_bool_decide; [injection Eg|]. }
  apply bind_inv_ok in E as (txs' & s3 & E2 & E). injection E as <- _.
  destruct (IH _ _ _ _ _ (consumed_wf _ _ _ Hs C) E2) as (Hf & Hnd & Hout & Hds). split_and!; [by constructor| | |by constructor].
  - apply NoDup_cons. split; [|done]. intros Hin. apply (Hout _ Hin). set_solver.
  - intros h [->|Hh]%elem_of_cons; [done|]. specialize (Hout h Hh). set_solver.
Qed.

Lemma txs_loop_length fuel n mask s txs s' : txs_loop fuel n mask s = (Ok txs, s') → blen txs ≤ Z.max 0 n.
Proof.
  revert n mask s txs. induction fuel as [|fuel IH]; intros n mask s txs E; cbn [txs_loop] in E; case_decide.
  1, 3: injection E as <- _; cbn; lia.
  { by unfold panic in E. }
  apply bind_inv_ok in E as (tx & s1 & _ & E). apply bind_inv_ok in E as (u & s2 & _ & E).
  apply bind_inv_ok in E as (txs' & s3 & E & E'). injection E' as <- ->. apply IH in E. cbn [length]. lia.
Qed.

(** ** Headers *)

Definition header_wf (h : Header) : Prop :=
  h_Version h = 0 ∧ is_u64 (h_ChainID h) ∧ is_u32 (Timestamp h) ∧ is_u32 (Height h) ∧ is_u64 (ConsensusData h) ∧
  blen (ConsensusPayload h) < 2 ^ 62.

(** The fields the hash of a header covers. *)
Definition unsigned_header (h : Header) : Header := header_with h [] [].

Lemma decodes_deserializationUnsigned h :
  header_wf h → decodes deserializationUnsigned (enc_ops (unsigned_ops h)) (unsigned_header h).
Proof.
  destruct h as [v c p t cs b ti he cd cp nb bk sd]. intros (Hv & Hc & Ht & Hh & Hd & _).
  cbn [h_Version h_ChainID Timestamp Height ConsensusData] in Hv, Hc, Ht, Hh, Hd. subst v. assert (is_u32 0) by done. unfold deserializationUnsigned, unsigned_ops. cbn [h_Version h_ChainID PrevBlockHash TransactionsRoot CrossStateRoot BlockRoot
    Timestamp Height ConsensusData ConsensusPayload NextBookkeeper].
  rewrite ?enc_ops_cons, ?enc_ops_nil. cbn [enc_op]. codec_step.
  eapply decodes_bind_nil; [by apply decodes_guard|]. cbv beta. repeat codec_step.
Qed.

(** A source at some position of [l]. *)
Definition src_at (l : bytes) (s : ZeroCopySource) : Prop := src_wf s ∧ src_s s = l.

Lemma must_range msg n l s x s' :
  0 ≤ n → src_at l s →
  must msg ('(buf, eof) ← src_NextBytes n; if (eof : bool) then mret (0, true) else mret (le_get buf, eof)) s = (Ok x, s') →
  in_range (8 * n) x.
Proof. intros Hn [Hs _] E%must_inv. by eapply local_uint_range. Qed.

Lemma consumed_at l s s' bs : src_at l s → consumed s s' bs → src_at l s'.
Proof. intros [Hs <-] C. split; [by eapply consumed_wf|]. by destruct C as (pre & post & -> & ->). Qed.

Lemma local_must_at {A} msg (m : M ZeroCopySource (A * bool)) l s x s' :
  local_eof m → src_at l s → must msg m s = (Ok x, s') → src_at l s'.
Proof. intros Hm Hs E. destruct (local_must msg m Hm _ _ _ (proj1 Hs) E) as (bs & C & _). by eapply consumed_at. Qed.

Lemma NextVarBytes_len msg l s x s' : src_at l s → must msg NextVarBytes s = (Ok x, s') → blen x ≤ blen l.
Proof.
  intros [Hs <-] ([n []] & s1 & E1 & E2)%must_inv%bind_inv_ok; [done|].
  destruct (local_eof_NextVarUint _ _ _ Hs E1) as (b1 & C1 & D1).
  destruct (consumed_at _ _ _ _ (conj Hs eq_refl) C1) as [Hs1 El].
  destruct (NextBytes_inv _ _ _ _ (NextVarUint_nonneg _ _ _ Hs E1) Hs1 E2) as [(pre & post & -> & _) _].
  cbn in El. rewrite <- El, !length_app. lia.
Qed.

(** One field of a header that was read, a number of [w] bytes or any other. *)
Ltac skip_field E Hs L :=
  let x := fresh "x" in let s := fresh "s" in let F := fresh "F" in
  apply bind_inv_ok in E as (x & s & F & E); apply (local_must_at _ _ _ _ _ _ L Hs) in F; clear Hs; rename F into Hs.
Ltac num_field E Hs w L Hx :=
  let x := fresh "x" in let s := fresh "s" in let F := fresh "F" in
  apply bind_inv_ok in E as (x & s & F & E); pose proof (must_range _ w _ _ _ _ ltac:(lia) Hs F) as Hx;
  apply (local_must_at _ _ _ _ _ _ L Hs) in F; clear Hs; rename F into Hs.

Lemma header_read l s u s' :
  blen l < 2 ^ 62 → src_at l s → deserializationUnsigned s = (Ok u, s') → header_wf u.
Proof.
  intros Hl Hs E. unfold deserializationUnsigned in E. num_field E Hs 4 local_eof_NextUint32 Hv.
  apply bind_inv_ok in E as ([] & s1 & Eg & E). assert (s1 = s0 ∧ x ≤ 0) as [-> Hv0].
  { unfold guard_err in Eg. by case_bool_decide; [injection Eg|]. }
  num_field E Hs 8 local_eof_NextUint64 Hc. do 4 skip_field E Hs local_eof_NextHash.
  num_field E Hs 4 local_eof_NextUint32 Ht. num_field E Hs 4 local_eof_NextUint32 Hh.
  num_field E Hs 8 local_eof_NextUint64 Hd.
  apply bind_inv_ok in E as (p & s9 & Ep & E). pose proof (NextVarBytes_len _ _ _ _ _ Hs Ep).
  apply bind_inv_ok in E as (? & ? & _ & E). injection E as <- _.
  unfold header_wf, in_range in *. cbn. repeat split; lia.
Qed.

Lemma header_len h : header_wf h → blen (enc_ops (unsigned_ops h)) < 2 ^ 63.
Proof.
  intros (_ & _ & _ & _ & _ & Hp). unfold unsigned_ops. rewrite !enc_ops_cons, enc_ops_nil. cbn [enc_op].
  rewrite !length_app, !Nat2Z.inj_add, !length_le_put, !length_to_slice, length_enc_varuint. cbn [length].
  unfold varuint_size. repeat case_decide; lia.
Qed.

Lemma header_accepted s h s' :
  blen (src_s s) < 2 ^ 62 → src_wf s → Header_Deserialization s = (Ok h, s') →
  header_wf h ∧ src_wf s' ∧ blen (Bookkeepers h) ≤ 2 ^ 62 ∧ blen (h_SigData h) ≤ 2 ^ 62.
Proof.
  intros Hl Hs E. unfold Header_Deserialization in E.
  apply bind_inv_ok in E as (u & s1 & Eu & E). pose proof (header_read _ _ _ _ Hl (conj Hs eq_refl) Eu) as Hu.
  assert (local deserializationUnsigned) as Hloc by (unfold deserializationUnsigned; solve_local).
  destruct (Hloc _ _ _ Hs Eu) as (b & C & _). pose proof (consumed_wf _ _ _ Hs C) as Hs1.
  enough (local (n ← must "[Header] deserialize bookkeepers length error" NextVarUint;
    bookkeepers ← loopM (go_int n) (read_pubkey "[Header] deserialize bookkeepers public key error");
    m ← must "[Header] deserialize sigData length error" NextVarUint;
    sigData ← loopM (go_int m) (must "[Header] deserialize sigData error" NextVarBytes);
    mret (header_with u bookkeepers sigData))) as Ha.
  { destruct (Ha _ _ _ Hs1 E) as (b' & C' & _).
    apply bind_inv_ok in E as (n & s2 & En & E). apply bind_inv_ok in E as (bks & s3 & Ebk & E).
    apply bind_inv_ok in E as (m & s4 & Em & E). apply bind_inv_ok in E as (sd & s5 & Esd & E). injection E as <- <-.
    pose proof (consumed_at _ _ _ _ (conj Hs eq_refl) C) as A1.
    pose proof (local_must_at _ _ _ _ _ _ local_eof_NextVarUint A1 En) as A2.
    destruct (local_loopM _ _ (local_read_pubkey _) (progress_pubkey _) _ _ _ (proj1 A2) Ebk) as (b3 & C3 & _).
    pose proof (consumed_at _ _ _ _ A2 C3) as A3. pose proof (local_must_at _ _ _ _ _ _ local_eof_NextVarUint A3 Em) as A4.
    apply loopM_length in Ebk as [Lb _]. apply loopM_length in Esd as [Ls _]. rewrite (proj2 A2) in Lb. rewrite (proj2 A4) in Ls.
    split; [exact Hu|]. split; [by eapply consumed_wf|]. cbn. lia. }
  repeat (first [ apply local_loopM; [apply local_read_pubkey|apply progress_pubkey] | apply local_loopM; [solve_local|auto with safe]
                | solve [eauto with local] | apply local_bind; [|intros] ]).
Qed.

Lemma Header_Hash_wf h : header_wf h → Header_Hash h = Ok (dsum (enc_ops (unsigned_ops h))).
Proof.
  intros [Hv _]. unfold Header_Hash, GetMessage, serializationUnsigned, CURR_HEADER_VERSION. by rewrite decide_False by lia.
Qed.

(** Headers with the same hash. *)
Lemma header_hash_binding X h1 h2 hash :
  dsum_inj_on X → enc_ops (unsigned_ops h1) ∈ X → enc_ops (unsigned_ops h2) ∈ X → header_wf h1 → header_wf h2 →
  Header_Hash h1 = Ok hash → Header_Hash h2 = Ok hash → unsigned_header h1 = unsigned_header h2.
Proof.
  intros Hinj X1 X2 W1 W2 E1 E2. pose proof (header_len h1 W1) as Hl. rewrite Header_Hash_wf in E1, E2 by done. injection E1 as E1. injection E2 as E2.
  rewrite <- E1 in E2. apply Hinj in E2; [|done..].
  assert (decodes deserializationUnsigned (enc_ops (unsigned_ops h1)) (unsigned_header h1)) as D1 by (by apply decodes_deserializationUnsigned).
  assert (decodes deserializationUnsigned (enc_ops (unsigned_ops h2)) (unsigned_header h2)) as D2 by (by apply decodes_deserializationUnsigned).
  rewrite <- E2 in D1. rewrite <- E2 in Hl.
  specialize (D1 [] []). specialize (D2 [] []). rewrite app_nil_r in D1, D2. specialize (D1 Hl). specialize (D2 Hl). congruence.
Qed.

(** ** Blocks *)

(** Everything that is hashed for the hash of a block: the header, the unsigned
    transactions and the pairs of the transaction tree. *)
Definition block_msgs (b : Block) : list bytes :=
  enc_ops (unsigned_ops (blk_Header b)) :: (unsigned_raw <$> Transactions b) ++
  root_msgs (length (Transactions b)) (tx_hash <$> Transactions b).

(** The double hash has a collision on [X], or reaches the zero hash. *)
Definition hash_broken (X : list bytes) : Prop := dcollision X ∨ Exists (λ x, dsum x = EMPTY_HASH) X.
#[export] Instance hash_broken_dec X : Decision (hash_broken X).
Proof. unfold hash_broken. apply _. Defined.

Record accepted_block (b : Block) : Prop := {
  ab_header : header_wf (blk_Header b);
  ab_lens : blen (Bookkeepers (blk_Header b)) ≤ 2 ^ 62 ∧ blen (h_SigData (blk_Header b)) ≤ 2 ^ 62 ∧ is_u32 (blen (Transactions b));
  ab_txs : Forall accepted_tx (Transactions b);
  ab_raw : Forall (λ tx, decodes Transaction_Deserialization (Raw tx) tx) (Transactions b);
  ab_nodup : NoDup (tx_hash <$> Transactions b);
  ab_root : ComputeMerkleRoot (tx_hash <$> Transactions b) = Some (TransactionsRoot (blk_Header b));
}.

Lemma Block_accepted raw b : blen raw < 2 ^ 62 → BlockFromRawBytes raw = Ok b → accepted_block b.
Proof.
  intros Hl E. unfold BlockFromRawBytes in E. destruct (Block_Deserialization _) as [r s'] eqn:Eb. cbn in E. subst r.
  assert (src_wf (NewZeroCopySource raw)) as Hs by (split; cbn; lia). unfold Block_Deserialization in Eb.
  apply bind_inv_ok in Eb as (h & s1 & Eh & E). destruct (header_accepted (NewZeroCopySource raw) _ _ Hl Hs Eh) as (Hh & Hs1 & Lb & Ls).
  apply bind_inv_ok in E as (n & s2 & En & E). pose proof (must_range _ 4 _ _ _ _ ltac:(lia) (conj Hs1 eq_refl) En) as Hn.
  destruct (local_must_at _ _ _ _ _ _ local_eof_NextUint32 (conj Hs1 eq_refl) En) as [Hs2 _].
  apply bind_inv_ok in E as (s3 & s4 & [= <- <-] & E). apply bind_inv_ok in E as (txs & s5 & Et & E).
  destruct (txs_loop_accepted _ _ _ _ _ _ Hs2 Et) as (Ha & Hnd & _ & Hd).
  destruct (ComputeMerkleRoot _) as [root|] eqn:Er; [|done].
  apply bind_inv_ok in E as ([] & s6 & Eg & E). injection E as <- _.
  assert (TransactionsRoot h = root) as <-. { unfold guard_err in Eg. by case_bool_decide. }
  pose proof (txs_loop_length _ _ _ _ _ _ Et). constructor; cbn; try done. unfold in_range in *. lia.
Qed.

Lemma leaf_not_inner X txs l fuel :
  dsum_inj_on X → (unsigned_raw <$> txs) ⊆ X → root_msgs fuel l ⊆ X → Forall accepted_tx txs →
  Forall (λ tx, length (unsigned_raw tx) ≠ 64%nat) txs → inner fuel l ## (tx_hash <$> txs).
Proof.
  intros Hinj Hx Hm Ha H64 x (a & b & _ & -> & Hp)%elem_of_inner (tx & E & Hin)%list_elem_of_fmap.
  rewrite Forall_forall in Ha, H64. rewrite (acc_hash tx (Ha tx Hin)) in E.
  apply Hinj in E; [|set_solver|apply Hx; by apply list_elem_of_fmap_2].
  apply (H64 tx Hin). rewrite <- E. unfold pair_msg. by rewrite length_app, !length_to_slice.
Qed.

Lemma tx_hashes_fields X txs1 txs2 :
  dsum_inj_on X → (unsigned_raw <$> txs1) ⊆ X → (unsigned_raw <$> txs2) ⊆ X →
  Forall accepted_tx txs1 → Forall accepted_tx txs2 → tx_hash <$> txs1 = tx_hash <$> txs2 →
  unsigned_of <$> txs1 = unsigned_of <$> txs2.
Proof.
  intros Hinj. revert txs2. induction txs1 as [|t1 txs1 IH]; intros [|t2 txs2] X1 X2 A1 A2 E; try done.
  apply Forall_cons in A1 as [[H1 D1 Hl _] A1], A2 as [[H2 D2 _ _] A2]. cbn in *. injection E as E E'.
  rewrite H1, H2 in E. apply Hinj in E; [|set_solver..]. f_equal; [|apply IH; set_solver].
  rewrite <- E in D2. specialize (D1 [] []). specialize (D2 [] []). rewrite app_nil_r in D1, D2.
  specialize (D1 Hl). specialize (D2 Hl). congruence.
Qed.

(** The root of the transactions of an accepted block is a hash of one of its messages. *)
Lemma root_dsum b : accepted_block b → Transactions b ≠ [] → ∃ x, x ∈ block_msgs b ∧ TransactionsRoot (blk_Header b) = dsum x.
Proof.
  intros [_ _ Ha _ _ Hr] Hne. rewrite ComputeMerkleRoot_root in Hr. injection Hr as Hr. rewrite length_fmap in Hr.
  set (l := tx_hash <$> Transactions b) in *. unfold block_msgs. fold l.
  destruct (decide (length (Transactions b) = 1)%nat) as [E1|E1].
  - destruct (Transactions b) as [|tx [|]] eqn:Et; try done. apply Forall_singleton in Ha as [Hh _ _ _].
    exists (unsigned_raw tx). split; [set_solver|]. rewrite <- Hr. cbn. by rewrite Hh.
  - assert (1 < length l ≤ length (Transactions b))%nat as Hl.
    { unfold l. rewrite length_fmap. destruct (Transactions b) as [|? [|]]; cbn in *; [done|done|lia]. }
    pose proof (tree_root_inner _ _ Hl) as Hin. rewrite Hr in Hin.
    apply elem_of_inner in Hin as (a & c & _ & E & Hm). exists (pair_msg a c). split; [set_solver|done].
Qed.

Lemma block_txs_binding X b1 b2 :
  dsum_inj_on X → (∀ x, x ∈ X → dsum x ≠ EMPTY_HASH) → block_msgs b1 ⊆ X → block_msgs b2 ⊆ X →
  accepted_block b1 → accepted_block b2 →
  Forall (λ tx, length (unsigned_raw tx) ≠ 64%nat) (Transactions b1 ++ Transactions b2) →
  TransactionsRoot (blk_Header b1) = TransactionsRoot (blk_Header b2) →
  tx_hash <$> Transactions b1 = tx_hash <$> Transactions b2.
Proof.
  intros Hinj Hz X1 X2 A1 A2 [F1 F2]%Forall_app E.
  assert (∀ b, accepted_block b → Transactions b = [] → TransactionsRoot (blk_Header b) = EMPTY_HASH) as Hempty.
  { intros b [_ _ _ _ _ Hr] Ht. rewrite Ht in Hr. by injection Hr. }
  destruct (decide (Transactions b1 = [])) as [Z1|Z1], (decide (Transactions b2 = [])) as [Z2|Z2].
  - by rewrite Z1, Z2.
  - destruct (root_dsum b2 A2 Z2) as (x & Hx & Ex). destruct (Hz x); [set_solver|]. rewrite <- Ex, <- E. by apply Hempty.
  - destruct (root_dsum b1 A1 Z1) as (x & Hx & Ex). destruct (Hz x); [set_solver|]. rewrite <- Ex, E. by apply Hempty.
  - destruct A1 as [_ _ T1 _ N1 R1], A2 as [_ _ T2 _ N2 R2]. unfold block_msgs in X1, X2.
    rewrite ComputeMerkleRoot_root, length_fmap in R1, R2. injection R1 as R1. injection R2 as R2.
    apply (root_inj X Hinj (length (Transactions b1)) (length (Transactions b2))); [..|by rewrite R1, R2].
    + rewrite length_fmap. destruct (Transactions b1); [done|cbn; lia].
    + rewrite length_fmap. destruct (Transactions b2); [done|cbn; lia].
    + done.
    + done.
    + set_solver.
    + set_solver.
    + apply (leaf_not_inner X); set_solver.
    + apply (leaf_not_inner X); set_solver.
Qed.


(** ** Round trip of transactions *)

(** The key library reads back the key it wrote. *)
Definition key_ok (pk : PublicKey) : Prop := DeserializePublicKey (SerializePublicKey pk) = Ok pk.
Definition sig_wf (s : Sig) : Prop :=
  is_u16 (blen (SigData s)) ∧ is_u16 (blen (PubKeys s)) ∧ is_u16 (sig_M s) ∧ Forall key_ok (PubKeys s).
Definition tx_wf (tx : Transaction) : Prop :=
  TxType tx = Invoke_type ∧ CoinType tx = ONG ∧ is_u32 (Nonce tx) ∧ is_u64 (tx_ChainID tx) ∧ is_u64 (GasLimit tx) ∧
  is_u64 (GasPrice tx) ∧ Forall sig_wf (tx_Sigs tx).

Ltac enc_split := repeat first [rewrite enc_ops_app | rewrite enc_ops_cons]; rewrite ?enc_ops_nil, ?app_nil_l; cbn [enc_op].

Lemma decodes_pubkeys msg (l : list PublicKey) n :
  n = blen l → Forall key_ok l → decodes (loopM n (read_pubkey msg)) (enc_ops (enc_list enc_pubkey l)) l.
Proof.
  intros -> Hk. rewrite Forall_forall in Hk. apply decodes_list; [done| |intros; apply enc_varbytes_pos].
  intros pk Hpk. unfold enc_pubkey. rewrite enc_ops_cons, enc_ops_nil. cbn [enc_op].
  eapply decodes_bind; [apply decodes_must, decodes_NextVarBytes|]. by apply decodes_of_res, Hk.
Qed.

Lemma decodes_Sig s ops : sig_wf s → Sig_Serialize s = Ok ops → decodes Sig_Deserialize (enc_ops ops) s.
Proof.
  intros (Hd & Hk & Hm & Hok) E. unfold Sig_Serialize in E. case_decide; [done|]. injection E as <-.
  rewrite !uwrap_small by done. destruct s as [d k m]. unfold Sig_Deserialize. cbn [SigData PubKeys sig_M] in *.
  enc_split. codec_step. eapply decodes_bind; [by apply decodes_slices|]. codec_step.
  eapply decodes_bind; [by apply decodes_pubkeys|]. repeat codec_step.
Qed.

Definition enc_sig (s : Sig) : bytes := match Sig_Serialize s with Ok o => enc_ops o | _ => [] end.

Lemma sigs_Serialize_ok sigs ops :
  sigs_Serialize sigs = Ok ops → enc_ops ops = mjoin (enc_sig <$> sigs) ∧ Forall (λ s, ∃ o, Sig_Serialize s = Ok o) sigs.
Proof.
  revert ops. induction sigs as [|s sigs IH]; intros ops E; cbn in E; [by injection E as <-|].
  destruct (Sig_Serialize s) as [a| |] eqn:Es, (sigs_Serialize sigs) as [b| |]; try done. injection E as <-.
  destruct (IH b eq_refl) as [E Hf]. split; [|constructor; eauto]. rewrite enc_ops_app, E. cbn. unfold enc_sig. by rewrite Es.
Qed.

Lemma Sig_Serialize_pos s o : Sig_Serialize s = Ok o → (0 < length (enc_ops o))%nat.
Proof.
  unfold Sig_Serialize. case_decide; [done|]. intros [= <-]. enc_split. rewrite !length_app, length_le_put. lia.
Qed.

Lemma sigs_count sigs ops : sigs_Serialize sigs = Ok ops → (length sigs ≤ length (enc_ops ops))%nat.
Proof.
  intros [-> Hok]%sigs_Serialize_ok. apply length_mjoin_ge. intros s Hs. rewrite Forall_forall in Hok.
  destruct (Hok s Hs) as (o & E). unfold enc_sig. rewrite E. by eapply Sig_Serialize_pos.
Qed.

Lemma decodes_sigs sigs ops :
  Forall sig_wf sigs → sigs_Serialize sigs = Ok ops → decodes (loopM (blen sigs) Sig_Deserialize) (enc_ops ops) sigs.
Proof.
  intros Hwf [-> Hok]%sigs_Serialize_ok. rewrite Forall_forall in Hwf, Hok.
  apply decodes_loopM; [done| |]; intros s Hs; destruct (Hok s Hs) as (o & E); unfold enc_sig; rewrite E.
  - apply decodes_Sig; auto.
  - by eapply Sig_Serialize_pos.
Qed.

Lemma decodes_unsigned tx ops :
  tx_wf tx → SerializeUnsigned tx = Ok ops → decodes DeserializationUnsigned (enc_ops ops) (unsigned_of tx).
Proof.
  intros (Ht & Hc & Hn & Hi & Hg & Hp & _) E. unfold SerializeUnsigned in E. case_decide as Hv; [done|].
  destruct (Payload tx) as [code|] eqn:El; [|done]. case_decide as Ha; [done|]. injection E as <-.
  unfold unsigned_of, tx_with. rewrite El. unfold DeserializationUnsigned, InvokeCode_Serialization, InvokeCode_Deserialization.
  enc_split. codec_step. eapply decodes_bind_nil; [apply decodes_guard, bool_decide_true; lia|]. cbv beta.
  repeat codec_step. eapply decodes_bind_nil; [apply decodes_guard; by rewrite bool_decide_true|]. cbv beta.
  repeat codec_step. eapply decodes_bind_nil; [apply decodes_guard, bool_decide_true; lia|]. cbv beta.
  repeat codec_step. eapply decodes_bind_nil; [apply decodes_guard; by rewrite bool_decide_true|]. apply decodes_ret.
Qed.

(** Transactions survive the wire.  If a transaction with fields of their Go
    widths is serialized, then reading the bytes, wherever they stand in a source,
    gives back the transaction, with the bytes as [Raw] and the double hash of the
    unsigned part as its hash, provided the bytes are at most [MAX_TX_SIZE] and the
    key library reads back the keys it wrote. *)
Theorem Transaction_roundtrip tx u ops :
  tx_wf tx → SerializeUnsigned tx = Ok u → Transaction_Serialization tx = Ok ops → blen (enc_ops ops) ≤ MAX_TX_SIZE →
  decodes Transaction_Deserialization (enc_ops ops) (tx_with tx (tx_Sigs tx) (enc_ops ops) (dsum (enc_ops u))).
Proof.
  intros Hwf Eu Eo Hmax. pose proof (decodes_unsigned tx u Hwf Eu) as Du. unfold Transaction_Serialization in Eo. rewrite Eu in Eo.
  destruct (sigs_Serialize (tx_Sigs tx)) as [so| |] eqn:Es; try done. injection Eo as <-.
  destruct Hwf as (_ & _ & _ & _ & _ & _ & Hsw). pose proof (decodes_sigs _ _ Hsw Es) as Ds.
  assert (is_u64 (blen (tx_Sigs tx)) ∧ blen (tx_Sigs tx) ≤ 2 ^ 48 / sig_size) as [Hn64 Hnsz].
  { pose proof (sigs_count _ _ Es). rewrite enc_ops_app, length_app in Hmax. cbn [app] in Hmax. rewrite enc_ops_cons, length_app in Hmax.
    unfold MAX_TX_SIZE in Hmax. change (2 ^ 48 / sig_size) with 5026338869833. split; [split|]; lia. }
  assert (enc_ops (u ++ OpVarUint (blen (tx_Sigs tx)) :: so) = enc_ops u ++ enc_varuint (blen (tx_Sigs tx)) ++ enc_ops so) as Eb
    by (by rewrite enc_ops_app, enc_ops_cons).
  cbn [app] in *. rewrite Eb in *. apply (decodes_Transaction _ _ _ (unsigned_of tx) (blen (tx_Sigs tx))); [done|by apply decodes_NextVarUint|done| |done].
  by rewrite swrap_small by (change (2 ^ 48 / sig_size) with 5026338869833 in Hnsz; lia).
Qed.

(** ** Round trip of headers *)

Lemma go_int_len {A} (l : list A) : blen l ≤ 2 ^ 62 → is_u64 (blen l) ∧ go_int (blen l) = blen l.
Proof. intros. split; [split; lia|]. apply swrap_small; lia. Qed.

Lemma decodes_Header h ops :
  header_wf h → Forall key_ok (Bookkeepers h) → blen (Bookkeepers h) ≤ 2 ^ 62 → blen (h_SigData h) ≤ 2 ^ 62 →
  Header_Serialization h = Ok ops → decodes Header_Deserialization (enc_ops ops) h.
Proof.
  intros Hwf Hk [Hb1 Hb2]%go_int_len [Hs1 Hs2]%go_int_len E. pose proof (decodes_deserializationUnsigned h Hwf) as Du.
  unfold Header_Serialization, serializationUnsigned in E. rewrite decide_False in E by (destruct Hwf as [-> _]; done).
  assert (ops = unsigned_ops h ++ ([OpVarUint (blen (Bookkeepers h))] ++ enc_list enc_pubkey (Bookkeepers h) ++
            [OpVarUint (blen (h_SigData h))] ++ enc_list (λ v, [OpVarBytes v]) (h_SigData h))) as -> by congruence.
  clear E. unfold Header_Deserialization. rewrite enc_ops_app. eapply decodes_bind; [exact Du|]. clear Du Hwf.
  destruct h as [v c p t cs b ti he cd cp nb bk sd]. cbn [Bookkeepers h_SigData] in *. enc_split. rewrite !app_nil_r.
  codec_step. eapply decodes_bind; [apply decodes_pubkeys; [done|done]|]. codec_step.
  eapply decodes_map; [apply decodes_slices; done|done].
Qed.

(** ** Panics *)

Section panics.
Hypothesis key_no_panic : ∀ b, DeserializePublicKey b ≠ Panic.

Lemma safe_read_pubkey msg : safe (read_pubkey msg).
Proof using key_no_panic. apply safe_bind; [auto using safe_must with safe|]. intros b. by apply safe_of_res. Qed.

Lemma safe_Sig : safe Sig_Deserialize.
Proof using key_no_panic.
  unfold Sig_Deserialize.
  repeat (first [ apply safe_loopM; [apply safe_read_pubkey|apply progress_pubkey] | apply safe_loopM; [apply safe_must; auto with safe|auto with safe]
                | solve [auto with safe] | apply safe_must | apply safe_bind; [|intros] ]).
Qed.

Lemma safe_DeserializationUnsigned : safe DeserializationUnsigned.
Proof using Type.
  unfold DeserializationUnsigned, InvokeCode_Deserialization.
  repeat (first [solve [auto with safe] | apply safe_must | apply safe_guard | apply safe_bind; [|intros] ]).
Qed.

(** When decoding a transaction panics.  If the key library reports bad keys
    by an error, [TransactionFromRawBytes] panics exactly if the raw bytes are not
    too long, their unsigned part is well formed and the number of signatures that
    follows it asks for more than the address space: the allocation is made before
    the signatures are read.  No other input, of any content, makes it panic. *)
Theorem TransactionFromRawBytes_panics raw :
  TransactionFromRawBytes raw = Panic ↔
  blen raw ≤ MAX_TX_SIZE ∧
  ∃ u s1 l s2, DeserializationUnsigned (NewZeroCopySource raw) = (Ok u, s1) ∧ NextVarUint s1 = (Ok (l, false), s2) ∧
    2 ^ 48 / sig_size < l.
Proof using key_no_panic.
  unfold TransactionFromRawBytes. case_decide as Hm; [split; [done|intros [? _]; lia]|].
  assert (src_wf (NewZeroCopySource raw)) as Hs0 by (unfold MAX_TX_SIZE in Hm; split; cbn; lia).
  set (s0 := NewZeroCopySource raw) in *. unfold Transaction_Deserialization. rewrite (bind_ok _ _ _ _ _ (run_Pos s0)).
  destruct (safe_DeserializationUnsigned s0 Hs0) as (r1 & s1 & E1 & N1 & _). destruct r1 as [u|e|]; [| |done].
  2: { erewrite bind_err by exact E1. split; [done|]. intros (_ & ? & ? & ? & ? & E & _). congruence. }
  destruct (local_DeserializationUnsigned _ _ _ Hs0 E1) as (bu & C1 & _). pose proof (consumed_wf _ _ _ Hs0 C1) as Hs1.
  rewrite (run_capture _ _ _ s0 s1 bu u Hs0 C1 E1).
  destruct (safe_NextVarUint s1 Hs1) as (r2 & s2 & E2 & N2 & _). destruct r2 as [[l []]|e|]; [| | |done].
  1: { erewrite bind_err by (unfold must; by rewrite (bind_ok _ _ _ _ _ E2)). split; [done|].
       intros (_ & ? & ? & ? & ? & E & E' & _). congruence. }
  2: { erewrite bind_err by (unfold must; by erewrite bind_err by exact E2). split; [done|].
       intros (_ & ? & ? & ? & ? & E & E' & _). congruence. }
  rewrite (bind_ok _ _ _ l s2) by (unfold must; by rewrite (bind_ok _ _ _ _ _ E2)).
  destruct (local_eof_NextVarUint _ _ _ Hs1 E2) as (b2 & C2 & _). pose proof (consumed_wf _ _ _ Hs1 C2) as Hs2.
  destruct (decide (l ≤ 2 ^ 48 / sig_size)) as [Hl|Hl].
  - erewrite bind_ok by (unfold make_elems; by rewrite decide_True). split.
    + intros E. exfalso. revert E.
      destruct (safe_loopM _ (go_int l) safe_Sig progress_Sig s2 Hs2) as (r3 & s3 & E3 & N3 & _).
      destruct r3 as [sigs|e|]; [|by erewrite bind_err by exact E3|done]. rewrite (bind_ok _ _ _ _ _ E3).
      destruct (local_sigs _ _ _ _ Hs2 E3) as (b3 & C3 & _).
      pose proof (consumed_app _ _ _ _ _ C1 (consumed_app _ _ _ _ _ C2 C3)) as Call.
      destruct (decide (blen (bu ++ b2 ++ b3) ≤ MAX_TX_SIZE)) as [Hb|Hb].
      * by erewrite (run_recapture (λ raw, tx_with u sigs raw (dsum bu)) s0 s3 _ _ _ Hs0 Call Hb).
      * destruct (reread _ _ _ Hs0 Call) as (El & _ & _). rewrite (bind_ok _ _ _ _ _ (run_Pos s3)). cbv zeta. rewrite El.
        unfold guard_err. by rewrite bool_decide_false.
    + intros (_ & ? & ? & ? & ? & E & E' & Hgt). rewrite E1 in E. simplify_eq. rewrite E2 in E'. simplify_eq. lia.
  - split; [|by unfold make_elems, mbind, M_bind; rewrite decide_False]. intros _. split; [lia|].
    exists u, s1, l, s2. split_and!; [done|done|lia].
Qed.
End panics.
End binding.

(** ** A block with two transactions, and the same block with other signatures *)

Definition ex_wire (tx : Transaction) : bytes := match Transaction_Serialization tx with Ok o => enc_ops o | _ => [] end.
Definition ex_read (tx : Transaction) : Transaction :=
  match TransactionFromRawBytes (ex_wire tx) with Ok t => t | _ => tx end.
Definition ex_tx1 : Transaction := ex_transaction 1 EMPTY_HASH (gs "first").
Definition ex_tx2 : Transaction := ex_transaction 2 EMPTY_HASH (gs "second").
Definition ex_txs : list Transaction := [ex_read ex_tx1; ex_read ex_tx2].
Definition ex_header (sigs : list bytes) : Header :=
  mkHeader 0 0 EMPTY_HASH (default EMPTY_HASH (ComputeMerkleRoot (tx_hash <$> ex_txs))) EMPTY_HASH EMPTY_HASH 1000 5 0 [] ADDRESS_EMPTY
    [ex_pk 1 : PublicKey] sigs.
Definition ex_raw (sigs : list bytes) : bytes :=
  match Block_Serialization (mkBlock (ex_header sigs) [ex_tx1; ex_tx2]) with Ok o => enc_ops o | _ => [] end.

Definition ex_blk (sigs : list bytes) : Block := ok_or (mkBlock (ex_header sigs) []) (BlockFromRawBytes (ex_raw sigs)).


Lemma Transaction_roundtrip_example :
  let u := ok_or [] (SerializeUnsigned ex_tx1) in let ops := ok_or [] (Transaction_Serialization ex_tx1) in
  length (enc_ops ops) = 99%nat ∧
  decodes Transaction_Deserialization (enc_ops ops) (tx_with ex_tx1 (tx_Sigs ex_tx1) (enc_ops ops) (dsum (enc_ops u))).
Proof.
  split; [by vm_compute|]. apply Transaction_roundtrip.
  - unfold tx_wf, sig_wf, key_ok. split_and!; [done..|]. apply Forall_singleton. split_and!; [done..|]. by apply Forall_singleton.
  - apply ok_or_ok. by vm_compute.
  - apply ok_or_ok. by vm_compute.
  - by vm_compute.
Defined.

(** Sixty-seven bytes that announce 2^64 - 1 signatures. *)
Lemma TransactionFromRawBytes_panics_example :
  let raw := enc_ops (ok_or [] (SerializeUnsigned ex_tx1)) ++ replicate 9 (byte_of_Z 255) in
  length raw = 67%nat ∧ TransactionFromRawBytes raw = Panic ∧
  (TransactionFromRawBytes raw = Panic ↔
   blen raw ≤ MAX_TX_SIZE ∧
   ∃ u s1 l s2, DeserializationUnsigned (NewZeroCopySource raw) = (Ok u, s1) ∧ NextVarUint s1 = (Ok (l, false), s2) ∧
     2 ^ 48 / sig_size < l).
Proof.
  split; [by vm_compute|]. split; [by vm_compute|]. apply TransactionFromRawBytes_panics.
  intros b. unfold DeserializePublicKey. cbn. by case_decide.
Defined.
