(* ===== verification/Signature.v ===== *)
(** * Checking signatures
    (core/signature/signature.go, core/validation/transaction_validator.go)

    The signature scheme of ontology-crypto is a parameter ([SigScheme]).
    [VerifyMultiSignature] assigns to each of the first [m] signatures the first
    unused key it verifies under; [checkTransactionSignatures] checks every
    signature group of a transaction and records the addresses that signed. *)

From S2P Require Import Prelude Sha256 TxRoot Sink Source ReadLocal Serialization BytesOrder MemDB OverlayDB CacheDB Contract MerkleSpec MerkleHasher Native ExCrypto Codec Types.

Class SigScheme `{Crypto} := {
  SigObj : Type;
  sig_Deserialize : bytes → res SigObj;
  key_Verify : PublicKey → bytes → SigObj → bool;
}.

Definition TX_MAX_SIG_SIZE : Z := 16.

Section signature.
Context `{Hasher} `{Crypto} `{!SigScheme}.

Definition Verify (pubKey : PublicKey) (data signature : bytes) : res unit :=
  match sig_Deserialize signature with
  | Err e => Err ("invalid signature data: " +:+ e)
  | Panic => Panic
  | Ok sigObj => if key_Verify pubKey data sigObj then Ok tt else Err "signature verification failed"
  end.

(** The inner loop: the first key from [j] on that is not used and verifies. *)
Fixpoint find_key (data : bytes) (sig : SigObj) (keys : list PublicKey) (mask : list bool) (j : nat) : option nat :=
  match keys, mask with
  | key :: keys', used :: mask' =>
      if used then find_key data sig keys' mask' (S j)
      else if key_Verify key data sig then Some j
      else find_key data sig keys' mask' (S j)
  | _, _ => None
  end.

(** The outer loop over the first [k] of the signatures. *)
Fixpoint multi_loop (data : bytes) (keys : list PublicKey) (k : nat) (sigs : list bytes) (mask : list bool) : res unit :=
  match k, sigs with
  | O, _ => Ok tt
  | S k', sg :: sigs' =>
      match sig_Deserialize sg with
      | Ok sig =>
          match find_key data sig keys mask 0 with
          | Some j => multi_loop data keys k' sigs' (<[j := true]> mask)
          | None => Err "multi-signature verification failed"
          end
      | Err _ => Err "invalid signature data"
      | Panic => Panic
      end
  | S _, [] => Panic
  end.

Definition VerifyMultiSignature (data : bytes) (keys : list PublicKey) (m : Z) (sigs : list bytes) : res unit :=
  if decide (blen sigs < m) then Err "not enough signatures in multi-signature"
  else multi_loop data keys (Z.to_nat m) sigs (replicate (length keys) false).

(** ** Signatures of a transaction *)

(** One pass of the loop over [tx.Sigs]: the address it adds. *)
Definition check_sig (hash : bytes) (sig : Sig) : res Address :=
  let m := sig_M sig in
  let kn := blen (PubKeys sig) in
  let sn := blen (SigData sig) in
  if decide (MULTI_SIG_MAX_PUBKEY_SIZE < kn ∨ sn < m ∨ kn < m ∨ m ≤ 0) then Err "wrong tx sig param length" else
  match PubKeys sig, SigData sig with
  | [pk], data :: _ =>
      match Verify pk hash data with
      | Ok _ => Ok (AddressFromPubKey pk)
      | Err _ => Err "signature verification failed"
      | Panic => Panic
      end
  | [_], [] => Panic
  | keys, data =>
      match VerifyMultiSignature hash keys m data with
      | Ok _ => AddressFromMultiPubKeys keys m
      | Err e => Err e
      | Panic => Panic
      end
  end.

Fixpoint check_sigs (hash : bytes) (sigs : list Sig) (address : gset Address) : res (gset Address) :=
  match sigs with
  | [] => Ok address
  | sig :: sigs' =>
      match check_sig hash sig with
      | Ok addr => check_sigs hash sigs' ({[addr]} ∪ address)
      | Err e => Err e
      | Panic => Panic
      end
  end.

(** The transaction with [SignedAddr] set; Go ranges over the addresses in an
    unspecified order, [elements] is one of them. *)
Definition checkTransactionSignatures (tx : Transaction) : res Transaction :=
  if decide (TX_MAX_SIG_SIZE < blen (tx_Sigs tx)) then Err "transaction signature number execced" else
  match check_sigs (to_slice (tx_hash tx)) (tx_Sigs tx) ∅ with
  | Ok address =>
      Ok (mkTransaction (tx_Version tx) (TxType tx) (Nonce tx) (tx_ChainID tx) (GasLimit tx) (GasPrice tx) (Payload tx)
            (Attributes tx) (Payer tx) (CoinType tx) (tx_Sigs tx) (Raw tx) (tx_hash tx) (elements address))
  | Err e => Err e
  | Panic => Panic
  end.

Definition checkTransactionPayload (tx : Transaction) : res unit :=
  match Payload tx with
  | Some _ => Ok tt
  | None => Err "[txValidator], unimplemented transaction payload type."
  end.

Inductive ErrCode := ErrNoError | ErrVerifySignature | ErrTransactionPayload.
(** The code, and the transaction as it was updated. *)
Definition VerifyTransaction (tx : Transaction) : res (ErrCode * Transaction) :=
  match checkTransactionSignatures tx with
  | Panic => Panic
  | Err _ => Ok (ErrVerifySignature, tx)
  | Ok tx' =>
      match checkTransactionPayload tx' with
      | Ok _ => Ok (ErrNoError, tx')
      | _ => Ok (ErrTransactionPayload, tx')
      end
  end.

(** ** What a multi-signature shows *)

(** [sigs] are signatures of [data] by the keys at the indices [js]. *)
Definition signed_by (data : bytes) (keys : list PublicKey) (sigs : list bytes) (js : list nat) : Prop :=
  Forall2 (λ sg j, ∃ sig key, sig_Deserialize sg = Ok sig ∧ keys !! j = Some key ∧ key_Verify key data sig = true) sigs js.

Lemma find_key_spec data sig keys mask j0 j :
  find_key data sig keys mask j0 = Some j →
  ∃ key, (j0 ≤ j)%nat ∧ keys !! (j - j0)%nat = Some key ∧ mask !! (j - j0)%nat = Some false ∧ key_Verify key data sig = true.
Proof.
  revert mask j0. induction keys as [|key keys IH]; intros [|used mask] j0; cbn; try done. intros E.
  assert (find_key data sig keys mask (S j0) = Some j → ∃ key0, (j0 ≤ j)%nat ∧ (key :: keys) !! (j - j0)%nat = Some key0 ∧
    (used :: mask) !! (j - j0)%nat = Some false ∧ key_Verify key0 data sig = true) as Hrec.
  { intros (key0 & Hj & Hk & Hm & Hv)%IH. exists key0. replace (j - j0)%nat with (S (j - S j0)) by lia.
    split_and!; [lia|done..]. }
  destruct used; [by apply Hrec|]. destruct (key_Verify key data sig) eqn:Ev; [|by apply Hrec].
  injection E as <-. exists key. by rewrite Nat.sub_diag.
Qed.

Lemma find_key_complete data sig keys mask j0 i key :
  keys !! i = Some key → mask !! i = Some false → key_Verify key data sig = true →
  (∀ i' key', keys !! i' = Some key' → key_Verify key' data sig = true → i' = i) →
  find_key data sig keys mask j0 = Some (j0 + i)%nat.
Proof.
  revert mask j0 i. induction keys as [|k keys IH]; intros [|used mask] j0 i Hk Hm Hv Huniq; try done. cbn.
  destruct i as [|i].
  - cbn in Hk, Hm. simplify_eq. by rewrite Hv, Nat.add_0_r.
  - cbn in Hk, Hm. destruct (key_Verify k data sig) eqn:Ek; [by specialize (Huniq 0%nat k eq_refl Ek)|].
    assert (find_key data sig keys mask (S j0) = Some (j0 + S i)%nat) as E.
    { rewrite (IH mask (S j0) i); [f_equal; lia|done..|]. intros i' key' Hi' Hv'. specialize (Huniq (S i') key' Hi' Hv'). lia. }
    rewrite E. by destruct used.
Qed.

(** A signature that could be assigned to two of the keys. *)
Definition exclusive (data : bytes) (keys : list PublicKey) (sigs : list bytes) : Prop :=
  ∀ sg sig i j k1 k2, sg ∈ sigs → sig_Deserialize sg = Ok sig → keys !! i = Some k1 → keys !! j = Some k2 →
    key_Verify k1 data sig = true → key_Verify k2 data sig = true → i = j.

Lemma multi_loop_sound data keys k sigs mask :
  length mask = length keys → multi_loop data keys k sigs mask = Ok tt →
  ∃ js, signed_by data keys (take k sigs) js ∧ length js = k ∧ NoDup js ∧ ∀ j, j ∈ js → mask !! j = Some false.
Proof.
  revert sigs mask. induction k as [|k IH]; intros sigs mask Hl E; cbn in E.
  { exists []. rewrite take_0. split_and!; [constructor|done|constructor|set_solver]. }
  destruct sigs as [|sg sigs]; [done|]. destruct (sig_Deserialize sg) as [sig| |] eqn:Es; try done.
  destruct (find_key data sig keys mask 0) as [j|] eqn:Ej; [|done].
  apply find_key_spec in Ej as (key & _ & Hk & Hm & Hv). rewrite Nat.sub_0_r in *.
  apply IH in E as (js & Hs & Hlen & Hnd & Hm'); [|by rewrite length_insert].
  exists (j :: js). split_and!.
  - constructor; [by exists sig, key|done].
  - cbn. by rewrite Hlen.
  - constructor; [|done]. intros Hj%Hm'. rewrite list_lookup_insert_eq in Hj; [done|]. by eapply lookup_lt_Some.
  - intros i [->|Hi]%elem_of_cons; [done|]. pose proof (Hm' i Hi) as Hi'.
    destruct (decide (i = j)) as [->|]; [by rewrite Hm|]. by rewrite list_lookup_insert_ne in Hi'.
Qed.

Lemma multi_loop_complete data keys k sigs mask js :
  length mask = length keys → signed_by data keys (take k sigs) js → length js = k → NoDup js →
  (∀ j, j ∈ js → mask !! j = Some false) → exclusive data keys sigs → multi_loop data keys k sigs mask = Ok tt.
Proof.
  revert sigs mask js. induction k as [|k IH]; intros sigs mask js Hl Hs Hlen Hnd Hm Hex; [done|].
  destruct js as [|j js]; [done|]. destruct sigs as [|sg sigs]; [by inversion Hs|]. cbn in Hs.
  apply Forall2_cons in Hs as [(sig & key & Es & Hk & Hv) Hs]. apply NoDup_cons in Hnd as [Hj Hnd]. cbn. rewrite Es.
  rewrite (find_key_complete data sig keys mask 0 j key); [|done|set_solver|done|].
  - cbn. apply (IH _ _ js); [by rewrite length_insert|done|by injection Hlen|done| |].
    + intros i Hi. rewrite list_lookup_insert_ne by (intros ->; done). set_solver.
    + intros sg' sig' i1 i2 k1 k2 Hin. apply Hex. set_solver.
  - intros i key' Hi Hv'. eapply (Hex sg sig i j); [set_solver|done..].
Qed.

(** C27 (a multi-signature is a quorum of different keys).  [VerifyMultiSignature]
    never accepts with fewer than [m] signatures: it succeeds only if the first [m]
    signatures are signatures of the data by keys at [m] different positions.  If no
    signature verifies under two of the keys, it succeeds whenever they are. *)
Theorem VerifyMultiSignature_quorum data keys m sigs :
  0 ≤ m →
  (VerifyMultiSignature data keys m sigs = Ok tt →
   ∃ js, NoDup js ∧ blen js = m ∧ signed_by data keys (take (Z.to_nat m) sigs) js) ∧
  (exclusive data keys sigs →
   (∃ js, NoDup js ∧ blen js = m ∧ signed_by data keys (take (Z.to_nat m) sigs) js) →
   VerifyMultiSignature data keys m sigs = Ok tt).
Proof.
  intros Hm. unfold VerifyMultiSignature. split.
  - case_decide; [done|]. intros (js & Hs & Hlen & Hnd & _)%multi_loop_sound; [|by rewrite length_replicate].
    exists js. split_and!; [done|lia|done].
  - intros Hex (js & Hnd & Hlen & Hs). pose proof (Forall2_length _ _ _ Hs) as Hl. rewrite length_take in Hl.
    rewrite decide_False by lia. apply (multi_loop_complete _ _ _ _ _ js); [by rewrite length_replicate|done|lia|done| |done].
    intros j [i Hi]%list_elem_of_lookup. eapply Forall2_lookup_r in Hs as (sg & _ & sig & key & _ & Hk & _); [|exact Hi].
    apply lookup_replicate_2. by eapply lookup_lt_Some.
Qed.

(** ** The addresses of a checked transaction *)

(** The group's keys, enough of them, signed the data. *)
Definition authorised (hash : bytes) (sig : Sig) : Prop :=
  ∃ js, NoDup js ∧ blen js = sig_M sig ∧ signed_by hash (PubKeys sig) (take (Z.to_nat (sig_M sig)) (SigData sig)) js.

Lemma Verify_signed_by pk hash data : Verify pk hash data = Ok tt → signed_by hash [pk] [data] [0%nat].
Proof.
  unfold Verify. destruct (sig_Deserialize data) as [sig| |] eqn:Es; [|done..].
  destruct (key_Verify pk hash sig) eqn:Ev; [|done]. intros _. constructor; [by exists sig, pk|constructor].
Qed.

Lemma AddressFromMultiPubKeys_ok keys m :
  1 ≤ m → m ≤ blen keys → 1 < blen keys → blen keys ≤ MULTI_SIG_MAX_PUBKEY_SIZE →
  ∃ ops, EncodeMultiPubKeyProgramInto keys m = Ok ops ∧ AddressFromMultiPubKeys keys m = Ok (AddressFromVmCode (enc_ops ops)).
Proof.
  intros ? ? ? ?. unfold AddressFromMultiPubKeys, MULTI_SIG_MAX_PUBKEY_SIZE in *. rewrite uwrap_small by (split; lia).
  unfold EncodeMultiPubKeyProgramInto, MULTI_SIG_MAX_PUBKEY_SIZE. rewrite decide_True by lia. eauto.
Qed.

Lemma check_sig_sound hash sig a :
  check_sig hash sig = Ok a → sig_address sig = Ok a ∧ authorised hash sig.
Proof.
  unfold check_sig. case_decide as Hp; [done|]. unfold sig_address, authorised.
  destruct sig as [data keys m]; cbn [PubKeys SigData sig_M] in *. destruct keys as [|pk [|pk2 keys]].
  - cbn in Hp. lia.
  - destruct data as [|d data]; [done|]. destruct (Verify pk hash d) as [[]| |] eqn:Ev; [|done..]. intros [= <-]. split; [done|].
    assert (m = 1) as -> by (cbn in Hp; lia). exists [0%nat]. split_and!; [apply NoDup_singleton|done|]. by apply Verify_signed_by.
  - set (keys' := pk :: pk2 :: keys) in *.
    assert (1 < blen keys') as Hn by (unfold keys'; cbn; lia).
    destruct (AddressFromMultiPubKeys_ok keys' m) as (ops & Eo & Ea); [lia..|]. rewrite Ea, Eo.
    destruct (VerifyMultiSignature hash keys' m data) as [[]| |] eqn:Ev; [|done..]. intros [= <-]. split; [done|].
    unfold VerifyMultiSignature in Ev. case_decide; [done|].
    apply multi_loop_sound in Ev as (js & Hs & Hlen & Hnd & _); [|by rewrite length_replicate].
    exists js. split_and!; [done|lia|done].
Qed.

Lemma check_sigs_sound hash sigs acc address :
  check_sigs hash sigs acc = Ok address →
  ∃ l, signature_addresses sigs = Ok l ∧ address = list_to_set l ∪ acc ∧
    Forall2 (λ sig a, sig_address sig = Ok a ∧ authorised hash sig) sigs l.
Proof.
  revert acc. induction sigs as [|sig sigs IH]; intros acc E; cbn in E.
  { injection E as <-. exists []. split_and!; [done|set_solver|constructor]. }
  destruct (check_sig hash sig) as [a| |] eqn:Ec; [|done..]. apply check_sig_sound in Ec as [Ea Ha].
  apply IH in E as (l & El & -> & Hf). exists (a :: l). cbn. rewrite Ea, El. split_and!; [done|set_solver|by constructor].
Qed.

(** Checked transactions were signed by their addresses.  If the signature
    check passes, [SignedAddr] holds exactly the addresses that
    [GetSignatureAddresses] would compute from the signatures' keys, and each of
    them belongs to a group of keys of which the required number, pairwise
    different, signed the transaction's hash. *)
Theorem checkTransactionSignatures_sound tx tx' :
  checkTransactionSignatures tx = Ok tx' →
  ∃ l, signature_addresses (tx_Sigs tx) = Ok l ∧
    (∀ a, a ∈ SignedAddr tx' ↔ a ∈ l) ∧
    (∀ a, a ∈ SignedAddr tx' → ∃ sig, sig ∈ tx_Sigs tx ∧ sig_address sig = Ok a ∧ authorised (to_slice (tx_hash tx)) sig).
Proof.
  unfold checkTransactionSignatures. case_decide; [done|].
  destruct (check_sigs _ _ ∅) as [address| |] eqn:E; [|done..]. intros [= <-]. cbn [SignedAddr].
  apply check_sigs_sound in E as (l & El & -> & Hf). exists l. split; [done|].
  assert (∀ a, a ∈ elements (list_to_set l ∪ ∅ : gset Address) ↔ a ∈ l) as Hin by set_solver. split; [done|].
  intros a [i Hi]%Hin%list_elem_of_lookup. eapply Forall2_lookup_r in Hf as (sig & Hs & ? & ?); [|exact Hi].
  exists sig. split; [by eapply list_elem_of_lookup_2|done].
Qed.

End signature.

(** ** A scheme for the witnesses: a signature is the signer's key followed by the data *)

#[export] Instance ex_scheme : SigScheme := {|
  SigObj := bytes;
  sig_Deserialize b := if decide (b = []) then Err "empty" else Ok b;
  key_Verify pk data sig := bool_decide (sig = (pk : bytes) ++ data);
|}.

Definition ex_sign (i : Z) (data : bytes) : bytes := ex_pk i ++ data.

Lemma VerifyMultiSignature_quorum_witness :
  let keys : list PublicKey := [ex_pk 1; ex_pk 2; ex_pk 3] in
  let sigs := [ex_sign 3 (gs "data"); ex_sign 1 (gs "data")] in
  VerifyMultiSignature (gs "data") keys 2 sigs = Ok tt ∧
  is_ok (VerifyMultiSignature (gs "data") keys 2 [ex_sign 3 (gs "data"); ex_sign 3 (gs "data")]) = false ∧
  ∃ js, NoDup js ∧ blen js = 2 ∧ signed_by (gs "data") keys (take 2 sigs) js.
Proof.
  split; [by vm_compute|]. split; [by vm_compute|].
  refine (proj1 (VerifyMultiSignature_quorum _ _ 2 _ _) _); [done|by vm_compute].
Defined.

Definition ex_signed_tx : Transaction :=
  mkTransaction (byte_of_Z 0) Invoke_type 0 0 0 0 (Some []) [] ADDRESS_EMPTY (byte_of_Z 0)
    [mkSig [ex_sign 1 (to_slice EMPTY_HASH)] [ex_pk 1 : PublicKey] 1;
     mkSig [ex_sign 3 (to_slice EMPTY_HASH); ex_sign 2 (to_slice EMPTY_HASH)] [ex_pk 2 : PublicKey; ex_pk 3; ex_pk 4] 2] [] EMPTY_HASH [].

Lemma checkTransactionSignatures_sound_example :
  let tx' := ok_or ex_signed_tx (checkTransactionSignatures ex_signed_tx) in
  length (SignedAddr tx') = 2%nat ∧
  ∃ l, signature_addresses (tx_Sigs ex_signed_tx) = Ok l ∧ (∀ a, a ∈ SignedAddr tx' ↔ a ∈ l) ∧
    (∀ a, a ∈ SignedAddr tx' → ∃ sig, sig ∈ tx_Sigs ex_signed_tx ∧ sig_address sig = Ok a ∧ authorised (to_slice (tx_hash ex_signed_tx)) sig).
Proof.
  split; [by vm_compute|]. apply (checkTransactionSignatures_sound ex_signed_tx). apply ok_or_ok. by vm_compute.
Defined.
