(* ===== verification/NodeStates.v ===== *)
(** * Data of the node manager contract
    (governance/node_manager/states.go, param.go, VBFTConfig of common/config/config.go)

    Each type with its wire format.  A Go map is a [gmap]; the code collects its
    entries in an unspecified order and sorts them, which the [_from] functions
    take as an argument. *)

From S2P Require Import Prelude Sha256 Sink Source Serialization BytesOrder MemDB OverlayDB CacheDB Contract MerkleSpec MerkleHasher Native Codec.

(** ** Peers *)

Definition CandidateStatus : Z := 0.
Definition ConsensusStatus : Z := 1.
Definition QuitingStatus : Z := 2.
Definition BlackStatus : Z := 3.

Definition Status_Serialization (s : Z) : list sink_op := [OpUint8 s].
Definition Status_Deserialization : M ZeroCopySource Z :=
  must "serialization.ReadUint8, deserialize status error: unexpected EOF" NextUint8.

Record BlackListItem := mkBlackListItem { bl_PeerPubkey : bytes; bl_Address : Address }.

Definition BlackListItem_Serialization (i : BlackListItem) : list sink_op :=
  [OpString (bl_PeerPubkey i); OpVarAddress (bl_Address i)].
Definition BlackListItem_Deserialization : M ZeroCopySource BlackListItem :=
  peerPubkey ← must "source.NextString, deserialize peerPubkey error" NextString;
  addr ← read_address "source.NextVarBytes, deserialize address error"
                      "common.AddressParseFromBytes, deserialize address error: ";
  mret (mkBlackListItem peerPubkey addr).

Record PeerPoolItem := mkPeerPoolItem {
  Index : Z;
  PeerPubkey : bytes;
  pi_Address : Address;
  pi_Status : Z;
}.
#[export] Instance PeerPoolItem_eq_dec : EqDecision PeerPoolItem.
Proof. solve_decision. Defined.

Definition PeerPoolItem_Serialization (i : PeerPoolItem) : list sink_op :=
  [OpUint32 (Index i); OpString (PeerPubkey i); OpVarAddress (pi_Address i)] ++
  Status_Serialization (pi_Status i).
Definition PeerPoolItem_Deserialization : M ZeroCopySource PeerPoolItem :=
  index ← must "source.NextUint32, deserialize index error" NextUint32;
  peerPubkey ← must "source.NextString, deserialize peerPubkey error" NextString;
  address ← must "source.NextVarBytes, deserialize address error" NextVarBytes;
  status ← wrap_err "status.Deserialize. deserialize status error: " Status_Deserialization;
  addr ← wrap_err "common.AddressParseFromBytes, deserialize address error: "
           (of_res (AddressParseFromBytes address));
  mret (mkPeerPoolItem index peerPubkey addr status).

Abbreviation PeerPoolMap := (gmap bytes PeerPoolItem).

(** [l]: the items in the order of the range loop. *)
Definition PeerPoolMap_from (l : list PeerPoolItem) : list sink_op :=
  OpVarUint (blen l) :: enc_list PeerPoolItem_Serialization (sort_desc bytes_lt PeerPubkey l).
Definition PeerPoolMap_Serialization (m : PeerPoolMap) : list sink_op :=
  PeerPoolMap_from (map_to_list m).*2.
Definition PeerPoolMap_Deserialization : M ZeroCopySource PeerPoolMap :=
  n ← must "source.NextVarUint, deserialize PeerPoolMap length error" NextVarUint;
  items ← loopM n (wrap_err "deserialize peerPool error: " PeerPoolItem_Deserialization);
  mret (map_of_list ((λ i, (PeerPubkey i, i)) <$> items)).

(** ** Views, signatures and configuration *)

Record GovernanceView := mkGovernanceView { View : Z; gv_Height : Z; gv_TxHash : Uint256 }.

Definition GovernanceView_Serialization (g : GovernanceView) : list sink_op :=
  [OpUint32 (View g); OpUint32 (gv_Height g); OpHash (gv_TxHash g)].
Definition GovernanceView_Deserialization : M ZeroCopySource GovernanceView :=
  view ← must "source.NextUint32, deserialize view error" NextUint32;
  height ← must "source.NextUint32, deserialize height error" NextUint32;
  txHash ← must "source.NextHash, deserialize txHash error" NextHash;
  mret (mkGovernanceView view height txHash).

Abbreviation ConsensusSigns := (gmap Address bool).

Definition ConsensusSigns_from (l : list (Address * bool)) : list sink_op :=
  OpVarUint (blen l) ::
  enc_list (λ kv, [OpVarAddress kv.1; OpBool kv.2]) (sort_desc bytes_lt (ToHexString ∘ fst) l).
Definition ConsensusSigns_Serialization (m : ConsensusSigns) : list sink_op :=
  ConsensusSigns_from (map_to_list m).
Definition read_sign : M ZeroCopySource (Address * bool) :=
  address ← must "source.NextVarBytes, deserialize address error" NextVarBytes;
  v ← must "source.NextBool, deserialize v error" NextBool;
  addr ← wrap_err "common.AddressParseFromBytes, deserialize address error"
           (of_res (AddressParseFromBytes address));
  mret (addr, v).
Definition ConsensusSigns_Deserialization : M ZeroCopySource ConsensusSigns :=
  n ← must "source.NextVarUint, deserialize length of signsMap error" NextVarUint;
  signs ← loopM n read_sign;
  mret (map_of_list signs).

Record Configuration := mkConfiguration {
  BlockMsgDelay : Z;
  HashMsgDelay : Z;
  PeerHandshakeTimeout : Z;
  MaxBlockChangeView : Z;
}.

Definition Configuration_Serialization (c : Configuration) : list sink_op :=
  [OpUint32 (BlockMsgDelay c); OpUint32 (HashMsgDelay c); OpUint32 (PeerHandshakeTimeout c);
   OpUint32 (MaxBlockChangeView c)].
Definition Configuration_Deserialization : M ZeroCopySource Configuration :=
  blockMsgDelay ← must "source.NextUint32, deserialize blockMsgDelay error" NextUint32;
  hashMsgDelay ← must "source.NextUint32, deserialize hashMsgDelay error" NextUint32;
  peerHandshakeTimeout ← must "source.NextUint32, deserialize peerHandshakeTimeout error" NextUint32;
  maxBlockChangeView ← must "source.NextUint32, deserialize maxBlockChangeView error" NextUint32;
  mret (mkConfiguration blockMsgDelay hashMsgDelay peerHandshakeTimeout maxBlockChangeView).

(** ** Parameters of the methods *)

Record RegisterPeerParam := mkRegisterPeerParam { rp_PeerPubkey : bytes; rp_Address : Address }.

Definition RegisterPeerParam_Serialization (p : RegisterPeerParam) : list sink_op :=
  [OpString (rp_PeerPubkey p); OpVarAddress (rp_Address p)].
Definition RegisterPeerParam_Deserialization : M ZeroCopySource RegisterPeerParam :=
  peerPubkey ← must "source.NextString, deserialize peerPubkey error" NextString;
  addr ← read_address "source.NextVarBytes, deserialize address error"
                      "common.AddressParseFromBytes, deserialize address error: ";
  mret (mkRegisterPeerParam peerPubkey addr).

Record PeerParam := mkPeerParam { pp_PeerPubkey : bytes; pp_Address : Address }.

Definition PeerParam_Serialization (p : PeerParam) : list sink_op :=
  [OpString (pp_PeerPubkey p); OpVarAddress (pp_Address p)].
Definition PeerParam_Deserialization : M ZeroCopySource PeerParam :=
  peerPubkey ← must "source.NextString, deserialize peerPubkey error" NextString;
  addr ← read_address "source.NextVarBytes, deserialize address error"
                      "common.AddressParseFromBytes, deserialize address error: ";
  mret (mkPeerParam peerPubkey addr).

Record PeerListParam := mkPeerListParam { PeerPubkeyList : list bytes; pl_Address : Address }.

Definition PeerListParam_Serialization (p : PeerListParam) : list sink_op :=
  OpVarUint (blen (PeerPubkeyList p)) :: enc_list (λ v, [OpString v]) (PeerPubkeyList p) ++
  [OpVarAddress (pl_Address p)].
Definition PeerListParam_Deserialization : M ZeroCopySource PeerListParam :=
  n ← must "source.NextVarUint, deserialize PeerPubkeyList length error" NextVarUint;
  l ← loopM n (must "source.NextString, deserialize peerPubkey error" NextString);
  addr ← read_address "source.NextVarBytes, deserialize address error"
                      "common.AddressParseFromBytes, deserialize address error: ";
  mret (mkPeerListParam l addr).

Abbreviation UpdateConfigParam := Configuration.
Definition UpdateConfigParam_Deserialization : M ZeroCopySource UpdateConfigParam :=
  wrap_err "configuration.Deserialization, deserialize configuration error: " Configuration_Deserialization.

(** ** The genesis configuration *)

Section vbft_config.
Context `{Hasher} `{Crypto}.

Record VBFTPeerInfo := mkVBFTPeerInfo { vp_Index : Z; vp_PeerPubkey : bytes; vp_Address : bytes }.

Definition VBFTPeerInfo_Serialization (p : VBFTPeerInfo) : res (list sink_op) :=
  match AddressFromBase58 (vp_Address p) with
  | Ok address => Ok [OpUint32 (vp_Index p); OpString (vp_PeerPubkey p); OpAddress address]
  | Err e => Err ("serialize VBFTPeerStackInfo error: " +:+ e)
  | Panic => Panic
  end.
Definition VBFTPeerInfo_Deserialization : M ZeroCopySource VBFTPeerInfo :=
  index ← must "serialization.ReadUint32, deserialize index error!" NextUint32;
  peerPubkey ← must "serialization.ReadUint32, deserialize peerPubkey error!" NextString;
  address ← must "address.Deserialize, deserialize address error!" NextAddress;
  mret (mkVBFTPeerInfo index peerPubkey (ToBase58 address)).

Record VBFTConfig := mkVBFTConfig {
  vc_BlockMsgDelay : Z;
  vc_HashMsgDelay : Z;
  vc_PeerHandshakeTimeout : Z;
  vc_MaxBlockChangeView : Z;
  VrfValue : bytes;
  VrfProof : bytes;
  Peers : list VBFTPeerInfo;
}.

Fixpoint peers_Serialization (l : list VBFTPeerInfo) : res (list sink_op) :=
  match l with
  | [] => Ok []
  | p :: l' =>
      match VBFTPeerInfo_Serialization p, peers_Serialization l' with
      | Ok a, Ok b => Ok (a ++ b)
      | Ok _, e => e
      | e, _ => e
      end
  end.
Definition VBFTConfig_Serialization (c : VBFTConfig) : res (list sink_op) :=
  match peers_Serialization (Peers c) with
  | Ok peers =>
      Ok ([OpUint32 (vc_BlockMsgDelay c); OpUint32 (vc_HashMsgDelay c);
           OpUint32 (vc_PeerHandshakeTimeout c); OpUint32 (vc_MaxBlockChangeView c);
           OpString (VrfValue c); OpString (VrfProof c); OpVarUint (blen (Peers c))] ++ peers)
  | e => e
  end.
Definition VBFTConfig_Deserialization : M ZeroCopySource VBFTConfig :=
  blockMsgDelay ← must "serialization.ReadUint32, deserialize blockMsgDelay error!" NextUint32;
  hashMsgDelay ← must "serialization.ReadUint32, deserialize hashMsgDelay error!" NextUint32;
  peerHandshakeTimeout ← must "serialization.ReadUint32, deserialize peerHandshakeTimeout error!" NextUint32;
  maxBlockChangeView ← must "serialization.ReadUint32, deserialize maxBlockChangeView error!" NextUint32;
  vrfValue ← must "serialization.ReadString, deserialize vrfValue error!" NextString;
  vrfProof ← must "serialization.ReadString, deserialize vrfProof error!" NextString;
  length ← must "serialization.ReadVarUint, deserialize peer length error!" NextVarUint;
  peers ← loopM length (wrap_err "deserialize peer error, error:" VBFTPeerInfo_Deserialization);
  mret (mkVBFTConfig blockMsgDelay hashMsgDelay peerHandshakeTimeout maxBlockChangeView vrfValue vrfProof peers).

End vbft_config.

(** ** Round trips *)

Lemma AddressParse_slice_decodes p a : decodes (wrap_err p (of_res (AddressParseFromBytes (to_slice a)))) [] a.
Proof. apply decodes_wrap, decodes_of_res, AddressParse_to_slice. Qed.
#[export] Hint Resolve AddressParse_slice_decodes : codec.
Lemma safe_AddressParse p b : safe (wrap_err p (of_res (AddressParseFromBytes b))).
Proof. apply safe_wrap, safe_of_res, AddressParse_no_panic. Qed.
#[export] Hint Resolve safe_AddressParse : safe.

#[export] Program Instance BlackListItem_ser : Serializable BlackListItem := {|
  Serialization := BlackListItem_Serialization;
  Deserialization := BlackListItem_Deserialization;
  ser_wf _ := True;
|}.
Next Obligation. intros [] _. unfold BlackListItem_Deserialization, BlackListItem_Serialization. solve_roundtrip. Qed.
Next Obligation. unfold BlackListItem_Deserialization. solve_total. Qed.

Definition item_wf (i : PeerPoolItem) : Prop := is_u32 (Index i) ∧ is_u8 (pi_Status i).

#[export] Program Instance PeerPoolItem_ser : Serializable PeerPoolItem := {|
  Serialization := PeerPoolItem_Serialization;
  Deserialization := PeerPoolItem_Deserialization;
  ser_wf := item_wf;
|}.
Next Obligation.
  intros [] [??]. unfold PeerPoolItem_Deserialization, PeerPoolItem_Serialization, Status_Deserialization,
    Status_Serialization. solve_roundtrip.
Qed.
Next Obligation. unfold PeerPoolItem_Deserialization, Status_Deserialization. solve_total. Qed.

(** Every item is stored under its own key, and the fields fit their widths. *)
Definition pool_wf (m : PeerPoolMap) : Prop :=
  map_Forall (λ k i, PeerPubkey i = k) m ∧ map_Forall (λ _ i, item_wf i) m ∧ is_u64 (Z.of_nat (size m)).

Lemma PeerPoolItem_progress : progress PeerPoolItem_Deserialization.
Proof.
  unfold PeerPoolItem_Deserialization, Status_Deserialization.
  apply progress_bind; [solve_total|auto with safe|intros]. solve_total.
Qed.

Lemma blen_map_values {K V} `{Countable K} (m : gmap K V) : blen (map_to_list m).*2 = Z.of_nat (size m).
Proof. by rewrite length_fmap, length_map_to_list. Qed.

#[export] Program Instance PeerPoolMap_ser : Serializable PeerPoolMap := {|
  Serialization := PeerPoolMap_Serialization;
  Deserialization := PeerPoolMap_Deserialization;
  ser_wf := pool_wf;
|}.
Next Obligation.
  intros m (Hk & Hi & Hs). unfold PeerPoolMap_Serialization, PeerPoolMap_from, PeerPoolMap_Deserialization.
  rewrite enc_ops_cons. cbn [enc_op]. rewrite length_fmap, length_map_to_list.
  eapply decodes_must_bind; [by auto with codec|]. eapply decodes_map.
  - apply decodes_list; [by rewrite sort_desc_perm, length_fmap, length_map_to_list| |].
    + intros i. rewrite sort_desc_perm. intros Hin. apply list_elem_of_fmap in Hin as ([k i'] & -> & Hin).
      apply elem_of_map_to_list in Hin. apply decodes_wrap. exact (ser_roundtrip i' (Hi _ _ Hin)).
    + intros i _. unfold PeerPoolItem_Serialization. rewrite enc_ops_app, enc_ops_cons, !length_app.
      cbn [enc_op]. rewrite length_le_put. lia.
  - f_equal. apply (keyed_map_of_list PeerPubkey); [done|]. by rewrite sort_desc_perm.
Qed.
Next Obligation.
  unfold PeerPoolMap_Deserialization. apply safe_bind; [solve_total|intros n].
  apply safe_bind; [|intros; apply safe_ret]. apply safe_loopM; [|apply progress_wrap, PeerPoolItem_progress].
  apply safe_wrap. exact (ser_safe (A := PeerPoolItem)).
Qed.

#[export] Program Instance GovernanceView_ser : Serializable GovernanceView := {|
  Serialization := GovernanceView_Serialization;
  Deserialization := GovernanceView_Deserialization;
  ser_wf g := is_u32 (View g) ∧ is_u32 (gv_Height g);
|}.
Next Obligation. intros [] [??]. unfold GovernanceView_Deserialization, GovernanceView_Serialization. solve_roundtrip. Qed.
Next Obligation. unfold GovernanceView_Deserialization. solve_total. Qed.

#[export] Program Instance ConsensusSigns_ser : Serializable ConsensusSigns := {|
  Serialization := ConsensusSigns_Serialization;
  Deserialization := ConsensusSigns_Deserialization;
  ser_wf m := is_u64 (Z.of_nat (size m));
|}.
Next Obligation.
  intros m Hs. unfold ConsensusSigns_Serialization, ConsensusSigns_from, ConsensusSigns_Deserialization.
  rewrite enc_ops_cons. cbn [enc_op]. rewrite length_map_to_list.
  eapply decodes_must_bind; [by auto with codec|]. eapply decodes_map.
  - apply decodes_list; [by rewrite sort_desc_perm, length_map_to_list| |].
    + intros [a b] _. unfold read_sign. solve_roundtrip.
    + intros i _. apply enc_varbytes_pos.
  - f_equal. apply map_of_list_perm. by rewrite sort_desc_perm.
Qed.
Next Obligation.
  unfold ConsensusSigns_Deserialization. apply safe_bind; [solve_total|intros n].
  apply safe_bind; [|intros; apply safe_ret]. unfold read_sign. apply safe_loopM; [solve_total|].
  apply progress_bind; [solve_total|auto with safe|intros]. solve_total.
Qed.

#[export] Program Instance Configuration_ser : Serializable Configuration := {|
  Serialization := Configuration_Serialization;
  Deserialization := Configuration_Deserialization;
  ser_wf c := is_u32 (BlockMsgDelay c) ∧ is_u32 (HashMsgDelay c) ∧ is_u32 (PeerHandshakeTimeout c) ∧
              is_u32 (MaxBlockChangeView c);
|}.
Next Obligation.
  intros [] (?&?&?&?). unfold Configuration_Deserialization, Configuration_Serialization. solve_roundtrip.
Qed.
Next Obligation. unfold Configuration_Deserialization. solve_total. Qed.

#[export] Program Instance RegisterPeerParam_ser : Serializable RegisterPeerParam := {|
  Serialization := RegisterPeerParam_Serialization;
  Deserialization := RegisterPeerParam_Deserialization;
  ser_wf _ := True;
|}.
Next Obligation.
  intros [] _. unfold RegisterPeerParam_Deserialization, RegisterPeerParam_Serialization. solve_roundtrip.
Qed.
Next Obligation. unfold RegisterPeerParam_Deserialization. solve_total. Qed.

#[export] Program Instance PeerParam_ser : Serializable PeerParam := {|
  Serialization := PeerParam_Serialization;
  Deserialization := PeerParam_Deserialization;
  ser_wf _ := True;
|}.
Next Obligation. intros [] _. unfold PeerParam_Deserialization, PeerParam_Serialization. solve_roundtrip. Qed.
Next Obligation. unfold PeerParam_Deserialization. solve_total. Qed.

#[export] Program Instance PeerListParam_ser : Serializable PeerListParam := {|
  Serialization := PeerListParam_Serialization;
  Deserialization := PeerListParam_Deserialization;
  ser_wf p := is_u64 (blen (PeerPubkeyList p));
|}.
Next Obligation.
  intros [] Hl. unfold PeerListParam_Deserialization, PeerListParam_Serialization.
  rewrite enc_ops_cons, enc_ops_app. cbn [enc_op PeerPubkeyList] in *. eapply decodes_must_bind; [by auto with codec|].
  eapply decodes_bind.
  - apply decodes_list; [done| |].
    + intros a _. rewrite enc_ops_cons, enc_ops_nil, app_nil_r. apply decodes_must, decodes_NextString.
    + intros a _. apply enc_varbytes_pos.
  - solve_roundtrip.
Qed.
Next Obligation.
  unfold PeerListParam_Deserialization. apply safe_bind; [solve_total|intros n].
  apply safe_bind; [apply safe_loopM; auto with safe|intros]. solve_total.
Qed.

(** ** Determinism *)

Lemma PeerPoolMap_from_perm (m : PeerPoolMap) l :
  map_Forall (λ k i, PeerPubkey i = k) m → l ≡ₚ (map_to_list m).*2 → PeerPoolMap_from l = PeerPoolMap_Serialization m.
Proof.
  intros Hk Hl. unfold PeerPoolMap_Serialization, PeerPoolMap_from.
  rewrite (sort_desc_unique bytes_lt PeerPubkey bytes_trichotomy l (map_to_list m).*2); [by rewrite Hl| |done].
  rewrite Hl. by apply keyed_nodup.
Qed.

Lemma ConsensusSigns_from_perm (s : ConsensusSigns) l :
  l ≡ₚ map_to_list s → ConsensusSigns_from l = ConsensusSigns_Serialization s.
Proof.
  intros Hl. unfold ConsensusSigns_Serialization, ConsensusSigns_from.
  rewrite (sort_desc_unique bytes_lt (ToHexString ∘ fst) bytes_trichotomy l (map_to_list s)); [by rewrite Hl| |done].
  rewrite Hl, list_fmap_compose. apply NoDup_fmap_2; [apply _|apply NoDup_fst_map_to_list].
Qed.

(** Deterministic state.  Whatever order Go ranges over the maps in, the peer
    pool and the collected signatures are written as the same bytes, so nodes that
    agree on the state agree on its hash. *)
Theorem governance_serialization_deterministic (m : PeerPoolMap) (s : ConsensusSigns)
    (l : list PeerPoolItem) (ls : list (Address * bool)) :
  map_Forall (λ k i, PeerPubkey i = k) m → l ≡ₚ (map_to_list m).*2 → ls ≡ₚ map_to_list s →
  PeerPoolMap_from l = PeerPoolMap_Serialization m ∧ ConsensusSigns_from ls = ConsensusSigns_Serialization s.
Proof. intros. split; [by apply PeerPoolMap_from_perm|by apply ConsensusSigns_from_perm]. Qed.

Definition ex_item (i : Z) (k : string) : PeerPoolItem := mkPeerPoolItem i (gs k) (contract_address i) ConsensusStatus.

Lemma governance_serialization_deterministic_example :
  PeerPoolMap_from [ex_item 1 "02a"; ex_item 2 "03b"] =
    PeerPoolMap_Serialization {[gs "03b" := ex_item 2 "03b"; gs "02a" := ex_item 1 "02a"]} ∧
  ConsensusSigns_from [(contract_address 1, true); (contract_address 2, true)] =
    ConsensusSigns_Serialization {[contract_address 2 := true; contract_address 1 := true]}.
Proof.
  apply (governance_serialization_deterministic {[gs "03b" := ex_item 2 "03b"; gs "02a" := ex_item 1 "02a"]}
    {[contract_address 2 := true; contract_address 1 := true]}).
  - refine (bool_decide_unpack _ _). by vm_compute.
  - refine (bool_decide_unpack _ _). by vm_compute.
  - refine (bool_decide_unpack _ _). by vm_compute.
Defined.
