(* ===== verification/NodeManager.v ===== *)
(** * The node manager contract
    (governance/node_manager/utils.go, method.go, node_manager.go)

    The consensus peers of the current view, candidates and their approval by a
    quorum of the peers, the black list, and the change of views. *)

From S2P Require Import Prelude Sha256 Sink Source Serialization BytesOrder MemDB OverlayDB CacheDB Contract MerkleSpec MerkleHasher Native Codec NodeStates.

Definition GOVERNANCE_VIEW : bytes := gs "governanceView".
Definition VBFT_CONFIG : bytes := gs "vbftConfig".
Definition CANDIDITE_INDEX : bytes := gs "candidateIndex".
Definition PEER_APPLY : bytes := gs "peerApply".
Definition PEER_POOL : bytes := gs "peerPool".
Definition PEER_INDEX : bytes := gs "peerIndex".
Definition BLACK_LIST : bytes := gs "blackList".
Definition CONSENSUS_SIGNS : bytes := gs "consensusSigns".
Definition MIN_PEER_NUM : Z := 4.

(** The keys of the contract's storage. *)
Definition nm_key (args : list bytes) : bytes := ConcatKey NodeManagerContractAddress args.
Definition peerApply_key (k : bytes) : bytes := nm_key [PEER_APPLY; k].
Definition peerPool_key (view : Z) : bytes := nm_key [PEER_POOL; GetUint32Bytes view].
Definition peerIndex_key (k : bytes) : bytes := nm_key [PEER_INDEX; k].
Definition blackList_key (k : bytes) : bytes := nm_key [BLACK_LIST; k].
Definition signs_key (h : Uint256) : bytes := nm_key [CONSENSUS_SIGNS; to_slice h].

Section node_manager.
Context `{Hasher} `{Crypto}.

(** [params.Deserialization(common.NewZeroCopySource(native.GetInput()))]. *)
Definition input_as {A} `{Serializable A} (err : string) : contract NativeService A :=
  input ← cask ns_input; cwrap err (cdeserialize input).

(** A stored value that was found: [GetValueFromRawStorageItem], then
    [Deserialization]. *)
Definition load_with {A} `{Serializable A} (raw_err de_err : string) (raw : bytes) : contract NativeService A :=
  v ← cwrap raw_err (lift_res (GetValueFromRawStorageItem raw));
  cwrap de_err (cdeserialize v).

Definition notify_nm (states : list nval) : contract NativeService unit :=
  AddNotify (mkNotify NodeManagerContractAddress states).

(** ** utils.go *)

Definition GetPeerApply (peerPubkey : bytes) : contract NativeService (option RegisterPeerParam) :=
  peerPubkeyPrefix ← cwrap "GetPeerApply, peerPubkey format error: " (lift_res (hex_decode peerPubkey));
  peerBytes ← cwrap "GetPeerApply, get peer error: " (cget (peerApply_key peerPubkeyPrefix));
  if decide (peerBytes = []) then mret None else
  peer ← load_with "GetPeerApply, deserialize from raw storage item err:"
                   "GetPeerApply, deserialize peer error: " peerBytes;
  mret (Some peer).

Definition putPeerApply (peer : RegisterPeerParam) : contract NativeService unit :=
  peerPubkeyPrefix ← cwrap "putPeerApply, peerPubkey format error: " (lift_res (hex_decode (rp_PeerPubkey peer)));
  store_item (peerApply_key peerPubkeyPrefix) peer.

Definition GetPeerPoolMap (view : Z) : contract NativeService PeerPoolMap :=
  peerPoolMapBytes ← cwrap "getPeerPoolMap, get all peerPoolMap error: " (cget (peerPool_key view));
  if decide (peerPoolMapBytes = []) then CFail "getPeerPoolMap, peerPoolMap is nil" else
  item ← cwrap "deserialize PeerPoolMap error:" (lift_res (StorageItem_Deserialize peerPoolMapBytes).1);
  cwrap "deserialize, deserialize peerPoolMap error: " (cdeserialize (Value item)).

Definition putPeerPoolMap (peerPoolMap : PeerPoolMap) (view : Z) : contract NativeService unit :=
  store_item (peerPool_key view) peerPoolMap.

Fixpoint check_peers (indexMap : gset Z) (peerPubkeyMap : gset bytes) (peers : list VBFTPeerInfo) : res unit :=
  match peers with
  | [] => Ok tt
  | peer :: peers' =>
      if decide (vp_Index peer ∈ indexMap) then Err "initConfig, peer index is duplicated"
      else if decide (vp_PeerPubkey peer ∈ peerPubkeyMap) then Err "initConfig, peerPubkey is duplicated"
      else if decide (vp_Index peer ≤ 0) then Err "initConfig, peer index in config must > 0"
      else match ValidatePeerPubKeyFormat (vp_PeerPubkey peer), AddressFromBase58 (vp_Address peer) with
      | Ok _, Ok _ => check_peers ({[vp_Index peer]} ∪ indexMap) ({[vp_PeerPubkey peer]} ∪ peerPubkeyMap) peers'
      | Err _, _ => Err "invalid peer pubkey"
      | Panic, _ => Panic
      | _, Err e => Err ("common.AddressFromBase58, address format error: " +:+ e)
      | _, Panic => Panic
      end
  end.

Definition CheckVBFTConfig (configuration : VBFTConfig) : res unit :=
  if decide (vc_BlockMsgDelay configuration < 5000) then Err "initConfig. BlockMsgDelay must >= 5000"
  else if decide (vc_HashMsgDelay configuration < 5000) then Err "initConfig. HashMsgDelay must >= 5000"
  else if decide (vc_PeerHandshakeTimeout configuration < 10) then Err "initConfig. PeerHandshakeTimeout must >= 10"
  else if decide (blen (VrfProof configuration) < 128) then Err "initConfig. VrfProof must >= 128"
  else if decide (blen (VrfValue configuration) < 128) then Err "initConfig. VrfValue must >= 128"
  else check_peers ∅ ∅ (Peers configuration).

Definition GetConfig : contract NativeService Configuration :=
  configBytes ← cwrap "native.CacheDB.Get, get configBytes error: " (cget (nm_key [VBFT_CONFIG]));
  if decide (configBytes = []) then CFail "getConfig, configBytes is nil" else
  load_with "getConfig, deserialize from raw storage item err:" "deserialize, deserialize config error: " configBytes.

Definition putConfig (config : Configuration) : contract NativeService unit :=
  store_item (nm_key [VBFT_CONFIG]) config.

Definition getCandidateIndex : contract NativeService Z :=
  candidateIndexBytes ← cwrap "native.CacheDB.Get, get candidateIndex error: " (cget (nm_key [CANDIDITE_INDEX]));
  if decide (candidateIndexBytes = []) then CFail "getCandidateIndex, candidateIndex is not init" else
  store ← cwrap "getCandidateIndex, deserialize from raw storage item err:"
            (lift_res (GetValueFromRawStorageItem candidateIndexBytes));
  mret (GetBytesUint32 store).

Definition putCandidateIndex (candidateIndex : Z) : contract NativeService unit :=
  cput (nm_key [CANDIDITE_INDEX]) (GenRawStorageItem (GetUint32Bytes candidateIndex)).

Definition GetGovernanceView : contract NativeService GovernanceView :=
  governanceViewBytes ← cwrap "getGovernanceView, get governanceViewBytes error: " (cget (nm_key [GOVERNANCE_VIEW]));
  if decide (governanceViewBytes ≠ []) then
    load_with "getGovernanceView, deserialize from raw storage item err:"
              "getGovernanceView, deserialize governanceView error: " governanceViewBytes
  else CFail "getGovernanceView, get nil governanceViewBytes".

Definition putGovernanceView (governanceView : GovernanceView) : contract NativeService unit :=
  store_item (nm_key [GOVERNANCE_VIEW]) governanceView.

Definition GetView : contract NativeService Z :=
  governanceView ← cwrap "getView, getGovernanceView error: " GetGovernanceView;
  mret (View governanceView).

Definition getConsensusSigns (key : Uint256) : contract NativeService ConsensusSigns :=
  consensusSignsStore ← cwrap "GetConsensusSigns, get consensusSignsStore error: " (cget (signs_key key));
  if decide (consensusSignsStore = []) then mret ∅ else
  load_with "getGovernanceView, deserialize from raw storage item err:"
            "getGovernanceView, deserialize governanceView error: " consensusSignsStore.

Definition putConsensusSigns (key : Uint256) (consensusSigns : ConsensusSigns) : contract NativeService unit :=
  store_item (signs_key key) consensusSigns.

Definition deleteConsensusSigns (key : Uint256) : contract NativeService unit := cdel (signs_key key).

(** The public key of a consensus peer, from its key in the pool. *)
Definition peer_key (who : string) (key : bytes) : contract NativeService PublicKey :=
  k ← cwrap (who +:+ ", hex.DecodeString public key error: ") (lift_res (hex_decode key));
  cwrap (who +:+ ", keypair.DeserializePublicKey error: ") (lift_res (DeserializePublicKey k)).

(** One round of the loop that counts the signatures: [(num, sum)]. *)
Definition count_sign (signs : ConsensusSigns) (acc : Z * Z) (kv : bytes * PeerPoolItem)
    : contract NativeService (Z * Z) :=
  if decide (pi_Status kv.2 = ConsensusStatus) then
    publicKey ← peer_key "CheckConsensusSigns" kv.1;
    let num := if decide (is_Some (signs !! AddressFromPubKey publicKey)) then acc.1 + 1 else acc.1 in
    mret (num, acc.2 + 1)
  else mret acc.

Definition CheckConsensusSigns (method input : bytes) (address : Address) : contract NativeService bool :=
  let key := Sum256 (method ++ input) in
  consensusSigns ← cwrap "CheckConsensusSigns, GetConsensusSigns error: " (getConsensusSigns key);
  let consensusSigns := <[address := true]> consensusSigns in
  notify_nm [NStr (gs "CheckConsensusSigns"); NInt (Z.of_nat (size consensusSigns))] ;;
  view ← cwrap "CheckConsensusSigns, GetView error: " GetView;
  peerPoolMap ← cwrap "CheckConsensusSigns, GetPeerPoolMap error: " (GetPeerPoolMap view);
  '(num, sum) ← cforeach (map_to_list peerPoolMap) (0, 0) (count_sign consensusSigns);
  if decide ((2 * sum + 2) ÷ 3 ≤ num) then
    deleteConsensusSigns key ;; mret true
  else
    putConsensusSigns key consensusSigns ;; mret false.

Definition GetCurConOperator : contract NativeService Address :=
  view ← cwrap "GetCurConOperator, GetView error: " GetView;
  peerPoolMap ← cwrap "GetCurConOperator, GetPeerPoolMap error: " (GetPeerPoolMap view);
  publicKeys ← cforeach (map_to_list peerPoolMap) [] (λ publicKeys kv,
    if decide (pi_Status kv.2 = ConsensusStatus)
    then publicKey ← peer_key "GetCurConOperator" kv.1; mret (publicKeys ++ [publicKey])
    else mret publicKeys);
  cwrap "GetCurConOperator, AddressFromBookkeepers error: " (lift_res (AddressFromBookkeepers publicKeys)).

(** ** method.go *)

Definition set_status (s : Z) (i : PeerPoolItem) : PeerPoolItem := mkPeerPoolItem (Index i) (PeerPubkey i) (pi_Address i) s.

(** The body of the range loop over the pool, which it changes.  An assignment to
    a field of a missing entry dereferences nil. *)
Definition commit_step (m : PeerPoolMap) (kv : bytes * PeerPoolItem) : contract NativeService PeerPoolMap :=
  let '(k, item) := kv in
  let m := if decide (pi_Status item = QuitingStatus) then delete (PeerPubkey item) m else m in
  let m := if decide (pi_Status item = BlackStatus) then delete (PeerPubkey item) m else m in
  if decide (pi_Status item = CandidateStatus ∨ pi_Status item = ConsensusStatus) then
    match m !! k with
    | None => CPanic
    | Some i => mret (<[k := set_status ConsensusStatus i]> m)
    end
  else mret m.

Definition executeCommitDpos : contract NativeService unit :=
  governanceView ← cwrap "executeCommitDpos, get GovernanceView error: " GetGovernanceView;
  height ← cask ns_height;
  if decide (height = gv_Height governanceView)
  then CFail "executeCommitDpos, can not do commitDpos twice in one block" else
  let view := View governanceView in
  let newView := u32 (view + 1) in
  peerPoolMap ← cwrap "executeCommitDpos, get peerPoolMap error: " (GetPeerPoolMap view);
  peerPoolMap ← cforeach (map_to_list peerPoolMap) peerPoolMap commit_step;
  putPeerPoolMap peerPoolMap newView ;;
  let oldView := u32 (view - 1) in
  cdel (peerPool_key oldView) ;;
  tx ← cask ns_tx;
  putGovernanceView (mkGovernanceView (u32 (view + 1)) height (tx_hash tx)).

(** ** node_manager.go *)

(** Peers that take part, or will from the next view on. *)
Definition active (i : PeerPoolItem) : Prop := pi_Status i = CandidateStatus ∨ pi_Status i = ConsensusStatus.
#[export] Instance active_dec i : Decision (active i).
Proof. unfold active. apply _. Defined.

(** [num] after [for ... range peerPoolMap { if active { num = num + 1 } }]. *)
Definition count_active (m : PeerPoolMap) : Z :=
  foldl (λ num kv, if decide (active kv.2) then num + 1 else num) 0 (map_to_list m).

Definition init_peer (acc : Z * PeerPoolMap) (peer : VBFTPeerInfo) : contract NativeService (Z * PeerPoolMap) :=
  let '(maxId, peerPoolMap) := acc in
  let maxId := if decide (maxId < vp_Index peer) then vp_Index peer else maxId in
  address ← cwrap "initConfig, address format error: " (lift_res (AddressFromBase58 (vp_Address peer)));
  let peerPoolItem := mkPeerPoolItem (vp_Index peer) (vp_PeerPubkey peer) address ConsensusStatus in
  let peerPoolMap := <[PeerPubkey peerPoolItem := peerPoolItem]> peerPoolMap in
  peerPubkeyPrefix ← cwrap "initConfig, peerPubkey format error: " (lift_res (hex_decode (PeerPubkey peerPoolItem)));
  cput (peerIndex_key peerPubkeyPrefix) (GenRawStorageItem (GetUint32Bytes (Index peerPoolItem))) ;;
  mret (maxId, peerPoolMap).

Definition InitConfig : Handler :=
  input ← cask ns_input;
  configuration ← cwrap "initConfig, contract params deserialize error: "
    (lift_res (VBFTConfig_Deserialization (NewZeroCopySource input)).1);
  peerPoolMapBytes ← cwrap "initConfig, get peerPoolMap error: " (cget (nm_key [PEER_POOL]));
  cguard (bool_decide (peerPoolMapBytes = [])) "initConfig. initConfig is already executed" ;;
  cwrap "initConfig, checkVBFTConfig failed: " (lift_res (CheckVBFTConfig configuration)) ;;
  let view := 1 in
  '(maxId, peerPoolMap) ← cforeach (Peers configuration) (0, ∅) init_peer;
  putPeerPoolMap peerPoolMap 0 ;;
  putPeerPoolMap peerPoolMap view ;;
  cput (nm_key [CANDIDITE_INDEX]) (GenRawStorageItem (GetUint32Bytes (u32 (maxId + 1)))) ;;
  height ← cask ns_height;
  tx ← cask ns_tx;
  putGovernanceView (mkGovernanceView view height (tx_hash tx)) ;;
  putConfig (mkConfiguration (vc_BlockMsgDelay configuration) (vc_HashMsgDelay configuration)
    (vc_PeerHandshakeTimeout configuration) (vc_MaxBlockChangeView configuration)) ;;
  mret BYTE_TRUE.

Definition RegisterCandidate : Handler :=
  params ← input_as (A := RegisterPeerParam) "registerCandidate, contract params deserialize error: ";
  cwrap "registerCandidate, checkWitness error: " (ValidateOwner (rp_Address params)) ;;
  match ValidatePeerPubKeyFormat (rp_PeerPubkey params) with
  | Panic => CPanic
  | Err _ => CFail "registerCandidate, invalid peer pubkey"
  | Ok _ =>
      peerPubkeyPrefix ← cwrap "registerCandidate, peerPubkey format error: "
        (lift_res (hex_decode (rp_PeerPubkey params)));
      blackList ← cwrap "registerCandidate, get BlackList error: " (cget (blackList_key peerPubkeyPrefix));
      cguard (bool_decide (blackList = [])) "registerCandidate, this Peer is in BlackList" ;;
      peer ← cwrap "registerCandidate, GetPeerApply error: " (GetPeerApply (rp_PeerPubkey params));
      match peer with
      | Some _ => CFail "registerCandidate, peer already applied"
      | None =>
          view ← cwrap "registerCandidate, get view error: " GetView;
          peerPoolMap ← cwrap "registerCandidate, get peerPoolMap error: " (GetPeerPoolMap view);
          match peerPoolMap !! rp_PeerPubkey params with
          | Some _ => CFail "registerCandidate, peerPubkey is already in peerPoolMap"
          | None =>
              cwrap "registerCandidate, put putPeerApply error: " (putPeerApply params) ;;
              notify_nm [NStr (gs "registerCandidate"); NStr (rp_PeerPubkey params)] ;;
              mret BYTE_TRUE
          end
      end
  end.

Definition UnRegisterCandidate : Handler :=
  params ← input_as (A := PeerParam) "unRegisterCandidate, contract params deserialize error: ";
  cwrap "unRegisterCandidate, checkWitness error: " (ValidateOwner (pp_Address params)) ;;
  peer ← cwrap "unRegisterCandidate, GetPeerApply error: " (GetPeerApply (pp_PeerPubkey params));
  match peer with
  | None => CFail "unRegisterCandidate, peer is not applied"
  | Some peer =>
      cguard (bool_decide (rp_Address peer = pp_Address params)) "unRegisterCandidate, address is not peer owner" ;;
      peerPubkeyPrefix ← cwrap "unRegisterCandidate, peerPubkey format error: "
        (lift_res (hex_decode (pp_PeerPubkey params)));
      cdel (peerApply_key peerPubkeyPrefix) ;;
      notify_nm [NStr (gs "unRegisterCandidate"); NStr (pp_PeerPubkey params)] ;;
      mret BYTE_TRUE
  end.

(** The index of a peer: the recorded one, or a fresh one. *)
Definition peer_index (peerPubkeyPrefix : bytes) : contract NativeService Z :=
  indexBytes ← cwrap "approveCandidate, get indexBytes error: " (cget (peerIndex_key peerPubkeyPrefix));
  if decide (indexBytes ≠ []) then
    value ← cwrap "approveCandidate, get value from raw storage item error:"
              (lift_res (GetValueFromRawStorageItem indexBytes));
    mret (GetBytesUint32 value)
  else
    candidateIndex ← cwrap "approveCandidate, get candidateIndex error: " getCandidateIndex;
    putCandidateIndex (u32 (candidateIndex + 1)) ;;
    cput (peerIndex_key peerPubkeyPrefix) (GenRawStorageItem (GetUint32Bytes candidateIndex)) ;;
    mret candidateIndex.

Definition ApproveCandidate : Handler :=
  params ← input_as (A := PeerParam) "approveCandidate, contract params deserialize error: ";
  cwrap "approveCandidate, checkWitness error: " (ValidateOwner (pp_Address params)) ;;
  peer ← cwrap "approveCandidate, GetPeerApply error: " (GetPeerApply (pp_PeerPubkey params));
  match peer with
  | None => CFail "approveCandidate, peer is not applied"
  | Some peer =>
      ok ← cwrap "approveCandidate, CheckConsensusSigns error: "
             (CheckConsensusSigns (gs "approveCandidate") (pp_PeerPubkey params) (pp_Address params));
      if negb ok then mret BYTE_TRUE else
      peerPubkeyPrefix ← cwrap "approveCandidate, peerPubkey format error: " (lift_res (hex_decode (rp_PeerPubkey peer)));
      index ← peer_index peerPubkeyPrefix;
      view ← cwrap "approveCandidate, get view error: " GetView;
      peerPoolMap ← cwrap "approveCandidate, get peerPoolMap error: " (GetPeerPoolMap view);
      let peerPoolItem := mkPeerPoolItem index (rp_PeerPubkey peer) (rp_Address peer) CandidateStatus in
      putPeerPoolMap (<[pp_PeerPubkey params := peerPoolItem]> peerPoolMap) view ;;
      cdel (peerApply_key peerPubkeyPrefix) ;;
      notify_nm [NStr (gs "approveCandidate"); NStr (pp_PeerPubkey params)] ;;
      mret BYTE_TRUE
  end.

(** The check of the listed peers before the signatures are collected. *)
Fixpoint check_black (peerPoolMap : PeerPoolMap) (l : list bytes) : res unit :=
  match l with
  | [] => Ok tt
  | peerPubkey :: l' =>
      match peerPoolMap !! peerPubkey with
      | None => Err ("blockNode, peerPubkey: " +:+ go_str peerPubkey +:+ " is not in peerPoolMap")
      | Some item => if decide (pi_Status item = BlackStatus)
                     then Err ("blackNode, peerPubkey: " +:+ go_str peerPubkey +:+ " is already blacked")
                     else check_black peerPoolMap l'
      end
  end.

(** One listed peer: [(commit, peerPoolMap)]. *)
Definition black_peer (acc : bool * PeerPoolMap) (peerPubkey : bytes) : contract NativeService (bool * PeerPoolMap) :=
  let '(commit, peerPoolMap) := acc in
  peerPubkeyPrefix ← cwrap "blackNode, peerPubkey format error: " (lift_res (hex_decode peerPubkey));
  match peerPoolMap !! peerPubkey with
  | None => CFail "blackNode, peerPubkey is not in peerPoolMap"
  | Some item =>
      store_item (blackList_key peerPubkeyPrefix) (mkBlackListItem (PeerPubkey item) (pi_Address item)) ;;
      let commit := if decide (pi_Status item = ConsensusStatus) then true else commit in
      mret (commit, <[peerPubkey := set_status BlackStatus item]> peerPoolMap)
  end.

Definition BlackNode : Handler :=
  params ← input_as (A := PeerListParam) "blackNode, contract params deserialize error: ";
  cwrap "blackNode, checkWitness error: " (ValidateOwner (pl_Address params)) ;;
  view ← cwrap "blackNode, get view error: " GetView;
  peerPoolMap ← cwrap "blackNode, get peerPoolMap error: " (GetPeerPoolMap view);
  let num := count_active peerPoolMap in
  cguard (negb (bool_decide (num ≤ MIN_PEER_NUM + blen (PeerPubkeyList params) - 1)))
    "blackNode, num of peers is less than 4" ;;
  lift_res (check_black peerPoolMap (PeerPubkeyList params)) ;;
  let input := mjoin (PeerPubkeyList params) in
  ok ← cwrap "blackNode, CheckConsensusSigns error: "
         (CheckConsensusSigns (gs "blackNode") input (pl_Address params));
  if negb ok then mret BYTE_TRUE else
  '(commit, peerPoolMap) ← cforeach (PeerPubkeyList params) (false, peerPoolMap) black_peer;
  putPeerPoolMap peerPoolMap view ;;
  (if (commit : bool) then cwrap "blackNode, executeCommitDpos error: " executeCommitDpos else mret tt) ;;
  notify_nm [NStr (gs "blackNode"); NStrs (PeerPubkeyList params)] ;;
  mret BYTE_TRUE.

Definition WhiteNode : Handler :=
  params ← input_as (A := PeerParam) "whiteNode, contract params deserialize error: ";
  cwrap "whiteNode, checkWitness error: " (ValidateOwner (pp_Address params)) ;;
  peerPubkeyPrefix ← cwrap "whiteNode, peerPubkey format error: " (lift_res (hex_decode (pp_PeerPubkey params)));
  blackListBytes ← cwrap "whiteNode, get BlackList error: " (cget (blackList_key peerPubkeyPrefix));
  cguard (bool_decide (blackListBytes ≠ [])) "whiteNode, this Peer is not in BlackList: <nil>" ;;
  ok ← cwrap "whiteNode, CheckConsensusSigns error: "
         (CheckConsensusSigns (gs "whiteNode") (pp_PeerPubkey params) (pp_Address params));
  if negb ok then mret BYTE_TRUE else
  cdel (blackList_key peerPubkeyPrefix) ;;
  notify_nm [NStr (gs "whiteNode"); NStr (pp_PeerPubkey params)] ;;
  mret BYTE_TRUE.

Definition QuitNode : Handler :=
  params ← input_as (A := PeerParam) "quitNode, contract params deserialize error: ";
  cwrap "quitNode, checkWitness error: " (ValidateOwner (pp_Address params)) ;;
  view ← cwrap "quitNode, get view error: " GetView;
  peerPoolMap ← cwrap "quitNode, get peerPoolMap error: " (GetPeerPoolMap view);
  match peerPoolMap !! pp_PeerPubkey params with
  | None => CFail "quitNode, peerPubkey is not in peerPoolMap"
  | Some peerPoolItem =>
      cguard (bool_decide (active peerPoolItem)) "quitNode, peerPubkey is not CandidateStatus or ConsensusStatus" ;;
      cguard (bool_decide (pp_Address params = pi_Address peerPoolItem))
        "quitNode, peerPubkey is not registered by this address" ;;
      let num := count_active peerPoolMap in
      cguard (negb (bool_decide (num ≤ MIN_PEER_NUM))) "quitNode, num of peers is less than 4" ;;
      putPeerPoolMap (<[pp_PeerPubkey params := set_status QuitingStatus peerPoolItem]> peerPoolMap) view ;;
      notify_nm [NStr (gs "quitNode"); NStr (pp_PeerPubkey params)] ;;
      mret BYTE_TRUE
  end.

Definition CommitDpos : Handler :=
  config ← cwrap "commitDpos, get config error: " GetConfig;
  governanceView ← cwrap "commitDpos, get GovernanceView error: " GetGovernanceView;
  operatorAddress ← cwrap "commitDPos, get current consensus operator address error: " GetCurConOperator;
  witnessed ← cask (CheckWitness operatorAddress);
  height ← cask ns_height;
  let cycle := bool_decide (MaxBlockChangeView config ≤ u32 (height - gv_Height governanceView)) in
  cguard ((witnessed : bool) || cycle) "commitDpos, authentication Failed" ;;
  cwrap "executeCommitDpos, executeCommitDpos error: " executeCommitDpos ;;
  notify_nm [NStr (gs "commitDpos")] ;;
  mret BYTE_TRUE.

Definition UpdateConfig : Handler :=
  input ← cask ns_input;
  configuration ← cwrap "updateConfig, deserialize configuration error: "
    (lift_res (UpdateConfigParam_Deserialization (NewZeroCopySource input)).1);
  operatorAddress ← cwrap "updateConfig, get current consensus operator address error: " GetCurConOperator;
  cwrap "updateConfig, checkWitness error: " (ValidateOwner operatorAddress) ;;
  cguard (bool_decide (5000 ≤ BlockMsgDelay configuration)) "updateConfig. BlockMsgDelay must >= 5000" ;;
  cguard (bool_decide (5000 ≤ HashMsgDelay configuration)) "updateConfig. HashMsgDelay must >= 5000" ;;
  cguard (bool_decide (10 ≤ PeerHandshakeTimeout configuration)) "updateConfig. PeerHandshakeTimeout must >= 10" ;;
  cguard (bool_decide (10000 ≤ MaxBlockChangeView configuration)) "updateConfig. MaxBlockChangeView must >= 10000" ;;
  putConfig configuration ;;
  notify_nm [NStr (gs "updateConfig"); NInts [BlockMsgDelay configuration; HashMsgDelay configuration;
    PeerHandshakeTimeout configuration; MaxBlockChangeView configuration]] ;;
  mret BYTE_TRUE.

(** RegisterNodeManagerContract *)
Definition RegisterNodeManagerContract : list (bytes * Handler) :=
  [(gs "initConfig", InitConfig); (gs "registerCandidate", RegisterCandidate);
   (gs "unRegisterCandidate", UnRegisterCandidate); (gs "quitNode", QuitNode);
   (gs "approveCandidate", ApproveCandidate); (gs "blackNode", BlackNode);
   (gs "whiteNode", WhiteNode); (gs "updateConfig", UpdateConfig); (gs "commitDpos", CommitDpos)].

End node_manager.
