(* ===== verification/NodeInv.v ===== *)
(** * Correctness of the node manager

    The contract's storage refines an abstract governance state: the current view
    and the pool of its peers.  Every method is a step of [gov_step], and every step
    keeps at least four active peers. *)

From S2P Require Import Prelude Sha256 Sink Source Serialization BytesOrder MemDB OverlayDB CacheDB Contract MerkleSpec MerkleHasher Native Codec NodeStates NodeManager.

(** ** Stored values *)

(** Values a node can hold. *)
Definition fits (m : kvmap) : Prop := ∀ k v, m !! k = Some v → blen v < 2 ^ 63.

Definition stored {A} `{Serializable A} (m : kvmap) (k : bytes) (a : A) : Prop :=
  kv_at m k = GenRawStorageItem (sink_bytes a) ∧ ser_wf a ∧ blen (sink_bytes a) < 2 ^ 63.

Section stored.
Context `{Hasher} `{Crypto} `{Serializable A}.
Implicit Types (m : kvmap) (s : NativeService) (k : bytes).

Lemma stored_nonempty m k (a : A) : stored m k a → kv_at m k ≠ [].
Proof. intros [-> _]. apply GenRawStorageItem_nonempty. Qed.

Lemma deserialize_sink (a : A) : ser_wf a → blen (sink_bytes a) < 2 ^ 63 → deserialize (sink_bytes a) = Ok a.
Proof.
  intros Hwf Hl. unfold deserialize. pose proof (deserialize_bytes a [] Hwf) as E.
  rewrite app_nil_r in E. by rewrite E.
Qed.

Lemma run_load_with (e1 e2 : string) m k (a : A) (st : kvmap * NativeService) :
  stored m k a → run (load_with e1 e2 (kv_at m k)) st = (Ok a, st).
Proof.
  intros (-> & Hwf & Hl). unfold load_with. rewrite storage_item_roundtrip by done.
  unfold cdeserialize. cbn. by rewrite deserialize_sink.
Qed.

Lemma stored_insert m k k' v (a : A) : k ≠ k' → stored m k a → stored (<[k' := v]> m) k a.
Proof. intros Hk. unfold stored, kv_at. by rewrite lookup_insert_ne. Qed.
Lemma stored_delete m k k' (a : A) : k ≠ k' → stored m k a → stored (delete k' m) k a.
Proof. intros Hk. unfold stored, kv_at. by rewrite lookup_delete_ne. Qed.

Lemma blen_GenRaw v : blen v ≤ blen (GenRawStorageItem v).
Proof.
  unfold GenRawStorageItem, StorageItem_ToArray, StorageItem_Serialize, Ser.WriteVarBytes.
  rewrite !length_app. simpl. lia.
Qed.

Lemma fits_stored m k (a : A) :
  fits m → m !! k = Some (GenRawStorageItem (sink_bytes a)) → ser_wf a → stored m k a.
Proof.
  intros Hm Hk Hwf. unfold stored, kv_at. rewrite Hk. split_and!; [done..|].
  specialize (Hm _ _ Hk). pose proof (blen_GenRaw (sink_bytes a)). lia.
Qed.

End stored.

(** ** Storage keys

    Keys with different prefixes differ: no prefix starts another one. *)

Ltac key_ne :=
  let E := fresh in
  intros E; unfold peerApply_key, peerPool_key, peerIndex_key, blackList_key, signs_key, nm_key, ConcatKey in E;
  apply app_inv_head in E; cbn in E; discriminate E.

Lemma ConcatKey2 c (a b : bytes) : ConcatKey c [a; b] = to_slice c ++ a ++ b.
Proof. unfold ConcatKey. change (mjoin [a; b]) with (a ++ b ++ []). by rewrite app_nil_r. Qed.

Lemma peerPool_key_inj v w : is_u32 v → is_u32 w → peerPool_key v = peerPool_key w → v = w.
Proof.
  intros Hv Hw E. unfold peerPool_key, nm_key in E. rewrite !ConcatKey2 in E.
  do 2 apply app_inv_head in E. by apply le_put_inj in E.
Qed.

Lemma peerApply_key_inj a b : peerApply_key a = peerApply_key b → a = b.
Proof.
  intros E. unfold peerApply_key, nm_key in E. rewrite !ConcatKey2 in E. by do 2 apply app_inv_head in E.
Qed.

(** ** The abstract state *)

Record gov_inv (m : kvmap) (g : GovernanceView) (p : PeerPoolMap) : Prop := {
  gi_view : stored m (nm_key [GOVERNANCE_VIEW]) g;
  gi_pool : stored m (peerPool_key (View g)) p;
  gi_min : MIN_PEER_NUM ≤ count_active p;
  gi_apply : ∀ k, kv_at m (peerApply_key k) ≠ [] → ∃ a : RegisterPeerParam,
    stored m (peerApply_key k) a ∧ hex_decode (rp_PeerPubkey a) = Ok k ∧ p !! rp_PeerPubkey a = None;
}.

(** *** Active peers *)

Definition active_peers (p : PeerPoolMap) : gset bytes := dom (filter (λ kv, active kv.2) p).

Lemma elem_of_active_peers p k : k ∈ active_peers p ↔ ∃ i, p !! k = Some i ∧ active i.
Proof.
  unfold active_peers. rewrite elem_of_dom. split.
  - intros [i Hi]. apply map_lookup_filter_Some in Hi as [??]. eauto.
  - intros (i & ? & ?). exists i. by apply map_lookup_filter_Some.
Qed.

Lemma foldl_count {A} (P : A → Prop) `{∀ x, Decision (P x)} (l : list A) n :
  foldl (λ num x, if decide (P x) then num + 1 else num) n l = n + Z.of_nat (length (filter P l)).
Proof.
  revert n. induction l as [|x l IH]; intros n; cbn [foldl]; [simpl; lia|].
  rewrite IH, filter_cons. repeat case_decide; simpl; lia.
Qed.

Lemma size_list_to_set_le (l : list bytes) : (size (list_to_set l : gset bytes) ≤ length l)%nat.
Proof.
  induction l as [|x l IH]; [done|]. simpl. transitivity (1 + size (list_to_set l : gset bytes))%nat; [|lia].
  rewrite <- (size_singleton (C := gset bytes) x). rewrite size_union_alt.
  assert (size (list_to_set l ∖ {[x]} : gset bytes) ≤ size (list_to_set l : gset bytes))%nat; [|lia].
  apply subseteq_size. set_solver.
Qed.

Lemma count_active_size p : count_active p = Z.of_nat (size (active_peers p)).
Proof.
  unfold count_active, active_peers. rewrite size_dom, <- length_map_to_list.
  rewrite (foldl_count (λ kv, active kv.2)), Z.add_0_l.
  by rewrite map_to_list_filter.
Qed.

(** What the change of views does to a peer. *)
Definition commit_item (i : PeerPoolItem) : option PeerPoolItem :=
  if decide (active i) then Some (set_status ConsensusStatus i)
  else if decide (pi_Status i = QuitingStatus ∨ pi_Status i = BlackStatus) then None
  else Some i.
Definition commit_pool (p : PeerPoolMap) : PeerPoolMap := omap commit_item p.

Definition black_all (l : list bytes) (p : PeerPoolMap) : PeerPoolMap :=
  foldl (λ p k, alter (set_status BlackStatus) k p) p l.

(** The methods, as steps of the pool. *)
Inductive gov_step (p : PeerPoolMap) : PeerPoolMap → Prop :=
  | gs_keep : gov_step p p
  | gs_quit k i : p !! k = Some i → active i → MIN_PEER_NUM < count_active p →
      gov_step p (<[k := set_status QuitingStatus i]> p)
  | gs_approve k i : p !! PeerPubkey i = None → pi_Status i = CandidateStatus →
      gov_step p (<[PeerPubkey i := i]> (delete k p))
  | gs_black l : MIN_PEER_NUM + blen l ≤ count_active p → gov_step p (black_all l p)
  | gs_black_commit l : MIN_PEER_NUM + blen l ≤ count_active p → gov_step p (commit_pool (black_all l p))
  | gs_commit : gov_step p (commit_pool p).

Lemma active_set_status s i : s = CandidateStatus ∨ s = ConsensusStatus ↔ active (set_status s i).
Proof. done. Qed.

Lemma active_peers_commit p : active_peers (commit_pool p) = active_peers p.
Proof.
  apply set_eq. intros k. rewrite !elem_of_active_peers. unfold commit_pool. setoid_rewrite lookup_omap_Some.
  split.
  - intros (i & (j & Hc & Hj) & Hi). exists j. split; [done|]. unfold commit_item in Hc.
    repeat case_decide; by simplify_eq.
  - intros (i & Hi & Ha). exists (set_status ConsensusStatus i). split; [|by right].
    exists i. unfold commit_item. by rewrite decide_True.
Qed.

Lemma active_peers_black_all l p : active_peers p ∖ list_to_set l ⊆ active_peers (black_all l p).
Proof.
  intros k. rewrite elem_of_difference, elem_of_list_to_set, !elem_of_active_peers. intros [(i & Hi & Ha) Hk].
  exists i. split; [|done]. clear Ha. revert p Hi. induction l as [|x l IH]; intros p Hi; [done|].
  unfold black_all. cbn [foldl]. apply IH; [set_solver|]. by rewrite lookup_alter_ne by set_solver.
Qed.

Lemma count_black_all l p : count_active p - blen l ≤ count_active (black_all l p).
Proof.
  rewrite !count_active_size. pose proof (subseteq_size _ _ (active_peers_black_all l p)) as Hs.
  pose proof (size_list_to_set_le l).
  assert (size (active_peers p) ≤ size (active_peers p ∖ list_to_set l) + size (list_to_set l : gset bytes))%nat.
  { rewrite <- size_union by set_solver. apply subseteq_size. intros x Hx.
    destruct (decide (x ∈ (list_to_set l : gset bytes))); set_solver. }
  lia.
Qed.

Lemma gov_step_min p p' : gov_step p p' → MIN_PEER_NUM ≤ count_active p → MIN_PEER_NUM ≤ count_active p'.
Proof.
  intros Hs Hm. destruct Hs as [|k i Hi Ha Hc|k i Hn Hc|l Hl|l Hl|]; [done|..].
  - assert (active_peers p ∖ {[k]} ⊆ active_peers (<[k := set_status QuitingStatus i]> p)) as Hsub.
    { intros x. rewrite elem_of_difference, !elem_of_active_peers. intros [(j & Hj & Haj) Hx].
      exists j. by rewrite lookup_insert_ne by set_solver. }
    apply subseteq_size in Hsub. rewrite size_difference in Hsub.
    2:{ intros x. rewrite elem_of_singleton. intros ->. apply elem_of_active_peers. eauto. }
    rewrite size_singleton in Hsub. rewrite !count_active_size in *. lia.
  - assert ({[PeerPubkey i]} ∪ active_peers p ∖ {[k]} ⊆ active_peers (<[PeerPubkey i := i]> (delete k p))) as Hsub.
    { intros x. rewrite elem_of_union, elem_of_difference, elem_of_singleton, !elem_of_active_peers.
      intros [->|[(j & Hj & Haj) Hx]].
      - exists i. rewrite lookup_insert_eq. split; [done|]. by left.
      - exists j. rewrite lookup_insert_ne by (intros <-; congruence). by rewrite lookup_delete_ne by set_solver. }
    apply subseteq_size in Hsub. rewrite size_union, size_singleton in Hsub.
    2:{ intros x. rewrite elem_of_singleton, elem_of_difference, elem_of_active_peers. intros -> [(j & ? & _) _]. congruence. }
    assert (size (active_peers p) ≤ size (active_peers p ∖ {[k]}) + 1)%nat.
    { rewrite <- (size_singleton (C := gset bytes) k), <- size_union by set_solver.
      apply subseteq_size. intros x Hx. destruct (decide (x = k)); set_solver. }
    rewrite !count_active_size in *. lia.
  - pose proof (count_black_all l p). lia.
  - rewrite count_active_size, active_peers_commit, <- count_active_size. pose proof (count_black_all l p). lia.
  - by rewrite count_active_size, active_peers_commit, <- count_active_size.
Qed.

(** ** Runs of the contract's helpers *)

Section runs.
Context `{Hasher} `{Crypto}.
Implicit Types (m : kvmap) (s : NativeService) (g : GovernanceView) (p : PeerPoolMap).

Lemma run_cask {A} (f : NativeService → A) m s : run (cask f) (m, s) = (Ok (f s), (m, s)).
Proof. done. Qed.
Lemma run_cmodify f m s : run (cmodify f) (m, s) = (Ok tt, (m, f s)).
Proof. done. Qed.

Lemma run_GetGovernanceView m g s :
  stored m (nm_key [GOVERNANCE_VIEW]) g → run GetGovernanceView (m, s) = (Ok g, (m, s)).
Proof.
  intros Hg. unfold GetGovernanceView. erewrite run_bind_ok; [|by apply run_cwrap_ok, run_cget].
  rewrite decide_True by exact (stored_nonempty _ _ _ Hg). by apply run_load_with.
Qed.

Lemma run_GetView m g s : stored m (nm_key [GOVERNANCE_VIEW]) g → run GetView (m, s) = (Ok (View g), (m, s)).
Proof.
  intros Hg. unfold GetView. erewrite run_bind_ok; [done|]. by apply run_cwrap_ok, run_GetGovernanceView.
Qed.

Lemma run_GetPeerPoolMap m p v s : stored m (peerPool_key v) p → run (GetPeerPoolMap v) (m, s) = (Ok p, (m, s)).
Proof.
  intros Hp. unfold GetPeerPoolMap. erewrite run_bind_ok; [|by apply run_cwrap_ok, run_cget].
  rewrite decide_False by exact (stored_nonempty _ _ _ Hp). destruct Hp as (Hk & Hwf & Hl).
  pose proof (storage_item_roundtrip (sink_bytes p) Hl) as E. rewrite <- Hk in E. unfold GetValueFromRawStorageItem in E.
  destruct (StorageItem_Deserialize _) as [[item| |] r]; simplify_eq. simpl.
  rewrite E. unfold cdeserialize. by rewrite deserialize_sink.
Qed.

Lemma run_GetPeerApply m k key (a : RegisterPeerParam) s :
  hex_decode k = Ok key → stored m (peerApply_key key) a →
  run (GetPeerApply k) (m, s) = (Ok (Some a), (m, s)).
Proof.
  intros Hk Ha. unfold GetPeerApply. rewrite Hk. cbn [lift_res cwrap].
  change (CRet key ≫= ?f) with (f key). cbv beta.
  erewrite run_bind_ok; [|by apply run_cwrap_ok, run_cget].
  rewrite decide_False by exact (stored_nonempty _ _ _ Ha). erewrite run_bind_ok; [done|]. by apply run_load_with.
Qed.

(** An application that is found was read under the decoded key. *)
Lemma run_GetPeerApply_inv m k s r st :
  run (GetPeerApply k) (m, s) = (Ok r, st) →
  st = (m, s) ∧ ∃ key, hex_decode k = Ok key ∧ (r = None ↔ kv_at m (peerApply_key key) = []).
Proof.
  intros Hr. unfold GetPeerApply in Hr. crun Hr. case_decide.
  - crun Hr. split; [done|]. by exists x.
  - apply run_bind_inv in Hr as (a & st1 & Hl1 & Hl2). apply run_ret_inv in Hl2 as [-> ->].
    split; [|exists x; by split].
    eapply read_only_inv; [|exact Hl1]. unfold load_with, cdeserialize. solve_ro.
Qed.

(** *** Counting signatures *)

Definition peer_address (key : bytes) : option Address :=
  match hex_decode key with
  | Ok k => match DeserializePublicKey k with Ok pk => Some (AddressFromPubKey pk) | _ => None end
  | _ => None
  end.

Definition is_consensus (kv : bytes * PeerPoolItem) : Prop := pi_Status kv.2 = ConsensusStatus.
Definition has_signed (signs : ConsensusSigns) (kv : bytes * PeerPoolItem) : Prop :=
  is_consensus kv ∧ is_Some (peer_address kv.1 ≫= λ a, signs !! a).
#[export] Instance is_consensus_dec kv : Decision (is_consensus kv).
Proof. unfold is_consensus. apply _. Defined.
#[export] Instance has_signed_dec signs kv : Decision (has_signed signs kv).
Proof. unfold has_signed. apply _. Defined.

(** Every consensus peer has a public key. *)
Definition peers_parse p : Prop := ∀ k i, p !! k = Some i → is_consensus (k, i) → is_Some (peer_address k).

Definition consensus_num p : Z := Z.of_nat (size (filter is_consensus p)).
Definition signed_num p (signs : ConsensusSigns) : Z := Z.of_nat (size (filter (has_signed signs) p)).
(** Two thirds of the consensus peers, rounded up. *)
Definition quorum p (signs : ConsensusSigns) : Prop := (2 * consensus_num p + 2) ÷ 3 ≤ signed_num p signs.
#[export] Instance quorum_dec p signs : Decision (quorum p signs).
Proof. unfold quorum. apply _. Defined.

Lemma peer_key_run (who : string) (key : bytes) (st : kvmap * NativeService) :
  run (peer_key who key) st =
    match hex_decode key with
    | Ok k => match DeserializePublicKey k with
              | Ok pk => (Ok pk, st)
              | Err e => (Err ((who +:+ ", keypair.DeserializePublicKey error: ") +:+ e), st)
              | Panic => (Panic, st)
              end
    | Err e => (Err ((who +:+ ", hex.DecodeString public key error: ") +:+ e), st)
    | Panic => (Panic, st)
    end.
Proof.
  unfold peer_key. destruct (hex_decode key) as [k|e|]; [|done..]. cbn [lift_res cwrap mbind contract_bind cbind].
  by destruct (DeserializePublicKey k).
Qed.

Lemma run_count_sign (signs : ConsensusSigns) (kv : bytes * PeerPoolItem) (acc : Z * Z) (st : kvmap * NativeService) :
  (is_consensus kv → is_Some (peer_address kv.1)) →
  run (count_sign signs acc kv) st =
    (Ok (acc.1 + (if decide (has_signed signs kv) then 1 else 0),
         acc.2 + (if decide (is_consensus kv) then 1 else 0)), st).
Proof.
  intros Hp. unfold count_sign. destruct acc as [num sum]. cbn [fst snd].
  destruct (decide (is_consensus kv)) as [Hc|Hc]; unfold is_consensus in Hc.
  - rewrite decide_True by done. rewrite run_bind, peer_key_run. destruct (Hp Hc) as [a Ha].
    assert (has_signed signs kv ↔ is_Some (signs !! a)) as Hsg by (unfold has_signed; rewrite Ha; simpl; tauto).
    unfold peer_address in Ha. destruct (hex_decode _) as [k| |]; [|done..].
    destruct (DeserializePublicKey k) as [pk| |]; simplify_eq.
    repeat case_decide; try tauto; by rewrite ?Z.add_0_r.
  - rewrite decide_False by done. rewrite decide_False by (by intros [??]). by rewrite !Z.add_0_r.
Qed.

Lemma run_count_signs (signs : ConsensusSigns) (l : list (bytes * PeerPoolItem)) (acc : Z * Z) (st : kvmap * NativeService) :
  (∀ kv, kv ∈ l → is_consensus kv → is_Some (peer_address kv.1)) →
  run (cforeach l acc (count_sign signs)) st =
    (Ok (acc.1 + Z.of_nat (length (filter (has_signed signs) l)),
         acc.2 + Z.of_nat (length (filter is_consensus l))), st).
Proof.
  revert acc. induction l as [|kv l IH]; intros acc Hp; cbn [cforeach].
  { destruct acc. cbn. by rewrite !Z.add_0_r. }
  change (cbind ?c ?k) with (c ≫= k).
  rewrite (run_bind_ok _ _ _ _ _ (run_count_sign signs kv acc st (Hp kv (list_elem_of_here _ _)))).
  rewrite IH by (intros; apply Hp; [by right|done]). cbn [fst snd]. rewrite !filter_cons.
  do 2 f_equal. repeat case_decide; cbn [length]; f_equal; lia.
Qed.

(** The signatures collected so far. *)
Definition signs_at m (h : Uint256) (signs : ConsensusSigns) : Prop :=
  (kv_at m (signs_key h) = [] ∧ signs = ∅) ∨ stored m (signs_key h) signs.

Lemma run_getConsensusSigns m h signs s :
  signs_at m h signs → run (getConsensusSigns h) (m, s) = (Ok signs, (m, s)).
Proof.
  intros Hs. unfold getConsensusSigns. erewrite run_bind_ok; [|by apply run_cwrap_ok, run_cget].
  destruct Hs as [[E ->]|Hs].
  - by rewrite decide_True.
  - rewrite decide_False by exact (stored_nonempty _ _ _ Hs). by apply run_load_with.
Qed.

Definition signs_notify (signs : ConsensusSigns) : NotifyEventInfo :=
  mkNotify NodeManagerContractAddress [NStr (gs "CheckConsensusSigns"); NInt (Z.of_nat (size (signs : ConsensusSigns)))].

Lemma run_CheckConsensusSigns m g p (signs : ConsensusSigns) (method input : bytes) (address : Address) s :
  stored m (nm_key [GOVERNANCE_VIEW]) g → stored m (peerPool_key (View g)) p → peers_parse p →
  signs_at m (Sum256 (method ++ input)) signs →
  let signs' := <[address := true]> signs in
  let h := Sum256 (method ++ input) in
  run (CheckConsensusSigns method input address) (m, s) =
    (Ok (bool_decide (quorum p signs')),
     (if decide (quorum p signs') then delete (signs_key h) m
      else <[signs_key h := GenRawStorageItem (sink_bytes signs')]> m,
      ns_set_notifications (ns_notifications s ++ [signs_notify signs']) s)).
Proof.
  intros Hg Hp Hparse Hs signs' h. unfold CheckConsensusSigns.
  erewrite run_bind_ok; [|by apply run_cwrap_ok, run_getConsensusSigns].
  erewrite run_bind_ok; [|unfold notify_nm, AddNotify; apply run_cmodify].
  erewrite run_bind_ok; [|by apply run_cwrap_ok, run_GetView].
  erewrite run_bind_ok; [|by apply run_cwrap_ok, run_GetPeerPoolMap].
  erewrite run_bind_ok.
  2:{ apply run_count_signs. intros [k i] Hin. apply (Hparse k i). by apply elem_of_map_to_list. }
  cbn [fst snd]. rewrite !size_filter_list, !Z.add_0_l.
  destruct (decide (quorum p signs')) as [Hq|Hq].
  - rewrite bool_decide_true by done. rewrite decide_True by exact Hq. by erewrite run_bind_ok by apply run_cdel.
  - rewrite bool_decide_false by done. rewrite decide_False by exact Hq. by erewrite run_bind_ok by apply run_cput.
Qed.

End runs.

Ltac crun_hook H ::=
  lazymatch type of H with
  | run (cask _) _ = _ => rewrite run_cask in H
  | run (cmodify _) _ = _ => rewrite run_cmodify in H
  | run (input_as _) _ = _ => unfold input_as in H; crun H
  | run (notify_nm _) _ = _ => unfold notify_nm, AddNotify in H; crun H
  | run (ValidateOwner _) _ = _ => unfold ValidateOwner in H; crun H
  | run (putPeerPoolMap _ _) _ = _ => unfold putPeerPoolMap in H; crun H
  | run (store_item _ _) _ = _ => unfold store_item in H; crun H
  | run (putGovernanceView _) _ = _ => unfold putGovernanceView in H; crun H
  | run (putConfig _) _ = _ => unfold putConfig in H; crun H
  | run _ ?st = (Ok _, ?st) => idtac
  | run ?c ?st = (Ok _, ?st') =>
      let E := fresh in
      assert (st' = st) as E by (eapply read_only_inv; [|exact H]; solve_ro);
      simplify_eq
  end.

Section read_only.
Context `{Hasher} `{Crypto}.

Lemma ro_cask {A} (f : NativeService → A) : read_only (cask f).
Proof. by intros [??]. Qed.
Lemma ro_deserialize {A} `{Serializable A} (b : bytes) : read_only (cdeserialize b : contract NativeService A).
Proof. apply read_only_lift. Qed.
Lemma ro_load_with {A} `{Serializable A} (e1 e2 : string) (raw : bytes) :
  read_only (load_with e1 e2 raw : contract NativeService A).
Proof. unfold load_with, cdeserialize. solve_ro. Qed.
#[local] Hint Resolve ro_cask ro_deserialize ro_load_with : ro.
Lemma ro_GetGovernanceView : read_only GetGovernanceView.
Proof. unfold GetGovernanceView. solve_ro. Qed.
Lemma ro_getConsensusSigns h : read_only (getConsensusSigns h).
Proof. unfold getConsensusSigns. solve_ro. Qed.
#[local] Hint Resolve ro_GetGovernanceView : ro.
Lemma ro_GetView : read_only GetView.
Proof. unfold GetView. solve_ro. Qed.
Lemma ro_GetPeerPoolMap v : read_only (GetPeerPoolMap v).
Proof. unfold GetPeerPoolMap. solve_ro. Qed.
Lemma ro_peer_key who key : read_only (peer_key who key).
Proof. unfold peer_key. solve_ro. Qed.
#[local] Hint Resolve ro_peer_key ro_GetView ro_GetPeerPoolMap : ro.
Lemma ro_count_sign signs acc kv : read_only (count_sign signs acc kv).
Proof. unfold count_sign. solve_ro. Qed.
Lemma ro_GetCurConOperator : read_only GetCurConOperator.
Proof. unfold GetCurConOperator. solve_ro. Qed.
Lemma ro_GetConfig : read_only GetConfig.
Proof. unfold GetConfig. solve_ro. Qed.

#[local] Hint Resolve ro_getConsensusSigns ro_count_sign ro_GetCurConOperator ro_GetConfig : ro.

End read_only.
#[export] Hint Resolve ro_cask ro_deserialize ro_load_with ro_GetGovernanceView ro_peer_key ro_GetView
  ro_GetPeerPoolMap ro_getConsensusSigns ro_count_sign ro_GetCurConOperator ro_GetConfig : ro.

Section frames.
Context `{Hasher} `{Crypto}.
Implicit Types (m : kvmap) (s : NativeService) (g : GovernanceView) (p : PeerPoolMap).

(** Collecting a signature only touches the signatures. *)
Lemma CheckConsensusSigns_frame (method input : bytes) (address : Address) m s b m' s' :
  run (CheckConsensusSigns method input address) (m, s) = (Ok b, (m', s')) →
  (∃ h, m' = delete (signs_key h) m ∨ ∃ v, m' = <[signs_key h := v]> m) ∧
  ∃ n, s' = ns_set_notifications n s.
Proof.
  intros Hr. unfold CheckConsensusSigns in Hr. crun Hr. destruct x2 as [num sum].
  case_decide; [unfold deleteConsensusSigns in Hr|unfold putConsensusSigns in Hr]; crun Hr; eauto 10.
Qed.

(** *** The change of views *)

Lemma run_commit_steps (l : list (bytes * PeerPoolItem)) p (st : kvmap * NativeService) :
  NoDup l.*1 → (∀ k i, (k, i) ∈ l → p !! k = Some i ∧ PeerPubkey i = k) →
  ∃ p', run (cforeach l p commit_step) st = (Ok p', st) ∧
    ∀ k, p' !! k = if decide (k ∈ l.*1) then p !! k ≫= commit_item else p !! k.
Proof.
  revert p. induction l as [|[k i] l IH]; intros p Hnd Hl; cbn [cforeach].
  { exists p. split; [done|]. intros k. by rewrite decide_False by set_solver. }
  cbn [fmap list_fmap fst] in Hnd. apply NoDup_cons in Hnd as [Hk Hnd].
  destruct (Hl k i (list_elem_of_here _ _)) as [Hp Hi].
  assert (∃ p1, run (commit_step p (k, i)) st = (Ok p1, st) ∧
    ∀ x, p1 !! x = if decide (x = k) then p !! k ≫= commit_item else p !! x) as (p1 & E1 & Hp1).
  { unfold commit_step, commit_item, active. rewrite Hp, Hi. cbn [mbind option_bind].
    destruct (decide (pi_Status i = CandidateStatus ∨ pi_Status i = ConsensusStatus)) as [Ha|Ha].
    - rewrite (decide_False (P := pi_Status i = QuitingStatus)) by (intros Hst; rewrite Hst in Ha; destruct Ha; discriminate).
      rewrite (decide_False (P := pi_Status i = BlackStatus)) by (intros Hst; rewrite Hst in Ha; destruct Ha; discriminate).
      rewrite Hp. eexists. split; [done|]. intros x. case_decide as Hx; [subst x; by rewrite lookup_insert_eq|].
      by rewrite lookup_insert_ne.
    - eexists. split; [done|]. intros x.
      repeat case_decide; subst; try tauto; try congruence; rewrite ?lookup_delete_eq, ?lookup_delete_ne by done; auto. }
  change (cbind ?c ?f) with (c ≫= f). rewrite (run_bind_ok _ _ _ _ _ E1).
  destruct (IH p1 Hnd) as (p' & E2 & Hp').
  { intros x j Hx. assert (x ≠ k) as Hne by (intros ->; apply Hk; by apply (list_elem_of_fmap_2 fst _ (k, j))).
    rewrite Hp1, decide_False by done. apply Hl. by right. }
  exists p'. split; [done|]. intros x. rewrite Hp', Hp1. cbn [fmap list_fmap fst].
  repeat case_decide; subst; try done; set_solver.
Qed.

Lemma run_commit_pool p (st : kvmap * NativeService) :
  map_Forall (λ k i, PeerPubkey i = k) p →
  run (cforeach (map_to_list p) p commit_step) st = (Ok (commit_pool p), st).
Proof.
  intros Hk. destruct (run_commit_steps (map_to_list p) p st) as (p' & E & Hp').
  { apply NoDup_fst_map_to_list. }
  { intros k i Hin. apply elem_of_map_to_list in Hin. split; [done|by apply (Hk k)]. }
  rewrite E. do 2 f_equal. apply map_eq. intros k. rewrite Hp'. unfold commit_pool. rewrite lookup_omap.
  case_decide as Hin; [done|]. destruct (p !! k) as [i|] eqn:Hi; [|done].
  destruct Hin. apply list_elem_of_fmap. exists (k, i). split; [done|]. by apply elem_of_map_to_list.
Qed.

Lemma run_executeCommitDpos m g p s :
  stored m (nm_key [GOVERNANCE_VIEW]) g → stored m (peerPool_key (View g)) p →
  let g' := mkGovernanceView (u32 (View g + 1)) (ns_height s) (tx_hash (ns_tx s)) in
  run executeCommitDpos (m, s) =
    if decide (ns_height s = gv_Height g)
    then (Err "executeCommitDpos, can not do commitDpos twice in one block", (m, s))
    else (Ok tt, (<[nm_key [GOVERNANCE_VIEW] := GenRawStorageItem (sink_bytes g')]>
                  (delete (peerPool_key (u32 (View g - 1)))
                    (<[peerPool_key (u32 (View g + 1)) := GenRawStorageItem (sink_bytes (commit_pool p))]> m)), s)).
Proof.
  intros Hg Hp g'. unfold executeCommitDpos.
  erewrite run_bind_ok; [|by apply run_cwrap_ok, run_GetGovernanceView].
  erewrite run_bind_ok; [|apply run_cask]. case_decide; [done|].
  erewrite run_bind_ok; [|by apply run_cwrap_ok, run_GetPeerPoolMap].
  erewrite run_bind_ok; [|apply run_commit_pool; by destruct Hp as (_ & (? & _) & _)].
  erewrite run_bind_ok; [|unfold putPeerPoolMap, store_item; apply run_cput].
  erewrite run_bind_ok; [|apply run_cdel].
  by erewrite run_bind_ok by apply run_cask.
Qed.

End frames.
