(* ===== verification/NodeGov.v ===== *)
(** * The governance invariant

    Every method of the node manager, run on a store that holds a governance
    state, leaves one behind that is one [gov_step] away. *)

From S2P Require Import Prelude Sha256 Sink Source Serialization BytesOrder MemDB OverlayDB CacheDB Contract MerkleSpec MerkleHasher Native ExCrypto Codec NodeStates NodeManager NodeInv.

(** The keys the invariant speaks of. *)
Definition gov_key (g : GovernanceView) (k : bytes) : Prop :=
  k = nm_key [GOVERNANCE_VIEW] ∨ k = peerPool_key (View g) ∨ ∃ a, k = peerApply_key a.

Lemma gov_inv_agree m m' g p :
  gov_inv m g p → (∀ k, gov_key g k → m' !! k = m !! k) → gov_inv m' g p.
Proof.
  intros [Hg Hp Hm Ha] Hag. unfold stored, kv_at in *. unfold gov_key in Hag.
  split; unfold stored, kv_at; [by rewrite Hag by eauto..|done|].
  intros k. rewrite Hag by eauto. apply Ha.
Qed.

Lemma gov_inv_insert m k v g p : gov_inv m g p → (¬ gov_key g k) → gov_inv (<[k := v]> m) g p.
Proof.
  intros Hi Hk. eapply gov_inv_agree; [done|]. intros k' Hk'. apply lookup_insert_ne. by intros ->.
Qed.
Lemma gov_inv_delete m k g p : gov_inv m g p → (¬ gov_key g k) → gov_inv (delete k m) g p.
Proof.
  intros Hi Hk. eapply gov_inv_agree; [done|]. intros k' Hk'. apply lookup_delete_ne. by intros ->.
Qed.

Ltac not_gov := let E := fresh in intros [E|[E|[? E]]]; revert E; key_ne.
Lemma signs_not_gov g h : ¬ gov_key g (signs_key h). Proof. not_gov. Qed.
Lemma blackList_not_gov g k : ¬ gov_key g (blackList_key k). Proof. not_gov. Qed.
Lemma peerIndex_not_gov g k : ¬ gov_key g (peerIndex_key k). Proof. not_gov. Qed.
Lemma candidate_not_gov g : ¬ gov_key g (nm_key [CANDIDITE_INDEX]). Proof. not_gov. Qed.
Lemma config_not_gov g : ¬ gov_key g (nm_key [VBFT_CONFIG]). Proof. not_gov. Qed.
Create HintDb gov.
#[export] Hint Resolve gov_inv_insert gov_inv_delete signs_not_gov blackList_not_gov peerIndex_not_gov
  candidate_not_gov config_not_gov : gov.

(** ** Well-formed pools *)

(** The shape of a pool, its size apart. *)
Definition pool_shape (p : PeerPoolMap) : Prop :=
  map_Forall (λ k i, PeerPubkey i = k) p ∧ map_Forall (λ _ i, item_wf i) p.

Lemma length_enc_list {A} (f : A → list sink_op) (l : list A) :
  (∀ a, a ∈ l → (0 < length (enc_ops (f a)))%nat) → (length l ≤ length (enc_ops (enc_list f l)))%nat.
Proof.
  intros Hf. rewrite enc_ops_list. induction l as [|x l IH]; [done|]. cbn [fmap list_fmap length].
  change (mjoin (?a :: ?b)) with (a ++ mjoin b). rewrite length_app.
  specialize (Hf x (list_elem_of_here _ _)) as Hx. assert (length l ≤ length (mjoin ((λ x, enc_ops (f x)) <$> l)))%nat; [|lia].
  apply IH. intros a Ha. apply Hf. by right.
Qed.

Lemma PeerPoolItem_enc_pos i : (0 < length (enc_ops (PeerPoolItem_Serialization i)))%nat.
Proof. unfold PeerPoolItem_Serialization. rewrite enc_ops_app, enc_ops_cons, !length_app. cbn [enc_op]. rewrite length_le_put. lia. Qed.

Lemma pool_size_bytes (p : PeerPoolMap) : Z.of_nat (size p) ≤ blen (sink_bytes p).
Proof.
  unfold sink_bytes. cbn [Serialization PeerPoolMap_ser]. unfold PeerPoolMap_Serialization, PeerPoolMap_from.
  rewrite enc_ops_cons, length_app.
  pose proof (length_enc_list PeerPoolItem_Serialization (sort_desc bytes_lt PeerPubkey (map_to_list p).*2)
    (λ a _, PeerPoolItem_enc_pos a)) as Hl.
  assert (length (sort_desc bytes_lt PeerPubkey (map_to_list p).*2) = size p) as E; [|lia].
  by rewrite sort_desc_perm, length_fmap, length_map_to_list.
Qed.

Lemma pool_fits (m : kvmap) (k : bytes) (p : PeerPoolMap) :
  fits m → m !! k = Some (GenRawStorageItem (sink_bytes p)) → pool_shape p → stored m k p.
Proof.
  intros Hf Hk [??]. apply fits_stored; [done..|]. split_and!; [done..|].
  specialize (Hf _ _ Hk). pose proof (pool_size_bytes p). pose proof (blen_GenRaw (sink_bytes p)).
  unfold in_range. lia.
Qed.

Lemma stored_shape (m : kvmap) (k : bytes) (p : PeerPoolMap) : stored m k p → pool_shape p.
Proof. intros (_ & (? & ? & _) & _). done. Qed.

Lemma item_wf_status s i : is_u8 s → item_wf i → item_wf (set_status s i).
Proof. intros ? [??]. done. Qed.

Lemma shape_insert k i p : pool_shape p → PeerPubkey i = k → item_wf i → pool_shape (<[k := i]> p).
Proof. intros [??] ??. split; by apply map_Forall_insert_2. Qed.

Lemma shape_status k i s p : pool_shape p → p !! k = Some i → is_u8 s → pool_shape (<[k := set_status s i]> p).
Proof.
  intros Hp Hi Hs. destruct Hp as [Hk Hw]. apply shape_insert; [done|by apply (Hk k i)|].
  apply item_wf_status; [done|by apply (Hw k)].
Qed.

Lemma shape_delete k p : pool_shape p → pool_shape (delete k p).
Proof. intros [??]. split; by apply map_Forall_delete. Qed.

Lemma shape_commit p : pool_shape p → pool_shape (commit_pool p).
Proof.
  intros [Hk Hw]. split; intros k i Hi; apply lookup_omap_Some in Hi as (j & Hc & Hj);
    specialize (Hk _ _ Hj); specialize (Hw _ _ Hj); simpl in *; unfold commit_item in Hc;
    repeat case_decide; simplify_eq; try done; by apply item_wf_status.
Qed.

Lemma alter_insert_Some (f : PeerPoolItem → PeerPoolItem) (k : bytes) (i : PeerPoolItem) (p : PeerPoolMap) : p !! k = Some i → alter f k p = <[k := f i]> p.
Proof.
  intros Hi. apply map_eq. intros x. destruct (decide (k = x)) as [<-|].
  - by rewrite lookup_alter_eq, Hi, lookup_insert_eq.
  - by rewrite lookup_alter_ne, lookup_insert_ne.
Qed.
Lemma alter_None (f : PeerPoolItem → PeerPoolItem) (k : bytes) (p : PeerPoolMap) : p !! k = None → alter f k p = p.
Proof.
  intros Hi. apply map_eq. intros x. destruct (decide (k = x)) as [<-|]; [by rewrite lookup_alter_eq, Hi|by rewrite lookup_alter_ne].
Qed.

Lemma shape_black_all l p : pool_shape p → pool_shape (black_all l p).
Proof.
  unfold black_all. revert p. induction l as [|k l IH]; intros p Hp; cbn [foldl]; [done|]. apply IH.
  destruct (p !! k) as [i|] eqn:Hi.
  - rewrite (alter_insert_Some _ _ i) by done. by apply shape_status.
  - by rewrite alter_None.
Qed.

(** An item under another key than its own is written as if it were under its own. *)
Lemma pool_bytes_rekey k i p :
  pool_shape p → item_wf i → p !! PeerPubkey i = None →
  sink_bytes (<[k := i]> p) = sink_bytes (<[PeerPubkey i := i]> (delete k p)).
Proof.
  intros Hp Hi Hn. unfold sink_bytes. cbn [Serialization PeerPoolMap_ser]. f_equal.
  unfold PeerPoolMap_Serialization at 1. apply PeerPoolMap_from_perm.
  - by apply shape_insert; [apply shape_delete|..].
  - rewrite <- insert_delete_eq, !map_to_list_insert; [done| |apply lookup_delete_eq].
    destruct (decide (PeerPubkey i = k)) as [<-|]; [apply lookup_delete_eq|by rewrite lookup_delete_ne].
Qed.

Section handlers.
Context `{Hasher} `{Crypto}.
Implicit Types (m : kvmap) (s : NativeService) (g : GovernanceView) (p : PeerPoolMap).

Lemma CheckConsensusSigns_gov (method input : bytes) (address : Address) m g p s b m' s' :
  gov_inv m g p → run (CheckConsensusSigns method input address) (m, s) = (Ok b, (m', s')) →
  gov_inv m' g p ∧ ns_height s' = ns_height s ∧ ns_tx s' = ns_tx s.
Proof.
  intros Hi Hr. apply CheckConsensusSigns_frame in Hr as [(h & [->|[v ->]]) [n ->]]; split; auto with gov.
Qed.

(** An application can be withdrawn. *)
Lemma gov_inv_delete_apply m g p k : gov_inv m g p → gov_inv (delete (peerApply_key k) m) g p.
Proof.
  intros [Hg Hp Hm Ha]. split; [by apply stored_delete; [key_ne|]..|done|].
  intros k' Hk'. unfold kv_at in Hk'. destruct (decide (peerApply_key k' = peerApply_key k)) as [E|E].
  { by rewrite E, lookup_delete_eq in Hk'. }
  rewrite lookup_delete_ne in Hk' by done. destruct (Ha k' Hk') as (a & Hs & ?).
  exists a. split; [|done]. by apply stored_delete.
Qed.

Lemma gov_inv_add_apply m g p k (a : RegisterPeerParam) :
  let m' := <[peerApply_key k := GenRawStorageItem (sink_bytes a)]> m in
  gov_inv m g p → fits m' → hex_decode (rp_PeerPubkey a) = Ok k → p !! rp_PeerPubkey a = None → gov_inv m' g p.
Proof.
  intros m' [Hg Hp Hm Ha] Hf Hk Hn. split; [by apply stored_insert; [key_ne|]..|done|].
  intros k' Hk'. destruct (decide (peerApply_key k' = peerApply_key k)) as [E|E].
  - apply peerApply_key_inj in E as ->. exists a. split_and!; [|done..].
    apply fits_stored; [done|apply lookup_insert_eq|done].
  - unfold kv_at, m' in Hk'. rewrite lookup_insert_ne in Hk' by done. destruct (Ha k' Hk') as (b & Hb & ?).
    exists b. split; [by apply stored_insert|done].
Qed.

(** A new pool for the current view. *)
Lemma gov_inv_put_pool m g p p' v :
  gov_inv m g p → stored (<[peerPool_key (View g) := v]> m) (peerPool_key (View g)) p' →
  gov_step p p' → (∀ k, p !! k = None → p' !! k = None ∨ ∀ a : RegisterPeerParam, ∀ x,
    stored m (peerApply_key x) a → hex_decode (rp_PeerPubkey a) = Ok x → rp_PeerPubkey a ≠ k) →
  gov_inv (<[peerPool_key (View g) := v]> m) g p'.
Proof.
  intros [Hg Hp Hm Ha] Hp' Hst Hn. split; [by apply stored_insert; [key_ne|]|done|by eapply gov_step_min|].
  intros k Hk. unfold kv_at in Hk. rewrite lookup_insert_ne in Hk by key_ne.
  destruct (Ha k Hk) as (a & Has & Hd & Hna). exists a. split_and!; [apply stored_insert; [key_ne|done]|done|].
  destruct (Hn _ Hna) as [?|Hc]; [done|]. by destruct (Hc a k Has Hd).
Qed.

(** Replaces the reads of the current view and pool by the values of the invariant. *)
Ltac use_gov Hi := repeat match goal with
  | Hv : run GetView (_, _) = _ |- _ => rewrite (run_GetView _ _ _ (gi_view _ _ _ Hi)) in Hv; simplify_eq
  | Hv : run (GetPeerPoolMap _) (_, _) = _ |- _ =>
      rewrite (run_GetPeerPoolMap _ _ _ _ (gi_pool _ _ _ Hi)) in Hv; simplify_eq
  end.

Lemma RegisterCandidate_gov m g p s r m' s' :
  gov_inv m g p → fits m' → run RegisterCandidate (m, s) = (Ok r, (m', s')) → gov_inv m' g p.
Proof.
  intros Hi Hfit Hr. unfold RegisterCandidate in Hr. crun Hr.
  destruct (ValidatePeerPubKeyFormat _); [|done..]. crun Hr. destruct x3; [done|]. crun Hr.
  use_gov Hi.
  destruct (_ !! rp_PeerPubkey x) eqn:Hx; [done|]. unfold putPeerApply in Hr. crun Hr.
  by apply gov_inv_add_apply.
Qed.

Lemma UnRegisterCandidate_gov m g p s r m' s' :
  gov_inv m g p → run UnRegisterCandidate (m, s) = (Ok r, (m', s')) → gov_inv m' g p.
Proof.
  intros Hi Hr. unfold UnRegisterCandidate in Hr. crun Hr.
  destruct x1; [|done]. crun Hr. by apply gov_inv_delete_apply.
Qed.

Lemma WhiteNode_gov m g p s r m' s' :
  gov_inv m g p → run WhiteNode (m, s) = (Ok r, (m', s')) → gov_inv m' g p.
Proof.
  intros Hi Hr. unfold WhiteNode in Hr. crun Hr.
  apply (CheckConsensusSigns_gov _ _ _ _ g p) in Hr1 as [Hi' _]; [|done].
  destruct (negb _); crun Hr; auto with gov.
Qed.

Lemma UpdateConfig_gov m g p s r m' s' :
  gov_inv m g p → run UpdateConfig (m, s) = (Ok r, (m', s')) → gov_inv m' g p.
Proof. intros Hi Hr. unfold UpdateConfig in Hr. crun Hr. auto with gov. Qed.

Lemma QuitNode_gov m g p s r m' s' :
  gov_inv m g p → fits m' → run QuitNode (m, s) = (Ok r, (m', s')) → ∃ p', gov_step p p' ∧ gov_inv m' g p'.
Proof.
  intros Hi Hfit Hr. unfold QuitNode in Hr. crun Hr.
  use_gov Hi.
  destruct (_ !! pp_PeerPubkey x) as [i|] eqn:Hx; [|done]. crun Hr.
  apply bool_decide_eq_true in Hg0, Hg1. apply negb_true_iff, bool_decide_eq_false in Hg2.
  pose proof (stored_shape _ _ _ (gi_pool _ _ _ Hi)) as Hsh.
  eexists. split; [by apply (gs_quit _ (pp_PeerPubkey x) i); [..|lia]|].
  eapply gov_inv_put_pool; [done| |by apply (gs_quit _ (pp_PeerPubkey x) i); [..|lia]|].
  - apply pool_fits; [done|apply lookup_insert_eq|by apply shape_status].
  - intros k Hk. left. rewrite lookup_insert_ne; [done|]. intros <-. congruence.
Qed.

Lemma executeCommitDpos_gov m g p s u m' s' :
  gov_inv m g p → is_u32 (ns_height s) → fits m' → run executeCommitDpos (m, s) = (Ok u, (m', s')) →
  ns_height s ≠ gv_Height g ∧
  ∃ g', gov_inv m' g' (commit_pool p) ∧ View g' = u32 (View g + 1) ∧ gv_Height g' = ns_height s.
Proof.
  intros Hi Hh Hfit Hr. rewrite (run_executeCommitDpos m g p) in Hr by apply Hi.
  case_decide as Hne; [done|]. split; [done|]. simplify_eq.
  exists (mkGovernanceView (u32 (View g + 1)) (ns_height s') (tx_hash (ns_tx s'))). split_and!; [|done..].
  pose proof (stored_shape _ _ _ (gi_pool _ _ _ Hi)) as Hsh.
  assert (peerPool_key (u32 (View g + 1)) ≠ peerPool_key (u32 (View g - 1))) as Hpk.
  { intros E. apply peerPool_key_inj in E; [|by apply uwrap_range..]. unfold uwrap in E.
    assert (0 < 2 ^ 32) by done. assert (2 ^ 32 = 4294967296) by done.
    Z.to_euclidean_division_equations. lia. }
  destruct Hi as [Hg Hp Hm Ha]. split; cbn [View].
  - apply fits_stored; [done|apply lookup_insert_eq|]. split; [by apply uwrap_range|done].
  - apply pool_fits; [done| |by apply shape_commit].
    by rewrite lookup_insert_ne by key_ne; rewrite lookup_delete_ne, lookup_insert_eq.
  - eapply gov_step_min; [apply gs_commit|done].
  - intros k Hk. unfold kv_at in Hk. rewrite lookup_insert_ne in Hk by key_ne.
    rewrite lookup_delete_ne, lookup_insert_ne in Hk by key_ne. destruct (Ha k Hk) as (a & Has & Hd & Hn).
    exists a. split_and!; [|done|].
    + apply stored_insert; [key_ne|]. apply stored_delete; [key_ne|]. apply stored_insert; [key_ne|done].
    + unfold commit_pool. by rewrite lookup_omap, Hn.
Qed.

Lemma CommitDpos_gov m g p s r m' s' :
  gov_inv m g p → is_u32 (ns_height s) → fits m' → run CommitDpos (m, s) = (Ok r, (m', s')) →
  ∃ g', gov_inv m' g' (commit_pool p).
Proof.
  intros Hi Hh Hfit Hr. unfold CommitDpos in Hr. crun Hr.
  eapply executeCommitDpos_gov in Hr3 as (_ & g' & ? & _); eauto.
Qed.

(** *** Approval *)

Lemma GetBytesUint32_range (b : bytes) : is_u32 (GetBytesUint32 b).
Proof.
  unfold GetBytesUint32. case_decide as Hb; [unfold in_range; lia|].
  assert (blen b = 4) as Hb4 by lia. pose proof (le_get_range b) as Hrg. by rewrite Hb4 in Hrg.
Qed.

Lemma run_peer_index_inv (k : bytes) m s i m' s' :
  run (peer_index k) (m, s) = (Ok i, (m', s')) →
  s' = s ∧ is_u32 i ∧ ∀ g p, gov_inv m g p → gov_inv m' g p.
Proof.
  intros Hr. unfold peer_index in Hr. crun Hr.
  case_decide; crun Hr; [by auto using GetBytesUint32_range|].
  unfold getCandidateIndex in Hr0. crun Hr0. case_decide; crun Hr0.
  unfold putCandidateIndex in Hr1. crun Hr1. split_and!; [done|apply GetBytesUint32_range|].
  intros g p Hi. auto with gov.
Qed.

(** The application a method reads is the one the invariant speaks of. *)
Lemma GetPeerApply_gov m g p s (k : bytes) peer st :
  gov_inv m g p → run (GetPeerApply k) (m, s) = (Ok (Some peer), st) →
  ∃ key, hex_decode (rp_PeerPubkey peer) = Ok key ∧ p !! rp_PeerPubkey peer = None.
Proof.
  intros Hi Hr. destruct (run_GetPeerApply_inv _ _ _ _ _ Hr) as (_ & key & Hk & Hn).
  destruct (gi_apply _ _ _ Hi key) as (a & Ha & Hd & Hp); [intros E; by apply Hn in E|].
  rewrite (run_GetPeerApply _ _ _ _ _ Hk Ha) in Hr. simplify_eq. eauto.
Qed.

(** The pool after the approval of [item] under the key [k]. *)
Lemma gov_inv_approve m g p k key item :
  let m' := delete (peerApply_key key) (<[peerPool_key (View g) := GenRawStorageItem (sink_bytes (<[k := item]> p))]> m) in
  gov_inv m g p → fits m' → hex_decode (PeerPubkey item) = Ok key → p !! PeerPubkey item = None →
  item_wf item → pi_Status item = CandidateStatus →
  gov_inv m' g (<[PeerPubkey item := item]> (delete k p)).
Proof.
  intros m' Hi Hfit Hk Hn Hwf Hst. unfold m' in *. rewrite delete_insert_ne in * by key_ne.
  pose proof (stored_shape _ _ _ (gi_pool _ _ _ Hi)) as Hsh.
  eapply gov_inv_put_pool; [by apply gov_inv_delete_apply| |by apply gs_approve|].
  - apply pool_fits; [done| |by apply shape_insert; [apply shape_delete|..]].
    by rewrite lookup_insert_eq, pool_bytes_rekey.
  - intros x Hx. destruct (decide (x = PeerPubkey item)) as [->|Hne].
    + right. intros a y Ha Hy E. rewrite E, Hk in Hy. simplify_eq. apply stored_nonempty in Ha.
      unfold kv_at in Ha. by rewrite lookup_delete_eq in Ha.
    + left. rewrite lookup_insert_ne by done. by apply lookup_delete_None; right.
Qed.

Lemma ApproveCandidate_gov m g p s r m' s' :
  gov_inv m g p → fits m' → run ApproveCandidate (m, s) = (Ok r, (m', s')) →
  ∃ p', gov_step p p' ∧ gov_inv m' g p'.
Proof.
  intros Hi Hfit Hr. unfold ApproveCandidate in Hr. crun Hr.
  destruct x1 as [peer|]; [|done]. crun Hr. destruct (GetPeerApply_gov _ _ _ _ _ _ _ Hi Hr1) as (key & Hk & Hn).
  apply (CheckConsensusSigns_gov _ _ _ _ g p) in Hr2 as [Hi1 _]; [|done].
  destruct (negb x1); crun Hr; [by eauto using gs_keep|]. rewrite Hk in Hl. simplify_eq.
  destruct (run_peer_index_inv _ _ _ _ _ _ Hr2) as (-> & Hx & Hi2). specialize (Hi2 _ _ Hi1). use_gov Hi2.
  eexists. split; [|eapply (gov_inv_approve _ _ _ _ _ (mkPeerPoolItem _ _ _ CandidateStatus)); eauto; by split].
  by apply gs_approve.
Qed.

(** *** Black listing *)

Lemma black_peers_inv (l : list bytes) p c m s c' p' m' s' :
  run (cforeach l (c, p) black_peer) (m, s) = (Ok (c', p'), (m', s')) →
  s' = s ∧ p' = black_all l p ∧ ∀ g q, gov_inv m g q → gov_inv m' g q.
Proof.
  revert p c m. induction l as [|k l IH]; intros p c m Hr; cbn [cforeach] in Hr.
  { apply run_CRet_inv in Hr as [E1 E2]. by simplify_eq. }
  change (cbind ?a ?f) with (a ≫= f) in Hr. apply run_bind_inv in Hr as ([c1 p1] & [m1 s1] & H1' & Hr).
  unfold black_peer in H1'. crun H1'. destruct (p !! k) as [i|] eqn:Hi; [|done]. crun H1'.
  apply IH in Hr as (-> & -> & Hg). split_and!; [done| |].
  - unfold black_all. cbn [foldl]. by rewrite (alter_insert_Some _ _ i).
  - intros g q Hq. apply Hg. auto with gov.
Qed.

Lemma black_all_None l p k : p !! k = None → black_all l p !! k = None.
Proof.
  unfold black_all. revert p. induction l as [|x l IH]; intros p Hk; cbn [foldl]; [done|]. apply IH.
  destruct (decide (x = k)) as [->|]; [by rewrite lookup_alter_eq, Hk|by rewrite lookup_alter_ne].
Qed.

Lemma u32_neighbours v : is_u32 v → u32 (v + 1) ≠ v ∧ u32 (v - 1) ≠ v.
Proof.
  unfold in_range, uwrap. intros Hv. assert (2 ^ 32 = 4294967296) as E by done. rewrite E in *.
  split; Z.to_euclidean_division_equations; lia.
Qed.

Lemma ro_commit_step p kv : read_only (commit_step p kv).
Proof. destruct kv as [k i]. unfold commit_step. solve_ro. Qed.
#[local] Hint Resolve ro_commit_step : ro.

(** The pool of the view that ends stays in the store. *)
Lemma executeCommitDpos_keeps m g s u m' s' :
  stored m (nm_key [GOVERNANCE_VIEW]) g → run executeCommitDpos (m, s) = (Ok u, (m', s')) →
  m' !! peerPool_key (View g) = m !! peerPool_key (View g).
Proof.
  intros Hg Hr. destruct Hg as (Hg1 & [Hv Hh] & Hg2). destruct (u32_neighbours _ Hv) as [Hn1 Hn2].
  unfold executeCommitDpos in Hr. crun Hr. rewrite (run_GetGovernanceView _ g) in Hr0 by done. simplify_eq.
  case_decide; [done|]. crun Hr.
  rewrite lookup_insert_ne, lookup_delete_ne, lookup_insert_ne; [done|..].
  - intros E. apply peerPool_key_inj in E; [done|by apply uwrap_range|done].
  - intros E. apply peerPool_key_inj in E; [done|by apply uwrap_range|done].
  - key_ne.
Qed.

Lemma BlackNode_gov m g p s r m' s' :
  gov_inv m g p → is_u32 (ns_height s) → fits m' → run BlackNode (m, s) = (Ok r, (m', s')) →
  ∃ g' p', gov_step p p' ∧ gov_inv m' g' p'.
Proof.
  intros Hi Hh Hfit Hr. unfold BlackNode in Hr. crun Hr. use_gov Hi.
  apply negb_true_iff, bool_decide_eq_false in Hg0.
  apply (CheckConsensusSigns_gov _ _ _ _ g _ _ _ _ _ Hi) in Hr3 as (Hi1 & Hh1 & _). rewrite <- Hh1 in Hh.
  destruct (negb x5); [crun Hr; by eauto using gs_keep|].
  apply run_bind_inv in Hr as ([c p'] & [m1 s1] & Hb & Hr).
  apply black_peers_inv in Hb as (-> & -> & Hi2). specialize (Hi2 _ _ Hi1).
  pose proof (stored_shape _ _ _ (gi_pool _ _ _ Hi)) as Hsh. crun Hr.
  assert (MIN_PEER_NUM + blen (PeerPubkeyList x) ≤ count_active x2) as Hmin by lia.
  assert (∀ m2, m2 !! peerPool_key (View g) = Some (GenRawStorageItem (sink_bytes (black_all (PeerPubkeyList x) x2))) →
    fits m2 → gov_inv (<[peerPool_key (View g) := GenRawStorageItem (sink_bytes (black_all (PeerPubkeyList x) x2))]> m1) g
      (black_all (PeerPubkeyList x) x2)) as Hput.
  { intros m2 E Hf2. eapply gov_inv_put_pool; [done| |by apply gs_black|intros k Hk; left; by apply black_all_None].
    assert (stored m2 (peerPool_key (View g)) (black_all (PeerPubkeyList x) x2)) as (? & ? & ?)
      by (apply pool_fits; [done..|by apply shape_black_all]).
    split_and!; [|done..]. unfold kv_at. by rewrite lookup_insert_eq. }
  destruct c.
  - apply run_cwrap_ok in Hr1.
    assert (stored (<[peerPool_key (View g) := GenRawStorageItem (sink_bytes (black_all (PeerPubkeyList x) x2))]> m1)
      (nm_key [GOVERNANCE_VIEW]) g) as Hv by (apply stored_insert; [key_ne|apply Hi2]).
    pose proof (executeCommitDpos_keeps _ _ _ _ _ _ Hv Hr1) as Hkeep. rewrite lookup_insert_eq in Hkeep.
    eapply executeCommitDpos_gov in Hr1 as (_ & g' & Hg' & _); [|by eapply Hput|done..].
    eauto using gs_black_commit.
  - crun Hr1. exists g, (black_all (PeerPubkeyList x) x2). split; [by apply gs_black|].
    eapply Hput; [apply lookup_insert_eq|done].
Qed.

(** C7 (governance refinement).  From a store that holds a governance state with at
    least four active peers, every method of the node manager except the genesis
    one that succeeds is a step of the abstract pool ([gov_step]: an active peer
    quits while more than four are left, an applicant joins as a candidate, listed
    peers are blacked while four others are left, the view changes) and leaves a
    store that again holds a governance state with at least four active peers. *)
Theorem node_manager_refines (name : bytes) (h : Handler) m g p s r m' s' :
  (name, h) ∈ RegisterNodeManagerContract → name ≠ gs "initConfig" →
  gov_inv m g p → is_u32 (ns_height s) → fits m' → run h (m, s) = (Ok r, (m', s')) →
  ∃ g' p', gov_step p p' ∧ gov_inv m' g' p'.
Proof.
  intros Hin Hname Hi Hh Hf Hr. unfold RegisterNodeManagerContract in Hin.
  repeat (apply elem_of_cons in Hin as [E|Hin]; [injection E as -> ->; try done|]); [..|by apply not_elem_of_nil in Hin].
  - exists g, p. split; [apply gs_keep|]. by eapply RegisterCandidate_gov.
  - exists g, p. split; [apply gs_keep|]. by eapply UnRegisterCandidate_gov.
  - eapply QuitNode_gov in Hr as (? & ? & ?); eauto.
  - eapply ApproveCandidate_gov in Hr as (? & ? & ?); eauto.
  - by eapply BlackNode_gov in Hr.
  - exists g, p. split; [apply gs_keep|]. by eapply WhiteNode_gov.
  - exists g, p. split; [apply gs_keep|]. by eapply UpdateConfig_gov.
  - eapply CommitDpos_gov in Hr as (? & ?); eauto using gs_commit.
Qed.

End handlers.

(** ** A concrete governance state: five consensus peers in view 1 *)

Definition ex_peer (i : Z) : PeerPoolItem := mkPeerPoolItem i (ex_hex i) (ex_addr i) ConsensusStatus.
Definition ex_pool : PeerPoolMap := list_to_map ((λ i, (ex_hex i, ex_peer i)) <$> [1; 2; 3; 4; 5]).
Definition ex_view : GovernanceView := mkGovernanceView 1 0 (zero_array 32).
Definition ex_gov : kvmap :=
  <[nm_key [GOVERNANCE_VIEW] := GenRawStorageItem (sink_bytes ex_view)]>
  (<[peerPool_key 1 := GenRawStorageItem (sink_bytes ex_pool)]> ∅).

Lemma ex_pool_wf : pool_wf ex_pool.
Proof. split_and!; [refine (bool_decide_unpack _ _); by vm_compute..|]. unfold in_range. vm_compute. by split. Qed.

Lemma ex_gov_view : stored ex_gov (nm_key [GOVERNANCE_VIEW]) ex_view.
Proof. split_and!; [done| |by vm_compute]. split; unfold in_range; vm_compute; by split. Qed.
Lemma ex_gov_pool : stored ex_gov (peerPool_key 1) ex_pool.
Proof. split_and!; [by vm_compute|apply ex_pool_wf|by vm_compute]. Qed.

Lemma ex_gov_inv : gov_inv ex_gov ex_view ex_pool.
Proof.
  split; [apply ex_gov_view|apply ex_gov_pool|by vm_compute|].
  intros k Hk. destruct Hk. unfold kv_at, ex_gov. rewrite lookup_insert_ne by key_ne. by rewrite lookup_insert_ne by key_ne.
Qed.

Definition ex_quit_call : NativeService := ex_service 5 7 (sink_bytes (mkPeerParam (ex_hex 5) (ex_addr 5))).

Lemma node_manager_refines_witness :
  ∃ m' s', run QuitNode (ex_gov, ex_quit_call) = (Ok BYTE_TRUE, (m', s')) ∧
    ∃ g' p', gov_step ex_pool p' ∧ gov_inv m' g' p'.
Proof.
  destruct (run QuitNode (ex_gov, ex_quit_call)) as [r [m' s']] eqn:E.
  assert (r = Ok BYTE_TRUE) as -> by (by run_compute E).
  assert (map_Forall (λ _ v, blen v < 2 ^ 63) m') as Hf by (by run_compute E).
  exists m', s'. split; [reflexivity|].
  apply (node_manager_refines (gs "quitNode") QuitNode ex_gov ex_view ex_pool ex_quit_call BYTE_TRUE m' s').
  - by apply (list_elem_of_lookup_2 _ 3).
  - by vm_compute.
  - apply ex_gov_inv.
  - unfold in_range. simpl. lia.
  - exact Hf.
  - exact E.
Defined.
