(* ===== verification/NodeApproval.v ===== *)
(** * Approval by a quorum, and the genesis of governance

    Signatures for one action are collected until two thirds of the consensus peers
    have signed; the action is then approved once and the collection starts anew. *)

From S2P Require Import Prelude Sha256 Sink Source Serialization BytesOrder MemDB OverlayDB CacheDB Contract MerkleSpec MerkleHasher Native ExCrypto Codec NodeStates NodeManager NodeInv NodeGov.

(** The set of signers after the calls of [l], as the contract stores it. *)
Definition signers (l : list Address) : ConsensusSigns := foldl (λ m a, <[a := true]> m) ∅ l.

Lemma signers_snoc l a : signers (l ++ [a]) = <[a := true]> (signers l).
Proof. unfold signers. by rewrite foldl_app. Qed.

Lemma signers_lookup l a : is_Some (signers l !! a) ↔ a ∈ l.
Proof.
  induction l as [|x l IH] using rev_ind.
  { unfold signers. cbn [foldl]. rewrite elem_of_nil, lookup_empty. split; [by intros [??]|done]. }
  rewrite signers_snoc, elem_of_app, list_elem_of_singleton, <- IH.
  destruct (decide (x = a)) as [->|].
  - rewrite lookup_insert_eq. split; [by right|by eauto].
  - rewrite lookup_insert_ne by done. naive_solver.
Qed.

Lemma size_signers l : (size (signers l) ≤ length l)%nat.
Proof.
  induction l as [|x l IH] using rev_ind; [done|]. rewrite signers_snoc, length_app. cbn [length].
  destruct (signers l !! x) eqn:E.
  - rewrite map_size_insert_Some by eauto. lia.
  - rewrite map_size_insert_None by done. lia.
Qed.

Lemma blen_signs (signs : ConsensusSigns) : blen (sink_bytes signs) ≤ 9 + 22 * Z.of_nat (size signs).
Proof.
  unfold sink_bytes. cbn [Serialization ConsensusSigns_ser]. unfold ConsensusSigns_Serialization, ConsensusSigns_from.
  rewrite enc_ops_cons, length_app. cbn [enc_op].
  assert (blen (enc_varuint (blen (map_to_list signs))) ≤ 9) as H1.
  { rewrite length_enc_varuint. unfold varuint_size. repeat case_decide; lia. }
  set (l := sort_desc _ _ _). assert (length l = size signs) as Hl.
  { unfold l. by rewrite sort_desc_perm, length_map_to_list. }
  rewrite <- Hl. clearbody l. clear Hl. enough (blen (enc_ops (enc_list (λ kv : Address * bool, [OpVarAddress kv.1; OpBool kv.2]) l)) = 22 * Z.of_nat (length l)) by lia.
  rewrite enc_ops_list. clear. induction l as [|[a b] l IH]; [done|]. cbn [fmap list_fmap length].
  change (mjoin (?x :: ?y)) with (x ++ mjoin y). rewrite length_app.
  assert (length (enc_ops [OpVarAddress (a, b).1; OpBool (a, b).2]) = 22%nat); [|lia].
  rewrite !enc_ops_cons, enc_ops_nil, app_nil_r. unfold OpVarAddress. cbn [enc_op fst snd].
  by rewrite !length_app, length_to_slice.
Qed.

Section approval.
Context `{Hasher} `{Crypto}.
Implicit Types (m : kvmap) (s : NativeService) (p : PeerPoolMap).

(** A sequence of calls for the same action. *)
Fixpoint sign_all (method input : bytes) (l : list Address) : contract NativeService (list bool) :=
  match l with
  | [] => mret []
  | a :: l' =>
      b ← CheckConsensusSigns method input a;
      bs ← sign_all method input l';
      mret (b :: bs)
  end.

Lemma quorum_mono p (s1 s2 : ConsensusSigns) :
  (∀ a, is_Some (s1 !! a) → is_Some (s2 !! a)) → quorum p s1 → quorum p s2.
Proof.
  intros Hs. unfold quorum, signed_num. intros Hq. etransitivity; [exact Hq|]. apply inj_le, map_subseteq_size.
  apply map_subseteq_spec. intros k i. rewrite !map_lookup_filter_Some. intros [Hk [Hc Hi]]. split; [done|].
  split; [done|]. destruct (peer_address _) as [a|]; [|by destruct Hi]. simpl in *. auto.
Qed.

(** The state after the calls of [l0], none of which reached the quorum. *)
Definition collecting m (g : GovernanceView) p (h : Uint256) (l0 : list Address) : Prop :=
  stored m (nm_key [GOVERNANCE_VIEW]) g ∧ stored m (peerPool_key (View g)) p ∧ peers_parse p ∧
  signs_at m h (signers l0).

Lemma collecting_put m g p h l0 : collecting m g p h l0 → ∀ a, blen l0 < 2 ^ 32 →
  collecting (<[signs_key h := GenRawStorageItem (sink_bytes (signers (l0 ++ [a])))]> m) g p h (l0 ++ [a]).
Proof.
  intros (Hg & Hp & Hpp & Hs) a Hl. split_and!; [by apply stored_insert; [key_ne|]..|done|]. right.
  pose proof (size_signers (l0 ++ [a])) as Hsz. rewrite length_app in Hsz. cbn [length] in Hsz.
  pose proof (blen_signs (signers (l0 ++ [a]))).
  split_and!; [unfold kv_at; by rewrite lookup_insert_eq|cbn; unfold in_range; lia|lia].
Qed.

Lemma run_sign_all m g p method input l0 l a s :
  collecting m g p (Sum256 (method ++ input)) l0 →
  blen (l0 ++ l) < 2 ^ 32 → (¬ quorum p (signers (l0 ++ l))) →
  ∃ m' s', run (sign_all method input (l ++ [a])) (m, s) =
    (Ok (replicate (length l) false ++ [bool_decide (quorum p (signers (l0 ++ l ++ [a])))]), (m', s')) ∧
    (quorum p (signers (l0 ++ l ++ [a])) → kv_at m' (signs_key (Sum256 (method ++ input))) = []).
Proof.
  revert m l0 s. induction l as [|x l IH]; intros m l0 s Hcol Hl Hnq; cbn [app sign_all replicate].
  - destruct Hcol as (Hg & Hp & Hpp & Hs).
    pose proof (run_CheckConsensusSigns m g p (signers l0) method input a s Hg Hp Hpp Hs) as E. cbv zeta in E.
    rewrite (run_bind_ok _ _ _ _ _ E), <- signers_snoc. cbn. eexists _, _. split; [done|].
    intros Hq. rewrite decide_True by done. unfold kv_at. by rewrite lookup_delete_eq.
  - assert (¬ quorum p (signers (l0 ++ [x]))) as Hnq'.
    { intros Hq. apply Hnq. eapply quorum_mono; [|exact Hq]. intros b. rewrite !signers_lookup. set_solver. }
    pose proof Hcol as (Hg & Hp & Hpp & Hs).
    pose proof (run_CheckConsensusSigns m g p (signers l0) method input x s Hg Hp Hpp Hs) as E. cbv zeta in E.
    rewrite <- signers_snoc, bool_decide_false, decide_False in E by done.
    rewrite (run_bind_ok _ _ _ _ _ E). rewrite cons_middle, app_assoc in Hl, Hnq.
    destruct (IH _ (l0 ++ [x]) (ns_set_notifications (ns_notifications s ++ [signs_notify (signers (l0 ++ [x]))]) s)
      (collecting_put _ _ _ _ _ Hcol x ltac:(rewrite !length_app in Hl; lia)) Hl Hnq) as (m' & s' & E2 & Hq).
    rewrite (run_bind_ok _ _ _ _ _ E2). exists m', s'. rewrite <- !app_assoc in *. done.
Qed.

End approval.

(** C25 (approval at the quorum).  Peers and others sign one action in any order,
    repeatedly or not.  As long as the signers hold less than two thirds of the
    consensus peers of the view every call is answered with false; the first call
    that reaches two thirds, and no earlier one, is answered with true, and the
    collected signatures are gone afterwards. *)
Theorem approval_at_quorum `{Hasher} `{Crypto} (m : kvmap) (g : GovernanceView) (p : PeerPoolMap)
    (method input : bytes) (l : list Address) (a : Address) (s : NativeService) :
  stored m (nm_key [GOVERNANCE_VIEW]) g → stored m (peerPool_key (View g)) p → peers_parse p →
  kv_at m (signs_key (Sum256 (method ++ input))) = [] →
  blen l < 2 ^ 32 → (¬ quorum p (signers l)) →
  ∃ m' s', run (sign_all method input (l ++ [a])) (m, s) =
    (Ok (replicate (length l) false ++ [bool_decide (quorum p (signers (l ++ [a])))]), (m', s')) ∧
    (quorum p (signers (l ++ [a])) → kv_at m' (signs_key (Sum256 (method ++ input))) = []).
Proof. intros. apply (run_sign_all m g p method input [] l a s); [|done..]. split_and!; [done..|]. by left. Qed.

Definition approve_key : bytes := gs "approveCandidate" ++ ex_hex 6.

Lemma ex_peers_parse : peers_parse ex_pool.
Proof.
  intros k i Hk _. refine (bool_decide_unpack (map_Forall (λ k _, is_Some (peer_address k)) ex_pool) _ k i Hk).
  by vm_compute.
Qed.

(** Three of the five peers and a stranger sign, then the fourth peer. *)
Lemma approval_at_quorum_witness :
  quorum ex_pool (signers [ex_addr 1; ex_addr 9; ex_addr 2; ex_addr 3; ex_addr 4]) ∧
  ∃ m' s', run (sign_all (gs "approveCandidate") (ex_hex 6) ([ex_addr 1; ex_addr 9; ex_addr 2; ex_addr 3] ++ [ex_addr 4]))
      (ex_gov, ex_service 1 7 []) =
    (Ok (replicate 4 false ++ [bool_decide (quorum ex_pool (signers [ex_addr 1; ex_addr 9; ex_addr 2; ex_addr 3; ex_addr 4]))]),
      (m', s')) ∧
    (quorum ex_pool (signers [ex_addr 1; ex_addr 9; ex_addr 2; ex_addr 3; ex_addr 4]) →
      kv_at m' (signs_key (Sum256 approve_key)) = []).
Proof.
  split; [refine (bool_decide_unpack _ _); by vm_compute|].
  apply (approval_at_quorum ex_gov ex_view ex_pool (gs "approveCandidate") (ex_hex 6)
    [ex_addr 1; ex_addr 9; ex_addr 2; ex_addr 3] (ex_addr 4) (ex_service 1 7 [])).
  - apply ex_gov_view.
  - apply ex_gov_pool.
  - apply ex_peers_parse.
  - by vm_compute.
  - by vm_compute.
  - refine (bool_decide_unpack _ _). by vm_compute.
Defined.

(** ** Genesis of the governance state

    What [InitConfig] writes for a configuration that passes the checks. *)

Section init.
Context `{Hasher} `{Crypto}.
Implicit Types (m : kvmap) (s : NativeService) (p : PeerPoolMap) (peers : list VBFTPeerInfo).

(** The owner of a configured peer. *)
Definition peer_owner (peer : VBFTPeerInfo) : Address :=
  match AddressFromBase58 (vp_Address peer) with Ok a => a | _ => ADDRESS_EMPTY end.
Definition config_item (peer : VBFTPeerInfo) : PeerPoolItem :=
  mkPeerPoolItem (vp_Index peer) (vp_PeerPubkey peer) (peer_owner peer) ConsensusStatus.
(** The pool of a configuration: all its peers, as consensus peers. *)
Definition config_pool peers : PeerPoolMap := map_of_list ((λ q, (vp_PeerPubkey q, config_item q)) <$> peers).

Definition peer_valid (peer : VBFTPeerInfo) : Prop :=
  0 < vp_Index peer ∧ is_Some (match AddressFromBase58 (vp_Address peer) with Ok a => Some a | _ => None end) ∧
  is_Some (match hex_decode (vp_PeerPubkey peer) with Ok k => Some k | _ => None end).

(** What the check of a configuration guarantees. *)
Lemma check_peers_ok indexMap pubkeys peers u :
  check_peers indexMap pubkeys peers = Ok u →
  Forall peer_valid peers ∧ NoDup (vp_Index <$> peers) ∧ NoDup (vp_PeerPubkey <$> peers) ∧
  (∀ q, q ∈ peers → (vp_Index q ∉ indexMap) ∧ (vp_PeerPubkey q ∉ pubkeys)).
Proof.
  revert indexMap pubkeys. induction peers as [|q peers IH]; intros im pk; simpl.
  { intros _. split_and!; try constructor; set_solver. }
  case_decide; [done|]. case_decide; [done|]. case_decide; [done|].
  destruct (ValidatePeerPubKeyFormat _) eqn:Hv; [|done..].
  destruct (AddressFromBase58 _) as [ad| |] eqn:Ha; [|done..].
  intros Hc. apply IH in Hc as (Hf & Hn1 & Hn2 & Hd). split_and!.
  - constructor; [|done]. unfold peer_valid. rewrite Ha. unfold ValidatePeerPubKeyFormat, Pubkey in Hv.
    destruct (hex_decode _); [|done..]. split_and!; [lia|done..].
  - constructor; [|done]. intros (x & Hx & Hin)%list_elem_of_fmap. destruct (Hd x Hin) as [Hd1 _]. set_solver.
  - constructor; [|done]. intros (x & Hx & Hin)%list_elem_of_fmap. destruct (Hd x Hin) as [_ Hd2]. set_solver.
  - intros x Hx. apply elem_of_cons in Hx as [->|Hx]; [done|]. specialize (Hd x Hx). set_solver.
Qed.

Lemma CheckVBFTConfig_ok c u :
  CheckVBFTConfig c = Ok u →
  Forall peer_valid (Peers c) ∧ NoDup (vp_Index <$> Peers c) ∧ NoDup (vp_PeerPubkey <$> Peers c).
Proof.
  unfold CheckVBFTConfig. repeat (case_decide; [done|]). intros Hc.
  apply check_peers_ok in Hc as (? & ? & ? & _). done.
Qed.

Lemma run_init_peers peers n p m s :
  Forall peer_valid peers →
  ∃ n' m', run (cforeach peers (n, p) init_peer) (m, s) =
    (Ok (n', foldl (λ p kv, <[kv.1 := kv.2]> p) p ((λ q, (vp_PeerPubkey q, config_item q)) <$> peers)), (m', s)) ∧
    ∀ k, (∀ x, k ≠ peerIndex_key x) → m' !! k = m !! k.
Proof.
  intros Hf. revert n p m. induction Hf as [|q peers Hq Hf IH]; intros n p m; cbn [cforeach].
  { eexists _, _. by split. }
  change (cbind ?a ?f) with (a ≫= f). destruct Hq as (_ & [a Ha] & [k Hk]).
  destruct (AddressFromBase58 (vp_Address q)) as [a'| |] eqn:Ea; [|done..]. simplify_eq.
  destruct (hex_decode (vp_PeerPubkey q)) as [k'| |] eqn:Ek; [|done..]. simplify_eq.
  erewrite run_bind_ok.
  2:{ unfold init_peer. rewrite Ea. cbn [PeerPubkey Index lift_res cwrap mbind contract_bind cbind].
      rewrite Ek. cbn. done. }
  match goal with |- context [run (cforeach peers (?n1, ?p1) init_peer) (?m1, s)] =>
    destruct (IH n1 p1 m1) as (n' & m' & E & Hm) end.
  rewrite E. exists n', m'. split.
  - cbn [fmap list_fmap foldl fst snd]. unfold config_item at 2, peer_owner. by rewrite Ea.
  - intros x Hx. rewrite Hm by done. rewrite lookup_insert_ne; [done|]. intros <-. by eapply Hx.
Qed.

(** Genesis.  A configuration that passes [CheckVBFTConfig] is installed in any
    store whose bare [PEER_POOL] key is unset, whatever else the store holds: the
    pool of view 1 becomes the configured peers, all in consensus, under the view
    of this call.  The call does not set the key that its own guard reads. *)
Lemma InitConfig_effect (c : VBFTConfig) m s :
  (VBFTConfig_Deserialization (NewZeroCopySource (ns_input s))).1 = Ok c → CheckVBFTConfig c = Ok tt →
  kv_at m (nm_key [PEER_POOL]) = [] →
  ∃ m', run InitConfig (m, s) = (Ok BYTE_TRUE, (m', s)) ∧
    kv_at m' (nm_key [GOVERNANCE_VIEW]) =
      GenRawStorageItem (sink_bytes (mkGovernanceView 1 (ns_height s) (tx_hash (ns_tx s)))) ∧
    kv_at m' (peerPool_key 1) = GenRawStorageItem (sink_bytes (config_pool (Peers c))) ∧
    (∀ q, q ∈ Peers c → config_pool (Peers c) !! vp_PeerPubkey q = Some (config_item q)) ∧
    kv_at m' (nm_key [PEER_POOL]) = [].
Proof.
  intros Hd Hc Hk. destruct (CheckVBFTConfig_ok c _ Hc) as (Hf & _ & Hnd). unfold InitConfig.
  erewrite run_bind_ok by apply run_cask. rewrite Hd. cbn [lift_res cwrap].
  change (CRet c ≫= ?f) with (f c). cbv beta.
  erewrite run_bind_ok; [|by apply run_cwrap_ok, run_cget].
  rewrite bool_decide_true by done. cbn [cguard]. change (CRet tt ≫= ?f) with (f tt). cbv beta.
  rewrite Hc. cbn [lift_res cwrap]. change (CRet tt ≫= ?f) with (f tt). cbv beta zeta.
  destruct (run_init_peers (Peers c) 0 ∅ m s Hf) as (n' & m1 & E & Hm).
  rewrite (run_bind_ok _ _ _ _ _ E). cbv beta iota. clear E.
  eexists. split; [reflexivity|]. cbn [fst snd].
  assert (nm_key [PEER_POOL] ≠ peerPool_key 0 ∧ nm_key [PEER_POOL] ≠ peerPool_key 1) as [Hp0 Hp1] by (split; key_ne).
  unfold kv_at. split_and!.
  - rewrite lookup_insert_ne by key_ne. by rewrite lookup_insert_eq.
  - do 3 rewrite lookup_insert_ne by key_ne. by rewrite lookup_insert_eq.
  - intros q Hq. unfold config_pool. rewrite map_of_list_nodup by (by rewrite <- list_fmap_compose).
    apply elem_of_list_to_map_1; [by rewrite <- list_fmap_compose|].
    apply list_elem_of_fmap. by exists q.
  - do 3 rewrite lookup_insert_ne by key_ne. rewrite !lookup_insert_ne by done. rewrite Hm by (intros ?; key_ne). done.
Qed.

End init.

(** A store that already holds five peers accepts a configuration of one other peer. *)
Definition ex_config_input : bytes :=
  enc_ops [OpUint32 5000; OpUint32 5000; OpUint32 10; OpUint32 10000; OpString (replicate 128 Byte.x01);
           OpString (replicate 128 Byte.x01); OpVarUint 1; OpUint32 1; OpString (ex_hex 9); OpAddress (ex_addr 9)].
Definition ex_config : VBFTConfig :=
  mkVBFTConfig 5000 5000 10 10000 (replicate 128 Byte.x01) (replicate 128 Byte.x01)
    [mkVBFTPeerInfo 1 (ex_hex 9) (ToBase58 (ex_addr 9))].

Lemma InitConfig_effect_example :
  ∃ m', run InitConfig (ex_gov, ex_service 9 7 ex_config_input) = (Ok BYTE_TRUE, (m', ex_service 9 7 ex_config_input)) ∧
    kv_at m' (nm_key [GOVERNANCE_VIEW]) = GenRawStorageItem (sink_bytes (mkGovernanceView 1 7 (zero_array 32))) ∧
    kv_at m' (peerPool_key 1) = GenRawStorageItem (sink_bytes (config_pool (Peers ex_config))) ∧
    (∀ q, q ∈ Peers ex_config → config_pool (Peers ex_config) !! vp_PeerPubkey q = Some (config_item q)) ∧
    kv_at m' (nm_key [PEER_POOL]) = [].
Proof.
  apply (InitConfig_effect ex_config ex_gov (ex_service 9 7 ex_config_input)); by vm_compute.
Defined.
