(* ===== verification/CrossCommon.v ===== *)
(** * Data shared by the cross-chain handlers
    (cross_chain_manager/common/param.go, utils.go)

    The parameters of the contract's methods, the message that is committed to the
    block's cross-state tree, the record of finished transfers and the list of
    blocked chains. *)

From S2P Require Import Prelude Sha256 Sink Source Serialization BytesOrder MemDB OverlayDB CacheDB Contract MerkleSpec MerkleHasher Native ExCrypto Codec NodeStates NodeManager NodeInv.

(** ** param.go *)

Record InitRedeemScriptParam := mkInitRedeemScriptParam { RedeemScript : bytes }.
Definition InitRedeemScriptParam_Serialization (p : InitRedeemScriptParam) : list sink_op := [OpString (RedeemScript p)].
Definition InitRedeemScriptParam_Deserialization : M ZeroCopySource InitRedeemScriptParam :=
  redeemScript ← must "MultiSignParam deserialize redeemScript error" NextString;
  mret (mkInitRedeemScriptParam redeemScript).

Record EntranceParam := mkEntranceParam {
  SourceChainID : Z;
  ep_Height : Z;
  Proof_ : bytes;
  RelayerAddress : bytes;
  Extra : bytes;
  HeaderOrCrossChainMsg : bytes;
}.
Definition EntranceParam_Serialization (p : EntranceParam) : list sink_op :=
  [OpUint64 (SourceChainID p); OpUint32 (ep_Height p); OpVarBytes (Proof_ p); OpVarBytes (RelayerAddress p);
   OpVarBytes (Extra p); OpVarBytes (HeaderOrCrossChainMsg p)].
Definition EntranceParam_Deserialization : M ZeroCopySource EntranceParam :=
  sourceChainID ← must "EntranceParam deserialize sourcechainid error" NextUint64;
  height ← must "EntranceParam deserialize height error" NextUint32;
  proof ← must "EntranceParam deserialize proof error" NextVarBytes;
  relayerAddr ← must "EntranceParam deserialize relayerAddr error" NextVarBytes;
  extra ← must "EntranceParam deserialize txdata error" NextVarBytes;
  headerOrCrossChainMsg ← must "EntranceParam deserialize headerOrCrossChainMsg error" NextVarBytes;
  mret (mkEntranceParam sourceChainID height proof relayerAddr extra headerOrCrossChainMsg).

Record MakeTxParam := mkMakeTxParam {
  TxHash : bytes;
  CrossChainID : bytes;
  FromContractAddress : bytes;
  ToChainID : Z;
  ToContractAddress : bytes;
  mt_Method : bytes;
  mt_Args : bytes;
}.
#[export] Instance MakeTxParam_eq_dec : EqDecision MakeTxParam.
Proof. solve_decision. Defined.
Definition MakeTxParam_Serialization (p : MakeTxParam) : list sink_op :=
  [OpVarBytes (TxHash p); OpVarBytes (CrossChainID p); OpVarBytes (FromContractAddress p);
   OpUint64 (ToChainID p); OpVarBytes (ToContractAddress p); OpVarBytes (mt_Method p); OpVarBytes (mt_Args p)].
Definition MakeTxParam_Deserialization : M ZeroCopySource MakeTxParam :=
  txHash ← must "MakeTxParam deserialize txHash error" NextVarBytes;
  crossChainID ← must "MakeTxParam deserialize crossChainID error" NextVarBytes;
  fromContractAddress ← must "MakeTxParam deserialize fromContractAddress error" NextVarBytes;
  toChainID ← must "MakeTxParam deserialize toChainID error" NextUint64;
  toContractAddress ← must "MakeTxParam deserialize toContractAddress error" NextVarBytes;
  method ← must "MakeTxParam deserialize method error" NextString;
  args ← must "MakeTxParam deserialize args error" NextVarBytes;
  mret (mkMakeTxParam txHash crossChainID fromContractAddress toChainID toContractAddress method args).

Record MakeTxParamWithSender := mkMakeTxParamWithSender { Sender : Address; ws_param : MakeTxParam }.
Definition MakeTxParamWithSender_Serialization (p : MakeTxParamWithSender) : list sink_op :=
  OpAddress (Sender p) :: MakeTxParam_Serialization (ws_param p).
Definition MakeTxParamWithSender_Deserialization : M ZeroCopySource MakeTxParamWithSender :=
  addr ← must "MakeTxParamWithSender NextAddress fail" NextAddress;
  param ← MakeTxParam_Deserialization;
  mret (mkMakeTxParamWithSender addr param).

Record MultiSignParam := mkMultiSignParam {
  ms_ChainID : Z;
  RedeemKey : bytes;
  ms_TxHash : bytes;
  ms_Address : bytes;
  Signs : list bytes;
}.
Definition MultiSignParam_Serialization (p : MultiSignParam) : list sink_op :=
  [OpUint64 (ms_ChainID p); OpString (RedeemKey p); OpVarBytes (ms_TxHash p); OpVarBytes (ms_Address p);
   OpUint64 (blen (Signs p))] ++ enc_list (λ v, [OpVarBytes v]) (Signs p).
Definition MultiSignParam_Deserialization : M ZeroCopySource MultiSignParam :=
  chainID ← must "MultiSignParam deserialize txHash error" NextUint64;
  redeemKey ← must "MultiSignParam deserialize redeemKey error" NextString;
  txHash ← must "MultiSignParam deserialize txHash error" NextVarBytes;
  address ← must "MultiSignParam deserialize address error" NextString;
  n ← must "MultiSignParam deserialize signs length error" NextUint64;
  signs ← loopM n (must "deserialize Signs error" NextVarBytes);
  mret (mkMultiSignParam chainID redeemKey txHash address signs).

Record ToMerkleValue := mkToMerkleValue { mv_TxHash : bytes; FromChainID : Z; mv_MakeTxParam : MakeTxParam }.
Definition ToMerkleValue_Serialization (v : ToMerkleValue) : list sink_op :=
  [OpVarBytes (mv_TxHash v); OpUint64 (FromChainID v)] ++ MakeTxParam_Serialization (mv_MakeTxParam v).
Definition ToMerkleValue_Deserialization : M ZeroCopySource ToMerkleValue :=
  txHash ← must "MerkleValue deserialize txHash error" NextVarBytes;
  fromChainID ← must "MerkleValue deserialize fromChainID error" NextUint64;
  makeTxParam ← wrap_err "MerkleValue deserialize makeTxParam error:" MakeTxParam_Deserialization;
  mret (mkToMerkleValue txHash fromChainID makeTxParam).

Record BlackChainParam := mkBlackChainParam { bc_ChainID : Z }.
Definition BlackChainParam_Serialization (p : BlackChainParam) : list sink_op := [OpVarUint (bc_ChainID p)].
Definition BlackChainParam_Deserialization : M ZeroCopySource BlackChainParam :=
  chainID ← must "BlackChainParam deserialize chainID error" NextVarUint;
  mret (mkBlackChainParam chainID).

(** *** Round trips *)

#[export] Program Instance InitRedeemScriptParam_ser : Serializable InitRedeemScriptParam := {|
  Serialization := InitRedeemScriptParam_Serialization;
  Deserialization := InitRedeemScriptParam_Deserialization;
  ser_wf _ := True;
|}.
Next Obligation. intros [] _. unfold InitRedeemScriptParam_Deserialization, InitRedeemScriptParam_Serialization. solve_roundtrip. Qed.
Next Obligation. unfold InitRedeemScriptParam_Deserialization. solve_total. Qed.

#[export] Program Instance EntranceParam_ser : Serializable EntranceParam := {|
  Serialization := EntranceParam_Serialization;
  Deserialization := EntranceParam_Deserialization;
  ser_wf p := is_u64 (SourceChainID p) ∧ is_u32 (ep_Height p);
|}.
Next Obligation. intros [] [??]. unfold EntranceParam_Deserialization, EntranceParam_Serialization. solve_roundtrip. Qed.
Next Obligation. unfold EntranceParam_Deserialization. solve_total. Qed.

#[export] Program Instance MakeTxParam_ser : Serializable MakeTxParam := {|
  Serialization := MakeTxParam_Serialization;
  Deserialization := MakeTxParam_Deserialization;
  ser_wf p := is_u64 (ToChainID p);
|}.
Next Obligation. intros [] ?. unfold MakeTxParam_Deserialization, MakeTxParam_Serialization. solve_roundtrip. Qed.
Next Obligation. unfold MakeTxParam_Deserialization. solve_total. Qed.

#[export] Program Instance MakeTxParamWithSender_ser : Serializable MakeTxParamWithSender := {|
  Serialization := MakeTxParamWithSender_Serialization;
  Deserialization := MakeTxParamWithSender_Deserialization;
  ser_wf p := ser_wf (ws_param p);
|}.
Next Obligation.
  intros [a p] Hp. unfold MakeTxParamWithSender_Deserialization, MakeTxParamWithSender_Serialization.
  rewrite enc_ops_cons. eapply decodes_must_bind; [apply decodes_NextAddress|].
  eapply decodes_map; [exact (ser_roundtrip p Hp)|done].
Qed.
Next Obligation.
  unfold MakeTxParamWithSender_Deserialization. apply safe_bind; [solve_total|intros].
  apply safe_bind; [exact (ser_safe (A := MakeTxParam))|intros; apply safe_ret].
Qed.

#[export] Program Instance MultiSignParam_ser : Serializable MultiSignParam := {|
  Serialization := MultiSignParam_Serialization;
  Deserialization := MultiSignParam_Deserialization;
  ser_wf p := is_u64 (ms_ChainID p) ∧ is_u64 (blen (Signs p));
|}.
Next Obligation.
  intros [] [??]. unfold MultiSignParam_Deserialization, MultiSignParam_Serialization. cbn [Signs] in *.
  solve_roundtrip. eapply decodes_map; [|done]. apply decodes_list; [done| |intros; apply enc_varbytes_pos].
  intros a _. rewrite enc_ops_cons, enc_ops_nil, app_nil_r. apply decodes_must, decodes_NextVarBytes.
Qed.
Next Obligation.
  unfold MultiSignParam_Deserialization. do 5 (apply safe_bind; [solve_total|intros]).
  apply safe_bind; [apply safe_loopM; auto with safe|intros; apply safe_ret].
Qed.

#[export] Program Instance ToMerkleValue_ser : Serializable ToMerkleValue := {|
  Serialization := ToMerkleValue_Serialization;
  Deserialization := ToMerkleValue_Deserialization;
  ser_wf v := is_u64 (FromChainID v) ∧ ser_wf (mv_MakeTxParam v);
|}.
Next Obligation.
  intros [h f p] [Hf Hp]. cbn [FromChainID mv_MakeTxParam] in *.
  unfold ToMerkleValue_Deserialization, ToMerkleValue_Serialization.
  rewrite enc_ops_app, !enc_ops_cons, enc_ops_nil, app_nil_r, <- app_assoc. cbn [enc_op].
  eapply decodes_must_bind; [by auto with codec|]. eapply decodes_must_bind; [by auto with codec|].
  eapply decodes_map; [apply decodes_wrap; exact (ser_roundtrip p Hp)|done].
Qed.
Next Obligation.
  unfold ToMerkleValue_Deserialization. do 2 (apply safe_bind; [solve_total|intros]).
  apply safe_bind; [apply safe_wrap; exact (ser_safe (A := MakeTxParam))|intros; apply safe_ret].
Qed.

#[export] Program Instance BlackChainParam_ser : Serializable BlackChainParam := {|
  Serialization := BlackChainParam_Serialization;
  Deserialization := BlackChainParam_Deserialization;
  ser_wf p := is_u64 (bc_ChainID p);
|}.
Next Obligation. intros [] ?. unfold BlackChainParam_Deserialization, BlackChainParam_Serialization. solve_roundtrip. Qed.
Next Obligation. unfold BlackChainParam_Deserialization. solve_total. Qed.

(** ** utils.go *)

Definition REQUEST : bytes := gs "request".
Definition DONE_TX : bytes := gs "doneTx".
Definition BLACKED_CHAIN : bytes := gs "BlackedChain".
Definition NOTIFY_MAKE_PROOF : bytes := gs "makeProof".

Definition cc_key (args : list bytes) : bytes := ConcatKey CrossChainManagerContractAddress args.
Definition doneTx_key (chainID : Z) (crossChainID : bytes) : bytes := cc_key [DONE_TX; GetUint64Bytes chainID; crossChainID].
Definition blacked_key (chainID : Z) : bytes := cc_key [BLACKED_CHAIN; GetUint64Bytes chainID].
Definition request_key (chainID : Z) (txHash : bytes) : bytes := cc_key [REQUEST; GetUint64Bytes chainID; txHash].

Section cross_utils.
Context `{Hasher} `{Crypto} (cfg : Config).

Definition NotifyMakeProof (fromChainID toChainID : Z) (txHash key : bytes) : contract NativeService unit :=
  if negb (EnableEventLog cfg) then mret tt else
  height ← cask ns_height;
  AddNotify (mkNotify CrossChainManagerContractAddress
    [NStr NOTIFY_MAKE_PROOF; NInt fromChainID; NInt toChainID; NStr txHash; NInt height; NStr key]).

Definition PutDoneTx (crossChainID : bytes) (chainID : Z) : contract NativeService unit :=
  cput (doneTx_key chainID crossChainID) (GenRawStorageItem crossChainID).

Definition CheckDoneTx (crossChainID : bytes) (chainID : Z) : contract NativeService unit :=
  value ← cwrap "checkDoneTx, native.GetCacheDB().Get error: " (cget (doneTx_key chainID crossChainID));
  cguard (bool_decide (value = [])) "checkDoneTx, tx already done".

Definition PutBlackChain (chainID : Z) : contract NativeService unit :=
  cput (blacked_key chainID) (GenRawStorageItem (GetUint64Bytes chainID)).

Definition CheckIfChainBlacked (chainID : Z) : contract NativeService bool :=
  chainIDStore ← cwrap "CheckBlackChain, get black chainIDStore error: " (cget (blacked_key chainID));
  mret (negb (bool_decide (chainIDStore = []))).

Definition RemoveBlackChain (chainID : Z) : contract NativeService unit := cdel (blacked_key chainID).

End cross_utils.
