(* ===== verification/ConsensusVote.v ===== *)
(** * Cross-chain transfers by vote
    (cross_chain_manager/consensus_vote: states.go, utils.go, vote_handler.go)

    The consensus peers vote for a transfer; it is executed when two thirds of the
    peers of the current view have voted, once. *)

From S2P Require Import Prelude Sha256 Sink Source Serialization BytesOrder MemDB OverlayDB CacheDB Contract MerkleSpec MerkleHasher Native ExCrypto Codec NodeStates NodeManager NodeInv NodeGov CrossCommon.

(** ** states.go *)

Record VoteInfo := mkVoteInfo { vi_Status : bool; vi_VoteInfo : gmap bytes bool }.

(** [l]: the entries in the order of the range loop. *)
Definition VoteInfo_from (status : bool) (l : list (bytes * bool)) : list sink_op :=
  [OpBool status; OpUint64 (blen l)] ++
  enc_list (λ kv, [OpString kv.1; OpBool kv.2]) (sort_desc bytes_lt fst l).
Definition VoteInfo_Serialization (v : VoteInfo) : list sink_op :=
  VoteInfo_from (vi_Status v) (map_to_list (vi_VoteInfo v)).
Definition read_vote : M ZeroCopySource (bytes * bool) :=
  k ← must "VoteInfo deserialize key error" NextString;
  v ← must "VoteInfo deserialize value error" NextBool;
  mret (k, v).
Definition VoteInfo_Deserialization : M ZeroCopySource VoteInfo :=
  status ← must "VoteInfo deserialize status length error" NextBool;
  n ← must "VoteInfo deserialize VoteInfo length error" NextUint64;
  votes ← loopM n read_vote;
  mret (mkVoteInfo status (map_of_list votes)).

#[export] Program Instance VoteInfo_ser : Serializable VoteInfo := {|
  Serialization := VoteInfo_Serialization;
  Deserialization := VoteInfo_Deserialization;
  ser_wf v := is_u64 (Z.of_nat (size (vi_VoteInfo v)));
|}.
Next Obligation.
  intros [st m] Hs. unfold VoteInfo_Serialization, VoteInfo_from, VoteInfo_Deserialization. cbn [vi_Status vi_VoteInfo] in *.
  rewrite length_map_to_list. solve_roundtrip. eapply decodes_map.
  - apply decodes_list; [by rewrite sort_desc_perm, length_map_to_list| |intros; apply enc_varbytes_pos].
    intros [a b] _. unfold read_vote. solve_roundtrip.
  - unfold mret, M_ret. do 2 f_equal. by rewrite (map_of_list_perm m) by (by rewrite sort_desc_perm).
Qed.
Next Obligation.
  unfold VoteInfo_Deserialization, read_vote. do 2 (apply safe_bind; [solve_total|intros]).
  apply safe_bind; [|intros; apply safe_ret]. apply safe_loopM; [solve_total|].
  apply progress_bind; [solve_total|auto with safe|intros]. solve_total.
Qed.

(** ** utils.go *)

Definition VOTE_INFO : bytes := gs "voteInfo".
Definition vote_key (id : bytes) : bytes := cc_key [VOTE_INFO; id].

Section vote.
Context `{Hasher} `{Crypto} (cfg : Config).

Definition getVoteInfo (id : bytes) : contract NativeService VoteInfo :=
  voteInfoStore ← cwrap "getVoteInfo, get getVoteInfoStore error: " (cget (vote_key id));
  if decide (voteInfoStore = []) then mret (mkVoteInfo false ∅) else
  load_with "getVoteInfo, deserialize from raw storage item err:" "getVoteInfo, deserialize VoteInfo err:" voteInfoStore.

Definition putVoteInfo (id : bytes) (voteInfo : VoteInfo) : contract NativeService unit :=
  store_item (vote_key id) voteInfo.

(** The loop that looks for the signer among the peers; it stops when it is found. *)
Definition find_peer (who : string) (address : Address) (consensus : bool) (kv : bytes * PeerPoolItem) : contract NativeService bool :=
  if consensus then mret true
  else if decide (pi_Status kv.2 = ConsensusStatus) then
    publicKey ← peer_key who kv.1;
    mret (bool_decide (AddressFromPubKey publicKey = address))
  else mret false.

(** One round of the counting loop: [(num, sum, flag)]. *)
Definition count_vote {V : Type} (who : string) (votes : gmap bytes V) (address : Address) (acc : Z * Z * bool) (kv : bytes * PeerPoolItem)
    : contract NativeService (Z * Z * bool) :=
  let '(num, sum, flag) := acc in
  if decide (pi_Status kv.2 = ConsensusStatus) then
    publicKey ← peer_key who kv.1;
    let addr := AddressFromPubKey publicKey in
    let num := if decide (is_Some (votes !! ToBase58 addr)) then num + 1 else num in
    let sum := sum + 1 in
    let flag := if decide (is_Some (votes !! ToBase58 address)) then flag else true in
    mret (num, sum, flag)
  else mret acc.

Definition CheckVotes (id : bytes) (address : Address) : contract NativeService bool :=
  voteInfo ← cwrap "CheckVotes, getVoteInfo error: " (getVoteInfo id);
  if vi_Status voteInfo then mret false else
  view ← cwrap "CheckVotes, GetView error: " GetView;
  peerPoolMap ← cwrap "CheckVotes, GetPeerPoolMap error: " (GetPeerPoolMap view);
  consensus ← cforeach (map_to_list peerPoolMap) false (find_peer "CheckVotes" address);
  cguard consensus "CheckVotes, signer is not consensus peer" ;;
  '(num, sum, flag) ← cforeach (map_to_list peerPoolMap) (0, 0, false) (count_vote "CheckVotes" (vi_VoteInfo voteInfo) address);
  let votes := if (flag : bool) then <[ToBase58 address := true]> (vi_VoteInfo voteInfo) else vi_VoteInfo voteInfo in
  let num := if flag then num + 1 else num in
  (if flag then putVoteInfo id (mkVoteInfo false votes) else mret tt) ;;
  if decide ((2 * sum + 2) ÷ 3 ≤ num) then
    putVoteInfo id (mkVoteInfo true votes) ;; mret true
  else mret false.

(** ** vote_handler.go *)

(** The result of a chain handler: [None] is a nil pointer. *)
Definition VoteHandler_MakeDepositProposal : contract NativeService (option MakeTxParam) :=
  params ← input_as (A := EntranceParam) "vote MakeDepositProposal, contract params deserialize error: ";
  address ← cwrap "vote MakeDepositProposal, common.AddressParseFromBytes error: "
              (lift_res (AddressParseFromBytes (RelayerAddress params)));
  cwrap "vote MakeDepositProposal, checkWitness error: " (ValidateOwner address) ;;
  let unique := mkEntranceParam (SourceChainID params) (ep_Height params) [] [] (Extra params) [] in
  let id := to_slice (Sum256 (sink_bytes unique)) in
  ok ← cwrap "vote MakeDepositProposal, CheckVotes error: " (CheckVotes id address);
  if (ok : bool) then
    txParam ← cwrap "vote MakeDepositProposal, deserialize MakeTxParam error:"
                (cdeserialize (A := MakeTxParam) (Extra params));
    height ← cask ns_height;
    (if decide (NETWORK_ID_TEST_NET ≠ NetworkId cfg ∨ 19954185 ≤ height) then
       cwrap "vote MakeDepositProposal, check done transaction error:"
         (CheckDoneTx (CrossChainID txParam) (SourceChainID params)) ;;
       cwrap "vote MakeDepositProposal, PutDoneTx error:"
         (PutDoneTx (CrossChainID txParam) (SourceChainID params))
     else mret tt) ;;
    mret (Some txParam)
  else mret None.

(** ** Counting *)

Implicit Types (m : kvmap) (s : NativeService) (p : PeerPoolMap).

Definition has_voted {V : Type} (votes : gmap bytes V) (kv : bytes * PeerPoolItem) : Prop :=
  is_consensus kv ∧ is_Some (peer_address kv.1 ≫= λ a, votes !! ToBase58 a).
#[export] Instance has_voted_dec {V : Type} (votes : gmap bytes V) kv : Decision (has_voted votes kv).
Proof. unfold has_voted. apply _. Defined.

Definition voted_num {V : Type} p (votes : gmap bytes V) : Z := Z.of_nat (size (filter (has_voted votes) p)).
(** Two thirds of the consensus peers, rounded up, have voted. *)
Definition vote_quorum {V : Type} p (votes : gmap bytes V) : Prop := (2 * consensus_num p + 2) ÷ 3 ≤ voted_num p votes.

(** The address is the one of a consensus peer. *)
Definition is_peer p (a : Address) : Prop :=
  ∃ k i, p !! k = Some i ∧ is_consensus (k, i) ∧ peer_address k = Some a.

Lemma run_peer_key_inv (who : string) (key : bytes) (st : kvmap * NativeService) pk st' :
  run (peer_key who key) st = (Ok pk, st') → st' = st ∧ peer_address key = Some (AddressFromPubKey pk).
Proof.
  rewrite peer_key_run. unfold peer_address. destruct (hex_decode key); [|done..].
  destruct (DeserializePublicKey _); [|done..]. intros [= -> ->]. done.
Qed.

Lemma find_peer_inv (who : string) (l : list (bytes * PeerPoolItem)) (b : bool) (a : Address) (st : kvmap * NativeService) (r : bool) st' :
  run (cforeach l b (find_peer who a)) st = (Ok r, st') →
  st' = st ∧ (r = true → b = true ∨ ∃ kv, kv ∈ l ∧ is_consensus kv ∧ peer_address kv.1 = Some a).
Proof.
  revert b. induction l as [|kv l IH]; intros b Hr; cbn [cforeach] in Hr.
  { inversion Hr; subst. by auto. }
  change (cbind ?c ?f) with (c ≫= f) in Hr. apply run_bind_inv in Hr as (b1 & st1 & E1 & Hr).
  assert (st1 = st ∧ (b1 = true → b = true ∨ is_consensus kv ∧ peer_address kv.1 = Some a)) as [-> Hb1].
  { unfold find_peer in E1. destruct b; [inversion E1; by auto|].
    case_decide as Hc; [|inversion E1; by auto].
    apply run_bind_inv in E1 as (pk & st2 & Ek & E1). apply run_peer_key_inv in Ek as [-> Ek].
    apply run_ret_inv in E1 as [-> ->]. split; [done|]. intros E%bool_decide_eq_true. right.
    split; [done|]. by rewrite Ek, E. }
  apply IH in Hr as [-> Hr]. split; [done|]. intros E. destruct (Hr E) as [E1'|(kv' & ? & ?)].
  - destruct (Hb1 E1') as [?|?]; [by left|]. right. exists kv. split; [apply list_elem_of_here|done].
  - right. exists kv'. split; [by right|done].
Qed.

Lemma count_vote_inv {V : Type} (who : string) (votes : gmap bytes V) (a : Address) (l : list (bytes * PeerPoolItem)) (num sum : Z) (flag : bool)
    (st : kvmap * NativeService) (num' sum' : Z) (flag' : bool) st' :
  run (cforeach l (num, sum, flag) (count_vote who votes a)) st = (Ok (num', sum', flag'), st') →
  st' = st ∧ num' = num + Z.of_nat (length (filter (has_voted votes) l)) ∧
  sum' = sum + Z.of_nat (length (filter is_consensus l)) ∧
  flag' = flag || bool_decide (votes !! ToBase58 a = None ∧ filter is_consensus l ≠ []).
Proof.
  revert num sum flag. induction l as [|kv l IH]; intros num sum flag Hr; cbn [cforeach] in Hr.
  { inversion Hr; subst. rewrite !Z.add_0_r. split_and!; try done. rewrite bool_decide_false by (by intros [_ []]).
    by rewrite orb_false_r. }
  change (cbind ?c ?f) with (c ≫= f) in Hr. apply run_bind_inv in Hr as ([[n1 s1] f1] & st1 & E1 & Hr).
  rewrite !filter_cons. unfold count_vote in E1. case_decide as Hc.
  - apply run_bind_inv in E1 as (pk & st2 & Ek & E1). apply run_peer_key_inv in Ek as [-> Ek].
    apply run_ret_inv in E1 as [E1 ->]. simplify_eq. apply IH in Hr as (-> & -> & -> & ->). clear IH.
    assert (has_voted votes kv ↔ is_Some (votes !! ToBase58 (AddressFromPubKey pk))) as Hv.
    { unfold has_voted. rewrite Ek. simpl. unfold is_consensus. tauto. }
    rewrite (decide_True (P := is_consensus kv)) by done. cbn [length]. split_and!; [done| |lia|].
    + repeat case_decide; try tauto; cbn [length]; lia.
    + destruct (decide (is_Some (votes !! ToBase58 a))) as [Hs|Hs].
      * f_equal. apply bool_decide_ext. split; intros [E _]; rewrite E in Hs; by destruct Hs.
      * cbn. rewrite bool_decide_true; [by rewrite orb_true_r|]. split; [by apply eq_None_not_Some|done].
  - apply run_ret_inv in E1 as [E1 ->]. simplify_eq. apply IH in Hr as (-> & -> & -> & ->).
    rewrite (decide_False (P := is_consensus kv)) by done. by rewrite decide_False by (by intros [??]).
Qed.

(** The votes recorded for an id. *)
Definition votes_at m (id : bytes) (v : VoteInfo) : Prop :=
  (kv_at m (vote_key id) = [] ∧ v = mkVoteInfo false ∅) ∨ stored m (vote_key id) v.

Lemma run_getVoteInfo m (id : bytes) (v : VoteInfo) s : votes_at m id v → run (getVoteInfo id) (m, s) = (Ok v, (m, s)).
Proof.
  intros Hv. unfold getVoteInfo. erewrite run_bind_ok; [|by apply run_cwrap_ok, run_cget].
  destruct Hv as [[E ->]|Hv].
  - by rewrite decide_True.
  - rewrite decide_False by exact (stored_nonempty _ _ _ Hv). by apply run_load_with.
Qed.

(** A vote of a peer that had not voted counts one more peer. *)
Lemma voted_num_insert {V : Type} p (votes : gmap bytes V) (a : Address) (x : V) :
  is_peer p a → votes !! ToBase58 a = None → voted_num p votes + 1 ≤ voted_num p (<[ToBase58 a := x]> votes).
Proof.
  intros (k & i & Hk & Hc & Ha) Hn. unfold voted_num.
  assert (size (<[k := i]> (filter (has_voted votes) p)) ≤ size (filter (has_voted (<[ToBase58 a := x]> votes)) p))%nat as Hs.
  { apply map_subseteq_size, map_subseteq_spec. intros y j.
    destruct (decide (k = y)) as [<-|Hy].
    - rewrite lookup_insert_eq. intros [= ->]. apply map_lookup_filter_Some. split; [done|]. split; [done|].
      cbn [fst]. rewrite Ha. simpl. by rewrite lookup_insert_eq.
    - rewrite lookup_insert_ne, !map_lookup_filter_Some by done. intros [Hj [Hcj Hv]]. split; [done|]. split; [done|].
      cbn [fst] in *. destruct (peer_address y) as [b|]; [|by destruct Hv]. simpl in *.
      destruct (decide (ToBase58 a = ToBase58 b)) as [E|E]; [rewrite <- E, lookup_insert_eq; eauto|by rewrite lookup_insert_ne]. }
  rewrite map_size_insert_None in Hs; [lia|]. apply map_lookup_filter_None. right. intros j Hj [_ Hv].
  cbn [fst] in Hv. rewrite Ha in Hv. simpl in Hv. rewrite Hn in Hv. by destruct Hv.
Qed.

Lemma find_peer_is_peer (who : string) p (a : Address) (st st' : kvmap * NativeService) :
  run (cforeach (map_to_list p) false (find_peer who a)) st = (Ok true, st') → st' = st ∧ is_peer p a.
Proof.
  intros Hr. apply find_peer_inv in Hr as [-> Hr]. split; [done|].
  destruct (Hr eq_refl) as [?|([k i] & Hin & ?)]; [done|]. apply elem_of_map_to_list in Hin. by exists k, i.
Qed.

(** What a vote does: nothing once the id is settled, else it records the vote and
    settles the id if the quorum is there. *)
Lemma CheckVotes_inv m (g : GovernanceView) p (id : bytes) (v : VoteInfo) (a : Address) s (b : bool) m' s' :
  stored m (nm_key [GOVERNANCE_VIEW]) g → stored m (peerPool_key (View g)) p → votes_at m id v →
  run (CheckVotes id a) (m, s) = (Ok b, (m', s')) →
  s' = s ∧ if vi_Status v then b = false ∧ m' = m else
  is_peer p a ∧ ∃ votes : gmap bytes bool, (∀ x, is_Some (votes !! x) ↔ x = ToBase58 a ∨ is_Some (vi_VoteInfo v !! x)) ∧
    (b = true → vote_quorum p votes) ∧
    (m' = m ∨ m' = <[vote_key id := GenRawStorageItem (sink_bytes (mkVoteInfo b votes))]> m) ∧
    (b = true → m' = <[vote_key id := GenRawStorageItem (sink_bytes (mkVoteInfo true votes))]> m).
Proof.
  intros Hg Hp Hv Hr. unfold CheckVotes in Hr.
  erewrite run_bind_ok in Hr; [|by apply run_cwrap_ok, run_getVoteInfo].
  destruct (vi_Status v) eqn:Hst; [apply run_ret_inv in Hr as [-> [= -> ->]]; done|].
  erewrite run_bind_ok in Hr; [|by apply run_cwrap_ok, run_GetView].
  erewrite run_bind_ok in Hr; [|by apply run_cwrap_ok, run_GetPeerPoolMap].
  apply run_bind_inv in Hr as (c & st1 & Hc & Hr). apply run_bind_inv in Hr as (u & st2 & Hgd & Hr).
  apply run_guard_inv in Hgd as [-> ->]. apply find_peer_is_peer in Hc as [-> Hpeer].
  apply run_bind_inv in Hr as ([[num sum] flag] & st2 & Hcount & Hr). cbv beta iota in Hr.
  apply count_vote_inv in Hcount as (-> & -> & -> & ->). cbn [orb] in Hr.
  rewrite !size_filter_list in Hr. rewrite !Z.add_0_l in Hr.
  assert (filter is_consensus (map_to_list p) ≠ []) as Hne.
  { destruct Hpeer as (k & i & Hk & Hc & _). apply elem_of_map_to_list in Hk. intros E.
    apply (not_elem_of_nil (k, i)). rewrite <- E. by apply list_elem_of_filter. }
  destruct (decide (vi_VoteInfo v !! ToBase58 a = None)) as [Hn|Hn].
  - rewrite bool_decide_true in Hr by done. unfold putVoteInfo, store_item in Hr.
    pose proof (voted_num_insert p (vi_VoteInfo v) a true Hpeer Hn) as Hvn.
    assert (∀ x, is_Some (<[ToBase58 a := true]> (vi_VoteInfo v) !! x) ↔ x = ToBase58 a ∨ is_Some (vi_VoteInfo v !! x)) as Hd.
    { intros x. rewrite lookup_insert_is_Some'. naive_solver. }
    case_decide as Hq; crun Hr; (split; [done|]; split; [done|]; eexists; split; [exact Hd|]).
    + rewrite insert_insert_eq. split_and!; [|by right|done]. intros _. unfold vote_quorum, consensus_num.
      unfold voted_num in *. lia.
    + split_and!; [done|by right|done].
  - rewrite bool_decide_false in Hr by tauto. unfold putVoteInfo, store_item in Hr.
    assert (∀ x, is_Some (vi_VoteInfo v !! x) ↔ x = ToBase58 a ∨ is_Some (vi_VoteInfo v !! x)) as Hd.
    { intros x. split; [by right|]. intros [->|?]; [by apply not_eq_None_Some|done]. }
    case_decide as Hq; crun Hr; (split; [done|]; split; [done|]; eexists; split; [exact Hd|]).
    + split_and!; [done|by right|done].
    + split_and!; [done|by left|done].
Qed.

Lemma vote_size_bytes (v : VoteInfo) : Z.of_nat (size (vi_VoteInfo v)) ≤ blen (sink_bytes v).
Proof.
  unfold sink_bytes. cbn [Serialization VoteInfo_ser]. unfold VoteInfo_Serialization, VoteInfo_from.
  rewrite enc_ops_app, length_app.
  pose proof (length_enc_list (λ kv : bytes * bool, [OpString kv.1; OpBool kv.2]) (sort_desc bytes_lt fst (map_to_list (vi_VoteInfo v)))
    (λ a _, enc_varbytes_pos a.1 [OpBool a.2])) as Hl.
  assert (length (sort_desc bytes_lt fst (map_to_list (vi_VoteInfo v))) = size (vi_VoteInfo v)) as E; [|lia].
  by rewrite sort_desc_perm, length_map_to_list.
Qed.

Lemma vote_fits m (id : bytes) (v : VoteInfo) :
  fits m → m !! vote_key id = Some (GenRawStorageItem (sink_bytes v)) → stored m (vote_key id) v.
Proof.
  intros Hf Hk. apply fits_stored; [done..|]. cbn. specialize (Hf _ _ Hk).
  pose proof (vote_size_bytes v). pose proof (blen_GenRaw (sink_bytes v)). unfold in_range. lia.
Qed.

(** C32 (votes settle once).  A vote that is answered with true comes from a consensus
    peer of the current view and completes a quorum: the recorded voters, it
    included, are two thirds of the peers.  Every later vote for the same id is
    answered with false and changes nothing. *)
Theorem CheckVotes_settles m (g : GovernanceView) p (id : bytes) (v : VoteInfo) (a : Address) s m' s' :
  stored m (nm_key [GOVERNANCE_VIEW]) g → stored m (peerPool_key (View g)) p → votes_at m id v →
  run (CheckVotes id a) (m, s) = (Ok true, (m', s')) → fits m' →
  is_peer p a ∧
  (∃ votes : gmap bytes bool, vote_quorum p votes ∧ ∀ x, is_Some (votes !! x) ↔ x = ToBase58 a ∨ is_Some (vi_VoteInfo v !! x)) ∧
  ∀ a2 s2, run (CheckVotes id a2) (m', s2) = (Ok false, (m', s2)).
Proof.
  intros Hg Hp Hv Hr Hf. apply (CheckVotes_inv m g p id v) in Hr as [-> Hr]; [|done..].
  destruct (vi_Status v); [by destruct Hr|]. destruct Hr as (Hpeer & votes & Hd & Hq & _ & Hm). specialize (Hm eq_refl).
  split_and!; [done|by exists votes; auto|]. intros a2 s2. unfold CheckVotes.
  rewrite (run_bind_ok _ _ _ (mkVoteInfo true votes) (m', s2)); [done|]. apply run_cwrap_ok, run_getVoteInfo. right.
  apply vote_fits; [done|]. subst m'. apply lookup_insert_eq.
Qed.

Lemma doneTx_ne_vote (c : Z) (x id : bytes) : doneTx_key c x ≠ vote_key id.
Proof.
  intros E. unfold doneTx_key, vote_key, cc_key, ConcatKey in E. apply app_inv_head in E. cbn in E. discriminate E.
Qed.

Lemma ro_getVoteInfo (id : bytes) : read_only (getVoteInfo id).
Proof. unfold getVoteInfo. solve_ro. Qed.
Lemma ro_find_peer (who : string) (a : Address) b kv : read_only (find_peer who a b kv).
Proof. unfold find_peer. solve_ro. Qed.
Lemma ro_count_vote {V : Type} (who : string) (votes : gmap bytes V) (a : Address) acc kv : read_only (count_vote who votes a acc kv).
Proof. unfold count_vote. destruct acc as [[??] ?]. solve_ro. Qed.
#[local] Hint Resolve ro_getVoteInfo ro_find_peer ro_count_vote : ro.

(** Voting only touches the votes of the id. *)
Lemma CheckVotes_frame (id : bytes) (a : Address) m s (b : bool) m' s' :
  run (CheckVotes id a) (m, s) = (Ok b, (m', s')) →
  s' = s ∧ ∀ k, k ≠ vote_key id → m' !! k = m !! k.
Proof.
  intros Hr. unfold CheckVotes in Hr. crun Hr.
  destruct (vi_Status x); crun Hr; [done|]. destruct x2 as [[num sum] flag].
  destruct flag; unfold putVoteInfo in *; case_decide; crun Hr; split; try done;
    intros k Hk; by rewrite ?lookup_insert_ne.
Qed.

(** Outside the early test network, a transfer that the handler releases was not
    recorded as done before and is recorded afterwards; no record is removed. *)
Lemma vote_done m s r m' s' :
  NetworkId cfg ≠ NETWORK_ID_TEST_NET →
  run VoteHandler_MakeDepositProposal (m, s) = (Ok r, (m', s')) →
  s' = s ∧ ∃ params : EntranceParam, deserialize (ns_input s) = Ok params ∧
    (∀ txParam, r = Some txParam → deserialize (Extra params) = Ok txParam ∧
      kv_at m (doneTx_key (SourceChainID params) (CrossChainID txParam)) = []) ∧
    ∀ c x, kv_at m' (doneTx_key c x) ≠ [] ↔ kv_at m (doneTx_key c x) ≠ [] ∨
      ∃ txParam, r = Some txParam ∧ doneTx_key c x = doneTx_key (SourceChainID params) (CrossChainID txParam).
Proof.
  intros Hnet Hr. unfold VoteHandler_MakeDepositProposal in Hr. crun Hr.
  unfold cdeserialize in Hr0. apply run_lift_inv in Hr0 as [Hin _].
  apply CheckVotes_frame in Hr1 as [-> Hm]. unfold kv_at.
  assert (∀ c x, m !! doneTx_key c x = m0 !! doneTx_key c x) as Hdone by (intros; apply Hm, doneTx_ne_vote).
  destruct x2; crun Hr.
  - rewrite decide_True in Hr1 by auto. unfold CheckDoneTx, PutDoneTx in Hr1. crun Hr1.
    unfold cdeserialize in Hr0. apply run_lift_inv in Hr0 as [Hde _]. split; [done|]. exists x. split; [done|].
    apply bool_decide_eq_true in Hg0. unfold kv_at in Hg0. rewrite Hdone in Hg0. split; [intros; by simplify_eq|].
    intros c y. destruct (decide (doneTx_key c y = doneTx_key (SourceChainID x) (CrossChainID x2))) as [E|E].
    + rewrite E, lookup_insert_eq. split; [by eauto|]. intros _. apply GenRawStorageItem_nonempty.
    + rewrite lookup_insert_ne, Hdone by done. split; [by left|]. intros [?|(? & [= <-] & ?)]; done.
  - split; [done|]. exists x. split_and!; [done..|]. intros c y. rewrite Hdone. naive_solver.
Qed.

End vote.

(** Three of five peers have voted; the vote of the fourth one settles the id. *)
Definition ex_votes : VoteInfo :=
  mkVoteInfo false (list_to_map ((λ i, (ToBase58 (ex_addr i), true)) <$> [1; 2; 3])).
Definition ex_id : bytes := gs "id".
Definition ex_vote_store : kvmap := <[vote_key ex_id := GenRawStorageItem (sink_bytes ex_votes)]> ex_gov.

Lemma CheckVotes_settles_witness :
  ∃ m' s', run (CheckVotes ex_id (ex_addr 4)) (ex_vote_store, ex_service 4 7 []) = (Ok true, (m', s')) ∧
  is_peer ex_pool (ex_addr 4) ∧
  (∃ votes : gmap bytes bool, vote_quorum ex_pool votes ∧
    ∀ x, is_Some (votes !! x) ↔ x = ToBase58 (ex_addr 4) ∨ is_Some (vi_VoteInfo ex_votes !! x)) ∧
  ∀ a2 s2, run (CheckVotes ex_id a2) (m', s2) = (Ok false, (m', s2)).
Proof.
  destruct (run (CheckVotes ex_id (ex_addr 4)) (ex_vote_store, ex_service 4 7 [])) as [r [m' s']] eqn:E.
  assert (r = Ok true) as -> by (by run_compute E).
  assert (map_Forall (λ _ v, blen v < 2 ^ 63) m') as Hf by (by run_compute E).
  exists m', s'. split; [reflexivity|].
  apply (CheckVotes_settles ex_vote_store ex_view ex_pool ex_id ex_votes (ex_addr 4) (ex_service 4 7 []) m' s').
  - apply stored_insert; [by vm_compute|apply ex_gov_view].
  - apply stored_insert; [by vm_compute|apply ex_gov_pool].
  - right. split_and!; [by vm_compute| |by vm_compute].
    change (is_u64 (Z.of_nat (size (vi_VoteInfo ex_votes)))). refine (bool_decide_unpack _ _). by vm_compute.
  - exact E.
  - exact Hf.
Defined.
