(* ===== verification/Approval.v ===== *)
(** * What an approval shows, and numbered requests

    Shared by the contracts whose changes the consensus peers approve: the values
    that parameters can have, the pool of the current view, and the quorum behind a
    successful [CheckConsensusSigns]. *)

From S2P Require Import Prelude Sha256 Sink Source Serialization BytesOrder MemDB OverlayDB CacheDB Contract MerkleSpec MerkleHasher Native ExCrypto Codec NodeStates NodeManager NodeInv NodeGov CrossCommon ConsensusVote.

(** ** Reads give values of their types *)

Definition yields {A} (rd : M ZeroCopySource A) (P : A → Prop) : Prop :=
  ∀ src a src', src_wf src → rd src = (Ok a, src') → src_wf src' ∧ P a.

Lemma yields_bind {A B} (rd : M ZeroCopySource A) (k : A → M ZeroCopySource B) P Q :
  yields rd P → (∀ a, P a → yields (k a) Q) → yields (rd ≫= k) Q.
Proof. intros Hm Hk src b src' Hs (a & s1 & E1 & E2)%bind_inv_ok. apply Hm in E1 as [? ?]; [|done]. by eapply Hk. Qed.
Lemma yields_ret {A} (a : A) (P : A → Prop) : P a → yields (mret a) P.
Proof. intros Ha src b src' Hs [= <- <-]. done. Qed.
Lemma yields_safe {A} (rd : M ZeroCopySource A) : safe rd → yields rd (λ _, True).
Proof. intros Hm src a src' Hs E. apply safe_at in E as (_ & _ & ? & _); done. Qed.
Lemma yields_varuint msg : yields (must msg NextVarUint) is_u64.
Proof.
  intros src a src' Hs E. split; [by eapply (yields_safe (must msg NextVarUint)); [auto with safe|..]|].
  unfold must in E. apply bind_inv_ok in E as ([x e] & s1 & E1 & E2). destruct e; [done|].
  injection E2 as <- <-. by eapply NextVarUint_range.
Qed.
Lemma yields_uint64 msg : yields (must msg NextUint64) is_u64.
Proof.
  intros src a src' Hs E. split; [by eapply (yields_safe (must msg NextUint64)); [auto with safe|..]|].
  unfold must in E. apply bind_inv_ok in E as ([x e] & s1 & E1 & E2). destruct e; [done|].
  injection E2 as <- <-. by apply (NextUint_range 8 NextUint64 src x false s1); [|lia|..].
Qed.
Lemma yields_guard b msg : yields (guard_err b msg) (λ _, b = true).
Proof. unfold guard_err. destruct b; [by apply yields_ret|]. by intros ????. Qed.

Lemma deserialize_yields {A} `{Serializable A} (b : bytes) (a : A) (P : A → Prop) :
  yields (Deserialization A) P → blen b < 2 ^ 63 → deserialize b = Ok a → P a.
Proof.
  intros Hy Hb E. unfold deserialize in E. destruct (Deserialization A (NewZeroCopySource b)) as [r src'] eqn:E1.
  cbn in E. subst r. eapply Hy; [|exact E1]. unfold src_wf. cbn. lia.
Qed.

Lemma ConcatKey_contract a b x y : ConcatKey a x = ConcatKey b y → a = b.
Proof.
  intros E. unfold ConcatKey in E. apply app_inj_1 in E as [E _]; [|by rewrite !length_to_slice]. by apply to_slice_inj.
Qed.

Lemma fits_raw m k b : fits m → m !! k = Some (GenRawStorageItem b) → blen b < 2 ^ 63.
Proof. intros Hf Hk. specialize (Hf _ _ Hk). pose proof (blen_GenRaw b). lia. Qed.

(** ** Stored values *)

(** What a getter reads under a key, with the decoder of the value. *)
Definition entry_by {A} (dec : bytes → res A) (m : kvmap) (k : bytes) (x : option A) : Prop :=
  match x with
  | None => kv_at m k = []
  | Some c => kv_at m k ≠ [] ∧ ∃ v, GetValueFromRawStorageItem (kv_at m k) = Ok v ∧ dec v = Ok c
  end.
Abbreviation entry := (entry_by deserialize).

Section entry.
Context {A} (dec : bytes → res A).
Implicit Types (m : kvmap) (x : option A).

Lemma entry_det m k x (y : option A) : entry_by dec m k x → entry_by dec m k y → x = y.
Proof.
  destruct x, y; cbn; [|tauto|tauto|done].
  intros (_ & v & E1 & E2) (_ & w & E3 & E4). congruence.
Qed.

Lemma entry_agree m m' k x : m' !! k = m !! k → entry_by dec m k x → entry_by dec m' k x.
Proof. intros E. unfold entry_by, kv_at. by rewrite E. Qed.

Lemma GenRaw_entry m k b (x : A) :
  m !! k = Some (GenRawStorageItem b) → blen b < 2 ^ 63 → dec b = Ok x → entry_by dec m k (Some x).
Proof.
  intros Hk Hl Hb. unfold entry_by, kv_at. rewrite Hk. cbn [default].
  split; [apply GenRawStorageItem_nonempty|]. exists b. split; [by apply storage_item_roundtrip|done].
Qed.

End entry.

(** ** Approval *)

Section approval.
Context `{Hasher} `{Crypto}.
Implicit Types (m : kvmap) (s : NativeService) (p : PeerPoolMap).

(** The consensus peers have approved: the signatures recorded for the method and
    the chain, together with the caller's, are a quorum of the pool. *)
Definition approved m p s (method : bytes) (c : Z) : Prop :=
  ∃ a signs, CheckWitness a s = true ∧
    run (getConsensusSigns (Sum256 (method ++ GetUint64Bytes c))) (m, s) = (Ok signs, (m, s)) ∧
    quorum p (<[a := true]> signs).

(** The pool of the current view. *)
Definition pool_at m p : Prop := ∃ g : GovernanceView, stored m (nm_key [GOVERNANCE_VIEW]) g ∧ stored m (peerPool_key (View g)) p.

Lemma count_signs_inv (signs : ConsensusSigns) (l : list (bytes * PeerPoolItem)) (acc : Z * Z) (st : kvmap * NativeService) r st' :
  run (cforeach l acc (count_sign signs)) st = (Ok r, st') →
  st' = st ∧ r = (acc.1 + Z.of_nat (length (filter (has_signed signs) l)), acc.2 + Z.of_nat (length (filter is_consensus l))).
Proof.
  intros Hr. assert (∀ kv, kv ∈ l → is_consensus kv → is_Some (peer_address kv.1)) as Hp.
  { revert acc Hr. induction l as [|kv l IH]; intros acc Hr; [by intros ? ?%not_elem_of_nil|].
    cbn [cforeach] in Hr. change (cbind ?c ?f) with (c ≫= f) in Hr. apply run_bind_inv in Hr as (acc1 & st1 & E1 & Hr).
    assert (st1 = st ∧ (is_consensus kv → is_Some (peer_address kv.1))) as [-> Hkv].
    { unfold count_sign in E1. case_decide as Hc; [|by apply run_ret_inv in E1 as [_ ->]].
      apply run_bind_inv in E1 as (pk & st2 & Ek & E1). apply run_peer_key_inv in Ek as [-> Ek].
      apply run_ret_inv in E1 as [_ ->]. eauto. }
    intros kv' [->|Hin]%elem_of_cons; [done|]. by eapply IH. }
  rewrite run_count_signs in Hr by done. by simplify_eq.
Qed.

(** A collected signature: the quorum is there when the answer is [true], and only
    the signatures of the action change. *)
Lemma CheckConsensusSigns_approved (method : bytes) c (a : Address) m p s b m' s' :
  pool_at m p → CheckWitness a s = true →
  run (CheckConsensusSigns method (GetUint64Bytes c) a) (m, s) = (Ok b, (m', s')) →
  (b = true → approved m p s method c) ∧ (∃ h, m' = delete (signs_key h) m ∨ ∃ v, m' = <[signs_key h := v]> m).
Proof.
  intros (g & Hg & Hp) Ha Hr. split; [|by apply CheckConsensusSigns_frame in Hr as [? _]].
  intros ->. unfold CheckConsensusSigns in Hr. crun Hr.
  rewrite (run_GetView _ g) in * by done. simplify_eq. rewrite (run_GetPeerPoolMap _ p) in * by done. simplify_eq.
  apply count_signs_inv in Hr3 as [_ ->]. cbn [fst snd] in Hr.
  rewrite !size_filter_list, !Z.add_0_l in Hr. case_decide as Hq; crun Hr. exists a. by eexists.
Qed.

Lemma input_param {A} `{Serializable A} (P : A → Prop) m s (x : A) m' s' :
  yields (Deserialization A) P → blen (ns_input s) < 2 ^ 63 →
  run (cdeserialize (ns_input s)) (m, s) = (Ok x, (m', s')) → P x.
Proof. unfold cdeserialize. intros Hy Hl [E _]%run_lift_inv. by eapply deserialize_yields. Qed.

End approval.

(** ** Numbered requests

    The managers of relayers and of state validators keep the requests they have not
    decided yet under increasing numbers; the next number is a counter of its own
    (governance/relayer_manager/utils.go, governance/neo3_state_manager/utils.go). *)

Section counter.
Context `{Crypto}.

(** A counter that is 0 until it is written. *)
Definition get_counter (get_err raw_err : string) (key : bytes) : contract NativeService Z :=
  store ← cwrap get_err (cget key);
  if decide (store = []) then mret 0 else
  b ← cwrap raw_err (lift_res (GetValueFromRawStorageItem store));
  mret (GetBytesUint64 b).
Definition put_counter (key : bytes) (id : Z) : contract NativeService unit :=
  cput key (GenRawStorageItem (GetUint64Bytes id)).

(** The counter's value. *)
Definition counter_at (m : kvmap) (k : bytes) (z : Z) : Prop :=
  (kv_at m k = [] ∧ z = 0) ∨ kv_at m k = GenRawStorageItem (GetUint64Bytes z).

Lemma GetBytes_GetUint64 z : is_u64 z → GetBytesUint64 (GetUint64Bytes z) = z.
Proof.
  intros Hz. unfold GetBytesUint64, GetUint64Bytes. rewrite decide_False by (rewrite length_le_put; by intros []).
  by apply le_get_put_small.
Qed.

Lemma run_get_counter e1 e2 m k z (s : NativeService) :
  is_u64 z → counter_at m k z → run (get_counter e1 e2 k) (m, s) = (Ok z, (m, s)).
Proof.
  intros Hz Hk. unfold get_counter. erewrite run_bind_ok; [|by apply run_cwrap_ok, run_cget].
  destruct Hk as [[-> ->]| ->]; [done|]. rewrite decide_False by apply GenRawStorageItem_nonempty.
  rewrite storage_item_roundtrip; [|by unfold GetUint64Bytes; rewrite length_le_put].
  erewrite run_bind_ok by (by apply run_cwrap_ok). by rewrite GetBytes_GetUint64.
Qed.

End counter.

(** ** The requests *)

Record requests (A : Type) := mkRequests { rq_next : Z; rq_table : gmap Z A }.
Arguments mkRequests {A} _ _.
Arguments rq_next {A} _.
Arguments rq_table {A} _.

Definition ask {A} (x : A) (q : requests A) : requests A :=
  mkRequests (u64 (rq_next q + 1)) (<[rq_next q := x]> (rq_table q)).
Definition settle {A} (id : Z) (q : requests A) : requests A := mkRequests (rq_next q) (delete id (rq_table q)).

Lemma ConcatKey_len_ne c l l' : length (mjoin l) ≠ length (mjoin l') → ConcatKey c l ≠ ConcatKey c l'.
Proof. intros Hl E. unfold ConcatKey in E. apply app_inv_head in E. by rewrite E in Hl. Qed.

Section requests.
Context {A : Type} (contract : Address) (pre name : bytes) (dec : bytes → res A).
Implicit Types (m : kvmap) (q : requests A).

Definition req_key (id : Z) : bytes := ConcatKey contract [pre; GetUint64Bytes id].
Definition next_key : bytes := ConcatKey contract [name].

Record req_rep m q : Prop := {
  rq_u64 : is_u64 (rq_next q);
  rq_counter : counter_at m next_key (rq_next q);
  rq_entry : ∀ id, is_u64 id → entry_by dec m (req_key id) (rq_table q !! id);
}.

Lemma req_key_inj a b : is_u64 a → is_u64 b → req_key a = req_key b → a = b.
Proof.
  intros Ha Hb E. unfold req_key in E. rewrite !ConcatKey2 in E. do 2 apply app_inv_head in E. by apply le_put_inj in E.
Qed.

Lemma req_next_ne id : length name ≠ (length pre + 8)%nat → req_key id ≠ next_key.
Proof.
  intros Hl. apply ConcatKey_len_ne. change (mjoin [name]) with (name ++ []). change (mjoin [pre; ?x]) with (pre ++ x ++ []).
  rewrite !app_nil_r, length_app. unfold GetUint64Bytes. rewrite length_le_put. lia.
Qed.

Lemma req_rep_agree m m' q :
  m' !! next_key = m !! next_key → (∀ id, is_u64 id → m' !! req_key id = m !! req_key id) → req_rep m q → req_rep m' q.
Proof.
  intros Hn Hk [Hu Hc He]. split; [done| |].
  - unfold counter_at, kv_at in *. by rewrite Hn.
  - intros id Hid. eapply entry_agree; [by apply Hk|by apply He].
Qed.

Lemma req_rep_ask m q x b :
  length name ≠ (length pre + 8)%nat → req_rep m q → dec b = Ok x → blen b < 2 ^ 63 →
  req_rep (<[req_key (rq_next q) := GenRawStorageItem b]>
    (<[next_key := GenRawStorageItem (GetUint64Bytes (u64 (rq_next q + 1)))]> m)) (ask x q).
Proof.
  intros Hl [Hu Hc He] Hx Hb. pose proof (req_next_ne (rq_next q) Hl) as Hne. split; cbn [ask rq_next rq_table].
  - by apply uwrap_range.
  - right. unfold kv_at. rewrite lookup_insert_ne, lookup_insert_eq by done. done.
  - intros id Hid. destruct (decide (rq_next q = id)) as [<-|Hi].
    + rewrite lookup_insert_eq. eapply GenRaw_entry; [apply lookup_insert_eq|done..].
    + rewrite lookup_insert_ne by done. eapply entry_agree; [|by apply He].
      rewrite !lookup_insert_ne; [done|by apply not_eq_sym, req_next_ne|by intros E%req_key_inj].
Qed.

Lemma req_rep_settle m q id :
  length name ≠ (length pre + 8)%nat → is_u64 id → req_rep m q → req_rep (delete (req_key id) m) (settle id q).
Proof.
  intros Hl Hid [Hu Hc He]. pose proof (req_next_ne id Hl) as Hne. split; cbn [settle rq_next rq_table]; [done| |].
  - unfold counter_at, kv_at in *. by rewrite lookup_delete_ne.
  - intros j Hj. destruct (decide (id = j)) as [<-|Hi].
    + rewrite lookup_delete_eq. unfold entry_by, kv_at. by rewrite lookup_delete_eq.
    + rewrite lookup_delete_ne by done. eapply entry_agree; [|by apply He]. apply lookup_delete_ne.
      by intros E%req_key_inj.
Qed.

End requests.
