(* ===== verification/RelayerMgr.v ===== *)
(** * The relayer manager contract
    (governance/relayer_manager/param.go, utils.go, relayer_manager.go)

    Lists of relayers are registered or removed: anyone asks, under a fresh number,
    and a quorum of the consensus peers approves.  The contract is shown to
    implement a set of relayers with numbered requests. *)

From S2P Require Import Prelude Sha256 Sink Source Serialization BytesOrder MemDB OverlayDB CacheDB Contract MerkleSpec MerkleHasher Native ExCrypto Codec NodeStates NodeManager NodeInv NodeGov CrossCommon ConsensusVote Approval.

(** ** param.go *)

Record RelayerListParam := mkRelayerListParam { AddressList : list Address; rl_Address : Address }.
Definition RelayerListParam_Serialization (p : RelayerListParam) : list sink_op :=
  OpVarUint (blen (AddressList p)) :: enc_list (λ v, [OpVarAddress v]) (AddressList p) ++ [OpVarAddress (rl_Address p)].
Definition RelayerListParam_Deserialization : M ZeroCopySource RelayerListParam :=
  n ← must "source.NextVarUint, deserialize AddressList length error" NextVarUint;
  addressList ← loopM n (read_address "source.NextVarBytes, deserialize address error"
                           "common.AddressParseFromBytes, deserialize address error: ");
  addr ← read_address "source.NextVarBytes, deserialize address error"
           "common.AddressParseFromBytes, deserialize address error: ";
  mret (mkRelayerListParam addressList addr).

Record ApproveRelayerParam := mkApproveRelayerParam { ar_ID : Z; ar_Address : Address }.
Definition ApproveRelayerParam_Serialization (p : ApproveRelayerParam) : list sink_op :=
  [OpVarUint (ar_ID p); OpVarAddress (ar_Address p)].
Definition ApproveRelayerParam_Deserialization : M ZeroCopySource ApproveRelayerParam :=
  ID ← must "source.NextVarUint, deserialize ID error" NextVarUint;
  addr ← read_address "source.NextVarBytes, deserialize address error"
           "common.AddressParseFromBytes, deserialize address error: ";
  mret (mkApproveRelayerParam ID addr).

#[export] Program Instance RelayerListParam_ser : Serializable RelayerListParam := {|
  Serialization := RelayerListParam_Serialization;
  Deserialization := RelayerListParam_Deserialization;
  ser_wf p := is_u64 (blen (AddressList p));
|}.
Next Obligation.
  intros [l a] Hl. cbn [AddressList] in Hl. unfold RelayerListParam_Serialization, RelayerListParam_Deserialization.
  cbn [AddressList rl_Address]. rewrite enc_ops_cons, enc_ops_app. cbn [enc_op]. codec_step.
  eapply decodes_bind; [|solve_roundtrip].
  apply decodes_list; [done| |intros; apply enc_varbytes_pos].
  intros x _. rewrite enc_ops_cons, enc_ops_nil, app_nil_r. unfold OpVarAddress. cbn [enc_op]. auto with codec.
Qed.
Next Obligation.
  unfold RelayerListParam_Deserialization. apply safe_bind; [solve_total|intros].
  apply safe_bind; [apply safe_loopM; auto with safe|intros]. solve_total.
Qed.

#[export] Program Instance ApproveRelayerParam_ser : Serializable ApproveRelayerParam := {|
  Serialization := ApproveRelayerParam_Serialization;
  Deserialization := ApproveRelayerParam_Deserialization;
  ser_wf p := is_u64 (ar_ID p);
|}.
Next Obligation. intros [] ?. unfold ApproveRelayerParam_Serialization, ApproveRelayerParam_Deserialization. solve_roundtrip. Qed.
Next Obligation. unfold ApproveRelayerParam_Deserialization. solve_total. Qed.

(** ** utils.go *)

Definition RELAYER : bytes := gs "relayer".
Definition RELAYER_APPLY : bytes := gs "relayerApply".
Definition RELAYER_REMOVE : bytes := gs "relayerRemove".
Definition APPLY_ID : bytes := gs "applyID".
Definition REMOVE_ID : bytes := gs "removeID".
Definition APPROVE_REGISTER_RELAYER : bytes := gs "approveRegisterRelayer".
Definition APPROVE_REMOVE_RELAYER : bytes := gs "approveRemoveRelayer".

Definition rm_key (args : list bytes) : bytes := ConcatKey RelayerManagerContractAddress args.
Definition relayer_key (a : Address) : bytes := rm_key [RELAYER; to_slice a].
Definition relayerApply_key (id : Z) : bytes := rm_key [RELAYER_APPLY; GetUint64Bytes id].
Definition relayerRemove_key (id : Z) : bytes := rm_key [RELAYER_REMOVE; GetUint64Bytes id].

Section relayer_manager.
Context `{Hasher} `{Crypto}.

Definition putRelayer (relayer : Address) : contract NativeService unit :=
  cput (relayer_key relayer) (GenRawStorageItem (to_slice relayer)).

Definition getApplyID : contract NativeService Z :=
  get_counter "getApplyID, get applyIDStore error: " "getApplyID, deserialize from raw storage item err:" (rm_key [APPLY_ID]).
Definition putApplyID (applyID : Z) : contract NativeService unit := put_counter (rm_key [APPLY_ID]) applyID.
Definition putRelayerApply (p : RelayerListParam) : contract NativeService unit :=
  applyID ← cwrap "putRelayerApply, getApplyID error: " getApplyID;
  putApplyID (u64 (applyID + 1)) ;;
  store_item (relayerApply_key applyID) p ;;
  notify_nm [NStr (gs "putRelayerApply"); NInt applyID].

(** An error of [Deserialization] is dropped, which leaves the zero value. *)
Definition load_list (raw_err : string) (raw : bytes) : contract NativeService RelayerListParam :=
  b ← cwrap raw_err (lift_res (GetValueFromRawStorageItem raw));
  match deserialize b with
  | Ok p => mret p
  | Err _ => mret (mkRelayerListParam [] ADDRESS_EMPTY)
  | Panic => CPanic
  end.

Definition getRelayerApply (applyID : Z) : contract NativeService RelayerListParam :=
  store ← cwrap "getRelayerApply, get relayerListParamStore error: " (cget (relayerApply_key applyID));
  if decide (store = []) then CFail "getRelayerApply, can't find any record" else
  load_list "getRelayerApply, deserialize from raw storage item err:" store.

Definition getRemoveID : contract NativeService Z :=
  get_counter "getRemoveID, get removeIDStore error: " "getRemoveID, deserialize from raw storage item err:" (rm_key [REMOVE_ID]).
Definition putRemoveID (removeID : Z) : contract NativeService unit := put_counter (rm_key [REMOVE_ID]) removeID.
Definition putRelayerRemove (p : RelayerListParam) : contract NativeService unit :=
  removeID ← cwrap "putRelayerRemove, getRemoveID error: " getRemoveID;
  putRemoveID (u64 (removeID + 1)) ;;
  store_item (relayerRemove_key removeID) p ;;
  notify_nm [NStr (gs "putRelayerRemove"); NInt removeID].
Definition getRelayerRemove (removeID : Z) : contract NativeService RelayerListParam :=
  store ← cwrap "getRelayerRemove, get relayerListParamStore error: " (cget (relayerRemove_key removeID));
  if decide (store = []) then CFail "getRelayerRemove, can't find any record" else
  load_list "getRelayerRemove, deserialize from raw storage item err:" store.

(** ** relayer_manager.go *)

Definition notify_rm (states : list nval) : contract NativeService unit :=
  AddNotify (mkNotify RelayerManagerContractAddress states).

Definition RegisterRelayer : Handler :=
  params ← input_as (A := RelayerListParam) "RegisterRelayer, contract params deserialize error: ";
  cwrap ("RegisterRelayer, checkWitness: " +:+ go_str (ToBase58 (rl_Address params)) +:+ ", error: ") (ValidateOwner (rl_Address params)) ;;
  cwrap "RegisterRelayer, putRelayer error: " (putRelayerApply params) ;;
  mret BYTE_TRUE.

Definition ApproveRegisterRelayer : Handler :=
  params ← input_as (A := ApproveRelayerParam) "ApproveRegisterRelayer, contract params deserialize error: ";
  cwrap "ApproveRegisterRelayer, checkWitness error: " (ValidateOwner (ar_Address params)) ;;
  relayerListParam ← cwrap "ApproveRegisterRelayer, getRelayerApply error: " (getRelayerApply (ar_ID params));
  ok ← cwrap "ApproveRegisterRelayer, CheckConsensusSigns error: "
         (CheckConsensusSigns APPROVE_REGISTER_RELAYER (GetUint64Bytes (ar_ID params)) (ar_Address params));
  if negb ok then mret BYTE_TRUE else
  cforeach (AddressList relayerListParam) tt (λ _ address,
    cwrap "ApproveRegisterRelayer, putRelayer error: " (putRelayer address)) ;;
  cdel (relayerApply_key (ar_ID params)) ;;
  notify_rm [NStr (gs "ApproveRegisterRelayer"); NInt (ar_ID params)] ;;
  mret BYTE_TRUE.

Definition RemoveRelayer : Handler :=
  params ← input_as (A := RelayerListParam) "RemoveRelayer, contract params deserialize error: ";
  cwrap ("RemoveRelayer, checkWitness: " +:+ go_str (ToBase58 (rl_Address params)) +:+ ", error: ") (ValidateOwner (rl_Address params)) ;;
  cwrap "RemoveRelayer, putRelayer error: " (putRelayerRemove params) ;;
  mret BYTE_TRUE.

(** The approved request is not deleted. *)
Definition ApproveRemoveRelayer : Handler :=
  params ← input_as (A := ApproveRelayerParam) "ApproveRemoveRelayer, contract params deserialize error: ";
  cwrap "ApproveRemoveRelayer, checkWitness error: " (ValidateOwner (ar_Address params)) ;;
  relayerListParam ← cwrap "ApproveRemoveRelayer, getRelayerRemove error: " (getRelayerRemove (ar_ID params));
  ok ← cwrap "ApproveRemoveRelayer, CheckConsensusSigns error: "
         (CheckConsensusSigns APPROVE_REMOVE_RELAYER (GetUint64Bytes (ar_ID params)) (ar_Address params));
  if negb ok then mret BYTE_TRUE else
  cforeach (AddressList relayerListParam) tt (λ _ address, cdel (relayer_key address)) ;;
  notify_rm [NStr (gs "ApproveRemoveRelayer"); NInt (ar_ID params)] ;;
  mret BYTE_TRUE.

Definition RegisterRelayerManagerContract : list (bytes * Handler) :=
  [(gs "registerRelayer", RegisterRelayer); (APPROVE_REGISTER_RELAYER, ApproveRegisterRelayer);
   (gs "RemoveRelayer", RemoveRelayer); (APPROVE_REMOVE_RELAYER, ApproveRemoveRelayer)].

End relayer_manager.

(** ** The abstract register of relayers *)

Record relayers := mkRelayers {
  rs_members : gset Address;
  rs_applies : requests RelayerListParam;
  rs_removes : requests RelayerListParam;
}.

Abbreviation apply_rep := (req_rep RelayerManagerContractAddress RELAYER_APPLY APPLY_ID deserialize).
Abbreviation remove_rep := (req_rep RelayerManagerContractAddress RELAYER_REMOVE REMOVE_ID deserialize).

Record relayer_rep (m : kvmap) (R : relayers) : Prop := {
  rr_members : ∀ a, kv_at m (relayer_key a) ≠ [] ↔ a ∈ rs_members R;
  rr_applies : apply_rep m (rs_applies R);
  rr_removes : remove_rep m (rs_removes R);
}.

(** The keys of the contract have pairwise different lengths. *)
Ltac rm_ne :=
  apply ConcatKey_len_ne; unfold GetUint64Bytes; cbn [mjoin list_join];
  rewrite ?length_app, ?length_to_slice, ?length_le_put; by vm_compute.

Lemma relayer_key_inj a b : relayer_key a = relayer_key b → a = b.
Proof. unfold relayer_key, rm_key. rewrite !ConcatKey2. intros E. do 2 apply app_inv_head in E. by apply to_slice_inj. Qed.

Lemma relayer_rep_agree m m' R : (∀ l, m' !! rm_key l = m !! rm_key l) → relayer_rep m R → relayer_rep m' R.
Proof.
  intros Hm [Hmem Ha Hr]. split.
  - intros a. rewrite <- Hmem. unfold kv_at, relayer_key. by rewrite Hm.
  - eapply req_rep_agree; [apply Hm|intros; apply Hm|done].
  - eapply req_rep_agree; [apply Hm|intros; apply Hm|done].
Qed.

(** The set of members changes, the requests do not. *)
Lemma relayer_rep_put m R a v :
  v ≠ [] → relayer_rep m R →
  relayer_rep (<[relayer_key a := v]> m) (mkRelayers ({[a]} ∪ rs_members R) (rs_applies R) (rs_removes R)).
Proof.
  intros Hv [Hmem Ha Hr]. split; cbn [rs_members rs_applies rs_removes].
  - intros b. unfold kv_at. rewrite elem_of_union, elem_of_singleton. destruct (decide (a = b)) as [<-|Hne].
    + rewrite lookup_insert_eq. naive_solver.
    + rewrite lookup_insert_ne by (by intros E%relayer_key_inj). rewrite <- Hmem. unfold kv_at. naive_solver.
  - eapply req_rep_agree; [..|done]; intros; apply lookup_insert_ne; rm_ne.
  - eapply req_rep_agree; [..|done]; intros; apply lookup_insert_ne; rm_ne.
Qed.

Lemma relayer_rep_del m R a :
  relayer_rep m R →
  relayer_rep (delete (relayer_key a) m) (mkRelayers (rs_members R ∖ {[a]}) (rs_applies R) (rs_removes R)).
Proof.
  intros [Hmem Ha Hr]. split; cbn [rs_members rs_applies rs_removes].
  - intros b. unfold kv_at. rewrite elem_of_difference, elem_of_singleton. destruct (decide (a = b)) as [<-|Hne].
    + rewrite lookup_delete_eq. naive_solver.
    + rewrite lookup_delete_ne by (by intros E%relayer_key_inj). rewrite <- Hmem. unfold kv_at. naive_solver.
  - eapply req_rep_agree; [..|done]; intros; apply lookup_delete_ne; rm_ne.
  - eapply req_rep_agree; [..|done]; intros; apply lookup_delete_ne; rm_ne.
Qed.

Section register.
Context `{Hasher} `{Crypto}.
Implicit Types (m : kvmap) (s : NativeService) (p : PeerPoolMap) (R : relayers).

Inductive relayer_step m p s R : relayers → Prop :=
  | rl_keep : relayer_step m p s R R
  | rl_ask_register x :
      CheckWitness (rl_Address x) s = true →
      relayer_step m p s R (mkRelayers (rs_members R) (ask x (rs_applies R)) (rs_removes R))
  | rl_register id x :
      rq_table (rs_applies R) !! id = Some x → approved m p s APPROVE_REGISTER_RELAYER id →
      relayer_step m p s R (mkRelayers (rs_members R ∪ list_to_set (AddressList x)) (settle id (rs_applies R)) (rs_removes R))
  | rl_ask_remove x :
      CheckWitness (rl_Address x) s = true →
      relayer_step m p s R (mkRelayers (rs_members R) (rs_applies R) (ask x (rs_removes R)))
  | rl_remove id x :
      rq_table (rs_removes R) !! id = Some x → approved m p s APPROVE_REMOVE_RELAYER id →
      relayer_step m p s R (mkRelayers (rs_members R ∖ list_to_set (AddressList x)) (rs_applies R) (rs_removes R)).

(** The loops of the approvals. *)
Lemma put_all_inv e (l : list Address) m s R u m' s' :
  relayer_rep m R → run (cforeach l tt (λ _ a, cwrap e (putRelayer a))) (m, s) = (Ok u, (m', s')) →
  s' = s ∧ relayer_rep m' (mkRelayers (rs_members R ∪ list_to_set l) (rs_applies R) (rs_removes R)).
Proof.
  revert m R. induction l as [|a l IH]; intros m R HR Hr; cbn [cforeach] in Hr.
  - injection Hr as <- <- <-. split; [done|]. destruct R. cbn. by rewrite union_empty_r_L.
  - change (cbind ?c ?f) with (c ≫= f) in Hr. unfold putRelayer in Hr. crun Hr.
    eapply IH in Hr as [-> HR']; [|by eapply relayer_rep_put; [apply GenRawStorageItem_nonempty|]].
    split; [done|]. cbn [rs_members rs_applies rs_removes list_to_set] in *.
    by replace (rs_members R ∪ ({[a]} ∪ list_to_set l)) with ({[a]} ∪ rs_members R ∪ list_to_set l) by set_solver.
Qed.

Lemma del_all_inv (l : list Address) m s R u m' s' :
  relayer_rep m R → run (cforeach l tt (λ _ a, cdel (relayer_key a))) (m, s) = (Ok u, (m', s')) →
  s' = s ∧ relayer_rep m' (mkRelayers (rs_members R ∖ list_to_set l) (rs_applies R) (rs_removes R)).
Proof.
  revert m R. induction l as [|a l IH]; intros m R HR Hr; cbn [cforeach] in Hr.
  - injection Hr as <- <- <-. split; [done|]. destruct R. cbn. by rewrite difference_empty_L.
  - change (cbind ?c ?f) with (c ≫= f) in Hr. crun Hr.
    eapply IH in Hr as [-> HR']; [|by apply relayer_rep_del].
    split; [done|]. cbn [rs_members rs_applies rs_removes list_to_set] in *.
    by replace (rs_members R ∖ ({[a]} ∪ list_to_set l)) with (rs_members R ∖ {[a]} ∖ list_to_set l) by set_solver.
Qed.

(** ** The methods *)

Lemma list_wf_bytes (x : RelayerListParam) : blen (sink_bytes x) < 2 ^ 63 → ser_wf x.
Proof.
  intros Hb. assert (blen (AddressList x) ≤ blen (sink_bytes x)); [|cbn; unfold in_range; lia].
  unfold sink_bytes. cbn [Serialization RelayerListParam_ser]. unfold RelayerListParam_Serialization.
  rewrite enc_ops_cons, enc_ops_app, !length_app.
  pose proof (length_enc_list (λ v, [OpVarAddress v]) (AddressList x) (λ a _, enc_varbytes_pos _ _)). lia.
Qed.

Lemma list_stored m k (x : RelayerListParam) :
  fits m → m !! k = Some (GenRawStorageItem (sink_bytes x)) → blen (sink_bytes x) < 2 ^ 63 ∧ deserialize (sink_bytes x) = Ok x.
Proof.
  intros Hf Hk. assert (blen (sink_bytes x) < 2 ^ 63) as Hb by exact (fits_raw _ _ _ Hf Hk).
  split; [done|]. apply deserialize_sink; [by apply list_wf_bytes|done].
Qed.

Lemma yields_Approve : yields ApproveRelayerParam_Deserialization ser_wf.
Proof.
  unfold ApproveRelayerParam_Deserialization. eapply yields_bind; [apply yields_varuint|intros c Hc].
  eapply yields_bind; [apply yields_safe; auto with safe|intros addr _]. by apply yields_ret.
Qed.

(** The list a getter of a request returned. *)
Lemma load_list_inv e m k (o : option RelayerListParam) s x st :
  entry m k o → kv_at m k ≠ [] → run (load_list e (kv_at m k)) (m, s) = (Ok x, st) → st = (m, s) ∧ o = Some x.
Proof.
  intros He Hk Hr. destruct o as [y|]; [|done]. destruct He as (_ & v & Ev & Ed). unfold load_list in Hr. destruct st. crun Hr.
  rewrite Ev in Hl. simplify_eq. rewrite Ed in Hr. crun Hr. done.
Qed.

Lemma getRelayerApply_inv id m s R x st :
  is_u64 id → relayer_rep m R → run (getRelayerApply id) (m, s) = (Ok x, st) →
  st = (m, s) ∧ rq_table (rs_applies R) !! id = Some x.
Proof.
  intros Hid HR Hr. unfold getRelayerApply in Hr. destruct st. crun Hr. case_decide; [crun Hr|].
  eapply load_list_inv in Hr; [done|apply (rq_entry _ _ _ _ _ _ (rr_applies _ _ HR) id Hid)|done].
Qed.
Lemma getRelayerRemove_inv id m s R x st :
  is_u64 id → relayer_rep m R → run (getRelayerRemove id) (m, s) = (Ok x, st) →
  st = (m, s) ∧ rq_table (rs_removes R) !! id = Some x.
Proof.
  intros Hid HR Hr. unfold getRelayerRemove in Hr. destruct st. crun Hr. case_decide; [crun Hr|].
  eapply load_list_inv in Hr; [done|apply (rq_entry _ _ _ _ _ _ (rr_removes _ _ HR) id Hid)|done].
Qed.

(** Collecting a signature leaves the register alone. *)
Lemma relayer_signs (method : bytes) c (a : Address) m p s b m' s' R :
  pool_at m p → CheckWitness a s = true → relayer_rep m R →
  run (CheckConsensusSigns method (GetUint64Bytes c) a) (m, s) = (Ok b, (m', s')) →
  (b = true → approved m p s method c) ∧ relayer_rep m' R.
Proof.
  intros Hp Ha HR Hr. apply (CheckConsensusSigns_approved _ _ _ _ p) in Hr as [Happ (h & Hm)]; [|done..].
  split; [done|]. assert (∀ l, signs_key h ≠ rm_key l) as Hne.
  { intros l E%ConcatKey_contract%(f_equal to_slice). by vm_compute in E. }
  eapply relayer_rep_agree; [|done]. intros l. destruct Hm as [->|[v ->]]; [by apply lookup_delete_ne|by apply lookup_insert_ne].
Qed.

Definition relayer_method (h : Handler) : Prop := ∀ m p s R r m' s',
  relayer_rep m R → pool_at m p → blen (ns_input s) < 2 ^ 63 → fits m' → run h (m, s) = (Ok r, (m', s')) →
  ∃ R', relayer_step m p s R R' ∧ relayer_rep m' R'.

Lemma RegisterRelayer_rel : relayer_method RegisterRelayer.
Proof.
  intros m p s R r m' s' HR Hp Hin Hfit Hr. unfold RegisterRelayer, putRelayerApply, getApplyID, putApplyID, put_counter, store_item in Hr.
  crun Hr. destruct HR as [Hmem Ha Hrm].
  erewrite run_get_counter in Hr2; [|apply Ha|apply Ha]. simplify_eq.
  destruct (list_stored _ _ _ Hfit (lookup_insert_eq _ _ _)) as [Hb Hd].
  eexists. split; [by apply rl_ask_register|]. split; cbn [rs_members rs_applies rs_removes].
  - intros a. rewrite <- Hmem. unfold kv_at. rewrite !lookup_insert_ne; [done|rm_ne..].
  - by apply req_rep_ask.
  - eapply req_rep_agree; [..|done]; intros; rewrite !lookup_insert_ne; first [done|rm_ne].
Qed.

Lemma RemoveRelayer_rel : relayer_method RemoveRelayer.
Proof.
  intros m p s R r m' s' HR Hp Hin Hfit Hr. unfold RemoveRelayer, putRelayerRemove, getRemoveID, putRemoveID, put_counter, store_item in Hr.
  crun Hr. destruct HR as [Hmem Ha Hrm].
  erewrite run_get_counter in Hr2; [|apply Hrm|apply Hrm]. simplify_eq.
  destruct (list_stored _ _ _ Hfit (lookup_insert_eq _ _ _)) as [Hb Hd].
  eexists. split; [by apply rl_ask_remove|]. split; cbn [rs_members rs_applies rs_removes].
  - intros a. rewrite <- Hmem. unfold kv_at. rewrite !lookup_insert_ne; [done|rm_ne..].
  - eapply req_rep_agree; [..|done]; intros; rewrite !lookup_insert_ne; first [done|rm_ne].
  - by apply req_rep_ask.
Qed.

Lemma ApproveRegisterRelayer_rel : relayer_method ApproveRegisterRelayer.
Proof.
  intros m p s R r m' s' HR Hp Hin Hfit Hr. unfold ApproveRegisterRelayer, notify_rm, AddNotify in Hr. crun Hr.
  apply (input_param ser_wf) in Hr0; [|apply yields_Approve|done].
  eapply getRelayerApply_inv in Hr1 as [E Hx]; [|done..]. simplify_eq.
  eapply relayer_signs in Hr2 as [Happ HR1]; [|done..].
  destruct x2; cbn [negb] in Hr; crun Hr; [|by exists R; split; [apply rl_keep|]].
  match goal with E : run (cforeach _ _ _) _ = _ |- _ => eapply put_all_inv in E as [-> HR2]; [|done] end. eexists. split; [by eapply rl_register; [|auto]|].
  destruct HR2 as [Hmem Ha Hrm]. cbn [rs_members rs_applies rs_removes] in *. split; cbn [rs_members rs_applies rs_removes].
  - intros a. rewrite <- Hmem. unfold kv_at. rewrite lookup_delete_ne; [done|rm_ne].
  - by apply req_rep_settle.
  - eapply req_rep_agree; [..|done]; intros; rewrite lookup_delete_ne; first [done|rm_ne].
Qed.

Lemma ApproveRemoveRelayer_rel : relayer_method ApproveRemoveRelayer.
Proof.
  intros m p s R r m' s' HR Hp Hin Hfit Hr. unfold ApproveRemoveRelayer, notify_rm, AddNotify in Hr. crun Hr.
  apply (input_param ser_wf) in Hr0; [|apply yields_Approve|done].
  eapply getRelayerRemove_inv in Hr1 as [E Hx]; [|done..]. simplify_eq.
  eapply relayer_signs in Hr2 as [Happ HR1]; [|done..].
  destruct x2; cbn [negb] in Hr; crun Hr; [|by exists R; split; [apply rl_keep|]].
  match goal with E : run (cforeach _ _ _) _ = _ |- _ => eapply del_all_inv in E as [-> HR2]; [|done] end. eexists. split; [by eapply rl_remove; [|auto]|done].
Qed.

(** The register of relayers.  Every method of the relayer manager that
    succeeds is a step of the abstract register: anyone can ask, under the next
    number, for a list of addresses to be added or removed; the set of relayers
    changes only by a request on record, by exactly its addresses, and only when
    the signatures recorded for that request, with the caller's, are two thirds of
    the consensus peers of the current view.  An approved registration is taken off
    the record, an approved removal stays on it. *)
Theorem relayer_manager_refines (name : bytes) (h : Handler) m p s R r m' s' :
  (name, h) ∈ RegisterRelayerManagerContract → relayer_rep m R → pool_at m p → blen (ns_input s) < 2 ^ 63 → fits m' →
  run h (m, s) = (Ok r, (m', s')) → ∃ R', relayer_step m p s R R' ∧ relayer_rep m' R'.
Proof.
  intros Hin. enough (relayer_method h) as Hh by apply Hh. unfold RegisterRelayerManagerContract in Hin.
  repeat (apply elem_of_cons in Hin as [E|Hin]; [injection E as _ ->|]); [..|by apply not_elem_of_nil in Hin].
  - apply RegisterRelayer_rel.
  - apply ApproveRegisterRelayer_rel.
  - apply RemoveRelayer_rel.
  - apply ApproveRemoveRelayer_rel.
Qed.

End register.

(** Three of the five peers have signed request 0; the fourth approval adds its two
    relayers. *)
Definition ex_list : RelayerListParam := mkRelayerListParam [ex_addr 7; ex_addr 8] (ex_addr 7).
Definition ex_relayer_hash : Uint256 := Sum256 (APPROVE_REGISTER_RELAYER ++ GetUint64Bytes 0).
Definition ex_relayer_signs : ConsensusSigns := list_to_map ((λ i, (ex_addr i, true)) <$> [1; 2; 3]).
Definition ex_requested : kvmap :=
  <[relayerApply_key 0 := GenRawStorageItem (sink_bytes ex_list)]>
  (<[rm_key [APPLY_ID] := GenRawStorageItem (GetUint64Bytes 1)]> ex_gov).
Definition ex_relayer_store : kvmap :=
  <[signs_key ex_relayer_hash := GenRawStorageItem (sink_bytes ex_relayer_signs)]> ex_requested.
Definition ex_relayers : relayers := mkRelayers ∅ (ask ex_list (mkRequests 0 ∅)) (mkRequests 0 ∅).
Definition ex_relayer_call : NativeService := ex_service 4 7 (sink_bytes (mkApproveRelayerParam 0 (ex_addr 4))).

Lemma ex_gov_rm l : kv_at ex_gov (rm_key l) = [].
Proof.
  unfold kv_at, ex_gov. rewrite !lookup_insert_ne; [by rewrite lookup_empty|..].
  all: intros E%ConcatKey_contract%(f_equal to_slice); by vm_compute in E.
Qed.

Lemma empty_rep : relayer_rep ex_gov (mkRelayers ∅ (mkRequests 0 ∅) (mkRequests 0 ∅)).
Proof.
  split; cbn [rs_members rs_applies rs_removes].
  - intros a. unfold relayer_key. rewrite ex_gov_rm. set_solver.
  - split; [done|left; split; [apply ex_gov_rm|done]|intros; apply ex_gov_rm].
  - split; [done|left; split; [apply ex_gov_rm|done]|intros; apply ex_gov_rm].
Qed.

Lemma ex_requested_rep : relayer_rep ex_requested ex_relayers.
Proof.
  destruct empty_rep as [Hm Ha Hr]. split; cbn [rs_members rs_applies rs_removes ex_relayers].
  - intros a. rewrite <- Hm. unfold kv_at, ex_requested. rewrite !lookup_insert_ne; [done|rm_ne..].
  - apply (req_rep_ask RelayerManagerContractAddress RELAYER_APPLY APPLY_ID deserialize ex_gov (mkRequests 0 ∅)); [done|done| |by vm_compute].
    by apply deserialize_sink.
  - eapply req_rep_agree; [..|done]; intros; unfold ex_requested; rewrite !lookup_insert_ne; first [done|rm_ne].
Qed.

Lemma relayer_manager_refines_example :
  ∃ m' s', run ApproveRegisterRelayer (ex_relayer_store, ex_relayer_call) = (Ok BYTE_TRUE, (m', s')) ∧
    ∃ R', relayer_step ex_relayer_store ex_pool ex_relayer_call ex_relayers R' ∧ relayer_rep m' R'.
Proof.
  destruct (run ApproveRegisterRelayer (ex_relayer_store, ex_relayer_call)) as [r [m' s']] eqn:E.
  assert (r = Ok BYTE_TRUE) as -> by (by run_compute E).
  assert (map_Forall (λ _ v, blen v < 2 ^ 63) m') as Hf by (by run_compute E).
  exists m', s'. split; [reflexivity|].
  apply (relayer_manager_refines APPROVE_REGISTER_RELAYER ApproveRegisterRelayer
           ex_relayer_store ex_pool ex_relayer_call ex_relayers BYTE_TRUE m' s').
  - by apply (list_elem_of_lookup_2 _ 1).
  - eapply relayer_rep_agree; [|exact ex_requested_rep]. intros l. apply lookup_insert_ne.
    intros E'%ConcatKey_contract%(f_equal to_slice). by vm_compute in E'.
  - exists ex_view. split; (do 3 (apply stored_insert; [by vm_compute|])); [exact ex_gov_view|exact ex_gov_pool].
  - by vm_compute.
  - exact Hf.
  - exact E.
Defined.
