(* ===== verification/StateMgr.v ===== *)
(** * The Neo3 state validator manager and the replenish contract
    (governance/neo3_state_manager/param.go, utils.go, neo3_state_manager.go;
    governance/replenish/param.go, replenish.go)

    The state validators are one stored list; requests to extend or shrink it are
    numbered and approved by a quorum of the consensus peers.  The contract is shown
    to implement a bag of validators.  The replenish contract only notifies. *)

From stdpp Require Import gmultiset.
From S2P Require Import Prelude Sha256 Sink Source Serialization BytesOrder MemDB OverlayDB CacheDB Contract MerkleSpec MerkleHasher Native ExCrypto Codec NodeStates NodeManager NodeInv NodeGov NodeApproval CrossCommon ConsensusVote Approval.

(** ** param.go *)

(** A Go string is 16 bytes long in a slice. *)
Definition max_strings : Z := 2 ^ 48 / 16.

Record StateValidatorListParam := mkStateValidatorListParam { StateValidators : list bytes; sv_Address : Address }.
Definition StateValidatorListParam_Serialization (p : StateValidatorListParam) : list sink_op :=
  OpVarUint (blen (StateValidators p)) :: enc_list (λ v, [OpString v]) (StateValidators p) ++ [OpVarAddress (sv_Address p)].
(** [make([]string, 0, n)] panics when the capacity is too large. *)
Definition StateValidatorListParam_Deserialization : M ZeroCopySource StateValidatorListParam :=
  n ← must "source.NextVarUint, deserialize StateValidators length error" NextVarUint;
  make_elems 16 n ;;
  stateValidators ← loopM n (must "source.NextString, deserialize stateValidator error" NextString);
  addr ← read_address "source.NextVarBytes, deserialize address error"
           "common.AddressParseFromBytes, deserialize address error: ";
  mret (mkStateValidatorListParam stateValidators addr).

Record ApproveStateValidatorParam := mkApproveStateValidatorParam { as_ID : Z; as_Address : Address }.
Definition ApproveStateValidatorParam_Serialization (p : ApproveStateValidatorParam) : list sink_op :=
  [OpVarUint (as_ID p); OpVarAddress (as_Address p)].
Definition ApproveStateValidatorParam_Deserialization : M ZeroCopySource ApproveStateValidatorParam :=
  ID ← must "source.NextVarUint, deserialize ID error" NextVarUint;
  addr ← read_address "source.NextVarBytes, deserialize address error"
           "common.AddressParseFromBytes, deserialize address error: ";
  mret (mkApproveStateValidatorParam ID addr).

#[export] Program Instance ApproveStateValidatorParam_ser : Serializable ApproveStateValidatorParam := {|
  Serialization := ApproveStateValidatorParam_Serialization;
  Deserialization := ApproveStateValidatorParam_Deserialization;
  ser_wf p := is_u64 (as_ID p);
|}.
Next Obligation.
  intros [] ?. unfold ApproveStateValidatorParam_Serialization, ApproveStateValidatorParam_Deserialization. solve_roundtrip.
Qed.
Next Obligation. unfold ApproveStateValidatorParam_Deserialization. solve_total. Qed.

Definition deserialize_list (b : bytes) : res StateValidatorListParam :=
  (StateValidatorListParam_Deserialization (NewZeroCopySource b)).1.

(** ** utils.go *)

Definition STATE_VALIDATOR : bytes := gs "stateValidator".
Definition STATE_VALIDATOR_APPLY : bytes := gs "stateValidatorApply".
Definition STATE_VALIDATOR_REMOVE : bytes := gs "stateValidatorRemove".
Definition STATE_VALIDATOR_APPLY_ID : bytes := gs "stateValidatorApplyID".
Definition STATE_VALIDATOR_REMOVE_ID : bytes := gs "stateValidatorRemoveID".
Definition APPROVE_REGISTER_STATE_VALIDATOR : bytes := gs "approveRegisterStateValidator".
Definition APPROVE_REMOVE_STATE_VALIDATOR : bytes := gs "approveRemoveStateValidator".

Definition n3_key (args : list bytes) : bytes := ConcatKey Neo3StateManagerContractAddress args.
Definition svApply_key (id : Z) : bytes := n3_key [STATE_VALIDATOR_APPLY; GetUint64Bytes id].
Definition svRemove_key (id : Z) : bytes := n3_key [STATE_VALIDATOR_REMOVE; GetUint64Bytes id].

Definition SerializeStringArray (data : list bytes) : bytes :=
  enc_ops (OpVarUint (blen data) :: enc_list (λ v, [OpString v]) data).
Definition read_strings : M ZeroCopySource (list bytes) :=
  n ← must "source.NextVarUint error" NextVarUint;
  make_elems 16 n ;;
  loopM n (must "source.NextString error" NextString).
Definition DeserializeStringArray (data : bytes) : res (list bytes) :=
  if decide (blen data = 0) then Ok [] else (read_strings (NewZeroCopySource data)).1.

(** The validators of the request that are not on the old list. *)
Definition add_validators (oldSVs stateValidators : list bytes) : list bytes :=
  foldl (λ newSVs sv, if decide (sv ∈ oldSVs) then newSVs else newSVs ++ [sv]) oldSVs stateValidators.
(** [append(oldSVs[:i], oldSVs[i+1:]...)] at the first occurrence. *)
Definition remove_first (oldSVs : list bytes) (sv : bytes) : list bytes :=
  match list_find (sv =.) oldSVs with
  | Some (i, _) => take i oldSVs ++ drop (S i) oldSVs
  | None => oldSVs
  end.

Section state_manager.
Context `{Hasher} `{Crypto}.

Definition getStateValidators : contract NativeService bytes :=
  svStore ← cwrap "getStateValidator, get stateValidatorListParamStore error: " (cget (n3_key [STATE_VALIDATOR]));
  if decide (svStore = []) then mret [] else
  cwrap "getStateValidator, deserialize from raw storage item error: " (lift_res (GetValueFromRawStorageItem svStore)).

Definition putStateValidators (stateValidators : list bytes) : contract NativeService unit :=
  oldSvBytes ← cwrap "putStateValidator, get old state validators error: " getStateValidators;
  oldSVs ← cwrap "putStateValidator, convert to string array error: " (lift_res (DeserializeStringArray oldSvBytes));
  cput (n3_key [STATE_VALIDATOR]) (GenRawStorageItem (SerializeStringArray (add_validators oldSVs stateValidators))).

Definition removeStateValidators (stateValidators : list bytes) : contract NativeService unit :=
  oldSvBytes ← cwrap "removeStateValidator, get old state validators error: " getStateValidators;
  oldSVs ← cwrap "removeStateValidator, convert to string array error: " (lift_res (DeserializeStringArray oldSvBytes));
  let oldSVs := foldl remove_first oldSVs stateValidators in
  if decide (blen oldSVs = 0) then cdel (n3_key [STATE_VALIDATOR])
  else cput (n3_key [STATE_VALIDATOR]) (GenRawStorageItem (SerializeStringArray oldSVs)).

(** [None]: a nil pointer with a nil error.  An error of [Deserialization] is
    dropped, which leaves the zero value. *)
Definition getStateValidatorApply (applyID : Z) : contract NativeService (option StateValidatorListParam) :=
  store ← cwrap "getStateValidatorApply, get stateValidatorListParamStore error: " (cget (svApply_key applyID));
  if decide (store = []) then mret None else
  b ← cwrap "getStateValidatorApply, deserialize from raw storage item error: " (lift_res (GetValueFromRawStorageItem store));
  match deserialize_list b with
  | Ok p => mret (Some p)
  | Err _ => mret (Some (mkStateValidatorListParam [] ADDRESS_EMPTY))
  | Panic => CPanic
  end.

Definition getStateValidatorApplyID : contract NativeService Z :=
  get_counter "getStateValidatorApplyID, get applyIDStore error: "
    "getStateValidatorApplyID, deserialize from raw storage item error: " (n3_key [STATE_VALIDATOR_APPLY_ID]).
Definition putStateValidatorApplyID (applyID : Z) : contract NativeService unit :=
  put_counter (n3_key [STATE_VALIDATOR_APPLY_ID]) applyID.

Definition notify_n3 (states : list nval) : contract NativeService unit :=
  AddNotify (mkNotify Neo3StateManagerContractAddress states).

Definition putStateValidatorApply (p : StateValidatorListParam) : contract NativeService unit :=
  applyID ← cwrap "putStateValidatorApply, getStateValidatorApplyID error: " getStateValidatorApplyID;
  putStateValidatorApplyID (u64 (applyID + 1)) ;;
  cput (svApply_key applyID) (GenRawStorageItem (enc_ops (StateValidatorListParam_Serialization p))) ;;
  notify_n3 [NStr (gs "putStateValidatorApply"); NInt applyID].

Definition getStateValidatorRemove (removeID : Z) : contract NativeService (option StateValidatorListParam) :=
  store ← cwrap "getStateValidatorRemove, get stateValidatorListParamStore error: " (cget (svRemove_key removeID));
  if decide (store = []) then mret None else
  b ← cwrap "getStateValidatorRemove, deserialize from raw storage item error: " (lift_res (GetValueFromRawStorageItem store));
  p ← cwrap "getStateValidatorRemove, svListParam.Deserialization error: " (lift_res (deserialize_list b));
  mret (Some p).

Definition getStateValidatorRemoveID : contract NativeService Z :=
  get_counter "getStateValidatorRemoveID, get removeIDStore error: "
    "getStateValidatorRemoveID, deserialize from raw storage item error: " (n3_key [STATE_VALIDATOR_REMOVE_ID]).
Definition putStateValidatorRemoveID (removeID : Z) : contract NativeService unit :=
  put_counter (n3_key [STATE_VALIDATOR_REMOVE_ID]) removeID.
Definition putStateValidatorRemove (p : StateValidatorListParam) : contract NativeService unit :=
  removeID ← cwrap "putStateValidatorRemove, getStateValidatorRemoveID error: " getStateValidatorRemoveID;
  putStateValidatorRemoveID (u64 (removeID + 1)) ;;
  cput (svRemove_key removeID) (GenRawStorageItem (enc_ops (StateValidatorListParam_Serialization p))) ;;
  notify_n3 [NStr (gs "putStateValidatorRemove"); NInt removeID].

(** ** neo3_state_manager.go *)

Definition GetCurrentStateValidator : Handler :=
  cwrap "GetCurrentStateValidator, getStateValidators error: " getStateValidators.

Definition RegisterStateValidator : Handler :=
  input ← cask ns_input;
  params ← cwrap "RegisterStateValidator, params.Deserialization error: " (lift_res (deserialize_list input));
  cwrap ("RegisterStateValidator, checkWitness: " +:+ go_str (ToBase58 (sv_Address params)) +:+ ", error: ") (ValidateOwner (sv_Address params)) ;;
  cwrap "RegisterStateValidator, putStateValidatorApply error: " (putStateValidatorApply params) ;;
  mret BYTE_TRUE.

Definition ApproveRegisterStateValidator : Handler :=
  params ← input_as (A := ApproveStateValidatorParam) "ApproveRegisterStateValidator, contract params deserialize error: ";
  cwrap "ApproveRegisterStateValidator, checkWitness error: " (ValidateOwner (as_Address params)) ;;
  svListParam ← cwrap "ApproveRegisterStateValidator, getStateValidatorApply error: " (getStateValidatorApply (as_ID params));
  ok ← cwrap "ApproveRegisterStateValidator, CheckConsensusSigns error: "
         (CheckConsensusSigns APPROVE_REGISTER_STATE_VALIDATOR (GetUint64Bytes (as_ID params)) (as_Address params));
  if negb ok then mret BYTE_FALSE else
  match svListParam with
  | None => CPanic                 (* svListParam.StateValidators dereferences nil *)
  | Some svListParam =>
      cwrap "ApproveRegisterStateValidator, putStateValidators error: " (putStateValidators (StateValidators svListParam)) ;;
      cdel (svApply_key (as_ID params)) ;;
      notify_n3 [NStr (gs "ApproveRegisterStateValidator"); NInt (as_ID params)] ;;
      mret BYTE_TRUE
  end.

Definition RemoveStateValidator : Handler :=
  input ← cask ns_input;
  params ← cwrap "RemoveStateValidator, contract params deserialize error: " (lift_res (deserialize_list input));
  cwrap ("RemoveStateValidator, checkWitness: " +:+ go_str (ToBase58 (sv_Address params)) +:+ ", error: ") (ValidateOwner (sv_Address params)) ;;
  cwrap "RemoveStateValidator, putStateValidatorRemove error: " (putStateValidatorRemove params) ;;
  mret BYTE_TRUE.

Definition ApproveRemoveStateValidator : Handler :=
  params ← input_as (A := ApproveStateValidatorParam) "ApproveRemoveStateValidator, contract params deserialize error: ";
  cwrap "ApproveRemoveStateValidator, checkWitness error: " (ValidateOwner (as_Address params)) ;;
  svListParam ← cwrap "ApproveRemoveStateValidator, getStateValidatorRemove error: " (getStateValidatorRemove (as_ID params));
  ok ← cwrap "ApproveRemoveStateValidator, CheckConsensusSigns error: "
         (CheckConsensusSigns APPROVE_REMOVE_STATE_VALIDATOR (GetUint64Bytes (as_ID params)) (as_Address params));
  if negb ok then mret BYTE_FALSE else
  match svListParam with
  | None => CPanic
  | Some svListParam =>
      cwrap "ApproveRemoveStateValidator, removeStateValidators error: " (removeStateValidators (StateValidators svListParam)) ;;
      cdel (svRemove_key (as_ID params)) ;;
      notify_n3 [NStr (gs "ApproveRemoveStateValidator"); NInt (as_ID params)] ;;
      mret BYTE_TRUE
  end.

Definition RegisterStateValidatorManagerContract : list (bytes * Handler) :=
  [(gs "getCurrentStateValidator", GetCurrentStateValidator); (gs "registerStateValidator", RegisterStateValidator);
   (APPROVE_REGISTER_STATE_VALIDATOR, ApproveRegisterStateValidator); (gs "removeStateValidator", RemoveStateValidator);
   (APPROVE_REMOVE_STATE_VALIDATOR, ApproveRemoveStateValidator)].

End state_manager.

(** ** replenish *)

Record ReplenishTxParam := mkReplenishTxParam { rt_ChainId : Z; TxHashes : list bytes }.
Definition ReplenishTxParam_Serialization (p : ReplenishTxParam) : list sink_op :=
  [OpVarUint (rt_ChainId p); OpVarUint (blen (TxHashes p))] ++ enc_list (λ v, [OpString v]) (TxHashes p).
Definition ReplenishTxParam_Deserialization : M ZeroCopySource ReplenishTxParam :=
  chainId ← must "source.NextVarUint, deserialize chain id error" NextVarUint;
  n ← must "source.NextVarUint, deserialize txhashes length error" NextVarUint;
  txHashes ← loopM n (must "source.NextString, deserialize tx hash error" NextString);
  mret (mkReplenishTxParam chainId txHashes).

Lemma decodes_strings msg (l : list bytes) n :
  n = blen l → decodes (loopM n (must msg NextString)) (enc_ops (enc_list (λ v, [OpString v]) l)) l.
Proof.
  intros ->. apply decodes_list; [done| |intros; apply enc_varbytes_pos].
  intros x _. rewrite enc_ops_cons, enc_ops_nil, app_nil_r. cbn [enc_op]. auto with codec.
Qed.

#[export] Program Instance ReplenishTxParam_ser : Serializable ReplenishTxParam := {|
  Serialization := ReplenishTxParam_Serialization;
  Deserialization := ReplenishTxParam_Deserialization;
  ser_wf p := is_u64 (rt_ChainId p) ∧ is_u64 (blen (TxHashes p));
|}.
Next Obligation.
  intros [c l] [Hc Hl]. cbn [rt_ChainId TxHashes] in *. unfold ReplenishTxParam_Serialization, ReplenishTxParam_Deserialization.
  cbn [rt_ChainId TxHashes]. solve_roundtrip. by eapply decodes_map; [apply decodes_strings|].
Qed.
Next Obligation.
  unfold ReplenishTxParam_Deserialization. do 2 (apply safe_bind; [solve_total|intros]).
  apply safe_bind; [apply safe_loopM; auto with safe|intros; apply safe_ret].
Qed.

Section replenish.
Context `{Hasher} `{Crypto}.

Definition ReplenishTx : Handler :=
  params ← input_as (A := ReplenishTxParam) "ReplenishTx, contract params deserialize error: ";
  AddNotify (mkNotify ReplenishContractAddress [NStr (gs "ReplenishTx"); NStrs (TxHashes params); NInt (rt_ChainId params)]) ;;
  mret BYTE_TRUE.

Definition RegisterReplenishContract : list (bytes * Handler) := [(gs "replenishTx", ReplenishTx)].

End replenish.

(** ** Encodings *)

Lemma decodes_top {A} (rd : M ZeroCopySource A) bs a : decodes rd bs a → blen bs < 2 ^ 63 → (rd (NewZeroCopySource bs)).1 = Ok a.
Proof. intros Hd Hb. specialize (Hd [] []). rewrite app_nil_l, app_nil_r in Hd. change (mkSource bs (blen [])) with (NewZeroCopySource bs) in Hd. by rewrite Hd. Qed.

Lemma strings_bytes (l : list bytes) ops : blen l ≤ blen (enc_ops (OpVarUint (blen l) :: enc_list (λ v, [OpString v]) l ++ ops)).
Proof.
  rewrite enc_ops_cons, enc_ops_app, !length_app.
  assert (length l ≤ length (enc_ops (enc_list (λ v, [OpString v]) l)))%nat; [|lia].
  apply length_enc_list. intros; apply enc_varbytes_pos.
Qed.

Lemma list_read (x : StateValidatorListParam) :
  blen (enc_ops (StateValidatorListParam_Serialization x)) ≤ max_strings →
  deserialize_list (enc_ops (StateValidatorListParam_Serialization x)) = Ok x.
Proof.
  intros Hb. pose proof (strings_bytes (StateValidators x) [OpVarAddress (sv_Address x)]) as Hl. change max_strings with (2 ^ 44) in Hb.
  fold (StateValidatorListParam_Serialization x) in Hl. assert (blen (StateValidators x) ≤ 2 ^ 44) as Hn by lia.
  apply decodes_top; [|lia]. destruct x as [l a]. unfold StateValidatorListParam_Deserialization, StateValidatorListParam_Serialization.
  cbn [StateValidators sv_Address] in *. rewrite enc_ops_cons, enc_ops_app. cbn [enc_op].
  eapply decodes_must_bind; [apply decodes_NextVarUint; unfold in_range; lia|].
  eapply decodes_bind_nil; [by apply decodes_make_elems|].
  eapply decodes_bind; [by apply decodes_strings|]. solve_roundtrip.
Qed.

Lemma strings_read (l : list bytes) :
  blen (SerializeStringArray l) ≤ max_strings → DeserializeStringArray (SerializeStringArray l) = Ok l.
Proof.
  intros Hb. pose proof (strings_bytes l []) as Hl. rewrite app_nil_r in Hl. change max_strings with (2 ^ 44) in Hb.
  change (enc_ops _) with (SerializeStringArray l) in Hl. assert (blen l ≤ 2 ^ 44) as Hn by lia.
  unfold DeserializeStringArray. rewrite decide_False.
  - apply decodes_top; [|lia]. unfold read_strings, SerializeStringArray. rewrite enc_ops_cons. cbn [enc_op].
    eapply decodes_must_bind; [apply decodes_NextVarUint; unfold in_range; lia|].
    eapply decodes_bind_nil; [by apply decodes_make_elems|]. by apply decodes_strings.
  - unfold SerializeStringArray. rewrite enc_ops_cons, length_app. cbn [enc_op]. pose proof (length_enc_varuint (blen l)) as E. unfold varuint_size in E. repeat case_decide; lia.
Qed.

(** ** The bag of validators *)

Lemma add_validators_eq (old new : list bytes) : add_validators old new = old ++ filter (.∉ old) new.
Proof.
  unfold add_validators. enough (∀ acc, foldl (λ newSVs sv, if decide (sv ∈ old) then newSVs else newSVs ++ [sv]) acc new =
    acc ++ filter (.∉ old) new) as E by apply E.
  induction new as [|x new IH]; intros acc; cbn [foldl]; [by rewrite app_nil_r|]. rewrite filter_cons.
  case_decide; [rewrite decide_False by tauto|rewrite decide_True by done]; rewrite IH; [done|]. by rewrite <- app_assoc.
Qed.

Abbreviation bag := (list_to_set_disj (C := gmultiset bytes)).

Lemma remove_first_bag (l : list bytes) (x : bytes) : bag (remove_first l x) = bag l ∖ {[+ x +]}.
Proof.
  unfold remove_first. destruct (list_find (x =.) l) as [[i y]|] eqn:E.
  - apply list_find_Some in E as (Hi & <- & _).
    transitivity (bag (take i l ++ x :: drop (S i) l) ∖ {[+ x +]}); [|by rewrite take_drop_middle].
    rewrite !list_to_set_disj_app, list_to_set_disj_cons. multiset_solver.
  - apply list_find_None in E. assert (x ∉ bag l) as Hx.
    { rewrite elem_of_list_to_set_disj. intros Hin. rewrite Forall_forall in E. by apply (E x). }
    multiset_solver.
Qed.

Lemma remove_all_bag (l rm : list bytes) : bag (foldl remove_first l rm) = bag l ∖ bag rm.
Proof.
  revert l. induction rm as [|x rm IH]; intros l; cbn [foldl]; [rewrite list_to_set_disj_nil; multiset_solver|].
  rewrite list_to_set_disj_cons.   rewrite IH, remove_first_bag. multiset_solver.
Qed.

(** ** The abstract register *)

Record validators := mkValidators {
  vs_bag : gmultiset bytes;
  vs_applies : requests StateValidatorListParam;
  vs_removes : requests StateValidatorListParam;
}.

Abbreviation sv_apply_rep := (req_rep Neo3StateManagerContractAddress STATE_VALIDATOR_APPLY STATE_VALIDATOR_APPLY_ID deserialize_list).
Abbreviation sv_remove_rep := (req_rep Neo3StateManagerContractAddress STATE_VALIDATOR_REMOVE STATE_VALIDATOR_REMOVE_ID deserialize_list).

(** The stored list. *)
Definition strings_at (m : kvmap) (k : bytes) (l : list bytes) : Prop :=
  (kv_at m k = [] ∧ l = []) ∨
  (kv_at m k ≠ [] ∧ ∃ v, GetValueFromRawStorageItem (kv_at m k) = Ok v ∧ DeserializeStringArray v = Ok l).

Record validator_rep (m : kvmap) (V : validators) : Prop := {
  vr_list : ∃ l, strings_at m (n3_key [STATE_VALIDATOR]) l ∧ vs_bag V = bag l;
  vr_applies : sv_apply_rep m (vs_applies V);
  vr_removes : sv_remove_rep m (vs_removes V);
}.

(** No value is so large that a list in it could not be allocated. *)
Definition small (m : kvmap) : Prop := ∀ k v, m !! k = Some v → blen v ≤ max_strings.

Ltac n3_ne :=
  apply ConcatKey_len_ne; unfold GetUint64Bytes; cbn [mjoin list_join];
  rewrite ?length_app, ?length_to_slice, ?length_le_put; by vm_compute.

Lemma strings_agree m m' k l : m' !! k = m !! k → strings_at m k l → strings_at m' k l.
Proof. intros E. unfold strings_at, kv_at. by rewrite E. Qed.

Lemma validator_rep_agree m m' V : (∀ l, m' !! n3_key l = m !! n3_key l) → validator_rep m V → validator_rep m' V.
Proof.
  intros Hm [(l & Hl & Hb) Ha Hr]. split.
  - exists l. split; [|done]. eapply strings_agree; [apply Hm|done].
  - eapply req_rep_agree; [apply Hm|intros; apply Hm|done].
  - eapply req_rep_agree; [apply Hm|intros; apply Hm|done].
Qed.

Lemma small_raw m k b : small m → m !! k = Some (GenRawStorageItem b) → blen b ≤ max_strings.
Proof. intros Hf Hk. specialize (Hf _ _ Hk). pose proof (blen_GenRaw b). lia. Qed.

Section register.
Context `{Hasher} `{Crypto}.
Implicit Types (m : kvmap) (s : NativeService) (p : PeerPoolMap) (V : validators).

Inductive validator_step m p s V : validators → Prop :=
  | vl_keep : validator_step m p s V V
  | vl_ask_register x :
      CheckWitness (sv_Address x) s = true →
      validator_step m p s V (mkValidators (vs_bag V) (ask x (vs_applies V)) (vs_removes V))
  | vl_register id x :
      rq_table (vs_applies V) !! id = Some x → approved m p s APPROVE_REGISTER_STATE_VALIDATOR id →
      validator_step m p s V
        (mkValidators (vs_bag V ⊎ bag (filter (.∉ vs_bag V) (StateValidators x))) (settle id (vs_applies V)) (vs_removes V))
  | vl_ask_remove x :
      CheckWitness (sv_Address x) s = true →
      validator_step m p s V (mkValidators (vs_bag V) (vs_applies V) (ask x (vs_removes V)))
  | vl_remove id x :
      rq_table (vs_removes V) !! id = Some x → approved m p s APPROVE_REMOVE_STATE_VALIDATOR id →
      validator_step m p s V (mkValidators (vs_bag V ∖ bag (StateValidators x)) (vs_applies V) (settle id (vs_removes V))).

(** *** The stored list *)

Lemma run_strings_inv e (l : list bytes) m s b st :
  strings_at m (n3_key [STATE_VALIDATOR]) l → run (cwrap e getStateValidators) (m, s) = (Ok b, st) →
  st = (m, s) ∧ DeserializeStringArray b = Ok l.
Proof.
  intros Hl Hr. unfold getStateValidators in Hr. destruct st. crun Hr.
  destruct Hl as [[E ->]|(Hk & v & Ev & Ed)].
  - rewrite E in Hr. rewrite decide_True in Hr by done. crun Hr. done.
  - rewrite decide_False in Hr by done. crun Hr. rewrite Ev in Hl. by simplify_eq.
Qed.

Lemma strings_put m (l : list bytes) :
  blen (GenRawStorageItem (SerializeStringArray l)) ≤ max_strings →
  strings_at (<[n3_key [STATE_VALIDATOR] := GenRawStorageItem (SerializeStringArray l)]> m) (n3_key [STATE_VALIDATOR]) l.
Proof.
  intros Hs. pose proof (blen_GenRaw (SerializeStringArray l)) as Hb. right. unfold kv_at. rewrite lookup_insert_eq.
  cbn [default]. split; [apply GenRawStorageItem_nonempty|]. eexists. split; [apply storage_item_roundtrip|apply strings_read; lia].
  change max_strings with (2 ^ 44) in Hs. lia.
Qed.

(** The rest of the register does not see a change of the list. *)
Lemma rep_relist m m' V l :
  (∀ k, k ≠ n3_key [STATE_VALIDATOR] → m' !! k = m !! k) → strings_at m' (n3_key [STATE_VALIDATOR]) l →
  validator_rep m V → validator_rep m' (mkValidators (bag l) (vs_applies V) (vs_removes V)).
Proof.
  intros Hm Hl [_ Ha Hr]. split; cbn [vs_bag vs_applies vs_removes]; [by eauto|..].
  all: eapply req_rep_agree; [..|done]; intros; apply Hm; n3_ne.
Qed.

Lemma bag_filter (l new : list bytes) : filter (.∉ l) new = filter (.∉ bag l) new.
Proof. apply list_filter_iff. intros x. by rewrite elem_of_list_to_set_disj. Qed.

Lemma putStateValidators_inv (new : list bytes) m s V u m' s' :
  validator_rep m V → (∀ v, m' !! n3_key [STATE_VALIDATOR] = Some v → blen v ≤ max_strings) →
  run (putStateValidators new) (m, s) = (Ok u, (m', s')) →
  s' = s ∧ validator_rep m' (mkValidators (vs_bag V ⊎ bag (filter (.∉ vs_bag V) new)) (vs_applies V) (vs_removes V)).
Proof.
  intros HV Hs Hr. destruct (vr_list _ _ HV) as (l & Hl & Hb). unfold putStateValidators in Hr.
  apply run_bind_inv in Hr as (b & st & Hg & Hr). eapply run_strings_inv in Hg as [-> Hd]; [|done]. crun Hr.
  rewrite Hd in Hl0. simplify_eq. split; [done|]. rewrite Hb, <- bag_filter, <- list_to_set_disj_app, <- add_validators_eq.
  eapply rep_relist; [|apply strings_put, Hs, lookup_insert_eq|done]. intros k Hk. by apply lookup_insert_ne.
Qed.

Lemma removeStateValidators_inv (rm : list bytes) m s V u m' s' :
  validator_rep m V → (∀ v, m' !! n3_key [STATE_VALIDATOR] = Some v → blen v ≤ max_strings) →
  run (removeStateValidators rm) (m, s) = (Ok u, (m', s')) →
  s' = s ∧ validator_rep m' (mkValidators (vs_bag V ∖ bag rm) (vs_applies V) (vs_removes V)).
Proof.
  intros HV Hs Hr. destruct (vr_list _ _ HV) as (l & Hl & Hb). unfold removeStateValidators in Hr.
  apply run_bind_inv in Hr as (b & st & Hg & Hr). eapply run_strings_inv in Hg as [-> Hd]; [|done].
  apply run_bind_inv in Hr as (l' & st & Hg & Hr). destruct st. crun Hg. rewrite Hd in Hl0. simplify_eq.
  rewrite Hb, <- remove_all_bag. case_decide as E; crun Hr; (split; [done|]).
  - eapply rep_relist; [|left|done]; [intros k Hk; by apply lookup_delete_ne|].
    unfold kv_at. rewrite lookup_delete_eq. split; [done|]. apply nil_length_inv. lia.
  - eapply rep_relist; [|apply strings_put, Hs, lookup_insert_eq|done]. intros k Hk. by apply lookup_insert_ne.
Qed.

(** *** The methods *)

(** A request was recorded. *)
Lemma getStateValidatorApply_inv id m s V x st :
  is_u64 id → validator_rep m V → run (getStateValidatorApply id) (m, s) = (Ok x, st) →
  st = (m, s) ∧ rq_table (vs_applies V) !! id = x.
Proof.
  intros Hid HV Hr. unfold getStateValidatorApply in Hr. destruct st. crun Hr.
  pose proof (rq_entry _ _ _ _ _ _ (vr_applies _ _ HV) id Hid) as He. change (req_key _ _ id) with (svApply_key id) in He.
  case_decide as Hk.
  - crun Hr. split; [done|]. by eapply (entry_det deserialize_list).
  - destruct (rq_table _ !! _); [|done]. destruct He as (_ & v & Ev & Ed). crun Hr. rewrite Ev in Hl. simplify_eq.
    rewrite Ed in Hr. crun Hr. done.
Qed.
Lemma getStateValidatorRemove_inv id m s V x st :
  is_u64 id → validator_rep m V → run (getStateValidatorRemove id) (m, s) = (Ok x, st) →
  st = (m, s) ∧ rq_table (vs_removes V) !! id = x.
Proof.
  intros Hid HV Hr. unfold getStateValidatorRemove in Hr. destruct st. crun Hr.
  pose proof (rq_entry _ _ _ _ _ _ (vr_removes _ _ HV) id Hid) as He. change (req_key _ _ id) with (svRemove_key id) in He.
  case_decide as Hk.
  - crun Hr. split; [done|]. by eapply (entry_det deserialize_list).
  - crun Hr. split; [done|]. eapply (entry_det deserialize_list); [exact He|]. split; [done|]. by eauto.
Qed.

Lemma validator_signs (method : bytes) c (a : Address) m p s b m' s' V :
  pool_at m p → CheckWitness a s = true → validator_rep m V →
  run (CheckConsensusSigns method (GetUint64Bytes c) a) (m, s) = (Ok b, (m', s')) →
  (b = true → approved m p s method c) ∧ validator_rep m' V.
Proof.
  intros Hp Ha HV Hr. apply (CheckConsensusSigns_approved _ _ _ _ p) in Hr as [Happ (h & Hm)]; [|done..].
  split; [done|]. assert (∀ l, signs_key h ≠ n3_key l) as Hne.
  { intros l E%ConcatKey_contract%(f_equal to_slice). by vm_compute in E. }
  eapply validator_rep_agree; [|done]. intros l. destruct Hm as [->|[v ->]]; [by apply lookup_delete_ne|by apply lookup_insert_ne].
Qed.

Lemma yields_ApproveSV : yields ApproveStateValidatorParam_Deserialization ser_wf.
Proof.
  unfold ApproveStateValidatorParam_Deserialization. eapply yields_bind; [apply yields_varuint|intros c Hc].
  eapply yields_bind; [apply yields_safe; auto with safe|intros addr _]. by apply yields_ret.
Qed.

Definition validator_method (h : Handler) : Prop := ∀ m p s V r m' s',
  validator_rep m V → pool_at m p → blen (ns_input s) < 2 ^ 63 → small m' → run h (m, s) = (Ok r, (m', s')) →
  ∃ V', validator_step m p s V V' ∧ validator_rep m' V'.

Lemma GetCurrentStateValidator_val : validator_method GetCurrentStateValidator.
Proof.
  intros m p s V r m' s' HV Hp Hin Hfit Hr. unfold GetCurrentStateValidator in Hr.
  destruct (vr_list _ _ HV) as (l & Hl & Hb). eapply run_strings_inv in Hr as [E _]; [|done]. simplify_eq.
  exists V. split; [apply vl_keep|done].
Qed.

Lemma ask_stored m k x : small m → m !! k = Some (GenRawStorageItem (enc_ops (StateValidatorListParam_Serialization x))) →
  deserialize_list (enc_ops (StateValidatorListParam_Serialization x)) = Ok x ∧
  blen (enc_ops (StateValidatorListParam_Serialization x)) < 2 ^ 63.
Proof.
  intros Hs Hk. pose proof (small_raw _ _ _ Hs Hk) as Hb. split; [by apply list_read|].
  change max_strings with (2 ^ 44) in Hb. lia.
Qed.

Lemma RegisterStateValidator_val : validator_method RegisterStateValidator.
Proof.
  intros m p s V r m' s' HV Hp Hin Hfit Hr.
  unfold RegisterStateValidator, putStateValidatorApply, getStateValidatorApplyID, putStateValidatorApplyID, put_counter, notify_n3, AddNotify in Hr.
  crun Hr. destruct HV as [(l & Hsl & Hb) Ha Hrm].
  match goal with E : run (get_counter _ _ _) _ = _ |- _ => erewrite run_get_counter in E; [|apply Ha|apply Ha]; simplify_eq end.
  destruct (ask_stored _ _ _ Hfit (lookup_insert_eq _ _ _)) as [Hd Hbl].
  eexists. split; [by apply vl_ask_register|]. split; cbn [vs_bag vs_applies vs_removes].
  - exists l. split; [|done]. eapply strings_agree; [|done]. rewrite !lookup_insert_ne; first [done|n3_ne].
  - by apply req_rep_ask.
  - eapply req_rep_agree; [..|done]; intros; rewrite !lookup_insert_ne; first [done|n3_ne].
Qed.

Lemma RemoveStateValidator_val : validator_method RemoveStateValidator.
Proof.
  intros m p s V r m' s' HV Hp Hin Hfit Hr.
  unfold RemoveStateValidator, putStateValidatorRemove, getStateValidatorRemoveID, putStateValidatorRemoveID, put_counter, notify_n3, AddNotify in Hr.
  crun Hr. destruct HV as [(l & Hsl & Hb) Ha Hrm].
  match goal with E : run (get_counter _ _ _) _ = _ |- _ => erewrite run_get_counter in E; [|apply Hrm|apply Hrm]; simplify_eq end.
  destruct (ask_stored _ _ _ Hfit (lookup_insert_eq _ _ _)) as [Hd Hbl].
  eexists. split; [by apply vl_ask_remove|]. split; cbn [vs_bag vs_applies vs_removes].
  - exists l. split; [|done]. eapply strings_agree; [|done]. rewrite !lookup_insert_ne; first [done|n3_ne].
  - eapply req_rep_agree; [..|done]; intros; rewrite !lookup_insert_ne; first [done|n3_ne].
  - by apply req_rep_ask.
Qed.

Lemma ApproveRegisterStateValidator_val : validator_method ApproveRegisterStateValidator.
Proof.
  intros m p s V r m' s' HV Hp Hin Hfit Hr. unfold ApproveRegisterStateValidator, notify_n3, AddNotify in Hr. crun Hr.
  apply (input_param ser_wf) in Hr0; [|apply yields_ApproveSV|done].
  eapply getStateValidatorApply_inv in Hr1 as [E Hx]; [|done..]. simplify_eq.
  eapply validator_signs in Hr2 as [Happ HV1]; [|done..].
  destruct x2; cbn [negb] in Hr; crun Hr; [|by exists V; split; [apply vl_keep|]].
  destruct (rq_table (vs_applies V) !! as_ID x) as [y|] eqn:Ey; crun Hr.
  match goal with E : run (putStateValidators _) _ = _ |- _ => eapply putStateValidators_inv in E as [-> HV2]; [|done|] end.
  - eexists. split; [by eapply vl_register; [|auto]|].
    destruct HV2 as [(l & Hl & Hb) Ha Hrm]. cbn [vs_bag vs_applies vs_removes] in *. split; cbn [vs_bag vs_applies vs_removes].
    + exists l. split; [|done]. eapply strings_agree; [|done]. rewrite lookup_delete_ne; first [done|n3_ne].
    + by apply req_rep_settle.
    + eapply req_rep_agree; [..|done]; intros; rewrite lookup_delete_ne; first [done|n3_ne].
  - intros v Hv. eapply Hfit. rewrite lookup_delete_ne; first [done|n3_ne].
Qed.

Lemma ApproveRemoveStateValidator_val : validator_method ApproveRemoveStateValidator.
Proof.
  intros m p s V r m' s' HV Hp Hin Hfit Hr. unfold ApproveRemoveStateValidator, notify_n3, AddNotify in Hr. crun Hr.
  apply (input_param ser_wf) in Hr0; [|apply yields_ApproveSV|done].
  eapply getStateValidatorRemove_inv in Hr1 as [E Hx]; [|done..]. simplify_eq.
  eapply validator_signs in Hr2 as [Happ HV1]; [|done..].
  destruct x2; cbn [negb] in Hr; crun Hr; [|by exists V; split; [apply vl_keep|]].
  destruct (rq_table (vs_removes V) !! as_ID x) as [y|] eqn:Ey; crun Hr.
  match goal with E : run (removeStateValidators _) _ = _ |- _ => eapply removeStateValidators_inv in E as [-> HV2]; [|done|] end.
  - eexists. split; [by eapply vl_remove; [|auto]|].
    destruct HV2 as [(l & Hl & Hb) Ha Hrm]. cbn [vs_bag vs_applies vs_removes] in *. split; cbn [vs_bag vs_applies vs_removes].
    + exists l. split; [|done]. eapply strings_agree; [|done]. rewrite lookup_delete_ne; first [done|n3_ne].
    + eapply req_rep_agree; [..|done]; intros; rewrite lookup_delete_ne; first [done|n3_ne].
    + by apply req_rep_settle.
  - intros v Hv. eapply Hfit. rewrite lookup_delete_ne; first [done|n3_ne].
Qed.

(** The register of state validators.  Every method of the state validator
    manager that succeeds is a step of the abstract register: requests get the next
    number; the validators change only by a request on record, when the signatures
    for it, with the caller's, are two thirds of the consensus peers of the current
    view; a registration adds those of its names that are not validators yet, each
    as often as it names it, a removal takes away one copy for each name. *)
Theorem state_manager_refines (name : bytes) (h : Handler) m p s V r m' s' :
  (name, h) ∈ RegisterStateValidatorManagerContract → validator_rep m V → pool_at m p → blen (ns_input s) < 2 ^ 63 → small m' →
  run h (m, s) = (Ok r, (m', s')) → ∃ V', validator_step m p s V V' ∧ validator_rep m' V'.
Proof.
  intros Hin. enough (validator_method h) as Hh by apply Hh. unfold RegisterStateValidatorManagerContract in Hin.
  repeat (apply elem_of_cons in Hin as [E|Hin]; [injection E as _ ->|]); [..|by apply not_elem_of_nil in Hin].
  - apply GetCurrentStateValidator_val.
  - apply RegisterStateValidator_val.
  - apply ApproveRegisterStateValidator_val.
  - apply RemoveStateValidator_val.
  - apply ApproveRemoveStateValidator_val.
Qed.

(** Approving what was never asked for.  When no registration is on record under a
    number, the approvals of that number are collected all the same, and the one
    that completes the quorum makes the contract dereference a nil pointer; before
    that, the answer is [BYTE_FALSE] without an error. *)
Lemma approve_unknown_panics m (g : GovernanceView) p s (signs : ConsensusSigns) (id : Z) (a : Address) :
  stored m (nm_key [GOVERNANCE_VIEW]) g → stored m (peerPool_key (View g)) p → peers_parse p →
  signs_at m (Sum256 (APPROVE_REGISTER_STATE_VALIDATOR ++ GetUint64Bytes id)) signs →
  deserialize (ns_input s) = Ok (mkApproveStateValidatorParam id a) → CheckWitness a s = true →
  kv_at m (svApply_key id) = [] →
  (run ApproveRegisterStateValidator (m, s)).1 = if decide (quorum p (<[a := true]> signs)) then Panic else Ok BYTE_FALSE.
Proof.
  intros Hg Hp Hparse Hs Hin Ha Hk. unfold ApproveRegisterStateValidator.
  erewrite run_bind_ok; [|unfold input_as; erewrite run_bind_ok by apply run_cask; apply run_cwrap_ok; unfold cdeserialize; by rewrite Hin].
  cbn [as_Address as_ID].
  erewrite run_bind_ok; [|apply run_cwrap_ok; unfold ValidateOwner; erewrite run_bind_ok by apply run_cask; by rewrite Ha].
  erewrite run_bind_ok; [|apply run_cwrap_ok; unfold getStateValidatorApply;
    erewrite run_bind_ok by (apply run_cwrap_ok, run_cget); rewrite Hk; by rewrite decide_True].
  erewrite run_bind_ok; [|apply run_cwrap_ok; by apply (run_CheckConsensusSigns m g p signs)].
  destruct (decide (quorum p _)) as [Hq|Hq]; [by rewrite bool_decide_true|by rewrite bool_decide_false].
Qed.

End register.

(** Three of the five peers have signed; the fourth approval registers the two
    validators, or panics when there is no request 0. *)
Definition ex_validators : StateValidatorListParam := mkStateValidatorListParam [gs "validator1"; gs "validator2"] (ex_addr 7).
Definition ex_sv_hash : Uint256 := Sum256 (APPROVE_REGISTER_STATE_VALIDATOR ++ GetUint64Bytes 0).
Definition ex_sv_signs : ConsensusSigns := list_to_map ((λ i, (ex_addr i, true)) <$> [1; 2; 3]).
Definition ex_sv_requested : kvmap :=
  <[svApply_key 0 := GenRawStorageItem (enc_ops (StateValidatorListParam_Serialization ex_validators))]>
  (<[n3_key [STATE_VALIDATOR_APPLY_ID] := GenRawStorageItem (GetUint64Bytes 1)]> ex_gov).
Definition ex_signed (m : kvmap) : kvmap := <[signs_key ex_sv_hash := GenRawStorageItem (sink_bytes ex_sv_signs)]> m.
Definition ex_sv : validators := mkValidators ∅ (ask ex_validators (mkRequests 0 ∅)) (mkRequests 0 ∅).
Definition ex_sv_call : NativeService := ex_service 4 7 (sink_bytes (mkApproveStateValidatorParam 0 (ex_addr 4))).

Lemma ex_gov_n3 l : kv_at ex_gov (n3_key l) = [].
Proof.
  unfold kv_at, ex_gov. rewrite !lookup_insert_ne; [by rewrite lookup_empty|..].
  all: intros E%ConcatKey_contract%(f_equal to_slice); by vm_compute in E.
Qed.
Lemma ex_signed_n3 m l : ex_signed m !! n3_key l = m !! n3_key l.
Proof. apply lookup_insert_ne. intros E%ConcatKey_contract%(f_equal to_slice). by vm_compute in E. Qed.

Lemma ex_sv_rep : validator_rep ex_sv_requested ex_sv.
Proof.
  split; cbn [vs_bag vs_applies vs_removes ex_sv].
  - exists []. split; [|done]. left. split; [|done]. rewrite <- (ex_gov_n3 [STATE_VALIDATOR]). unfold kv_at, ex_sv_requested.
    rewrite !lookup_insert_ne; first [done|n3_ne].
  - apply (req_rep_ask Neo3StateManagerContractAddress STATE_VALIDATOR_APPLY STATE_VALIDATOR_APPLY_ID deserialize_list ex_gov (mkRequests 0 ∅));
      [done| |apply list_read; by vm_compute|by vm_compute].
    split; [done|left; split; [apply ex_gov_n3|done]|intros; apply ex_gov_n3].
  - eapply (req_rep_agree _ _ _ _ ex_gov); [..|split; [done|left; split; [apply ex_gov_n3|done]|intros; apply ex_gov_n3]].
    all: intros; unfold ex_sv_requested; rewrite !lookup_insert_ne; first [done|n3_ne].
Qed.

Lemma state_manager_refines_example :
  ∃ m' s', run ApproveRegisterStateValidator (ex_signed ex_sv_requested, ex_sv_call) = (Ok BYTE_TRUE, (m', s')) ∧
    ∃ V', validator_step (ex_signed ex_sv_requested) ex_pool ex_sv_call ex_sv V' ∧ validator_rep m' V'.
Proof.
  destruct (run ApproveRegisterStateValidator (ex_signed ex_sv_requested, ex_sv_call)) as [r [m' s']] eqn:E.
  assert (r = Ok BYTE_TRUE) as -> by (by run_compute E).
  assert (map_Forall (λ _ v, blen v ≤ max_strings) m') as Hf by (by run_compute E).
  exists m', s'. split; [reflexivity|].
  apply (state_manager_refines APPROVE_REGISTER_STATE_VALIDATOR ApproveRegisterStateValidator
           (ex_signed ex_sv_requested) ex_pool ex_sv_call ex_sv BYTE_TRUE m' s').
  - by apply (list_elem_of_lookup_2 _ 2).
  - eapply validator_rep_agree; [|exact ex_sv_rep]. intros l. apply ex_signed_n3.
  - exists ex_view. split; (do 3 (apply stored_insert; [by vm_compute|])); [exact ex_gov_view|exact ex_gov_pool].
  - by vm_compute.
  - exact Hf.
  - exact E.
Defined.

Lemma approve_unknown_panics_example : (run ApproveRegisterStateValidator (ex_signed ex_gov, ex_sv_call)).1 = Panic.
Proof.
  assert (quorum ex_pool (<[ex_addr 4 := true]> ex_sv_signs)) as Hq by (refine (bool_decide_unpack _ _); by vm_compute).
  pose proof (approve_unknown_panics (ex_signed ex_gov) ex_view ex_pool ex_sv_call ex_sv_signs 0 (ex_addr 4)) as Hp.
  rewrite decide_True in Hp by exact Hq. apply Hp.
  - apply stored_insert; [by vm_compute|exact ex_gov_view].
  - apply stored_insert; [by vm_compute|exact ex_gov_pool].
  - exact ex_peers_parse.
  - right. split_and!; [unfold kv_at, ex_signed; by rewrite lookup_insert_eq| |by vm_compute].
    change (is_u64 (Z.of_nat (size ex_sv_signs))). refine (bool_decide_unpack _ _). by vm_compute.
  - unfold ex_sv_call, ex_service. cbn [ns_input].
    refine (deserialize_sink (mkApproveStateValidatorParam 0 (ex_addr 4)) _ _); [split; [exact (Z.le_refl 0)|by vm_compute]|by vm_compute].
  - by vm_compute.
  - unfold kv_at. change (svApply_key 0) with (n3_key [STATE_VALIDATOR_APPLY; GetUint64Bytes 0]). rewrite ex_signed_n3. apply ex_gov_n3.
Defined.
