(* ===== verification/SigMgr.v ===== *)
(** * The signature manager contract
    (governance/signature_manager/param.go, states.go, utils.go, signature_manager.go)

    The consensus peers add their signatures of a subject; the contract announces
    the subject when two thirds of them have signed, once. *)

From S2P Require Import Prelude Sha256 Sink Source Serialization BytesOrder MemDB OverlayDB CacheDB Contract MerkleSpec MerkleHasher Native ExCrypto Codec NodeStates NodeManager NodeInv NodeGov CrossCommon ConsensusVote Approval.

(** ** param.go *)

Record AddSignatureParam := mkAddSignatureParam {
  ad_Address : Address;
  ad_SideChainID : Z;
  Subject : bytes;
  ad_Signature : bytes;
}.
Definition AddSignatureParam_Serialization (p : AddSignatureParam) : list sink_op :=
  [OpVarAddress (ad_Address p); OpUint64 (ad_SideChainID p); OpVarBytes (Subject p); OpVarBytes (ad_Signature p)].
Definition AddSignatureParam_Deserialization : M ZeroCopySource AddSignatureParam :=
  addr ← read_address "source.NextVarBytes, deserialize address error"
           "common.AddressParseFromBytes, deserialize address error: ";
  sideChainID ← must "common.NextUint64, deserialize sideChainID error: %!s(<nil>)" NextUint64;
  subject ← must "source.NextVarBytes, deserialize subject error" NextVarBytes;
  signature ← must "source.NextVarBytes, deserialize signature error" NextVarBytes;
  mret (mkAddSignatureParam addr sideChainID subject signature).

#[export] Program Instance AddSignatureParam_ser : Serializable AddSignatureParam := {|
  Serialization := AddSignatureParam_Serialization;
  Deserialization := AddSignatureParam_Deserialization;
  ser_wf p := is_u64 (ad_SideChainID p);
|}.
Next Obligation. intros [] ?. unfold AddSignatureParam_Serialization, AddSignatureParam_Deserialization. solve_roundtrip. Qed.
Next Obligation. unfold AddSignatureParam_Deserialization. solve_total. Qed.

(** ** states.go *)

Record SigInfo := mkSigInfo { si_Status : bool; si_SigInfo : gmap bytes bytes }.

(** [l]: the entries in the order of the range loop. *)
Definition SigInfo_from (status : bool) (l : list (bytes * bytes)) : list sink_op :=
  [OpBool status; OpUint64 (blen l)] ++
  enc_list (λ kv, [OpString kv.1; OpVarBytes kv.2]) (sort_desc bytes_lt fst l).
Definition SigInfo_Serialization (v : SigInfo) : list sink_op :=
  SigInfo_from (si_Status v) (map_to_list (si_SigInfo v)).
Definition read_sig : M ZeroCopySource (bytes * bytes) :=
  k ← must "SigInfo deserialize key error" NextString;
  v ← must "SigInfo deserialize value error" NextVarBytes;
  mret (k, v).
Definition SigInfo_Deserialization : M ZeroCopySource SigInfo :=
  status ← must "SigInfo deserialize status length error" NextBool;
  n ← must "SigInfo deserialize SigInfo length error" NextUint64;
  sigs ← loopM n read_sig;
  mret (mkSigInfo status (map_of_list sigs)).

#[export] Program Instance SigInfo_ser : Serializable SigInfo := {|
  Serialization := SigInfo_Serialization;
  Deserialization := SigInfo_Deserialization;
  ser_wf v := is_u64 (Z.of_nat (size (si_SigInfo v)));
|}.
Next Obligation.
  intros [st m] Hs. unfold SigInfo_Serialization, SigInfo_from, SigInfo_Deserialization. cbn [si_Status si_SigInfo] in *.
  rewrite length_map_to_list. solve_roundtrip. eapply decodes_map.
  - apply decodes_list; [by rewrite sort_desc_perm, length_map_to_list| |intros; apply enc_varbytes_pos].
    intros [a b] _. unfold read_sig. solve_roundtrip.
  - unfold mret, M_ret. do 2 f_equal. by rewrite (map_of_list_perm m) by (by rewrite sort_desc_perm).
Qed.
Next Obligation.
  unfold SigInfo_Deserialization, read_sig. do 2 (apply safe_bind; [solve_total|intros]).
  apply safe_bind; [|intros; apply safe_ret]. apply safe_loopM; [solve_total|].
  apply progress_bind; [solve_total|auto with safe|intros]. solve_total.
Qed.

(** ** utils.go *)

Definition SIG_INFO : bytes := gs "sigInfo".
Definition sig_key (id : bytes) : bytes := ConcatKey SignatureManagerContractAddress [SIG_INFO; id].

Section signatures.
Context `{Hasher} `{Crypto}.

Definition getSigInfo (id : bytes) : contract NativeService SigInfo :=
  sigInfoStore ← cwrap "getSigInfo, get getSigInfoStore error: " (cget (sig_key id));
  if decide (sigInfoStore = []) then mret (mkSigInfo false ∅) else
  load_with "getSigInfo, deserialize from raw storage item err:" "getSigInfo, deserialize SigInfo err:" sigInfoStore.

Definition putSigInfo (id : bytes) (sigInfo : SigInfo) : contract NativeService unit :=
  store_item (sig_key id) sigInfo.

Definition CheckSigns (id sig : bytes) (address : Address) : contract NativeService bool :=
  sigInfo ← cwrap "CheckSigs, getSigInfo error: " (getSigInfo id);
  view ← cwrap "CheckSigs, GetView error: " GetView;
  peerPoolMap ← cwrap "CheckSigs, GetPeerPoolMap error: " (GetPeerPoolMap view);
  consensus ← cforeach (map_to_list peerPoolMap) false (find_peer "CheckSigs" address);
  cguard consensus "CheckSigs, signer is not consensus peer" ;;
  '(num, sum, flag) ← cforeach (map_to_list peerPoolMap) (0, 0, false) (count_vote "CheckSigs" (si_SigInfo sigInfo) address);
  let sigs := if (flag : bool) then <[ToBase58 address := sig]> (si_SigInfo sigInfo) else si_SigInfo sigInfo in
  let num := if flag then num + 1 else num in
  (if flag && bool_decide (num < (2 * sum + 2) ÷ 3) then putSigInfo id (mkSigInfo (si_Status sigInfo) sigs) else mret tt) ;;
  if decide ((2 * sum + 2) ÷ 3 ≤ num) then
    putSigInfo id (mkSigInfo true sigs) ;; mret (negb (si_Status sigInfo))
  else mret false.

(** ** signature_manager.go *)

Definition quorum_event (id subject : bytes) (sideChainID : Z) : NotifyEventInfo :=
  mkNotify SignatureManagerContractAddress [NStr (gs "AddSignatureQuorum"); NStr id; NStr subject; NInt sideChainID].

Definition AddSignature : Handler :=
  params ← input_as (A := AddSignatureParam) "AddSignature, contract params deserialize error: ";
  cwrap ("AddSignature, checkWitness: " +:+ go_str (ToBase58 (ad_Address params)) +:+ ", error: ") (ValidateOwner (ad_Address params)) ;;
  let id := to_slice (Sum256 (Subject params)) in
  ok ← cwrap "AddSignature, CheckSigns error: " (CheckSigns id (ad_Signature params) (ad_Address params));
  if negb ok then mret BYTE_TRUE else
  AddNotify (quorum_event id (Subject params) (ad_SideChainID params)) ;;
  mret BYTE_TRUE.

Definition RegisterSignatureManagerContract : list (bytes * Handler) := [(gs "addSignature", AddSignature)].

(** ** What a signature does *)

Implicit Types (m : kvmap) (s : NativeService) (p : PeerPoolMap).

(** The signatures recorded for an id. *)
Definition sigs_at m (id : bytes) (v : SigInfo) : Prop :=
  (kv_at m (sig_key id) = [] ∧ v = mkSigInfo false ∅) ∨ stored m (sig_key id) v.

Lemma run_getSigInfo m (id : bytes) (v : SigInfo) s : sigs_at m id v → run (getSigInfo id) (m, s) = (Ok v, (m, s)).
Proof.
  intros Hv. unfold getSigInfo. erewrite run_bind_ok; [|by apply run_cwrap_ok, run_cget].
  destruct Hv as [[E ->]|Hv].
  - by rewrite decide_True.
  - rewrite decide_False by exact (stored_nonempty _ _ _ Hv). by apply run_load_with.
Qed.

Lemma ro_getSigInfo id : read_only (getSigInfo id).
Proof. unfold getSigInfo. solve_ro. Qed.

(** A collected signature: the record of the id only grows, and is closed with a
    quorum. *)
Lemma CheckSigns_inv m (id sig : bytes) (v : SigInfo) (a : Address) s (b : bool) m' s' :
  sigs_at m id v → run (CheckSigns id sig a) (m, s) = (Ok b, (m', s')) →
  s' = s ∧ ∃ sigs : gmap bytes bytes,
    (b = true → si_Status v = false) ∧
    (m' = m ∨ ∃ status, (si_Status v = true → status = true) ∧
      m' = <[sig_key id := GenRawStorageItem (sink_bytes (mkSigInfo status sigs))]> m) ∧
    (b = true → m' = <[sig_key id := GenRawStorageItem (sink_bytes (mkSigInfo true sigs))]> m) ∧
    (∀ p, pool_at m p → is_peer p a ∧ (∀ x, is_Some (sigs !! x) ↔ x = ToBase58 a ∨ is_Some (si_SigInfo v !! x)) ∧
      (b = true → vote_quorum p sigs)).
Proof.
  intros Hv Hr. unfold CheckSigns in Hr.
  erewrite run_bind_ok in Hr; [|by apply run_cwrap_ok, run_getSigInfo].
  apply run_bind_inv in Hr as (view & [m1 s1] & Hvw & Hr). crun Hvw.
  apply run_bind_inv in Hr as (pool & [m2 s2] & Hpl & Hr). crun Hpl.
  apply run_bind_inv in Hr as (c & st1 & Hc & Hr). apply run_bind_inv in Hr as (u & st2 & Hgd & Hr).
  apply run_guard_inv in Hgd as [-> ->]. apply find_peer_is_peer in Hc as [-> Hpeer].
  apply run_bind_inv in Hr as ([[num sum] flag] & st2 & Hcount & Hr). cbv beta iota in Hr.
  apply count_vote_inv in Hcount as (-> & -> & -> & ->). cbn [orb] in Hr.
  rewrite !size_filter_list, !Z.add_0_l in Hr.
  assert (filter is_consensus (map_to_list pool) ≠ []) as Hne.
  { destruct Hpeer as (k & i & Hk & Hc & _). apply elem_of_map_to_list in Hk. intros E.
    apply (not_elem_of_nil (k, i)). rewrite <- E. by apply list_elem_of_filter. }
  assert (∀ p, pool_at m p → p = pool) as Hp.
  { intros p (g & Hg & Hgp). rewrite (run_GetView m g) in Hvw by done. simplify_eq.
    rewrite (run_GetPeerPoolMap m p) in Hpl by done. by simplify_eq. }
  destruct (decide (si_SigInfo v !! ToBase58 a = None)) as [Hn|Hn].
  - rewrite bool_decide_true in Hr by done. cbn [andb] in Hr. unfold putSigInfo, store_item in Hr.
    pose proof (voted_num_insert pool (si_SigInfo v) a sig Hpeer Hn) as Hvn. unfold voted_num in Hvn.
    assert (∀ x, is_Some (<[ToBase58 a := sig]> (si_SigInfo v) !! x) ↔ x = ToBase58 a ∨ is_Some (si_SigInfo v !! x)) as Hd.
    { intros x. rewrite lookup_insert_is_Some'. naive_solver. }
    case_bool_decide as Hlt; (rewrite decide_False in Hr by lia) || (rewrite decide_True in Hr by lia); crun Hr;
      (split; [done|]; eexists; split_and!; [| | |intros p ->%Hp; split_and!; [done|exact Hd|]]).
    all: try first [done|by right; eauto|by intros ->%negb_true_iff].
    intros _. unfold vote_quorum, consensus_num, voted_num. lia.
  - rewrite bool_decide_false in Hr by tauto. cbn [andb] in Hr. unfold putSigInfo, store_item in Hr.
    assert (∀ x, is_Some (si_SigInfo v !! x) ↔ x = ToBase58 a ∨ is_Some (si_SigInfo v !! x)) as Hd.
    { intros x. split; [by right|]. intros [->|?]; [by apply not_eq_None_Some|done]. }
    case_decide as Hq; crun Hr; (split; [done|]; exists (si_SigInfo v); split_and!; [| | |intros p ->%Hp; split_and!; [done|exact Hd|]]).
    all: try first [done|by left|by right; eauto|by intros ->%negb_true_iff].
Qed.
(** ** Runs of the contract *)

Lemma sig_key_inj a b : sig_key a = sig_key b → a = b.
Proof. unfold sig_key. rewrite !ConcatKey2. intros E. by do 2 apply app_inv_head in E. Qed.

Lemma sig_size_bytes (v : SigInfo) : Z.of_nat (size (si_SigInfo v)) ≤ blen (sink_bytes v).
Proof.
  unfold sink_bytes. cbn [Serialization SigInfo_ser]. unfold SigInfo_Serialization, SigInfo_from.
  rewrite enc_ops_app, length_app.
  pose proof (length_enc_list (λ kv : bytes * bytes, [OpString kv.1; OpVarBytes kv.2]) (sort_desc bytes_lt fst (map_to_list (si_SigInfo v)))
    (λ a _, enc_varbytes_pos a.1 [OpVarBytes a.2])) as Hl.
  assert (length (sort_desc bytes_lt fst (map_to_list (si_SigInfo v))) = size (si_SigInfo v)) as E; [|lia].
  by rewrite sort_desc_perm, length_map_to_list.
Qed.

Lemma sig_fits m (id : bytes) (v : SigInfo) :
  fits m → m !! sig_key id = Some (GenRawStorageItem (sink_bytes v)) → stored m (sig_key id) v.
Proof.
  intros Hf Hk. apply fits_stored; [done..|]. cbn. specialize (Hf _ _ Hk).
  pose proof (sig_size_bytes v). pose proof (blen_GenRaw (sink_bytes v)). unfold in_range. lia.
Qed.

(** Every record is readable. *)
Definition sigs_wf m : Prop := ∀ id, ∃ v, sigs_at m id v.
Definition settled m (id : bytes) : Prop := ∃ v, sigs_at m id v ∧ si_Status v = true.

Lemma sigs_at_det s m id v w : sigs_at m id v → sigs_at m id w → v = w.
Proof.
  intros Hv Hw. apply (run_getSigInfo m id v s) in Hv. apply (run_getSigInfo m id w s) in Hw. congruence.
Qed.

(** A write of one record keeps what is settled. *)
Lemma settled_put s m id0 v status sigs :
  let m' := <[sig_key id0 := GenRawStorageItem (sink_bytes (mkSigInfo status sigs))]> m in
  sigs_wf m → sigs_at m id0 v → (si_Status v = true → status = true) → fits m' →
  sigs_wf m' ∧ (∀ id, settled m id → settled m' id).
Proof.
  intros m' Hwf Hv Hst Hfit.
  assert (sigs_at m' id0 (mkSigInfo status sigs)) as H0' by (right; apply sig_fits; [done|apply lookup_insert_eq]).
  assert (∀ id w, id ≠ id0 → sigs_at m id w → sigs_at m' id w) as Hne.
  { intros id w Hid. assert (m' !! sig_key id = m !! sig_key id) as E.
    { apply lookup_insert_ne. by intros ->%sig_key_inj. }
    unfold sigs_at, stored, kv_at. by rewrite E. }
  split.
  - intros id. destruct (decide (id = id0)) as [->|Hid]; [by eauto|]. destruct (Hwf id) as [w Hw]. eauto.
  - intros id (w & Hw & Hs). destruct (decide (id = id0)) as [->|Hid]; [|by exists w; eauto].
    eexists. split; [exact H0'|]. cbn. apply Hst. by rewrite (sigs_at_det s m id0 v w).
Qed.

(** A successful call: the announcements it adds, and what is settled after it. *)
Lemma AddSignature_inv m s r m' s' :
  sigs_wf m → fits m' → run AddSignature (m, s) = (Ok r, (m', s')) →
  sigs_wf m' ∧ (∀ id, settled m id → settled m' id) ∧
  (ns_notifications s' = ns_notifications s ∨
   ∃ id sigs a subject c, id = to_slice (Sum256 subject) ∧ ¬ settled m id ∧ settled m' id ∧
     ns_notifications s' = ns_notifications s ++ [quorum_event id subject c] ∧
     stored m' (sig_key id) (mkSigInfo true sigs) ∧ CheckWitness a s = true ∧
     ∀ p, pool_at m p → is_peer p a ∧ vote_quorum p sigs).
Proof.
  intros Hwf Hfit Hr. unfold AddSignature, AddNotify in Hr. crun Hr.
  destruct (Hwf (to_slice (Sum256 (Subject x)))) as [v Hv].
  match goal with E : run (CheckSigns _ _ _) _ = _ |- _ => eapply CheckSigns_inv in E as (-> & sigs & Hst & Hm & Hm' & Hp); [|exact Hv] end.
  assert (m' = m) as -> by (by destruct x1; cbn [negb] in Hr; crun Hr).
  assert (sigs_wf m ∧ (∀ id, settled m0 id → settled m id)) as [? ?].
  { destruct Hm as [->|(status & Hs & ->)]; [done|]. by eapply settled_put. }
  split_and!; [done..|]. destruct x1; cbn [negb] in Hr; crun Hr; [right|by left].
  specialize (Hm' eq_refl). eexists _, sigs, _, _, _. split; [reflexivity|].
  match type of Hfit with fits ?m1 => assert (stored m1 (sig_key (to_slice (Sum256 (Subject x)))) (mkSigInfo true sigs)) as Hk end.
  { apply sig_fits; [done|]. rewrite Hm'. apply lookup_insert_eq. }
  split_and!; [|by eexists; split; [right; exact Hk|]|done|exact Hk|exact Hg|].
  - intros (w & Hw & Hs). rewrite (sigs_at_det s0 m0 _ w v Hw Hv) in Hs. by rewrite Hst in Hs.
  - intros p Hpool. destruct (Hp p Hpool) as (? & ? & ?). auto.
Qed.

(** A history of the contract: the announcements of the successful calls, in order.
    A failed call leaves no trace; in between, the other contracts change what is
    theirs. *)
Inductive sig_run : kvmap → list NotifyEventInfo → kvmap → Prop :=
  | sr_done m : sig_run m [] m
  | sr_call m s r m1 s1 ev m2 :
      run AddSignature (m, s) = (Ok r, (m1, s1)) → fits m1 → sig_run m1 ev m2 →
      sig_run m (drop (length (ns_notifications s)) (ns_notifications s1) ++ ev) m2
  | sr_fail m s e st ev m2 : run AddSignature (m, s) = (Err e, st) → sig_run m ev m2 → sig_run m ev m2
  | sr_other m m1 ev m2 :
      (∀ id, m1 !! sig_key id = m !! sig_key id) → sig_run m1 ev m2 → sig_run m ev m2.

Definition announces (id : bytes) (e : NotifyEventInfo) : bool :=
  match States e with
  | [NStr n; NStr i; _; _] => bool_decide (n = gs "AddSignatureQuorum" ∧ i = id)
  | _ => false
  end.
Definition announced (id : bytes) (ev : list NotifyEventInfo) : nat := length (filter (λ e, announces id e = true) ev).

Lemma announces_quorum id i subject c : announces id (quorum_event i subject c) = bool_decide (i = id).
Proof. unfold announces, quorum_event. cbn [States]. apply bool_decide_ext. naive_solver. Qed.

Lemma sigs_agree m m1 id v : m1 !! sig_key id = m !! sig_key id → sigs_at m id v → sigs_at m1 id v.
Proof. intros E. unfold sigs_at, stored, kv_at. by rewrite E. Qed.

Lemma sigs_wf_agree m m1 : (∀ id, m1 !! sig_key id = m !! sig_key id) → sigs_wf m → sigs_wf m1.
Proof. intros Hm Hwf i. destruct (Hwf i) as [v Hv]. exists v. exact (sigs_agree m m1 i v (Hm i) Hv). Qed.

Lemma sig_run_wf m ev m' : sig_run m ev m' → sigs_wf m → sigs_wf m'.
Proof.
  induction 1 as [m|m s r m1 s1 ev m2 Hr Hfit _ IH|m s e st ev m2 _ _ IH|m m1 ev m2 Hm _ IH]; intros Hwf; [done| |auto|].
  - apply AddSignature_inv in Hr as (Hwf1 & _); auto.
  - apply IH. exact (sigs_wf_agree m m1 Hm Hwf).
Qed.

Lemma sig_run_announced m ev m' id :
  sig_run m ev m' → sigs_wf m → (announced id ev ≤ 1)%nat ∧ (settled m id → announced id ev = 0%nat).
Proof.
  unfold announced. induction 1 as [m|m s r m1 s1 ev m2 Hr Hfit _ IH|m s e st ev m2 _ _ IH|m m1 ev m2 Hm _ IH]; intros Hwf.
  - split; [cbn; lia|done].
  - apply AddSignature_inv in Hr as (Hwf1 & Hset & Hev); [|done..]. destruct (IH Hwf1) as [Hle Hz].
    destruct Hev as [->|(id0 & sigs & a & subject & c & _ & Hns & Hs & -> & _)].
    + rewrite drop_all. cbn [app]. auto.
    + rewrite drop_app_length, filter_app, length_app, filter_cons, announces_quorum. cbn [filter list_filter].
      case_decide as Hd; [apply bool_decide_eq_true in Hd as ->|].
      * rewrite (Hz Hs). cbn. split; [lia|]. by intros ?%Hns.
      * cbn. auto.
  - auto.
  - destruct (IH (sigs_wf_agree _ _ Hm Hwf)) as [Hle Hz]. split; [done|]. intros (v & Hv & Hs). apply Hz.
    exists v. split; [exact (sigs_agree m m1 id v (Hm id) Hv)|done].
Qed.

(** C35 (a subject is announced once, with a quorum).  In every history of calls of the
    signature manager, failed calls and changes of the other contracts' storage
    included, a subject is announced at most once; and a call that announces a
    subject was signed by a consensus peer of the current view and leaves on record
    signatures of two thirds of the consensus peers. *)
Theorem AddSignature_announces_once m ev m' :
  sig_run m ev m' → sigs_wf m →
  (∀ id, announced id ev ≤ 1)%nat ∧
  (∀ p s r m1 s1, run AddSignature (m', s) = (Ok r, (m1, s1)) → fits m1 → pool_at m' p →
    ns_notifications s1 ≠ ns_notifications s →
    ∃ id a sigs subject c, id = to_slice (Sum256 subject) ∧
      ns_notifications s1 = ns_notifications s ++ [quorum_event id subject c] ∧
      CheckWitness a s = true ∧ is_peer p a ∧ vote_quorum p sigs ∧ stored m1 (sig_key id) (mkSigInfo true sigs)).
Proof.
  intros Hrun Hwf. split; [intros id; by apply (sig_run_announced _ _ _ id Hrun)|].
  intros p s r m1 s1 Hr Hfit Hp Hne. apply AddSignature_inv in Hr as (_ & _ & Hev); [|by eapply sig_run_wf|done].
  destruct Hev as [?|(id & sigs & a & subject & c & Eid & _ & _ & Hev & Hst & Ha & Hq)]; [done|].
  destruct (Hq p Hp). by exists id, a, sigs, subject, c.
Qed.

End signatures.

(** Three of the five peers have signed a subject; the fourth signature announces
    it, the fifth one adds nothing. *)
Definition ex_subject : bytes := gs "subject".
Definition ex_sig_id : bytes := to_slice (Sum256 ex_subject).
Definition ex_sigs : SigInfo :=
  mkSigInfo false (list_to_map ((λ i, (ToBase58 (ex_addr i), gs "sig")) <$> [1; 2; 3])).
Definition ex_sig_store : kvmap := <[sig_key ex_sig_id := GenRawStorageItem (sink_bytes ex_sigs)]> ex_gov.
Definition ex_sig_call (i : Z) : NativeService :=
  ex_service i 7 (sink_bytes (mkAddSignatureParam (ex_addr i) 2 ex_subject (gs "sig"))).

Lemma ex_sig_wf : sigs_wf ex_sig_store.
Proof.
  intros id. destruct (decide (id = ex_sig_id)) as [->|Hid].
  - exists ex_sigs. right. split_and!; [unfold kv_at, ex_sig_store; by rewrite lookup_insert_eq| |by vm_compute].
    change (is_u64 (Z.of_nat (size (si_SigInfo ex_sigs)))). refine (bool_decide_unpack _ _). by vm_compute.
  - exists (mkSigInfo false ∅). left. split; [|done]. unfold kv_at, ex_sig_store, ex_gov.
    rewrite !lookup_insert_ne; [by rewrite lookup_empty|..|by intros E%sig_key_inj].
    all: intros E%ConcatKey_contract%(f_equal to_slice); by vm_compute in E.
Qed.

Lemma AddSignature_announces_once_witness :
  ∃ m1 s1 m2 s2, run AddSignature (ex_sig_store, ex_sig_call 4) = (Ok BYTE_TRUE, (m1, s1)) ∧
    run AddSignature (m1, ex_sig_call 5) = (Ok BYTE_TRUE, (m2, s2)) ∧
    (announced ex_sig_id (ns_notifications s1 ++ ns_notifications s2 ++ []) ≤ 1)%nat ∧
    announced ex_sig_id (ns_notifications s1) = 1%nat.
Proof.
  destruct (run AddSignature (ex_sig_store, ex_sig_call 4)) as [r1 [m1 s1]] eqn:E1.
  assert (r1 = Ok BYTE_TRUE) as -> by (by run_compute E1).
  assert (map_Forall (λ _ v, blen v < 2 ^ 63) m1) as Hf1 by (by run_compute E1).
  assert (announced ex_sig_id (ns_notifications s1) = 1%nat) as Hone.
  { change s1 with ((Ok BYTE_TRUE : res bytes, (m1, s1)).2.2). rewrite <- E1. by vm_compute. }
  destruct (run AddSignature (m1, ex_sig_call 5)) as [r2 [m2 s2]] eqn:E2.
  pose proof E2 as E2'. change m1 with ((Ok BYTE_TRUE : res bytes, (m1, s1)).2.1) in E2'. rewrite <- E1 in E2'.
  assert (r2 = Ok BYTE_TRUE) as -> by (by run_compute E2').
  assert (map_Forall (λ _ v, blen v < 2 ^ 63) m2) as Hf2 by (by run_compute E2').
  exists m1, s1, m2, s2. split_and!; [done|done| |done].
  apply (AddSignature_announces_once ex_sig_store _ m2); [|exact ex_sig_wf].
  apply (sr_call ex_sig_store (ex_sig_call 4) BYTE_TRUE m1 s1 _ m2 E1 Hf1).
  apply (sr_call m1 (ex_sig_call 5) BYTE_TRUE m2 s2 [] m2 E2 Hf2). apply sr_done.
Defined.
