(* ===== verification/SideStates.v ===== *)
(** * Data of the side chain manager
    (governance/side_chain_manager/states.go, param.go)

    A side chain record ends with a field that older blocks do not have: it is
    written from a configured height on and read when it is there.  The sizes that
    [BtcTxParam] and [RippleExtraInfo] read are used to allocate before the data is
    read, so these two readers can panic. *)

From S2P Require Import Prelude Sha256 Sink Source Serialization BytesOrder MemDB OverlayDB CacheDB Contract MerkleSpec MerkleHasher Native Codec NodeStates.

(** ** Side chains *)

Record SideChain := mkSideChain {
  sc_Address : Address;
  ChainId : Z;
  Router : Z;
  sc_Name : bytes;
  BlocksToWait : Z;
  CCMCAddress : bytes;
  ExtraInfo : bytes;
}.
#[export] Instance SideChain_eq_dec : EqDecision SideChain.
Proof. solve_decision. Defined.

(** [extra]: the height from which [ExtraInfo] is written has been reached. *)
Definition SideChain_Serialization (extra : bool) (c : SideChain) : list sink_op :=
  [OpVarAddress (sc_Address c); OpVarUint (ChainId c); OpVarUint (Router c); OpVarBytes (sc_Name c);
   OpVarUint (BlocksToWait c); OpVarBytes (CCMCAddress c)] ++
  (if extra then [OpVarBytes (ExtraInfo c)] else []).
Definition SideChain_Deserialization : M ZeroCopySource SideChain :=
  addr ← read_address "utils.NextVarBytes, deserialize address error"
                      "common.AddressParseFromBytes, deserialize address error: ";
  chainId ← must "source.NextVarUint, deserialize chainid error" NextVarUint;
  router ← must "source.NextVarUint, deserialize router error" NextVarUint;
  name ← must "source.NextString, deserialize name error" NextString;
  blocksToWait ← must "source.NextVarUint, deserialize blocksToWait error" NextVarUint;
  ccmc ← must "source.NextVarBytes, deserialize CCMCAddress error" NextVarBytes;
  '(extraInfo, _) ← NextVarBytes;
  mret (mkSideChain addr chainId router name blocksToWait ccmc extraInfo).

Record RegisterSideChainParam := mkRegisterSideChainParam {
  rs_Address : Address;
  rs_ChainId : Z;
  rs_Router : Z;
  rs_Name : bytes;
  rs_BlocksToWait : Z;
  rs_CCMCAddress : bytes;
  rs_ExtraInfo : bytes;
}.
Definition RegisterSideChainParam_Serialization (extra : bool) (p : RegisterSideChainParam) : list sink_op :=
  [OpVarAddress (rs_Address p); OpVarUint (rs_ChainId p); OpVarUint (rs_Router p); OpVarBytes (rs_Name p);
   OpVarUint (rs_BlocksToWait p); OpVarBytes (rs_CCMCAddress p)] ++
  (if extra then [OpVarBytes (rs_ExtraInfo p)] else []).
Definition RegisterSideChainParam_Deserialization : M ZeroCopySource RegisterSideChainParam :=
  addr ← read_address "utils.NextVarBytes, deserialize address error"
                      "common.AddressParseFromBytes, deserialize address error: ";
  chainId ← must "source.NextVarUint, deserialize chainid error" NextVarUint;
  router ← must "source.NextVarUint, deserialize router error" NextVarUint;
  name ← must "source.NextString, deserialize name error" NextString;
  blocksToWait ← must "source.NextVarUint, deserialize blocksToWait error" NextVarUint;
  guard_err (negb (bool_decide (blocksToWait = 0))) "minimal value of BlocksToWait is 1" ;;
  ccmc ← must "source.NextVarBytes, deserialize CCMCAddress error" NextVarBytes;
  '(extraInfo, _) ← NextVarBytes;
  mret (mkRegisterSideChainParam addr chainId router name blocksToWait ccmc extraInfo).

Record ChainidParam := mkChainidParam { Chainid : Z; cp_Address : Address }.
Definition ChainidParam_Serialization (p : ChainidParam) : list sink_op :=
  [OpVarUint (Chainid p); OpVarAddress (cp_Address p)].
Definition ChainidParam_Deserialization : M ZeroCopySource ChainidParam :=
  chainid ← must "source.NextVarUint, deserialize chainid error" NextVarUint;
  addr ← read_address "source.NextVarBytes, deserialize address error"
                      "common.AddressParseFromBytes, deserialize address error: ";
  mret (mkChainidParam chainid addr).

(** ** Bitcoin redeem scripts *)

Abbreviation BindSignInfo := (gmap bytes bytes).
Definition BindSignInfo_from (l : list (bytes * bytes)) : list sink_op :=
  OpVarUint (blen l) :: enc_list (λ kv, [OpString kv.1; OpVarBytes kv.2]) (sort_desc bytes_lt fst l).
Definition BindSignInfo_Serialization (m : BindSignInfo) : list sink_op := BindSignInfo_from (map_to_list m).
Definition read_bind : M ZeroCopySource (bytes * bytes) :=
  k ← must "BindSignInfo deserialize public key error" NextString;
  v ← must "BindSignInfo deserialize byte error" NextVarBytes;
  mret (k, v).
Definition BindSignInfo_Deserialization : M ZeroCopySource BindSignInfo :=
  n ← must "BindSignInfo deserialize MultiSignInfo length error" NextVarUint;
  l ← loopM n read_bind;
  mret (map_of_list l).

Record ContractBinded := mkContractBinded { cb_Contract : bytes; Ver : Z }.
Definition ContractBinded_Serialization (c : ContractBinded) : list sink_op := [OpVarBytes (cb_Contract c); OpUint64 (Ver c)].
Definition ContractBinded_Deserialization : M ZeroCopySource ContractBinded :=
  contract ← must "BindContract deserialize contract error" NextVarBytes;
  ver ← must "BindContract deserialize version error" NextUint64;
  mret (mkContractBinded contract ver).

Record RegisterRedeemParam := mkRegisterRedeemParam {
  RedeemChainID : Z;
  ContractChainID : Z;
  Redeem : bytes;
  CVersion : Z;
  rr_ContractAddress : bytes;
  rr_Signs : list bytes;
}.
Definition RegisterRedeemParam_Serialization (p : RegisterRedeemParam) : list sink_op :=
  [OpVarUint (RedeemChainID p); OpVarUint (ContractChainID p); OpVarBytes (Redeem p); OpVarUint (CVersion p);
   OpVarBytes (rr_ContractAddress p); OpVarUint (blen (rr_Signs p))] ++ enc_list (λ v, [OpVarBytes v]) (rr_Signs p).
Definition RegisterRedeemParam_Deserialization : M ZeroCopySource RegisterRedeemParam :=
  redeemChainID ← must "RegisterRedeemParam deserialize redeemChainID error" NextVarUint;
  contractChainID ← must "RegisterRedeemParam deserialize contractChainID error" NextVarUint;
  redeem ← must "RegisterRedeemParam deserialize redeemKey error" NextVarBytes;
  cver ← must "RegisterRedeemParam deserialize contract version error" NextVarUint;
  contractAddress ← must "RegisterRedeemParam deserialize contractAddress error" NextVarBytes;
  n ← must "RegisterRedeemParam deserialize signs length error" NextVarUint;
  signs ← loopM n (must "deserialize Signs error" NextVarBytes);
  mret (mkRegisterRedeemParam redeemChainID contractChainID redeem cver contractAddress signs).

Record BtcTxParamDetial := mkBtcTxParamDetial { PVersion : Z; FeeRate : Z; MinChange : Z }.
Definition BtcTxParamDetial_Serialization (d : BtcTxParamDetial) : list sink_op :=
  [OpVarUint (PVersion d); OpVarUint (FeeRate d); OpVarUint (MinChange d)].
Definition BtcTxParamDetial_Deserialization : M ZeroCopySource BtcTxParamDetial :=
  pver ← must "BtcTxParamDetial deserialize version error" NextVarUint;
  feeRate ← must "BtcTxParamDetial deserialize fee rate error" NextVarUint;
  minChange ← must "BtcTxParamDetial deserialize min-change error" NextVarUint;
  mret (mkBtcTxParamDetial pver feeRate minChange).

Record BtcTxParam := mkBtcTxParam {
  bt_Redeem : bytes;
  bt_RedeemChainId : Z;
  Sigs : list bytes;
  Detial : BtcTxParamDetial;
}.
Definition BtcTxParam_Serialization (p : BtcTxParam) : list sink_op :=
  [OpVarBytes (bt_Redeem p); OpVarUint (bt_RedeemChainId p); OpVarUint (blen (Sigs p))] ++
  enc_list (λ v, [OpVarBytes v]) (Sigs p) ++ BtcTxParamDetial_Serialization (Detial p).
Definition BtcTxParam_Deserialization : M ZeroCopySource BtcTxParam :=
  redeem ← must "BtcFeeRateParam deserialize redeem error" NextVarBytes;
  redeemChainId ← must "BtcFeeRateParam deserialize redeem chain-id error" NextVarUint;
  l ← must "BtcFeeRateParam deserialize length of signature array error" NextVarUint;
  make_slices l ;;
  sigs ← loopM l (must "BtcFeeRateParam deserialize signature error" NextVarBytes);
  detial ← wrap_err "BtcFeeRateParam deserialize detail error: " BtcTxParamDetial_Deserialization;
  mret (mkBtcTxParam redeem redeemChainId sigs detial).

(** ** Assets *)

Definition enc_chain_map (l : list (Z * bytes)) : list sink_op :=
  OpVarUint (blen l) :: enc_list (λ kv, [OpVarUint kv.1; OpVarBytes kv.2]) (sort_desc Z.lt fst l).
Definition read_chain (what : string) : M ZeroCopySource (Z * bytes) :=
  k ← must "RegisterAssetParam deserialize chainId error" NextVarUint;
  v ← must what NextVarBytes;
  mret (k, v).
Definition read_chain_map (len_err what : string) : M ZeroCopySource (gmap Z bytes) :=
  n ← must len_err NextVarUint;
  l ← loopM n (read_chain what);
  mret (map_of_list l).

Record AssetBind := mkAssetBind { AssetMap : gmap Z bytes; LockProxyMap : gmap Z bytes }.
Definition AssetBind_Serialization (b : AssetBind) : list sink_op :=
  enc_chain_map (map_to_list (AssetMap b)) ++ enc_chain_map (map_to_list (LockProxyMap b)).
Definition AssetBind_Deserialization : M ZeroCopySource AssetBind :=
  assetMap ← read_chain_map "RegisterAssetParam deserialize length of asset map array error"
                            "RegisterAssetParam deserialize asset address error";
  lockProxyMap ← read_chain_map "RegisterAssetParam deserialize length of lock proxy map array error"
                                "RegisterAssetParam deserialize lock proxy address error";
  mret (mkAssetBind assetMap lockProxyMap).

Record RegisterAssetParam := mkRegisterAssetParam {
  OperatorAddress : Address;
  ra_ChainId : Z;
  ra_bind : AssetBind;              (* AssetMap and LockProxyMap *)
}.
Definition RegisterAssetParam_Serialization (p : RegisterAssetParam) : list sink_op :=
  [OpAddress (OperatorAddress p); OpVarUint (ra_ChainId p)] ++ AssetBind_Serialization (ra_bind p).
Definition RegisterAssetParam_Deserialization : M ZeroCopySource RegisterAssetParam :=
  operatorAddress ← must "RegisterAssetParam deserialize operatorAddress error" NextAddress;
  chainId ← must "RegisterAssetParam deserialize chainId error" NextVarUint;
  assets ← AssetBind_Deserialization;
  mret (mkRegisterAssetParam operatorAddress chainId assets).

(** ** Fees *)

Record Fee := mkFee { fee_View : Z; fee_Fee : Z }.
Definition Fee_Serialization (f : Fee) : list sink_op := [OpUint64 (fee_View f); OpVarBytes (big_bytes (fee_Fee f))].
Definition Fee_Deserialization : M ZeroCopySource Fee :=
  view ← must "Fee deserialize view error" NextUint64;
  fee ← must "Fee deserialize fee error" NextVarBytes;
  mret (mkFee view (be_get fee)).

Record FeeInfo := mkFeeInfo { StartTime : Z; fi_FeeInfo : gmap Address Z }.
Definition FeeInfo_from (startTime : Z) (l : list (Address * Z)) : list sink_op :=
  [OpUint32 startTime; OpVarUint (blen l)] ++
  enc_list (λ kv, [OpAddress kv.1; OpVarBytes (big_bytes kv.2)]) (sort_desc bytes_lt (ToHexString ∘ fst) l).
Definition FeeInfo_Serialization (f : FeeInfo) : list sink_op := FeeInfo_from (StartTime f) (map_to_list (fi_FeeInfo f)).
Definition read_fee : M ZeroCopySource (Address * Z) :=
  k ← must "FeeInfo deserialize address error" NextAddress;
  v ← must "BindSignInfo deserialize fee error" NextVarBytes;
  mret (k, be_get v).
Definition FeeInfo_Deserialization : M ZeroCopySource FeeInfo :=
  startTime ← must "FeeInfo deserialize start time error" NextUint32;
  n ← must "FeeInfo deserialize FeeInfo length error" NextVarUint;
  fees ← loopM n read_fee;
  mret (mkFeeInfo startTime (map_of_list fees)).

Record UpdateFeeParam := mkUpdateFeeParam { uf_Address : Address; uf_ChainId : Z; uf_View : Z; uf_Fee : Z }.
Definition UpdateFeeParam_Serialization (p : UpdateFeeParam) : list sink_op :=
  [OpAddress (uf_Address p); OpUint64 (uf_ChainId p); OpUint64 (uf_View p); OpVarBytes (big_bytes (uf_Fee p))].
Definition UpdateFeeParam_Deserialization : M ZeroCopySource UpdateFeeParam :=
  address ← must "RippleExtraInfo deserialize address error" NextAddress;
  chainId ← must "RippleExtraInfo deserialize chain id error" NextUint64;
  view ← must "RippleExtraInfo deserialize view error" NextUint64;
  fee ← must "RippleExtraInfo deserialize fee error" NextVarBytes;
  mret (mkUpdateFeeParam address chainId view (be_get fee)).

(** ** Ripple *)

Record RippleExtraInfo := mkRippleExtraInfo {
  Operator : Address;
  Sequence : Z;
  Quorum : Z;
  SignerNum : Z;
  Pks : list bytes;
  ReserveAmount : Z;
}.
Definition RippleExtraInfo_Serialization (r : RippleExtraInfo) : list sink_op :=
  [OpAddress (Operator r); OpUint64 (Sequence r); OpUint64 (Quorum r); OpUint64 (SignerNum r);
   OpVarUint (blen (Pks r))] ++ enc_list (λ v, [OpVarBytes v]) (Pks r) ++ [OpVarBytes (big_bytes (ReserveAmount r))].
Definition RippleExtraInfo_Deserialization : M ZeroCopySource RippleExtraInfo :=
  operator ← must "RippleExtraInfoParam deserialize operator error" NextAddress;
  sequence ← must "RippleExtraInfoParam deserialize sequence error" NextUint64;
  quorum ← must "RippleExtraInfoParam deserialize quorum error" NextUint64;
  signerNum ← must "RippleExtraInfoParam deserialize signerNum error" NextUint64;
  l ← must "RippleExtraInfoParam deserialize length of pk array error" NextVarUint;
  make_slices l ;;
  pks ← loopM l (must "RippleExtraInfoParam deserialize pk error" NextVarBytes);
  reserveAmount ← must "RippleExtraInfoParam deserialize reserveAmount error" NextVarBytes;
  mret (mkRippleExtraInfo operator sequence quorum signerNum pks (be_get reserveAmount)).

(** ** Round trips *)

(** A field whose end-of-input flag is ignored. *)
Lemma decodes_ignored {A B} (m : M ZeroCopySource (A * bool)) (k : A * bool → M ZeroCopySource B) bs1 bs2 a b :
  decodes m bs1 (a, false) → decodes (k (a, false)) bs2 b → decodes (m ≫= k) (bs1 ++ bs2) b.
Proof. apply decodes_bind. Qed.

#[export] Hint Resolve safe_guard : safe.

Definition side_wf (c : SideChain) : Prop := is_u64 (ChainId c) ∧ is_u64 (Router c) ∧ is_u64 (BlocksToWait c).

#[export] Program Instance SideChain_ser : Serializable SideChain := {|
  Serialization := SideChain_Serialization true;
  Deserialization := SideChain_Deserialization;
  ser_wf := side_wf;
|}.
Next Obligation.
  intros [] (?&?&?). unfold SideChain_Deserialization, SideChain_Serialization. solve_roundtrip.
Qed.
Next Obligation.
  unfold SideChain_Deserialization. solve_total.
Qed.

#[export] Program Instance RegisterSideChainParam_ser : Serializable RegisterSideChainParam := {|
  Serialization := RegisterSideChainParam_Serialization true;
  Deserialization := RegisterSideChainParam_Deserialization;
  ser_wf p := is_u64 (rs_ChainId p) ∧ is_u64 (rs_Router p) ∧ is_u64 (rs_BlocksToWait p) ∧ rs_BlocksToWait p ≠ 0;
|}.
Next Obligation.
  intros [] (?&?&?&?). unfold RegisterSideChainParam_Deserialization, RegisterSideChainParam_Serialization.
  cbn [rs_BlocksToWait] in *. solve_roundtrip.
  eapply decodes_bind_nil; [apply decodes_guard; by rewrite bool_decide_false|]. repeat codec_step.
Qed.
Next Obligation. unfold RegisterSideChainParam_Deserialization. solve_total. Qed.

#[export] Program Instance ChainidParam_ser : Serializable ChainidParam := {|
  Serialization := ChainidParam_Serialization;
  Deserialization := ChainidParam_Deserialization;
  ser_wf p := is_u64 (Chainid p);
|}.
Next Obligation. intros [] ?. unfold ChainidParam_Deserialization, ChainidParam_Serialization. solve_roundtrip. Qed.
Next Obligation. unfold ChainidParam_Deserialization. solve_total. Qed.

#[export] Program Instance BindSignInfo_ser : Serializable BindSignInfo := {|
  Serialization := BindSignInfo_Serialization;
  Deserialization := BindSignInfo_Deserialization;
  ser_wf m := is_u64 (Z.of_nat (size m));
|}.
Next Obligation.
  intros m Hs. unfold BindSignInfo_Serialization, BindSignInfo_from, BindSignInfo_Deserialization.
  rewrite length_map_to_list. solve_roundtrip.
  apply decodes_map_entries; [done| |intros; apply enc_varbytes_pos]. intros [a b] _. unfold read_bind. solve_roundtrip.
Qed.
Next Obligation.
  unfold BindSignInfo_Deserialization, read_bind. apply safe_bind; [solve_total|intros n].
  apply safe_bind; [|intros; apply safe_ret]. apply safe_loopM; [solve_total|].
  apply progress_bind; [solve_total|auto with safe|intros]. solve_total.
Qed.

#[export] Program Instance ContractBinded_ser : Serializable ContractBinded := {|
  Serialization := ContractBinded_Serialization;
  Deserialization := ContractBinded_Deserialization;
  ser_wf c := is_u64 (Ver c);
|}.
Next Obligation. intros [] ?. unfold ContractBinded_Deserialization, ContractBinded_Serialization. solve_roundtrip. Qed.
Next Obligation. unfold ContractBinded_Deserialization. solve_total. Qed.

#[export] Program Instance RegisterRedeemParam_ser : Serializable RegisterRedeemParam := {|
  Serialization := RegisterRedeemParam_Serialization;
  Deserialization := RegisterRedeemParam_Deserialization;
  ser_wf p := is_u64 (RedeemChainID p) ∧ is_u64 (ContractChainID p) ∧ is_u64 (CVersion p) ∧ is_u64 (blen (rr_Signs p));
|}.
Next Obligation.
  intros [] (?&?&?&?). unfold RegisterRedeemParam_Deserialization, RegisterRedeemParam_Serialization.
  cbn [rr_Signs] in *. solve_roundtrip. eapply decodes_map; [|done].
  apply decodes_list; [done| |intros; apply enc_varbytes_pos].
  intros a _. rewrite enc_ops_cons, enc_ops_nil, app_nil_r. apply decodes_must, decodes_NextVarBytes.
Qed.
Next Obligation.
  unfold RegisterRedeemParam_Deserialization. do 6 (apply safe_bind; [solve_total|intros]).
  apply safe_bind; [apply safe_loopM; auto with safe|intros; apply safe_ret].
Qed.

#[export] Program Instance BtcTxParamDetial_ser : Serializable BtcTxParamDetial := {|
  Serialization := BtcTxParamDetial_Serialization;
  Deserialization := BtcTxParamDetial_Deserialization;
  ser_wf d := is_u64 (PVersion d) ∧ is_u64 (FeeRate d) ∧ is_u64 (MinChange d);
|}.
Next Obligation. intros [] (?&?&?). unfold BtcTxParamDetial_Deserialization, BtcTxParamDetial_Serialization. solve_roundtrip. Qed.
Next Obligation. unfold BtcTxParamDetial_Deserialization. solve_total. Qed.

Lemma decodes_chain_map e1 e2 (m : gmap Z bytes) :
  is_u64 (Z.of_nat (size m)) → map_Forall (λ c _, is_u64 c) m →
  decodes (read_chain_map e1 e2) (enc_ops (enc_chain_map (map_to_list m))) m.
Proof.
  intros Hs Hc. unfold read_chain_map, enc_chain_map. rewrite length_map_to_list. solve_roundtrip.
  apply decodes_map_entries; [done| |].
  - intros [k v] Hin%elem_of_map_to_list. apply Hc in Hin. unfold read_chain. solve_roundtrip.
  - intros [k v] _. rewrite enc_ops_cons. cbn [enc_op fst]. rewrite !length_app. pose proof (length_enc_varuint k) as E.
    unfold varuint_size in E. repeat case_decide; lia.
Qed.

Lemma safe_chain_map e1 e2 : safe (read_chain_map e1 e2).
Proof.
  unfold read_chain_map, read_chain. apply safe_bind; [solve_total|intros n].
  apply safe_bind; [|intros; apply safe_ret]. apply safe_loopM; [solve_total|].
  apply progress_bind; [solve_total|auto with safe|intros]. solve_total.
Qed.
#[export] Hint Resolve decodes_chain_map : codec.
#[export] Hint Resolve safe_chain_map : safe.

Definition bind_wf (b : AssetBind) : Prop :=
  (is_u64 (Z.of_nat (size (AssetMap b))) ∧ map_Forall (λ c _, is_u64 c) (AssetMap b)) ∧
  (is_u64 (Z.of_nat (size (LockProxyMap b))) ∧ map_Forall (λ c _, is_u64 c) (LockProxyMap b)).

#[export] Program Instance AssetBind_ser : Serializable AssetBind := {|
  Serialization := AssetBind_Serialization;
  Deserialization := AssetBind_Deserialization;
  ser_wf := bind_wf;
|}.
Next Obligation.
  intros [a l] [[??] [??]]. unfold AssetBind_Deserialization, AssetBind_Serialization. rewrite enc_ops_app.
  cbn [AssetMap LockProxyMap] in *. eapply decodes_bind; [by apply decodes_chain_map|].
  eapply decodes_map; [by apply decodes_chain_map|done].
Qed.
Next Obligation. unfold AssetBind_Deserialization. solve_total. Qed.

#[export] Program Instance RegisterAssetParam_ser : Serializable RegisterAssetParam := {|
  Serialization := RegisterAssetParam_Serialization;
  Deserialization := RegisterAssetParam_Deserialization;
  ser_wf p := is_u64 (ra_ChainId p) ∧ bind_wf (ra_bind p);
|}.
Next Obligation.
  intros [a c b] [Hc Hb]. cbn [ra_ChainId ra_bind] in *.
  unfold RegisterAssetParam_Deserialization, RegisterAssetParam_Serialization. solve_roundtrip.
  eapply decodes_map; [exact (ser_roundtrip b Hb)|done].
Qed.
Next Obligation.
  unfold RegisterAssetParam_Deserialization. do 2 (apply safe_bind; [solve_total|intros]).
  apply safe_bind; [exact (ser_safe (A := AssetBind))|intros; apply safe_ret].
Qed.

#[export] Program Instance Fee_ser : Serializable Fee := {|
  Serialization := Fee_Serialization;
  Deserialization := Fee_Deserialization;
  ser_wf f := is_u64 (fee_View f) ∧ 0 ≤ fee_Fee f;
|}.
Next Obligation.
  intros [v f] [??]. cbn [fee_View fee_Fee] in *. unfold Fee_Deserialization, Fee_Serialization. cbn [fee_View fee_Fee].
  rewrite <- (be_get_big_bytes f) at 2 by done. solve_roundtrip.
Qed.
Next Obligation. unfold Fee_Deserialization. solve_total. Qed.

#[export] Program Instance FeeInfo_ser : Serializable FeeInfo := {|
  Serialization := FeeInfo_Serialization;
  Deserialization := FeeInfo_Deserialization;
  ser_wf f := is_u32 (StartTime f) ∧ is_u64 (Z.of_nat (size (fi_FeeInfo f))) ∧ map_Forall (λ _ x, 0 ≤ x) (fi_FeeInfo f);
|}.
Next Obligation.
  intros [t m] (?&?&Hm). cbn [StartTime fi_FeeInfo] in *. unfold FeeInfo_Deserialization, FeeInfo_Serialization, FeeInfo_from.
  cbn [StartTime fi_FeeInfo]. rewrite length_map_to_list. solve_roundtrip.
  eapply (decodes_map_ret _ map_of_list (mkFeeInfo t)). apply decodes_map_entries; [done| |].
  - intros [k v] Hin%elem_of_map_to_list. apply Hm in Hin. unfold read_fee. cbn [fst snd].
    rewrite <- (be_get_big_bytes v) at 2 by done. solve_roundtrip.
  - intros [k v] _. rewrite enc_ops_cons. cbn [enc_op]. rewrite !length_app, length_to_slice. lia.
Qed.
Next Obligation.
  unfold FeeInfo_Deserialization, read_fee. do 2 (apply safe_bind; [solve_total|intros]).
  apply safe_bind; [|intros; apply safe_ret]. apply safe_loopM; [solve_total|].
  apply progress_bind; [solve_total|auto with safe|intros]. solve_total.
Qed.

#[export] Program Instance UpdateFeeParam_ser : Serializable UpdateFeeParam := {|
  Serialization := UpdateFeeParam_Serialization;
  Deserialization := UpdateFeeParam_Deserialization;
  ser_wf p := is_u64 (uf_ChainId p) ∧ is_u64 (uf_View p) ∧ 0 ≤ uf_Fee p;
|}.
Next Obligation.
  intros [a c v f] (?&?&?). cbn [uf_ChainId uf_View uf_Fee] in *. unfold UpdateFeeParam_Deserialization, UpdateFeeParam_Serialization.
  cbn [uf_Fee uf_Address uf_ChainId uf_View]. rewrite <- (be_get_big_bytes f) at 2 by done. solve_roundtrip.
Qed.
Next Obligation. unfold UpdateFeeParam_Deserialization. solve_total. Qed.

(** ** The optional field *)

(** What is read back: without the field, [ExtraInfo] is empty. *)
Definition side_strip (extra : bool) (c : SideChain) : SideChain :=
  if extra then c else
  mkSideChain (sc_Address c) (ChainId c) (Router c) (sc_Name c) (BlocksToWait c) (CCMCAddress c) [].

Lemma NextVarBytes_end b : NextVarBytes (mkSource b (blen b)) = (Ok ([], true), mkSource b (blen b)).
Proof.
  unfold NextVarBytes, NextVarUint, NextByte. unfold mbind, M_bind, get_state. cbn.
  by rewrite decide_True by lia.
Qed.

(** Reading the last bytes of an input. *)
Definition decodes_end {A} (m : M ZeroCopySource A) (bs : bytes) (a : A) : Prop :=
  ∀ pre, blen (pre ++ bs) < 2 ^ 63 → (m (mkSource (pre ++ bs) (blen pre))).1 = Ok a.

Lemma decodes_end_bind {A B} (m : M ZeroCopySource A) (k : A → M ZeroCopySource B) bs1 bs2 a b :
  decodes m bs1 a → decodes_end (k a) bs2 b → decodes_end (m ≫= k) (bs1 ++ bs2) b.
Proof.
  intros Hm Hk pre Hl. unfold mbind, M_bind. rewrite (Hm pre bs2 Hl), app_assoc.
  apply Hk. by rewrite <- app_assoc.
Qed.

Lemma decodes_end_must {A B} msg (m : M ZeroCopySource (A * bool)) (k : A → M ZeroCopySource B) bs1 bs2 a b :
  decodes m bs1 (a, false) → decodes_end (k a) bs2 b → decodes_end (must msg m ≫= k) (bs1 ++ bs2) b.
Proof. intros Hm. apply decodes_end_bind. by apply decodes_must. Qed.

Lemma side_chain_read extra c :
  side_wf c → blen (enc_ops (SideChain_Serialization extra c)) < 2 ^ 63 →
  (SideChain_Deserialization (NewZeroCopySource (enc_ops (SideChain_Serialization extra c)))).1 = Ok (side_strip extra c).
Proof.
  intros Hwf Hl. destruct extra.
  - pose proof (deserialize_bytes c [] Hwf) as E. unfold sink_bytes in E. rewrite app_nil_r in E.
    cbn [Serialization SideChain_ser] in E. change (Deserialization SideChain) with SideChain_Deserialization in E.
    by rewrite E.
  - enough (decodes_end SideChain_Deserialization (enc_ops (SideChain_Serialization false c)) (side_strip false c)) as Hd
      by exact (Hd [] Hl).
    clear Hl. destruct c, Hwf as (?&?&?). unfold SideChain_Deserialization, SideChain_Serialization, side_strip.
    rewrite ?enc_ops_app, ?enc_ops_cons, ?enc_ops_nil, <- ?app_assoc, ?app_nil_l. unfold OpVarAddress. cbn [enc_op].
    repeat first [eapply decodes_end_must; [solve [eauto with codec]|] | eapply decodes_end_bind; [solve [eauto with codec]|]].
    intros pre _. rewrite app_nil_r. erewrite bind_ok by apply NextVarBytes_end. done.
Qed.

(** ** The two readers that allocate first *)

Lemma decodes_BtcTxParam (p : BtcTxParam) :
  is_u64 (bt_RedeemChainId p) → blen (Sigs p) ≤ max_slices → ser_wf (Detial p) →
  decodes BtcTxParam_Deserialization (enc_ops (BtcTxParam_Serialization p)) p.
Proof.
  destruct p as [r c l d]. cbn [bt_RedeemChainId Sigs Detial]. intros Hc Hl Hd.
  assert (is_u64 (blen l)) by (split; [lia|]; eapply Z.le_lt_trans; [exact Hl|done]).
  unfold BtcTxParam_Deserialization, BtcTxParam_Serialization. cbn [bt_Redeem bt_RedeemChainId Sigs Detial]. solve_roundtrip.
  eapply decodes_bind_nil; [by apply decodes_make_slices|]. eapply decodes_bind; [by apply decodes_slices|].
  eapply decodes_map; [apply decodes_wrap; exact (ser_roundtrip d Hd)|done].
Qed.

Lemma decodes_RippleExtraInfo (r : RippleExtraInfo) :
  is_u64 (Sequence r) → is_u64 (Quorum r) → is_u64 (SignerNum r) → blen (Pks r) ≤ max_slices → 0 ≤ ReserveAmount r →
  decodes RippleExtraInfo_Deserialization (enc_ops (RippleExtraInfo_Serialization r)) r.
Proof.
  destruct r as [o s q n l a]. cbn [Sequence Quorum SignerNum Pks ReserveAmount]. intros Hs Hq Hn Hl Ha.
  assert (is_u64 (blen l)) by (split; [lia|]; eapply Z.le_lt_trans; [exact Hl|done]).
  unfold RippleExtraInfo_Deserialization, RippleExtraInfo_Serialization.
  cbn [Operator Sequence Quorum SignerNum Pks ReserveAmount]. rewrite <- (be_get_big_bytes a) at 2 by done. solve_roundtrip.
  eapply decodes_bind_nil; [by apply decodes_make_slices|]. eapply decodes_bind; [by apply decodes_slices|].
  repeat codec_step.
Qed.
