(* ===== verification/SideChain.v ===== *)
(** * The side chain manager contract
    (governance/side_chain_manager/utils.go, side_chain_manager.go)

    Registration, update and removal of side chains, each requested by the owner
    and approved by a quorum of the consensus peers; redeem scripts and transaction
    parameters of Bitcoin, signed by the keys of the script; asset bindings and
    the fee of a chain, which is voted.  Bitcoin's script and signature library
    (btcd) is a parameter. *)

From S2P Require Import Prelude Sha256 Sink Source Serialization BytesOrder MemDB OverlayDB CacheDB Contract MerkleSpec MerkleHasher Native Codec NodeStates NodeManager NodeInv NodeGov CrossCommon ConsensusVote SideStates.

(** txscript, btcec and btcutil. *)
Class Btc := {
  ScriptClass : Type;
  is_MultiSigTy : ScriptClass → bool;
  class_String : ScriptClass → string;
  BtcAddress : Type;
  EncodeAddress : BtcAddress → bytes;
  ExtractPkScriptAddrs : bytes → res (ScriptClass * list BtcAddress * Z);
  GetScriptClass : bytes → ScriptClass;
  Hash160 : bytes → bytes;
  BtcSignature : Type;
  ParseDERSignature : bytes → res BtcSignature;
  sig_Verify : BtcSignature → bytes → BtcAddress → bool;
}.

(** The parts of the node's state the serialization of a side chain looks at. *)
Record SideEnv := mkSideEnv {
  se_cfg : Config;
  EXTRA_INFO_HEIGHT_FORK_CHECK : bool;
  GetCurrentBlockHeight : Z;
}.
Definition GetExtraInfoHeight (id : Z) : Z :=
  if decide (id = NETWORK_ID_MAIN_NET) then 2917744
  else if decide (id = NETWORK_ID_TEST_NET) then 1664798 else 0.
Definition writes_ExtraInfo (env : SideEnv) : bool :=
  negb (EXTRA_INFO_HEIGHT_FORK_CHECK env) ||
  bool_decide (GetExtraInfoHeight (NetworkId (se_cfg env)) ≤ GetCurrentBlockHeight env).

Definition SIDE_CHAIN_APPLY : bytes := gs "sideChainApply".
Definition UPDATE_SIDE_CHAIN_REQUEST : bytes := gs "updateSideChainRequest".
Definition QUIT_SIDE_CHAIN_REQUEST : bytes := gs "quitSideChainRequest".
Definition SIDE_CHAIN : bytes := gs "sideChain".
Definition REDEEM_BIND : bytes := gs "redeemBind".
Definition BIND_SIGN_INFO : bytes := gs "bindSignInfo".
Definition BTC_TX_PARAM : bytes := gs "btcTxParam".
Definition REDEEM_SCRIPT : bytes := gs "redeemScript".
Definition ASSET_BIND : bytes := gs "assetBind".
Definition FEE : bytes := gs "fee".
Definition FEE_INFO : bytes := gs "feeInfo".
Definition UPDATE_FEE_TIMEOUT : Z := 300.

Definition APPROVE_REGISTER_SIDE_CHAIN : bytes := gs "approveRegisterSideChain".
Definition APPROVE_UPDATE_SIDE_CHAIN : bytes := gs "approveUpdateSideChain".
Definition QUIT_SIDE_CHAIN : bytes := gs "quitSideChain".
Definition UPDATE_FEE : bytes := gs "updateFee".

Definition sm_key (args : list bytes) : bytes := ConcatKey SideChainManagerContractAddress args.
Definition apply_key (c : Z) : bytes := sm_key [SIDE_CHAIN_APPLY; GetUint64Bytes c].
Definition sideChain_key (c : Z) : bytes := sm_key [SIDE_CHAIN; GetUint64Bytes c].
Definition update_key (c : Z) : bytes := sm_key [UPDATE_SIDE_CHAIN_REQUEST; GetUint64Bytes c].
Definition quit_key (c : Z) : bytes := sm_key [QUIT_SIDE_CHAIN_REQUEST; GetUint64Bytes c].
Definition redeemBind_key (rc cc : Z) (redeemKey : bytes) : bytes :=
  sm_key [REDEEM_BIND; GetUint64Bytes rc; GetUint64Bytes cc; redeemKey].
Definition bindSign_key (message : bytes) : bytes := sm_key [BIND_SIGN_INFO; message].
Definition btcTxParam_key (redeemKey : bytes) (c : Z) : bytes := sm_key [BTC_TX_PARAM; redeemKey; GetUint64Bytes c].
Definition redeemScript_key (c : Z) (k : bytes) : bytes := sm_key [REDEEM_SCRIPT; GetUint64Bytes c; k].
Definition assetBind_key (c : Z) : bytes := sm_key [ASSET_BIND; GetUint64Bytes c].
Definition fee_key (c : Z) : bytes := sm_key [FEE; GetUint64Bytes c].
Definition feeInfo_key (c view : Z) : bytes := sm_key [FEE_INFO; GetUint64Bytes c; GetUint64Bytes view].

Section side_chain.
Context `{Hasher} `{Crypto} `{Btc} (env : SideEnv).

(** ** utils.go *)

(** [store, err := Get(key); if store != nil { raw item; Deserialization } else { nil }]. *)
Definition get_opt {A} `{Serializable A} (get_err raw_err de_err : string) (key : bytes) : contract NativeService (option A) :=
  store ← cwrap get_err (cget key);
  if decide (store = []) then mret None else
  a ← load_with raw_err de_err store; mret (Some a).
(** The same with a default value. *)
Definition get_or {A} `{Serializable A} (d : A) (get_err raw_err de_err : string) (key : bytes) : contract NativeService A :=
  store ← cwrap get_err (cget key);
  if decide (store = []) then mret d else load_with raw_err de_err store.

(** [sideChain.Serialization(sink)] and [Put]. *)
Definition put_side (key : bytes) (sideChain : SideChain) : contract NativeService unit :=
  cput key (GenRawStorageItem (enc_ops (SideChain_Serialization (writes_ExtraInfo env) sideChain))).

Definition getSideChainApply (chainid : Z) : contract NativeService (option SideChain) :=
  get_opt "getRegisterSideChain,get registerSideChainRequestStore error: "
    "getRegisterSideChain, deserialize from raw storage item err:"
    "getRegisterSideChain, deserialize sideChain error: " (apply_key chainid).
Definition putSideChainApply (sideChain : SideChain) : contract NativeService unit :=
  put_side (apply_key (ChainId sideChain)) sideChain.

Definition GetSideChain (chainID : Z) : contract NativeService (option SideChain) :=
  get_opt "getSideChain,get registerSideChainRequestStore error: "
    "getSideChain, deserialize from raw storage item err:"
    "getSideChain, deserialize sideChain error: " (sideChain_key chainID).
Definition PutSideChain (sideChain : SideChain) : contract NativeService unit :=
  put_side (sideChain_key (ChainId sideChain)) sideChain.

Definition getUpdateSideChain (chainid : Z) : contract NativeService (option SideChain) :=
  get_opt "getUpdateSideChain,get registerSideChainRequestStore error: "
    "getUpdateSideChain, deserialize from raw storage item err:"
    "getUpdateSideChain, deserialize sideChain error: " (update_key chainid).
Definition putUpdateSideChain (sideChain : SideChain) : contract NativeService unit :=
  put_side (update_key (ChainId sideChain)) sideChain.

Definition getQuitSideChain (chainid : Z) : contract NativeService unit :=
  chainIDStore ← cwrap "getQuitSideChain, get registerSideChainRequestStore error: " (cget (quit_key chainid));
  cguard (bool_decide (chainIDStore ≠ [])) "getQuitSideChain, no record".
Definition putQuitSideChain (chainid : Z) : contract NativeService unit :=
  cput (quit_key chainid) (GenRawStorageItem (GetUint64Bytes chainid)).

Definition GetContractBind (redeemChainID contractChainID : Z) (redeemKey : bytes) : contract NativeService (option ContractBinded) :=
  get_opt "GetContractBind, get contractBindStore error: " "GetContractBind, deserialize from raw storage item err:"
    "GetContractBind, deserialize BindContract err:" (redeemBind_key redeemChainID contractChainID redeemKey).
Definition putContractBind (redeemChainID contractChainID : Z) (redeemKey contractAddress : bytes) (cver : Z)
    : contract NativeService unit :=
  store_item (redeemBind_key redeemChainID contractChainID redeemKey) (mkContractBinded contractAddress cver).

Definition putBindSignInfo (message : bytes) (multiSignInfo : BindSignInfo) : contract NativeService unit :=
  store_item (bindSign_key message) multiSignInfo.
Definition getBindSignInfo (message : bytes) : contract NativeService BindSignInfo :=
  get_or ∅ "getBtcMultiSignInfo, get multiSignInfoStore error: "
    "getBtcMultiSignInfo, deserialize from raw storage item err:"
    "getBtcMultiSignInfo, deserialize multiSignInfo err:" (bindSign_key message).

Definition putBtcTxParam (redeemKey : bytes) (redeemChainId : Z) (detail : BtcTxParamDetial) : contract NativeService unit :=
  store_item (btcTxParam_key redeemKey redeemChainId) detail.
Definition GetBtcTxParam (redeemKey : bytes) (redeemChainId : Z) : contract NativeService (option BtcTxParamDetial) :=
  get_opt "GetBtcTxParam, get btcTxParam error: " "GetBtcTxParam, deserialize from raw storage item error: "
    "GetBtcTxParam, deserialize BtcTxParam error: " (btcTxParam_key redeemKey redeemChainId).

(** One signature against every address of the script. *)
Definition verify_sig (addrs : list BtcAddress) (hash : bytes) (r : gmap bytes bytes) (sig : bytes) : res (gmap bytes bytes) :=
  if decide (blen sig < 1) then Err "length of sig is less than 1" else
  match ParseDERSignature sig with
  | Err e => Err ("failed to parse sig: " +:+ e)
  | Panic => Panic
  | Ok pSig => Ok (foldl (λ r addr, if sig_Verify pSig hash addr then <[EncodeAddress addr := sig]> r else r) r addrs)
  end.
Fixpoint verify_loop (sigs : list bytes) (addrs : list BtcAddress) (hash : bytes) (r : gmap bytes bytes) : res (gmap bytes bytes) :=
  match sigs with
  | [] => Ok r
  | sig :: sigs' => match verify_sig addrs hash r sig with
                    | Ok r' => verify_loop sigs' addrs hash r'
                    | e => e
                    end
  end.
Definition verify (sigs : list bytes) (addrs : list BtcAddress) (hash : bytes) : res (gmap bytes bytes) :=
  match verify_loop sigs addrs hash ∅ with
  | Ok r => if decide (r = ∅) then Err "no sigs is verified" else Ok r
  | e => e
  end.
Definition verifyRedeemRegister (param : RegisterRedeemParam) (addrs : list BtcAddress) : res (gmap bytes bytes) :=
  verify (rr_Signs param) addrs
    (Hash160 (Redeem param ++ GetUint64Bytes (RedeemChainID param) ++ rr_ContractAddress param ++
      GetUint64Bytes (ContractChainID param) ++ GetUint64Bytes (CVersion param))).
Definition verifyBtcTxParam (param : BtcTxParam) (addrs : list BtcAddress) : res (gmap bytes bytes) :=
  verify (Sigs param) addrs
    (Hash160 (bt_Redeem param ++ GetUint64Bytes (bt_RedeemChainId param) ++ GetUint64Bytes (FeeRate (Detial param)) ++
      GetUint64Bytes (MinChange (Detial param)) ++ GetUint64Bytes (PVersion (Detial param)))).

Definition putBtcRedeemScript (redeemScriptKey redeemScriptBytes : bytes) (redeemChainId : Z) : contract NativeService unit :=
  let cls := class_String (GetScriptClass redeemScriptBytes) in
  if decide (cls ≠ "multisig"%string) then CFail ("putBtcRedeemScript, wrong type of redeem: " +:+ cls)
  else cput (redeemScript_key redeemChainId redeemScriptKey) (GenRawStorageItem redeemScriptBytes).
Definition GetBtcRedeemScriptBytes (redeemScriptKey : bytes) (redeemChainId : Z) : contract NativeService bytes :=
  redeemStore ← cwrap "getBtcRedeemScript, get btcProofStore error: " (cget (redeemScript_key redeemChainId redeemScriptKey));
  if decide (redeemStore = []) then CFail "getBtcRedeemScript, can not find any records" else
  cwrap "getBtcRedeemScript, deserialize from raw storage item err:" (lift_res (GetValueFromRawStorageItem redeemStore)).

Definition PutAssetBind (chainId : Z) (assetBind : AssetBind) : contract NativeService unit :=
  store_item (assetBind_key chainId) assetBind.
Definition GetAssetBind (chainId : Z) : contract NativeService AssetBind :=
  get_or (mkAssetBind ∅ ∅) "GetAssetMap, get asset map store error: " "GetAssetMap, deserialize from raw storage item err:"
    "GetAssetMap, deserialize asset map err:" (assetBind_key chainId).

Definition PutFee (chainId : Z) (fee : Fee) : contract NativeService unit := store_item (fee_key chainId) fee.
Definition GetFee (chainID : Z) : contract NativeService Fee :=
  get_or (mkFee 0 0) "GetFee, get fee info store error: " "GetFee, deserialize from raw storage item err:"
    "GetFee, deserialize fee info err:" (fee_key chainID).
Definition PutFeeInfo (chainId view : Z) (feeInfo : FeeInfo) : contract NativeService unit :=
  store_item (feeInfo_key chainId view) feeInfo.
Definition GetFeeInfo (chainID view : Z) : contract NativeService FeeInfo :=
  get_or (mkFeeInfo 0 ∅) "GetFeeInfo, get fee info store error: " "GetFeeInfo, deserialize from raw storage item err:"
    "GetFeeInfo, deserialize fee info err:" (feeInfo_key chainID view).

Definition GetRippleExtraInfo (chainId : Z) : contract NativeService RippleExtraInfo :=
  sideChainInfo ← cwrap "GetRippleExtraInfo, GetSideChain error: " (GetSideChain chainId);
  match sideChainInfo with
  | None => CFail "GetRippleExtraInfo, side chain info is nil"
  | Some c => cwrap "GetRippleExtraInfo, rippleExtraInfo.Deserialization error: "
                (lift_res (RippleExtraInfo_Deserialization (NewZeroCopySource (ExtraInfo c))).1)
  end.
Definition PutRippleExtraInfo (chainId : Z) (rippleExtraInfo : RippleExtraInfo) : contract NativeService unit :=
  sideChainInfo ← cwrap "PutRippleExtraInfo, GetSideChain error: " (GetSideChain chainId);
  match sideChainInfo with
  | None => CPanic                 (* sideChainInfo.ExtraInfo dereferences nil *)
  | Some c =>
      PutSideChain (mkSideChain (sc_Address c) (ChainId c) (Router c) (sc_Name c) (BlocksToWait c) (CCMCAddress c)
        (enc_ops (RippleExtraInfo_Serialization rippleExtraInfo)))
  end.

(** ** side_chain_manager.go *)

Definition param_side (p : RegisterSideChainParam) : SideChain :=
  mkSideChain (rs_Address p) (rs_ChainId p) (rs_Router p) (rs_Name p) (rs_BlocksToWait p) (rs_CCMCAddress p) (rs_ExtraInfo p).
Definition notify_side (name : string) (p : RegisterSideChainParam) : contract NativeService unit :=
  notify_nm [NStr (gs name); NInt (rs_ChainId p); NInt (rs_Router p); NStr (rs_Name p); NInt (rs_BlocksToWait p)].

Definition RegisterSideChain : Handler :=
  params ← input_as (A := RegisterSideChainParam) "RegisterSideChain, contract params deserialize error: ";
  cwrap "RegisterSideChain, checkWitness error: " (ValidateOwner (rs_Address params)) ;;
  registerSideChain ← cwrap "RegisterSideChain, getRegisterSideChain error: " (getSideChainApply (rs_ChainId params));
  cguard (bool_decide (registerSideChain = None)) "RegisterSideChain, chainid already requested" ;;
  sideChain ← cwrap "RegisterSideChain, getSideChain error: " (GetSideChain (rs_ChainId params));
  cguard (bool_decide (sideChain = None)) "RegisterSideChain, chainid already registered" ;;
  putSideChainApply (param_side params) ;;
  notify_side "RegisterSideChain" params ;;
  mret BYTE_TRUE.

Definition ApproveRegisterSideChain : Handler :=
  params ← input_as (A := ChainidParam) "ApproveRegisterSideChain, contract params deserialize error: ";
  cwrap "ApproveRegisterSideChain, checkWitness error: " (ValidateOwner (cp_Address params)) ;;
  registerSideChain ← cwrap "ApproveRegisterSideChain, getRegisterSideChain error: " (getSideChainApply (Chainid params));
  match registerSideChain with
  | None => CFail "ApproveRegisterSideChain, chainid is not requested"
  | Some registerSideChain =>
      ok ← cwrap "ApproveRegisterSideChain, CheckConsensusSigns error: "
             (CheckConsensusSigns APPROVE_REGISTER_SIDE_CHAIN (GetUint64Bytes (Chainid params)) (cp_Address params));
      if negb ok then mret BYTE_TRUE else
      PutSideChain registerSideChain ;;
      cdel (apply_key (Chainid params)) ;;
      notify_nm [NStr (gs "ApproveRegisterSideChain"); NInt (Chainid params)] ;;
      mret BYTE_TRUE
  end.

Definition UpdateSideChain : Handler :=
  params ← input_as (A := RegisterSideChainParam) "UpdateSideChain, contract params deserialize error: ";
  cwrap "UpdateSideChain, checkWitness error: " (ValidateOwner (rs_Address params)) ;;
  sideChain ← cwrap "UpdateSideChain, getSideChain error: " (GetSideChain (rs_ChainId params));
  match sideChain with
  | None => CFail "UpdateSideChain, side chain is not registered"
  | Some sideChain =>
      cguard (bool_decide (sc_Address sideChain = rs_Address params)) "UpdateSideChain, side chain owner is wrong" ;;
      putUpdateSideChain (param_side params) ;;
      notify_side "UpdateSideChain" params ;;
      mret BYTE_TRUE
  end.

Definition ApproveUpdateSideChain : Handler :=
  params ← input_as (A := ChainidParam) "ApproveUpdateSideChain, contract params deserialize error: ";
  cwrap "ApproveUpdateSideChain, checkWitness error: " (ValidateOwner (cp_Address params)) ;;
  sideChain ← cwrap "ApproveUpdateSideChain, getUpdateSideChain error: " (getUpdateSideChain (Chainid params));
  match sideChain with
  | None => CFail "ApproveUpdateSideChain, chainid is not requested update"
  | Some sideChain =>
      ok ← cwrap "ApproveUpdateSideChain, CheckConsensusSigns error: "
             (CheckConsensusSigns APPROVE_UPDATE_SIDE_CHAIN (GetUint64Bytes (Chainid params)) (cp_Address params));
      if negb ok then mret BYTE_TRUE else
      PutSideChain sideChain ;;
      cdel (update_key (Chainid params)) ;;
      notify_nm [NStr (gs "ApproveUpdateSideChain"); NInt (Chainid params)] ;;
      mret BYTE_TRUE
  end.

Definition QuitSideChain : Handler :=
  params ← input_as (A := ChainidParam) "QuitSideChain, contract params deserialize error: ";
  cwrap "QuitSideChain, checkWitness error: " (ValidateOwner (cp_Address params)) ;;
  sideChain ← cwrap "QuitSideChain, getSideChain error: " (GetSideChain (Chainid params));
  match sideChain with
  | None => CFail "QuitSideChain, side chain is not registered"
  | Some sideChain =>
      cguard (bool_decide (sc_Address sideChain = cp_Address params)) "QuitSideChain, side chain owner is wrong" ;;
      putQuitSideChain (Chainid params) ;;
      notify_nm [NStr (gs "QuitSideChain"); NInt (Chainid params)] ;;
      mret BYTE_TRUE
  end.

(** The first deletion uses the method's name, not the prefix under which
    [putQuitSideChain] stored the request. *)
Definition ApproveQuitSideChain : Handler :=
  params ← input_as (A := ChainidParam) "ApproveQuitSideChain, contract params deserialize error: ";
  cwrap "ApproveQuitSideChain, checkWitness error: " (ValidateOwner (cp_Address params)) ;;
  cwrap "ApproveQuitSideChain, getQuitSideChain error: " (getQuitSideChain (Chainid params)) ;;
  ok ← cwrap "ApproveQuitSideChain, CheckConsensusSigns error: "
         (CheckConsensusSigns QUIT_SIDE_CHAIN (GetUint64Bytes (Chainid params)) (cp_Address params));
  if negb ok then mret BYTE_TRUE else
  cdel (sm_key [QUIT_SIDE_CHAIN; GetUint64Bytes (Chainid params)]) ;;
  cdel (sideChain_key (Chainid params)) ;;
  notify_nm [NStr (gs "ApproveQuitSideChain"); NInt (Chainid params)] ;;
  mret BYTE_TRUE.

Definition notify_sm (states : list nval) : contract NativeService unit :=
  AddNotify (mkNotify SideChainManagerContractAddress states).

Definition RegisterRedeem : Handler :=
  params ← input_as (A := RegisterRedeemParam) "RegisterRedeem, contract params deserialize error: ";
  '(ty, addrs, m) ← cwrap "RegisterRedeem, failed to extract addrs: " (lift_res (ExtractPkScriptAddrs (Redeem params)));
  cguard (is_MultiSigTy ty) ("RegisterRedeem, wrong type of redeem: " +:+ class_String ty) ;;
  let rk := Hash160 (Redeem params) in
  contract ← cwrap "RegisterRedeem, failed to get contract and version: "
    (GetContractBind (RedeemChainID params) (ContractChainID params) rk);
  cguard (match contract with Some c => bool_decide (u64 (Ver c + 1) = CVersion params) | None => true end)
    "RegisterRedeem, wrong version" ;;
  verified ← cwrap "RegisterRedeem, failed to verify: " (lift_res (verifyRedeemRegister params addrs));
  let key := rk ++ GetUint64Bytes (RedeemChainID params) ++ rr_ContractAddress params ++
             GetUint64Bytes (ContractChainID params) in
  bindSignInfo ← cwrap "RegisterRedeem, getBindSignInfo error: " (getBindSignInfo key);
  let bindSignInfo := verified ∪ bindSignInfo in
  putBindSignInfo key bindSignInfo ;;
  (if decide (m ≤ Z.of_nat (size bindSignInfo)) then
     putContractBind (RedeemChainID params) (ContractChainID params) rk (rr_ContractAddress params) (CVersion params) ;;
     cwrap "RegisterRedeem, failed to save redeemscript: "
       (putBtcRedeemScript (hex_encode rk) (Redeem params) (RedeemChainID params)) ;;
     notify_sm [NStr (gs "RegisterRedeem"); NStr (hex_encode rk); NStr (hex_encode (rr_ContractAddress params))]
   else mret tt) ;;
  mret BYTE_TRUE.

Definition SetBtcTxParam : Handler :=
  input ← cask ns_input;
  params ← cwrap "SetBtcTxParam, deserialize BtcTxParam error: " (lift_res (BtcTxParam_Deserialization (NewZeroCopySource input)).1);
  cguard (negb (bool_decide (FeeRate (Detial params) = 0))) "SetBtcTxParam, fee rate can't be zero" ;;
  cguard (negb (bool_decide (MinChange (Detial params) < 2000))) "SetBtcTxParam, min-change can't less than 2000" ;;
  '(cls, addrs, m) ← cwrap "SetBtcTxParam, extract addrs from redeem " (lift_res (ExtractPkScriptAddrs (bt_Redeem params)));
  cguard (is_MultiSigTy cls) ("SetBtcTxParam, redeem script is not multisig script: " +:+ class_String cls) ;;
  let rk := Hash160 (bt_Redeem params) in
  prev ← cwrap "SetBtcTxParam, get previous param error: " (GetBtcTxParam rk (bt_RedeemChainId params));
  cguard (match prev with Some d => bool_decide (PVersion (Detial params) = u64 (PVersion d + 1)) | None => true end)
    "SetBtcTxParam, wrong version" ;;
  let key := rk ++ GetUint64Bytes (bt_RedeemChainId params) ++ sink_bytes (Detial params) in
  info ← cwrap "SetBtcTxParam, getBindSignInfo error: " (getBindSignInfo key);
  cguard (negb (bool_decide (m ≤ Z.of_nat (size info)))) "SetBtcTxParam, the signatures are already enough" ;;
  verified ← cwrap "SetBtcTxParam, failed to verify: " (lift_res (verifyBtcTxParam params addrs));
  let info := verified ∪ info in
  putBindSignInfo key info ;;
  (if decide (m ≤ Z.of_nat (size info)) then
     putBtcTxParam rk (bt_RedeemChainId params) (Detial params) ;;
     notify_sm [NStr (gs "SetBtcTxParam"); NStr (hex_encode rk); NInt (bt_RedeemChainId params);
                NInt (FeeRate (Detial params)); NInt (MinChange (Detial params))]
   else mret tt) ;;
  mret BYTE_TRUE.

Definition RegisterAsset : Handler :=
  params ← input_as (A := RegisterAssetParam) "RegisterAssetMap, contract params deserialize error: ";
  cwrap "RegisterAssetMap, checkWitness error: " (ValidateOwner (OperatorAddress params)) ;;
  rippleExtraInfo ← cwrap "RegisterAssetMap, GetRippleExtraInfo error: " (GetRippleExtraInfo (ra_ChainId params));
  cguard (bool_decide (Operator rippleExtraInfo = OperatorAddress params)) "RegisterAssetMap, caller is not operator" ;;
  assetBind ← cwrap "RegisterAssetMap, GetAssetMap error: " (GetAssetBind (ra_ChainId params));
  PutAssetBind (ra_ChainId params)
    (mkAssetBind (AssetMap (ra_bind params) ∪ AssetMap assetBind) (LockProxyMap (ra_bind params) ∪ LockProxyMap assetBind)) ;;
  mret BYTE_TRUE.

(** The fee that the reported ones give: five times their median. *)
Definition settle_fee (feeInfoList : list Z) : option Z :=
  let l := blen feeInfoList in
  if decide (Z.rem l 2 = 0) then
    a ← feeInfoList !! Z.to_nat (l ÷ 2); 
    b ← (if decide (l ÷ 2 - 1 < 0) then None else feeInfoList !! Z.to_nat (l ÷ 2 - 1));
    Some ((a + b) * 5 / 2)
  else
    a ← feeInfoList !! Z.to_nat ((l - 1) ÷ 2);
    Some (a * 5).

Definition UpdateFee : Handler :=
  params ← input_as (A := UpdateFeeParam) "UpdateFee, contract params deserialize error: ";
  cwrap "UpdateFee, checkWitness error: " (ValidateOwner (uf_Address params)) ;;
  fee ← cwrap "UpdateFee, GetFee error: " (GetFee (uf_ChainId params));
  cguard (bool_decide (fee_View fee = uf_View params)) "UpdateFee, view not match" ;;
  feeInfo ← cwrap "UpdateFee, GetFeeInfo error: " (GetFeeInfo (uf_ChainId params) (fee_View fee));
  time ← cask ns_time;
  '(fee, feeInfo) ←
    (if decide (StartTime feeInfo = 0) then mret (fee, mkFeeInfo time (fi_FeeInfo feeInfo))
     else if decide (UPDATE_FEE_TIMEOUT < u32 (time - StartTime feeInfo)) then
       let fee := mkFee (u64 (fee_View fee + 1)) (fee_Fee fee) in
       PutFee (uf_ChainId params) fee ;; mret (fee, mkFeeInfo time ∅)
     else mret (fee, feeInfo));
  let feeInfo := mkFeeInfo (StartTime feeInfo) (<[uf_Address params := uf_Fee params]> (fi_FeeInfo feeInfo)) in
  PutFeeInfo (uf_ChainId params) (fee_View fee) feeInfo ;;
  let voteId := UPDATE_FEE ++ GetUint64Bytes (uf_ChainId params) ++ GetUint64Bytes (fee_View fee) in
  ok ← cwrap "UpdateFee, CheckConsensusSigns error: " (CheckVotes voteId (uf_Address params));
  if negb ok then mret BYTE_TRUE else
  match settle_fee (sort_desc Z.lt id (map_to_list (fi_FeeInfo feeInfo)).*2) with
  | None => CPanic
  | Some x => PutFee (uf_ChainId params) (mkFee (u64 (fee_View fee + 1)) x) ;; mret BYTE_TRUE
  end.

(** The contract's methods, with the names they are registered under. *)
Definition RegisterSideChainManagerContract : list (bytes * Handler) :=
  [(gs "registerSideChain", RegisterSideChain); (gs "approveRegisterSideChain", ApproveRegisterSideChain);
   (gs "updateSideChain", UpdateSideChain); (gs "approveUpdateSideChain", ApproveUpdateSideChain);
   (gs "quitSideChain", QuitSideChain); (gs "approveQuitSideChain", ApproveQuitSideChain);
   (gs "registerAsset", RegisterAsset); (gs "updateFee", UpdateFee);
   (gs "registerRedeem", RegisterRedeem); (gs "setBtcTxParam", SetBtcTxParam)].

End side_chain.
