(* ===== verification/SideGov.v ===== *)
(** * The register of side chains

    The methods of the side chain manager as steps of an abstract register:
    requests of the owners, and changes that a quorum of the consensus peers has
    approved. *)

From S2P Require Import Prelude Sha256 Sink Source Serialization BytesOrder MemDB OverlayDB CacheDB Contract MerkleSpec MerkleHasher Native ExCrypto Codec NodeStates NodeManager NodeInv NodeGov CrossCommon ConsensusVote Approval SideStates SideChain.

Lemma yields_RegisterSideChainParam : yields RegisterSideChainParam_Deserialization ser_wf.
Proof.
  unfold RegisterSideChainParam_Deserialization.
  eapply yields_bind; [apply yields_safe; auto with safe|intros addr _].
  eapply yields_bind; [apply yields_varuint|intros c Hc]. eapply yields_bind; [apply yields_varuint|intros r Hrt].
  eapply yields_bind; [apply yields_safe; auto with safe|intros nm _]. eapply yields_bind; [apply yields_varuint|intros b Hb].
  eapply yields_bind; [apply yields_guard|intros [] Hz]. eapply yields_bind; [apply yields_safe; auto with safe|intros cc _].
  eapply yields_bind; [apply yields_safe; auto with safe|intros [ex ?] _]. apply yields_ret.
  apply negb_true_iff, bool_decide_eq_false in Hz. by split_and!.
Qed.

Lemma yields_ChainidParam : yields ChainidParam_Deserialization ser_wf.
Proof.
  unfold ChainidParam_Deserialization. eapply yields_bind; [apply yields_varuint|intros c Hc].
  eapply yields_bind; [apply yields_safe; auto with safe|intros addr _]. by apply yields_ret.
Qed.

(** ** Keys *)

(** The key of a chain in one of the contract's tables. *)
Definition fkey (f : bytes) (c : Z) : bytes := sm_key [f; GetUint64Bytes c].

Lemma fkey_inj f1 f2 c d : is_u64 c → is_u64 d → fkey f1 c = fkey f2 d → f1 = f2 ∧ c = d.
Proof.
  intros Hc Hd E. unfold fkey, sm_key in E. rewrite !ConcatKey2 in E. apply app_inv_head in E.
  apply app_inj_2 in E as [-> E]; [|unfold GetUint64Bytes; by rewrite !length_le_put]. by apply le_put_inj in E.
Qed.

Definition side_fams : list bytes := [SIDE_CHAIN; SIDE_CHAIN_APPLY; UPDATE_SIDE_CHAIN_REQUEST].

(** The keys that hold the register. *)
Definition side_key (k : bytes) : Prop := ∃ f c, f ∈ QUIT_SIDE_CHAIN_REQUEST :: side_fams ∧ is_u64 c ∧ k = fkey f c.

Ltac fam_cases H :=
  repeat (apply elem_of_cons in H as [->|H]); try (by apply not_elem_of_nil in H).

Lemma side_key_contract a x : a ≠ SideChainManagerContractAddress → ¬ side_key (ConcatKey a x).
Proof. intros Ha (f & c & _ & _ & E). exact (Ha (ConcatKey_contract _ _ _ _ E)). Qed.

Lemma signs_not_side h : ¬ side_key (signs_key h).
Proof. apply side_key_contract. intros E%(f_equal to_slice). by vm_compute in E. Qed.
Lemma vote_not_side id : ¬ side_key (vote_key id).
Proof. apply side_key_contract. intros E%(f_equal to_slice). by vm_compute in E. Qed.

(** A table of the contract with another prefix. *)
Lemma other_not_side f rest :
  Forall (λ g : bytes, ∀ x y : bytes, f ++ x ≠ g ++ y) (QUIT_SIDE_CHAIN_REQUEST :: side_fams) → ¬ side_key (sm_key (f :: rest)).
Proof.
  intros Hf (g & c & Hg & _ & E). rewrite Forall_forall in Hf. specialize (Hf g Hg). unfold fkey, sm_key in E.
  unfold ConcatKey in E. apply app_inv_head in E. exact (Hf _ _ E).
Qed.
Ltac not_side := apply other_not_side; repeat constructor; intros x y E; cbn in E; discriminate E.
Lemma redeemBind_not_side a b c : ¬ side_key (redeemBind_key a b c). Proof. not_side. Qed.
Lemma bindSign_not_side a : ¬ side_key (bindSign_key a). Proof. not_side. Qed.
Lemma btcTxParam_not_side a b : ¬ side_key (btcTxParam_key a b). Proof. not_side. Qed.
Lemma redeemScript_not_side a b : ¬ side_key (redeemScript_key a b). Proof. not_side. Qed.
Lemma assetBind_not_side a : ¬ side_key (assetBind_key a). Proof. not_side. Qed.
Lemma fee_not_side a : ¬ side_key (fee_key a). Proof. not_side. Qed.
Lemma feeInfo_not_side a b : ¬ side_key (feeInfo_key a b). Proof. not_side. Qed.

(** ** The abstract register *)

(** The chains of the tables ([SIDE_CHAIN]: registered, [SIDE_CHAIN_APPLY]: applied
    for, [UPDATE_SIDE_CHAIN_REQUEST]: changes asked for) and those that asked to quit. *)
Record sides := mkSides { table : gmap (bytes * Z) SideChain; quits : gset Z }.
Definition set_side (f : bytes) (c : Z) (x : SideChain) (S : sides) : sides := mkSides (<[(f, c) := x]> (table S)) (quits S).
Definition del_side (f : bytes) (c : Z) (S : sides) : sides := mkSides (delete (f, c) (table S)) (quits S).

Record side_rep (m : kvmap) (S : sides) : Prop := {
  sr_entry : ∀ f c, f ∈ side_fams → is_u64 c → entry m (fkey f c) (table S !! (f, c));
  sr_wf : ∀ f c x, table S !! (f, c) = Some x → ChainId x = c ∧ side_wf x;
  sr_quit : ∀ c, is_u64 c → kv_at m (quit_key c) ≠ [] ↔ c ∈ quits S;
}.

Section register.
Context `{Hasher} `{Crypto} `{Btc} (env : SideEnv).
Implicit Types (m : kvmap) (s : NativeService) (p : PeerPoolMap).

Inductive side_step m p s (S : sides) : sides → Prop :=
  | ss_keep : side_step m p s S S
  | ss_apply c x :
      CheckWitness (sc_Address x) s = true → ChainId x = c →
      table S !! (SIDE_CHAIN_APPLY, c) = None → table S !! (SIDE_CHAIN, c) = None →
      side_step m p s S (set_side SIDE_CHAIN_APPLY c x S)
  | ss_register c x :
      table S !! (SIDE_CHAIN_APPLY, c) = Some x → approved m p s APPROVE_REGISTER_SIDE_CHAIN c →
      side_step m p s S (del_side SIDE_CHAIN_APPLY c (set_side SIDE_CHAIN c (side_strip (writes_ExtraInfo env) x) S))
  | ss_ask_update c x old :
      CheckWitness (sc_Address x) s = true → ChainId x = c →
      table S !! (SIDE_CHAIN, c) = Some old → sc_Address old = sc_Address x →
      side_step m p s S (set_side UPDATE_SIDE_CHAIN_REQUEST c x S)
  | ss_update c x :
      table S !! (UPDATE_SIDE_CHAIN_REQUEST, c) = Some x → approved m p s APPROVE_UPDATE_SIDE_CHAIN c →
      side_step m p s S (del_side UPDATE_SIDE_CHAIN_REQUEST c (set_side SIDE_CHAIN c (side_strip (writes_ExtraInfo env) x) S))
  | ss_ask_quit c old :
      table S !! (SIDE_CHAIN, c) = Some old → CheckWitness (sc_Address old) s = true →
      side_step m p s S (mkSides (table S) ({[c]} ∪ quits S))
  | ss_quit c :
      c ∈ quits S → approved m p s QUIT_SIDE_CHAIN c →
      side_step m p s S (del_side SIDE_CHAIN c S).


(** ** Reading and writing the tables *)

Lemma run_get_opt_inv e1 e2 e3 k m s (x : option SideChain) st :
  run (get_opt e1 e2 e3 k) (m, s) = (Ok x, st) → st = (m, s) ∧ entry m k x.
Proof.
  intros Hr. unfold get_opt in Hr. destruct st. crun Hr. case_decide as Hk; crun Hr; [done|].
  unfold load_with in Hr0. crun Hr0. unfold cdeserialize in *. crun Hr0. split; [done|]. split; [done|]. eauto.
Qed.

Lemma side_rep_agree m m' S : (∀ k, side_key k → m' !! k = m !! k) → side_rep m S → side_rep m' S.
Proof.
  intros Hk [He Hw Hq]. split; [|done|].
  - intros f c Hf Hc. eapply entry_agree; [apply Hk; exists f, c; split_and!; [by right|done..]|by apply He].
  - intros c Hc. rewrite <- (Hq c Hc). unfold kv_at. rewrite Hk; [done|]. exists QUIT_SIDE_CHAIN_REQUEST, c.
    split_and!; [by left|done..].
Qed.
Lemma side_rep_insert m k v S : ¬ side_key k → side_rep m S → side_rep (<[k := v]> m) S.
Proof. intros Hk. apply side_rep_agree. intros k' Hk'. rewrite lookup_insert_ne; [done|]. by intros <-. Qed.
Lemma side_rep_delete m k S : ¬ side_key k → side_rep m S → side_rep (delete k m) S.
Proof. intros Hk. apply side_rep_agree. intros k' Hk'. rewrite lookup_delete_ne; [done|]. by intros <-. Qed.

Lemma fam_not_quit f : f ∈ side_fams → f ≠ QUIT_SIDE_CHAIN_REQUEST.
Proof. intros Hf. unfold side_fams in Hf. fam_cases Hf; by vm_compute. Qed.

Lemma side_wf_strip extra x : side_wf x → side_wf (side_strip extra x).
Proof. by destruct extra. Qed.
Lemma ChainId_strip extra x : ChainId (side_strip extra x) = ChainId x.
Proof. by destruct extra. Qed.

(** [put_side] records a chain, without [ExtraInfo] below the height. *)
Lemma side_rep_put m f x S :
  let m' := <[fkey f (ChainId x) := GenRawStorageItem (enc_ops (SideChain_Serialization (writes_ExtraInfo env) x))]> m in
  side_rep m S → f ∈ side_fams → side_wf x → blen (enc_ops (SideChain_Serialization (writes_ExtraInfo env) x)) < 2 ^ 63 →
  side_rep m' (set_side f (ChainId x) (side_strip (writes_ExtraInfo env) x) S).
Proof.
  intros m' [He Hw Hq] Hf Hx Hfit. split; cbn [table quits set_side].
  - intros g c Hg Hc. destruct (decide ((f, ChainId x) = (g, c))) as [[= <- <-]|Hne].
    + rewrite lookup_insert_eq. eapply GenRaw_entry; [apply lookup_insert_eq|done|]. by apply side_chain_read.
    + rewrite lookup_insert_ne by done. eapply entry_agree; [|by apply He]. apply lookup_insert_ne.
      intros E. apply fkey_inj in E as [-> E]; [congruence|apply Hx|done].
  - intros g c y Hy. destruct (decide ((f, ChainId x) = (g, c))) as [[= <- <-]|Hne].
    + rewrite lookup_insert_eq in Hy. injection Hy as <-. split; [apply ChainId_strip|by apply side_wf_strip].
    + rewrite lookup_insert_ne in Hy by done. by eapply Hw.
  - intros c Hc. rewrite <- (Hq c Hc). unfold kv_at, m'. rewrite lookup_insert_ne; [done|].
    intros E. apply (fkey_inj f QUIT_SIDE_CHAIN_REQUEST) in E as [E _]; [|apply Hx|done]. by apply fam_not_quit in E.
Qed.

Lemma side_rep_remove m f c S :
  side_rep m S → f ∈ side_fams → is_u64 c → side_rep (delete (fkey f c) m) (del_side f c S).
Proof.
  intros [He Hw Hq] Hf Hc. split; cbn [table quits del_side].
  - intros g d Hg Hd. destruct (decide ((f, c) = (g, d))) as [[= <- <-]|Hne].
    + rewrite lookup_delete_eq. unfold entry_by, kv_at. by rewrite lookup_delete_eq.
    + rewrite lookup_delete_ne by done. eapply entry_agree; [|by apply He]. apply lookup_delete_ne.
      intros E. apply fkey_inj in E as [-> ->]; done.
  - intros g d y [_ Hy]%lookup_delete_Some. by eapply Hw.
  - intros d Hd. rewrite <- (Hq d Hd). unfold kv_at. rewrite lookup_delete_ne; [done|].
    intros E. apply (fkey_inj f QUIT_SIDE_CHAIN_REQUEST) in E as [E _]; [|done..]. by apply fam_not_quit in E.
Qed.

Lemma side_rep_quit m c S :
  side_rep m S → is_u64 c →
  side_rep (<[quit_key c := GenRawStorageItem (GetUint64Bytes c)]> m) (mkSides (table S) ({[c]} ∪ quits S)).
Proof.
  intros [He Hw Hq] Hc. split; cbn [table quits]; [|done|].
  - intros f d Hf Hd. eapply entry_agree; [|by apply He]. apply lookup_insert_ne.
    intros E. apply (fkey_inj QUIT_SIDE_CHAIN_REQUEST f) in E as [E _]; [|done..]. symmetry in E. by apply fam_not_quit in E.
  - intros d Hd. rewrite elem_of_union, elem_of_singleton. unfold kv_at.
    destruct (decide (d = c)) as [->|Hne].
    + rewrite lookup_insert_eq. split; [by left|]. intros _. apply GenRawStorageItem_nonempty.
    + rewrite lookup_insert_ne; [rewrite <- (Hq d Hd); naive_solver|].
      intros E. apply (fkey_inj QUIT_SIDE_CHAIN_REQUEST QUIT_SIDE_CHAIN_REQUEST) in E as [_ E]; congruence.
Qed.


(** ** Approval *)

Lemma CheckConsensusSigns_inv (method : bytes) c (a : Address) m p s b m' s' :
  pool_at m p → CheckWitness a s = true →
  run (CheckConsensusSigns method (GetUint64Bytes c) a) (m, s) = (Ok b, (m', s')) →
  (b = true → approved m p s method c) ∧ (∀ S, side_rep m S → side_rep m' S).
Proof.
  intros Hp Ha Hr. apply (CheckConsensusSigns_approved _ _ _ _ p) in Hr as [Happ (h & Hm)]; [|done..].
  split; [done|]. intros S HS. destruct Hm as [->|[v ->]].
  - apply side_rep_delete; [apply signs_not_side|done].
  - apply side_rep_insert; [apply signs_not_side|done].
Qed.

(** ** The methods *)

(** The table entry a getter returned. *)
Lemma get_side_table e1 e2 e3 f c m s S (x : option SideChain) st :
  side_rep m S → f ∈ side_fams → is_u64 c →
  run (get_opt e1 e2 e3 (fkey f c)) (m, s) = (Ok x, st) → st = (m, s) ∧ table S !! (f, c) = x.
Proof.
  intros HS Hf Hc [-> He]%run_get_opt_inv. split; [done|]. eapply entry_det; [by apply (sr_entry _ _ HS)|done].
Qed.

Lemma ro_get_opt {A} `{Serializable A} e1 e2 e3 k : read_only (get_opt e1 e2 e3 k : contract NativeService (option A)).
Proof. unfold get_opt. solve_ro. Qed.
Lemma ro_get_or {A} `{Serializable A} (d : A) e1 e2 e3 k : read_only (get_or d e1 e2 e3 k).
Proof. unfold get_or. solve_ro. Qed.
#[local] Hint Resolve ro_get_opt ro_get_or : ro.

Lemma param_side_wf (x : RegisterSideChainParam) : ser_wf x → side_wf (param_side x).
Proof. intros (?&?&?&?). by split_and!. Qed.


(** A successful call is a step of the register. *)
Definition side_method (h : Handler) : Prop := ∀ m p s S r m' s',
  side_rep m S → pool_at m p → blen (ns_input s) < 2 ^ 63 → fits m' → run h (m, s) = (Ok r, (m', s')) →
  ∃ S', side_step m p s S S' ∧ side_rep m' S'.

Ltac side_start :=
  intros m p s S r m' s' HS Hpool Hin Hfit Hr;
  lazymatch type of Hr with run ?h _ = _ => let h := get_head h in unfold h in Hr end;
  unfold getSideChainApply, GetSideChain, getUpdateSideChain, getQuitSideChain, putSideChainApply, PutSideChain, putUpdateSideChain,
    putQuitSideChain, put_side, notify_side in Hr; crun Hr.

Ltac table_at f HS E Hc :=
  apply (get_side_table _ _ _ f _ _ _ _ _ _ HS) in E as [_ E]; [|by repeat constructor|exact Hc].

Lemma RegisterSideChain_side : side_method (RegisterSideChain env).
Proof.
  side_start. apply (input_param ser_wf) in Hr0; [|apply yields_RegisterSideChainParam|done].
  pose proof (param_side_wf _ Hr0) as Hwf. assert (is_u64 (rs_ChainId x)) as Hc by apply Hr0.
  table_at SIDE_CHAIN_APPLY HS Hr1 Hc. table_at SIDE_CHAIN HS Hr2 Hc.
  apply bool_decide_eq_true in Hg0 as ->. apply bool_decide_eq_true in Hg1 as ->.
  eexists. split; [|by apply (side_rep_put _ SIDE_CHAIN_APPLY); [|repeat constructor|done|eapply fits_raw; [|apply lookup_insert_eq]]].
  apply ss_apply; [|by rewrite ChainId_strip|done..]. by destruct (writes_ExtraInfo env).
Qed.

Lemma UpdateSideChain_side : side_method (UpdateSideChain env).
Proof.
  side_start. apply (input_param ser_wf) in Hr0; [|apply yields_RegisterSideChainParam|done].
  pose proof (param_side_wf _ Hr0) as Hwf. assert (is_u64 (rs_ChainId x)) as Hc by apply Hr0.
  table_at SIDE_CHAIN HS Hr1 Hc. destruct x1 as [old|]; [|done]. crun Hr.
  apply bool_decide_eq_true in Hg0.
  eexists. split; [|by apply (side_rep_put _ UPDATE_SIDE_CHAIN_REQUEST); [|repeat constructor|done|eapply fits_raw; [|apply lookup_insert_eq]]].
  apply (ss_ask_update _ _ _ _ _ _ old); [|by rewrite ChainId_strip|done|]; by destruct (writes_ExtraInfo env).
Qed.

Lemma QuitSideChain_side : side_method QuitSideChain.
Proof.
  side_start. apply (input_param ser_wf) in Hr0; [|apply yields_ChainidParam|done].
  table_at SIDE_CHAIN HS Hr1 Hr0. destruct x1 as [old|]; [|done]. crun Hr. apply bool_decide_eq_true in Hg0 as E.
  eexists. split; [|by apply side_rep_quit]. apply (ss_ask_quit _ _ _ _ _ old); [done|by rewrite E].
Qed.

(** An approved table entry becomes the registered chain. *)
Lemma side_rep_approve m f c x S :
  let m' := <[sideChain_key (ChainId x) := GenRawStorageItem (enc_ops (SideChain_Serialization (writes_ExtraInfo env) x))]> m in
  side_rep m S → table S !! (f, c) = Some x → f ∈ side_fams → fits (delete (fkey f c) m') → f ≠ SIDE_CHAIN →
  side_rep (delete (fkey f c) m') (del_side f c (set_side SIDE_CHAIN c (side_strip (writes_ExtraInfo env) x) S)).
Proof.
  intros m' HS Hx Hf Hfit Hne. destruct (sr_wf _ _ HS _ _ _ Hx) as [<- Hwf].
  apply side_rep_remove; [|done|apply Hwf]. apply side_rep_put; [done|by repeat constructor|done|].
  eapply fits_raw; [done|]. rewrite lookup_delete_ne; [apply lookup_insert_eq|].
  intros E. apply fkey_inj in E as [E _]; [done|apply Hwf..].
Qed.

Lemma ApproveRegisterSideChain_side : side_method (ApproveRegisterSideChain env).
Proof.
  side_start. apply (input_param ser_wf) in Hr0; [|apply yields_ChainidParam|done].
  table_at SIDE_CHAIN_APPLY HS Hr1 Hr0. destruct x1 as [y|]; [|done]. crun Hr.
  eapply CheckConsensusSigns_inv in Hr2 as [Happ Hrep]; [|done..].
  destruct x1; cbn [negb] in Hr; crun Hr; [|by exists S; split; [apply ss_keep|auto]].
  eexists. split; [by eapply ss_register; [done|auto]|].
  by apply (side_rep_approve _ SIDE_CHAIN_APPLY); [auto|done|by repeat constructor|done|by vm_compute].
Qed.

Lemma ApproveUpdateSideChain_side : side_method (ApproveUpdateSideChain env).
Proof.
  side_start. apply (input_param ser_wf) in Hr0; [|apply yields_ChainidParam|done].
  table_at UPDATE_SIDE_CHAIN_REQUEST HS Hr1 Hr0. destruct x1 as [y|]; [|done]. crun Hr.
  eapply CheckConsensusSigns_inv in Hr2 as [Happ Hrep]; [|done..].
  destruct x1; cbn [negb] in Hr; crun Hr; [|by exists S; split; [apply ss_keep|auto]].
  eexists. split; [by eapply ss_update; [done|auto]|].
  by apply (side_rep_approve _ UPDATE_SIDE_CHAIN_REQUEST); [auto|done|by repeat constructor|done|by vm_compute].
Qed.

Lemma ApproveQuitSideChain_side : side_method ApproveQuitSideChain.
Proof.
  side_start. apply (input_param ser_wf) in Hr0; [|apply yields_ChainidParam|done].
  apply bool_decide_eq_true in Hg0. eapply CheckConsensusSigns_inv in Hr1 as [Happ Hrep]; [|done..].
  destruct x2; cbn [negb] in Hr; crun Hr; [|by exists S; split; [apply ss_keep|auto]].
  exists (del_side SIDE_CHAIN (Chainid x) S). split.
  - apply ss_quit; [by apply (sr_quit _ _ HS)|auto].
  - apply (side_rep_remove _ SIDE_CHAIN); [|by repeat constructor|done]. apply side_rep_delete; [|auto].
    intros (f & c & Hf & Hc & E). apply (fkey_inj QUIT_SIDE_CHAIN) in E as [E _]; [|done..].
    fam_cases Hf; by vm_compute in E.
Qed.

(** The approved removal leaves the request in place, so that it can be approved
    again when the chain has been registered anew. *)
Lemma CheckConsensusSigns_keeps (P : kvmap → Prop) (method input : bytes) (a : Address) :
  (∀ m h v, P m → P (<[signs_key h := v]> m)) → (∀ m h, P m → P (delete (signs_key h) m)) →
  keeps P (CheckConsensusSigns method input a).
Proof.
  intros Hi Hd. unfold CheckConsensusSigns, notify_nm, AddNotify, cmodify, deleteConsensusSigns, putConsensusSigns, store_item.
  solve_keeps.
Qed.

Lemma quit_request_kept c : is_u64 c → keeps (λ m, kv_at m (quit_key c) ≠ []) ApproveQuitSideChain.
Proof.
  intros Hc. assert (∀ m k v, k ≠ quit_key c → kv_at m (quit_key c) ≠ [] → kv_at (<[k := v]> m) (quit_key c) ≠ []) as Hput.
  { intros m k v Hk. unfold kv_at. by rewrite lookup_insert_ne. }
  assert (∀ m k, k ≠ quit_key c → kv_at m (quit_key c) ≠ [] → kv_at (delete k m) (quit_key c) ≠ []) as Hdel.
  { intros m k Hk. unfold kv_at. by rewrite lookup_delete_ne. }
  assert (∀ h, signs_key h ≠ quit_key c) as Hs.
  { intros h E. apply (signs_not_side h). exists QUIT_SIDE_CHAIN_REQUEST, c. split_and!; [by left|done..]. }
  unfold ApproveQuitSideChain, input_as, ValidateOwner, getQuitSideChain, notify_nm, AddNotify, cmodify.
  apply keeps_bind; [solve_keeps|intros params]. apply keeps_bind; [solve_keeps|intros _].
  apply keeps_bind; [solve_keeps|intros _]. apply keeps_bind; [|intros ok].
  { apply keeps_wrap, CheckConsensusSigns_keeps; auto. }
  destruct (negb ok); [solve_keeps|]. apply keeps_bind; [|intros _]; [|apply keeps_bind; [|intros _; solve_keeps]].
  all: apply keeps_del; intros m; apply Hdel; intros E; unfold sideChain_key, quit_key, sm_key in E.
  all: rewrite !ConcatKey2 in E; apply app_inv_head in E; apply app_inj_2 in E as [E _]; [|unfold GetUint64Bytes; by rewrite !length_le_put].
  all: by vm_compute in E.
Qed.

(** The other methods do not touch the register. *)

Lemma GetSideChain_ro (e : string) (c : Z) : read_only (E := NativeService) (cwrap e (GetSideChain c)).
Proof. unfold GetSideChain. solve_ro. Qed.
Lemma ro_GetRippleExtraInfo c : read_only (GetRippleExtraInfo c).
Proof. unfold GetRippleExtraInfo, GetSideChain. solve_ro. Qed.
#[local] Hint Resolve ro_GetRippleExtraInfo ro_getVoteInfo ro_find_peer ro_count_vote : ro.
#[local] Hint Resolve side_rep_insert redeemBind_not_side bindSign_not_side btcTxParam_not_side redeemScript_not_side
  assetBind_not_side fee_not_side feeInfo_not_side vote_not_side : keeps.

Lemma keeps_CheckVotes S id (a : Address) : keeps (λ m, side_rep m S) (CheckVotes id a).
Proof. unfold CheckVotes, putVoteInfo, store_item. solve_keeps. Qed.
#[local] Hint Resolve keeps_CheckVotes : keeps.

Lemma keeps_side_method h : (∀ S, keeps (λ m, side_rep m S) h) → side_method h.
Proof. intros Hh m p s S r m' s' HS _ _ _ Hr. exists S. split; [apply ss_keep|]. by eapply (keeps_run (λ m, side_rep m S)). Qed.

Ltac side_keeps :=
  apply keeps_side_method; intros S;
  unfold input_as, GetAssetBind, PutAssetBind, GetContractBind, putContractBind, putBindSignInfo, getBindSignInfo, putBtcTxParam,
    GetBtcTxParam, putBtcRedeemScript, PutFee, GetFee, PutFeeInfo, GetFeeInfo, store_item, notify_sm, AddNotify, cmodify, ValidateOwner.

Lemma RegisterAsset_side : side_method RegisterAsset.
Proof. unfold RegisterAsset. side_keeps. solve_keeps. Qed.
Lemma RegisterRedeem_side : side_method RegisterRedeem.
Proof. unfold RegisterRedeem. side_keeps. solve_keeps. Qed.
Lemma SetBtcTxParam_side : side_method SetBtcTxParam.
Proof. unfold SetBtcTxParam. side_keeps. solve_keeps. Qed.
Lemma UpdateFee_side : side_method UpdateFee.
Proof. unfold UpdateFee. side_keeps. solve_keeps. Qed.

(** C26 (the register of side chains).  Every method of the side chain manager that
    succeeds is a step of the abstract register: a chain can be applied for while
    it is neither applied for nor registered, its owner can ask for a change or to
    quit, and a registered chain appears, changes or disappears only when the
    signatures recorded for that action and that chain, with the caller's, are two
    thirds of the consensus peers of the current view. *)
Theorem side_chain_refines (name : bytes) (h : Handler) m p s (S : sides) r m' s' :
  (name, h) ∈ RegisterSideChainManagerContract env → side_rep m S → pool_at m p → blen (ns_input s) < 2 ^ 63 → fits m' →
  run h (m, s) = (Ok r, (m', s')) → ∃ S', side_step m p s S S' ∧ side_rep m' S'.
Proof.
  intros Hin. enough (side_method h) as Hh by apply Hh. unfold RegisterSideChainManagerContract in Hin.
  repeat (apply elem_of_cons in Hin as [E|Hin]; [injection E as _ ->|]); [..|by apply not_elem_of_nil in Hin].
  - apply RegisterSideChain_side.
  - apply ApproveRegisterSideChain_side.
  - apply UpdateSideChain_side.
  - apply ApproveUpdateSideChain_side.
  - apply QuitSideChain_side.
  - apply ApproveQuitSideChain_side.
  - apply RegisterAsset_side.
  - apply UpdateFee_side.
  - apply RegisterRedeem_side.
  - apply SetBtcTxParam_side.
Qed.

End register.

(** Four of the five peers sign the registration of chain 9; the fourth call
    registers it. *)
#[export] Instance ex_btc : Btc := {|
  ScriptClass := bool;
  is_MultiSigTy c := c;
  class_String c := if c then "multisig" else "nonstandard";
  BtcAddress := bytes;
  EncodeAddress a := a;
  ExtractPkScriptAddrs b := Ok (true, [b], 1);
  GetScriptClass _ := true;
  Hash160 b := take 20 b;
  BtcSignature := bytes;
  ParseDERSignature b := Ok b;
  sig_Verify sg _ a := bool_decide (sg = a);
|}.

Definition ex_env : SideEnv := mkSideEnv (mkConfig 3 true) false 0.
Definition ex_side : SideChain := mkSideChain (ex_addr 7) 9 2 (gs "side") 1 (gs "ccmc") [].
Definition ex_side_hash : Uint256 := Sum256 (APPROVE_REGISTER_SIDE_CHAIN ++ GetUint64Bytes 9).
Definition ex_side_signs : ConsensusSigns := list_to_map ((λ i, (ex_addr i, true)) <$> [1; 2; 3]).
Definition ex_side_store : kvmap :=
  <[signs_key ex_side_hash := GenRawStorageItem (sink_bytes ex_side_signs)]>
  (<[apply_key 9 := GenRawStorageItem (enc_ops (SideChain_Serialization true ex_side))]> ex_gov).
Definition ex_sides : sides := mkSides {[(SIDE_CHAIN_APPLY, 9) := ex_side]} ∅.
Definition ex_side_call : NativeService := ex_service 4 7 (sink_bytes (mkChainidParam 9 (ex_addr 4))).

Lemma side_rep_empty : side_rep ∅ (mkSides ∅ ∅).
Proof. split; [done|done|]. intros c _. unfold kv_at. rewrite lookup_empty. cbn. set_solver. Qed.

Lemma ex_side_rep : side_rep ex_side_store ex_sides.
Proof.
  apply side_rep_insert; [apply signs_not_side|].
  assert (ex_sides = set_side SIDE_CHAIN_APPLY 9 ex_side (mkSides ∅ ∅)) as -> by done.
  apply (side_rep_put ex_env ex_gov SIDE_CHAIN_APPLY ex_side); [|by repeat constructor|done|by vm_compute].
  unfold ex_gov. repeat (apply side_rep_insert; [apply side_key_contract; intros E%(f_equal to_slice); by vm_compute in E|]).
  apply side_rep_empty.
Qed.

Lemma side_chain_refines_witness :
  ∃ m' s', run (ApproveRegisterSideChain ex_env) (ex_side_store, ex_side_call) = (Ok BYTE_TRUE, (m', s')) ∧
    ∃ S', side_step ex_env ex_side_store ex_pool ex_side_call ex_sides S' ∧ side_rep m' S'.
Proof.
  destruct (run (ApproveRegisterSideChain ex_env) (ex_side_store, ex_side_call)) as [r [m' s']] eqn:E.
  assert (r = Ok BYTE_TRUE) as -> by (by run_compute E).
  assert (map_Forall (λ _ v, blen v < 2 ^ 63) m') as Hf by (by run_compute E).
  exists m', s'. split; [reflexivity|].
  apply (side_chain_refines ex_env (gs "approveRegisterSideChain") (ApproveRegisterSideChain ex_env)
           ex_side_store ex_pool ex_side_call ex_sides BYTE_TRUE m' s').
  - by apply (list_elem_of_lookup_2 _ 1).
  - exact ex_side_rep.
  - exists ex_view. split; (apply stored_insert; [by vm_compute|]; apply stored_insert; [by vm_compute|]);
      [exact ex_gov_view|exact ex_gov_pool].
  - by vm_compute.
  - exact Hf.
  - exact E.
Defined.
