(* ===== verification/SideFee.v ===== *)
(** * The fee of a side chain, and Bitcoin parameters

    Consensus peers report fees; when two thirds of them have, the chain's fee
    becomes five times the median.  A minority cannot move it out of the range of
    the majority. *)

From S2P Require Import Prelude Sha256 Sink Source Serialization BytesOrder MemDB OverlayDB CacheDB Contract MerkleSpec MerkleHasher Native ExCrypto Codec NodeStates NodeManager NodeInv NodeGov CrossCommon ConsensusVote SideStates SideChain Approval SideGov.

(** ** The median *)

(** More than half of the reported values lie in the range. *)
Definition in_range_of (lo hi x : Z) : Prop := lo ≤ x ≤ hi.
#[export] Instance in_range_of_dec lo hi x : Decision (in_range_of lo hi x).
Proof. unfold in_range_of. apply _. Defined.
Definition majority_in (lo hi : Z) (l : list Z) : Prop := blen l < 2 * blen (filter (in_range_of lo hi) l).

Section median.
Context (l : list Z) (Hs : desc Z.lt (λ x : Z, x) l) (lo hi : Z) (Hmaj : majority_in lo hi l).

Lemma desc_le i j (x y : Z) : l !! i = Some x → l !! j = Some y → (i ≤ j)%nat → y ≤ x.
Proof using Hs.
  intros Hi Hj Hij. destruct (decide (i = j)) as [->|Hne]; [simplify_eq; lia|].
  unfold desc in Hs. rewrite <- (take_drop j l) in Hs.
  pose proof (StronglySorted_app_1_elem_of _ _ _ x y Hs) as Hxy. cbn in Hxy.
  assert (¬ x < y); [|lia]. apply Hxy; apply list_elem_of_lookup.
  - exists i. apply lookup_take_Some. split; [done|lia].
  - exists 0%nat. by rewrite lookup_drop, Nat.add_0_r.
Qed.

(** The values outside the range that come before or after a position. *)
Lemma filter_split n : blen (filter (in_range_of lo hi) l) =
  blen (filter (in_range_of lo hi) (take n l)) + blen (filter (in_range_of lo hi) (drop n l)).
Proof. rewrite <- (take_drop n l) at 1. rewrite filter_app, length_app. lia. Qed.

Lemma filter_none (k : list Z) : Forall (λ x, ¬ in_range_of lo hi x) k → filter (in_range_of lo hi) k = [].
Proof. intros Hk. induction Hk as [|x k Hx Hk IH]; [done|]. by rewrite filter_cons_False. Qed.

Lemma middle_le j x : l !! j = Some x → blen l ≤ 2 * (Z.of_nat j + 1) → x ≤ hi.
Proof using Hs Hmaj.
  intros Hj Hlen. destruct (decide (x ≤ hi)) as [|Hx]; [done|]. exfalso. unfold majority_in in Hmaj.
  rewrite (filter_split (S j)), filter_none in Hmaj.
  - pose proof (length_filter (in_range_of lo hi) (drop (S j) l)) as Hd. rewrite length_drop in Hd.
    apply lookup_lt_Some in Hj. cbn [length] in Hmaj. lia.
  - apply Forall_lookup. intros i y [Hy Hi]%lookup_take_Some. pose proof (desc_le i j y x Hy Hj). unfold in_range_of. lia.
Qed.

Lemma middle_ge j x : l !! j = Some x → blen l ≤ 2 * (blen l - Z.of_nat j) → lo ≤ x.
Proof using Hs Hmaj.
  intros Hj Hlen. destruct (decide (lo ≤ x)) as [|Hx]; [done|]. exfalso. unfold majority_in in Hmaj.
  rewrite (filter_split j), (filter_none (drop j l)) in Hmaj.
  - pose proof (length_filter (in_range_of lo hi) (take j l)) as Hd. rewrite length_take in Hd.
    apply lookup_lt_Some in Hj. cbn [length] in Hmaj. lia.
  - apply Forall_lookup. intros i y Hy. rewrite lookup_drop in Hy. pose proof (desc_le j (j + i) x y Hj Hy). unfold in_range_of. lia.
Qed.

Lemma settle_fee_bounds x : settle_fee l = Some x → 5 * lo ≤ x ≤ 5 * hi.
Proof using Hs Hmaj.
  unfold settle_fee. case_decide as Hev.
  - destruct (l !! Z.to_nat (blen l ÷ 2)) as [a|] eqn:Ha; [|done]. cbn [mbind option_bind]. case_decide as Hpos; [done|].
    destruct (l !! Z.to_nat (blen l ÷ 2 - 1)) as [b|] eqn:Hb; [|done]. intros [= <-].
    assert (lo ≤ a ≤ hi) by (split; [eapply middle_ge; [exact Ha|]|eapply middle_le; [exact Ha|]]; Z.to_euclidean_division_equations; lia).
    assert (lo ≤ b ≤ hi) by (split; [eapply middle_ge; [exact Hb|]|eapply middle_le; [exact Hb|]]; Z.to_euclidean_division_equations; lia).
    Z.to_euclidean_division_equations. lia.
  - destruct (l !! _) as [a|] eqn:Ha; [|done]. intros [= <-].
    assert (lo ≤ a ≤ hi) by (split; [eapply middle_ge; [exact Ha|]|eapply middle_le; [exact Ha|]]; Z.to_euclidean_division_equations; lia).
    lia.
Qed.

End median.

Lemma settle_fee_some (l : list Z) : l ≠ [] → is_Some (settle_fee l).
Proof.
  intros Hl. unfold settle_fee. assert (0 < blen l) by (destruct l; [done|cbn; lia]).
  assert (∀ i, 0 ≤ i < blen l → is_Some (l !! Z.to_nat i)) as Hi by (intros i ?; apply lookup_lt_is_Some; lia).
  case_decide as Hev.
  - destruct (Hi (blen l ÷ 2)) as [a ->]; [Z.to_euclidean_division_equations; lia|]. cbn [mbind option_bind].
    rewrite decide_False by (Z.to_euclidean_division_equations; lia).
    destruct (Hi (blen l ÷ 2 - 1)) as [b ->]; [Z.to_euclidean_division_equations; lia|]. done.
  - destruct (Hi ((blen l - 1) ÷ 2)) as [a ->]; [Z.to_euclidean_division_equations; lia|]. done.
Qed.

Lemma majority_in_perm lo hi (l k : list Z) : l ≡ₚ k → majority_in lo hi l → majority_in lo hi k.
Proof. intros Hp. unfold majority_in. by rewrite Hp. Qed.

(** ** The method *)

Definition fee_bytes (f : Fee) : bytes := GenRawStorageItem (sink_bytes f).
Definition fee_vote (c v : Z) : bytes := UPDATE_FEE ++ GetUint64Bytes c ++ GetUint64Bytes v.

Section fee.
Context `{Hasher} `{Crypto} `{Btc}.
Implicit Types (m : kvmap) (s : NativeService) (p : PeerPoolMap).

(** The fee [x] of the chain [c] is settled in the view [v]: [a] is a consensus
    peer, two thirds of the peers have voted, and [x] is within five times any
    range that holds more than half of the reported fees. *)
Definition fee_settled m p (c v : Z) (a : Address) (x : Z) : Prop :=
  is_peer p a ∧
  (∃ votes, vote_quorum p votes ∧ m !! vote_key (fee_vote c v) = Some (GenRawStorageItem (sink_bytes (mkVoteInfo true votes)))) ∧
  ∃ t fees, m !! feeInfo_key c v = Some (GenRawStorageItem (sink_bytes (mkFeeInfo t fees))) ∧
    ∀ lo hi, majority_in lo hi (map_to_list fees).*2 → 5 * lo ≤ x ≤ 5 * hi.

Lemma votes_at_side m (args : list bytes) b id (v : VoteInfo) :
  votes_at m id v → votes_at (<[sm_key args := b]> m) id v.
Proof.
  assert (vote_key id ≠ sm_key args) as Hk.
  { intros E. apply ConcatKey_contract in E. apply (f_equal to_slice) in E. by vm_compute in E. }
  unfold votes_at, stored, kv_at. by rewrite lookup_insert_ne.
Qed.

Lemma stored_side {A} `{Serializable A} m (args nm : list bytes) b (a : A) :
  stored m (nm_key nm) a → stored (<[sm_key args := b]> m) (nm_key nm) a.
Proof.
  apply stored_insert. intros E. apply ConcatKey_contract in E. apply (f_equal to_slice) in E. by vm_compute in E.
Qed.

Lemma feeInfo_ne_fee c v d : feeInfo_key c v ≠ fee_key d.
Proof.
  intros E. unfold feeInfo_key, fee_key, sm_key, ConcatKey in E. apply app_inv_head, (f_equal length) in E.
  unfold GetUint64Bytes in E. cbn [mjoin list_join] in E. rewrite !length_app, !length_le_put in E. by vm_compute in E.
Qed.
Lemma vote_ne_sm id args : vote_key id ≠ sm_key args.
Proof. intros E. apply ConcatKey_contract in E. apply (f_equal to_slice) in E. by vm_compute in E. Qed.

(** The vote and what follows it. *)
Lemma UpdateFee_tail m (g : GovernanceView) p s c v (a : Address) t (fees : gmap Address Z) fee0 r m' s' :
  stored m (nm_key [GOVERNANCE_VIEW]) g → stored m (peerPool_key (View g)) p → (∀ id, ∃ vi, votes_at m id vi) →
  fees ≠ ∅ → m !! feeInfo_key c v = Some (GenRawStorageItem (sink_bytes (mkFeeInfo t fees))) →
  run (ok ← cwrap "UpdateFee, CheckConsensusSigns error: " (CheckVotes (fee_vote c v) a);
       if negb ok then mret BYTE_TRUE else
       match settle_fee (sort_desc Z.lt id (map_to_list fees).*2) with
       | None => CPanic
       | Some x => PutFee c (mkFee (u64 (v + 1)) x) ;; mret BYTE_TRUE
       end) (m, s) = (Ok r, (m', s')) →
  m !! fee_key c = fee0 →
  m' !! fee_key c = fee0 ∨ ∃ x, fee_settled m' p c v a x ∧ m' !! fee_key c = Some (fee_bytes (mkFee (u64 (v + 1)) x)).
Proof.
  intros Hg Hp Hv Hne Hi Hr Hf0. apply run_bind_inv in Hr as (ok & [m1 s1] & Hr1 & Hr). apply run_cwrap_ok in Hr1.
  destruct ok; cbn [negb] in Hr.
  - destruct (Hv (fee_vote c v)) as [vi Hvi]. eapply CheckVotes_inv in Hr1 as [-> Hr1]; [|done..].
    destruct (vi_Status vi); [by destruct Hr1|]. destruct Hr1 as (Hpeer & votes & _ & Hq & _ & Hm). specialize (Hm eq_refl).
    destruct (settle_fee _) as [x|] eqn:Hx; [|done]. unfold PutFee, store_item in Hr. crun Hr. right. exists x.
    split; [|apply lookup_insert_eq]. split; [done|]. split.
    + exists votes. split; [by apply Hq|]. rewrite lookup_insert_ne by apply not_eq_sym, vote_ne_sm. apply lookup_insert_eq.
    + exists t, fees. split.
      * rewrite lookup_insert_ne by apply not_eq_sym, feeInfo_ne_fee. by rewrite lookup_insert_ne by apply vote_ne_sm.
      * intros lo hi Hmaj. eapply (settle_fee_bounds _ (sort_desc_sorted Z.lt id Z_tri _) lo hi); [|exact Hx]. eapply majority_in_perm; [|exact Hmaj].
        symmetry. apply sort_desc_perm.
  - apply run_ret_inv in Hr as [_ [= -> ->]]. apply CheckVotes_frame in Hr1 as [_ Hm]. left. rewrite Hm; [done|].
    apply not_eq_sym, vote_ne_sm.
Qed.

(** What a report does. *)
Definition fee_effect m p s m' : Prop :=
  ∃ (params : UpdateFeeParam) fee, let c := uf_ChainId params in
    deserialize (ns_input s) = Ok params ∧ CheckWitness (uf_Address params) s = true ∧
    run (GetFee c) (m, s) = (Ok fee, (m, s)) ∧ fee_View fee = uf_View params ∧
    (m' !! fee_key c = m !! fee_key c ∨
     m' !! fee_key c = Some (fee_bytes (mkFee (u64 (fee_View fee + 1)) (fee_Fee fee))) ∨
     ∃ v x, (v = fee_View fee ∨ v = u64 (fee_View fee + 1)) ∧ fee_settled m' p c v (uf_Address params) x ∧
       m' !! fee_key c = Some (fee_bytes (mkFee (u64 (v + 1)) x))).


End fee.

(** Three of five peers have reported; the report of the fourth settles the fee. *)
Definition ex_fees : FeeInfo := mkFeeInfo 900 (list_to_map [(ex_addr 1, 10); (ex_addr 2, 11); (ex_addr 3, 900)]).
Definition ex_fee_store : kvmap :=
  <[feeInfo_key 9 0 := GenRawStorageItem (sink_bytes ex_fees)]>
  (<[vote_key (fee_vote 9 0) := GenRawStorageItem (sink_bytes ex_votes)]> ex_gov).
Definition ex_fee_call : NativeService := ex_service 4 7 (sink_bytes (mkUpdateFeeParam (ex_addr 4) 9 0 12)).

Lemma ex_fee_votes id : ∃ vi, votes_at ex_fee_store id vi.
Proof.
  destruct (decide (vote_key id = vote_key (fee_vote 9 0))) as [E|E].
  - exists ex_votes. right. rewrite E. split_and!; [by vm_compute| |by vm_compute].
    change (is_u64 (Z.of_nat (size (vi_VoteInfo ex_votes)))). refine (bool_decide_unpack _ _). by vm_compute.
  - exists (mkVoteInfo false ∅). left. split; [|done]. unfold kv_at, ex_fee_store.
    rewrite lookup_insert_ne by apply not_eq_sym, vote_ne_sm. rewrite lookup_insert_ne by done. unfold ex_gov.
    rewrite !lookup_insert_ne, lookup_empty; [done| |];
      (intros E2; apply ConcatKey_contract in E2; apply (f_equal to_slice) in E2; by vm_compute in E2).
Qed.


(** ** Bitcoin parameters: how much the input may announce

    [BtcTxParam] allocates the number of signatures the input announces before it
    reads them.  A number beyond the address space panics the node; every other
    input is read or rejected with an error. *)

(** The start of a serialized parameter: script, chain and number of signatures. *)
Definition btc_head (redeem : bytes) (chain l : Z) : bytes :=
  enc_ops [OpVarBytes redeem; OpVarUint chain; OpVarUint l].

Lemma BtcTxParam_head redeem chain l rest :
  is_u64 chain → is_u64 l → blen (btc_head redeem chain l ++ rest) < 2 ^ 63 →
  BtcTxParam_Deserialization (NewZeroCopySource (btc_head redeem chain l ++ rest)) =
    (make_slices l ;;
     sigs ← loopM l (must "BtcFeeRateParam deserialize signature error" NextVarBytes);
     detial ← wrap_err "BtcFeeRateParam deserialize detail error: " BtcTxParamDetial_Deserialization;
     mret (mkBtcTxParam redeem chain sigs detial))
    (mkSource (btc_head redeem chain l ++ rest) (blen (btc_head redeem chain l))).
Proof.
  intros Hc Hl Hlen. unfold BtcTxParam_Deserialization.
  assert (decodes (x ← must "BtcFeeRateParam deserialize redeem error" NextVarBytes;
                   y ← must "BtcFeeRateParam deserialize redeem chain-id error" NextVarUint;
                   z ← must "BtcFeeRateParam deserialize length of signature array error" NextVarUint;
                   mret (x, y, z)) (btc_head redeem chain l) (redeem, chain, l)) as Hd.
  { unfold btc_head. solve_roundtrip. }
  specialize (Hd [] rest Hlen). cbn [app] in Hd. unfold mbind, M_bind in *. unfold NewZeroCopySource.
  change (blen ([] : bytes)) with 0 in Hd.
  destruct (must _ NextVarBytes _) as [[a| |] s1]; [|done..]. destruct (must _ NextVarUint s1) as [[b| |] s2]; [|done..].
  destruct (must _ NextVarUint s2) as [[d| |] s3]; [|done..]. unfold mret, M_ret in Hd. by simplify_eq.
Qed.

Section btc.
Context `{Hasher} `{Crypto} `{Btc}.

Lemma safe_btc_rest redeem chain l :
  l ≤ max_slices →
  safe (make_slices l ;;
     sigs ← loopM l (must "BtcFeeRateParam deserialize signature error" NextVarBytes);
     detial ← wrap_err "BtcFeeRateParam deserialize detail error: " BtcTxParamDetial_Deserialization;
     mret (mkBtcTxParam redeem chain sigs detial)).
Proof.
  intros Hl. unfold make_slices, make_elems. rewrite decide_True by done. apply safe_bind; [apply safe_ret|intros _].
  apply safe_bind; [apply safe_loopM; auto with safe|intros sigs].
  apply safe_bind; [apply safe_wrap; exact (ser_safe (A := BtcTxParamDetial))|intros; apply safe_ret].
Qed.

(** An announced count panics the node.  An input of [setBtcTxParam] that
    announces more signatures than a slice can have makes the method panic, in
    every state and without any witness; with a smaller count the reader returns a
    value or an error. *)
Lemma SetBtcTxParam_count (m : kvmap) (s : NativeService) (redeem rest : bytes) (chain l : Z) :
  is_u64 chain → is_u64 l → ns_input s = btc_head redeem chain l ++ rest → blen (ns_input s) < 2 ^ 63 →
  if decide (l ≤ max_slices) then (BtcTxParam_Deserialization (NewZeroCopySource (ns_input s))).1 ≠ Panic
  else run SetBtcTxParam (m, s) = (Panic, (m, s)).
Proof.
  intros Hc Hl Hin Hlen. rewrite Hin in Hlen. pose proof (BtcTxParam_head redeem chain l rest Hc Hl Hlen) as Hrd.
  case_decide as Hmax.
  - rewrite Hin, Hrd. destruct (safe_btc_rest redeem chain l Hmax (mkSource (btc_head redeem chain l ++ rest) (blen (btc_head redeem chain l))))
      as (r & src & E & Hp & _); [|by rewrite E].
    unfold src_wf. cbn [src_s src_off]. rewrite length_app in *. lia.
  - unfold SetBtcTxParam. erewrite run_bind_ok by apply run_cask. rewrite Hin, Hrd. unfold make_slices, make_elems.
    by rewrite decide_False.
Qed.

End btc.

(** Eleven bytes are enough. *)
Lemma SetBtcTxParam_count_example :
  let s := ex_service 1 7 (btc_head [] 0 (2 ^ 64 - 1)) in
  blen (ns_input s) = 11 ∧ run SetBtcTxParam (∅ : kvmap, s) = (Panic, (∅, s)).
Proof.
  intros s. split; [by vm_compute|].
  pose proof (SetBtcTxParam_count ∅ s [] [] 0 (2 ^ 64 - 1)) as Hc. rewrite decide_False in Hc by (by vm_compute).
  apply Hc; [by vm_compute|by vm_compute|by rewrite app_nil_r|by vm_compute].
Defined.
