(* ===== verification/CrossChain.v ===== *)
(** * The cross-chain manager contract
    (cross_chain_manager/entrance.go, native/service/utils/params.go)

    A transfer is verified by the handler of its source chain's router and becomes
    a request for the target chain: it is stored and its hash is added to the
    block's cross-state tree.  The handlers of the individual chains are behind
    the interface [ChainHandlers]; the vote handler is the one of ConsensusVote. *)

From S2P Require Import Prelude Sha256 Sink Source Serialization BytesOrder MemDB OverlayDB CacheDB Contract MerkleSpec MerkleHasher Native ExCrypto Codec NodeStates NodeManager NodeInv NodeGov CrossCommon ConsensusVote SideStates SideChain Approval SideGov.

(** ** Routers *)

Definition VOTE_ROUTER : Z := 0.
Definition BTC_ROUTER : Z := 1.
Definition ETH_ROUTER : Z := 2.
Definition ONT_ROUTER : Z := 3.
Definition NEO_ROUTER : Z := 4.
Definition COSMOS_ROUTER : Z := 5.
Definition BSC_ROUTER : Z := 6.
Definition HECO_ROUTER : Z := 7.
Definition QUORUM_ROUTER : Z := 8.
Definition ZILLIQA_LEGACY_ROUTER : Z := 9.
Definition MSC_ROUTER : Z := 10.
Definition NEO3_LEGACY_ROUTER : Z := 11.
Definition OKEX_ROUTER : Z := 12.
Definition NEO3_ROUTER : Z := 14.
Definition POLYGON_HEIMDALL_ROUTER : Z := 15.
Definition POLYGON_BOR_ROUTER : Z := 16.
Definition ZILLIQA_ROUTER : Z := 17.
Definition STARCOIN_ROUTER : Z := 18.
Definition PIXIECHAIN_ROUTER : Z := 19.
Definition HSC_ROUTER : Z := 20.
Definition HARMONY_ROUTER : Z := 21.
Definition BYTOM_ROUTER : Z := 22.
Definition RIPPLE_ROUTER : Z := 23.

Definition CheckRouterStartBlock (cfg : Config) (router block : Z) : res unit :=
  let startBlock :=
    if decide (router ∈ [HARMONY_ROUTER; HSC_ROUTER; BYTOM_ROUTER] ∧ NetworkId cfg = NETWORK_ID_MAIN_NET)
    then 18823000 else 0 in
  if decide (0 < startBlock ∧ block < startBlock) then Err "not a supported router" else Ok tt.

(** The routers with a handler of their own chain. *)
Definition chain_routers : list Z :=
  [BTC_ROUTER; ETH_ROUTER; ONT_ROUTER; NEO_ROUTER; NEO3_ROUTER; COSMOS_ROUTER; QUORUM_ROUTER; BSC_ROUTER; HECO_ROUTER;
   ZILLIQA_LEGACY_ROUTER; ZILLIQA_ROUTER; MSC_ROUTER; OKEX_ROUTER; POLYGON_BOR_ROUTER; PIXIECHAIN_ROUTER; STARCOIN_ROUTER;
   HSC_ROUTER; HARMONY_ROUTER; BYTOM_ROUTER; RIPPLE_ROUTER].

(** ** The handlers of the chains *)

Abbreviation Proposal := (contract NativeService (option MakeTxParam)).

Class ChainHandlers `{Crypto} := {
  MakeDepositProposal : Z → Proposal;                 (* of the handler of a router *)
  btc_MakeTransaction : MakeTxParam → Z → contract NativeService unit;
  btc_MultiSign : contract NativeService unit;
  ripple_MakeTransaction : MakeTxParam → Z → contract NativeService unit;
  ripple_MultiSign : contract NativeService unit;
  ripple_ReconstructTx : contract NativeService unit;
}.

(** The identifier under which a handler records a transfer as done. *)
Definition transfer_id (router : Z) (tx : MakeTxParam) : bytes :=
  if decide (router = BTC_ROUTER) then TxHash tx else CrossChainID tx.

(** Recorded as done. *)
Definition done_tx (c : Z) (x : bytes) (m : kvmap) : Prop := kv_at m (doneTx_key c x) ≠ [].

Section entrance.
Context `{Hasher} `{Crypto} `{!ChainHandlers} (cfg : Config).

Definition GetChainHandler (router : Z) : res Proposal :=
  if decide (router = VOTE_ROUTER) then Ok (VoteHandler_MakeDepositProposal cfg)
  else if decide (router ∈ chain_routers) then Ok (MakeDepositProposal router)
  else Err "not a supported router".

Definition PutRequest (txHash : bytes) (chainID : Z) (request : bytes) : contract NativeService unit :=
  PutBytes (request_key chainID txHash) request.

Definition MakeTransaction (params : MakeTxParam) (fromChainID : Z) : contract NativeService unit :=
  tx ← cask ns_tx;
  let merkleValue := mkToMerkleValue (to_slice (tx_hash tx)) fromChainID params in
  cwrap "MakeTransaction, putRequest error:" (PutRequest (mv_TxHash merkleValue) (ToChainID params) (sink_bytes merkleValue)) ;;
  PutMerkleVal (sink_bytes merkleValue) ;;
  let key := hex_encode (request_key (ToChainID params) (mv_TxHash merkleValue)) in
  NotifyMakeProof cfg fromChainID (ToChainID params) (hex_encode (TxHash params)) key.

(** The registered chain, which must not be blocked. *)
Definition open_chain (chainID : Z) (blacked_err : string) : contract NativeService SideChain :=
  blacked ← cwrap "ImportExTransfer, CheckIfChainBlacked error: " (CheckIfChainBlacked chainID);
  cguard (negb blacked) blacked_err ;;
  sideChain ← cwrap "ImportExTransfer, side_chain_manager.GetSideChain error: " (GetSideChain chainID);
  match sideChain with
  | None => CFail "ImportExTransfer, side chain is not registered"
  | Some sideChain => mret sideChain
  end.

(** The first half of [ImportExTransfer]: the source chain's id and router, and
    what its handler lets through. *)
Definition import_verify : contract NativeService (Z * Z * option MakeTxParam) :=
  params ← input_as (A := EntranceParam) "ImportExTransfer, contract params deserialize error: ";
  let chainID := SourceChainID params in
  sideChain ← open_chain chainID "ImportExTransfer, source chain is blacked";
  handler ← lift_res (GetChainHandler (Router sideChain));
  height ← cask ns_height;
  lift_res (CheckRouterStartBlock cfg (Router sideChain) height) ;;
  txParam ← handler;
  mret (chainID, Router sideChain, txParam).

(** The second half: the transaction for the target chain. *)
Definition import_send (chainID : Z) (txParam : MakeTxParam) : contract NativeService bytes :=
  sideChain ← open_chain (ToChainID txParam) "ImportExTransfer, target chain is blacked";
  (if decide (Router sideChain = BTC_ROUTER) then btc_MakeTransaction txParam chainID
   else if decide (Router sideChain = RIPPLE_ROUTER) then ripple_MakeTransaction txParam chainID
   else MakeTransaction txParam chainID) ;;
  mret BYTE_TRUE.

Definition ImportExTransfer : Handler :=
  '(chainID, router, txParam) ← import_verify;
  match txParam with
  | None => if decide (router = VOTE_ROUTER ∨ router = RIPPLE_ROUTER) then mret BYTE_TRUE
            else CPanic            (* txParam.ToChainID dereferences nil *)
  | Some txParam => import_send chainID txParam
  end.

Definition MultiSign : Handler := btc_MultiSign ;; mret BYTE_TRUE.
Definition MultiSignRipple : Handler := ripple_MultiSign ;; mret BYTE_TRUE.
Definition ReconstructRippleTx : Handler := ripple_ReconstructTx ;; mret BYTE_TRUE.

Definition BlackChain : Handler :=
  params ← input_as (A := BlackChainParam) "BlackChain, contract params deserialize error: ";
  operatorAddress ← cwrap "BlackChain, get current consensus operator address error: " GetCurConOperator;
  cwrap "BlackChain, checkWitness error: " (ValidateOwner operatorAddress) ;;
  PutBlackChain (bc_ChainID params) ;;
  mret BYTE_TRUE.

Definition WhiteChain : Handler :=
  params ← input_as (A := BlackChainParam) "WhiteChain, contract params deserialize error: ";
  operatorAddress ← cwrap "WhiteChain, get current consensus operator address error: " GetCurConOperator;
  cwrap "BlackChain, checkWitness error: " (ValidateOwner operatorAddress) ;;
  RemoveBlackChain (bc_ChainID params) ;;
  mret BYTE_TRUE.

Definition RegisterCrossChainManagerContract : list (bytes * Handler) :=
  [(gs "ImportOuterTransfer", ImportExTransfer); (gs "MultiSign", MultiSign); (gs "MultiSignRipple", MultiSignRipple);
   (gs "ReconstructRippleTx", ReconstructRippleTx); (gs "BlackChain", BlackChain); (gs "WhiteChain", WhiteChain)].

End entrance.
