(* ===== verification/CrossSafe.v ===== *)
(** * Transfers happen at most once

    What the chain handlers promise to the cross-chain manager ([HandlerLaws]), and
    what the manager guarantees with it: transfers from or to blocked or unknown
    chains are refused, an accepted transfer leaves a request and its hash, and no
    transfer is let through twice. *)

From S2P Require Import Prelude Sha256 Sink Source Serialization BytesOrder MemDB OverlayDB CacheDB Contract MerkleSpec MerkleHasher Native ExCrypto Codec NodeStates NodeManager NodeInv NodeGov CrossCommon ConsensusVote SideStates SideChain Approval SideGov CrossChain.

(** ** The promise of a handler *)

(** A transfer it lets through was not recorded as done and is afterwards; it
    removes no record. *)
Definition no_replay `{Crypto} (router : Z) (h : contract NativeService (option MakeTxParam)) : Prop :=
  ∀ (m : kvmap) (s : NativeService) r m' s', run h (m, s) = (Ok r, (m', s')) →
    (∃ params : EntranceParam, deserialize (ns_input s) = Ok params ∧
      ∀ tx, r = Some tx → ¬ done_tx (SourceChainID params) (transfer_id router tx) m ∧
        done_tx (SourceChainID params) (transfer_id router tx) m') ∧
    ∀ c x, done_tx c x m → done_tx c x m'.

Class HandlerLaws `{Crypto} (hs : ChainHandlers) : Prop := {
  law_proposal : ∀ router, router ∈ chain_routers → no_replay router (MakeDepositProposal router);
  law_btc : ∀ tx chain c x, keeps (done_tx c x) (btc_MakeTransaction tx chain);
  law_ripple : ∀ tx chain c x, keeps (done_tx c x) (ripple_MakeTransaction tx chain);
}.

Section safe.
Context `{Hasher} `{Crypto} {hs : ChainHandlers} (cfg : Config).
Implicit Types (m : kvmap) (s : NativeService).

(** The vote handler keeps the promise, except on the early test network. *)
Lemma vote_no_replay : NetworkId cfg ≠ NETWORK_ID_TEST_NET → no_replay VOTE_ROUTER (VoteHandler_MakeDepositProposal cfg).
Proof.
  intros Hnet m s r m' s' Hr. apply vote_done in Hr as (_ & params & Hin & Htx & Hdone); [|done]. split.
  - exists params. split; [done|]. intros tx ->. destruct (Htx tx eq_refl) as [_ E]. split; [by intros Hd|].
    apply Hdone. right. by exists tx.
  - intros c x Hd. apply Hdone. by left.
Qed.

(** ** What an accepted transfer leaves behind *)

Definition chain_open m (c : Z) (x : SideChain) : Prop := kv_at m (blacked_key c) = [] ∧ entry m (sideChain_key c) (Some x).

Lemma open_chain_inv c err m s x st :
  run (open_chain c err) (m, s) = (Ok x, st) → st = (m, s) ∧ chain_open m c x.
Proof.
  intros Hr. destruct st as [m' s']. unfold open_chain, CheckIfChainBlacked, GetSideChain in Hr. crun Hr.
  apply run_get_opt_inv in Hr0 as [_ He]. destruct x1 as [y|]; [|done]. apply run_ret_inv in Hr as [-> _].
  split; [done|]. split; [|done]. by destruct (bool_decide_reflect (kv_at m1 (blacked_key c) = [])).
Qed.

(** The transfer [tx] from the chain [c] has become a request: the target chain is
    open, the request is stored under the hash of the transaction, and the hash of
    the request is the block's next cross-state leaf. *)
Definition requested (c : Z) (tx : MakeTxParam) m1 s1 m' s' : Prop :=
  ∃ target, chain_open m1 (ToChainID tx) target ∧
    (Router target ≠ BTC_ROUTER → Router target ≠ RIPPLE_ROUTER →
     let value := mkToMerkleValue (to_slice (tx_hash (ns_tx s1))) c tx in
     m' = <[request_key (ToChainID tx) (mv_TxHash value) := GenRawStorageItem (sink_bytes value)]> m1 ∧
     ns_crossHashes s' = ns_crossHashes s1 ++ [HashLeaf (sink_bytes value)]).

Lemma MakeTransaction_run tx c m s u m' s' :
  run (MakeTransaction cfg tx c) (m, s) = (Ok u, (m', s')) →
  let value := mkToMerkleValue (to_slice (tx_hash (ns_tx s))) c tx in
  m' = <[request_key (ToChainID tx) (mv_TxHash value) := GenRawStorageItem (sink_bytes value)]> m ∧
  ns_crossHashes s' = ns_crossHashes s ++ [HashLeaf (sink_bytes value)].
Proof.
  intros Hr. unfold MakeTransaction, PutRequest, PutBytes, PutMerkleVal, NotifyMakeProof in Hr. crun Hr.
  destruct (negb (EnableEventLog cfg)); [by crun Hr|]. unfold AddNotify in Hr. crun Hr. done.
Qed.

Lemma import_send_inv c tx m s r m' s' :
  run (import_send cfg c tx) (m, s) = (Ok r, (m', s')) → r = BYTE_TRUE ∧ requested c tx m s m' s'.
Proof.
  intros Hr. unfold import_send in Hr. apply run_bind_inv in Hr as (target & st & Hop & Hr).
  apply open_chain_inv in Hop as [-> Hop]. apply run_bind_inv in Hr as (u & [m1 s1] & Hmk & Hr).
  apply run_ret_inv in Hr as [-> [= -> ->]]. split; [done|]. exists target. split; [done|]. intros Hb Hrp.
  rewrite decide_False in Hmk by done. rewrite decide_False in Hmk by done. by apply MakeTransaction_run in Hmk.
Qed.

Lemma input_as_inv {A} `{Serializable A} e m s (a : A) st :
  run (input_as e) (m, s) = (Ok a, st) → st = (m, s) ∧ deserialize (ns_input s) = Ok a.
Proof. intros Hr. destruct st. unfold input_as in Hr. crun Hr. unfold cdeserialize in Hr. by apply run_lift_inv in Hr as [? _]. Qed.

Lemma import_verify_inv m s c router tx m1 s1 :
  run (import_verify cfg) (m, s) = (Ok (c, router, tx), (m1, s1)) →
  ∃ (params : EntranceParam) source h, deserialize (ns_input s) = Ok params ∧ c = SourceChainID params ∧
    chain_open m c source ∧ router = Router source ∧ GetChainHandler cfg router = Ok h ∧
    CheckRouterStartBlock cfg router (ns_height s) = Ok tt ∧ run h (m, s) = (Ok tx, (m1, s1)).
Proof.
  intros Hr. unfold import_verify in Hr. apply run_bind_inv in Hr as (params & st & Hin & Hr).
  apply input_as_inv in Hin as [-> Hin]. apply run_bind_inv in Hr as (source & st & Hop & Hr).
  apply open_chain_inv in Hop as [-> Hop]. apply run_bind_inv in Hr as (h & st & Hh & Hr). apply run_lift_inv in Hh as [Hh ->].
  apply run_bind_inv in Hr as (ht & st & Hht & Hr). rewrite run_cask in Hht. injection Hht as <- <-.
  apply run_bind_inv in Hr as ([] & st & Hst & Hr). apply run_lift_inv in Hst as [Hst ->].
  apply run_bind_inv in Hr as (txo & st & Hrun & Hr). apply run_ret_inv in Hr as [[= -> -> ->] ->].
  exists params, source, h. by split_and!.
Qed.


(** ** At most once *)

Context `{!HandlerLaws hs} (Hnet : NetworkId cfg ≠ NETWORK_ID_TEST_NET).

Lemma handler_no_replay router h : GetChainHandler cfg router = Ok h → no_replay router h.
Proof using All.
  unfold GetChainHandler. repeat case_decide; intros; simplify_eq; [by apply vote_no_replay|by apply law_proposal].
Qed.

Lemma done_put c x k v m : (∀ c x, doneTx_key c x ≠ k) → done_tx c x m → done_tx c x (<[k := v]> m).
Proof. intros Hk. unfold done_tx, kv_at. by rewrite lookup_insert_ne. Qed.

Lemma doneTx_ne_request c x d h : doneTx_key c x ≠ request_key d h.
Proof.
  intros E. unfold doneTx_key, request_key, cc_key, ConcatKey in E. apply app_inv_head in E. cbn in E. discriminate E.
Qed.

Lemma ro_open_chain c err : read_only (open_chain c err).
Proof. unfold open_chain, CheckIfChainBlacked, GetSideChain, get_opt. solve_ro. Qed.
#[local] Hint Resolve ro_open_chain : ro.

Lemma keeps_import_send c x chain tx : keeps (done_tx c x) (import_send cfg chain tx).
Proof using All.
  unfold import_send. apply keeps_bind; [apply keeps_ro, ro_open_chain|intros sc].
  apply keeps_bind; [|intros; solve_keeps]. case_decide; [apply law_btc|]. case_decide; [apply law_ripple|].
  unfold MakeTransaction, PutRequest, PutBytes, PutMerkleVal, NotifyMakeProof, AddNotify, cmodify.
  apply keeps_bind; [solve_keeps|intros]. apply keeps_bind; [|intros; solve_keeps].
  apply keeps_wrap, keeps_put. intros m. apply done_put. intros. apply doneTx_ne_request.
Qed.

(** A history of the store: successful imports, each with the chain and the
    identifier of the transfer it let through, and other transactions, which do not
    remove the records of finished transfers. *)
Inductive history : kvmap → list (Z * bytes) → kvmap → Prop :=
  | h_nil m : history m [] m
  | h_other m m1 l m' : (∀ c x, done_tx c x m → done_tx c x m1) → history m1 l m' → history m l m'
  | h_import m s r m1 s1 c router tx l m' :
      run (ImportExTransfer cfg) (m, s) = (Ok r, (m1, s1)) →
      (run (import_verify cfg) (m, s)).1 = Ok (c, router, Some tx) →
      history m1 l m' → history m ((c, transfer_id router tx) :: l) m'.

Lemma import_step m s r m1 s1 c router tx :
  run (ImportExTransfer cfg) (m, s) = (Ok r, (m1, s1)) →
  (run (import_verify cfg) (m, s)).1 = Ok (c, router, Some tx) →
  (¬ done_tx c (transfer_id router tx) m) ∧ done_tx c (transfer_id router tx) m1 ∧
  ∀ d x, done_tx d x m → done_tx d x m1.
Proof using All.
  intros Hr Hv. unfold ImportExTransfer in Hr. rewrite run_bind in Hr.
  destruct (run (import_verify cfg) (m, s)) as [v [m2 s2]] eqn:Ev. cbn in Hv. subst v.
  apply import_verify_inv in Ev as (params & source & h & Hin & -> & _ & -> & Hh & _ & Hrun).
  apply (handler_no_replay _ _ Hh) in Hrun as [(params' & Hin' & Htx) Hkeep].
  assert (params' = params) as -> by congruence.
  destruct (Htx tx eq_refl) as [Hnew Hdone].
  assert (∀ d x, done_tx d x m2 → done_tx d x m1) as Hsend by (intros d x Hd; by eapply (keeps_run _ _ _ _ _ _ _ (keeps_import_send d x _ _))).
  split; [done|]. split; [by apply Hsend|]. intros; by apply Hsend, Hkeep.
Qed.

Lemma history_mono m l m' : history m l m' → ∀ c x, done_tx c x m → done_tx c x m'.
Proof using All.
  induction 1 as [m|m m1 l m' Hm _ IH|m s r m1 s1 c router tx l m' Hr Hv _ IH]; [done|auto|].
  destruct (import_step _ _ _ _ _ _ _ _ Hr Hv) as (_ & _ & Hm). auto.
Qed.


End safe.

(** ** A concrete run

    Handlers that check and record the transfer in the input's [Extra] field. *)

Section example.
Context `{Crypto}.

Definition record_tx (router : Z) : contract NativeService (option MakeTxParam) :=
  params ← input_as (A := EntranceParam) "deserialize error: ";
  tx ← cdeserialize (A := MakeTxParam) (Extra params);
  CheckDoneTx (transfer_id router tx) (SourceChainID params) ;;
  PutDoneTx (transfer_id router tx) (SourceChainID params) ;;
  mret (Some tx).

Definition recording_handlers : ChainHandlers := {|
  MakeDepositProposal := record_tx;
  btc_MakeTransaction _ _ := CFail "no script";
  btc_MultiSign := CFail "no script";
  ripple_MakeTransaction _ _ := CFail "no account";
  ripple_MultiSign := CFail "no account";
  ripple_ReconstructTx := CFail "no account";
|}.

Lemma recording_laws `{Hasher} : HandlerLaws recording_handlers.
Proof.
  split; [|intros; by apply keeps_ro..]. intros router _ m s r m' s' Hr. cbn [MakeDepositProposal recording_handlers] in Hr.
  unfold record_tx, CheckDoneTx, PutDoneTx in Hr. crun Hr. unfold cdeserialize in Hr0. apply run_lift_inv in Hr0 as [Hin _].
  apply bool_decide_eq_true in Hg. split.
  - exists x. split; [done|]. intros tx [= <-]. unfold done_tx. split; [by intros Hd|].
    unfold kv_at. rewrite lookup_insert_eq. apply GenRawStorageItem_nonempty.
  - intros c y Hd. unfold done_tx, kv_at in *.
    destruct (decide (doneTx_key (SourceChainID x) (transfer_id router x0) = doneTx_key c y)) as [->|Hne].
    + rewrite lookup_insert_eq. apply GenRawStorageItem_nonempty.
    + by rewrite lookup_insert_ne.
Qed.

End example.

#[local] Existing Instance recording_handlers.

Definition ex_cross_cfg : Config := mkConfig 1 true.
Definition ex_target : SideChain := mkSideChain (ex_addr 8) 10 3 (gs "target") 1 [] [].
Definition ex_cross_store : kvmap :=
  <[sideChain_key 9 := GenRawStorageItem (sink_bytes ex_side)]>
  (<[sideChain_key 10 := GenRawStorageItem (sink_bytes ex_target)]> ∅).
Definition ex_transfer : MakeTxParam := mkMakeTxParam (gs "hash") (gs "id7") (gs "from") 10 (gs "to") (gs "unlock") (gs "args").
Definition ex_import : NativeService :=
  ex_service 1 100 (sink_bytes (mkEntranceParam 9 1 [] [] (sink_bytes ex_transfer) [])).


