(* ===== verification/LedgerExec.v ===== *)
(** * Executing a block
    (core/store/ledgerstore/tx_handler.go; executeBlock and handleTransaction of
    ledger_store.go)

    Every transaction runs over a fresh transaction cache and is committed to the
    block cache as a whole or not at all.  The execution of a block over the caches
    and the database is the one of its transactions, in order, on a finite map
    ([exec_txs_refines]). *)

From S2P Require Import Prelude Sha256 Sink Source Serialization BytesOrder MemDB OverlayDB CacheDB Contract MerkleSpec MerkleHasher Native ExCrypto TxRoot Codec Types.

Definition CONTRACT_STATE_FAIL : Z := 0.
Definition CONTRACT_STATE_SUCCESS : Z := 1.

Record ExecuteNotify := mkExecuteNotify {
  en_TxHash : Uint256;
  en_State : Z;
  en_GasConsumed : Z;
  en_Notify : list NotifyEventInfo;
}.

Section exec.
Context `{Hasher} `{Crypto} `{Rand} `{PersistStore PS} (contracts : Registry).

(** The service of a transaction; the payload of another type and the hash of a
    header with an unknown version panic. *)
Definition block_service (tx : Transaction) (block : Block) : res NativeService :=
  match Payload tx, Block_Hash block with
  | Some code, Ok hash =>
      let header := blk_Header block in
      NewNativeService tx (Timestamp header) (Height header) hash (h_ChainID header) code false
  | Some _, Err e => Err e
  | _, _ => Panic
  end.
Definition tx_is_invoke (tx : Transaction) : bool := bool_decide (TxType tx = Invoke_type).

(** The result and the error of the call, and [notify] as it was updated. *)
Definition HandleInvokeTransaction (tx : Transaction) (block : Block) (notify : ExecuteNotify)
    : M (CacheDB PS) (res (list Uint256) * ExecuteNotify) := λ cache,
  match block_service tx block with
  | Err e => (Ok (Err ("HandleInvokeTransaction Error: " +:+ e), notify), cache)
  | Panic => (Panic, cache)
  | Ok service =>
      match run (Invoke contracts) (cache, service) with
      | (Err e, (cache, _)) => (Ok (Err e, notify), cache)
      | (Panic, (cache, _)) => (Panic, cache)
      | (Ok _, (cache, service)) =>
          let notify := mkExecuteNotify (en_TxHash notify) CONTRACT_STATE_SUCCESS (en_GasConsumed notify) (en_Notify notify ++ ns_notifications service) in
          (cache_Commit ;; mret (Ok (ns_crossHashes service), notify)) cache
      end
  end.

Definition handleTransaction (block : Block) (tx : Transaction) : M (CacheDB PS) (ExecuteNotify * list Uint256) :=
  let notify := mkExecuteNotify (tx_hash tx) CONTRACT_STATE_FAIL 0 [] in
  if tx_is_invoke tx then
    '(r, notify) ← HandleInvokeTransaction tx block notify;
    cache ← get_state;
    match ov_Error (backend cache) with
    | Some e => fail ("HandleInvokeTransaction tx error " +:+ e)
    | None => mret (notify, match r with Ok crossHashes => crossHashes | _ => [] end)
    end
  else fail "Unsupported transaction type!".

(** The loop of [executeBlock]: [(result.Notify, result.CrossHashes)]. *)
Fixpoint exec_txs (block : Block) (txs : list Transaction) (notifies : list ExecuteNotify) (hashes : list Uint256)
    : M (CacheDB PS) (list ExecuteNotify * list Uint256) :=
  match txs with
  | [] => mret (notifies, hashes)
  | tx :: txs' =>
      cache_Reset ;;
      '(notify, crossHashes) ← handleTransaction block tx;
      exec_txs block txs' (notifies ++ [notify]) (hashes ++ crossHashes)
  end.

(** ** On a finite map *)

(** A transaction: all of its effects or none. *)
Definition atomic_tx (block : Block) (tx : Transaction) : M kvmap (ExecuteNotify * list Uint256) := λ m,
  let failed := (mkExecuteNotify (tx_hash tx) CONTRACT_STATE_FAIL 0 [], []) in
  if tx_is_invoke tx then
    match block_service tx block with
    | Err _ => (Ok failed, m)
    | Panic => (Panic, m)
    | Ok service =>
        match run (Invoke contracts) (m, service) with
        | (Err _, _) => (Ok failed, m)
        | (Panic, _) => (Panic, m)
        | (Ok _, (m', s')) =>
            (Ok (mkExecuteNotify (tx_hash tx) CONTRACT_STATE_SUCCESS 0 (ns_notifications s'), ns_crossHashes s'), m')
        end
    end
  else (Err "Unsupported transaction type!", m).

Fixpoint atomic_txs (block : Block) (txs : list Transaction) (notifies : list ExecuteNotify) (hashes : list Uint256)
    : M kvmap (list ExecuteNotify * list Uint256) :=
  match txs with
  | [] => mret (notifies, hashes)
  | tx :: txs' =>
      '(notify, crossHashes) ← atomic_tx block tx;
      atomic_txs block txs' (notifies ++ [notify]) (hashes ++ crossHashes)
  end.

(** The block cache stands for the map, and the database reads without errors. *)
Definition block_sim (b : OverlayDB PS) (m : kvmap) : Prop :=
  ∃ bw, writes_of b bw ∧ store_ok (ov_store b) ∧ ov_dbErr b = None ∧ storage_only bw ∧
    ∀ k, kv_at m k = seen bw (ps_view (ov_store b)) (ST_STORAGE :: k).

Lemma cache_Reset_sim (c : CacheDB PS) m :
  block_sim (backend c) m → ∃ c', cache_Reset c = (Ok tt, c') ∧ cache_sim c' m ∧ backend c' = backend c.
Proof.
  intros (bw & Hb & Hs & He & Hsb & Hk). eexists. split; [done|]. split; [|done]. exists ∅, bw.
  split_and!; [exists []; split; [apply mem_ok_new|done]|done|done|apply storage_only_empty|done|]. intros k. unfold cache_seen. rewrite lookup_empty. apply Hk.
Qed.

Lemma cache_Commit_sim (c : CacheDB PS) m :
  cache_sim c m → ov_dbErr (backend c) = None → ∃ c', cache_Commit c = (Ok tt, c') ∧ block_sim (backend c') m ∧ ov_store (backend c') = ov_store (backend c).
Proof.
  intros (w & bw & Hc & Hb & Hs & Hsw & Hsb & Hk) He.
  destruct (cache_Commit_ok c w bw Hc Hb) as (c' & bw' & E & _ & Hb' & Hst & He' & Hu & Hseen).
  exists c'. split; [done|]. split; [|done]. exists bw'. rewrite Hst, He'. split_and!; [done|done|done|rewrite Hu; by apply storage_only_union|]. intros k. by rewrite Hk, Hseen.
Qed.

Lemma handleTransaction_sim block tx (c : CacheDB PS) m :
  cache_sim c m → block_sim (backend c) m →
  ∃ r c' m', handleTransaction block tx c = (r, c') ∧ atomic_tx block tx m = (r, m') ∧
    (∀ x, r = Ok x → block_sim (backend c') m' ∧ ov_store (backend c') = ov_store (backend c)).
Proof.
  intros Hc Hb. unfold handleTransaction, atomic_tx. destruct (tx_is_invoke tx); [|by eexists _, _, _].
  pose proof Hb as (bw & _ & _ & He & _ & _).
  unfold HandleInvokeTransaction. destruct (block_service tx block) as [service|e|].
  - destruct (run_cache (Invoke contracts) c m service Hc) as (r & s' & c' & m' & E1 & E2 & Hsim & Hbk).
    unfold mbind at 1, M_bind at 1. rewrite E1, E2. destruct r as [x|e|].
    + destruct (cache_Commit_sim c' m' Hsim) as (c'' & E3 & Hb' & Hst); [by rewrite Hbk|]. rewrite Hbk in Hst.
      rewrite (bind_ok _ _ _ _ _ E3). cbn. pose proof Hb' as (bw' & _ & _ & He' & _ & _). unfold ov_Error.
      erewrite bind_ok by done. rewrite He'.
      eexists _, _, _. by split_and!.
    + cbn. unfold ov_Error. erewrite bind_ok by done. rewrite Hbk, He. eexists _, _, _. split_and!; [done|done|]. intros _ _. by rewrite Hbk.
    + by eexists _, _, _.
  - unfold mbind, M_bind, get_state. cbn. unfold ov_Error. rewrite He. eexists _, _, _. by split_and!.
  - by eexists _, _, _.
Qed.

Lemma exec_txs_sim block txs ns hs (c : CacheDB PS) m :
  block_sim (backend c) m →
  ∃ r c' m', exec_txs block txs ns hs c = (r, c') ∧ atomic_txs block txs ns hs m = (r, m') ∧
    ∀ x, r = Ok x → block_sim (backend c') m' ∧ ov_store (backend c') = ov_store (backend c).
Proof.
  revert ns hs c m. induction txs as [|tx txs IH]; intros ns hs c m Hb; cbn [exec_txs atomic_txs]; [by eexists _, _, _|].
  destruct (cache_Reset_sim c m Hb) as (c1 & E1 & Hc1 & Hbk). rewrite (bind_ok _ _ _ _ _ E1).
  destruct (handleTransaction_sim block tx c1 m Hc1) as (r & c2 & m2 & E2 & E3 & Hb2); [by rewrite Hbk|].
  unfold mbind, M_bind. rewrite E2, E3. destruct r as [[n h]|e|]; [|by eexists _, _, _..].
  destruct (Hb2 _ eq_refl) as [Hb2' Hst]. rewrite Hbk in Hst. rewrite <- Hst. by apply IH.
Qed.

(** Every database that reads without errors stands for a map. *)
Definition storage_of (view : gmap bytes bytes) : kvmap :=
  list_to_map (omap (OMap := list_omap) (λ e, match e.1 with
                          | b :: k => if decide (b = ST_STORAGE) then Some (k, e.2) else None
                          | [] => None
                          end) (map_to_list view)).

Lemma storage_of_lookup view k : storage_of view !! k = view !! (ST_STORAGE :: k).
Proof.
  unfold storage_of. set (l := omap _ _).
  assert (∀ v, (k, v) ∈ l ↔ view !! (ST_STORAGE :: k) = Some v) as Hl.
  { intros v. unfold l. rewrite list_elem_of_omap. split.
    - intros ([k0 v0] & Hin & E). apply elem_of_map_to_list in Hin. destruct k0 as [|b k0]; [done|].
      cbn in E. case_decide; [|done]. by simplify_eq.
    - intros E. exists (ST_STORAGE :: k, v). split; [by apply elem_of_map_to_list|]. cbn. by rewrite decide_True. }
  destruct (view !! (ST_STORAGE :: k)) as [v|].
  - apply elem_of_list_to_map_1'; [|by apply Hl]. intros y Hy%Hl. by simplify_eq.
  - apply not_elem_of_list_to_map_1. intros ([k0 v] & -> & Hin)%list_elem_of_fmap. by apply Hl in Hin.
Qed.

Lemma block_sim_new (s : PS) : store_ok s → block_sim (NewOverlayDB s) (storage_of (ps_view s)).
Proof.
  intros Hs. exists ∅. split_and!; [apply writes_of_new|done|done|apply storage_only_empty|].
  intros k. unfold kv_at, seen. by rewrite lookup_empty, storage_of_lookup.
Qed.

(** C11 (blocks are sequences of atomic transactions).  Over the transaction cache,
    the block cache and a database that reads without errors, the loop of
    [executeBlock] returns the same notifications and cross-chain hashes, the same
    errors and panics, as running the transactions one after the other on the finite
    map of the stored values, where a failed transaction leaves no trace; if it
    succeeds, the block cache holds the values of the final map. *)
Theorem exec_txs_refines block txs ns hs (c : CacheDB PS) m :
  block_sim (backend c) m →
  ∃ r c' m', exec_txs block txs ns hs c = (r, c') ∧ atomic_txs block txs ns hs m = (r, m') ∧
    ∀ x, r = Ok x → block_sim (backend c') m'.
Proof.
  intros Hb. destruct (exec_txs_sim block txs ns hs c m Hb) as (r & c' & m' & E1 & E2 & Hok).
  exists r, c', m'. split_and!; [done..|]. by intros x [? _]%Hok.
Qed.

End exec.

(** ** A block of two transactions, of which the second one fails *)

#[local] Existing Instance ex_rand.

Definition ex_method : Handler :=
  v ← cget (gs "n"); cput (gs "n") (byte_of_Z 1 :: v) ;; PutMerkleVal (gs "leaf") ;; mret v.
Definition ex_registry : Registry := {[contract_address 7 := [(gs "inc", ex_method)]]}.
Definition ex_tx (i : Z) (method : string) : Transaction :=
  ex_transaction 1 (copy_array 32 [byte_of_Z i]) (sink_bytes (mkInvokeParam (byte_of_Z 0) (contract_address 7) (gs method) [])).
Definition ex_head : Header :=
  mkHeader 0 0 EMPTY_HASH EMPTY_HASH EMPTY_HASH EMPTY_HASH 1000 5 0 [] ADDRESS_EMPTY [] [].
Definition ex_block : Block := mkBlock ex_head [ex_tx 1 "inc"; ex_tx 2 "dec"].

Lemma ex_block_sim : block_sim (NewOverlayDB ex_ldb) ∅.
Proof.
  destruct ex_cache_sim as (w & bw & _ & _ & Hs & _). exists ∅. split_and!; [apply writes_of_new|done|done|apply storage_only_empty|].
  intros k. unfold seen, kv_at. rewrite !lookup_empty. cbn [ov_store NewOverlayDB]. simpl ps_view.
  by rewrite lookup_insert_ne, lookup_singleton_ne by discriminate.
Qed.

Lemma exec_txs_refines_witness :
  (en_State <$> match (atomic_txs ex_registry ex_block (Transactions ex_block) [] [] ∅).1 with Ok (n, _) => n | _ => [] end) = [1; 0] ∧
  ∃ r c' m', exec_txs ex_registry ex_block (Transactions ex_block) [] [] (NewCacheDB (NewOverlayDB ex_ldb)) = (r, c') ∧
    atomic_txs ex_registry ex_block (Transactions ex_block) [] [] ∅ = (r, m') ∧ ∀ x, r = Ok x → block_sim (backend c') m'.
Proof.
  split; [by vm_compute|].
  apply (exec_txs_refines ex_registry ex_block (Transactions ex_block) [] [] (NewCacheDB (NewOverlayDB ex_ldb)) ∅).
  apply ex_block_sim.
Defined.
