(* ===== verification/StateStore.v ===== *)
(** * The state store
    (core/store/ledgerstore/state_store.go, core/store/common/data_entry_prefix.go)

    The database of contract storage, the merkle tree of the block hashes and the
    merkle tree of the blocks' write sets.  Both trees are kept in memory and
    their frontier is written with every block; [init] rebuilds them. *)

From S2P Require Import Prelude Sha256 Sink Source Serialization BytesOrder MemDB OverlayDB CacheDB MerkleUtil MerkleSpec MerkleHasher HashStore MerkleTree.

(** ** Keys *)

Definition DATA_STATE_MERKLE_ROOT : byte := byte_of_Z 0x21.
Definition SYS_CURRENT_BLOCK : byte := byte_of_Z 0x10.
Definition SYS_BLOCK_MERKLE_TREE : byte := byte_of_Z 0x13.
Definition SYS_STATE_MERKLE_TREE : byte := byte_of_Z 0x20.
Definition SYS_CROSS_STATES : byte := byte_of_Z 0x22.
Definition SYS_CROSS_STATES_HASH : byte := byte_of_Z 0x23.

Definition getCurrentBlockKey : bytes := [SYS_CURRENT_BLOCK].
Definition genBlockMerkleTreeKey : bytes := [SYS_BLOCK_MERKLE_TREE].
Definition genStateMerkleTreeKey : bytes := [SYS_STATE_MERKLE_TREE].
Definition genCrossStatesKey (height : Z) : bytes := SYS_CROSS_STATES :: le_put 4 height.
Definition genCrossStatesRootKey (height : Z) : bytes := SYS_CROSS_STATES_HASH :: le_put 4 height.
Definition genStateMerkleRootKey (height : Z) : bytes := DATA_STATE_MERKLE_ROOT :: le_put 4 height.

Record StateStore (PS St : Type) := mkStateStore {
  ss_store : PS;
  merkleTree : CompactMerkleTree St;                 (* of the block hashes *)
  deltaMerkleTree : option (CompactMerkleTree St);   (* of the write sets; [None] is nil *)
  stateHashCheckHeight : Z;
}.
Arguments mkStateStore {PS St}.
Arguments ss_store {PS St}.
Arguments merkleTree {PS St}.
Arguments deltaMerkleTree {PS St}.
Arguments stateHashCheckHeight {PS St}.

Section state_store.
Context `{Hasher} `{PersistStore PS} `{HashStore St}.
Abbreviation SM := (M (StateStore PS St)).

(** Runs an operation of the database. *)
Definition on_db {A} (m : M PS A) : SM A := λ ss,
  let '(r, s) := m (ss_store ss) in
  (r, mkStateStore s (merkleTree ss) (deltaMerkleTree ss) (stateHashCheckHeight ss)).
Definition db_get (key : bytes) : SM bytes := λ ss, (ps_Get key (ss_store ss), ss).

Definition ss_NewBatch : SM unit := on_db ps_NewBatch.
Definition ss_BatchPutRawKeyVal (key val : bytes) : SM unit := on_db (ps_BatchPut key val).
Definition ss_BatchDeleteRawKey (key : bytes) : SM unit := on_db (ps_BatchDelete key).
Definition ss_CommitTo : SM unit := on_db ps_BatchCommit.

(** A tree operation that can panic. *)
Definition of_option {S A} (o : option A) : M S A := match o with Some a => mret a | None => panic end.

(** [treeSize] and the hashes, as they are written. *)
Definition tree_ops (t : CompactMerkleTree St) : list sink_op := OpUint32 (treeSize t) :: (OpHash <$> hashes t).

Definition getMerkleTree (key : bytes) : SM (Z * list Uint256) :=
  data ← db_get key;
  match Ser.ReadUint32 data with
  | (Ok treeSize, rest) =>
      let hashCount := (blen data - 4) ÷ UINT256_SIZE in
      mret (treeSize, parse_hashes (Z.to_nat hashCount) rest)
  | (Err e, _) => fail e
  | (Panic, _) => panic
  end.
Definition GetBlockMerkleTree : SM (Z * list Uint256) := getMerkleTree genBlockMerkleTreeKey.
Definition GetStateMerkleTree : SM (Z * list Uint256) := getMerkleTree genStateMerkleTreeKey.

Definition GetStateMerkleRoot (height : Z) : SM Uint256 :=
  ss ← get_state;
  if decide (height < stateHashCheckHeight ss) then mret EMPTY_HASH else
  value ← db_get (genStateMerkleRootKey height);
  match ('(_, _) ← NextHash; NextHash) (NewZeroCopySource value) with
  | (Ok (result, false), _) => mret result
  | (Ok (_, true), _) => fail "unexpected EOF"
  | (Err e, _) => fail e
  | (Panic, _) => panic
  end.

Definition AddStateMerkleTreeRoot (blockHeight : Z) (writeSetHash : Uint256) : SM unit :=
  ss ← get_state;
  if decide (blockHeight < stateHashCheckHeight ss) then mret tt else
  delta ← of_option (if decide (blockHeight = stateHashCheckHeight ss) then NewTree 0 [] None else deltaMerkleTree ss);
  '(_, delta) ← of_option (Append (to_slice writeSetHash) delta);
  let set_delta d := mkStateStore (ss_store ss) (merkleTree ss) (Some d) (stateHashCheckHeight ss) in
  put_state (set_delta delta) ;;
  ss_BatchPutRawKeyVal genStateMerkleTreeKey (enc_ops (tree_ops delta)) ;;
  '(root, delta) ← of_option (Root delta);
  ss ← get_state;
  put_state (mkStateStore (ss_store ss) (merkleTree ss) (Some delta) (stateHashCheckHeight ss)) ;;
  ss_BatchPutRawKeyVal (genStateMerkleRootKey blockHeight) (enc_ops [OpHash writeSetHash; OpHash root]).

Definition AddCrossStates (height : Z) (crossStates : list Uint256) (crossStatesHash : Uint256) : SM unit :=
  if decide (blen crossStates = 0) then mret tt else
  ss_BatchPutRawKeyVal (genCrossStatesKey height) (enc_ops (OpHash <$> crossStates)) ;;
  ss_BatchPutRawKeyVal (genCrossStatesRootKey height) (to_slice crossStatesHash).

Definition GetCrossStateRoot (height : Z) : SM Uint256 := λ ss,
  match ps_Get (genCrossStatesRootKey height) (ss_store ss) with
  | Err e => if decide (e = ErrNotFound) then (Ok EMPTY_HASH, ss) else (Err e, ss)
  | Panic => (Panic, ss)
  | Ok value => match Uint256_Deserialize value with
                | (Ok hash, _) => (Ok hash, ss)
                | (Err e, _) => (Err e, ss)
                | (Panic, _) => (Panic, ss)
                end
  end.

(** The loop reads [l] hashes, [l] being the number of whole hashes in the value. *)
Fixpoint read_hashes (l : nat) : M ZeroCopySource (list Uint256) :=
  match l with
  | O => mret []
  | S l' => u256 ← must "unexpected EOF" NextHash; rest ← read_hashes l'; mret (u256 :: rest)
  end.
Definition GetCrossStates (height : Z) : SM (list Uint256) :=
  value ← db_get (genCrossStatesKey height);
  match read_hashes (Z.to_nat (blen value ÷ UINT256_SIZE)) (NewZeroCopySource value) with
  | (Ok l, _) => mret l
  | (Err e, _) => fail e
  | (Panic, _) => panic
  end.

Definition AddBlockMerkleTreeRoot (preBlockHash : Uint256) : SM unit :=
  ss ← get_state;
  '(_, tree) ← of_option (Append (to_slice preBlockHash) (merkleTree ss));
  put_state (mkStateStore (ss_store ss) tree (deltaMerkleTree ss) (stateHashCheckHeight ss)) ;;
  ss_BatchPutRawKeyVal genBlockMerkleTreeKey (enc_ops (tree_ops tree)).

Definition GetMerkleProof (raw : bytes) (proofHeight rootHeight : Z) : SM bytes :=
  ss ← get_state;
  r ← of_option (MerkleInclusionLeafPath raw proofHeight (u32 (rootHeight + 1)) (merkleTree ss));
  match r with Ok p => mret p | Err e => fail e | Panic => panic end.

Definition GetStorageValue (key : bytes) : SM bytes :=
  data ← db_get (ST_STORAGE :: key);
  match StorageItem_Deserialize data with
  | (Ok item, _) => mret (Value item)
  | (Err e, _) => fail e
  | (Panic, _) => panic
  end.

Definition GetCurrentBlock : SM (Uint256 * Z) :=
  data ← db_get getCurrentBlockKey;
  match (blockHash ← Uint256_Deserialize; height ← Ser.ReadUint32; mret (blockHash, height)) data with
  | (Ok r, _) => mret r
  | (Err e, _) => fail e
  | (Panic, _) => panic
  end.
Definition SaveCurrentBlock (height : Z) (blockHash : Uint256) : SM unit :=
  ss_BatchPutRawKeyVal getCurrentBlockKey (to_slice blockHash ++ Ser.WriteUint32 height).

Definition GetStateMerkleRootWithNewHash (writeSetHash : Uint256) : SM Uint256 :=
  ss ← get_state;
  delta ← of_option (deltaMerkleTree ss);
  of_option (GetRootWithNewLeaf writeSetHash delta).
Definition GetBlockRootWithPreBlockHashes (preBlockHashes : list Uint256) : SM Uint256 :=
  ss ← get_state; of_option (GetRootWithNewLeaves preBlockHashes (merkleTree ss)).

(** The pairs of a write set, in the batch. *)
Definition write_entries (l : list entry) : SM unit := on_db (commit_entries l).

(** What [saveBlockToStateStore] does with the state store; [None] is a write set
    that cannot be visited. *)
Definition save_state (blockHeight : Z) (blockHash prevBlockHash hash : Uint256) (crossHashes : list Uint256)
    (crossStatesRoot : Uint256) (writeSet : option (list entry)) : SM unit :=
  wrap_err "AddBlockMerkleTreeRoot error " (AddStateMerkleTreeRoot blockHeight hash) ;;
  wrap_err "AddBlockMerkleTreeRoot error " (AddBlockMerkleTreeRoot prevBlockHash) ;;
  wrap_err "SaveCurrentBlock error " (SaveCurrentBlock blockHeight blockHash) ;;
  AddCrossStates blockHeight crossHashes crossStatesRoot ;;
  l ← of_option writeSet;
  write_entries l.

(** [GetCrossStatesProof] of the ledger store. *)
Definition GetCrossStatesProof (height : Z) (key : bytes) : SM bytes :=
  hashes ← wrap_err "GetCrossStates:" (GetCrossStates height);
  state ← (λ ss, match GetStorageValue key ss with
                 | (Err _, ss') => (Err "GetStorageState key"%string, ss')
                 | r => r
                 end);
  match MerkleLeafPath state hashes with Ok p => mret p | Err e => fail e | Panic => panic end.

End state_store.

(** ** Opening the store *)

Section open.
Context `{Hasher} `{PersistStore PS}.
Abbreviation SM := (M (StateStore PS fileHashStore)).

(** [treeSize, hashes, err := ...; if err != nil && err != ErrNotFound { return err }]. *)
Definition tree_or_empty (m : SM (Z * list Uint256)) : SM (Z * list Uint256) := λ ss,
  match m ss with
  | (Err e, ss') => if decide (e = ErrNotFound) then (Ok (0, []), ss') else (Err e, ss')
  | r => r
  end.

(** [init(currBlockHeight)]; [contents] is the file at [merklePath]. *)
Definition ss_init (contents : bytes) (currBlockHeight : Z) : SM unit :=
  '(treeSize, hashes) ← tree_or_empty GetBlockMerkleTree;
  if decide (0 < treeSize ∧ treeSize ≠ u32 (currBlockHeight + 1))
  then fail "merkle tree size is inconsistent with blockheight" else
  store ← of_option (NewFileHashStore contents treeSize);
  tree ← of_option (NewTree treeSize hashes (match store with Ok f => Some f | _ => None end));
  ss ← get_state;
  put_state (mkStateStore (ss_store ss) tree (deltaMerkleTree ss) (stateHashCheckHeight ss)) ;;
  if decide (stateHashCheckHeight ss ≤ currBlockHeight) then
    '(treeSize, hashes) ← tree_or_empty GetStateMerkleTree;
    if decide (0 < treeSize ∧ treeSize ≠ u32 (currBlockHeight - stateHashCheckHeight ss + 1))
    then fail "merkle tree size is inconsistent with blockheight" else
    delta ← of_option (NewTree treeSize hashes None);
    ss ← get_state;
    put_state (mkStateStore (ss_store ss) (merkleTree ss) (Some delta) (stateHashCheckHeight ss))
  else mret tt.

(** The empty tree that stands for the nil pointer until [ss_init]. *)
Definition no_tree : CompactMerkleTree fileHashStore := mkTree 0 [] None EMPTY_HASH 0.

(** [NewStateStore] on an open database. *)
Definition NewStateStore (store : PS) (contents : bytes) : res (StateStore PS fileHashStore) :=
  let ss := mkStateStore store no_tree None 0 in
  let height := match GetCurrentBlock ss with
                | (Ok (_, height), _) => Ok height
                | (Err e, _) => if decide (e = ErrNotFound) then Ok 0 else Err ("GetCurrentBlock error " +:+ e)
                | (Panic, _) => Panic
                end in
  match height with
  | Ok height =>
      match ss_init contents height ss with
      | (Ok _, ss') => Ok ss'
      | (Err e, _) => Err ("init error " +:+ e)
      | (Panic, _) => Panic
      end
  | Err e => Err e
  | Panic => Panic
  end.

End open.
