(* ===== verification/BlockStore.v ===== *)
(** * The block store
    (core/store/ledgerstore/block_store.go, block_cache.go)

    Headers, transactions, block hashes and the header index in a level db, with an
    ARC cache of blocks and one of transactions in front.  The cache of hashicorp's
    golang-lru is a parameter ([ARC]): a bounded map that may evict entries. *)

From S2P Require Import Prelude Sha256 TxRoot Sink Source ReadLocal Serialization BytesOrder MemDB OverlayDB CacheDB Contract MerkleSpec MerkleHasher Native ExCrypto Codec Types BlockBinding.

Class ARC (V C : Type) := {
  arc_New : C;
  arc_Add : Uint256 → V → C → C;
  arc_Get : Uint256 → C → option V * C;
  arc_Contains : Uint256 → C → bool;
  arc_map : C → gmap Uint256 V;
  arc_New_map : arc_map arc_New = ∅;
  arc_Add_map : ∀ k v c, arc_map (arc_Add k v c) ⊆ <[k := v]> (arc_map c);
  arc_Add_key : ∀ k v c, arc_map (arc_Add k v c) !! k = Some v;
  arc_Get_map : ∀ k c, ∃ c', arc_Get k c = (arc_map c !! k, c') ∧ arc_map c' = arc_map c;
  arc_Contains_map : ∀ k c, arc_Contains k c = bool_decide (is_Some (arc_map c !! k));
}.

Definition DATA_BLOCK : byte := byte_of_Z 0x00.
Definition DATA_HEADER : byte := byte_of_Z 0x01.
Definition DATA_TRANSACTION : byte := byte_of_Z 0x02.
Definition IX_HEADER_HASH_LIST : byte := byte_of_Z 0x09.
Definition BS_CURRENT_BLOCK : byte := byte_of_Z 0x10.
Definition SYS_VERSION : byte := byte_of_Z 0x11.

Definition getTransactionKey (txHash : Uint256) : bytes := DATA_TRANSACTION :: to_slice txHash.
Definition getHeaderKey (blockHash : Uint256) : bytes := DATA_HEADER :: to_slice blockHash.
Definition getBlockHashKey (height : Z) : bytes := DATA_BLOCK :: le_put 4 height.
Definition bs_getCurrentBlockKey : bytes := [BS_CURRENT_BLOCK].
Definition getVersionKey : bytes := [SYS_VERSION].
Definition getHeaderIndexListKey (startHeight : Z) : bytes := IX_HEADER_HASH_LIST :: Ser.WriteUint32 startHeight.

(** The result of a reader over the bytes. *)
Definition read_all {S A} (m : M bytes A) (data : bytes) : M S A := of_res (m data).1.

Definition getStartHeightByHeaderIndexKey {S} (key : bytes) : M S Z :=
  match key with
  | [] => panic
  | _ :: key' => read_all Ser.ReadUint32 key'
  end.

(** [common.Uint256ParseFromBytes]. *)
Definition Uint256ParseFromBytes (f : bytes) : res Uint256 :=
  if decide (blen f ≠ UINT256_SIZE) then Err "[Common]: Uint256ParseFromBytes err, len != 32" else Ok (copy_array 32 f).

Record BlockStore (PS CB CT : Type) := mkBlockStore {
  enableCache : bool;
  bs_blockCache : CB;
  bs_transactionCache : CT;
  bs_store : PS;
}.
Arguments mkBlockStore {PS CB CT}.
Arguments enableCache {PS CB CT}.
Arguments bs_blockCache {PS CB CT}.
Arguments bs_transactionCache {PS CB CT}.
Arguments bs_store {PS CB CT}.

Section block_store.
Context `{Hasher} `{Crypto} `{PersistStore PS} `{ARC Block CB} `{ARC (Transaction * Z) CT}.
Abbreviation BM := (M (BlockStore PS CB CT)).

Definition bs_on_db {A} (m : M PS A) : BM A := λ bs,
  let '(r, s) := m (bs_store bs) in
  (r, mkBlockStore (enableCache bs) (bs_blockCache bs) (bs_transactionCache bs) s).
Definition bs_get (key : bytes) : BM bytes := λ bs, (ps_Get key (bs_store bs), bs).
(** What the caches answer, or nothing if they are not used. *)
Definition on_blocks {A} (d : A) (f : CB → A * CB) : BM A := λ bs,
  if enableCache bs then
    let '(a, c) := f (bs_blockCache bs) in
    (Ok a, mkBlockStore (enableCache bs) c (bs_transactionCache bs) (bs_store bs))
  else (Ok d, bs).
Definition on_txs {A} (d : A) (f : CT → A * CT) : BM A := λ bs,
  if enableCache bs then
    let '(a, c) := f (bs_transactionCache bs) in
    (Ok a, mkBlockStore (enableCache bs) (bs_blockCache bs) c (bs_store bs))
  else (Ok d, bs).

(** block_cache.go *)
Definition cache_AddBlock (hash : Uint256) (block : Block) : BM unit := on_blocks tt (λ c, (tt, arc_Add hash block c)).
Definition cache_GetBlock (hash : Uint256) : BM (option Block) := on_blocks None (arc_Get hash).
Definition cache_ContainBlock (hash : Uint256) : BM bool := on_blocks false (λ c, (arc_Contains hash c, c)).
Definition cache_AddTransaction (tx : Transaction) (height : Z) : BM unit := on_txs tt (λ c, (tt, arc_Add (tx_hash tx) (tx, height) c)).
Definition cache_GetTransaction (hash : Uint256) : BM (option (Transaction * Z)) := on_txs None (arc_Get hash).
Definition cache_ContainTransaction (hash : Uint256) : BM bool := on_txs false (λ c, (arc_Contains hash c, c)).

Definition bs_NewBatch : BM unit := bs_on_db ps_NewBatch.
Definition bs_CommitTo : BM unit := bs_on_db ps_BatchCommit.

Definition SaveHeader (block : Block) : BM unit :=
  blockHash ← of_res (Block_Hash block);
  header ← of_res (Header_Serialization (blk_Header block));
  bs_on_db (ps_BatchPut (getHeaderKey blockHash)
    (enc_ops (header ++ [OpUint32 (u32 (blen (Transactions block)))] ++ (OpHash <$> (tx_hash <$> Transactions block))))).

Definition putTransaction (tx : Transaction) (height : Z) : BM unit :=
  bs_on_db (ps_BatchPut (getTransactionKey (tx_hash tx)) (Ser.WriteUint32 height ++ Raw tx)).
Definition SaveTransaction (tx : Transaction) (height : Z) : BM unit :=
  cache_AddTransaction tx height ;; putTransaction tx height.

Fixpoint save_txs (txs : list Transaction) (height : Z) : BM unit :=
  match txs with
  | [] => mret tt
  | tx :: txs' => SaveTransaction tx height ;; save_txs txs' height
  end.
Definition SaveBlock (block : Block) : BM unit :=
  bs ← get_state;
  (if enableCache bs then hash ← of_res (Block_Hash block); cache_AddBlock hash block else mret tt) ;;
  SaveHeader block ;;
  save_txs (Transactions block) (Height (blk_Header block)).

(** Whether the key is in the database. *)
Definition bs_has (key : bytes) : BM bool := λ bs,
  match ps_Get key (bs_store bs) with
  | Ok _ => (Ok true, bs)
  | Err e => if decide (e = ErrNotFound) then (Ok false, bs) else (Err e, bs)
  | Panic => (Panic, bs)
  end.
Definition ContainBlock (blockHash : Uint256) : BM bool :=
  cached ← cache_ContainBlock blockHash;
  if (cached : bool) then mret true else bs_has (getHeaderKey blockHash).
Definition ContainTransaction (txHash : Uint256) : BM bool :=
  cached ← cache_ContainTransaction txHash;
  if (cached : bool) then mret true else bs_has (getTransactionKey txHash).

Definition loadHeaderWithTx (blockHash : Uint256) : BM (Header * list Uint256) :=
  value ← bs_get (getHeaderKey blockHash);
  of_res ((header ← Header_Deserialization;
           txSize ← must "unexpected EOF" NextUint32;
           txHashes ← loopM txSize (must "unexpected EOF" NextHash);
           mret (header, txHashes)) (NewZeroCopySource value)).1.
Definition loadHeader (blockHash : Uint256) : BM Header :=
  value ← bs_get (getHeaderKey blockHash);
  of_res (Header_Deserialization (NewZeroCopySource value)).1.
Definition GetHeader (blockHash : Uint256) : BM Header :=
  block ← cache_GetBlock blockHash;
  match block with
  | Some block => mret (blk_Header block)
  | None => loadHeader blockHash
  end.

(** [GetTransaction] asks the cache, and [loadTransaction] asks it again. *)
Definition loadTransaction (txHash : Uint256) : BM (Transaction * Z) :=
  cached ← cache_GetTransaction txHash;
  match cached with
  | Some r => mret r
  | None =>
      value ← bs_get (getTransactionKey txHash);
      of_res ((height ← must "unexpected EOF" NextUint32;
               tx ← wrap_err "transaction deserialize error " Transaction_Deserialization;
               mret (tx, height)) (NewZeroCopySource value)).1
  end.
Definition GetTransaction (txHash : Uint256) : BM (Transaction * Z) :=
  cached ← cache_GetTransaction txHash;
  match cached with
  | Some r => mret r
  | None => loadTransaction txHash
  end.

Fixpoint get_txs (txHashes : list Uint256) : BM (list Transaction) :=
  match txHashes with
  | [] => mret []
  | txHash :: l =>
      '(tx, _) ← wrap_err "GetTransaction error " (GetTransaction txHash);
      txs ← get_txs l;
      mret (tx :: txs)
  end.
Definition GetBlock (blockHash : Uint256) : BM Block :=
  cached ← cache_GetBlock blockHash;
  match cached with
  | Some block => mret block
  | None =>
      '(header, txHashes) ← loadHeaderWithTx blockHash;
      txList ← get_txs txHashes;
      mret (mkBlock header txList)
  end.

Definition bs_GetCurrentBlock : BM (Uint256 * Z) :=
  data ← bs_get bs_getCurrentBlockKey;
  read_all (blockHash ← Uint256_Deserialize; height ← Ser.ReadUint32; mret (blockHash, height)) data.
Definition bs_SaveCurrentBlock (height : Z) (blockHash : Uint256) : BM unit :=
  bs_on_db (ps_BatchPut bs_getCurrentBlockKey (to_slice blockHash ++ Ser.WriteUint32 height)).

Definition GetBlockHash (height : Z) : BM Uint256 :=
  value ← bs_get (getBlockHashKey height);
  of_res (Uint256ParseFromBytes value).
Definition SaveBlockHash (height : Z) (blockHash : Uint256) : BM unit :=
  bs_on_db (ps_BatchPut (getBlockHashKey height) (to_slice blockHash)).

(** ** The header index *)

Definition SaveHeaderIndexList (startIndex : Z) (indexList : list Uint256) : BM unit :=
  bs_on_db (ps_BatchPut (getHeaderIndexListKey startIndex)
    (Ser.WriteUint32 (u32 (blen indexList)) ++ mjoin (to_slice <$> indexList))).

(** [count] hashes from [height] on; [length src] passes are enough, since a hash
    takes 32 bytes. *)
Fixpoint read_index (fuel : nat) (count height : Z) (result : gmap Z Uint256) : M bytes (gmap Z Uint256) :=
  if decide (count ≤ 0) then mret result else
  match fuel with
  | O => fail "blockHash.Deserialize error deserialize Uint256 error"
  | S fuel' =>
      blockHash ← wrap_err "blockHash.Deserialize error " Uint256_Deserialize;
      read_index fuel' (count - 1) (u32 (height + 1)) (<[height := blockHash]> result)
  end.
Fixpoint index_entries (l : list entry) (result : gmap Z Uint256) : BM (gmap Z Uint256) :=
  match l with
  | [] => mret result
  | (key, value) :: l' =>
      startCount ← wrap_err "getStartHeightByHeaderIndexKey error " (getStartHeightByHeaderIndexKey key);
      result ← read_all (count ← wrap_err "serialization.ReadUint32 count error " Ser.ReadUint32;
                         read_index (S (length value)) count startCount result) value;
      index_entries l' result
  end.
Definition GetHeaderIndexList : BM (gmap Z Uint256) :=
  bs ← get_state;
  l ← of_res (ps_Iter [IX_HEADER_HASH_LIST] (bs_store bs));
  index_entries l ∅.

(** ** Version and reset *)

Definition GetVersion : BM byte :=
  value ← bs_get getVersionKey;
  match value with
  | [] => fail "EOF"
  | b :: _ => mret b
  end.
Definition SaveVersion (ver : byte) : BM unit := bs_on_db (ps_Put getVersionKey [ver]).

Fixpoint delete_all (l : list entry) : BM unit :=
  match l with
  | [] => mret tt
  | (key, _) :: l' => bs_on_db (ps_BatchDelete key) ;; delete_all l'
  end.
Definition bs_ClearAll : BM unit :=
  bs_NewBatch ;;
  bs ← get_state;
  l ← of_res (ps_Iter [] (bs_store bs));
  delete_all l ;;
  bs_CommitTo.

End block_store.
