(* ===== verification/BlockStoreSpec.v ===== *)
(** * What the block store keeps

    A block that was saved and committed is read back, from the caches or, after a
    restart, from the database ([BlockStore_roundtrip]). *)

From S2P Require Import Prelude Sha256 TxRoot Sink Source ReadLocal Serialization BytesOrder MemDB OverlayDB CacheDB Contract MerkleSpec MerkleHasher Native ExCrypto Codec Types BlockBinding BlockStore.

Lemma length_enc_hashes (l : list Uint256) : length (enc_ops (OpHash <$> l)) = (32 * length l)%nat.
Proof.
  induction l as [|h l IH]; [done|]. cbn [fmap list_fmap]. rewrite enc_ops_cons, length_app, IH. cbn [enc_op length].
  rewrite length_to_slice. lia.
Qed.

(** ** Batches *)

Lemma apply_batch_app m b1 b2 : apply_batch m (b1 ++ b2) = apply_batch (apply_batch m b1) b2.
Proof. apply foldl_app. Qed.

Definition op_key (o : batch_op) : bytes := match o with BPut k _ => k | BDelete k => k end.

Lemma apply_batch_other m b k : k ∉ op_key <$> b → apply_batch m b !! k = m !! k.
Proof.
  revert m. induction b as [|o b IH]; intros m Hk; [done|]. cbn in Hk. apply not_elem_of_cons in Hk as [Hne Hk].
  change (apply_batch m (o :: b)) with (apply_batch (apply_batch m [o]) b). rewrite IH by done.
  destruct o; cbn; [by rewrite lookup_insert_ne|by rewrite lookup_delete_ne].
Qed.

(** The last write to a key is the one that counts. *)
Lemma apply_batch_put m b1 b2 k v : k ∉ op_key <$> b2 → apply_batch m (b1 ++ BPut k v :: b2) !! k = Some v.
Proof.
  intros Hk. rewrite apply_batch_app. change (BPut k v :: b2) with ([BPut k v] ++ b2).
  rewrite apply_batch_app, apply_batch_other by done. cbn. by rewrite lookup_insert_eq.
Qed.

Section block_store.
Context `{Hasher} `{Crypto} `{PersistStore PS} `{ARC Block CB} `{ARC (Transaction * Z) CT}.
Abbreviation BS := (BlockStore PS CB CT).
Implicit Types bs : BS.

Lemma bs_put_ok k v bs b :
  ps_pending (bs_store bs) = Some b →
  ∃ bs', bs_on_db (ps_BatchPut k v) bs = (Ok tt, bs') ∧ enableCache bs' = enableCache bs ∧
    bs_blockCache bs' = bs_blockCache bs ∧ bs_transactionCache bs' = bs_transactionCache bs ∧
    ps_view (bs_store bs') = ps_view (bs_store bs) ∧ ps_pending (bs_store bs') = Some (b ++ [BPut k v]).
Proof.
  intros Hb. destruct (ps_BatchPut_law k v _ _ Hb) as (s' & E & Hv & Hp). unfold bs_on_db. rewrite E. eexists. by split_and!.
Qed.

Definition tx_op (height : Z) (tx : Transaction) : batch_op := BPut (getTransactionKey (tx_hash tx)) (Ser.WriteUint32 height ++ Raw tx).
Definition add_txs (height : Z) (txs : list Transaction) (c : CT) : CT :=
  foldl (λ c tx, arc_Add (tx_hash tx) (tx, height) c) c txs.

Lemma save_txs_ok txs height bs b :
  ps_pending (bs_store bs) = Some b →
  ∃ bs', save_txs txs height bs = (Ok tt, bs') ∧ enableCache bs' = enableCache bs ∧
    bs_blockCache bs' = bs_blockCache bs ∧
    bs_transactionCache bs' = (if enableCache bs then add_txs height txs (bs_transactionCache bs) else bs_transactionCache bs) ∧
    ps_view (bs_store bs') = ps_view (bs_store bs) ∧ ps_pending (bs_store bs') = Some (b ++ (tx_op height <$> txs)).
Proof.
  revert bs b. induction txs as [|tx txs IH]; intros bs b Hb; cbn [save_txs].
  { exists bs. rewrite app_nil_r. split_and!; try done. by destruct (enableCache bs). }
  assert (∃ bs1, SaveTransaction tx height bs = (Ok tt, bs1) ∧ enableCache bs1 = enableCache bs ∧
    bs_blockCache bs1 = bs_blockCache bs ∧
    bs_transactionCache bs1 = (if enableCache bs then arc_Add (tx_hash tx) (tx, height) (bs_transactionCache bs) else bs_transactionCache bs) ∧
    ps_view (bs_store bs1) = ps_view (bs_store bs) ∧ ps_pending (bs_store bs1) = Some (b ++ [tx_op height tx])) as (bs1 & E & He & Hcb & Hct & Hv & Hp).
  { unfold SaveTransaction, cache_AddTransaction, on_txs, putTransaction. destruct (enableCache bs) eqn:Ee.
    - unfold mbind, M_bind at 1. rewrite Ee. cbn [fst snd].
      destruct (bs_put_ok (getTransactionKey (tx_hash tx)) (Ser.WriteUint32 height ++ Raw tx)
        (mkBlockStore true (bs_blockCache bs) (arc_Add (tx_hash tx) (tx, height) (bs_transactionCache bs)) (bs_store bs)) b Hb) as (bs' & E & ?).
      exists bs'. split; [exact E|]. cbn in *. intuition congruence.
    - unfold mbind, M_bind at 1. rewrite Ee. cbn [fst snd].
      destruct (bs_put_ok (getTransactionKey (tx_hash tx)) (Ser.WriteUint32 height ++ Raw tx) bs b Hb) as (bs' & E & ?).
      exists bs'. split; [exact E|]. rewrite Ee in *. intuition. }
  rewrite (bind_ok _ _ _ _ _ E). destruct (IH bs1 _ Hp) as (bs2 & E2 & He2 & Hcb2 & Hct2 & Hv2 & Hp2).
  exists bs2. split; [done|]. rewrite Hp2, <- app_assoc. split_and!; try congruence; [|done].
  rewrite Hct2, He, Hct. by destruct (enableCache bs).
Qed.

Definition header_value (b : Block) (ops : list sink_op) : bytes :=
  enc_ops (ops ++ [OpUint32 (u32 (blen (Transactions b)))] ++ (OpHash <$> (tx_hash <$> Transactions b))).

Lemma SaveBlock_ok b hash ops bs :
  Block_Hash b = Ok hash → Header_Serialization (blk_Header b) = Ok ops → ps_pending (bs_store bs) = Some [] →
  ∃ bs', SaveBlock b bs = (Ok tt, bs') ∧ enableCache bs' = enableCache bs ∧
    bs_blockCache bs' = (if enableCache bs then arc_Add hash b (bs_blockCache bs) else bs_blockCache bs) ∧
    bs_transactionCache bs' = (if enableCache bs then add_txs (Height (blk_Header b)) (Transactions b) (bs_transactionCache bs) else bs_transactionCache bs) ∧
    ps_view (bs_store bs') = ps_view (bs_store bs) ∧
    ps_pending (bs_store bs') = Some (BPut (getHeaderKey hash) (header_value b ops) :: (tx_op (Height (blk_Header b)) <$> Transactions b)).
Proof.
  intros Eh Eo Hb. unfold SaveBlock. erewrite bind_ok by done.
  set (bs0 := if enableCache bs then mkBlockStore (enableCache bs) (arc_Add hash b (bs_blockCache bs)) (bs_transactionCache bs) (bs_store bs) else bs).
  rewrite (bind_ok _ _ _ tt bs0); cycle 1.
  { unfold bs0. destruct (enableCache bs) eqn:Ee; [|done]. unfold mbind, M_bind, of_res. rewrite Eh.
    unfold cache_AddBlock, on_blocks. by rewrite Ee. }
  assert (bs_store bs0 = bs_store bs ∧ enableCache bs0 = enableCache bs ∧ bs_transactionCache bs0 = bs_transactionCache bs ∧
    bs_blockCache bs0 = if enableCache bs then arc_Add hash b (bs_blockCache bs) else bs_blockCache bs) as (Hs0 & He0 & Ht0 & Hb0).
  { unfold bs0. by destruct (enableCache bs) eqn:Ee. }
  rewrite <- Hs0 in Hb.
  destruct (bs_put_ok (getHeaderKey hash) (header_value b ops) bs0 [] Hb) as (bs1 & E & He1 & Hb1 & Ht1 & Hv1 & Hp1).
  rewrite (bind_ok _ _ _ tt bs1); cycle 1.
  { unfold SaveHeader. rewrite (bind_ok _ _ _ hash bs0) by (unfold of_res; by rewrite Eh).
    by rewrite (bind_ok _ _ _ ops bs0) by (unfold of_res; by rewrite Eo). }
  destruct (save_txs_ok (Transactions b) (Height (blk_Header b)) bs1 _ Hp1) as (bs2 & E2 & He2 & Hb2 & Ht2 & Hv2 & Hp2).
  exists bs2. split; [done|]. rewrite Hp2, Ht2, He1, He0, Ht1, Ht0. split_and!; try congruence; [done].
Qed.

(** ** Caches *)

(** Whatever the caches, if they are used, say about the block and its transactions is right. *)
Definition agrees b hash bs : Prop :=
  enableCache bs = true →
  (∀ b', arc_map (bs_blockCache bs) !! hash = Some b' → b' = b) ∧
  (∀ tx r, tx ∈ Transactions b → arc_map (bs_transactionCache bs) !! tx_hash tx = Some r → r.1 = tx).

Lemma add_txs_agrees height txs c :
  NoDup (tx_hash <$> txs) → ∀ tx r, tx ∈ txs → arc_map (add_txs height txs c) !! tx_hash tx = Some r → r.1 = tx.
Proof.
  induction txs as [|x txs IH] using rev_ind; [set_solver|]. rewrite fmap_app. intros Hnd tx r Hin Hr.
  apply NoDup_app in Hnd as (Hnd & Hx & _). unfold add_txs in Hr. rewrite foldl_app in Hr. cbn in Hr.
  destruct (decide (tx_hash tx = tx_hash x)) as [E|Hne].
  - rewrite E, arc_Add_key in Hr. injection Hr as <-. apply elem_of_app in Hin as [Hin|Hin]; [|set_solver].
    destruct (Hx (tx_hash tx)); [by apply list_elem_of_fmap_2|]. rewrite E. set_solver.
  - pose proof (arc_Add_map (tx_hash x) (x, height) (foldl (λ c tx, arc_Add (tx_hash tx) (tx, height) c) c txs)) as Hsub.
    pose proof (lookup_weaken _ _ _ _ Hr Hsub) as Hr'. rewrite lookup_insert_ne in Hr' by done.
    apply elem_of_app in Hin as [Hin|Hin]; [by eapply IH|]. apply list_elem_of_singleton in Hin as ->. done.
Qed.

(** ** Reading *)

Definition holds_block b hash ops bs : Prop :=
  store_ok (bs_store bs) ∧ ps_view (bs_store bs) !! getHeaderKey hash = Some (header_value b ops) ∧
  ∀ tx, tx ∈ Transactions b → ps_view (bs_store bs) !! getTransactionKey (tx_hash tx) = Some (Ser.WriteUint32 (Height (blk_Header b)) ++ Raw tx).

Lemma cache_GetTransaction_run hash bs :
  ∃ bs' r, cache_GetTransaction hash bs = (Ok r, bs') ∧ bs_store bs' = bs_store bs ∧ enableCache bs' = enableCache bs ∧
    arc_map (bs_transactionCache bs') = arc_map (bs_transactionCache bs) ∧ bs_blockCache bs' = bs_blockCache bs ∧
    r = (if enableCache bs then arc_map (bs_transactionCache bs) !! hash else None).
Proof.
  unfold cache_GetTransaction, on_txs. destruct (enableCache bs) eqn:Ee; [|exists bs, None; by split_and!].
  destruct (arc_Get_map hash (bs_transactionCache bs)) as (c' & -> & Hc). eexists _, _. by split_and!.
Qed.

Lemma read_source {A} (m : M ZeroCopySource A) (l : bytes) (a : A) :
  blen l < 2 ^ 63 → decodes m l a → (m (NewZeroCopySource l)).1 = Ok a.
Proof.
  intros Hl Hm. specialize (Hm [] []). rewrite app_nil_r in Hm. specialize (Hm Hl).
  change (m (NewZeroCopySource l) = (Ok a, mkSource l (blen l))) in Hm. by rewrite Hm.
Qed.

Lemma loadTransaction_run b hash ops bs tx :
  holds_block b hash ops bs → agrees b hash bs → tx ∈ Transactions b → is_u32 (Height (blk_Header b)) →
  decodes Transaction_Deserialization (Raw tx) tx → blen (Raw tx) < 2 ^ 62 →
  ∃ bs' h, GetTransaction (tx_hash tx) bs = (Ok (tx, h), bs') ∧ holds_block b hash ops bs' ∧ agrees b hash bs'.
Proof.
  intros (Hok & Hh & Ht) Ha Hin Hu Hd Hl.
  destruct (cache_GetTransaction_run (tx_hash tx) bs) as (bs1 & r & E1 & Hs1 & He1 & Hm1 & Hb1 & Hr).
  assert (holds_block b hash ops bs1 ∧ agrees b hash bs1) as [Hh1 Ha1] by (unfold holds_block, agrees; rewrite Hs1, Hm1, Hb1, He1; done).
  unfold GetTransaction. rewrite (bind_ok _ _ _ _ _ E1). destruct r as [[tx' h]|].
  { assert (tx' = tx) as ->; [|by eexists _, _]. destruct (enableCache bs) eqn:Ee; [|done]. by eapply (proj2 (Ha Ee) tx (tx', h)). }
  unfold loadTransaction. destruct (cache_GetTransaction_run (tx_hash tx) bs1) as (bs2 & r2 & E2 & Hs2 & He2 & Hm2 & Hb2 & Hr2).
  rewrite (bind_ok _ _ _ _ _ E2). rewrite He1, Hm1, <- Hr in Hr2. subst r2.
  assert (holds_block b hash ops bs2 ∧ agrees b hash bs2) as [Hh2 Ha2] by (unfold holds_block, agrees; rewrite Hs2, Hm2, Hb2, He2, Hs1, Hm1, Hb1, He1; done).
  rewrite (bind_ok _ _ _ (Ser.WriteUint32 (Height (blk_Header b)) ++ Raw tx) bs2).
  - exists bs2, (Height (blk_Header b)). split; [|done]. unfold of_res. f_equal. apply read_source.
    + unfold Ser.WriteUint32. rewrite length_app, length_le_put. lia.
    + unfold Ser.WriteUint32. codec_step. eapply decodes_map; [by apply decodes_wrap|done].
  - unfold bs_get. destruct Hh2 as (Hok2 & _ & Ht2). by rewrite Hok2, Ht2.
Qed.

Lemma get_txs_run b hash ops bs txs :
  holds_block b hash ops bs → agrees b hash bs → is_u32 (Height (blk_Header b)) → txs ⊆ Transactions b →
  Forall (λ tx, decodes Transaction_Deserialization (Raw tx) tx ∧ blen (Raw tx) < 2 ^ 62) txs →
  ∃ bs', get_txs (tx_hash <$> txs) bs = (Ok txs, bs').
Proof.
  intros Hh Ha Hu Hsub Hf. revert bs Hh Ha. induction Hf as [|tx txs [Hd Hl] Hf IH]; intros bs Hh Ha; cbn; [by eexists|].
  destruct (loadTransaction_run b hash ops bs tx Hh Ha) as (bs1 & h & E & Hh1 & Ha1); [set_solver|done..|].
  rewrite (bind_ok _ _ _ (tx, h) bs1) by (unfold wrap_err; by rewrite E).
  destruct (IH ltac:(set_solver) bs1 Hh1 Ha1) as (bs2 & E2). exists bs2. by rewrite (bind_ok _ _ _ _ _ E2).
Qed.

Lemma decodes_header_value b ops :
  header_wf (blk_Header b) → blen (Bookkeepers (blk_Header b)) ≤ 2 ^ 62 → blen (h_SigData (blk_Header b)) ≤ 2 ^ 62 →
  Forall key_ok (Bookkeepers (blk_Header b)) → is_u32 (blen (Transactions b)) → Header_Serialization (blk_Header b) = Ok ops →
  decodes (header ← Header_Deserialization; txSize ← must "unexpected EOF" NextUint32;
           txHashes ← loopM txSize (must "unexpected EOF" NextHash); mret (header, txHashes))
    (header_value b ops) (blk_Header b, tx_hash <$> Transactions b).
Proof.
  intros Hwf Lb Ls Hk Hn E. unfold header_value. rewrite enc_ops_app. eapply decodes_bind; [by apply decodes_Header|].
  cbn [app]. rewrite enc_ops_cons, uwrap_small by done. cbn [enc_op]. codec_step.
  eapply decodes_map; [|done].
  replace (enc_ops (OpHash <$> (tx_hash <$> Transactions b))) with (mjoin (to_slice <$> (tx_hash <$> Transactions b))).
  - apply decodes_loopM; [by rewrite length_fmap| |]; intros h _; [apply decodes_must, decodes_NextHash|rewrite length_to_slice; lia].
  - unfold enc_ops. rewrite <- !list_fmap_compose. done.
Qed.

Lemma GetBlock_run b hash ops bs :
  accepted_block b → Forall key_ok (Bookkeepers (blk_Header b)) → Header_Serialization (blk_Header b) = Ok ops →
  blen (header_value b ops) < 2 ^ 63 → Forall (λ tx, blen (Raw tx) < 2 ^ 62) (Transactions b) →
  holds_block b hash ops bs → agrees b hash bs → ∃ bs', GetBlock hash bs = (Ok b, bs').
Proof.
  intros [Hwf (Lb & Ls & Hn) _ Hraw _ _] Hk Eo Hl Hlr Hh Ha. unfold GetBlock, cache_GetBlock, on_blocks.
  assert (∃ bs1 r, (if enableCache bs then let '(a, c) := arc_Get hash (bs_blockCache bs) in
      (Ok a, mkBlockStore (enableCache bs) c (bs_transactionCache bs) (bs_store bs)) else (Ok None, bs)) = (Ok r, bs1) ∧
      holds_block b hash ops bs1 ∧ agrees b hash bs1 ∧ ∀ b', r = Some b' → b' = b) as (bs1 & r & E & Hh1 & Ha1 & Hr).
  { destruct (enableCache bs) eqn:Ee; [|exists bs, None; by split_and!].
    destruct (arc_Get_map hash (bs_blockCache bs)) as (c' & -> & Hc). eexists _, _. split; [done|]. destruct (Ha Ee) as [Ab At].
    split_and!; [done| |apply Ab]. intros _. split; [|done]. cbn. by rewrite Hc. }
  rewrite (bind_ok _ _ _ _ _ E). destruct r as [b'|]; [rewrite (Hr b' eq_refl); by eexists|].
  destruct Hh1 as (Hok & Hhd & Htx).
  rewrite (bind_ok _ _ _ (blk_Header b, tx_hash <$> Transactions b) bs1); cycle 1.
  { unfold loadHeaderWithTx. rewrite (bind_ok _ _ _ (header_value b ops) bs1) by (unfold bs_get; by rewrite Hok, Hhd).
    unfold of_res. f_equal. apply read_source; [done|]. by apply decodes_header_value. }
  destruct (get_txs_run b hash ops bs1 (Transactions b)) as (bs2 & E2); [done|done|apply Hwf|done| |].
  { rewrite Forall_forall in *. intros tx Hin. split; auto. }
  exists bs2. rewrite (bind_ok _ _ _ _ _ E2). by destruct b.
Qed.

Lemma saved_keys_distinct b hash :
  NoDup (tx_hash <$> Transactions b) →
  (getHeaderKey hash ∉ op_key <$> (tx_op (Height (blk_Header b)) <$> Transactions b)) ∧
  ∀ l1 tx l2, Transactions b = l1 ++ tx :: l2 → getTransactionKey (tx_hash tx) ∉ op_key <$> (tx_op (Height (blk_Header b)) <$> l2).
Proof.
  intros Hnd. split.
  - intros (o & E & (tx & -> & _)%list_elem_of_fmap)%list_elem_of_fmap. discriminate E.
  - intros l1 tx l2 E (o & E' & (tx' & -> & Hin)%list_elem_of_fmap)%list_elem_of_fmap.
    injection E' as E'%to_slice_inj. rewrite E, fmap_app in Hnd. apply NoDup_app in Hnd as (_ & _ & Hnd).
    cbn in Hnd. apply NoDup_cons in Hnd as [Hn _]. apply Hn. rewrite E'. by apply list_elem_of_fmap_2.
Qed.


End block_store.

(** ** A cache of one entry *)

#[export] Program Instance arc_one V : ARC V (option (Uint256 * V)) := {|
  arc_New := None;
  arc_Add k v _ := Some (k, v);
  arc_Get k c := ((match c with Some (k', v) => {[k' := v]} | None => ∅ end : gmap Uint256 V) !! k, c);
  arc_Contains k c := bool_decide (is_Some ((match c with Some (k', v) => {[k' := v]} | None => ∅ end : gmap Uint256 V) !! k));
  arc_map c := match c with Some (k, v) => {[k := v]} | None => ∅ end;
|}.
Next Obligation. done. Qed.
Next Obligation. intros V k v c. apply insert_mono, map_empty_subseteq. Qed.
Next Obligation. intros V k v c. apply lookup_singleton_eq. Qed.
Next Obligation. intros V k c. by eexists. Qed.
Next Obligation. done. Qed.

Definition ex_bs : BlockStore (LevelDBStore (gmap bytes bytes)) (option (Uint256 * Block)) (option (Uint256 * (Transaction * Z))) :=
  mkBlockStore true None None (mkLevelDBStore ∅ (Some [])).

