(* ===== verification/StateSpec.v ===== *)
(** * What the state store keeps

    The invariant [state_rep] ties the trees in memory, the frontiers in the
    database and the current block together.  Saving a block keeps it, a restart
    re-establishes it ([StateStore_restart]), and a value that a block's contracts
    exported has a proof against the block's cross-state root
    ([cross_state_proof]). *)

From S2P Require Import Prelude Sha256 TxRoot Sink Source ReadLocal Serialization BytesOrder MemDB OverlayDB CacheDB Contract MerkleUtil MerkleSpec MerkleHasher HashStore MerkleTree StateStore Native ExCrypto Codec Types BlockBinding BlockStore BlockStoreSpec.

Section state_spec.
Context `{Hasher} `{PersistStore PS}.
Abbreviation SS := (StateStore PS fileHashStore).
Implicit Types ss : SS.

(** The frontier of the tree over [D], as it is written. *)
Definition frontier (D : list Uint256) : bytes := enc_ops (OpUint32 (blen D) :: (OpHash <$> roots D)).

(** What the database holds after the blocks of [D], the last of which is [hash]. *)
Record db_rep (s : PS) (D W : list Uint256) (hash : Uint256) : Prop := {
  db_len : length W = length D;
  db_block_key : ps_view s !! genBlockMerkleTreeKey = if decide (D = []) then None else Some (frontier D);
  db_state_key : ps_view s !! genStateMerkleTreeKey = if decide (D = []) then None else Some (frontier W);
  db_current : ps_view s !! getCurrentBlockKey =
    if decide (D = []) then None else Some (to_slice hash ++ Ser.WriteUint32 (blen D - 1));
}.

Record state_rep ss (D W : list Uint256) (hash : Uint256) : Prop := {
  sr_tree : tree_ok (merkleTree ss) D;
  sr_file : is_Some (hashStore (merkleTree ss));
  sr_delta : ∃ t, deltaMerkleTree ss = Some t ∧ tree_ok t W ∧ hashStore t = None;
  sr_check : stateHashCheckHeight ss = 0;
  sr_db : db_rep (ss_store ss) D W hash;
}.

Lemma db_rep_view s s' D W hash : ps_view s' = ps_view s → db_rep s D W hash → db_rep s' D W hash.
Proof. intros Hv []. split; by rewrite ?Hv. Qed.

Lemma tree_ops_frontier (t : CompactMerkleTree fileHashStore) D : tree_ok t D → enc_ops (tree_ops t) = frontier D.
Proof. intros [Hsz _ Hh _ _]. unfold tree_ops, frontier. by rewrite Hsz, Hh. Qed.

(** ** Saving a block *)

Lemma ss_put_ok k v ss b :
  ps_pending (ss_store ss) = Some b →
  ∃ s', ss_BatchPutRawKeyVal k v ss = (Ok tt, mkStateStore s' (merkleTree ss) (deltaMerkleTree ss) (stateHashCheckHeight ss)) ∧
    ps_view s' = ps_view (ss_store ss) ∧ ps_pending s' = Some (b ++ [BPut k v]).
Proof.
  intros Hb. destruct (ps_BatchPut_law k v _ _ Hb) as (s' & E & Hv & Hp). exists s'.
  unfold ss_BatchPutRawKeyVal, on_db. rewrite E. done.
Qed.

Definition cross_ops (height : Z) (cross : list Uint256) (root : Uint256) : list batch_op :=
  if decide (cross = []) then []
  else [BPut (genCrossStatesKey height) (enc_ops (OpHash <$> cross)); BPut (genCrossStatesRootKey height) (to_slice root)].

(** Everything that saving a block puts into the batch. *)
Definition save_ops (height : Z) (blockHash wsHash : Uint256) (D W cross : list Uint256) (croot : Uint256) (writes : list entry) : list batch_op :=
  [BPut genStateMerkleTreeKey (frontier W);
   BPut (genStateMerkleRootKey height) (enc_ops [OpHash wsHash; OpHash (mth W)]);
   BPut genBlockMerkleTreeKey (frontier D);
   BPut getCurrentBlockKey (to_slice blockHash ++ Ser.WriteUint32 height)] ++
  cross_ops height cross croot ++ (entry_op <$> writes).

Lemma update_store `{HashStore St} n hs (t t' : CompactMerkleTree St) : update n hs t = Some t' → hashStore t' = hashStore t.
Proof. intros E. unfold update in E. by case_decide; simplify_eq. Qed.

Lemma NewTree_empty : ∃ t, NewTree 0 [] (None : option fileHashStore) = Some t ∧ tree_ok t [] ∧ hashStore t = None.
Proof.
  destruct (update_ok (mkTree 0 [] None EMPTY_HASH 0 : CompactMerkleTree fileHashStore) []) as (t & E & Hok); [done|done|].
  exists t. split; [done|]. split; [done|]. by apply update_store in E.
Qed.

(** The write-set hashes after the first [height] blocks: the tree starts at the
    height from which it is checked. *)
Definition from_height (height : Z) (W : list Uint256) : list Uint256 := if decide (height = 0) then [] else W.

Lemma from_height_rep ss D W hash : state_rep ss D W hash → from_height (blen D) W = W.
Proof.
  intros [_ _ _ _ [Hlen _ _ _]]. unfold from_height. case_decide; [|done]. destruct W; [done|]. cbn in Hlen. lia.
Qed.

Lemma AddStateMerkleTreeRoot_ok ss D W hash height wsHash b :
  state_rep ss D W hash → 0 ≤ height → blen D + 1 < 2 ^ 32 → ps_pending (ss_store ss) = Some b →
  let W' := from_height height W ++ [hash_leaf (to_slice wsHash)] in
  ∃ s' t, AddStateMerkleTreeRoot height wsHash ss = (Ok tt, mkStateStore s' (merkleTree ss) (Some t) 0) ∧
    tree_ok t W' ∧ hashStore t = None ∧ ps_view s' = ps_view (ss_store ss) ∧
    ps_pending s' = Some (b ++ [BPut genStateMerkleTreeKey (frontier W');
      BPut (genStateMerkleRootKey height) (enc_ops [OpHash wsHash; OpHash (mth W')])]).
Proof.
  intros [_ _ (t0 & Ed & Hok0 & Hs0) Hc [Hlen _ _ _]] Hh HD Hb W'. unfold AddStateMerkleTreeRoot. erewrite bind_ok by done. rewrite Hc.
  rewrite decide_False by lia.
  assert (∃ t1, (if decide (height = 0) then NewTree 0 [] None else deltaMerkleTree ss) = Some t1 ∧ tree_ok t1 (from_height height W) ∧ hashStore t1 = None)
    as (t1 & -> & Hok1 & Hs1) by (unfold from_height; case_decide; [apply NewTree_empty|by exists t0]).
  erewrite bind_ok by done.
  destruct (appendHash_ok t1 (from_height height W) (hash_leaf (to_slice wsHash)) Hok1) as (t2 & E2 & Hok2 & Hs2);
    [unfold from_height; case_decide; cbn; lia|]. fold W' in Hok2.
  unfold Append. rewrite E2. erewrite bind_ok by done. cbn beta iota zeta. erewrite bind_ok by done.
  destruct (ss_put_ok genStateMerkleTreeKey (enc_ops (tree_ops t2)) (mkStateStore (ss_store ss) (merkleTree ss) (Some t2) 0) b Hb) as (s3 & E3 & Hv3 & Hp3).
  rewrite (bind_ok _ _ _ _ _ E3). destruct (Root_ok t2 _ Hok2) as (t4 & E4 & Hok4). rewrite E4. erewrite bind_ok by done. cbn beta iota zeta.
  erewrite bind_ok by done. erewrite bind_ok by done. cbn [ss_store merkleTree stateHashCheckHeight].
  destruct (ss_put_ok (genStateMerkleRootKey height) (enc_ops [OpHash wsHash; OpHash (mth W')])
    (mkStateStore s3 (merkleTree ss) (Some t4) 0) _ Hp3) as (s5 & E5 & Hv5 & Hp5).
  exists s5, t4. rewrite E5. split_and!; [done|done| |cbn in *; congruence|].
  - unfold Root in E4. case_decide; [|by simplify_eq; apply Hs2].
    destruct (if decide (blen (hashes t2) ≠ 0) then hash_fold (hashes t2) else Some hash_empty); simplify_eq/=. by apply Hs2.
  - rewrite Hp5, (tree_ops_frontier _ _ Hok2), <- app_assoc. done.
Qed.

Lemma AddBlockMerkleTreeRoot_ok ss D prev b :
  tree_ok (merkleTree ss) D → is_Some (hashStore (merkleTree ss)) → blen D + 1 < 2 ^ 32 → ps_pending (ss_store ss) = Some b →
  ∃ s' t, AddBlockMerkleTreeRoot prev ss = (Ok tt, mkStateStore s' t (deltaMerkleTree ss) (stateHashCheckHeight ss)) ∧
    tree_ok t (D ++ [hash_leaf (to_slice prev)]) ∧ is_Some (hashStore t) ∧ ps_view s' = ps_view (ss_store ss) ∧
    ps_pending s' = Some (b ++ [BPut genBlockMerkleTreeKey (frontier (D ++ [hash_leaf (to_slice prev)]))]).
Proof.
  intros Hok Hf HD Hb. unfold AddBlockMerkleTreeRoot. erewrite bind_ok by done.
  destruct (appendHash_ok _ _ (hash_leaf (to_slice prev)) Hok HD) as (t & E & Hok' & Hs). unfold Append. rewrite E.
  erewrite bind_ok by done. cbn beta iota zeta. erewrite bind_ok by done.
  destruct (ss_put_ok genBlockMerkleTreeKey (enc_ops (tree_ops t)) (mkStateStore (ss_store ss) t (deltaMerkleTree ss) (stateHashCheckHeight ss)) b Hb)
    as (s' & E' & Hv & Hp).
  exists s', t. rewrite E', Hp, (tree_ops_frontier _ _ Hok'). split_and!; try done.
  destruct (hashStore t) eqn:Et; [done|]. destruct Hf as [x Hx]. rewrite (proj1 Hs) in Hx by done. done.
Qed.

Lemma AddCrossStates_ok ss height cross croot b :
  ps_pending (ss_store ss) = Some b →
  ∃ s', AddCrossStates height cross croot ss = (Ok tt, mkStateStore s' (merkleTree ss) (deltaMerkleTree ss) (stateHashCheckHeight ss)) ∧
    ps_view s' = ps_view (ss_store ss) ∧ ps_pending s' = Some (b ++ cross_ops height cross croot).
Proof.
  intros Hb. unfold AddCrossStates, cross_ops. destruct cross as [|c cross].
  - exists (ss_store ss). rewrite app_nil_r. by destruct ss.
  - rewrite decide_False by (cbn; lia). rewrite decide_False by done.
    destruct (ss_put_ok (genCrossStatesKey height) (enc_ops (OpHash <$> c :: cross)) ss b Hb) as (s1 & E1 & Hv1 & Hp1).
    rewrite (bind_ok _ _ _ _ _ E1).
    destruct (ss_put_ok (genCrossStatesRootKey height) (to_slice croot) (mkStateStore s1 (merkleTree ss) (deltaMerkleTree ss) (stateHashCheckHeight ss)) _ Hp1)
      as (s2 & E2 & Hv2 & Hp2).
    exists s2. rewrite E2, Hp2, <- app_assoc. split_and!; [done|cbn in *; congruence|done].
Qed.

Lemma wrap_err_ok {S A} p (m : M S A) s a s' : m s = (Ok a, s') → wrap_err p m s = (Ok a, s').
Proof. intros E. unfold wrap_err. by rewrite E. Qed.

(** The leaves after a block. *)
Abbreviation next D prev := (D ++ [hash_leaf (to_slice prev)]).

Lemma save_state_ok ss D W hash height blockHash prev ws cross croot writes b :
  state_rep ss D W hash → 0 ≤ height → blen D + 1 < 2 ^ 32 → ps_pending (ss_store ss) = Some b →
  let W' := from_height height W in
  ∃ s' t d, save_state height blockHash prev ws cross croot (Some writes) ss = (Ok tt, mkStateStore s' t (Some d) 0) ∧
    tree_ok t (next D prev) ∧ is_Some (hashStore t) ∧ tree_ok d (next W' ws) ∧ hashStore d = None ∧
    ps_view s' = ps_view (ss_store ss) ∧
    ps_pending s' = Some (b ++ save_ops height blockHash ws (next D prev) (next W' ws) cross croot writes).
Proof.
  intros Hrep Hh HD Hb W'. unfold save_state.
  destruct (AddStateMerkleTreeRoot_ok ss D W hash height ws b Hrep Hh HD Hb) as (s1 & d & E1 & Hd & Hds & Hv1 & Hp1).
  rewrite (bind_ok _ _ _ _ _ (wrap_err_ok _ _ _ _ _ E1)).
  destruct (AddBlockMerkleTreeRoot_ok (mkStateStore s1 (merkleTree ss) (Some d) 0) D prev _ (sr_tree _ _ _ _ Hrep) (sr_file _ _ _ _ Hrep) HD Hp1)
    as (s2 & t & E2 & Ht & Hts & Hv2 & Hp2).
  rewrite (bind_ok _ _ _ _ _ (wrap_err_ok _ _ _ _ _ E2)). cbn [deltaMerkleTree stateHashCheckHeight].
  destruct (ss_put_ok getCurrentBlockKey (to_slice blockHash ++ Ser.WriteUint32 height) (mkStateStore s2 t (Some d) 0) _ Hp2) as (s3 & E3 & Hv3 & Hp3).
  rewrite (bind_ok _ _ _ _ _ (wrap_err_ok _ _ _ _ _ E3)).
  destruct (AddCrossStates_ok (mkStateStore s3 t (Some d) 0) height cross croot _ Hp3) as (s4 & E4 & Hv4 & Hp4).
  rewrite (bind_ok _ _ _ _ _ E4). erewrite bind_ok by done. unfold write_entries, on_db.
  destruct (commit_entries_ok writes s4 _ Hp4) as (s5 & E5 & Hv5 & Hp5). exists s5, t, d.
  cbn [ss_store merkleTree deltaMerkleTree stateHashCheckHeight] in *. rewrite E5.
  split_and!; try done; [congruence|]. rewrite Hp5. unfold save_ops. by rewrite <- !app_assoc.
Qed.

(** ** The view after the commit *)

Definition is_storage (e : entry) : Prop := head e.1 = Some ST_STORAGE.

Lemma storage_keys writes k : Forall is_storage writes → head k ≠ Some ST_STORAGE → k ∉ op_key <$> (entry_op <$> writes).
Proof.
  intros Hw Hk. rewrite <- list_fmap_compose. intros ([k' v] & -> & Hin)%list_elem_of_fmap.
  rewrite Forall_forall in Hw. apply Hw in Hin. apply Hk. rewrite <- Hin. cbn. unfold entry_op. by case_decide.
Qed.

Lemma cross_keys height cross croot k :
  head k ≠ Some SYS_CROSS_STATES → head k ≠ Some SYS_CROSS_STATES_HASH → k ∉ op_key <$> cross_ops height cross croot.
Proof.
  intros H1 H2. unfold cross_ops. case_decide; [apply not_elem_of_nil|].
  cbn. rewrite !elem_of_cons. intros [->|[->|?%not_elem_of_nil]]; done.
Qed.

Lemma save_ops_view m height blockHash ws D W cross croot writes :
  Forall is_storage writes →
  let m' := apply_batch m (save_ops height blockHash ws D W cross croot writes) in
  m' !! genStateMerkleTreeKey = Some (frontier W) ∧ m' !! genBlockMerkleTreeKey = Some (frontier D) ∧
  m' !! getCurrentBlockKey = Some (to_slice blockHash ++ Ser.WriteUint32 height).
Proof.
  intros Hw m'. subst m'. unfold save_ops. rewrite !apply_batch_app.
  split_and!; rewrite apply_batch_other by (by apply storage_keys); rewrite apply_batch_other by (by apply cross_keys); cbn [apply_batch foldl];
    by simplify_map_eq.
Qed.

Lemma stored_bytes f D D' :
  hs_wf f → hs_view f = stored (D ++ D') → ∃ junk, file_data f = hashes_bytes (stored D) ++ junk.
Proof.
  intros Hwf Hv. destruct (stored_prefix D D') as [new Hnew]. rewrite Hnew in Hv. apply (file_data_view f (stored D ++ new)) in Hwf; [|done].
  rewrite hashes_bytes_app in Hwf. destruct Hwf as [junk ->]. rewrite <- app_assoc. eauto.
Qed.

(** ** Opening the store *)

Lemma enc_hashes_bytes l : enc_ops (OpHash <$> l) = hashes_bytes l.
Proof. induction l as [|h l IH]; [done|]. change (enc_ops (OpHash <$> h :: l)) with (to_slice h ++ enc_ops (OpHash <$> l)). by rewrite IH. Qed.

Lemma frontier_bytes D : frontier D = le_put 4 (blen D) ++ hashes_bytes (roots D).
Proof. unfold frontier. change (enc_ops (?o :: ?l)) with (enc_op o ++ enc_ops l). by rewrite enc_hashes_bytes. Qed.

Lemma getMerkleTree_frontier key ss D :
  blen D < 2 ^ 32 → store_ok (ss_store ss) → ps_view (ss_store ss) !! key = (if decide (D = []) then None else Some (frontier D)) →
  tree_or_empty (getMerkleTree key) ss = (Ok (blen D, roots D), ss).
Proof.
  intros HD Hr Hk. unfold tree_or_empty, getMerkleTree, db_get.
  case_decide as E; [subst D; erewrite bind_err by (rewrite Hr, Hk; done); by rewrite decide_True|].
  erewrite bind_ok by (rewrite Hr, Hk; done). rewrite frontier_bytes, (reads_ReadUint32 (blen D)) by (split; lia). cbv zeta.
  replace (Z.to_nat _) with (length (roots D)); [by rewrite parse_hashes_bytes|].
  rewrite length_app, length_hashes_bytes, length_le_put. change UINT256_SIZE with 32.
  rewrite Z.quot_div_nonneg by lia. replace (_ - 4) with (Z.of_nat (length (roots D)) * 32) by lia.
  rewrite Z.div_mul by lia. lia.
Qed.

Lemma ss_init_ok contents ss D W :
  blen D < 2 ^ 31 → length W = length D → store_ok (ss_store ss) → stateHashCheckHeight ss = 0 →
  ps_view (ss_store ss) !! genBlockMerkleTreeKey = (if decide (D = []) then None else Some (frontier D)) →
  ps_view (ss_store ss) !! genStateMerkleTreeKey = (if decide (D = []) then None else Some (frontier W)) →
  (∃ junk, contents = hashes_bytes (stored D) ++ junk) →
  ∃ t d, ss_init contents (Z.max 0 (blen D - 1)) ss = (Ok tt, mkStateStore (ss_store ss) t (Some d) 0) ∧
    tree_ok t D ∧ is_Some (hashStore t) ∧ tree_ok d W ∧ hashStore d = None.
Proof.
  intros HD HW Hr Hc Hb Hs [junk ->]. unfold ss_init, GetBlockMerkleTree, GetStateMerkleTree.
  rewrite (bind_ok _ _ _ _ _ (getMerkleTree_frontier _ ss D ltac:(lia) Hr Hb)). cbn beta iota.
  rewrite decide_False by (unfold u32, uwrap; rewrite Z.mod_small; lia).
  destruct (NewFileHashStore_recovers D junk HD) as (f & -> & Hf). erewrite bind_ok by done. unfold NewTree.
  destruct (update_ok (mkTree 0 [] (Some f) EMPTY_HASH 0) D) as (t & Et & Ht); [lia|cbn; intros ? [= <-]; done|].
  rewrite Et. erewrite bind_ok by done. erewrite bind_ok by done. erewrite bind_ok by done. rewrite Hc.
  rewrite decide_True by lia.
  erewrite bind_ok; [|apply (getMerkleTree_frontier _ _ W); cbn; [lia|done|]].
  2:{ rewrite Hs. clear -HW. destruct D, W; try done; by rewrite !decide_False. }
  cbn beta iota. rewrite decide_False by (unfold u32, uwrap; rewrite Z.mod_small; lia).
  destruct (update_ok (mkTree 0 [] (None : option fileHashStore) EMPTY_HASH 0) W) as (d & Ed & Hd); [lia|done|].
  rewrite Ed. erewrite bind_ok by done. erewrite bind_ok by done. exists t, d. split; [done|].
  apply update_store in Et, Ed. rewrite Et, Ed. done.
Qed.

Lemma GetCurrentBlock_ok ss (D : list Uint256) (hash : Uint256) :
  blen D < 2 ^ 32 → store_ok (ss_store ss) →
  ps_view (ss_store ss) !! getCurrentBlockKey = (if decide (D = []) then None else Some (to_slice hash ++ Ser.WriteUint32 (blen D - 1))) →
  GetCurrentBlock ss = (if decide (D = []) then Err ErrNotFound else Ok (hash, blen D - 1), ss).
Proof.
  intros HD Hr Hk. unfold GetCurrentBlock, db_get.
  case_decide as E; [by erewrite bind_err by (rewrite Hr, Hk; done)|].
  erewrite bind_ok by (rewrite Hr, Hk; done).
  assert (0 < length D)%nat by (destruct D; [done|cbn; lia]).
  erewrite bind_ok by apply reads_Uint256.
  erewrite bind_ok; [|rewrite <- (app_nil_r (Ser.WriteUint32 _)); apply reads_ReadUint32; split; lia].
  done.
Qed.

(** What is in the database and in the file is enough to open the store. *)
Lemma NewStateStore_ok D W hash s contents :
  db_rep s D W hash → blen D < 2 ^ 31 → store_ok s →
  (∃ junk, contents = hashes_bytes (stored D) ++ junk) →
  ∃ ss', NewStateStore s contents = Ok ss' ∧ ss_store ss' = s ∧ state_rep ss' D W hash.
Proof.
  intros Hdb HD Hr Hf. destruct Hdb as [Hlen Hb Hs Hc] eqn:Edb. clear Edb.
  destruct (ss_init_ok contents (mkStateStore s no_tree None 0) D W HD Hlen Hr eq_refl Hb Hs Hf) as (t & d & E & Ht & Hts & Hd & Hds).
  exists (mkStateStore s t (Some d) 0). split; [|split; [done|split; try done; by eauto]].
  unfold NewStateStore. rewrite (GetCurrentBlock_ok (mkStateStore s no_tree None 0) D hash) by (try done; lia).
  case_decide as E0.
  - rewrite decide_True by done. subst D. change (Z.max 0 _) with 0 in E. by rewrite E.
  - assert (0 < length D)%nat by (destruct D; [done|cbn; lia]). rewrite Z.max_r in E by lia. by rewrite E.
Qed.

(** ** The claims *)

(** A block of the state store: batch, save, commit. *)
Definition commit_state (height : Z) (blockHash prev ws : Uint256) (cross : list Uint256) (croot : Uint256) (writes : list entry) : M SS unit :=
  ss_NewBatch ;; save_state height blockHash prev ws cross croot (Some writes) ;; ss_CommitTo.

Lemma commit_state_ok ss D W hash height blockHash prev ws cross croot writes :
  state_rep ss D W hash → 0 ≤ height → blen D + 1 < 2 ^ 32 →
  let W' := from_height height W in
  ∃ r s' t d, commit_state height blockHash prev ws cross croot writes ss = (r, mkStateStore s' t (Some d) 0) ∧
    tree_ok t (next D prev) ∧ is_Some (hashStore t) ∧ tree_ok d (next W' ws) ∧ hashStore d = None ∧
    (r = Ok tt ∧ ps_view s' = apply_batch (ps_view (ss_store ss)) (save_ops height blockHash ws (next D prev) (next W' ws) cross croot writes) ∨
     (∃ e, r = Err e) ∧ ps_view s' = ps_view (ss_store ss)).
Proof.
  intros Hrep Hh HD W'. unfold commit_state, ss_NewBatch. destruct (ps_NewBatch_law (ss_store ss)) as (s1 & E1 & Hv1 & Hp1).
  set (ss1 := mkStateStore s1 (merkleTree ss) (deltaMerkleTree ss) (stateHashCheckHeight ss)).
  rewrite (bind_ok _ _ _ tt ss1) by (unfold on_db; by rewrite E1).
  assert (state_rep ss1 D W hash) as Hrep1.
  { destruct Hrep as [??? ? Hdb]. split; try done. by apply (db_rep_view (ss_store ss)). }
  destruct (save_state_ok ss1 D W hash height blockHash prev ws cross croot writes [] Hrep1 Hh HD Hp1)
    as (s2 & t & d & E2 & Ht & Hts & Hd & Hds & Hv2 & Hp2).
  rewrite (bind_ok _ _ _ _ _ E2). unfold ss_CommitTo, on_db. cbn [ss_store merkleTree deltaMerkleTree stateHashCheckHeight] in *.
  destruct (ps_BatchCommit_law s2 _ Hp2) as [(s3 & -> & Hv3)|(e & s3 & -> & Hv3)]; eexists _, s3, t, d; (split; [done|]); split_and!; try done; [left|right; split; [by eauto|]]; cbn in *; rewrite Hv3, Hv2, ?Hv1; done.
Qed.

(** A block that was committed is represented. *)
Lemma commit_state_rep ss D W hash blockHash prev ws cross croot writes ss' :
  state_rep ss D W hash → blen D + 1 < 2 ^ 32 → Forall is_storage writes →
  commit_state (blen D) blockHash prev ws cross croot writes ss = (Ok tt, ss') →
  state_rep ss' (next D prev) (next W ws) blockHash ∧
  ps_view (ss_store ss') = apply_batch (ps_view (ss_store ss)) (save_ops (blen D) blockHash ws (next D prev) (next W ws) cross croot writes).
Proof.
  intros Hrep HD Hw E. destruct (commit_state_ok ss D W hash (blen D) blockHash prev ws cross croot writes Hrep)
    as (r & s' & t & d & E' & Ht & Hts & Hd & Hds & [[-> Hv]|[[e ->] _]]); [lia|done|..]; rewrite E' in E; simplify_eq.
  rewrite (from_height_rep _ _ _ _ Hrep) in Hd, Hv.
  destruct (save_ops_view (ps_view (ss_store ss)) (blen D) blockHash ws (next D prev) (next W ws) cross croot writes Hw) as (V1 & V2 & V3).
  split; [|done]. split; [done|done|by eauto|done|]. split; cbn [ss_store]; rewrite ?Hv, ?decide_False by (by intros []%app_nil); [|done..|].
  - rewrite !length_app. f_equal. apply Hrep.
  - rewrite V3, length_app. cbn [length]. by replace (Z.of_nat (length D + 1) - 1) with (blen D) by lia.
Qed.

(** C9 (a block is saved whole or not at all, and a restart restores the state).
    From a store that represents the block hashes [D] and the write-set hashes
    [W], saving the next block and committing either succeeds, and the store
    represents them with the block's hashes added, or the commit fails and the
    database is unchanged.  In both cases opening the store again, from the
    database and from the hash file as the trees in memory left it, gives a store
    that represents exactly what was committed: hashes that were appended to the
    file for a block that was not committed are dropped. *)
Theorem StateStore_restart ss D W hash blockHash prev ws cross croot writes :
  state_rep ss D W hash → blen D + 1 < 2 ^ 31 → Forall is_storage writes →
  ∃ r ss' f D' W' hash', commit_state (blen D) blockHash prev ws cross croot writes ss = (r, ss') ∧
    hashStore (merkleTree ss') = Some f ∧
    (r = Ok tt ∧ (D', W', hash') = (next D prev, next W ws, blockHash) ∧ state_rep ss' D' W' hash' ∨
     (∃ e, r = Err e) ∧ (D', W', hash') = (D, W, hash) ∧ ps_view (ss_store ss') = ps_view (ss_store ss)) ∧
    (store_ok (ss_store ss') →
      ∃ ss2, NewStateStore (ss_store ss') (file_data f) = Ok ss2 ∧ ss_store ss2 = ss_store ss' ∧ state_rep ss2 D' W' hash').
Proof.
  intros Hrep HD Hw. destruct (commit_state_ok ss D W hash (blen D) blockHash prev ws cross croot writes Hrep)
    as (r & s' & t & d & E & Ht & [f Hf] & Hd & Hds & Hcase); [lia..|]. rewrite (from_height_rep _ _ _ _ Hrep) in Hd, Hcase.
  exists r, (mkStateStore s' t (Some d) 0), f. destruct (ok_store _ _ Ht f Hf) as [Hfw Hfv].
  destruct Hcase as [[-> Hv]|[Hr Hv]].
  - exists (next D prev), (next W ws), blockHash.
    destruct (commit_state_rep _ _ _ _ _ _ _ _ _ _ _ Hrep ltac:(lia) Hw E) as [Hrep' _].
    split; [done|]. split; [done|]. split; [by left|]. intros Hr.
    apply NewStateStore_ok; [apply Hrep'|rewrite length_app; cbn; lia|done|].
    apply (stored_bytes f _ []); [done|by rewrite app_nil_r].
  - exists D, W, hash. split; [done|]. split; [done|]. split; [by right|]. intros Hro.
    apply NewStateStore_ok; [eapply db_rep_view, Hrep; done|lia|done|]. by apply (stored_bytes f _ [hash_leaf (to_slice prev)]).
Qed.

(** ** Proofs of exported values *)

Lemma decodes_read_hashes l : decodes (read_hashes (length l)) (hashes_bytes l) l.
Proof.
  induction l as [|h l IH]; [apply decodes_ret|]. cbn [length read_hashes].
  change (hashes_bytes (h :: l)) with (to_slice h ++ hashes_bytes l).
  eapply decodes_must_bind; [apply decodes_NextHash|]. by eapply decodes_map.
Qed.

Lemma GetCrossStates_ok ss height cross :
  store_ok (ss_store ss) → 32 * blen cross < 2 ^ 63 → ps_view (ss_store ss) !! genCrossStatesKey height = Some (enc_ops (OpHash <$> cross)) →
  GetCrossStates height ss = (Ok cross, ss).
Proof.
  intros Hr Hl Hk. unfold GetCrossStates, db_get. erewrite bind_ok by (rewrite Hr, Hk; done).
  rewrite enc_hashes_bytes, length_hashes_bytes. change UINT256_SIZE with 32. rewrite Z.quot_div_nonneg by lia.
  replace (Z.to_nat _) with (length cross) by (rewrite Nat2Z.inj_mul, Z.mul_comm, Z.div_mul; lia).
  pose proof (decodes_read_hashes cross [] []) as E. cbn [app] in E. rewrite app_nil_r in E.
  unfold NewZeroCopySource. change 0 with (blen (@nil byte)). rewrite E; [done|]. rewrite length_hashes_bytes. lia.
Qed.

Lemma GetStorageValue_ok ss key v :
  store_ok (ss_store ss) → blen v < 2 ^ 63 → ps_view (ss_store ss) !! (ST_STORAGE :: key) = Some (GenRawStorageItem v) →
  GetStorageValue key ss = (Ok v, ss).
Proof.
  intros Hr Hl Hk. unfold GetStorageValue, db_get. erewrite bind_ok by (rewrite Hr, Hk; done).
  pose proof (storage_item_roundtrip v Hl) as E. unfold GetValueFromRawStorageItem in E.
  destruct (StorageItem_Deserialize (GenRawStorageItem v)) as [[] ?]; by simplify_eq.
Qed.

Lemma GetCrossStateRoot_ok ss height root :
  store_ok (ss_store ss) → ps_view (ss_store ss) !! genCrossStatesRootKey height = Some (to_slice root) →
  GetCrossStateRoot height ss = (Ok root, ss).
Proof.
  intros Hr Hk. unfold GetCrossStateRoot. rewrite Hr, Hk. pose proof (reads_Uint256 root []) as E.
  rewrite app_nil_r in E. by rewrite E.
Qed.

Lemma save_ops_exports m height blockHash ws D W cross croot writes key raw :
  sorted_entries writes → Forall is_storage writes → cross ≠ [] → raw ≠ [] → (ST_STORAGE :: key, raw) ∈ writes →
  let m' := apply_batch m (save_ops height blockHash ws D W cross croot writes) in
  m' !! genCrossStatesKey height = Some (enc_ops (OpHash <$> cross)) ∧
  m' !! genCrossStatesRootKey height = Some (to_slice croot) ∧ m' !! (ST_STORAGE :: key) = Some raw.
Proof.
  intros Hs Hw Hc Hraw Hin m'. subst m'. unfold save_ops, cross_ops. rewrite !apply_batch_app. rewrite decide_False by done. split_and!.
  1,2: rewrite apply_batch_other by (by apply storage_keys); cbn [apply_batch foldl]; by simplify_map_eq.
  apply (to_gmap_lookup _ _ _ Hs) in Hin. rewrite apply_batch_lookup, Hin by done. by rewrite decide_False by (by destruct raw).
Qed.

(** C37 (a committed export can be proved).  When a block whose contracts exported
    the value [v] (its leaf hash is among the block's cross-state hashes, and the
    value is among the block's writes under [key]) is committed, then
    [GetCrossStatesProof] returns a path for [key], and a verifier who holds the
    cross-state root that the store keeps for the block accepts it and gets [v]. *)
Theorem cross_state_proof ss D W hash blockHash prev ws cross croot writes ss' key v :
  state_rep ss D W hash → blen D + 1 < 2 ^ 32 →
  sorted_entries writes → Forall is_storage writes → (ST_STORAGE :: key, GenRawStorageItem v) ∈ writes →
  HashLeaf v ∈ cross → HashFullTreeWithLeafHash cross = Some croot → blen cross * 33 + blen v + 8 ≤ MAX_SIZE →
  commit_state (blen D) blockHash prev ws cross croot writes ss = (Ok tt, ss') → store_ok (ss_store ss') →
  ∃ path, GetCrossStatesProof (blen D) key ss' = (Ok path, ss') ∧
    GetCrossStateRoot (blen D) ss' = (Ok croot, ss') ∧ MerkleProve path (to_slice croot) = Ok v.
Proof.
  intros Hrep HD Hs Hw Hin Hc Hroot Hsize Hcommit Hr. unfold MAX_SIZE in Hsize.
  destruct (commit_state_ok ss D W hash (blen D) blockHash prev ws cross croot writes Hrep) as (r & s' & t & d & E & _ & _ & _ & _ & [[-> Hv]|[[e ->] _]]);
    [lia|done|..]; rewrite E in Hcommit; simplify_eq. rewrite (from_height_rep _ _ _ _ Hrep) in Hv. cbn [ss_store] in Hr.
  destruct (save_ops_exports (ps_view (ss_store ss)) (blen D) blockHash ws (next D prev) (next W ws) cross croot writes key (GenRawStorageItem v))
    as (V1 & V2 & V3); [done|done|by destruct cross; [apply not_elem_of_nil in Hc|]|apply GenRawStorageItem_nonempty|done|].
  rewrite <- Hv in V1, V2, V3. destruct (MerkleLeafPath_found v cross) as (p & Hp & Hpath & Hpr); [done|unfold MAX_SIZE; lia|].
  rewrite HashFullTree_mth in Hroot by lia. injection Hroot as <-.
  exists (enc_ops (OpVarBytes v :: path_ops p)). split_and!.
  - unfold GetCrossStatesProof. rewrite (bind_ok _ _ _ cross (mkStateStore s' t (Some d) 0)).
    2:{ apply wrap_err_ok, GetCrossStates_ok; [done|lia|done]. }
    erewrite bind_ok by (rewrite (GetStorageValue_ok _ key v); [done|done|lia|done]). by rewrite Hpath.
  - by apply GetCrossStateRoot_ok.
  - rewrite MerkleProve_encoded; [by rewrite Hpr, decide_True|].
    rewrite enc_ops_cons, length_app. cbn [enc_op]. rewrite length_app.
    pose proof (length_path_ops p). pose proof (length_enc_varuint_le (blen v)). lia.
Qed.
End state_spec.

(** ** An empty store, on the map that stands for the database *)

#[local] Existing Instance poly_hasher.

Definition ex_ss : StateStore (LevelDBStore (gmap bytes bytes)) fileHashStore :=
  match NewStateStore (mkLevelDBStore ∅ None) [] with Ok ss => ss | _ => mkStateStore (mkLevelDBStore ∅ None) no_tree None 0 end.

Lemma ex_ss_rep : state_rep ex_ss [] [] EMPTY_HASH.
Proof.
  destruct (NewStateStore_ok [] [] EMPTY_HASH (mkLevelDBStore (∅ : gmap bytes bytes) None) []) as (ss & E & _ & Hrep); [done..|by exists []|].
  unfold ex_ss. by rewrite E.
Qed.

Lemma ex_store_ok (s : LevelDBStore (gmap bytes bytes)) : store_ok s.
Proof. intros k. unfold ps_Get, ps_view, leveldb_persist_store, ldbs_Get, ldb_Get, ldb_view, gmap_leveldb, gmap_ldb_Get. by destruct (ldb s !! k). Qed.

Definition ex_hash (i : Z) : Uint256 := copy_array 32 [byte_of_Z i].
Definition ex_writes : list entry := [(ST_STORAGE :: gs "k", GenRawStorageItem (gs "v"))].

(** The store after a first block that exported ["v"]. *)
Definition ex_commit := commit_state 0 (ex_hash 1) EMPTY_HASH (ex_hash 2) [HashLeaf (gs "v")] (mth [HashLeaf (gs "v")]) ex_writes ex_ss.
Definition ex_ss1 : StateStore (LevelDBStore (gmap bytes bytes)) fileHashStore := ex_commit.2.

Lemma StateStore_restart_witness :
  state_rep ex_ss [] [] EMPTY_HASH ∧
  ∃ r ss' f D' W' hash', ex_commit = (r, ss') ∧ hashStore (merkleTree ss') = Some f ∧
    (r = Ok tt ∧ (D', W', hash') = ([hash_leaf (to_slice EMPTY_HASH)], [hash_leaf (to_slice (ex_hash 2))], ex_hash 1) ∧ state_rep ss' D' W' hash' ∨
     (∃ e, r = Err e) ∧ (D', W', hash') = ([], [], EMPTY_HASH) ∧ ps_view (ss_store ss') = ps_view (ss_store ex_ss)) ∧
    (store_ok (ss_store ss') →
      ∃ ss2, NewStateStore (ss_store ss') (file_data f) = Ok ss2 ∧ ss_store ss2 = ss_store ss' ∧ state_rep ss2 D' W' hash').
Proof.
  split; [apply ex_ss_rep|].
  refine (StateStore_restart ex_ss [] [] EMPTY_HASH (ex_hash 1) EMPTY_HASH (ex_hash 2) [HashLeaf (gs "v")] (mth [HashLeaf (gs "v")]) ex_writes ex_ss_rep _ _).
  - done.
  - by apply Forall_singleton.
Defined.

Lemma cross_state_proof_witness :
  ∃ path, GetCrossStatesProof 0 (gs "k") ex_ss1 = (Ok path, ex_ss1) ∧
    GetCrossStateRoot 0 ex_ss1 = (Ok (mth [HashLeaf (gs "v")]), ex_ss1) ∧
    MerkleProve path (to_slice (mth [HashLeaf (gs "v")])) = Ok (gs "v").
Proof.
  refine (cross_state_proof ex_ss [] [] EMPTY_HASH (ex_hash 1) EMPTY_HASH (ex_hash 2) [HashLeaf (gs "v")] (mth [HashLeaf (gs "v")])
    ex_writes ex_ss1 (gs "k") (gs "v") ex_ss_rep _ _ _ _ _ _ _ _ _).
  - done.
  - by repeat constructor.
  - by apply Forall_singleton.
  - apply list_elem_of_here.
  - apply list_elem_of_here.
  - by apply HashFullTree_mth.
  - by vm_compute.
  - unfold ex_ss1. change (commit_state _ _ _ _ _ _ _ _) with ex_commit. assert (is_ok ex_commit.1 = true) by (by vm_compute).
    destruct ex_commit as [[[]| |] ss]; done.
  - apply ex_store_ok.
Defined.
