(* ===== verification/EventStore.v ===== *)
(** * The event store
    (core/store/ledgerstore/event_store.go; SaveNotify of tx_handler.go)

    The notifications of every transaction, as JSON, and the transactions of every
    block.  How notifications are encoded is a parameter ([NotifyCodec]), for which
    nothing is assumed; publishing them to subscribers is not modelled. *)

From S2P Require Import Prelude Sha256 TxRoot Sink Source Serialization BytesOrder MemDB OverlayDB CacheDB Contract MerkleSpec MerkleHasher Native Codec Types LedgerExec StateStore BlockStore.

Class NotifyCodec := {
  MarshalNotify : ExecuteNotify → res bytes;      (* json.Marshal *)
  UnmarshalNotify : bytes → res ExecuteNotify;    (* json.Unmarshal *)
}.

Definition EVENT_NOTIFY : byte := byte_of_Z 0x14.

Definition es_getCurrentBlockKey : bytes := [SYS_CURRENT_BLOCK].
Definition getEventNotifyByBlockKey (height : Z) : bytes := EVENT_NOTIFY :: le_put 4 height.
Definition getEventNotifyByTxKey (txHash : Uint256) : bytes := EVENT_NOTIFY :: to_slice txHash.

Section event_store.
Context `{NotifyCodec} `{PersistStore PS} (cfg : Config).
Abbreviation EM := (M PS).

Definition es_get (key : bytes) : EM bytes := λ s, (ps_Get key s, s).

Definition SaveEventNotifyByTx (txHash : Uint256) (notify : ExecuteNotify) : EM unit :=
  result ← wrap_err "json.Marshal error " (of_res (MarshalNotify notify));
  ps_BatchPut (getEventNotifyByTxKey txHash) result.

Definition SaveEventNotifyByBlock (height : Z) (txHashs : list Uint256) : EM unit :=
  ps_BatchPut (getEventNotifyByBlockKey height)
    (Ser.WriteUint32 (u32 (blen txHashs)) ++ mjoin (to_slice <$> txHashs)).

Definition GetEventNotifyByTx (txHash : Uint256) : EM ExecuteNotify :=
  data ← es_get (getEventNotifyByTxKey txHash);
  wrap_err "json.Unmarshal error " (of_res (UnmarshalNotify data)).

(** The loop over the [size] transactions: one whose notifications cannot be read
    is skipped.  A hash takes 32 bytes, so [length reader] passes are enough. *)
Fixpoint read_notifies (fuel : nat) (size : Z) (reader : bytes) : EM (list ExecuteNotify) :=
  if decide (size ≤ 0) then mret [] else
  match fuel with
  | O => fail "txHash.Deserialize error deserialize Uint256 error"
  | S fuel' =>
      match Uint256_Deserialize reader with
      | (Ok txHash, reader) => λ s,
          match GetEventNotifyByTx txHash s with
          | (Ok n, s) => (rest ← read_notifies fuel' (size - 1) reader; mret (n :: rest)) s
          | (Err _, s) => read_notifies fuel' (size - 1) reader s
          | (Panic, s) => (Panic, s)
          end
      | (Err e, _) => fail ("txHash.Deserialize error " +:+ e)
      | (Panic, _) => panic
      end
  end.

Definition GetEventNotifyByBlock (height : Z) : EM (list ExecuteNotify) :=
  data ← es_get (getEventNotifyByBlockKey height);
  match Ser.ReadUint32 data with
  | (Ok size, reader) => read_notifies (S (length reader)) size reader
  | (Err e, _) => fail ("ReadUint32 error " +:+ e)
  | (Panic, _) => panic
  end.

Definition es_SaveCurrentBlock (height : Z) (blockHash : Uint256) : EM unit :=
  ps_BatchPut es_getCurrentBlockKey (to_slice blockHash ++ Ser.WriteUint32 height).
Definition es_GetCurrentBlock : EM (Uint256 * Z) :=
  data ← es_get es_getCurrentBlockKey;
  read_all (blockHash ← Uint256_Deserialize; height ← Ser.ReadUint32; mret (blockHash, height)) data.

Fixpoint delete_entries (l : list entry) : EM unit :=
  match l with
  | [] => mret tt
  | (key, _) :: l' => ps_BatchDelete key ;; delete_entries l'
  end.
Definition es_ClearAll : EM unit :=
  ps_NewBatch ;;
  s ← get_state;
  l ← of_res (ps_Iter [] s);
  delete_entries l ;;
  ps_BatchCommit.

(** [SaveNotify] of tx_handler.go, without the event it publishes. *)
Definition SaveNotify (txHash : Uint256) (notify : ExecuteNotify) : EM unit :=
  if EnableEventLog cfg
  then wrap_err "SaveEventNotifyByTx error " (SaveEventNotifyByTx txHash notify)
  else mret tt.

End event_store.
