(* ===== verification/Ledger.v ===== *)
(** * The ledger store (core/store/ledgerstore/ledger_store.go)

    The three stores, the current block, the index and cache of headers and the
    peers that sign blocks.  A block is verified against the peers, executed, and
    saved to the three stores, which are committed one after the other: blocks,
    events, state.  After a crash between the commits [recoverStore] executes
    blocks again.

    The operations are those of one goroutine that holds the locks; waiting for
    the saving lock and the event that announces a block are not modelled. *)

From S2P Require Import Prelude Sha256 TxRoot Sink Source Serialization BytesOrder MemDB OverlayDB CacheDB Contract MerkleUtil MerkleSpec MerkleHasher HashStore MerkleTree Native Codec Types Signature LedgerExec StateStore BlockStore EventStore.

(** ** The consensus payload (consensus/vbft/config/config.go, types.go) *)

Record PeerConfig := mkPeerConfig { pc_Index : Z; pc_ID : bytes }.
Record ChainConfig := mkChainConfig {
  cc_Version : Z;
  cc_View : Z;
  cc_N : Z;
  cc_C : Z;
  BlockMsgDelay : Z;
  HashMsgDelay : Z;
  PeerHandshakeTimeout : Z;
  cc_Peers : list (option PeerConfig);   (* pointers *)
  PosTable : list Z;
  cc_MaxBlockChangeView : Z;
}.
Record VbftBlockInfo := mkVbftBlockInfo {
  Proposer : Z;
  VrfValue : bytes;
  VrfProof : bytes;
  LastConfigBlockNum : Z;
  NewChainConfig : option ChainConfig;
}.

(** What is outside of the ledger: the configuration, the JSON decoder of the
    consensus payload, and [sort.Slice] on headers, of which the order of headers
    with the same height is not known. *)
Class LedgerEnv `{Crypto} := {
  ledger_config : Config;
  ConsensusType : bytes;
  UnmarshalBlockInfo : bytes → res VbftBlockInfo;
  SortHeaders : list Header → list Header;
  SortHeaders_perm : ∀ l, SortHeaders l ≡ₚ l;
  SortHeaders_sorted : ∀ l, Sorted (λ h1 h2, Height h1 ≤ Height h2) (SortHeaders l);
}.

(** [strings.ToLower], on ASCII. *)
Definition to_lower (s : bytes) : bytes :=
  (λ b, if decide (65 ≤ byte_to_Z b ≤ 90) then byte_of_Z (byte_to_Z b + 32) else b) <$> s.

Definition SYSTEM_VERSION : byte := byte_of_Z 1.
Definition HEADER_INDEX_BATCH_SIZE : Z := 2000.
Definition BOOKKEEPER_KEY : bytes := byte_of_Z 3 :: gs "Bookkeeper".

Record ExecuteResult `{Rand} := mkExecuteResult {
  WriteSet : option MemDB;            (* [None] is the nil pointer *)
  er_CrossHashes : list Uint256;
  er_CrossStatesRoot : Uint256;
  er_Hash : Uint256;
  MerkleRoot : Uint256;
  er_Notify : list ExecuteNotify;
}.

Arguments mkExecuteResult {_}.

Record LedgerStore `{Crypto} (PS CB CT : Type) := mkLedger {
  blockStore : BlockStore PS CB CT;
  stateStore : StateStore PS fileHashStore;
  eventStore : PS;
  storedIndexCount : Z;
  currBlockHeight : Z;
  currBlockHash : Uint256;
  headerCache : gmap Uint256 Header;
  headerIndex : gmap Z Uint256;
  savingBlock : bool;                 (* the semaphore is taken *)
  vbftPeerInfoheader : gmap bytes Z;
  vbftPeerInfoblock : gmap bytes Z;
}.
Arguments mkLedger {_ PS CB CT}.
Arguments blockStore {_ PS CB CT}.
Arguments stateStore {_ PS CB CT}.
Arguments eventStore {_ PS CB CT}.
Arguments storedIndexCount {_ PS CB CT}.
Arguments currBlockHeight {_ PS CB CT}.
Arguments currBlockHash {_ PS CB CT}.
Arguments headerCache {_ PS CB CT}.
Arguments headerIndex {_ PS CB CT}.
Arguments savingBlock {_ PS CB CT}.
Arguments vbftPeerInfoheader {_ PS CB CT}.
Arguments vbftPeerInfoblock {_ PS CB CT}.

Section ledger.
Context `{Hasher} `{Crypto} `{Rand} `{!SigScheme} `{!LedgerEnv} `{NotifyCodec} `{PersistStore PS} `{ARC Block CB} `{ARC (Transaction * Z) CT}.
Context (contracts : Registry).
Abbreviation LS := (LedgerStore PS CB CT).
Abbreviation LM := (M LS).
Implicit Types l : LS.

Definition set_blocks (b : BlockStore PS CB CT) l : LS :=
  mkLedger b (stateStore l) (eventStore l) (storedIndexCount l) (currBlockHeight l) (currBlockHash l) (headerCache l) (headerIndex l) (savingBlock l) (vbftPeerInfoheader l) (vbftPeerInfoblock l).
Definition set_state (s : StateStore PS fileHashStore) l : LS :=
  mkLedger (blockStore l) s (eventStore l) (storedIndexCount l) (currBlockHeight l) (currBlockHash l) (headerCache l) (headerIndex l) (savingBlock l) (vbftPeerInfoheader l) (vbftPeerInfoblock l).
Definition set_events (e : PS) l : LS :=
  mkLedger (blockStore l) (stateStore l) e (storedIndexCount l) (currBlockHeight l) (currBlockHash l) (headerCache l) (headerIndex l) (savingBlock l) (vbftPeerInfoheader l) (vbftPeerInfoblock l).
Definition set_indexCount (n : Z) l : LS :=
  mkLedger (blockStore l) (stateStore l) (eventStore l) n (currBlockHeight l) (currBlockHash l) (headerCache l) (headerIndex l) (savingBlock l) (vbftPeerInfoheader l) (vbftPeerInfoblock l).
Definition set_current (height : Z) (hash : Uint256) l : LS :=
  mkLedger (blockStore l) (stateStore l) (eventStore l) (storedIndexCount l) height hash (headerCache l) (headerIndex l) (savingBlock l) (vbftPeerInfoheader l) (vbftPeerInfoblock l).
Definition set_cache (c : gmap Uint256 Header) l : LS :=
  mkLedger (blockStore l) (stateStore l) (eventStore l) (storedIndexCount l) (currBlockHeight l) (currBlockHash l) c (headerIndex l) (savingBlock l) (vbftPeerInfoheader l) (vbftPeerInfoblock l).
Definition set_index (ix : gmap Z Uint256) l : LS :=
  mkLedger (blockStore l) (stateStore l) (eventStore l) (storedIndexCount l) (currBlockHeight l) (currBlockHash l) (headerCache l) ix (savingBlock l) (vbftPeerInfoheader l) (vbftPeerInfoblock l).
Definition set_saving (b : bool) l : LS :=
  mkLedger (blockStore l) (stateStore l) (eventStore l) (storedIndexCount l) (currBlockHeight l) (currBlockHash l) (headerCache l) (headerIndex l) b (vbftPeerInfoheader l) (vbftPeerInfoblock l).
Definition set_peers_header (p : gmap bytes Z) l : LS :=
  mkLedger (blockStore l) (stateStore l) (eventStore l) (storedIndexCount l) (currBlockHeight l) (currBlockHash l) (headerCache l) (headerIndex l) (savingBlock l) p (vbftPeerInfoblock l).
Definition set_peers_block (p : gmap bytes Z) l : LS :=
  mkLedger (blockStore l) (stateStore l) (eventStore l) (storedIndexCount l) (currBlockHeight l) (currBlockHash l) (headerCache l) (headerIndex l) (savingBlock l) (vbftPeerInfoheader l) p.

Definition on_block {A} (m : M (BlockStore PS CB CT) A) : LM A := λ l,
  let '(r, b) := m (blockStore l) in (r, set_blocks b l).
Definition on_state {A} (m : M (StateStore PS fileHashStore) A) : LM A := λ l,
  let '(r, s) := m (stateStore l) in (r, set_state s l).
Definition on_event {A} (m : M PS A) : LM A := λ l,
  let '(r, e) := m (eventStore l) in (r, set_events e l).
Definition modify_ledger (f : LS → LS) : LM unit := λ l, (Ok tt, f l).

(** ** Current block and headers *)

Definition setHeaderIndex (height : Z) (blockHash : Uint256) : LM unit :=
  modify_ledger (λ l, set_index (<[height := blockHash]> (headerIndex l)) l).
Definition getHeaderIndex (height : Z) l : Uint256 := default EMPTY_HASH (headerIndex l !! height).
Definition GetCurrentHeaderHeight l : Z :=
  let size := Z.of_nat (size (headerIndex l)) in
  if decide (size = 0) then 0 else u32 (u32 size - 1).
Definition GetCurrentHeaderHash l : Uint256 :=
  let size := Z.of_nat (size (headerIndex l)) in
  if decide (size = 0) then EMPTY_HASH else default EMPTY_HASH (headerIndex l !! u32 (u32 size - 1)).
Definition setCurrentBlock (height : Z) (blockHash : Uint256) : LM unit := modify_ledger (set_current height blockHash).

Definition addHeaderCache (header : Header) : LM unit :=
  hash ← of_res (Header_Hash header);
  modify_ledger (λ l, set_cache (<[hash := header]> (headerCache l)) l).
Definition delHeaderCache (blockHash : Uint256) : LM unit :=
  modify_ledger (λ l, set_cache (delete blockHash (headerCache l)) l).
Definition getHeaderCache (blockHash : Uint256) l : option Header := headerCache l !! blockHash.

Definition GetHeaderByHash (blockHash : Uint256) : LM Header :=
  l ← get_state;
  match getHeaderCache blockHash l with
  | Some header => mret header
  | None => on_block (GetHeader blockHash)
  end.
(** [None] is the nil header. *)
Definition GetHeaderByHeight (height : Z) : LM (option Header) :=
  l ← get_state;
  let blockHash := getHeaderIndex height l in
  if decide (blockHash = EMPTY_HASH) then mret None
  else header ← GetHeaderByHash blockHash; mret (Some header).
Definition GetBlockByHeight (height : Z) : LM (option Block) :=
  l ← get_state;
  let blockHash := getHeaderIndex height l in
  if decide (blockHash = EMPTY_HASH) then mret None
  else block ← on_block (GetBlock blockHash); mret (Some block).

(** ** Verifying headers *)

Definition PubkeyID (pub : PublicKey) : bytes := hex_encode (SerializePublicKey pub).
Definition VbftBlock (header : Header) : res VbftBlockInfo :=
  match UnmarshalBlockInfo (ConsensusPayload header) with
  | Err e => Err ("unmarshal blockInfo: " +:+ e)
  | r => r
  end.
(** A nil peer panics. *)
Fixpoint peers_loop (peers : list (option PeerConfig)) (m : gmap bytes Z) : res (gmap bytes Z) :=
  match peers with
  | [] => Ok m
  | Some p :: rest => peers_loop rest (<[pc_ID p := pc_Index p]> m)
  | None :: _ => Panic
  end.
Definition peer_info (cfg : ChainConfig) : res (gmap bytes Z) := peers_loop (cc_Peers cfg) ∅.
Definition is_vbft : bool := bool_decide (to_lower ConsensusType = gs "vbft").

Definition need_fix l : bool :=
  bool_decide (NETWORK_ID_MAIN_NET ≠ NetworkId ledger_config ∨ GetCurrentHeaderHeight l ≤ 20000000).
(** The signatures that a header needs when there are [n] peers. *)
Definition header_quorum (needFix : bool) (n : Z) : Z :=
  if needFix then n - (n * 6) ÷ 7 else n - (n - 1) ÷ 3.

(** The loop over the bookkeepers. *)
Fixpoint check_bookkeepers (vbftPeerInfo : gmap bytes Z) (usedPubKey : gset bytes) (bookkeepers : list PublicKey) : res unit :=
  match bookkeepers with
  | [] => Ok tt
  | bookkeeper :: rest =>
      let pubkey := PubkeyID bookkeeper in
      if decide (vbftPeerInfo !! pubkey = None ∨ pubkey ∈ usedPubKey) then Err "invalid pubkey"
      else check_bookkeepers vbftPeerInfo ({[pubkey]} ∪ usedPubKey) rest
  end.

Definition verify_vbft (header : Header) (vbftPeerInfo : gmap bytes Z) : LM (gmap bytes Z) :=
  l ← get_state;
  let m := header_quorum (need_fix l) (Z.of_nat (size vbftPeerInfo)) in
  if decide (blen (Bookkeepers header) < m) then fail "header Bookkeepers more than 2/3 len vbftPeerInfo" else
  of_res (check_bookkeepers vbftPeerInfo ∅ (Bookkeepers header)) ;;
  hash ← of_res (Header_Hash header);
  of_res (VerifyMultiSignature (to_slice hash) (Bookkeepers header) m (h_SigData header)) ;;
  blkInfo ← of_res (VbftBlock header);
  match NewChainConfig blkInfo with
  | Some cfg => of_res (peer_info cfg)
  | None => mret vbftPeerInfo
  end.

Definition verify_bookkeepers (header prevHeader : Header) (vbftPeerInfo : gmap bytes Z) : LM (gmap bytes Z) :=
  address ← of_res (AddressFromBookkeepers (Bookkeepers header));
  if decide (NextBookkeeper prevHeader ≠ address) then fail "bookkeeper address error" else
  let n := blen (Bookkeepers header) in
  hash ← of_res (Header_Hash header);
  of_res (VerifyMultiSignature (to_slice hash) (Bookkeepers header) (n - (n - 1) ÷ 3) (h_SigData header)) ;;
  mret vbftPeerInfo.

Definition verifyHeader (header : Header) (vbftPeerInfo : gmap bytes Z) : LM (gmap bytes Z) :=
  if decide (Height header = 0) then mret vbftPeerInfo else
  prevHeader ← (λ l, match GetHeaderByHash (PrevBlockHash header) l with
                     | (Err e, l') => (Err (if decide (e = ErrNotFound) then "cannot find pre header by blockHash"
                                            else "get prev header error " +:+ e), l')
                     | r => r
                     end);
  if decide (u32 (Height prevHeader + 1) ≠ Height header) then fail "block height is incorrect" else
  if decide (Timestamp header ≤ Timestamp prevHeader) then fail "block timestamp is incorrect" else
  if is_vbft then verify_vbft header vbftPeerInfo else verify_bookkeepers header prevHeader vbftPeerInfo.

(** On an error the peers that are returned are the ones that were given. *)
Definition AddHeader (header : Header) : LM unit :=
  l ← get_state;
  if decide (Height header ≠ u32 (GetCurrentHeaderHeight l + 1)) then fail "header height not equal next header height" else
  peers ← wrap_err "verifyHeader error " (verifyHeader header (vbftPeerInfoheader l));
  modify_ledger (set_peers_header peers) ;;
  addHeaderCache header ;;
  hash ← of_res (Header_Hash header);
  setHeaderIndex (Height header) hash.

Fixpoint add_headers (headers : list Header) : LM unit :=
  match headers with
  | [] => mret tt
  | header :: rest => AddHeader header ;; add_headers rest
  end.
Definition AddHeaders (headers : list Header) : LM unit := add_headers (SortHeaders headers).

(** ** Executing and saving blocks *)

Definition executeBlock (block : Block) : LM ExecuteResult :=
  l ← get_state;
  let cache := NewCacheDB (NewOverlayDB (ss_store (stateStore l))) in
  match exec_txs contracts block (Transactions block) [] [] cache with
  | (Err e, _) => fail e
  | (Panic, _) => panic
  | (Ok (notifies, crossHashes), cache) =>
      let overlay := backend cache in
      crossStatesRoot ← (if decide (blen crossHashes ≠ 0) then of_option (HashFullTreeWithLeafHash crossHashes) else mret EMPTY_HASH);
      hash ← of_res (ov_ChangeHash overlay).1;
      merkleRoot ← on_state (GetStateMerkleRootWithNewHash hash);
      mret (mkExecuteResult (Some (ov_GetWriteSet overlay)) crossHashes crossStatesRoot hash merkleRoot notifies)
  end.

Definition saveHeaderIndexList : LM unit :=
  l ← get_state;
  let storeCount := storedIndexCount l in
  if decide (u32 (currBlockHeight l - storeCount) < HEADER_INDEX_BATCH_SIZE) then mret tt else
  let headerList := (λ i, getHeaderIndex (u32 (storeCount + i)) l) <$> seqZ 0 HEADER_INDEX_BATCH_SIZE in
  wrap_err "SaveHeaderIndexList start error " (on_block (SaveHeaderIndexList storeCount headerList)) ;;
  modify_ledger (λ l, set_indexCount (u32 (storedIndexCount l + HEADER_INDEX_BATCH_SIZE)) l).

Definition saveBlockToBlockStore (block : Block) : LM unit :=
  blockHash ← of_res (Block_Hash block);
  let blockHeight := Height (blk_Header block) in
  setHeaderIndex blockHeight blockHash ;;
  wrap_err "saveHeaderIndexList error " saveHeaderIndexList ;;
  wrap_err "SaveCurrentBlock error " (on_block (bs_SaveCurrentBlock blockHeight blockHash)) ;;
  on_block (SaveBlockHash blockHeight blockHash) ;;
  wrap_err "SaveBlock height hash error " (on_block (SaveBlock block)).

Fixpoint save_notifies (notifies : list ExecuteNotify) : M PS unit :=
  match notifies with
  | [] => mret tt
  | notify :: rest => wrap_err "SaveNotify error " (SaveNotify ledger_config (en_TxHash notify) notify) ;; save_notifies rest
  end.
Definition saveBlockToStateStore (block : Block) (result : ExecuteResult) : LM unit :=
  blockHash ← of_res (Block_Hash block);
  let header := blk_Header block in
  on_event (save_notifies (er_Notify result)) ;;
  on_state (save_state (Height header) blockHash (PrevBlockHash header) (er_Hash result) (er_CrossHashes result)
    (er_CrossStatesRoot result) (WriteSet result ≫= ForEach)).

Definition saveBlockToEventStore (block : Block) : LM unit :=
  blockHash ← of_res (Block_Hash block);
  let blockHeight := Height (blk_Header block) in
  let txs := tx_hash <$> Transactions block in
  (if decide (0 < blen txs) then wrap_err "SaveEventNotifyByBlock error " (on_event (SaveEventNotifyByBlock blockHeight txs))
   else mret tt) ;;
  wrap_err "SaveCurrentBlock error " (on_event (es_SaveCurrentBlock blockHeight blockHash)).

(** The slice panics when the first height is behind or too far ahead. *)
Definition led_GetBlockRootWithPreBlockHashes (startHeight : Z) (preBlockHashes : list Uint256) : LM Uint256 :=
  l ← get_state;
  if decide (u32 (startHeight + u32 (blen preBlockHashes) - 1) < currBlockHeight l) then mret EMPTY_HASH else
  let i := u32 (currBlockHeight l + 1 - startHeight) in
  if decide (i ≤ blen preBlockHashes)
  then on_state (GetBlockRootWithPreBlockHashes (drop (Z.to_nat i) preBlockHashes))
  else panic.

Definition submitBlock (block : Block) (result : ExecuteResult) : LM unit :=
  blockHash ← of_res (Block_Hash block);
  let header := blk_Header block in
  blockRoot ← led_GetBlockRootWithPreBlockHashes (Height header) [PrevBlockHash header];
  if decide (Height header ≠ 0 ∧ blockRoot ≠ BlockRoot header) then fail "wrong block root at height" else
  on_block bs_NewBatch ;;
  on_state ss_NewBatch ;;
  on_event ps_NewBatch ;;
  wrap_err "save to block store height error:" (saveBlockToBlockStore block) ;;
  wrap_err "save to state store height error:" (saveBlockToStateStore block result) ;;
  wrap_err "save to event store height error:" (saveBlockToEventStore block) ;;
  wrap_err "blockStore.CommitTo height error " (on_block bs_CommitTo) ;;
  wrap_err "eventStore.CommitTo height error " (on_event ps_BatchCommit) ;;
  wrap_err "stateStore.CommitTo height error " (on_state ss_CommitTo) ;;
  setCurrentBlock (Height header) blockHash.

(** [defer this.releaseSavingBlockLock()] after the lock was taken. *)
Definition with_lock {A} (m : LM A) : LM A := λ l,
  let '(r, l') := m (set_saving true l) in
  if savingBlock l' then (r, set_saving false l') else (Panic, l').

Definition saveBlock (block : Block) (stateMerkleRoot : Uint256) : LM unit :=
  l ← get_state;
  if savingBlock l then mret tt else
  with_lock (
    l ← get_state;
    let blockHeight := Height (blk_Header block) in
    if decide (0 < blockHeight ∧ blockHeight ≠ u32 (currBlockHeight l + 1)) then mret tt else
    result ← executeBlock block;
    if decide (MerkleRoot result ≠ stateMerkleRoot) then fail "state merkle root mismatch!" else
    submitBlock block result).

(** The checks of [SubmitBlock] and [AddBlock] before the block is saved, and the
    removal of its header from the cache after it. *)
Definition next_block (block : Block) (save : LM unit) : LM unit :=
  l ← get_state;
  let header := blk_Header block in
  if decide (Height header ≤ currBlockHeight l) then mret tt else
  if decide (Height header ≠ u32 (currBlockHeight l + 1)) then fail "block height not equal next block height" else
  peers ← wrap_err "verifyHeader error " (verifyHeader header (vbftPeerInfoblock l));
  modify_ledger (set_peers_block peers) ;;
  wrap_err "saveBlock error " save ;;
  blockHash ← of_res (Block_Hash block);
  delHeaderCache blockHash.
Definition SubmitBlock (block : Block) (result : ExecuteResult) : LM unit :=
  with_lock (next_block block (submitBlock block result)).
Definition AddBlock (block : Block) (stateMerkleRoot : Uint256) : LM unit :=
  next_block block (saveBlock block stateMerkleRoot).

Definition ExecuteBlock (block : Block) : LM ExecuteResult :=
  with_lock (
    l ← get_state;
    let blockHeight := Height (blk_Header block) in
    if decide (blockHeight ≤ currBlockHeight l) then
      root ← on_state (GetStateMerkleRoot blockHeight);
      mret (mkExecuteResult None [] EMPTY_HASH EMPTY_HASH root [])
    else if decide (blockHeight ≠ u32 (currBlockHeight l + 1)) then fail "block height not equal next block height"
    else executeBlock block).

(** ** Opening the ledger *)

Definition loadCurrentBlock : LM unit :=
  '(hash, height) ← wrap_err "LoadCurrentBlock error " (on_block bs_GetCurrentBlock);
  setCurrentBlock height hash.

Fixpoint load_index (n : nat) (height : Z) : LM unit :=
  match n with
  | O => mret tt
  | S n' =>
      blockHash ← wrap_err "LoadBlockHash height error " (on_block (GetBlockHash height));
      if decide (blockHash = EMPTY_HASH) then fail "LoadBlockHash height hash nil" else
      setHeaderIndex height blockHash ;;
      load_index n' (height + 1)
  end.
(** The loop runs from [storeIndexCount] to the current height, which is below the
    largest [uint32]. *)
Definition loadHeaderIndexList : LM unit :=
  l ← get_state;
  let currHeight := currBlockHeight l in
  index ← wrap_err "LoadHeaderIndexList error " (on_block GetHeaderIndexList);
  let storeIndexCount := u32 (Z.of_nat (size index)) in
  modify_ledger (λ l, set_indexCount storeIndexCount (set_index index l)) ;;
  load_index (Z.to_nat (currHeight + 1 - storeIndexCount)) storeIndexCount.

(** One pass of the loop of [recoverStore]. *)
Definition recover_block (height : Z) : LM unit :=
  blockHash ← wrap_err "blockStore.GetBlockHash height error:" (on_block (GetBlockHash height));
  block ← wrap_err "blockStore.GetBlock height error:" (on_block (GetBlock blockHash));
  on_event ps_NewBatch ;;
  on_state ss_NewBatch ;;
  result ← executeBlock block;
  wrap_err "save to state store height error:" (saveBlockToStateStore block result) ;;
  wrap_err "save to event store height error:" (saveBlockToEventStore block) ;;
  wrap_err "eventStore.CommitTo height error " (on_event ps_BatchCommit) ;;
  wrap_err "stateStore.CommitTo height error " (on_state ss_CommitTo).
Fixpoint recover_blocks (n : nat) (height : Z) : LM unit :=
  match n with
  | O => mret tt
  | S n' => recover_block height ;; recover_blocks n' (height + 1)
  end.
Definition recoverStore : LM unit :=
  l ← get_state;
  '(_, stateHeight) ← wrap_err "stateStore.GetCurrentBlock error " (on_state GetCurrentBlock);
  recover_blocks (Z.to_nat (currBlockHeight l - stateHeight)) stateHeight.

Definition led_init : LM unit :=
  wrap_err "loadCurrentBlock error " loadCurrentBlock ;;
  wrap_err "loadHeaderIndexList error " loadHeaderIndexList ;;
  wrap_err "recoverStore error " recoverStore.

Definition hasAlreadyInitGenesisBlock : LM bool := λ l,
  match on_block GetVersion l with
  | (Ok version, l') => (Ok (bool_decide (version = SYSTEM_VERSION)), l')
  | (Err e, l') => if decide (e = ErrNotFound) then (Ok false, l') else (Err ("GetVersion error " +:+ e), l')
  | (Panic, l') => (Panic, l')
  end.

(** [BookkeeperState.Serialize] and [SaveBookkeeperState]. *)
Definition enc_bookkeepers (pks : list PublicKey) : bytes :=
  Ser.WriteUint32 (u32 (blen pks)) ++ mjoin ((λ pk, Ser.WriteVarBytes (SerializePublicKey pk)) <$> pks).
Definition SaveBookkeeperState (curr next : list PublicKey) : M (StateStore PS fileHashStore) unit :=
  on_db (ps_Put BOOKKEEPER_KEY (Ser.WriteByte (byte_of_Z 0) ++ enc_bookkeepers curr ++ enc_bookkeepers next)).

(** When the iterator fails the batch is reset. *)
Definition ss_ClearAll : M (StateStore PS fileHashStore) unit :=
  ss_NewBatch ;;
  ss ← get_state;
  match ps_Iter [] (ss_store ss) with
  | Ok l => on_db (delete_entries l) ;; on_db ps_BatchCommit
  | Err e => ss_NewBatch ;; fail e
  | Panic => panic
  end.

(** The peers of the last configuration, from the current block on. *)
Definition load_peers : LM unit :=
  if is_vbft then
    l ← get_state;
    header ← GetHeaderByHash (currBlockHash l);
    blkInfo ← of_res (VbftBlock header);
    cfg ← match NewChainConfig blkInfo with
          | Some cfg => mret cfg
          | None =>
              cfgHeader ← GetHeaderByHeight (LastConfigBlockNum blkInfo);
              info ← of_res (match cfgHeader with Some h => VbftBlock h | None => Panic end);
              match NewChainConfig info with
              | Some cfg => mret cfg
              | None => fail "getNewChainConfig error block num"
              end
          end;
    peers ← of_res (peer_info cfg);
    modify_ledger (λ l, set_peers_header peers (set_peers_block peers l))
  else mret tt.

Definition InitLedgerStoreWithGenesisBlock (genesisBlock : Block) (defaultBookkeeper : list PublicKey) : LM unit :=
  hasInit ← wrap_err "hasAlreadyInit error " hasAlreadyInitGenesisBlock;
  (if (hasInit : bool) then
     genesisHash ← of_res (Block_Hash genesisBlock);
     exist ← wrap_err "HashBlockExist error " (on_block (ContainBlock genesisHash));
     if (exist : bool) then wrap_err "init error " led_init else fail "GenesisBlock arenot init correctly"
   else
     wrap_err "blockStore.ClearAll error " (on_block bs_ClearAll) ;;
     wrap_err "stateStore.ClearAll error " (on_state ss_ClearAll) ;;
     wrap_err "eventStore.ClearAll error " (on_event es_ClearAll) ;;
     let bookkeepers := SortPublicKeys defaultBookkeeper in
     wrap_err "SaveBookkeeperState error " (on_state (SaveBookkeeperState bookkeepers bookkeepers)) ;;
     result ← executeBlock genesisBlock;
     wrap_err "save genesis block error " (submitBlock genesisBlock result) ;;
     wrap_err "init error " (on_block (SaveVersion SYSTEM_VERSION)) ;;
     of_res (Block_Hash genesisBlock) ;; mret tt) ;;
  load_peers.
End ledger.
