(* ===== verification/LedgerSpec.v ===== *)
(** * What the ledger checks and keeps

    [verifyHeader_quorum]: whose signatures an accepted header carries.
    [header_index_ok]: the index of headers has no gaps, along every run of the
    ledger's operations. *)

From S2P Require Import Prelude Sha256 TxRoot Sink Source Serialization BytesOrder MemDB OverlayDB CacheDB Contract MerkleUtil MerkleSpec MerkleHasher HashStore MerkleTree Native ExCrypto Codec Types BlockBinding Signature LedgerExec StateStore BlockStore BlockStoreSpec EventStore Ledger.

Section ledger_spec.
Context `{Hasher} `{Crypto} `{Rand} `{!SigScheme} `{!LedgerEnv} `{NotifyCodec} `{PersistStore PS} `{ARC Block CB} `{ARC (Transaction * Z) CT}.
Context (contracts : Registry).
Abbreviation LS := (LedgerStore PS CB CT).
Abbreviation LM := (M LS).
Implicit Types l : LS.

(** ** Headers *)

Lemma header_quorum_bounds fix_ n : 0 ≤ n → 0 ≤ header_quorum fix_ n ≤ n + 1.
Proof. intros Hn. unfold header_quorum. destruct fix_; [|destruct (decide (n = 0)) as [->|]; [by split; vm_compute|]]; rewrite Z.quot_div_nonneg by lia; Z.div_mod_to_equations; lia. Qed.

Lemma check_bookkeepers_inv info used bks :
  check_bookkeepers info used bks = Ok tt →
  NoDup (PubkeyID <$> bks) ∧ ∀ pk, pk ∈ bks → is_Some (info !! PubkeyID pk) ∧ PubkeyID pk ∉ used.
Proof.
  revert used. induction bks as [|pk bks IH]; intros used E; cbn in E; [split; [constructor|set_solver]|].
  case_decide as Hd; [done|]. apply Decidable.not_or in Hd as [Hi Hu]. apply IH in E as [Hnd Hall].
  split; cbn.
  - apply NoDup_cons. split; [|done]. intros (pk' & E' & Hin)%list_elem_of_fmap. destruct (Hall pk' Hin) as [_ Hu']. set_solver.
  - intros pk' [->|Hin]%elem_of_cons.
    + split; [|done]. destruct (info !! PubkeyID pk); [by eexists|done].
    + destruct (Hall _ Hin). set_solver.
Qed.

(** The signatures of the bookkeepers at different positions are by different peers. *)
Lemma signed_by_peers data bks sigs js :
  signed_by data bks sigs js → NoDup js → NoDup (PubkeyID <$> bks) →
  ∃ ids, length ids = length js ∧ NoDup ids ∧
    ∀ id, id ∈ ids → ∃ j pk sg, j ∈ js ∧ bks !! j = Some pk ∧ PubkeyID pk = id ∧ sg ∈ sigs ∧ Verify pk data sg = Ok tt.
Proof.
  intros Hs Hnd Hids. induction Hs as [|sg j sigs js (sig & key & Hd & Hk & Hv) Hs IH]; [exists []; split_and!; [done|constructor|set_solver]|].
  apply NoDup_cons in Hnd as [Hj Hnd]. destruct (IH Hnd) as (ids & Hlen & Hnd' & Hall).
  exists (PubkeyID key :: ids). split_and!; [cbn; congruence| |].
  - apply NoDup_cons. split; [|done]. intros (j' & pk & sg' & Hj' & Hk' & E & _)%Hall.
    assert (j = j') as ->; [|done].
    apply (NoDup_lookup (PubkeyID <$> bks) j j' (PubkeyID key)); [done|by rewrite list_lookup_fmap, Hk|rewrite list_lookup_fmap, Hk'; cbn; congruence].
  - intros id [->|(j' & pk & sg' & ? & ? & ? & ? & ?)%Hall]%elem_of_cons.
    + exists j, key, sg. split_and!; [apply list_elem_of_here|done|done|apply list_elem_of_here|]. unfold Verify. by rewrite Hd, Hv.
    + exists j', pk, sg'. split_and!; [by apply list_elem_of_further|done|done|by apply list_elem_of_further|done].
Qed.

Lemma verify_vbft_inv header info l info' l' :
  verify_vbft header info l = (Ok info', l') →
  l' = l ∧ ∃ hash blk ids, Header_Hash header = Ok hash ∧ VbftBlock header = Ok blk ∧
    match NewChainConfig blk with Some cfg => peer_info cfg = Ok info' | None => info' = info end ∧
    NoDup ids ∧ blen ids = header_quorum (need_fix l) (Z.of_nat (size info)) ∧
    ∀ id, id ∈ ids → is_Some (info !! id) ∧
      ∃ pk sg, PubkeyID pk = id ∧ pk ∈ Bookkeepers header ∧ sg ∈ h_SigData header ∧ Verify pk (to_slice hash) sg = Ok tt.
Proof.
  unfold verify_vbft. intros E. set (m := header_quorum _ _) in *.
  apply bind_inv_ok in E as (l0 & l1 & [= <- <-] & E). fold m in E. case_decide; [done|].
  apply bind_inv_ok in E as ([] & l2 & E1 & E). injection E1 as E1 <-.
  apply bind_inv_ok in E as (hash & l3 & E2 & E). injection E2 as E2 <-.
  apply bind_inv_ok in E as ([] & l4 & E3 & E). injection E3 as E3 <-.
  apply bind_inv_ok in E as (blk & l5 & E4 & E). injection E4 as E4 <-.
  apply check_bookkeepers_inv in E1 as [Hnd Hpeers].
  unfold VerifyMultiSignature in E3. case_decide; [done|]. apply multi_loop_sound in E3 as (js & Hs & Hlen & Hndj & _); [|by rewrite length_replicate].
  destruct (signed_by_peers _ _ _ _ Hs Hndj Hnd) as (ids & Hl & Hndi & Hall).
  assert (l' = l ∧ match NewChainConfig blk with Some cfg => peer_info cfg = Ok info' | None => info' = info end) as [-> Hcfg].
  { destruct (NewChainConfig blk); injection E as E <-; done. }
  split; [done|]. exists hash, blk, ids. split_and!; try done.
  - rewrite Hl, Hlen, Z2Nat.id; [done|]. apply header_quorum_bounds. lia.
  - intros id (j & pk & sg & _ & Hk & <- & Hsg & Hv)%Hall. apply list_elem_of_lookup_2 in Hk. split; [by apply Hpeers|].
    exists pk, sg. split_and!; [done|done| |done]. apply elem_of_take in Hsg as (i & Hi & _). by eapply list_elem_of_lookup_2.
Qed.

(** C12 (who signed an accepted header).  Under VBFT, a header above the genesis
    block is accepted only if its predecessor is known, one height below and
    strictly older, and pairwise different peers of the current configuration, as
    many as the quorum, each signed its hash with a key of the header.  On the main
    network from header 20,000,000 on the quorum is more than two thirds of the
    peers; on the other networks and below that height it is a seventh, rounded up.
    The peers that are kept are those of the configuration in the header, if it
    carries one. *)
Theorem verifyHeader_quorum header info l info' l' :
  is_vbft = true → Height header ≠ 0 → verifyHeader header info l = (Ok info', l') →
  ∃ prev hash blk ids, GetHeaderByHash (PrevBlockHash header) l = (Ok prev, l') ∧
    Height header = u32 (Height prev + 1) ∧ Timestamp prev < Timestamp header ∧
    Header_Hash header = Ok hash ∧ NoDup ids ∧
    (let n := Z.of_nat (size info) in
     if decide (NetworkId ledger_config = NETWORK_ID_MAIN_NET ∧ 20000000 < GetCurrentHeaderHeight l')
     then 2 * n < 3 * blen ids ∨ n = 0 else blen ids = (n + 6) / 7) ∧
    (∀ id, id ∈ ids → is_Some (info !! id) ∧
      ∃ pk sg, PubkeyID pk = id ∧ pk ∈ Bookkeepers header ∧ sg ∈ h_SigData header ∧ Verify pk (to_slice hash) sg = Ok tt) ∧
    VbftBlock header = Ok blk ∧
    match NewChainConfig blk with Some cfg => peer_info cfg = Ok info' | None => info' = info end.
Proof.
  intros Hv Hh E. unfold verifyHeader in E. rewrite decide_False in E by done.
  apply bind_inv_ok in E as (prev & l1 & E1 & E).
  destruct (GetHeaderByHash (PrevBlockHash header) l) as [[p|e|] l0] eqn:Eg; [|done..]. injection E1 as -> ->.
  case_decide as Hhe; [done|]. case_decide as Ht; [done|]. rewrite Hv in E.
  apply verify_vbft_inv in E as (-> & hash & blk & ids & Hhash & Hblk & Hcfg & Hnd & Hlen & Hall).
  exists prev, hash, blk, ids. split_and!; try done; [lia|].
  unfold need_fix, header_quorum in Hlen. cbv zeta. destruct (decide (NetworkId ledger_config = NETWORK_ID_MAIN_NET ∧ _)) as [Hm|Hm].
  - rewrite bool_decide_eq_false_2 in Hlen by (intros [?|?]; [naive_solver|lia]).
    destruct (decide (size info = 0%nat)) as [Hz|]; [right; lia|]. left. rewrite Z.quot_div_nonneg in Hlen by lia. Z.div_mod_to_equations. lia.
  - rewrite bool_decide_eq_true_2 in Hlen by (destruct (decide (NetworkId ledger_config = NETWORK_ID_MAIN_NET)); [right; apply Z.nlt_ge; naive_solver|left; congruence]).
    rewrite Z.quot_div_nonneg in Hlen by lia. Z.div_mod_to_equations. lia.
Qed.

(** ** The header index *)

(** The heights of the index are [0 .. n - 1]. *)
Definition covers (ix : gmap Z Uint256) (n : Z) : Prop := ∀ h, is_Some (ix !! h) ↔ 0 ≤ h < n.
Definition index_ok l : Prop := ∃ n, covers (headerIndex l) n ∧ 0 ≤ currBlockHeight l < n ∧ n ≤ 2 ^ 32.

Lemma covers_size ix n : 0 ≤ n → covers ix n → Z.of_nat (size ix) = n.
Proof.
  intros Hn Hc. assert (dom ix = list_to_set (seqZ 0 n)) as E.
  { apply set_eq. intros h. rewrite elem_of_dom, elem_of_list_to_set, elem_of_seqZ, (Hc h). lia. }
  rewrite <- size_dom, E, size_list_to_set by apply NoDup_seqZ. rewrite length_seqZ. lia.
Qed.

Lemma covers_insert ix n h v : covers ix n → 0 ≤ h ≤ n → covers (<[h := v]> ix) (Z.max n (h + 1)).
Proof.
  intros Hc Hh h'. destruct (decide (h' = h)) as [->|].
  - rewrite lookup_insert_eq. split; [lia|by eexists].
  - rewrite lookup_insert_ne by done. rewrite (Hc h'). lia.
Qed.

Lemma header_height_covers l n : covers (headerIndex l) n → 0 < n ≤ 2 ^ 32 → GetCurrentHeaderHeight l = n - 1.
Proof.
  intros Hc Hn. unfold GetCurrentHeaderHeight. rewrite (covers_size _ n) by (done || lia).
  rewrite decide_False by lia. destruct (decide (n = 2 ^ 32)) as [->|]; [done|].
  rewrite (uwrap_small 32 n), uwrap_small by (unfold in_range; lia). done.
Qed.

(** A run from [P] that returns ends in [Q], and [index_ok] holds whatever happens. *)
Definition triple {A} (P : LS → Prop) (m : LM A) (Q : LS → Prop) : Prop :=
  ∀ l, P l → index_ok (m l).2 ∧ (is_ok (m l).1 → Q (m l).2).

Lemma triple_bind {A B} P Q R (m : LM A) (k : A → LM B) :
  triple P m Q → (∀ a, triple Q (k a) R) → triple P (m ≫= k) R.
Proof.
  intros Hm Hk l Hl. destruct (Hm l Hl) as [Hi Hq]. unfold mbind, M_bind.
  destruct (m l) as [[a|e|] l']; [by apply Hk, Hq|done..].
Qed.

Lemma triple_wrap {A} P Q msg (m : LM A) : triple P m Q → triple P (wrap_err msg m) Q.
Proof. intros Hm l Hl. specialize (Hm l Hl). unfold wrap_err. by destruct (m l) as [[]]. Qed.

Lemma triple_weaken {A} (P P' Q Q' : LS → Prop) (m : LM A) :
  triple P m Q → (∀ l, P' l → P l) → (∀ l, Q l → Q' l) → triple P' m Q'.
Proof. intros Hm HP HQ l Hl. destruct (Hm l (HP l Hl)). split; auto. Qed.

(** What depends only on the index and the current height. *)
Definition of_index (P : LS → Prop) : Prop :=
  (∀ l, P l → index_ok l) ∧
  ∀ l l', headerIndex l' = headerIndex l → currBlockHeight l' = currBlockHeight l → P l → P l'.

(** An operation that does not touch a part of the ledger. *)
Definition keeps {T A} (part : LS → T) (m : LM A) : Prop := ∀ l, part (m l).2 = part l.
Definition index_part l : gmap Z Uint256 * Z := (headerIndex l, currBlockHeight l).

Lemma triple_frame {A} P (m : LM A) : of_index P → keeps index_part m → triple P m P.
Proof.
  intros [HI HP] Hm l Hl. specialize (Hm l). unfold index_part in Hm. injection Hm as ??.
  split; [apply HI|intros _]; by eapply HP.
Qed.

Section keeps.
Context {T : Type} (part : LS → T).

Lemma same_bind {A B} (m : LM A) (k : A → LM B) : keeps part m → (∀ a, keeps part (k a)) → keeps part (m ≫= k).
Proof.
  intros Hm Hk l. unfold mbind, M_bind. specialize (Hm l). destruct (m l) as [[a|e|] l']; [|done..].
  cbn in Hm. rewrite <- Hm. apply Hk.
Qed.
Lemma same_wrap {A} msg (m : LM A) : keeps part m → keeps part (wrap_err msg m).
Proof. intros Hm l. specialize (Hm l). unfold wrap_err. by destruct (m l) as [[]]. Qed.
Lemma keeps_ret {A} (a : A) : keeps part (mret a : LM A). Proof. done. Qed.
Lemma keeps_fail {A} e : keeps part (fail e : LM A). Proof. done. Qed.
Lemma keeps_panic {A} : keeps part (panic : LM A). Proof. done. Qed.
Lemma keeps_get : keeps part (get_state : LM LS). Proof. done. Qed.
Lemma keeps_res {A} (r : res A) : keeps part (of_res r : LM A). Proof. done. Qed.
Lemma keeps_option {A} (o : option A) : keeps part (of_option o : LM A). Proof. by destruct o. Qed.
Lemma keeps_modify f : (∀ l, part (f l) = part l) → keeps part (modify_ledger f).
Proof. intros Hf l. apply Hf. Qed.
Lemma keeps_block {A} (m : M _ A) : (∀ b l, part (set_blocks b l) = part l) → keeps part (on_block m : LM A).
Proof. intros Hp l. unfold on_block. destruct (m _). apply Hp. Qed.
Lemma keeps_state {A} (m : M _ A) : (∀ s l, part (set_state s l) = part l) → keeps part (on_state m : LM A).
Proof. intros Hp l. unfold on_state. destruct (m _). apply Hp. Qed.
Lemma keeps_event {A} (m : M _ A) : (∀ e l, part (set_events e l) = part l) → keeps part (on_event m : LM A).
Proof. intros Hp l. unfold on_event. destruct (m _). apply Hp. Qed.
End keeps.
End ledger_spec.

Create HintDb keeps.
#[export] Hint Resolve same_wrap keeps_ret keeps_fail keeps_panic keeps_get keeps_res keeps_option : keeps.
#[export] Hint Extern 1 (keeps _ (on_block _)) => apply keeps_block; done : keeps.
#[export] Hint Extern 1 (keeps _ (on_state _)) => apply keeps_state; done : keeps.
#[export] Hint Extern 1 (keeps _ (on_event _)) => apply keeps_event; done : keeps.
#[export] Hint Extern 1 (keeps _ (modify_ledger _)) => apply keeps_modify; done : keeps.
Ltac solve_keeps :=
  repeat (cbv zeta; first [ solve [eauto with keeps] | apply same_bind; [|intros] | apply same_wrap | case_match ]).

Section index.
Context `{Hasher} `{Crypto} `{Rand} `{!SigScheme} `{!LedgerEnv} `{NotifyCodec} `{PersistStore PS} `{ARC Block CB} `{ARC (Transaction * Z) CT}.
Context (contracts : Registry).
Abbreviation LS := (LedgerStore PS CB CT).
Abbreviation LM := (M LS).
Implicit Types l : LS.

Lemma keeps_verify header info : keeps index_part (verifyHeader header info : LM (gmap bytes Z)).
Proof.
  unfold verifyHeader. case_decide; [apply keeps_ret|]. apply same_bind.
  - intros l. assert (keeps index_part (GetHeaderByHash (PrevBlockHash header) : LM Header)) as Hg by (unfold GetHeaderByHash; solve_keeps).
    specialize (Hg l). by destruct (GetHeaderByHash _ l) as [[]].
  - intros prev. unfold verify_vbft, verify_bookkeepers. solve_keeps.
Qed.

Lemma keeps_execute block : keeps index_part (executeBlock contracts block : LM ExecuteResult).
Proof. unfold executeBlock. solve_keeps. Qed.
#[local] Hint Resolve keeps_verify keeps_execute : keeps.

Lemma triple_get {B} P Q (k : LS → LM B) : (∀ l0, triple (λ l, P l ∧ l = l0) (k l0) Q) → triple P (get_state ≫= k) Q.
Proof. intros Hk l Hl. apply (Hk l l). done. Qed.

Lemma triple_frame_bind {A B} P Q (m : LM A) (k : A → LM B) :
  of_index P → keeps index_part m → (∀ a, triple P (k a) Q) → triple P (m ≫= k) Q.
Proof. intros HP Hm. apply triple_bind. by apply triple_frame. Qed.

Lemma triple_fail {A} P Q e : (∀ l, P l → index_ok l) → triple P (fail e : LM A) Q.
Proof. intros HP l Hl. split; [by apply HP|done]. Qed.

Lemma of_index_ok : of_index (index_ok : LS → Prop).
Proof. split; [done|]. intros l l' E1 E2. unfold index_ok. by rewrite E1, E2. Qed.

Lemma triple_lock {A} P Q (m : LM A) : of_index P → of_index Q → triple P m Q → triple P (with_lock m) Q.
Proof.
  intros [_ HP] [HI HQ] Hm l Hl. unfold with_lock. destruct (Hm (set_saving true l)) as [Hi Hq]; [by apply (HP l)|].
  destruct (m (set_saving true l)) as [r l']. cbn [fst snd] in *. pose proof of_index_ok as [_ Hix].
  destruct (savingBlock l'); [|done]. cbn. split; [by apply (Hix l')|]. intros Hr. apply (HQ l'); [done..|by apply Hq].
Qed.

(** The ledger before and after a block of height [h] is put into the index. *)
Definition before (h : Z) l : Prop := index_ok l ∧ h = currBlockHeight l + 1 ∧ h < 2 ^ 32.
Definition after (h : Z) l : Prop := index_ok l ∧ 0 ≤ h ∧ is_Some (headerIndex l !! h).

Lemma of_index_before h : of_index (before h).
Proof. split; [by intros l []|]. intros l l' E1 E2. unfold before, index_ok. by rewrite E1, E2. Qed.
Lemma of_index_after h : of_index (after h).
Proof. split; [by intros l []|]. intros l l' E1 E2. unfold after, index_ok. by rewrite E1, E2. Qed.

Lemma triple_setHeaderIndex h hash : triple (before h) (setHeaderIndex h hash) (after h).
Proof.
  intros l ((n & Hc & Hcur & Hn) & Hh & Hlt). unfold setHeaderIndex, modify_ledger. cbn.
  assert (index_ok (set_index (<[h := hash]> (headerIndex l)) l)) as Hok.
  { exists (Z.max n (h + 1)). cbn. split_and!; [apply covers_insert; [done|lia]|lia|lia|lia]. }
  split; [done|]. intros _. split_and!; [done|lia|]. cbn. rewrite lookup_insert_eq. by eexists.
Qed.

Lemma triple_setCurrentBlock h hash : triple (after h) (setCurrentBlock h hash) index_ok.
Proof.
  intros l ((n & Hc & Hcur & Hn) & Hh & Hs). cbn.
  assert (index_ok (set_current h hash l)); [|done]. exists n. cbn. apply Hc in Hs. done.
Qed.

Lemma keeps_saveHeaderIndexList : keeps index_part (saveHeaderIndexList : LM unit).
Proof. unfold saveHeaderIndexList. solve_keeps. Qed.

Lemma triple_saveBlock block :
  triple (before (Height (blk_Header block))) (saveBlockToBlockStore block) (after (Height (blk_Header block))).
Proof.
  unfold saveBlockToBlockStore. apply triple_frame_bind; [apply of_index_before|apply keeps_res|]. intros hash.
  eapply triple_bind; [apply triple_setHeaderIndex|]. intros _.
  apply triple_frame; [apply of_index_after|]. apply same_bind; [apply same_wrap, keeps_saveHeaderIndexList|]. intros _. solve_keeps.
Qed.

Lemma triple_submitBlock block result : triple (before (Height (blk_Header block))) (submitBlock block result) index_ok.
Proof.
  unfold submitBlock. set (h := Height (blk_Header block)).
  apply triple_frame_bind; [apply of_index_before|apply keeps_res|]. intros hash.
  apply triple_frame_bind; [apply of_index_before|unfold led_GetBlockRootWithPreBlockHashes; solve_keeps|]. intros root.
  case_decide; [apply triple_fail; by intros l []|].
  do 3 (apply triple_frame_bind; [apply of_index_before|eauto with keeps|]; intros _).
  eapply triple_bind; [apply triple_wrap, triple_saveBlock|]. intros _.
  do 5 (apply triple_frame_bind; [apply of_index_after|unfold saveBlockToStateStore, saveBlockToEventStore; solve_keeps|]; intros _).
  apply triple_setCurrentBlock.
Qed.

Lemma triple_next_block block save :
  triple (before (Height (blk_Header block))) save index_ok → triple index_ok (next_block block save) index_ok.
Proof.
  intros Hsave. unfold next_block. apply triple_get. intros l0.
  assert (of_index (λ l, index_ok l ∧ currBlockHeight l = currBlockHeight l0)) as Hof.
  { split; [by intros l []|]. intros l l' E1 E2. unfold index_ok. by rewrite E1, E2. }
  case_decide as Hle; [intros l [? _]; by split|]. case_decide as Hh; [apply triple_fail; by intros l []|].
  apply (triple_weaken (λ l, index_ok l ∧ currBlockHeight l = currBlockHeight l0) _ index_ok); [|by intros l [? ->]|done].
  apply triple_frame_bind; [done|apply same_wrap, keeps_verify|]. intros peers.
  apply triple_frame_bind; [done|eauto with keeps|]. intros _.
  eapply triple_bind.
  - eapply triple_weaken; [apply triple_wrap, Hsave| |done]. intros l [Hi Hc]. split; [done|].
    destruct Hi as (n & _ & Hcur & Hn). unfold uwrap in Hh. rewrite Hc in *. apply Z.nle_gt in Hle.
    destruct (decide (currBlockHeight l0 + 1 = 2 ^ 32)) as [E|]; [rewrite E in Hh; change (2 ^ 32 mod 2 ^ 32) with 0 in Hh; lia|].
    rewrite Z.mod_small in Hh by lia. lia.
  - intros _. apply triple_frame; [apply of_index_ok|]. apply same_bind; [apply keeps_res|]. intros hash. unfold delHeaderCache. eauto with keeps.
Qed.

Lemma triple_AddHeader header : triple index_ok (AddHeader header : LM unit) index_ok.
Proof.
  unfold AddHeader. apply triple_get. intros l0.
  assert (of_index (λ l, index_ok l ∧ headerIndex l = headerIndex l0)) as Hof.
  { split; [by intros l []|]. intros l l' E1 E2. unfold index_ok. by rewrite E1, E2. }
  case_decide as Hh; [apply triple_fail; by intros l []|].
  apply (triple_weaken (λ l, index_ok l ∧ headerIndex l = headerIndex l0) _ index_ok); [|by intros l [? ->]|done].
  apply triple_frame_bind; [done|apply same_wrap, keeps_verify|]. intros peers.
  apply triple_frame_bind; [done|eauto with keeps|]. intros _.
  apply triple_frame_bind; [done|unfold addHeaderCache; apply same_bind; [apply keeps_res|intros; eauto with keeps]|]. intros _.
  apply triple_frame_bind; [done|apply keeps_res|]. intros hash l [(n & Hc & Hcur & Hn) E].
  assert (index_ok (set_index (<[Height header := hash]> (headerIndex l)) l)) as Hok; [|done].
  rewrite Hh, (header_height_covers l0 n) by first [by rewrite <- E|lia].
  exists (Z.max n (u32 (n - 1 + 1) + 1)). cbn. replace (n - 1 + 1) with n by lia.
  pose proof (uwrap_range 32 n) as [Hr0 Hr]; [lia|]. assert (u32 n ≤ n) by (unfold uwrap; apply Z.mod_le; lia).
  split_and!; [apply covers_insert; [done|lia]|lia|lia|lia].
Qed.

Lemma triple_add_headers headers : triple index_ok (add_headers headers : LM unit) index_ok.
Proof.
  induction headers as [|h headers IH]; cbn; [by intros l; split|].
  eapply triple_bind; [apply triple_AddHeader|]. by intros _.
Qed.

Lemma triple_saveBlock' block root : triple (before (Height (blk_Header block))) (saveBlock contracts block root) index_ok.
Proof.
  set (h := Height (blk_Header block)). unfold saveBlock. apply triple_get. intros l0.
  eapply (triple_weaken (before h)); [|by intros l []|done].
  case_match; [intros l []; by split|]. apply triple_lock; [apply of_index_before|apply of_index_ok|].
  apply triple_get. intros l1. eapply (triple_weaken (before h)); [|by intros l []|done].
  case_decide; [intros l []; by split|].
  apply triple_frame_bind; [apply of_index_before|apply keeps_execute|]. intros result.
  case_decide; [apply triple_fail; by intros l []|]. apply triple_submitBlock.
Qed.

(** The operations of the ledger after it was opened, whatever they return. *)
Inductive ledger_step : LS → LS → Prop :=
  | step_AddHeader header l : ledger_step l (AddHeader header l).2
  | step_AddHeaders headers l : ledger_step l (AddHeaders headers l).2
  | step_ExecuteBlock block l : ledger_step l (ExecuteBlock contracts block l).2
  | step_SubmitBlock block result l : savingBlock l = false → ledger_step l (SubmitBlock block result l).2
  | step_AddBlock block root l : ledger_step l (AddBlock contracts block root l).2.

Lemma triple_ok {A} (m : LM A) l : triple index_ok m index_ok → index_ok l → index_ok (m l).2.
Proof. intros Hm Hl. by destruct (Hm l Hl). Qed.

Lemma index_ok_step l l' : ledger_step l l' → index_ok l → index_ok l'.
Proof.
  intros [header l0|headers l0|block l0|block result l0 _|block root l0] Hl.
  - apply triple_ok; [apply triple_AddHeader|done].
  - apply (triple_ok (add_headers _)); [apply triple_add_headers|done].
  - apply triple_ok; [|done]. apply triple_lock; [apply of_index_ok..|]. apply triple_frame; [apply of_index_ok|].
    solve_keeps.
  - apply triple_ok; [|done]. apply triple_lock; [apply of_index_ok..|]. apply triple_next_block, triple_submitBlock.
  - apply triple_ok; [|done]. apply triple_next_block, triple_saveBlock'.
Qed.

(** The index holds a hash for every height up to that of the last header, and for
    no other; the current block is one of them. *)
Definition no_gaps l : Prop :=
  (∀ h, is_Some (headerIndex l !! h) ↔ 0 ≤ h ≤ GetCurrentHeaderHeight l) ∧
  0 ≤ currBlockHeight l ≤ GetCurrentHeaderHeight l ∧ GetCurrentHeaderHeight l < 2 ^ 32.

Lemma no_gaps_index l : no_gaps l ↔ index_ok l.
Proof.
  split.
  - intros (Hc & Hcur & Hn). exists (GetCurrentHeaderHeight l + 1). split_and!; [|lia..]. intros h. rewrite (Hc h). lia.
  - intros (n & Hc & Hcur & Hn). unfold no_gaps. rewrite (header_height_covers l n) by (done || lia).
    split_and!; [|lia..]. intros h. rewrite (Hc h). lia.
Qed.

(** C28 (the header index has no gaps).  Along every run of the ledger's operations,
    with any headers and blocks and whatever each operation returns, also when it
    fails half-way, the index holds exactly the heights up to the one that
    [GetCurrentHeaderHeight] computes from its size, and the current block is not
    above it. *)
Theorem header_index_ok l l' : rtc ledger_step l l' → no_gaps l → no_gaps l'.
Proof. rewrite !no_gaps_index. intros Hr. induction Hr; eauto using index_ok_step. Qed.
End index.

(** ** A ledger of seven peers *)

#[local] Existing Instance ex_rand.

#[local] Instance header_le_dec : RelDecision (λ h1 h2 : Header, Height h1 ≤ Height h2) := λ h1 h2, decide (Height h1 ≤ Height h2).
#[local] Instance header_le_total : Total (λ h1 h2 : Header, Height h1 ≤ Height h2).
Proof. intros h1 h2. lia. Qed.

#[export] Program Instance ex_env : LedgerEnv := {|
  ledger_config := mkConfig 1 true;
  ConsensusType := gs "VBFT";
  UnmarshalBlockInfo _ := Ok (mkVbftBlockInfo 0 [] [] 0 None);
  SortHeaders := merge_sort (λ h1 h2, Height h1 ≤ Height h2);
|}.
Next Obligation. intros l. apply merge_sort_Permutation. Qed.
Next Obligation. intros l. apply Sorted_merge_sort. apply _. Qed.

#[export] Instance ex_notify : NotifyCodec := {| MarshalNotify n := Ok (to_slice (en_TxHash n)); UnmarshalNotify _ := Err "unexpected end of JSON input" |}.

Lemma run_ok {S A} (d : A) (x : res A * S) : is_ok x.1 = true → x = (Ok (ok_or d x.1), x.2).
Proof. by destruct x as [[] ?]. Qed.

(** The header at [height], after the one with the hash, signed by the keys. *)
Definition ex_signed (height : Z) (prev : Uint256) (root : Uint256) (signers : list Z) : Header :=
  let u := mkHeader 0 0 prev EMPTY_HASH EMPTY_HASH root (1000 + height) height 0 [] ADDRESS_EMPTY [] [] in
  let hash := ok_or EMPTY_HASH (Header_Hash u) in
  header_with u (ex_pk <$> signers : list PublicKey) ((λ i, ex_sign i (to_slice hash)) <$> signers).
Definition ex_hash_of (h : Header) : Uint256 := ok_or EMPTY_HASH (Header_Hash h).
Definition ex_genesis : Header := ex_signed 0 EMPTY_HASH EMPTY_HASH [].

Definition ex_seven : gmap bytes Z := list_to_map ((λ i, (PubkeyID (ex_pk i : PublicKey), i)) <$> seqZ 1 7).

Definition ex_ledger : LedgerStore (LevelDBStore (gmap bytes bytes)) (option (Uint256 * Block)) (option (Uint256 * (Transaction * Z))) :=
  mkLedger ex_bs (mkStateStore (mkLevelDBStore ∅ None) no_tree None 0) (mkLevelDBStore ∅ None) 0 0 (ex_hash_of ex_genesis)
    {[ex_hash_of ex_genesis := ex_genesis]} {[0 := ex_hash_of ex_genesis]} false ex_seven ex_seven.

(** One signature of seven peers is enough for the first header. *)
Definition ex_first : Header := ex_signed 1 (ex_hash_of ex_genesis) EMPTY_HASH [3].

Definition ex_verify := verifyHeader ex_first ex_seven ex_ledger.

Lemma verifyHeader_quorum_witness :
  size ex_seven = 7%nat ∧
  ∃ hash ids, Header_Hash ex_first = Ok hash ∧ NoDup ids ∧ blen ids = 1 ∧
    ∀ id, id ∈ ids → is_Some (ex_seven !! id) ∧
      ∃ pk sg, PubkeyID pk = id ∧ pk ∈ Bookkeepers ex_first ∧ sg ∈ h_SigData ex_first ∧ Verify pk (to_slice hash) sg = Ok tt.
Proof.
  split; [by vm_compute|].
  destruct (verifyHeader_quorum ex_first ex_seven ex_ledger (ok_or ∅ ex_verify.1) ex_verify.2)
    as (prev & hash & blk & ids & _ & _ & _ & Hh & Hnd & Hq & Hall & _).
  - by vm_compute.
  - done.
  - apply run_ok. by vm_compute.
  - exists hash, ids. rewrite decide_False in Hq by (intros [_ Hlt]; revert Hlt; by vm_compute).
    split; [exact Hh|]. split; [exact Hnd|]. split; [|exact Hall]. rewrite Hq. by vm_compute.
Defined.

(** The first header is added, then submitting a block of the same height fails. *)
Definition ex_added := (AddHeader ex_first ex_ledger).2.
Definition ex_submitted := (SubmitBlock (mkBlock ex_first []) (mkExecuteResult None [] EMPTY_HASH EMPTY_HASH EMPTY_HASH []) ex_added).2.

Lemma ex_ledger_no_gaps : no_gaps ex_ledger.
Proof.
  split_and!; try done. intros h. cbn [headerIndex ex_ledger]. destruct (decide (h = 0)) as [->|].
  - rewrite lookup_singleton_eq. split; [done|by eexists].
  - rewrite lookup_singleton_ne by done. split; [by intros []|]. intros Hh. change (GetCurrentHeaderHeight ex_ledger) with 0 in Hh. lia.
Qed.

Lemma header_index_ok_witness : GetCurrentHeaderHeight ex_submitted = 1 ∧ no_gaps ex_submitted.
Proof.
  split; [by vm_compute|]. refine (header_index_ok ∅ ex_ledger _ _ ex_ledger_no_gaps).
  apply (rtc_l _ _ ex_added); [exact (step_AddHeader ∅ ex_first ex_ledger)|].
  apply rtc_once. refine (step_SubmitBlock ∅ _ _ ex_added _). by vm_compute.
Defined.
