(* ===== verification/LedgerChain.v ===== *)
(** * The chain of blocks in the ledger

    [AddBlock_advances]: an accepted block commits to the blocks before it and to
    the state it leads to, and what is stored afterwards is the result of running
    its transactions one after the other.  [recoverStore_breaks]: the recovery after
    a crash between the commits executes the wrong block, and the state store
    cannot be opened again. *)

From S2P Require Import Prelude Sha256 TxRoot Sink Source Serialization BytesOrder MemDB OverlayDB CacheDB Contract MerkleUtil MerkleSpec MerkleHasher HashStore MerkleTree Native ExCrypto Codec Types BlockBinding Signature LedgerExec StateStore BlockStore BlockStoreSpec StateSpec EventStore Ledger LedgerSpec.

Section chain.
Context `{Hasher} `{Crypto} `{Rand} `{!SigScheme} `{!LedgerEnv} `{NotifyCodec} `{PersistStore PS} `{ARC Block CB} `{ARC (Transaction * Z) CT}.
Context (contracts : Registry).
Abbreviation LS := (LedgerStore PS CB CT).
Abbreviation LM := (M LS).
Implicit Types l : LS.

(** ** Parts of a run *)

Lemma same_run {T A} (part : LS → T) (m : LM A) l r l' : keeps part m → m l = (r, l') → part l' = part l.
Proof. intros Hm E. specialize (Hm l). by rewrite E in Hm. Qed.

Lemma wrap_inv {S A} p (m : M S A) s a s' : wrap_err p m s = (Ok a, s') → m s = (Ok a, s').
Proof. unfold wrap_err. by destruct (m s) as [[] ?]. Qed.

Lemma of_option_inv {S A} (o : option A) (s : S) a s' : of_option o s = (Ok a, s') → o = Some a ∧ s' = s.
Proof. destruct o; cbn; [by intros [= -> ->]|by unfold panic]. Qed.

Lemma on_state_inv {A} (m : M _ A) l a l' : on_state m l = (Ok a, l') → m (stateStore l) = (Ok a, stateStore l').
Proof. unfold on_state. destruct (m (stateStore l)) as [r s]. by intros [= -> <-]. Qed.

(** What is executed: [writes] are the values the block writes. *)
Record executed block l (result : ExecuteResult) (writes : list entry) : Prop := {
  exe_writes : (WriteSet result ≫= ForEach) = Some writes;
  exe_sorted : sorted_entries writes;
  exe_storage : Forall is_storage writes;
  exe_croot : if decide (er_CrossHashes result = []) then er_CrossStatesRoot result = EMPTY_HASH
             else HashFullTreeWithLeafHash (er_CrossHashes result) = Some (er_CrossStatesRoot result);
  exe_hash : er_Hash result = Sum256 (mjoin ((λ e, e.1 ++ e.2) <$> writes));
  exe_root : (delta ← deltaMerkleTree (stateStore l); GetRootWithNewLeaf (er_Hash result) delta) = Some (MerkleRoot result);
  exe_run : ∃ m', atomic_txs contracts block (Transactions block) [] [] (storage_of (ps_view (ss_store (stateStore l)))) =
      (Ok (er_Notify result, er_CrossHashes result), m') ∧
    ∀ k, kv_at m' k = seen (to_gmap writes) (ps_view (ss_store (stateStore l))) (ST_STORAGE :: k);
}.

Lemma executeBlock_ok block l result l' :
  store_ok (ss_store (stateStore l)) → executeBlock contracts block l = (Ok result, l') →
  stateStore l' = stateStore l ∧ ∃ writes, executed block l result writes.
Proof.
  intros Hs E. unfold executeBlock in E. apply bind_inv_ok in E as (l0 & l1 & [= <- <-] & E).
  destruct (exec_txs_sim contracts block (Transactions block) [] [] (NewCacheDB (NewOverlayDB (ss_store (stateStore l)))) _ (block_sim_new _ Hs))
    as (r & c' & m' & E1 & E2 & Hok).
  rewrite E1 in E. destruct r as [[notifies cross]|e|]; [|done..]. destruct (Hok _ eq_refl) as [(bw & (ns & Hmem & Hbw) & _ & _ & Hsto & Hk) Hst].
  apply bind_inv_ok in E as (croot & l2 & Ec & E). apply bind_inv_ok in E as (hash & l3 & Eh & E).
  apply bind_inv_ok in E as (root & l4 & Er & E). injection E as <- <-. injection Eh as Eh <-.
  assert (l2 = l ∧ if decide (cross = []) then croot = EMPTY_HASH else HashFullTreeWithLeafHash cross = Some croot) as [-> Hc].
  { destruct cross as [|c cross].
    - rewrite decide_False in Ec by (intros Hn; by apply Hn). injection Ec as <- <-. by rewrite decide_True.
    - rewrite decide_True in Ec by (cbn; lia). rewrite decide_False by done. by apply of_option_inv in Ec as [Ec ->]. }
  unfold ov_ChangeHash, mbind, M_bind, get_state in Eh. cbn beta iota in Eh. rewrite (ForEach_ok _ _ Hmem) in Eh. injection Eh as <-.
  apply on_state_inv in Er as Er'. unfold GetStateMerkleRootWithNewHash in Er'.
  apply bind_inv_ok in Er' as (ss & ss1 & [= <- <-] & Er'). apply bind_inv_ok in Er' as (delta & ss2 & Ed & Er').
  apply of_option_inv in Ed as [Edl ->]. apply of_option_inv in Er' as [Hroot Hst4].
  split; [done|]. exists (entries ns). split; cbn [WriteSet er_CrossHashes er_CrossStatesRoot er_Hash MerkleRoot er_Notify].
  - exact (ForEach_ok _ _ Hmem).
  - apply Hmem.
  - apply Forall_forall. intros [k v] Hin. apply (to_gmap_lookup _ _ _ (m_sorted _ _ Hmem)) in Hin. rewrite Hbw in Hin. by apply Hsto in Hin.
  - done.
  - done.
  - by rewrite Edl.
  - exists m'. split; [done|]. intros k. by rewrite Hk, Hst, <- Hbw.
Qed.

(** ** Saving *)

Lemma commit_state_parts height hash prev ws cross croot writes (ss ss1 ss2 ss3 : StateStore PS fileHashStore) :
  ss_NewBatch ss = (Ok tt, ss1) → save_state height hash prev ws cross croot (Some writes) ss1 = (Ok tt, ss2) →
  ss_CommitTo ss2 = (Ok tt, ss3) → commit_state height hash prev ws cross croot writes ss = (Ok tt, ss3).
Proof. intros E1 E2 E3. unfold commit_state. by rewrite (bind_ok _ _ _ _ _ E1), (bind_ok _ _ _ _ _ E2). Qed.

Lemma saveBlockToStateStore_state block result l l' :
  saveBlockToStateStore block result l = (Ok tt, l') →
  ∃ hash, Block_Hash block = Ok hash ∧
    save_state (Height (blk_Header block)) hash (PrevBlockHash (blk_Header block)) (er_Hash result) (er_CrossHashes result)
      (er_CrossStatesRoot result) (WriteSet result ≫= ForEach) (stateStore l) = (Ok tt, stateStore l').
Proof.
  unfold saveBlockToStateStore. intros E. apply bind_inv_ok in E as (hash & l1 & [= E1 <-] & E).
  apply bind_inv_ok in E as ([] & l2 & E2 & E). apply (same_run stateStore) in E2; [|eauto with keeps].
  exists hash. split; [done|]. apply on_state_inv in E. by rewrite E2 in E.
Qed.

Lemma keeps_saveEvents {T} (part : LS → T) block :
  (∀ e l, part (set_events e l) = part l) → keeps part (saveBlockToEventStore block).
Proof. intros Hp. unfold saveBlockToEventStore. pose proof (@keeps_event). solve_keeps; by apply keeps_event. Qed.

Lemma submitBlock_ok block result writes l l' :
  (WriteSet result ≫= ForEach) = Some writes → submitBlock block result l = (Ok tt, l') →
  let h := blk_Header block in
  ∃ hash root l1, Block_Hash block = Ok hash ∧
    led_GetBlockRootWithPreBlockHashes (Height h) [PrevBlockHash h] l = (Ok root, l1) ∧ (Height h ≠ 0 → root = BlockRoot h) ∧
    (stateStore l1 = stateStore l →
     commit_state (Height h) hash (PrevBlockHash h) (er_Hash result) (er_CrossHashes result) (er_CrossStatesRoot result) writes (stateStore l) =
       (Ok tt, stateStore l')) ∧
    currBlockHeight l' = Height h ∧ currBlockHash l' = hash.
Proof.
  intros Hw E h. unfold submitBlock in E. apply bind_inv_ok in E as (hash & l0 & [= Eh <-] & E).
  apply bind_inv_ok in E as (root & l1 & Er & E). case_decide as Hr; [done|].
  apply bind_inv_ok in E as ([] & l2 & E2 & E). apply (same_run stateStore) in E2; [|eauto with keeps].
  apply bind_inv_ok in E as ([] & l3 & E3%on_state_inv & E).
  apply bind_inv_ok in E as ([] & l4 & E4 & E). apply (same_run stateStore) in E4; [|eauto with keeps].
  apply bind_inv_ok in E as ([] & l5 & E5%wrap_inv & E).
  apply (same_run stateStore) in E5; [|unfold saveBlockToBlockStore, setHeaderIndex, saveHeaderIndexList; solve_keeps].
  apply bind_inv_ok in E as ([] & l6 & E6%wrap_inv & E). apply saveBlockToStateStore_state in E6 as (hash' & Eh' & E6).
  rewrite Eh in Eh'. injection Eh' as <-. rewrite Hw in E6.
  apply bind_inv_ok in E as ([] & l7 & E7%wrap_inv & E). apply (same_run stateStore) in E7; [|by apply keeps_saveEvents].
  apply bind_inv_ok in E as ([] & l8 & E8%wrap_inv & E). apply (same_run stateStore) in E8; [|eauto with keeps].
  apply bind_inv_ok in E as ([] & l9 & E9%wrap_inv & E). apply (same_run stateStore) in E9; [|eauto with keeps].
  apply bind_inv_ok in E as ([] & l10 & E10%wrap_inv%on_state_inv & E). injection E as <-.
  exists hash, root, l1. split_and!; try done.
  - intros H0'. destruct (decide (root = BlockRoot h)); [done|]. exfalso. by apply Hr.
  - intros Hl1. rewrite E2, Hl1 in E3. rewrite E5, E4 in E6. rewrite E9, E8, E7 in E10. exact (commit_state_parts _ _ _ _ _ _ _ _ _ _ _ E3 E6 E10).
Qed.

(** ** Accepting a block *)

(** The ledger after the blocks whose predecessors have the leaf hashes [D] and whose
    write sets have the leaf hashes [W]. *)
Record chain_rep l (D W : list Uint256) : Prop := {
  cr_state : state_rep (stateStore l) D W (currBlockHash l);
  cr_height : currBlockHeight l + 1 = blen D;
}.

Lemma block_root_ok l D W h prev :
  chain_rep l D W → D ≠ [] → h = blen D → blen D + 1 < 2 ^ 32 →
  ∃ l1, led_GetBlockRootWithPreBlockHashes h [prev] l = (Ok (mth (D ++ [hash_leaf (to_slice prev)])), l1) ∧ stateStore l1 = stateStore l.
Proof.
  intros [Hst Hh] HD -> Hlen. assert (0 < length D)%nat by (destruct D; [done|cbn; lia]).
  unfold led_GetBlockRootWithPreBlockHashes. erewrite bind_ok by done. cbn [length]. change (u32 (Z.of_nat 1)) with 1.
  rewrite decide_False by (rewrite uwrap_small by (unfold in_range; lia); lia).
  replace (u32 (currBlockHeight l + 1 - blen D)) with 0 by (rewrite Hh, Z.sub_diag; done). rewrite decide_True by lia.
  unfold on_state, GetBlockRootWithPreBlockHashes. erewrite bind_ok by done. cbn [drop Z.to_nat].
  rewrite (GetRootWithNewLeaves_ok _ D [prev]); [by eexists|apply Hst|cbn; lia].
Qed.

(** Values after the commit. *)
Lemma committed_values m height hash ws D W cross croot writes k :
  sorted_entries writes →
  default [] (apply_batch m (save_ops height hash ws D W cross croot writes) !! (ST_STORAGE :: k)) =
    seen (to_gmap writes) m (ST_STORAGE :: k).
Proof.
  intros Hs. unfold save_ops. rewrite !apply_batch_app, apply_batch_lookup by done. unfold seen.
  destruct (to_gmap writes !! (ST_STORAGE :: k)) as [v|]; [case_decide; [by destruct v|done]|].
  unfold cross_ops. case_decide; cbn [apply_batch foldl]; by rewrite !lookup_insert_ne.
Qed.

Lemma with_lock_inv {A} (m : LM A) l a l' : with_lock m l = (Ok a, l') → ∃ l1, m (set_saving true l) = (Ok a, l1) ∧ l' = set_saving false l1.
Proof.
  unfold with_lock. destruct (m (set_saving true l)) as [r l1]. destruct (savingBlock l1); [|done].
  intros [= -> <-]. by eexists.
Qed.

(** Executing and submitting the next block. *)
Lemma saveBlock_advances block root l l' D W :
  chain_rep l D W → D ≠ [] → blen D + 1 < 2 ^ 32 → store_ok (ss_store (stateStore l)) → savingBlock l = false →
  Height (blk_Header block) = blen D → saveBlock contracts block root l = (Ok tt, l') →
  let h := blk_Header block in let view l := ps_view (ss_store (stateStore l)) in
  ∃ hash (ws : Uint256) notifies cross m', Block_Hash block = Ok hash ∧
    atomic_txs contracts block (Transactions block) [] [] (storage_of (view l)) = (Ok (notifies, cross), m') ∧
    (∀ k, default [] (view l' !! (ST_STORAGE :: k)) = kv_at m' k) ∧
    BlockRoot h = mth (D ++ [hash_leaf (to_slice (PrevBlockHash h))]) ∧ root = mth (W ++ [hash_leaf (to_slice ws)]) ∧
    currBlockHash l' = hash ∧ chain_rep l' (D ++ [hash_leaf (to_slice (PrevBlockHash h))]) (W ++ [hash_leaf (to_slice ws)]).
Proof.
  intros Hrep HD Hlen Hs Hsav Hh E h view. assert (0 < length D)%nat by (destruct D; [done|cbn; lia]).
  unfold saveBlock in E. apply bind_inv_ok in E as (l0 & l1 & [= <- <-] & E). rewrite Hsav in E.
  apply with_lock_inv in E as (l2 & E & ->). apply bind_inv_ok in E as (l0 & l1 & [= <- <-] & E). cbn [currBlockHeight set_saving] in E.
  rewrite decide_False in E by (rewrite uwrap_small by (unfold in_range; destruct Hrep; lia); destruct Hrep; lia).
  apply bind_inv_ok in E as (result & l3 & Ex & E).
  assert ((currBlockHeight l3, currBlockHash l3) = (currBlockHeight l, currBlockHash l)) as [= Hc1 Hc2].
  { apply (same_run (λ l, (currBlockHeight l, currBlockHash l))) in Ex; [done|]. unfold executeBlock. solve_keeps. }
  apply executeBlock_ok in Ex as (Hl3 & writes & Hex); [|done].
  destruct Hex as [Hw Hsort Hsto Hcr _ Hroot (m' & Hrun & Hvals)]. case_decide as Hmr; [done|].
  cbn [stateStore set_saving] in *.
  assert (chain_rep l3 D W) as Hrep3 by (destruct Hrep; split; [by rewrite Hl3, Hc2|by rewrite Hc1]).
  apply (submitBlock_ok _ _ writes) in E as (hash & broot & l4 & Eh & Eb & Hbr & Hcommit & Hh2 & Hhash); [|done].
  destruct (block_root_ok l3 D W (Height (blk_Header block)) (PrevBlockHash (blk_Header block)) Hrep3 HD Hh Hlen) as (l5 & E5 & Hl5).
  rewrite E5 in Eb. injection Eb as <- <-. specialize (Hcommit Hl5). rewrite Hh, Hl3 in Hcommit.
  destruct (commit_state_rep _ _ _ _ _ _ _ _ _ _ _ (cr_state _ _ _ Hrep) Hlen Hsto Hcommit) as [Hrep2 Hv].
  exists hash, (er_Hash result), (er_Notify result), (er_CrossHashes result), m'. split_and!; try done.
  - intros k. rewrite Hvals. unfold view. cbn [stateStore set_saving]. rewrite Hv. by apply committed_values.
  - symmetry. apply Hbr. lia.
  - destruct (sr_delta _ _ _ _ (cr_state _ _ _ Hrep)) as (t & Et & Hok & _). rewrite Et in Hroot. cbn [mbind option_bind] in Hroot.
    rewrite (GetRootWithNewLeaf_ok t W) in Hroot by done. congruence.
  - split; cbn [stateStore set_saving currBlockHash currBlockHeight]; [by rewrite Hhash|]. rewrite Hh2, Hh, length_app. cbn. lia.
Qed.

Lemma keeps_verify_part {T} (part : LS → T) header info :
  (∀ b l, part (set_blocks b l) = part l) → keeps part (verifyHeader header info : LM (gmap bytes Z)).
Proof.
  intros Hp. assert (∀ hash, keeps part (GetHeaderByHash hash : LM Header)) as Hg.
  { intros hash. unfold GetHeaderByHash. apply same_bind; [apply keeps_get|]. intros l. case_match; [apply keeps_ret|by apply keeps_block]. }
  unfold verifyHeader. case_decide; [apply keeps_ret|]. apply same_bind.
  - intros l. specialize (Hg (PrevBlockHash header) l). by destruct (GetHeaderByHash _ l) as [[]].
  - intros prev. unfold verify_vbft, verify_bookkeepers. solve_keeps.
Qed.


(** ** Recovery *)

Lemma on_block_inv {A} (m : M _ A) l a l' : on_block m l = (Ok a, l') → m (blockStore l) = (Ok a, blockStore l') ∧ stateStore l' = stateStore l.
Proof. unfold on_block. destruct (m (blockStore l)) as [r s]. by intros [= -> <-]. Qed.

(** What a pass of the loop commits to the state store. *)
Lemma recover_block_ok height l l' :
  (∀ s : PS, store_ok s) → recover_block contracts height l = (Ok tt, l') →
  ∃ bh b1 block b2 hash result writes,
    GetBlockHash height (blockStore l) = (Ok bh, b1) ∧ GetBlock bh b1 = (Ok block, b2) ∧ Block_Hash block = Ok hash ∧
    Forall is_storage writes ∧
    commit_state (Height (blk_Header block)) hash (PrevBlockHash (blk_Header block)) (er_Hash result) (er_CrossHashes result)
      (er_CrossStatesRoot result) writes (stateStore l) = (Ok tt, stateStore l').
Proof.
  intros Hs E. unfold recover_block in E.
  apply bind_inv_ok in E as (bh & l1 & [E1 S1]%wrap_inv%on_block_inv & E).
  apply bind_inv_ok in E as (block & l2 & [E2 S2]%wrap_inv%on_block_inv & E).
  apply bind_inv_ok in E as ([] & l3 & E3 & E). apply (same_run stateStore) in E3; [|eauto with keeps].
  apply bind_inv_ok in E as ([] & l4 & E4%on_state_inv & E).
  apply bind_inv_ok in E as (result & l5 & E5 & E). apply executeBlock_ok in E5 as (E5 & writes & [Hw _ Hsto _ _ _ _]); [|done].
  apply bind_inv_ok in E as ([] & l6 & E6%wrap_inv & E). apply saveBlockToStateStore_state in E6 as (hash & Eh & E6).
  apply bind_inv_ok in E as ([] & l7 & E7%wrap_inv & E). apply (same_run stateStore) in E7; [|by apply keeps_saveEvents].
  apply bind_inv_ok in E as ([] & l8 & E8%wrap_inv & E). apply (same_run stateStore) in E8; [|eauto with keeps].
  apply wrap_inv, on_state_inv in E. rewrite Hw, E5 in E6. rewrite E8, E7 in E. rewrite E3, S2, S1 in E4.
  exists bh, (blockStore l1), block, (blockStore l2), hash, result, writes. split_and!; try done.
  exact (commit_state_parts _ _ _ _ _ _ _ _ _ _ _ E4 E6 E).
Qed.

(** C29 (recovery executes the wrong block).  If the process stops after the block
    store was committed and before the state store was, the state store is one block
    behind when the ledger is opened.  Whenever [recoverStore] then succeeds, it has
    executed the last block of the state store once more instead of the missing one:
    the state store still names that block as its current one, but its tree of block
    hashes has one leaf too many, and opening the state store fails from then on,
    whatever the hash file holds. *)
Theorem recoverStore_breaks l l' D W hash bh b1 block b2 :
  (∀ s : PS, store_ok s) → state_rep (stateStore l) D W hash → D ≠ [] → blen D + 1 < 2 ^ 32 → currBlockHeight l = blen D →
  GetBlockHash (blen D - 1) (blockStore l) = (Ok bh, b1) → GetBlock bh b1 = (Ok block, b2) → Height (blk_Header block) = blen D - 1 →
  recoverStore contracts l = (Ok tt, l') →
  (∃ h, GetCurrentBlock (stateStore l') = (Ok (h, blen D - 1), stateStore l')) ∧
  ∀ contents, NewStateStore (ss_store (stateStore l')) contents = Err "init error merkle tree size is inconsistent with blockheight".
Proof.
  intros Hs Hrep HD Hlen Hcur Ebh Eb Hh E. assert (0 < length D)%nat by (destruct D; [done|cbn; lia]).
  unfold recoverStore in E. apply bind_inv_ok in E as (l0 & l1 & [= <- <-] & E).
  apply bind_inv_ok in E as ([h0 sh] & l1 & E1%wrap_inv & E).
  assert (blockStore l1 = blockStore l) as Hb1 by (apply (same_run blockStore) in E1; [done|eauto with keeps]).
  apply on_state_inv in E1. rewrite (GetCurrentBlock_ok _ D hash) in E1 by first [done|lia|apply Hrep]. rewrite decide_False in E1 by done.
  injection E1 as <- <- Hst1. rewrite Hcur in E. replace (Z.to_nat (blen D - (blen D - 1))) with 1%nat in E by lia.
  apply bind_inv_ok in E as ([] & l2 & E2 & E). injection E as <-.
  apply recover_block_ok in E2 as (bh' & b1' & block' & b2' & hash' & result & writes & Ebh' & Eb' & _ & Hw & Hc); [|done].
  rewrite Hb1, Ebh in Ebh'. injection Ebh' as <- <-. rewrite Eb in Eb'. injection Eb' as <- <-. rewrite Hh, <- Hst1 in Hc.
  destruct (commit_state_ok _ _ _ _ (blen D - 1) hash' (PrevBlockHash (blk_Header block)) (er_Hash result) (er_CrossHashes result)
    (er_CrossStatesRoot result) writes Hrep ltac:(lia) Hlen) as (r & s' & t & d & E' & _ & _ & _ & _ & [[-> Hv]|[[e ->] _]]);
    rewrite E' in Hc; [|done]. injection Hc as Hc. rewrite <- Hc. cbn [ss_store].
  edestruct save_ops_view as (_ & V2 & V3); [exact Hw|]. rewrite <- Hv in V2, V3.
  assert (∀ ss : StateStore PS fileHashStore, ss_store ss = s' → GetCurrentBlock ss = (Ok (hash', blen D - 1), ss)) as Hget.
  { intros ss <-. rewrite (GetCurrentBlock_ok ss D hash'), decide_False by first [done|lia|by rewrite decide_False]. done. }
  split; [exists hash'; by apply Hget|]. intros contents. unfold NewStateStore. rewrite Hget by done.
  unfold ss_init, GetBlockMerkleTree.
  rewrite (bind_ok _ _ _ (blen (D ++ [hash_leaf (to_slice (PrevBlockHash (blk_Header block)))]), roots (D ++ [hash_leaf (to_slice (PrevBlockHash (blk_Header block)))]))
    (mkStateStore s' no_tree None 0)).
  2:{ apply getMerkleTree_frontier; [rewrite length_app; cbn; lia|done|]. by rewrite decide_False by (by intros []%app_nil). }
  cbn beta iota. rewrite decide_True; [done|]. rewrite length_app, uwrap_small by (unfold in_range; lia). cbn. lia.
Qed.
End chain.

(** ** A chain of two blocks *)

#[local] Existing Instance ex_rand.

Definition ex_gen : Block := mkBlock ex_genesis [].
Definition ex_gen_hash : Uint256 := ex_hash_of ex_genesis.

(** The stores after the genesis block. *)
Definition ex_gen_commit := commit_state 0 ex_gen_hash EMPTY_HASH (ex_hash 2) [] EMPTY_HASH [] ex_ss.
Definition ex_gen_state : StateStore (LevelDBStore (gmap bytes bytes)) fileHashStore := ex_gen_commit.2.
Definition ex_gen_blocks : BlockStore (LevelDBStore (gmap bytes bytes)) (option (Uint256 * Block)) (option (Uint256 * (Transaction * Z))) :=
  ((bs_NewBatch ;; SaveBlockHash 0 ex_gen_hash ;; SaveBlock ex_gen ;; bs_CommitTo) ex_bs).2.
Definition ex_D : list Uint256 := [hash_leaf (to_slice EMPTY_HASH)].
Definition ex_W : list Uint256 := [hash_leaf (to_slice (ex_hash 2))].

Definition ex_chain (height : Z) : LedgerStore (LevelDBStore (gmap bytes bytes)) (option (Uint256 * Block)) (option (Uint256 * (Transaction * Z))) :=
  mkLedger ex_gen_blocks ex_gen_state (mkLevelDBStore ∅ None) 0 height ex_gen_hash ∅ {[0 := ex_gen_hash]} false ex_seven ex_seven.

Lemma ex_gen_rep : state_rep ex_gen_state ex_D ex_W ex_gen_hash.
Proof.
  apply (commit_state_rep ex_ss [] [] EMPTY_HASH ex_gen_hash EMPTY_HASH (ex_hash 2) [] EMPTY_HASH []); [apply ex_ss_rep|done|done|].
  assert (is_ok ex_gen_commit.1 = true) by (by vm_compute). unfold ex_gen_state. change (commit_state _ _ _ _ _ _ _ _) with ex_gen_commit.
  by destruct ex_gen_commit as [[[]| |] ?].
Qed.

Definition ex_next : Block :=
  mkBlock (ex_signed 1 ex_gen_hash (mth (ex_D ++ [hash_leaf (to_slice ex_gen_hash)])) [3]) [ex_tx 1 "inc"].
Definition ex_next_root : Uint256 := match (executeBlock ex_registry ex_next (ex_chain 0)).1 with Ok r => MerkleRoot r | _ => EMPTY_HASH end.
Definition ex_add := AddBlock ex_registry ex_next ex_next_root (ex_chain 0).


Definition ex_recover := recoverStore ex_registry (ex_chain 1).

Lemma recoverStore_breaks_witness :
  is_ok ex_recover.1 = true ∧
  ∀ contents, NewStateStore (ss_store (stateStore ex_recover.2)) contents = Err "init error merkle tree size is inconsistent with blockheight".
Proof.
  assert (is_ok ex_recover.1 = true) as Ho by (by vm_compute). split; [exact Ho|].
  set (r1 := GetBlockHash 0 ex_gen_blocks). set (r2 := GetBlock (ok_or EMPTY_HASH r1.1) r1.2).
  refine (proj2 (recoverStore_breaks ex_registry (ex_chain 1) ex_recover.2 ex_D ex_W ex_gen_hash (ok_or EMPTY_HASH r1.1) r1.2 (ok_or ex_gen r2.1) r2.2
    ex_store_ok ex_gen_rep _ _ _ _ _ _ _)).
  - done.
  - done.
  - done.
  - apply (run_ok EMPTY_HASH r1). by vm_compute.
  - apply (run_ok ex_gen r2). by vm_compute.
  - by vm_compute.
  - change (recoverStore _ _) with ex_recover. by destruct ex_recover as [[[]| |] ?].
Defined.
