(* ===== verification/VbftNode.v ===== *)
(** * Participants and commit quorums of VBFT
    (consensus/vbft/types.go, msg_types.go, node_utils.go, utils.go; config/config.go,
    config/genesis.go)

    The table from which the participants of a round are drawn, the selection by a
    random value, and the count that decides whether a block is committed.  JSON,
    FNV-1a, SHA-512 and the health of peers are parameters. *)

From S2P Require Import Prelude Sha256 TxRoot Sink Source Serialization BytesOrder MemDB OverlayDB CacheDB Contract MerkleUtil MerkleSpec MerkleHasher HashStore MerkleTree Native ExCrypto Codec Types Signature NodeStates LedgerExec StateStore BlockStore EventStore Ledger.

Definition MaxUint32 : Z := 2 ^ 32 - 1.

(** ** config/config.go *)

Definition VRF_SIZE : nat := 64.
Definition MAX_PROPOSER_COUNT : Z := 32.
Definition MAX_ENDORSER_COUNT : Z := 240.
Definition MAX_COMMITTER_COUNT : Z := 240.
Definition VRFValue : Type := array VRF_SIZE.
Definition IsNil (v : VRFValue) : bool := bool_decide (v = zero_array VRF_SIZE).

(** ** config/genesis.go *)

Definition SCALE : Z := 15.
Definition DEFAULT_POS : Z := 100000.

(** [math.Ceil(float64(DEFAULT_POS) * float64(scale) * float64(k) / float64(sum))]:
    the operands are below 2^53, so that the product and the quotient are exact. *)
Definition peer_rank (k n : Z) : Z :=
  let sum := n * DEFAULT_POS in
  let num := DEFAULT_POS * SCALE * k in
  (num + sum - 1) / sum.

Definition add_peer (chainPeers : gmap Z PeerConfig) (p : VBFTPeerInfo) : gmap Z PeerConfig :=
  <[vp_Index p := mkPeerConfig (vp_Index p) (vp_PeerPubkey p)]> chainPeers.

(** [posTable[i], posTable[j] = posTable[j], posTable[i]]. *)
Definition swap_at (i j : nat) (l : list Z) : res (list Z) :=
  match l !! i, l !! j with
  | Some a, Some b => Ok (<[j := a]> (<[i := b]> l))
  | _, _ => Panic
  end.

(** What is outside of the repository. *)
Class VbftEnv := {
  shuffle_hash : Z → bytes → Z → res Z;          (* JSON and FNV-1a *)
  seed_hash : Z → Z → Uint256 → bytes → res VRFValue; (* JSON, SHA-512 twice *)
}.

(** The loop runs for [i = n, ..., 1]. *)
Fixpoint shuffle `{VbftEnv} (height : Z) (chainPeers : gmap Z PeerConfig) (n : nat) (posTable : list Z) : res (list Z) :=
  match n with
  | O => Ok posTable
  | S n' =>
      match posTable !! n with
      | None => Panic
      | Some x =>
          match chainPeers !! x with
          | None => Panic
          | Some peer =>
              match shuffle_hash height (pc_ID peer) (Z.of_nat n) with
              | Err e => Err ("failed to calculate hash value: " +:+ e)
              | Panic => Panic
              | Ok h =>
                  match swap_at n (Z.to_nat (h mod Z.of_nat n)) posTable with
                  | Ok t => shuffle height chainPeers n' t
                  | e => e
                  end
              end
          end
      end
  end.

Definition GenesisChainConfig `{VbftEnv} (conf : VBFTConfig) (peers : list VBFTPeerInfo) (height : Z) : res ChainConfig :=
  let k := u32 (blen peers) in
  let rank := peer_rank k (blen peers) in
  let peers := take (Z.to_nat k) peers in
  let chainPeers := foldl add_peer ∅ peers in
  let posTable := mjoin ((λ p, replicate (Z.to_nat rank) (vp_Index p)) <$> peers) in
  match shuffle height chainPeers (pred (length posTable)) posTable with
  | Err e => Err e
  | Panic => Panic
  | Ok posTable =>
      Ok (mkChainConfig 1 1 k (k / 3) (vc_BlockMsgDelay conf * 1000000) (vc_HashMsgDelay conf * 1000000)
            (vc_PeerHandshakeTimeout conf * 1000000000)
            ((λ p, chainPeers !! vp_Index p) <$> peers) posTable (vc_MaxBlockChangeView conf))
  end.

(** ** types.go *)

Record VBlock `{Crypto} := mkVBlock { vb_Block : Block; EmptyBlock : option Block; vb_Info : VbftBlockInfo }.
Arguments mkVBlock {_}.
Definition getProposer `{Crypto} (blk : VBlock) : Z := Proposer (vb_Info blk).
Definition getBlockNum `{Crypto} (blk : VBlock) : Z := Height (blk_Header (vb_Block blk)).

(** ** utils.go *)

Definition getParticipantSelectionSeed `{Crypto} `{VbftEnv} (block : VBlock) : VRFValue :=
  match seed_hash (u32 (getBlockNum block + 1)) (getProposer block) (BlockRoot (blk_Header (vb_Block block)))
          (VrfValue (vb_Info block)) with
  | Ok v => v
  | _ => zero_array VRF_SIZE
  end.

(** ** node_utils.go: participants *)

Record BlockParticipantConfig := mkParticipants {
  bp_BlockNum : Z;
  bp_L : Z;                          (* never set *)
  bp_Vrf : VRFValue;
  bp_ChainConfig : ChainConfig;
  Proposers : list Z;
  Endorsers : list Z;
  Committers : list Z;
}.

Definition checkCalcEndorserOrCommitter (end_ : Z) : bool :=
  bool_decide (end_ = MAX_ENDORSER_COUNT + MAX_PROPOSER_COUNT ∨
               end_ = MAX_PROPOSER_COUNT + MAX_ENDORSER_COUNT + MAX_COMMITTER_COUNT).

Definition calcParticipant (vrf : VRFValue) (dposTable : list Z) (k : Z) : res Z :=
  let bIdx := k / 8 in
  let bits1 := k mod 8 in
  let bits2 := 8 + bits1 in
  if decide (512 ≤ k) then Ok MaxUint32 else
  match to_slice vrf !! Z.to_nat bIdx with
  | None => Panic
  | Some b1 =>
      let v1 := Z.shiftr (byte_to_Z b1) bits1 in
      match (if decide (bIdx + 1 < blen (to_slice vrf)) then to_slice vrf !! Z.to_nat (bIdx + 1) else to_slice vrf !! 0%nat) with
      | None => Panic
      | Some b2 =>
          let v2 := Z.land (byte_to_Z b2) (Z.shiftl 1 bits2 - 1) in
          let v := u32 (u32 (Z.shiftl v2 (8 - bits1)) + v1) in
          let n := u32 (blen dposTable) in
          if decide (n = 0) then Panic (* integer divide by zero *)
          else match dposTable !! Z.to_nat (v mod n) with Some x => Ok x | None => Panic end
      end
  end.

(** The first proposers, up to [C] of them but at least one. *)
Fixpoint first_proposers (proposers : list Z) (C : Z) (proposerMap : gset Z) : gset Z :=
  match proposers with
  | [] => proposerMap
  | p :: rest =>
      let proposerMap := {[p]} ∪ proposerMap in
      if decide (C ≤ u32 (Z.of_nat (size proposerMap))) then proposerMap else first_proposers rest C proposerMap
  end.

(** The endless loop [for i := start; ; i++]; [None]: the fuel is used up.  [peerMap]
    holds the elements of [peers]. *)
Fixpoint participants_loop (vrf : VRFValue) (chain : ChainConfig) (proposerMap : gset Z) (end_ : Z)
    (fuel : nat) (i : Z) (peers : list Z) : option (res (list Z)) :=
  match fuel with
  | O => None
  | S fuel' =>
      let next := participants_loop vrf chain proposerMap end_ fuel' (i + 1) in
      match calcParticipant vrf (PosTable chain) (u32 i) with
      | Err e => Some (Err e)
      | Panic => Some Panic
      | Ok peerId =>
          if decide (peerId = MaxUint32) then Some (Ok []) else
          if checkCalcEndorserOrCommitter end_ && bool_decide (peerId ∈ proposerMap) then next peers else
          let isNew := bool_decide (peerId ∉ peers) in
          let peers := if isNew then peers ++ [peerId] else peers in
          if isNew && bool_decide (cc_N chain ≤ u32 (blen peers)) then Some (Ok peers) else
          if bool_decide (end_ = MAX_PROPOSER_COUNT ∧ end_ ≤ i ∧ cc_C chain < u32 (blen peers)) then Some (Ok peers) else
          if checkCalcEndorserOrCommitter end_ && bool_decide (u32 (cc_C chain * 2) < u32 (blen peers)) then Some (Ok peers) else
          next peers
      end
  end.

(** The random value has 512 positions. *)
Definition participants_fuel : nat := 513.

Definition calcParticipantPeers (vrf : VRFValue) (cfg_Proposers : list Z) (chain : ChainConfig) (start end_ : Z) : res (list Z) :=
  let proposerMap := if checkCalcEndorserOrCommitter end_ then first_proposers cfg_Proposers (cc_C chain) ∅ else ∅ in
  match participants_loop vrf chain proposerMap end_ participants_fuel start [] with
  | Some r => r
  | None => Panic
  end.

Definition res_bind {A B} (r : res A) (f : A → res B) : res B :=
  match r with Ok a => f a | Err e => Err e | Panic => Panic end.

Definition buildParticipantConfig `{Crypto} `{VbftEnv} (blkNum : Z) (block : VBlock) (chainCfg : ChainConfig) : res BlockParticipantConfig :=
  if decide (blkNum = 0) then Err "not participant config for genesis block" else
  let vrfValue := getParticipantSelectionSeed block in
  if IsNil vrfValue then Err "failed to calculate participant SelectionSeed" else
  let c := cc_C chainCfg in
  res_bind (calcParticipantPeers vrfValue [] chainCfg 0 MAX_PROPOSER_COUNT) (λ proposers,
  if decide (u32 (blen proposers) < u32 (c + 1)) then Err "cfg Proposers length less than chainCfg.C" else
  let proposers := take (Z.to_nat (u32 (c + 1))) proposers in
  let s := MAX_PROPOSER_COUNT in
  res_bind (calcParticipantPeers vrfValue proposers chainCfg s (s + MAX_ENDORSER_COUNT)) (λ endorsers,
  if decide (u32 (blen endorsers) < u32 (2 * c)) then Err "cfg.Endorsers length less than double chainCfg.C" else
  let s := s + MAX_ENDORSER_COUNT in
  res_bind (calcParticipantPeers vrfValue proposers chainCfg s (s + MAX_COMMITTER_COUNT)) (λ committers,
  if decide (u32 (blen committers) < u32 (2 * c)) then Err "cfg.Committers length less than double chainCfg.C" else
  Ok (mkParticipants blkNum 0 vrfValue chainCfg proposers endorsers committers)))).

(** The health of peers: [isPeerAlive] and [isPeerActive], at the time of the call. *)
Section roles.
Context (isPeerAlive isPeerActive : Z → bool).

Definition isProposer (selfIndex : Z) (active : bool) (cfg : BlockParticipantConfig) (peerIdx : Z) : bool :=
  if bool_decide (peerIdx = selfIndex) && negb active then false else
  match list_find isPeerAlive (Proposers cfg) with
  | Some (_, id) => bool_decide (peerIdx = id)
  | None => false
  end.

(** The first [2 C + 1] active members of the list. *)
Fixpoint active_member (c : Z) (peerIdx : Z) (l : list Z) (activeN : Z) : bool :=
  match l with
  | [] => false
  | id :: l' =>
      if decide (id = peerIdx) then true
      else if isPeerActive id then
        let activeN := u32 (activeN + 1) in
        if decide (u32 (c * 2) < activeN) then false else active_member c peerIdx l' activeN
      else active_member c peerIdx l' activeN
  end.
Definition isEndorser (c : Z) (cfg : BlockParticipantConfig) (peerIdx : Z) : bool := active_member c peerIdx (Endorsers cfg) 0.
Definition isCommitter (c : Z) (cfg : BlockParticipantConfig) (peerIdx : Z) : bool := active_member c peerIdx (Committers cfg) 0.

Definition getProposerRankLocked (cfg : BlockParticipantConfig) (blockNum peerIdx : Z) : Z :=
  if decide (blockNum = bp_BlockNum cfg) then
    match list_find (peerIdx =.) (Proposers cfg) with Some (rank, _) => Z.of_nat rank | None => blen (Proposers cfg) end
  else blen (Proposers cfg).
Definition is2ndProposer (c : Z) (cfg : BlockParticipantConfig) (blockNum peerIdx : Z) : bool :=
  let rank := getProposerRankLocked cfg blockNum peerIdx in
  bool_decide (0 < rank ∧ rank ≤ c).
End roles.

(** ** node_utils.go: the commit quorum *)

Record FaultyReport := mkFaultyReport { FaultyID : Z; FaultyMsgHash : Uint256 }.
Record blockCommitMsg := mkCommitMsg {
  Committer : Z;
  BlockProposer : Z;
  cm_BlockNum : Z;
  CommitBlockHash : Uint256;
  CommitForEmpty : bool;
  FaultyVerifies : list FaultyReport;
  cm_ProposerSig : bytes;
  EndorsersSig : gmap Z bytes;
  CommitterSig : bytes;
}.

Definition bump (count : gmap Z Z) (k : Z) : gmap Z Z := <[k := default 0 (count !! k) + 1]> count.

(** [C] is only compared with the number of empty commits until it is raised. *)
Fixpoint commit_loop (commitMsgs : list blockCommitMsg) (C N : Z) (emptyCommitCount : Z) (emptyCommit : bool)
    (signCount : gmap Z (gmap Z Z)) : Z * bool :=
  match commitMsgs with
  | [] => (MaxUint32, false)
  | c :: rest =>
      let emptyCommitCount := if CommitForEmpty c then emptyCommitCount + 1 else emptyCommitCount in
      let raise := CommitForEmpty c && bool_decide (C < emptyCommitCount) && negb emptyCommit in
      let C := if raise then C + 1 else C in
      let emptyCommit := emptyCommit || raise in
      let counts := bump (default ∅ (signCount !! BlockProposer c)) (Committer c) in
      let counts := foldl (λ m kv, bump m kv.1) counts (map_to_list (EndorsersSig c)) in
      let signCount := <[BlockProposer c := counts]> signCount in
      if decide (N - (N - 1) ÷ 3 ≤ Z.of_nat (size counts) + 1) then (BlockProposer c, emptyCommit)
      else commit_loop rest C N emptyCommitCount emptyCommit signCount
  end.
Definition getCommitConsensus (commitMsgs : list blockCommitMsg) (C N : Z) : Z * bool :=
  commit_loop commitMsgs C N 0 false ∅.

(** ** The selection of participants *)

Section selection.
Context (vrf : VRFValue) (chain : ChainConfig).
Implicit Types (peers : list Z) (proposerMap : gset Z).

Lemma u32_small k : 0 ≤ k ≤ 512 → u32 k = k.
Proof. intros. apply uwrap_small. unfold in_range. lia. Qed.

Lemma calcParticipant_end k : 512 ≤ k → calcParticipant vrf (PosTable chain) k = Ok MaxUint32.
Proof. intros. unfold calcParticipant. by rewrite decide_True. Qed.

(** A position of the random value names an entry of the table. *)
Lemma calcParticipant_in k : 0 ≤ k < 512 →
  if decide (u32 (blen (PosTable chain)) = 0) then calcParticipant vrf (PosTable chain) k = Panic
  else ∃ x, calcParticipant vrf (PosTable chain) k = Ok x ∧ x ∈ PosTable chain.
Proof.
  intros Hk. unfold calcParticipant. rewrite !(decide_False (P := 512 ≤ k)) by lia.
  assert (length (to_slice vrf) = 64%nat) as Hlen by apply length_to_slice.
  assert (0 ≤ k / 8 < 64) as Hb by (split; [apply Z.div_pos; lia|apply Z.div_lt_upper_bound; lia]).
  destruct (lookup_lt_is_Some_2 (to_slice vrf) (Z.to_nat (k / 8))) as [b1 ->]; [rewrite Hlen; lia|].
  assert (∃ b2, (if decide (k / 8 + 1 < blen (to_slice vrf)) then to_slice vrf !! Z.to_nat (k / 8 + 1) else to_slice vrf !! 0%nat) = Some b2) as [b2 ->].
  { case_decide; apply lookup_lt_is_Some_2; rewrite Hlen in *; lia. }
  case_decide as Hn; [done|].
  match goal with |- context [PosTable chain !! ?i] => destruct (lookup_lt_is_Some_2 (PosTable chain) i) as [x Hx] end.
  - assert (0 ≤ u32 (blen (PosTable chain)) ≤ blen (PosTable chain)) as Hr.
    { split; [apply uwrap_range; lia|]. unfold uwrap. apply Z.mod_le; lia. }
    match goal with |- context [?v mod ?n] => pose proof (Z.mod_pos_bound v n) end. lia.
  - rewrite Hx. exists x. split; [done|]. by eapply list_elem_of_lookup_2.
Qed.

(** With enough fuel the loop ends. *)
Lemma participants_loop_total proposerMap end_ fuel i peers :
  0 ≤ i ≤ 512 → 512 < i + Z.of_nat fuel → is_Some (participants_loop vrf chain proposerMap end_ fuel i peers).
Proof.
  revert i peers. induction fuel as [|fuel IH]; intros i peers Hi Hf; [lia|]. cbn [participants_loop].
  rewrite u32_small by done. destruct (decide (i = 512)) as [->|Hne].
  { rewrite calcParticipant_end by done. by rewrite decide_True. }
  destruct (calcParticipant _ _ _); [|by eauto..]. repeat case_match; eauto; apply IH; lia.
Qed.

Lemma participants_loop_mono proposerMap end_ fuel fuel' i peers r :
  (fuel ≤ fuel')%nat → participants_loop vrf chain proposerMap end_ fuel i peers = Some r →
  participants_loop vrf chain proposerMap end_ fuel' i peers = Some r.
Proof.
  revert fuel' i peers. induction fuel as [|fuel IH]; intros fuel' i peers Hle; [done|].
  destruct fuel' as [|fuel']; [lia|]. cbn [participants_loop].
  destruct (calcParticipant _ _ _); [|done..]. repeat case_match; try done; apply IH; lia.
Qed.

(** What is collected: different entries of the table, none of them excluded. *)
Definition picked proposerMap end_ peers : Prop :=
  NoDup peers ∧ (∀ x, x ∈ peers → x ∈ PosTable chain ∧ (checkCalcEndorserOrCommitter end_ = true → x ∉ proposerMap)).

Lemma participants_loop_picked proposerMap end_ fuel i peers r :
  0 ≤ i ≤ 512 → 512 < i + Z.of_nat fuel → picked proposerMap end_ peers →
  participants_loop vrf chain proposerMap end_ fuel i peers = Some r →
  match r with
  | Ok l => picked proposerMap end_ l
  | Panic => u32 (blen (PosTable chain)) = 0
  | Err _ => False
  end.
Proof.
  revert i peers. induction fuel as [|fuel IH]; intros i peers Hi Hf Hp Hr; [lia|]. cbn [participants_loop] in Hr.
  rewrite u32_small in Hr by done. destruct (decide (i = 512)) as [->|Hne].
  { rewrite calcParticipant_end, decide_True in Hr by done. injection Hr as <-. split; [apply NoDup_nil_2|]. by intros x ?%not_elem_of_nil. }
  pose proof (calcParticipant_in i) as Hc. case_decide as Hn; [rewrite Hc in Hr by lia; by injection Hr as <-|].
  destruct Hc as (x & Hx & Hin); [lia|]. rewrite Hx in Hr. case_decide.
  { injection Hr as <-. split; [apply NoDup_nil_2|]. by intros y ?%not_elem_of_nil. }
  destruct (checkCalcEndorserOrCommitter end_ && bool_decide (x ∈ proposerMap)) eqn:Hex; [eapply IH; [..|exact Hr]; lia || done|].
  assert (picked proposerMap end_ (if bool_decide (x ∉ peers) then peers ++ [x] else peers)) as Hp'.
  { case_bool_decide as Hnew; [|done]. destruct Hp as [Hnd Hall]. split.
    - apply NoDup_app. split_and!; [done| |apply NoDup_singleton]. intros y Hy Hyx%list_elem_of_singleton. by subst y.
    - intros y [Hy|Hy%list_elem_of_singleton]%elem_of_app; [by apply Hall|subst y]. split; [done|]. intros Hcc. rewrite Hcc in Hex.
      by apply bool_decide_eq_false in Hex. }
  cbv zeta in Hr. repeat case_match; simplify_eq; try done; by (eapply IH; [..|exact Hr]; [lia|lia|done]).
Qed.

End selection.

(** ** The table of a chain configuration *)

Section genesis.
Context `{VbftEnv}.
Implicit Types (peers : list VBFTPeerInfo) (t : list Z).

Lemma swap_at_ok i j t : (i < length t)%nat → (j < length t)%nat → ∃ t', swap_at i j t = Ok t' ∧ t' ≡ₚ t.
Proof.
  intros Hi Hj. unfold swap_at. destruct (lookup_lt_is_Some_2 t i Hi) as [a Ha]. destruct (lookup_lt_is_Some_2 t j Hj) as [b Hb].
  rewrite Ha, Hb. eexists. split; [reflexivity|]. by apply Permutation_insert_swap.
Qed.

(** The shuffle permutes the table, and fails only when a hash does. *)
Lemma shuffle_perm height (chainPeers : gmap Z PeerConfig) n t :
  (n < length t)%nat ∨ n = 0%nat → (∀ x, x ∈ t → is_Some (chainPeers !! x)) →
  match shuffle height chainPeers n t with
  | Ok t' => t' ≡ₚ t
  | Err _ => ∃ id i e, shuffle_hash height id i = Err e
  | Panic => ∃ id i, shuffle_hash height id i = Panic
  end.
Proof.
  revert t. induction n as [|n IH]; intros t Hn Ht; [cbn; reflexivity|]. cbn [shuffle].
  assert (S n < length t)%nat as Hlt by lia. destruct (lookup_lt_is_Some_2 t (S n) Hlt) as [x Hx]. rewrite Hx.
  destruct (Ht x) as [peer Hp]; [by eapply list_elem_of_lookup_2|]. rewrite Hp.
  destruct (shuffle_hash height (pc_ID peer) (Z.of_nat (S n))) as [h|e|] eqn:Eh; [|by exists (pc_ID peer), (Z.of_nat (S n)), e|by exists (pc_ID peer), (Z.of_nat (S n))].
  assert (0 ≤ h mod Z.of_nat (S n) < Z.of_nat (S n)) as Hm by (apply Z.mod_pos_bound; lia).
  destruct (swap_at_ok (S n) (Z.to_nat (h mod Z.of_nat (S n))) t) as (t' & -> & Hperm); [lia|lia|].
  assert (∀ y, y ∈ t' → is_Some (chainPeers !! y)) as Ht' by (intros y Hy; apply Ht; by rewrite <- Hperm).
  specialize (IH t' ltac:(rewrite Hperm; lia) Ht'). destruct (shuffle height chainPeers n t'); [by rewrite IH|done..].
Qed.

(** The entries of the table before the shuffle. *)
Definition pos_entries (rank : nat) peers : list Z := mjoin ((λ p, replicate rank (vp_Index p)) <$> peers).

Lemma elem_of_pos_entries rank peers x : x ∈ pos_entries rank peers → ∃ p, p ∈ peers ∧ vp_Index p = x.
Proof.
  unfold pos_entries. intros (l & Hx & (p & -> & Hp)%list_elem_of_fmap)%list_elem_of_join. apply elem_of_replicate in Hx as [-> _]. eauto.
Qed.
Lemma length_pos_entries rank peers : length (pos_entries rank peers) = (rank * length peers)%nat.
Proof.
  unfold pos_entries. induction peers as [|p peers IH]; cbn [fmap list_fmap]; [cbn; lia|].
  change (mjoin (?a :: ?b)) with (a ++ mjoin b). rewrite length_app, length_replicate, IH. cbn [length]. lia.
Qed.

Lemma add_peers_Some peers p : p ∈ peers → ∀ m, is_Some (foldl add_peer m peers !! vp_Index p).
Proof.
  assert (∀ l (m : gmap Z PeerConfig) k, is_Some (m !! k) → is_Some (foldl add_peer m l !! k)) as Hkeep.
  { induction l as [|q l IH]; intros m k Hk; [done|]. cbn [foldl]. apply IH. unfold add_peer.
    rewrite lookup_insert_is_Some'. by right. }
  induction peers as [|q peers IH]; [by intros ?%not_elem_of_nil|]. intros [->|Hp]%elem_of_cons m; cbn [foldl]; [|by apply IH].
  apply Hkeep. unfold add_peer. rewrite lookup_insert_eq. by eauto.
Qed.

Lemma peer_rank_scale k : 0 < k → peer_rank k k = SCALE.
Proof.
  intros Hk. unfold peer_rank, SCALE, DEFAULT_POS.
  replace (100000 * 15 * k + k * 100000 - 1) with (15 * (k * 100000) + (k * 100000 - 1)) by lia.
  rewrite Z.div_add_l by lia. rewrite Z.div_small by lia. lia.
Qed.

(** A configuration for [n] peers: [n] and [n / 3], and fifteen entries of the table
    for each peer, in some order. *)
Lemma GenesisChainConfig_table conf peers height cfg :
  blen peers < 2 ^ 32 → GenesisChainConfig conf peers height = Ok cfg →
  cc_N cfg = blen peers ∧ cc_C cfg = blen peers / 3 ∧ PosTable cfg ≡ₚ pos_entries 15 peers ∧
  Forall is_Some (cc_Peers cfg).
Proof.
  intros Hl. unfold GenesisChainConfig. rewrite uwrap_small by (unfold in_range; lia). rewrite Nat2Z.id, take_ge by lia.
  destruct peers as [|p0 peers0].
  { intros [= <-]. split_and!; [done|done|reflexivity|constructor]. } set (peers := p0 :: peers0) in *.
  rewrite peer_rank_scale by (unfold peers; cbn; lia). change (Z.to_nat SCALE) with 15%nat. change (mjoin _) with (pos_entries 15 peers).
  pose proof (shuffle_perm height (foldl add_peer ∅ peers) (pred (length (pos_entries 15 peers))) (pos_entries 15 peers)) as Hs.
  destruct (shuffle _ _ _ _) as [t|e|] eqn:Es; [|done..]. intros [= <-]. cbn [cc_N cc_C PosTable cc_Peers]. split_and!; [done|done| |].
  - apply Hs; [rewrite length_pos_entries; unfold peers; cbn; lia|]. intros x (p & Hp & <-)%elem_of_pos_entries. by apply add_peers_Some.
  - change (Forall is_Some ((λ p, foldl add_peer ∅ peers !! vp_Index p) <$> peers)). apply Forall_fmap, Forall_forall.
    intros p Hp. by apply (add_peers_Some peers p Hp ∅).
Qed.

End genesis.

(** ** The participants of a round *)

Definition excluded (proposers : list Z) (chain : ChainConfig) (end_ : Z) : gset Z :=
  if checkCalcEndorserOrCommitter end_ then first_proposers proposers (cc_C chain) ∅ else ∅.

Lemma calcParticipantPeers_run (vrf : VRFValue) (proposers : list Z) (chain : ChainConfig) (start end_ : Z) :
  0 ≤ start ≤ 512 →
  participants_loop vrf chain (excluded proposers chain end_) end_ (Z.to_nat (513 - start)) start [] =
    Some (calcParticipantPeers vrf proposers chain start end_).
Proof.
  intros Hs. destruct (participants_loop_total vrf chain (excluded proposers chain end_) end_ (Z.to_nat (513 - start)) start []) as [r Hr]; [lia..|].
  rewrite Hr. unfold calcParticipantPeers. fold (excluded proposers chain end_).
  erewrite participants_loop_mono; [reflexivity| |exact Hr]. unfold participants_fuel. lia.
Qed.

Lemma calcParticipantPeers_ok (vrf : VRFValue) (proposers : list Z) (chain : ChainConfig) (start end_ : Z) :
  0 ≤ start ≤ 512 →
  match calcParticipantPeers vrf proposers chain start end_ with
  | Ok l => NoDup l ∧ ∀ x, x ∈ l → x ∈ PosTable chain ∧ x ∉ excluded proposers chain end_
  | Panic => u32 (blen (PosTable chain)) = 0
  | Err _ => False
  end.
Proof.
  intros Hs. pose proof (calcParticipantPeers_run vrf proposers chain start end_ Hs) as Hr.
  eapply participants_loop_picked in Hr; [|lia|lia|split; [apply NoDup_nil_2|by intros x ?%not_elem_of_nil]].
  destruct (calcParticipantPeers _ _ _ _ _) as [l| |]; [|done..]. destruct Hr as [Hnd Hall]. split; [done|]. intros x Hx.
  destruct (Hall x Hx) as [? Hex]. split; [done|]. unfold excluded in *.
  destruct (checkCalcEndorserOrCommitter end_); [by apply Hex|]. apply not_elem_of_empty.
Qed.

(** C33 (drawing participants ends).  From any start, the endless loop that draws
    participants stops after at most 513 rounds, whatever the random value and the
    table; its result are different entries of the table, without the leading
    proposers when endorsers or committers are drawn, and it panics only if the
    table is empty. *)
Theorem calcParticipantPeers_ends (vrf : VRFValue) (proposers : list Z) (chain : ChainConfig) (start end_ : Z) :
  0 ≤ start ≤ 512 →
  let r := calcParticipantPeers vrf proposers chain start end_ in
  (∀ fuel, (Z.to_nat (513 - start) ≤ fuel)%nat → participants_loop vrf chain (excluded proposers chain end_) end_ fuel start [] = Some r) ∧
  match r with
  | Ok l => NoDup l ∧ ∀ x, x ∈ l → x ∈ PosTable chain ∧ x ∉ excluded proposers chain end_
  | Panic => u32 (blen (PosTable chain)) = 0
  | Err _ => False
  end.
Proof.
  intros Hs r. split; [|by apply calcParticipantPeers_ok]. intros fuel Hf.
  eapply participants_loop_mono; [exact Hf|by apply calcParticipantPeers_run].
Qed.

(** The excluded proposers are the first [C]. *)
Lemma first_proposers_spec (l : list Z) (C : Z) (m : gset Z) :
  NoDup l → (∀ x, x ∈ l → x ∉ m) → Z.of_nat (size m) + blen l < 2 ^ 32 →
  ∀ x, x ∈ m ∨ x ∈ take (Z.to_nat (C - Z.of_nat (size m))) l → x ∈ first_proposers l C m.
Proof.
  revert m. induction l as [|p l IH]; intros m Hnd Hm Hl x Hx; cbn [first_proposers].
  { destruct Hx as [?|Hx]; [done|]. rewrite take_nil in Hx. by apply not_elem_of_nil in Hx. }
  apply NoDup_cons in Hnd as [Hp Hnd]. cbn [length] in Hl.
  assert (size ({[p]} ∪ m) = S (size m)) as Hsz.
  { rewrite size_union, size_singleton; [done|]. specialize (Hm p (list_elem_of_here _ _)). set_solver. }
  rewrite Hsz, uwrap_small by (unfold in_range; lia).
  assert (x ∈ {[p]} ∪ m ∨ x ∈ take (Z.to_nat (C - Z.of_nat (S (size m)))) l) as Hx'.
  { destruct Hx as [?|Hx]; [left; set_solver|]. destruct (Z.to_nat (C - Z.of_nat (size m))) as [|n] eqn:En; [by apply not_elem_of_nil in Hx|].
    cbn [take] in Hx. apply elem_of_cons in Hx as [->|Hx]; [left; set_solver|]. right. by replace (Z.to_nat (C - Z.of_nat (S (size m)))) with n by lia. }
  case_decide as HC.
  - destruct Hx' as [?|Hx']; [done|]. replace (Z.to_nat (C - Z.of_nat (S (size m)))) with 0%nat in Hx' by lia.
    by apply not_elem_of_nil in Hx'.
  - apply IH; [done| | |by rewrite Hsz].
    + intros y Hy. rewrite elem_of_union, elem_of_singleton. specialize (Hm y). set_solver.
    + rewrite Hsz. lia.
Qed.

Lemma res_bind_inv {A B} (r : res A) (f : A → res B) (P : res B → Prop) :
  (∀ a, r = Ok a → P (f a)) → (∀ e, r = Err e → P (Err e)) → (r = Panic → P Panic) → P (res_bind r f).
Proof. destruct r; cbn; auto. Qed.

Section participants.
Context `{Crypto} `{VbftEnv}.
Implicit Types (peers : list VBFTPeerInfo).

(** What a list that was drawn from the table of a configuration looks like. *)
Definition drawn peers (l : list Z) : Prop := NoDup l ∧ ∀ x, x ∈ l → ∃ p, p ∈ peers ∧ vp_Index p = x.

Lemma drawn_length peers l : drawn peers l → blen l ≤ 15 * blen peers.
Proof.
  intros [Hnd Hall]. assert (l ⊆+ (vp_Index <$> peers)) as Hs%submseteq_length; [|rewrite length_fmap in Hs; lia].
  apply NoDup_submseteq; [done|]. intros x (p & Hp & <-)%Hall. by apply list_elem_of_fmap_2.
Qed.

Lemma genesis_draw conf peers height cfg vrf proposers start end_ :
  0 < blen peers → 15 * blen peers < 2 ^ 32 → GenesisChainConfig conf peers height = Ok cfg → 0 ≤ start ≤ 512 →
  ∃ l, calcParticipantPeers vrf proposers cfg start end_ = Ok l ∧ drawn peers l ∧ ∀ x, x ∈ l → x ∉ excluded proposers cfg end_.
Proof.
  intros Hn Hl Hg Hs. apply GenesisChainConfig_table in Hg as (_ & _ & Ht & _); [|lia].
  pose proof (calcParticipantPeers_ok vrf proposers cfg start end_ Hs) as Hc.
  destruct (calcParticipantPeers _ _ _ _ _) as [l|e|]; [|done|].
  - destruct Hc as [Hnd Hall]. exists l. split_and!; [done| |by intros x Hx; apply (Hall x Hx)]. split; [done|]. intros x Hx.
    destruct (Hall x Hx) as [Hin _]. rewrite Ht in Hin. by apply elem_of_pos_entries in Hin.
  - rewrite Ht, length_pos_entries in Hc. rewrite uwrap_small in Hc by (unfold in_range; lia). lia.
Qed.

(** C34 (participants are well formed).  With a chain configuration made from a list of
    peers, computing the participants of a round never panics; when it succeeds,
    there are [C + 1] proposers and at least [2 C] endorsers and committers, the
    lists name different peers of the configuration, and none of the first [C]
    proposers endorses or commits. *)
Theorem buildParticipantConfig_wf conf peers height cfg (blkNum : Z) (block : VBlock) :
  0 < blen peers → 15 * blen peers < 2 ^ 32 → GenesisChainConfig conf peers height = Ok cfg →
  let C := blen peers / 3 in
  match buildParticipantConfig blkNum block cfg with
  | Panic => False
  | Err _ => True
  | Ok pc =>
      (drawn peers (Proposers pc) ∧ blen (Proposers pc) = C + 1) ∧
      (drawn peers (Endorsers pc) ∧ 2 * C ≤ blen (Endorsers pc)) ∧
      (drawn peers (Committers pc) ∧ 2 * C ≤ blen (Committers pc)) ∧
      ∀ x, x ∈ take (Z.to_nat C) (Proposers pc) → (x ∉ Endorsers pc) ∧ (x ∉ Committers pc)
  end.
Proof.
  intros Hn Hl Hg C. unfold buildParticipantConfig. case_decide; [done|]. destruct (IsNil _); [done|].
  set (vrf := getParticipantSelectionSeed block).
  destruct (genesis_draw conf peers height cfg vrf [] 0 MAX_PROPOSER_COUNT Hn Hl Hg) as (l1 & E1 & D1 & _); [lia|].
  pose proof Hg as Hg'. apply GenesisChainConfig_table in Hg' as (_ & HC & _); [|lia]. rewrite HC, E1. cbn [res_bind]. fold C.
  assert (0 ≤ C ≤ blen peers) as HCb by (unfold C; split; [apply Z.div_pos; lia|apply Z.div_le_upper_bound; lia]).
  pose proof (drawn_length _ _ D1) as Hl1. rewrite !(uwrap_small 32 (C + 1)), !(uwrap_small 32 (2 * C)) by (unfold in_range; lia).
  rewrite (uwrap_small 32 (blen l1)) by (unfold in_range; lia). case_decide; [done|].
  set (ps := take (Z.to_nat (C + 1)) l1).
  assert (drawn peers ps) as Dp.
  { destruct D1 as [Hnd Hall]. split; [by apply (sublist_NoDup _ l1); [|apply sublist_take]|]. intros x Hx. apply Hall.
    apply elem_of_take in Hx as (i & Hi & _). by eapply list_elem_of_lookup_2. }
  assert (blen ps = C + 1) as Hps by (unfold ps; rewrite length_take; lia).
  assert (∀ x end_, checkCalcEndorserOrCommitter end_ = true → x ∈ take (Z.to_nat C) ps → x ∈ excluded ps cfg end_) as Hex.
  { intros x end_ He Hx. unfold excluded. rewrite He, HC. apply first_proposers_spec; [apply Dp|set_solver|rewrite size_empty; lia|].
    right. by rewrite size_empty, Z.sub_0_r. }
  destruct (genesis_draw conf peers height cfg vrf ps MAX_PROPOSER_COUNT (MAX_PROPOSER_COUNT + MAX_ENDORSER_COUNT) Hn Hl Hg)
    as (l2 & E2 & D2 & X2); [unfold MAX_PROPOSER_COUNT; lia|]. rewrite E2. cbn [res_bind].
  pose proof (drawn_length _ _ D2). rewrite (uwrap_small 32 (blen l2)) by (unfold in_range; lia). case_decide; [done|].
  destruct (genesis_draw conf peers height cfg vrf ps (MAX_PROPOSER_COUNT + MAX_ENDORSER_COUNT)
    (MAX_PROPOSER_COUNT + MAX_ENDORSER_COUNT + MAX_COMMITTER_COUNT) Hn Hl Hg) as (l3 & E3 & D3 & X3);
    [unfold MAX_PROPOSER_COUNT, MAX_ENDORSER_COUNT; lia|]. rewrite E3. cbn [res_bind].
  pose proof (drawn_length _ _ D3). rewrite (uwrap_small 32 (blen l3)) by (unfold in_range; lia). case_decide; [done|].
  cbn [Proposers Endorsers Committers]. split_and!; [done|done|done|lia|done|lia|]. intros x Hx.
  split; intros Hin; [apply (X2 x Hin)|apply (X3 x Hin)]; by apply Hex.
Qed.

End participants.

(** ** Examples: four peers *)

#[export] Instance ex_vbft : VbftEnv := {|
  shuffle_hash _ _ i := Ok (7 * i + 3);
  seed_hash num proposer _ _ := Ok (copy_array VRF_SIZE ((λ i, byte_of_Z ((37 * i + 11 * num + proposer) mod 256)) <$> seqZ 0 64));
|}.
Definition ex_conf : VBFTConfig := mkVBFTConfig 10 10 10 100 [] [] [].
Definition ex_infos : list VBFTPeerInfo := (λ i, mkVBFTPeerInfo i [byte_of_Z i] []) <$> seqZ 1 4.
Definition ex_chain_config : ChainConfig := ok_or (mkChainConfig 0 0 0 0 0 0 0 [] [] 0) (GenesisChainConfig ex_conf ex_infos 1).
Definition ex_vblock : VBlock := mkVBlock ex_block None (mkVbftBlockInfo 1 [] [] 0 None).

Lemma calcParticipantPeers_ends_witness :
  calcParticipantPeers (zero_array VRF_SIZE) [] ex_chain_config 0 MAX_PROPOSER_COUNT = Ok [] ∧
  participants_loop (zero_array VRF_SIZE) ex_chain_config (excluded [] ex_chain_config MAX_PROPOSER_COUNT) MAX_PROPOSER_COUNT 1000 0 [] = Some (Ok []).
Proof.
  assert (calcParticipantPeers (zero_array VRF_SIZE) [] ex_chain_config 0 MAX_PROPOSER_COUNT = Ok []) as E by by vm_compute.
  split; [exact E|].
  destruct (calcParticipantPeers_ends (zero_array VRF_SIZE) [] ex_chain_config 0 MAX_PROPOSER_COUNT) as [Hall _]; [lia|].
  rewrite E in Hall. apply Hall. lia.
Defined.

Lemma buildParticipantConfig_wf_witness :
  ∃ pc, buildParticipantConfig 1 ex_vblock ex_chain_config = Ok pc ∧ blen (Proposers pc) = 2 ∧ 2 ≤ blen (Endorsers pc) ∧ 2 ≤ blen (Committers pc).
Proof.
  assert (is_ok (buildParticipantConfig 1 ex_vblock ex_chain_config) = true) as Hok by by vm_compute.
  assert (GenesisChainConfig ex_conf ex_infos 1 = Ok ex_chain_config) as Hg by by vm_compute.
  pose proof (buildParticipantConfig_wf ex_conf ex_infos 1 ex_chain_config 1 ex_vblock eq_refl eq_refl Hg) as Hw.
  destruct (buildParticipantConfig 1 ex_vblock ex_chain_config) as [pc|e|]; [|discriminate Hok..]. exists pc. split; [reflexivity|].
  destruct Hw as ((_ & H1) & (_ & H2) & (_ & H3) & _). split_and!; assumption.
Defined.
