(* ===== verification/VbftCommit.v ===== *)
(** * What a commit decision shows

    [getCommitConsensus] decides exactly when the signers of some proposer's block,
    with one more for the proposer, are all but a third of the peers; two such
    decisions share a peer that is not faulty, if the proposers did not sign. *)

From S2P Require Import Prelude Sha256 TxRoot Sink Source Serialization BytesOrder MemDB OverlayDB CacheDB Contract MerkleUtil MerkleSpec MerkleHasher HashStore MerkleTree Native ExCrypto Codec Types Signature LedgerExec StateStore BlockStore EventStore Ledger VbftNode.

Implicit Types (msgs : list blockCommitMsg) (c : blockCommitMsg) (p : Z).

(** Those who signed for a proposer's block: the committers and the endorsers they
    report. *)
Definition msg_signers c : gset Z := {[Committer c]} ∪ dom (EndorsersSig c).
Definition signers_of msgs p : gset Z :=
  foldr (λ c s, if decide (BlockProposer c = p) then msg_signers c ∪ s else s) ∅ msgs.
Definition empty_commits msgs : Z := blen (filter (λ c, CommitForEmpty c = true) msgs).
(** All but a third of the peers. *)
Definition commit_quorum (N : Z) : Z := N - (N - 1) ÷ 3.

Lemma signers_app msgs1 msgs2 p : signers_of (msgs1 ++ msgs2) p = signers_of msgs1 p ∪ signers_of msgs2 p.
Proof.
  induction msgs1 as [|c msgs IH]; cbn [app]; [cbn; by rewrite union_empty_l_L|].
  unfold signers_of in *. cbn [foldr]. rewrite IH. case_decide; [by rewrite assoc_L by apply _|done].
Qed.
Lemma commit_signers_snoc msgs c p :
  signers_of (msgs ++ [c]) p = if decide (BlockProposer c = p) then signers_of msgs p ∪ msg_signers c else signers_of msgs p.
Proof. rewrite signers_app. unfold signers_of at 2. cbn [foldr]. case_decide; by rewrite ?union_empty_r_L. Qed.

Lemma elem_of_signers msgs p x : x ∈ signers_of msgs p ↔ ∃ c, c ∈ msgs ∧ BlockProposer c = p ∧ x ∈ msg_signers c.
Proof.
  induction msgs as [|c msgs IH]; cbn.
  - split; [by intros ?%not_elem_of_empty|]. intros (c & Hc & _). by apply not_elem_of_nil in Hc.
  - case_decide as Hd; [rewrite elem_of_union, IH|rewrite IH]; setoid_rewrite elem_of_cons; naive_solver.
Qed.

Lemma dom_bumps {V} (l : list (Z * V)) (m : gmap Z Z) : dom (foldl (λ m kv, bump m kv.1) m l) = dom m ∪ list_to_set l.*1.
Proof.
  revert m. induction l as [|[k v] l IH]; intros m; cbn; [by rewrite union_empty_r_L|]. rewrite IH. unfold bump.
  rewrite dom_insert_L. set_solver.
Qed.
Lemma dom_counts c (m : gmap Z Z) :
  dom (foldl (λ m kv, bump m kv.1) (bump m (Committer c)) (map_to_list (EndorsersSig c))) = dom m ∪ msg_signers c.
Proof.
  rewrite dom_bumps. unfold bump, msg_signers. rewrite dom_insert_L.
  assert (list_to_set (map_to_list (EndorsersSig c)).*1 = dom (EndorsersSig c)) as ->.
  { apply set_eq. intros x. by rewrite (dom_alt (EndorsersSig c)). }
  set_solver.
Qed.

(** ** The loop *)

Lemma size_counts c (m : gmap Z Z) (s : gset Z) :
  dom m = s → Z.of_nat (size (foldl (λ m kv, bump m kv.1) (bump m (Committer c)) (map_to_list (EndorsersSig c)))) =
              Z.of_nat (size (s ∪ msg_signers c)).
Proof. intros <-. by rewrite <- size_dom, dom_counts. Qed.

Record loop_inv (C0 : Z) (seen : list blockCommitMsg) (C ec : Z) (e : bool) (sc : gmap Z (gmap Z Z)) : Prop := {
  li_count : ec = empty_commits seen;
  li_flag : e = true → C0 < ec;
  li_C : e = false → C = C0 ∧ ec ≤ C0;
  li_signers : ∀ p, dom (default ∅ (sc !! p)) = signers_of seen p;
}.

Lemma empty_commits_snoc msgs c : empty_commits (msgs ++ [c]) = if CommitForEmpty c then empty_commits msgs + 1 else empty_commits msgs.
Proof.
  unfold empty_commits. rewrite filter_app, length_app, filter_cons. case_decide as Hd; [rewrite Hd|apply not_true_is_false in Hd; rewrite Hd]; cbn; lia.
Qed.

Lemma loop_inv_step C0 seen C ec e sc c :
  loop_inv C0 seen C ec e sc →
  let ec' := if CommitForEmpty c then ec + 1 else ec in
  let raise := CommitForEmpty c && bool_decide (C < ec') && negb e in
  let counts := foldl (λ m kv, bump m kv.1) (bump (default ∅ (sc !! BlockProposer c)) (Committer c)) (map_to_list (EndorsersSig c)) in
  loop_inv C0 (seen ++ [c]) (if raise then C + 1 else C) ec' (e || raise) (<[BlockProposer c := counts]> sc) ∧
  Z.of_nat (size counts) = Z.of_nat (size (signers_of (seen ++ [c]) (BlockProposer c))).
Proof.
  intros [Hec He HC Hs] ec' raise counts. assert (dom counts = signers_of (seen ++ [c]) (BlockProposer c)) as Hd.
  { unfold counts. rewrite dom_counts, Hs, commit_signers_snoc. by rewrite decide_True. }
  split; [|by rewrite <- Hd, size_dom]. split.
  - unfold ec'. rewrite empty_commits_snoc. destruct (CommitForEmpty c); lia.
  - unfold raise, ec'. destruct e; cbn; [intros _; specialize (He eq_refl); destruct (CommitForEmpty c); lia|].
    destruct (HC eq_refl) as [-> ?]. rewrite andb_true_r. intros [Hf ?%bool_decide_eq_true]%andb_true_iff. done.
  - unfold raise, ec'. destruct e; cbn; [done|]. destruct (HC eq_refl) as [-> ?]. rewrite andb_true_r.
    destruct (CommitForEmpty c); cbn; [|done]. intros Hf. rewrite Hf. apply bool_decide_eq_false in Hf. lia.
  - intros p. destruct (decide (BlockProposer c = p)) as [<-|Hne].
    + by rewrite lookup_insert_eq.
    + rewrite lookup_insert_ne, commit_signers_snoc, decide_False by done. apply Hs.
Qed.

Lemma commit_loop_spec C0 N seen rest C ec e sc :
  loop_inv C0 seen C ec e sc →
  (∃ pre c post, rest = pre ++ c :: post ∧ let all := seen ++ pre ++ [c] in
    commit_loop rest C N ec e sc = (BlockProposer c, bool_decide (C0 < empty_commits all)) ∧
    commit_quorum N ≤ Z.of_nat (size (signers_of all (BlockProposer c))) + 1) ∨
  (commit_loop rest C N ec e sc = (MaxUint32, false) ∧
   ∀ pre c post, rest = pre ++ c :: post → Z.of_nat (size (signers_of (seen ++ pre ++ [c]) (BlockProposer c))) + 1 < commit_quorum N).
Proof.
  revert seen C ec e sc. induction rest as [|c rest IH]; intros seen C ec e sc Hi.
  { right. split; [done|]. intros [] ? ?; discriminate. }
  cbn [commit_loop]. destruct (loop_inv_step _ _ _ _ _ _ c Hi) as [Hi' Hsz]. rewrite Hsz. fold (commit_quorum N).
  destruct (decide (commit_quorum N ≤ Z.of_nat (size (signers_of (seen ++ [c]) (BlockProposer c))) + 1)) as [Hq|Hq].
  - left. exists [], c, rest. cbn [app]. split_and!; [done| |exact Hq]. f_equal. destruct Hi' as [Hec He HC _]. rewrite <- Hec.
    destruct (e || _); symmetry; [apply bool_decide_eq_true_2, He; done|]. destruct (HC eq_refl). apply bool_decide_eq_false_2. lia.
  - destruct (IH _ _ _ _ _ Hi') as [(pre & c' & post & -> & Hr & Hq')|[Hr Hno]].
    + left. exists (c :: pre), c', post. rewrite <- app_assoc in Hr, Hq'. done.
    + right. split; [done|]. intros [|c0 pre] c' post [= <- E]; [cbn [app]; lia|].
      specialize (Hno pre c' post E). by rewrite <- app_assoc in Hno.
Qed.

(** ** The decision *)

(** Enough peers stand behind the block of a proposer of a commit. *)
Definition decided msgs (N p : Z) : Prop :=
  p ∈ (BlockProposer <$> msgs) ∧ commit_quorum N ≤ Z.of_nat (size (signers_of msgs p)) + 1.

Lemma signers_mono msgs1 msgs2 p : (size (signers_of msgs1 p) ≤ size (signers_of (msgs1 ++ msgs2) p))%nat.
Proof. rewrite signers_app. apply subseteq_size. set_solver. Qed.

Lemma signers_none msgs p : p ∉ (BlockProposer <$> msgs) → signers_of msgs p = ∅.
Proof.
  intros Hp. apply set_eq. intros x. rewrite elem_of_signers. split; [|by intros ?%not_elem_of_empty].
  intros (c & Hc & <- & _). by destruct Hp; apply list_elem_of_fmap_2.
Qed.

(** The last commit for a proposer sees all its signers. *)
Lemma last_commit msgs p :
  p ∈ (BlockProposer <$> msgs) → ∃ pre c post, msgs = pre ++ c :: post ∧ BlockProposer c = p ∧ signers_of (pre ++ [c]) p = signers_of msgs p.
Proof.
  induction msgs as [|m msgs IH] using rev_ind; [by intros ?%not_elem_of_nil|]. rewrite fmap_app, elem_of_app. cbn. intros Hp.
  destruct (decide (BlockProposer m = p)) as [Hm|Hm]; [by exists msgs, m, []|].
  destruct Hp as [(pre & c & post & -> & Hc & Hs)%IH|Hp%list_elem_of_singleton]; [|by destruct Hm].
  exists pre, c, (post ++ [m]). split_and!; [by rewrite <- app_assoc|done|]. rewrite Hs, commit_signers_snoc, decide_False by done. done.
Qed.

Lemma getCommitConsensus_run msgs C N : 0 ≤ C →
  (∃ pre c post, msgs = pre ++ c :: post ∧
    getCommitConsensus msgs C N = (BlockProposer c, bool_decide (C < empty_commits (pre ++ [c]))) ∧
    commit_quorum N ≤ Z.of_nat (size (signers_of (pre ++ [c]) (BlockProposer c))) + 1) ∨
  (getCommitConsensus msgs C N = (MaxUint32, false) ∧
   ∀ pre c post, msgs = pre ++ c :: post → Z.of_nat (size (signers_of (pre ++ [c]) (BlockProposer c))) + 1 < commit_quorum N).
Proof.
  intros HC. apply (commit_loop_spec C N []). split; [done|done|done|]. intros p. by rewrite lookup_empty.
Qed.

(** The commit count decides by quorum.  For commits whose proposers are peers,
    [getCommitConsensus] names a proposer exactly when the different committers and
    endorsers of some proposer's block, and one more, are at least
    [N - (N - 1) / 3]; the proposer it names has such a quorum, and the block is
    the empty one exactly when more than [C] commits until then were for the empty
    block. *)
Lemma getCommitConsensus_spec msgs C N :
  0 ≤ C → MaxUint32 ∉ (BlockProposer <$> msgs) →
  let r := getCommitConsensus msgs C N in
  (r.1 ≠ MaxUint32 ↔ ∃ p, decided msgs N p) ∧
  (r.1 ≠ MaxUint32 → decided msgs N r.1 ∧
     ∃ pre post, msgs = pre ++ post ∧ decided pre N r.1 ∧ r.2 = bool_decide (C < empty_commits pre)) ∧
  (r.1 = MaxUint32 → r.2 = false).
Proof.
  intros HC Hmax r. subst r.
  destruct (getCommitConsensus_run msgs C N HC) as [(pre & c & post & -> & -> & Hq)|[-> Hno]]; cbn [fst snd].
  - assert (BlockProposer c ≠ MaxUint32) as Hne.
    { intros E. rewrite fmap_app, fmap_cons, E in Hmax. apply Hmax, elem_of_app. right. apply list_elem_of_here. }
    assert (decided (pre ++ [c]) N (BlockProposer c)) as Hd.
    { split; [|done]. rewrite fmap_app. apply elem_of_app. right. apply list_elem_of_here. }
    assert (decided (pre ++ c :: post) N (BlockProposer c)) as Hall.
    { destruct Hd as [Hin Hq']. change (c :: post) with ([c] ++ post). rewrite app_assoc. split.
      - rewrite fmap_app. apply elem_of_app. by left.
      - pose proof (signers_mono (pre ++ [c]) post (BlockProposer c)). lia. }
    split_and!; [split; [by eauto|done]| |done]. intros _. split; [done|]. exists (pre ++ [c]), post. by rewrite <- app_assoc.
  - split_and!; [split; [done|]|done|done]. intros (p & Hin & Hq).
    destruct (last_commit msgs p Hin) as (pre & c & post & E & <- & Hs). specialize (Hno pre c post E). rewrite Hs in Hno. lia.
Qed.

(** ** Two decisions *)

(** Those behind a decision: the signers and the proposer. *)
Definition supporters msgs p : gset Z := {[p]} ∪ signers_of msgs p.

Lemma quorum_intersection (peers A B : gset Z) :
  A ⊆ peers → B ⊆ peers → let N := Z.of_nat (size peers) in
  commit_quorum N ≤ Z.of_nat (size A) → commit_quorum N ≤ Z.of_nat (size B) →
  0 < N → (N - 1) ÷ 3 < Z.of_nat (size (A ∩ B)).
Proof.
  intros HA HB N QA QB HN. assert (A ∪ B ⊆ peers) as Hu%subseteq_size by set_solver.
  pose proof (size_union_alt A B) as HS. pose proof (size_difference_alt B A) as HD. assert (B ∩ A = A ∩ B) as Ei by set_solver. rewrite Ei in HD.
  unfold commit_quorum in *. rewrite Z.quot_div_nonneg in * by lia. pose proof (Z.mul_div_le (N - 1) 3). lia.
Qed.

Lemma decision_supporters (peers : gset Z) msgs C :
  0 ≤ C → let N := Z.of_nat (size peers) in let p := (getCommitConsensus msgs C N).1 in
  p ≠ MaxUint32 → p ∉ signers_of msgs p → commit_quorum N ≤ Z.of_nat (size (supporters msgs p)).
Proof.
  intros HC N p Hp Hns. unfold supporters. rewrite size_union by set_solver. rewrite size_singleton.
  destruct (getCommitConsensus_run msgs C N HC) as [(pre & c & post & -> & E & Hq)|[E _]]; unfold p in *; rewrite E in *; [|done].
  cbn [fst] in *. pose proof (signers_mono (pre ++ [c]) post (BlockProposer c)) as Hm. rewrite <- app_assoc in Hm. cbn [app] in Hm. lia.
Qed.

(** C16 (commit decisions intersect).  If two nodes with the same peers each decide a
    block from the commits they hold, all signers are peers and neither proposer is
    among the signers of its own block, then more than [(N - 1) / 3] peers, so at
    least one that is not faulty, stand behind both decisions. *)
Theorem commit_quorums_intersect (peers : gset Z) msgs1 msgs2 C1 C2 :
  0 ≤ C1 → 0 ≤ C2 → let N := Z.of_nat (size peers) in 0 < N →
  let p1 := (getCommitConsensus msgs1 C1 N).1 in
  let p2 := (getCommitConsensus msgs2 C2 N).1 in
  p1 ≠ MaxUint32 → p2 ≠ MaxUint32 →
  supporters msgs1 p1 ⊆ peers → supporters msgs2 p2 ⊆ peers →
  p1 ∉ signers_of msgs1 p1 → p2 ∉ signers_of msgs2 p2 →
  (N - 1) ÷ 3 < Z.of_nat (size (supporters msgs1 p1 ∩ supporters msgs2 p2)).
Proof.
  intros HC1 HC2 N HN p1 p2 H1 H2 S1 S2 X1 X2.
  apply (quorum_intersection peers); [done|done|by apply decision_supporters..|done].
Qed.

(** ** Examples: four peers *)

Definition ex_commit (committer proposer endorser : Z) : blockCommitMsg :=
  mkCommitMsg committer proposer 7 (zero_array 32) false [] [] {[endorser := []]} [].
Definition ex_peers : gset Z := {[1; 2; 3; 4]}.

(** A proposer that also commits is counted twice: two blocks are decided by disjoint
    pairs of peers. *)
Example proposer_counted_twice :
  getCommitConsensus [ex_commit 1 1 2] 1 4 = (1, false) ∧ getCommitConsensus [ex_commit 3 3 4] 1 4 = (3, false) ∧
  supporters [ex_commit 1 1 2] 1 ∩ supporters [ex_commit 3 3 4] 3 = ∅.
Proof. split_and!; [by vm_compute|by vm_compute|]. refine (bool_decide_unpack _ _). by vm_compute. Qed.

Lemma getCommitConsensus_spec_example : decided [ex_commit 2 1 3] 4 (getCommitConsensus [ex_commit 2 1 3] 1 4).1.
Proof.
  destruct (getCommitConsensus_spec [ex_commit 2 1 3] 1 4) as (_ & Hd & _).
  - lia.
  - apply not_elem_of_cons. split; [by vm_compute|apply not_elem_of_nil].
  - apply Hd. by vm_compute.
Defined.

Lemma commit_quorums_intersect_witness :
  1 < Z.of_nat (size (supporters [ex_commit 2 1 3] 1 ∩ supporters [ex_commit 4 3 1] 3)).
Proof.
  refine (commit_quorums_intersect ex_peers [ex_commit 2 1 3] [ex_commit 4 3 1] 1 1 _ _ _ _ _ _ _ _ _);
    try (refine (bool_decide_unpack _ _); by vm_compute).
Defined.
