(* ===== verification/VbftStore.v ===== *)
(** * The chain store of VBFT (consensus/vbft/chain_store.go, types.go)

    Between the consensus and the ledger: the last sealed block is executed, but
    submitted to the ledger only when the next one is sealed.  The ledger is behind
    the interface [LedgerDB], whose laws the operations of [Ledger] satisfy
    ([ledger_db]); another goroutine may also add blocks to the ledger.  Locks and
    log lines are not modelled. *)

From S2P Require Import Prelude Sha256 TxRoot Sink Source Serialization BytesOrder MemDB OverlayDB CacheDB Contract MerkleUtil MerkleSpec MerkleHasher HashStore MerkleTree Native ExCrypto Codec Types Signature LedgerExec StateStore BlockStore BlockStoreSpec EventStore Ledger LedgerSpec VbftNode.

(** ** The ledger as the chain store sees it (core/ledger/ledger.go) *)

Class LedgerDB `{Crypto} `{Rand} (DB : Type) := {
  db_GetCurrentBlockHeight : DB → Z;
  db_ExecuteBlock : Block → M DB ExecuteResult;
  db_SubmitBlock : Block → ExecuteResult → M DB unit;
  db_GetBlockByHeight : Z → M DB (option Block);
  db_GetStateMerkleRoot : Z → M DB Uint256;
  db_GetCrossStateRoot : Z → M DB Uint256;
}.

(** Only a block of the next height is executed or advances the ledger. *)
Class LedgerDBLaws `{Crypto} `{Rand} (DB : Type) `{!LedgerDB DB} := {
  db_execute_height : ∀ block db, db_GetCurrentBlockHeight (db_ExecuteBlock block db).2 = db_GetCurrentBlockHeight db;
  db_execute_next : ∀ block db r db', db_ExecuteBlock block db = (Ok r, db') →
    Height (blk_Header block) ≤ db_GetCurrentBlockHeight db ∨ Height (blk_Header block) = u32 (db_GetCurrentBlockHeight db + 1);
  db_submit_ok : ∀ block result db db', db_SubmitBlock block result db = (Ok tt, db') →
    let h := Height (blk_Header block) in
    if decide (h ≤ db_GetCurrentBlockHeight db) then db_GetCurrentBlockHeight db' = db_GetCurrentBlockHeight db
    else h = u32 (db_GetCurrentBlockHeight db + 1) ∧ db_GetCurrentBlockHeight db' = h;
  db_submit_err : ∀ block result db e db', db_SubmitBlock block result db = (Err e, db') →
    db_GetCurrentBlockHeight db' = db_GetCurrentBlockHeight db;
}.

(** ** types.go *)

Definition initVbftBlock `{LedgerEnv} (block : option Block) : res VBlock :=
  match block with
  | None => Err "nil block in initVbftBlock"
  | Some block =>
      match UnmarshalBlockInfo (ConsensusPayload (blk_Header block)) with
      | Ok info => Ok (mkVBlock block None info)
      | Err e => Err ("unmarshal blockInfo: " +:+ e)
      | Panic => Panic
      end
  end.

(** ** chain_store.go *)

Record PendingBlock `{Crypto} `{Rand} := mkPending { pb_block : VBlock; execResult : ExecuteResult; hasSubmitted : bool }.
Arguments mkPending {_ _}.

(** [cs_told]: the blocks announced to the actor [pid], latest first. *)
Record ChainStore `{Crypto} `{Rand} (DB : Type) := mkChainStore {
  cs_db : DB;
  chainedBlockNum : Z;
  pendingBlocks : gmap Z PendingBlock;
  cs_pid : bool;
  cs_told : list Block;
}.
Arguments mkChainStore {_ _ DB}.
Arguments cs_db {_ _ DB}.
Arguments chainedBlockNum {_ _ DB}.
Arguments pendingBlocks {_ _ DB}.
Arguments cs_pid {_ _ DB}.
Arguments cs_told {_ _ DB}.

Section chain_store.
Context `{Hasher} `{Crypto} `{Rand} `{!LedgerEnv} {DB : Type} `{!LedgerDB DB}.
Abbreviation CS := (ChainStore DB).
Abbreviation CM := (M CS).
Implicit Types cs : CS.

Definition set_db (db : DB) cs : CS := mkChainStore db (chainedBlockNum cs) (pendingBlocks cs) (cs_pid cs) (cs_told cs).
Definition set_pending (p : gmap Z PendingBlock) cs : CS := mkChainStore (cs_db cs) (chainedBlockNum cs) p (cs_pid cs) (cs_told cs).
Definition set_chained (n : Z) cs : CS := mkChainStore (cs_db cs) n (pendingBlocks cs) (cs_pid cs) (cs_told cs).
Definition tell (b : Block) cs : CS :=
  if cs_pid cs then mkChainStore (cs_db cs) (chainedBlockNum cs) (pendingBlocks cs) true (b :: cs_told cs) else cs.
Definition on_db {A} (m : M DB A) : CM A := λ cs, let '(r, db) := m (cs_db cs) in (r, set_db db cs).
Definition modify_cs (f : CS → CS) : CM unit := λ cs, (Ok tt, f cs).

Definition cs_getBlock (blockNum : Z) : CM VBlock :=
  cs ← get_state;
  match pendingBlocks cs !! blockNum with
  | Some blk => mret (pb_block blk)
  | None => block ← on_db (db_GetBlockByHeight blockNum); of_res (initVbftBlock block)
  end.

Definition OpenBlockStore (db : DB) (pid : bool) : res CS * CS :=
  let cs := mkChainStore db (db_GetCurrentBlockHeight db) ∅ pid [] in
  let n := chainedBlockNum cs in
  (merkleRoot ← wrap_err "GetStateMerkleRoot blockNum:, error :" (on_db (db_GetStateMerkleRoot n));
   crossStatesRoot ← wrap_err "GetCrossStatesRoot blockNum:, error :" (on_db (db_GetCrossStateRoot n));
   block ← cs_getBlock n;
   modify_cs (set_pending {[n := mkPending block (mkExecuteResult (Some NewMemDB) [] crossStatesRoot EMPTY_HASH merkleRoot []) false]}) ;;
   get_state) cs.

Definition getCrossStateRoot (blkNum : Z) : CM Uint256 :=
  cs ← get_state;
  match pendingBlocks cs !! blkNum with
  | Some blk => mret (er_CrossStatesRoot (execResult blk))
  | None => wrap_err "GetCrossStateRoot blockNum:, error :" (on_db (db_GetCrossStateRoot blkNum))
  end.

Definition getExecWriteSet (blkNum : Z) cs : option MemDB :=
  blk ← pendingBlocks cs !! blkNum; WriteSet (execResult blk).

Definition ReloadFromLedger cs : CS :=
  let height := db_GetCurrentBlockHeight (cs_db cs) in
  if decide (chainedBlockNum cs < height)
  then set_pending (filter (λ kv, height < kv.1) (pendingBlocks cs)) (set_chained height cs)
  else cs.

(** The error of the ledger is only reported above the chained block. *)
Definition cs_submitBlock (blkNum : Z) : CM unit := λ cs,
  if decide (blkNum = 0) then (Ok tt, cs) else
  match pendingBlocks cs !! blkNum with
  | Some submitBlk =>
      if hasSubmitted submitBlk then (Ok tt, cs) else
      let '(r, cs1) := on_db (db_SubmitBlock (vb_Block (pb_block submitBlk)) (execResult submitBlk)) cs in
      match r with
      | Panic => (Panic, cs1)
      | _ =>
          if decide (is_ok r = false ∧ chainedBlockNum cs1 < blkNum)
          then (Err "ledger add submitBlk failed", cs1)
          else
            let pending := delete (u32 (blkNum - 1)) (pendingBlocks cs1) in
            (Ok tt, set_pending (<[blkNum := mkPending (pb_block submitBlk) (execResult submitBlk) true]> pending) cs1)
      end
  | None => (Ok tt, cs)
  end.

Definition cs_AddBlock (block : option VBlock) : CM unit :=
  cs ← get_state;
  match block with
  | None => fail "try add nil block"
  | Some block =>
      if decide (getBlockNum block ≤ chainedBlockNum cs) then mret tt else
      let blkNum := u32 (chainedBlockNum cs + 1) in
      wrap_err "chainstore AddBlock submitBlock: " (cs_submitBlock (u32 (blkNum - 1))) ;;
      execResult ← wrap_err "chainstore AddBlock GetBlockExecResult: " (on_db (db_ExecuteBlock (vb_Block block)));
      modify_cs (λ cs, set_pending (<[blkNum := mkPending block execResult false]> (pendingBlocks cs)) cs) ;;
      modify_cs (set_chained blkNum) ;;
      modify_cs (tell (vb_Block block))
  end.

End chain_store.

(** ** The ledger implements the interface *)

Section ledger_db.
Context `{Hasher} `{Crypto} `{Rand} `{!SigScheme} `{!LedgerEnv} `{NotifyCodec} `{PersistStore PS} `{ARC Block CB} `{ARC (Transaction * Z) CT}.
Context (contracts : Registry).
Abbreviation LS := (LedgerStore PS CB CT).
Abbreviation LM := (M LS).
Implicit Types l : LS.

Definition ledger_db : LedgerDB LS := {|
  db_GetCurrentBlockHeight := currBlockHeight;
  db_ExecuteBlock := ExecuteBlock contracts;
  db_SubmitBlock := SubmitBlock;
  db_GetBlockByHeight := GetBlockByHeight;
  db_GetStateMerkleRoot h := on_state (GetStateMerkleRoot h);
  db_GetCrossStateRoot h := on_state (GetCrossStateRoot h);
|}.

(** An operation that, unless it succeeds, leaves the height alone. *)
Definition commits {A} (m : LM A) (h : Z) : Prop :=
  ∀ l, if is_ok (m l).1 then currBlockHeight (m l).2 = h else currBlockHeight (m l).2 = currBlockHeight l.

Lemma commits_bind {A B} (m : LM A) (k : A → LM B) h :
  keeps currBlockHeight m → (∀ a, commits (k a) h) → commits (m ≫= k) h.
Proof.
  intros Hm Hk l. unfold mbind, M_bind. specialize (Hm l). destruct (m l) as [[a|e|] l']; cbn in *; [|done..].
  rewrite <- Hm. apply Hk.
Qed.

Lemma keeps_height {A} (m : LM A) : keeps index_part m → keeps currBlockHeight m.
Proof. intros Hm l. specialize (Hm l). unfold index_part in Hm. by injection Hm. Qed.

Lemma lock_height {A} (m : LM A) l : currBlockHeight (with_lock m l).2 = currBlockHeight (m (set_saving true l)).2.
Proof. unfold with_lock. destruct (m _) as [r l']. by destruct (savingBlock l'). Qed.
Lemma lock_ok {A} (m : LM A) l a l' : with_lock m l = (Ok a, l') → ∃ l1, m (set_saving true l) = (Ok a, l1) ∧ currBlockHeight l' = currBlockHeight l1.
Proof. unfold with_lock. destruct (m _) as [r l1]. destruct (savingBlock l1); intros [= -> <-]. by exists l1. Qed.

Lemma commits_submitBlock block result : commits (submitBlock block result : LM unit) (Height (blk_Header block)).
Proof.
  unfold submitBlock. apply commits_bind; [apply keeps_res|]. intros hash.
  apply commits_bind; [unfold led_GetBlockRootWithPreBlockHashes; solve_keeps|]. intros root. case_decide; [by intros l|].
  do 3 (apply commits_bind; [eauto with keeps|]; intros _).
  apply commits_bind; [unfold saveBlockToBlockStore, setHeaderIndex, saveHeaderIndexList; solve_keeps|]. intros _.
  do 5 (apply commits_bind; [unfold saveBlockToStateStore, saveBlockToEventStore; solve_keeps|]; intros _). by intros l.
Qed.

(** After the block is saved its hash is known. *)
Lemma commits_saved block result msg :
  commits (wrap_err msg (submitBlock block result) ;; blockHash ← of_res (Block_Hash block); delHeaderCache blockHash : LM unit) (Height (blk_Header block)).
Proof.
  intros l. pose proof (commits_submitBlock block result l) as Hc. unfold mbind, M_bind, wrap_err.
  destruct (submitBlock block result l) as [[[]|e|] l'] eqn:Es; cbn in *; [|done..].
  unfold submitBlock in Es. apply bind_inv_ok in Es as (hash & l1 & Eh & _). injection Eh as -> _. by cbn.
Qed.

Lemma commits_next block result l :
  let h := Height (blk_Header block) in
  let m := next_block block (submitBlock block result) in
  if decide (h ≤ currBlockHeight l) then m l = (Ok tt, l)
  else if is_ok (m l).1 then h = u32 (currBlockHeight l + 1) ∧ currBlockHeight (m l).2 = h
  else currBlockHeight (m l).2 = currBlockHeight l.
Proof.
  intros h m.
  assert (∃ (k : LM unit) msg, commits k h ∧ m l =
    (if decide (h ≤ currBlockHeight l) then mret tt else if decide (h ≠ u32 (currBlockHeight l + 1)) then fail msg else k) l) as (k & msg & Hc & ->).
  { eexists _, _. split; [|reflexivity]. apply commits_bind; [apply keeps_height, same_wrap, keeps_verify|]. intros peers.
    apply commits_bind; [eauto with keeps|]. intros _. apply commits_saved. }
  destruct (decide (h ≤ currBlockHeight l)); [done|]. destruct (decide (h ≠ u32 (currBlockHeight l + 1))) as [|Hn%dec_stable]; [done|].
  specialize (Hc l). destruct (is_ok _); [|exact Hc]. split; [exact Hn|exact Hc].
Qed.

Lemma ledger_db_laws : LedgerDBLaws LS (LedgerDB0 := ledger_db).
Proof.
  split; cbn [db_GetCurrentBlockHeight db_ExecuteBlock db_SubmitBlock ledger_db].
  - intros block l. unfold ExecuteBlock. rewrite lock_height.
    match goal with |- currBlockHeight (?m _).2 = _ => assert (keeps currBlockHeight m) as Hk end; [|by rewrite Hk].
    apply keeps_height. assert (keeps index_part (executeBlock contracts block : LM ExecuteResult)) by apply keeps_execute. solve_keeps.
  - intros block l r l' (l1 & E & _)%lock_ok. apply bind_inv_ok in E as (l0 & l2 & [= <- <-] & E). cbn [currBlockHeight set_saving] in E.
    case_decide; [by left|]. case_decide as Hn; [done|]. right. lia.
  - intros block result l l' (l1 & E & ->)%lock_ok. set (h := Height (blk_Header block)). pose proof (commits_next block result (set_saving true l)) as Hc. cbv zeta in Hc.
    rewrite E in Hc. fold h in Hc. cbn [currBlockHeight set_saving] in Hc. case_decide; [by injection Hc as ->|exact Hc].
  - intros block result l e l' E. pose proof (lock_height (next_block block (submitBlock block result)) l) as Hl.
    pose proof (commits_next block result (set_saving true l)) as Hc. cbv zeta in Hc. unfold SubmitBlock in E. rewrite E in Hl. cbn [snd] in Hl.
    rewrite Hl. unfold with_lock in E. destruct (next_block _ _ _) as [r l1]. destruct (savingBlock l1); [|done]. injection E as -> _.
    cbn [currBlockHeight set_saving fst snd is_ok] in Hc. by case_decide.
Qed.
End ledger_db.

(** ** The blocks that are not yet in the ledger *)

Section chain_ok.
Context `{Hasher} `{Crypto} `{Rand} `{!LedgerEnv} {DB : Type} `{!LedgerDB DB} `{!LedgerDBLaws DB}.
Abbreviation CS := (ChainStore DB).
Implicit Types cs : CS.

Definition height cs : Z := db_GetCurrentBlockHeight (cs_db cs).

(** The chain store is at most one block ahead of the ledger, a pending block is kept
    under its own number, and the block that the ledger lacks is pending. *)
Record chain_ok cs : Prop := {
  co_range : 0 ≤ chainedBlockNum cs < 2 ^ 32;
  co_height : 0 ≤ height cs < 2 ^ 32;
  co_ahead : chainedBlockNum cs ≤ height cs + 1;
  co_pending : ∀ n pb, pendingBlocks cs !! n = Some pb → getBlockNum (pb_block pb) = n ∧ 0 ≤ n ≤ chainedBlockNum cs;
  co_last : chainedBlockNum cs = height cs + 1 → is_Some (pendingBlocks cs !! chainedBlockNum cs);
}.

(** Submitting never reports an error. *)
Lemma submit_run cs n :
  chain_ok cs →
  match cs_submitBlock n cs with
  | (Ok _, cs') => chain_ok cs' ∧ chainedBlockNum cs' = chainedBlockNum cs ∧ height cs ≤ height cs' ≤ Z.max (height cs) (chainedBlockNum cs)
  | (Err _, _) => False
  | (Panic, _) => True
  end.
Proof using Type*.
  intros [HR Hz HA HP HL]. unfold cs_submitBlock. destruct (decide (n = 0)); [split_and!; [done|done|lia..]|].
  destruct (pendingBlocks cs !! n) as [pb|] eqn:Epb; [|split_and!; [done|done|lia..]].
  destruct (hasSubmitted pb); [split_and!; [done|done|lia..]|].
  destruct (HP n pb Epb) as [Hn Hle]. unfold on_db.
  destruct (db_SubmitBlock _ _ (cs_db cs)) as [r db'] eqn:Es.
  assert (r ≠ Panic → db_GetCurrentBlockHeight db' = height cs ∨ db_GetCurrentBlockHeight db' = n ∧ n = height cs + 1) as Hh.
  { intros Hr. destruct r as [[]|e|]; [|left; by eapply db_submit_err|done]. apply db_submit_ok in Es. cbv zeta in Es.
    fold (height cs) in Es. change (Height (blk_Header (vb_Block (pb_block pb)))) with (getBlockNum (pb_block pb)) in Es. rewrite Hn in Es.
    case_decide; [by left|]. right. destruct Es as [E1 E2]. split; [done|]. unfold uwrap in E1.
    destruct (decide (height cs + 1 < 2 ^ 32)); [rewrite Z.mod_small in E1 by lia; done|].
    assert (height cs + 1 = 2 ^ 32) as E by lia. rewrite E in E1. change (2 ^ 32 mod 2 ^ 32) with 0 in E1. lia. }
  destruct r as [[]|e|]; [| |done]; specialize (Hh ltac:(done)); cbn [is_ok chainedBlockNum set_db pendingBlocks].
  all: rewrite decide_False by (intros [? ?]; lia || done).
  all: split_and!; [|done|unfold height at 2; cbn; destruct Hh; lia|unfold height at 1; cbn; destruct Hh; lia].
  all: split; unfold height in *; cbn in *; [done|lia|lia| |].
  all: try (intros k pk; destruct (decide (k = n)) as [->|]; [rewrite lookup_insert_eq; by intros [= <-]|]; rewrite lookup_insert_ne by done;
    intros [_ ?]%lookup_delete_Some; by apply HP).
  all: intros Hc; destruct (decide (chainedBlockNum cs = n)) as [->|]; [by rewrite lookup_insert_eq|]; rewrite lookup_insert_ne by done.
  all: rewrite lookup_delete_ne; [apply HL; lia|rewrite uwrap_small by (unfold in_range; lia); lia].
Qed.

Lemma chain_ok_tell cs b : chain_ok cs → chain_ok (tell b cs).
Proof. intros [????]. unfold tell. destruct (cs_pid cs); by split. Qed.

(** What [AddBlock] does to a new block. *)
Lemma add_run cs (b : VBlock) :
  chain_ok cs → chainedBlockNum cs < getBlockNum b < 2 ^ 32 →
  height cs ≤ chainedBlockNum cs ∨ getBlockNum b = chainedBlockNum cs + 1 →
  match cs_AddBlock (Some b) cs with
  | (Ok _, cs') => chain_ok cs' ∧ chainedBlockNum cs' = getBlockNum b ∧ getBlockNum b = chainedBlockNum cs + 1 ∧
      ∃ r, pendingBlocks cs' !! getBlockNum b = Some (mkPending b r false)
  | (Err _, cs') => chain_ok cs' ∧ chainedBlockNum cs' = chainedBlockNum cs
  | (Panic, _) => True
  end.
Proof using Type*.
  intros Hok Hnum Hord. pose proof (submit_run cs (chainedBlockNum cs) Hok) as Hs. unfold cs_AddBlock.
  unfold mbind, M_bind, get_state. rewrite decide_False by lia. destruct Hok as [HR _ _ _ _].
  rewrite (uwrap_small 32 (chainedBlockNum cs + 1)) by (unfold in_range; lia).
  replace (chainedBlockNum cs + 1 - 1) with (chainedBlockNum cs) by lia. rewrite (uwrap_small 32 (chainedBlockNum cs)) by done.
  unfold wrap_err. destruct (cs_submitBlock (chainedBlockNum cs) cs) as [[[]|e|] cs1]; [|done..].
  destruct Hs as ([HR1 Hz1 HA1 HP1 HL1] & Ec & Hle1 & Hle2). unfold on_db.
  pose proof (db_execute_height (vb_Block b) (cs_db cs1)) as Hx.
  destruct (db_ExecuteBlock (vb_Block b) (cs_db cs1)) as [r db] eqn:Ex. cbn [snd] in Hx. fold (height cs1) in Hx.
  destruct r as [r|e|]; [| |done].
  - assert (getBlockNum b = chainedBlockNum cs + 1 ∧ chainedBlockNum cs ≤ height cs1) as [Hb Hh].
    { apply db_execute_next in Ex. fold (height cs1) in Ex. change (Height (blk_Header (vb_Block b))) with (getBlockNum b) in Ex.
      destruct Ex as [Ex|Ex]; [lia|]. destruct (decide (height cs1 + 1 = 2 ^ 32)) as [E|].
      - rewrite E in Ex. change (u32 (2 ^ 32)) with 0 in Ex. lia.
      - rewrite uwrap_small in Ex by (unfold in_range; lia). lia. }
    assert (chain_ok (tell (vb_Block b) (set_chained (chainedBlockNum cs + 1)
      (set_pending (<[chainedBlockNum cs + 1 := mkPending b r false]> (pendingBlocks (set_db db cs1))) (set_db db cs1))))) as Hok.
    { apply chain_ok_tell. split; unfold height; cbn; rewrite ?Hx.
      - lia.
      - done.
      - lia.
      - intros n pb. destruct (decide (n = chainedBlockNum cs + 1)) as [->|]; [rewrite lookup_insert_eq; intros [= <-]; cbn; lia|].
        rewrite lookup_insert_ne by done. intros [? ?]%HP1. lia.
      - intros _. rewrite lookup_insert_eq. by eexists. }
    unfold modify_cs. split_and!; [exact Hok| |done|]; [|exists r; rewrite Hb]; unfold tell; cbn [cs_pid set_chained set_pending set_db]; destruct (cs_pid cs1); cbn;
      [lia|lia|by rewrite lookup_insert_eq..].
  - split; [|done]. split; unfold height; cbn; rewrite ?Hx; done.
Qed.
(** The operations of the chain store that return, and, if [others], blocks that
    another goroutine adds to the ledger. *)
Inductive chain_step (others : bool) : CS → CS → Prop :=
  | step_add b cs r cs' :
      getBlockNum b < 2 ^ 32 → height cs ≤ chainedBlockNum cs ∨ getBlockNum b ≤ chainedBlockNum cs + 1 →
      cs_AddBlock (Some b) cs = (r, cs') → r ≠ Panic → chain_step others cs cs'
  | step_submit n cs r cs' : cs_submitBlock n cs = (r, cs') → r ≠ Panic → chain_step others cs cs'
  | step_reload cs : chain_step others cs (ReloadFromLedger cs)
  | step_ledger cs db : others = true → height cs ≤ db_GetCurrentBlockHeight db < 2 ^ 32 → chain_step others cs (set_db db cs).

Lemma add_known cs b : getBlockNum b ≤ chainedBlockNum cs → cs_AddBlock (Some b) cs = (Ok tt, cs).
Proof. intros. unfold cs_AddBlock, mbind, M_bind, get_state. by rewrite decide_True. Qed.

Lemma chain_ok_step others cs cs' : chain_step others cs cs' → chain_ok cs → chain_ok cs'.
Proof using Type*.
  intros [b cs0 r cs1 Hb Hord E Hr|n cs0 r cs1 E Hr|cs0|cs0 db _ Hh] Hok.
  - destruct (decide (getBlockNum b ≤ chainedBlockNum cs0)) as [Hle|Hgt]; [rewrite add_known in E by done; by injection E as _ <-|].
    pose proof (add_run cs0 b Hok) as Ha. rewrite E in Ha. specialize (Ha ltac:(lia) ltac:(lia)). destruct r; [by destruct Ha..|done].
  - pose proof (submit_run cs0 n Hok) as Hs. rewrite E in Hs. destruct r; [by destruct Hs|done..].
  - destruct Hok as [HR Hz HA HP HL]. unfold ReloadFromLedger. fold (height cs0). case_decide; [|done].
    split; unfold height in *; cbn; [done|done|lia| |lia].
    intros n pb [Hn Hlt]%map_lookup_filter_Some. cbn in Hlt. apply HP in Hn. lia.
  - destruct Hok as [HR Hz HA HP HL]. split; unfold height in *; cbn; [done|lia|lia|done|]. intros E. apply HL. lia.
Qed.


(** *** A block that the ledger refused *)

(** The last block counts as submitted but is not in the ledger. *)
Definition stuck cs : Prop :=
  chain_ok cs ∧ height cs < chainedBlockNum cs ∧ ∃ pb, pendingBlocks cs !! chainedBlockNum cs = Some pb ∧ hasSubmitted pb = true.

Lemma submit_cases cs n r cs' :
  cs_submitBlock n cs = (r, cs') → r = Ok tt →
  cs' = cs ∨ n ≠ 0 ∧ ∃ pb r1 db', pendingBlocks cs !! n = Some pb ∧ hasSubmitted pb = false ∧ r1 ≠ Panic ∧
    db_SubmitBlock (vb_Block (pb_block pb)) (execResult pb) (cs_db cs) = (r1, db') ∧
    cs' = set_pending (<[n := mkPending (pb_block pb) (execResult pb) true]> (delete (u32 (n - 1)) (pendingBlocks cs))) (set_db db' cs).
Proof.
  unfold cs_submitBlock. intros E ->. destruct (decide (n = 0)); [left; by injection E|].
  destruct (pendingBlocks cs !! n) as [pb|]; [|left; by injection E]. destruct (hasSubmitted pb) eqn:Hs; [left; by injection E|]. right. split; [done|].
  unfold on_db in E. destruct (db_SubmitBlock _ _ (cs_db cs)) as [r1 db'] eqn:Es. exists pb, r1, db'.
  destruct r1; [| |done]; (case_decide; [done|]); injection E as <-; done.
Qed.

Lemma stuck_submit cs n r cs' :
  stuck cs → cs_submitBlock n cs = (r, cs') → r ≠ Panic →
  r = Ok tt ∧ stuck cs' ∧ height cs' = height cs ∧ chainedBlockNum cs' = chainedBlockNum cs.
Proof using Type*.
  intros (Hok & Hlt & pb & Hpb & Hsub) E Hr. pose proof (submit_run cs n Hok) as Hs. rewrite E in Hs.
  destruct r as [[]| |]; [|done..]. destruct Hs as (Hok' & Hc & _ & _). split; [done|].
  destruct (submit_cases _ _ _ _ E eq_refl) as [->|(Hn0 & pb' & r1 & db' & En & Hsub' & Hr1 & Es & ->)]; [split_and!; [split_and!|..]; by eauto|].
  assert (n ≠ chainedBlockNum cs) as Hne by (intros ->; congruence). destruct (co_pending _ Hok n pb' En) as [Hnum Hn].
  assert (db_GetCurrentBlockHeight db' = height cs) as Hh.
  { destruct r1 as [[]|e|]; [|by eapply db_submit_err|done]. apply db_submit_ok in Es. cbv zeta in Es.
    rewrite decide_True in Es; [done|]. fold (height cs). unfold getBlockNum in Hnum. pose proof (co_ahead _ Hok). lia. }
  split_and!; [split_and!; [done| |]|done|done]; unfold height in *; cbn; [by rewrite Hh|]. exists pb.
  rewrite lookup_insert_ne by done. rewrite lookup_delete_ne; [done|]. pose proof (co_range _ Hok).
  rewrite uwrap_small by (unfold in_range; lia). lia.
Qed.

Lemma stuck_add cs b r cs' :
  stuck cs → getBlockNum b < 2 ^ 32 → cs_AddBlock (Some b) cs = (r, cs') → r ≠ Panic →
  is_ok r = bool_decide (getBlockNum b ≤ chainedBlockNum cs) ∧
  stuck cs' ∧ height cs' = height cs ∧ chainedBlockNum cs' = chainedBlockNum cs.
Proof using Type*.
  intros Hst Hb E Hr. case_bool_decide as Hle.
  { rewrite add_known in E by done. by injection E as <- <-. }
  revert E. unfold cs_AddBlock, mbind, M_bind, get_state. rewrite decide_False by done. pose proof Hst as (Hok & Hlt & _).
  pose proof (co_range _ Hok). pose proof (co_height _ Hok). rewrite (uwrap_small 32 (chainedBlockNum cs + 1)) by (unfold in_range; lia).
  replace (chainedBlockNum cs + 1 - 1) with (chainedBlockNum cs) by lia. rewrite (uwrap_small 32 (chainedBlockNum cs)) by done.
  unfold wrap_err. destruct (cs_submitBlock (chainedBlockNum cs) cs) as [r1 cs1] eqn:Es.
  assert (r1 = Panic ∨ r1 ≠ Panic) as [->|Hr1] by (destruct r1; auto); [intros [= <- <-]; done|].
  destruct (stuck_submit _ _ _ _ Hst Es Hr1) as (-> & (Hok1 & Hlt1 & Hp1) & Hh & Hc). unfold on_db.
  pose proof (db_execute_height (vb_Block b) (cs_db cs1)) as Hx.
  destruct (db_ExecuteBlock (vb_Block b) (cs_db cs1)) as [[r2|e|] db] eqn:Ex; intros [= <- <-]; [exfalso| |done].
  - apply db_execute_next in Ex. fold (height cs1) in Ex. change (Height (blk_Header (vb_Block b))) with (getBlockNum b) in Ex.
    rewrite uwrap_small in Ex by (unfold in_range; lia). lia.
  - cbn [snd] in Hx. fold (height cs1) in Hx. split_and!; [done|split_and!|..]; unfold height; cbn; rewrite ?Hx; try done.
    destruct Hok1. split; unfold height; cbn; rewrite ?Hx; done.
Qed.

Lemma stuck_step cs cs' :
  chain_step false cs cs' → stuck cs → stuck cs' ∧ height cs' = height cs ∧ chainedBlockNum cs' = chainedBlockNum cs.
Proof using Type*.
  intros [b cs0 r cs1 Hb Hord E Hr|n cs0 r cs1 E Hr|cs0|cs0 db Hf] Hst; [| | |done].
  - by destruct (stuck_add _ _ _ _ Hst Hb E Hr).
  - by destruct (stuck_submit _ _ _ _ Hst E Hr).
  - unfold ReloadFromLedger. fold (height cs0). rewrite decide_False; [done|]. destruct Hst as (_ & ? & _). lia.
Qed.

Lemma stuck_steps cs cs' :
  rtc (chain_step false) cs cs' → stuck cs → stuck cs' ∧ height cs' = height cs ∧ chainedBlockNum cs' = chainedBlockNum cs.
Proof using Type*.
  intros Hr. induction Hr as [|cs cs1 cs' Hs _ IH]; [done|]. intros Hst. destruct (stuck_step _ _ Hs Hst) as (Hst1 & <- & <-). by apply IH.
Qed.

Lemma refused_stuck cs pb e db :
  chain_ok cs → height cs < chainedBlockNum cs → pendingBlocks cs !! chainedBlockNum cs = Some pb → hasSubmitted pb = false →
  db_SubmitBlock (vb_Block (pb_block pb)) (execResult pb) (cs_db cs) = (Err e, db) →
  ∃ cs', cs_submitBlock (chainedBlockNum cs) cs = (Ok tt, cs') ∧ stuck cs' ∧ height cs' = height cs ∧ chainedBlockNum cs' = chainedBlockNum cs.
Proof using Type*.
  intros Hok Hlt Hpb Hsub Hdb. pose proof (submit_run cs (chainedBlockNum cs) Hok) as Hs. pose proof (db_submit_err _ _ _ _ _ Hdb) as Hh.
  revert Hs. unfold cs_submitBlock. rewrite decide_False by (pose proof (co_height _ Hok); lia). rewrite Hpb, Hsub. unfold on_db. rewrite Hdb.
  rewrite decide_False by (cbn; lia). intros (Hok' & Hc & _). eexists. split; [reflexivity|].
  split_and!; [split_and!; [done| |]|exact Hh|done]; unfold height in *; cbn; [by rewrite Hh|]. by rewrite lookup_insert_eq; eauto.
Qed.

Lemma add_after_submit cs cs' b :
  chainedBlockNum cs < getBlockNum b < 2 ^ 32 → cs_submitBlock (chainedBlockNum cs) cs = (Ok tt, cs') → stuck cs' →
  chainedBlockNum cs' = chainedBlockNum cs → cs_AddBlock (Some b) cs = cs_AddBlock (Some b) cs'.
Proof.
  intros Hb Es (Hok & Hlt & pb & Hpb & Hsub) Hc. unfold cs_AddBlock, mbind, M_bind, get_state. rewrite Hc, !decide_False by lia.
  pose proof (co_range _ Hok) as HR. rewrite (uwrap_small 32 (chainedBlockNum cs + 1)) by (unfold in_range; lia).
  replace (chainedBlockNum cs + 1 - 1) with (chainedBlockNum cs) by lia. rewrite (uwrap_small 32 (chainedBlockNum cs)) by (unfold in_range; lia).
  unfold wrap_err. rewrite Es. assert (cs_submitBlock (chainedBlockNum cs) cs' = (Ok tt, cs')) as ->; [|done].
  unfold cs_submitBlock. rewrite <- Hc, Hpb, Hsub. by case_decide.
Qed.

(** A refused block is never submitted again.  If the ledger refuses the last
    block of the chain store when the next one is added, then the error is not
    reported but that next block fails to execute, and from then on, until someone
    else adds blocks to the ledger, the node stays where it is: no operation of the
    chain store changes its height or that of the ledger, and no new block can be
    added. *)
Theorem submit_failure_sticks cs pb e db b r cs1 cs2 :
  chain_ok cs → height cs < chainedBlockNum cs → pendingBlocks cs !! chainedBlockNum cs = Some pb → hasSubmitted pb = false →
  db_SubmitBlock (vb_Block (pb_block pb)) (execResult pb) (cs_db cs) = (Err e, db) →
  chainedBlockNum cs < getBlockNum b < 2 ^ 32 → cs_AddBlock (Some b) cs = (r, cs1) → r ≠ Panic →
  rtc (chain_step false) cs1 cs2 →
  is_ok r = false ∧ (cs_submitBlock (chainedBlockNum cs) cs).1 = Ok tt ∧
  height cs2 = height cs ∧ chainedBlockNum cs2 = chainedBlockNum cs ∧
  ∀ b', chainedBlockNum cs < getBlockNum b' < 2 ^ 32 → is_ok (cs_AddBlock (Some b') cs2).1 = false.
Proof using Type*.
  intros Hok Hlt Hpb Hsub Hdb Hb E Hr Hsteps. destruct (refused_stuck _ _ _ _ Hok Hlt Hpb Hsub Hdb) as (csA & Es & Hst & Hh & Hc).
  rewrite (add_after_submit _ _ _ Hb Es Hst Hc) in E. destruct (stuck_add _ _ _ _ Hst (proj2 Hb) E Hr) as (Hr' & Hst1 & Hh1 & Hc1).
  destruct (stuck_steps _ _ Hsteps Hst1) as (Hst2 & Hh2 & Hc2). rewrite Hc1, Hc in Hc2.
  split_and!; [rewrite Hr'; apply bool_decide_eq_false_2; lia|by rewrite Es|congruence|done|]. intros b' Hb'.
  destruct (cs_AddBlock (Some b') cs2) as [r2 cs3] eqn:E2. assert (r2 = Panic ∨ r2 ≠ Panic) as [->|Hr2] by (destruct r2; auto); [done|].
  destruct (stuck_add _ _ _ _ Hst2 (proj2 Hb') E2 Hr2) as [Hn _]. cbn [fst]. rewrite Hn. apply bool_decide_eq_false_2. lia.
Qed.

End chain_ok.

(** ** Example: the ledger of seven peers, and a block without signatures *)

#[local] Existing Instance ex_rand.
#[local] Instance ex_db : LedgerDB (LedgerStore (LevelDBStore (gmap bytes bytes)) (option (Uint256 * Block)) (option (Uint256 * (Transaction * Z)))) :=
  ledger_db ∅.
#[local] Instance ex_db_laws : LedgerDBLaws _ := ledger_db_laws ∅.

Definition ex_info : VbftBlockInfo := mkVbftBlockInfo 1 [] [] 0 None.
Definition ex_unsigned : VBlock := mkVBlock (mkBlock (ex_signed 1 (ex_hash_of ex_genesis) EMPTY_HASH []) []) None ex_info.
Definition ex_second : VBlock := mkVBlock (mkBlock (ex_signed 2 EMPTY_HASH EMPTY_HASH []) []) None ex_info.
Definition ex_pending : PendingBlock := mkPending ex_unsigned (mkExecuteResult None [] EMPTY_HASH EMPTY_HASH EMPTY_HASH []) false.
Definition ex_cs := mkChainStore ex_ledger 1 {[1 := ex_pending]} true [].
Definition ex_cs1 := (cs_AddBlock (Some ex_second) ex_cs).2.

Lemma ex_cs_ok : chain_ok ex_cs.
Proof.
  split; [done|done|done| |].
  - intros n pb E. cbn [pendingBlocks ex_cs] in E. apply lookup_singleton_Some in E as [<- <-]. done.
  - intros _. cbn. rewrite lookup_singleton_eq. by eexists.
Qed.
Lemma ex_add_fails : is_ok (cs_AddBlock (Some ex_second) ex_cs).1 = false ∧ (cs_AddBlock (Some ex_second) ex_cs).1 ≠ Panic.
Proof. by vm_compute. Qed.


Lemma submit_failure_sticks_example :
  height (ReloadFromLedger ex_cs1) = 0 ∧ chainedBlockNum (ReloadFromLedger ex_cs1) = 1 ∧
  is_ok (cs_AddBlock (Some ex_second) (ReloadFromLedger ex_cs1)).1 = false.
Proof.
  assert (is_ok (db_SubmitBlock (vb_Block ex_unsigned) (execResult ex_pending) ex_ledger).1 = false ∧
    (db_SubmitBlock (vb_Block ex_unsigned) (execResult ex_pending) ex_ledger).1 ≠ Panic) as [Hn Hp] by by vm_compute.
  destruct (db_SubmitBlock (vb_Block ex_unsigned) (execResult ex_pending) ex_ledger) as [[u|e|] db] eqn:E; [discriminate Hn| |by destruct Hp].
  destruct (submit_failure_sticks ex_cs ex_pending e db ex_second (cs_AddBlock (Some ex_second) ex_cs).1 ex_cs1 (ReloadFromLedger ex_cs1) ex_cs_ok) as (_ & _ & Hh & Hc & Ha).
  - reflexivity.
  - exact (lookup_singleton_eq 1 ex_pending).
  - reflexivity.
  - exact E.
  - split; vm_compute; reflexivity.
  - exact (surjective_pairing _).
  - exact (proj2 ex_add_fails).
  - apply rtc_once, step_reload.
  - split_and!; [exact Hh|exact Hc|apply Ha; split; vm_compute; reflexivity].
Defined.
