(* ===== verification/VbftPool.v ===== *)
(** * The block pool of VBFT (consensus/vbft/block_pool.go, msg_types.go)

    Per block number: the proposals, the endorsements and commits that were
    received, what this node endorsed and committed, and the sealed block.  Blocks
    are shared: sealing a block writes the collected signatures into the header of
    the very block that is kept among the proposals, so the pool refers to blocks by
    their location in a heap.  A sealed block is a copy, since a block is only
    changed before its copy is made.  Each operation runs under the lock of the
    pool, so that an interleaving of goroutines is a sequence of operations. *)

From S2P Require Import Prelude Sha256 TxRoot Sink Source Serialization BytesOrder MemDB OverlayDB CacheDB Contract MerkleUtil MerkleSpec MerkleHasher HashStore MerkleTree Native ExCrypto Codec Types Signature LedgerExec StateStore BlockStore BlockStoreSpec EventStore Ledger LedgerSpec VbftNode VbftCommit VbftStore.

(** ** msg_types.go *)

Abbreviation loc := nat.

Record blockProposalMsg := mkProposal { pm_Block : loc }.
Record blockEndorseMsg := mkEndorseMsg {
  Endorser : Z;
  em_EndorsedProposer : Z;
  em_BlockNum : Z;
  EndorsedBlockHash : Uint256;
  EndorseForEmpty : bool;
  FaultyProposals : list FaultyReport;
  em_ProposerSig : bytes;
  EndorserSig : bytes;
}.

(** ** block_pool.go: data *)

Record CandidateEndorseSigInfo := mkESig { EndorsedProposer : Z; es_Signature : bytes; es_ForEmpty : bool }.

Record CandidateInfo `{Crypto} := mkCandidate {
  EndorsedProposal : option blockProposalMsg;
  EndorsedEmptyProposal : option blockProposalMsg;
  CommittedProposal : option blockProposalMsg;
  CommittedEmptyProposal : option blockProposalMsg;
  ci_commitDone : bool;
  SealedBlock : option VBlock;
  ci_Proposals : list blockProposalMsg;
  CommitMsgs : list blockCommitMsg;
  EndorseSigs : option (gmap Z (list CandidateEndorseSigInfo));   (* [None]: the nil map *)
}.
Arguments mkCandidate {_}.

Record BlockPool `{Crypto} `{Rand} (DB : Type) := mkPool {
  HistoryLen : Z;
  chainStore : ChainStore DB;
  candidateBlocks : gmap Z CandidateInfo;
  heap : gmap loc VBlock;
}.
Arguments mkPool {_ _ DB}.
Arguments HistoryLen {_ _ DB}.
Arguments chainStore {_ _ DB}.
Arguments candidateBlocks {_ _ DB}.
Arguments heap {_ _ DB}.

(** The server and the run-time system: whether a peer endorses a block, the keys of
    peers (a key is a Go interface, of which [nil_key] is the nil value), and the
    order in which [range] visits a map. *)
Class PoolEnv `{Crypto} := {
  srv_isEndorser : Z → Z → bool;
  GetPeerPubKey : Z → option PublicKey;
  nil_key : PublicKey;
  map_range : ∀ {V : Type}, gmap Z V → list (Z * V);
  map_range_perm : ∀ {V : Type} (m : gmap Z V), map_range m ≡ₚ map_to_list m;
}.

Section pool.
Context `{Hasher} `{Crypto} `{Rand} `{!LedgerEnv} `{!PoolEnv} {DB : Type} `{!LedgerDB DB}.
Abbreviation PL := (BlockPool DB).
Abbreviation PM := (M PL).
Implicit Types (pool : PL) (c : CandidateInfo).

Definition set_store (s : ChainStore DB) pool : PL := mkPool (HistoryLen pool) s (candidateBlocks pool) (heap pool).
Definition set_candidates (m : gmap Z CandidateInfo) pool : PL := mkPool (HistoryLen pool) (chainStore pool) m (heap pool).
Definition set_heap (h : gmap loc VBlock) pool : PL := mkPool (HistoryLen pool) (chainStore pool) (candidateBlocks pool) h.
Definition on_store {A} (m : M (ChainStore DB) A) : PM A := λ pool, let '(r, s) := m (chainStore pool) in (r, set_store s pool).
Definition modify_pool (f : PL → PL) : PM unit := λ pool, (Ok tt, f pool).
Definition deref (l : loc) : PM VBlock := pool ← get_state; of_option (heap pool !! l).
(** An assignment to a field of [pool.candidateBlocks[blkNum]]. *)
Definition update_candidate (blkNum : Z) (f : CandidateInfo → CandidateInfo) : PM unit :=
  modify_pool (λ pool, set_candidates (alter f blkNum (candidateBlocks pool)) pool).

Definition set_EndorsedProposal p c :=
  mkCandidate p (EndorsedEmptyProposal c) (CommittedProposal c) (CommittedEmptyProposal c) (ci_commitDone c) (SealedBlock c) (ci_Proposals c) (CommitMsgs c) (EndorseSigs c).
Definition set_EndorsedEmptyProposal p c :=
  mkCandidate (EndorsedProposal c) p (CommittedProposal c) (CommittedEmptyProposal c) (ci_commitDone c) (SealedBlock c) (ci_Proposals c) (CommitMsgs c) (EndorseSigs c).
Definition set_CommittedProposal p c :=
  mkCandidate (EndorsedProposal c) (EndorsedEmptyProposal c) p (CommittedEmptyProposal c) (ci_commitDone c) (SealedBlock c) (ci_Proposals c) (CommitMsgs c) (EndorseSigs c).
Definition set_CommittedEmptyProposal p c :=
  mkCandidate (EndorsedProposal c) (EndorsedEmptyProposal c) (CommittedProposal c) p (ci_commitDone c) (SealedBlock c) (ci_Proposals c) (CommitMsgs c) (EndorseSigs c).
Definition set_commitDone b c :=
  mkCandidate (EndorsedProposal c) (EndorsedEmptyProposal c) (CommittedProposal c) (CommittedEmptyProposal c) b (SealedBlock c) (ci_Proposals c) (CommitMsgs c) (EndorseSigs c).
Definition set_SealedBlock b c :=
  mkCandidate (EndorsedProposal c) (EndorsedEmptyProposal c) (CommittedProposal c) (CommittedEmptyProposal c) (ci_commitDone c) b (ci_Proposals c) (CommitMsgs c) (EndorseSigs c).
Definition set_Proposals l c :=
  mkCandidate (EndorsedProposal c) (EndorsedEmptyProposal c) (CommittedProposal c) (CommittedEmptyProposal c) (ci_commitDone c) (SealedBlock c) l (CommitMsgs c) (EndorseSigs c).
Definition set_CommitMsgs l c :=
  mkCandidate (EndorsedProposal c) (EndorsedEmptyProposal c) (CommittedProposal c) (CommittedEmptyProposal c) (ci_commitDone c) (SealedBlock c) (ci_Proposals c) l (EndorseSigs c).
Definition set_EndorseSigs m c :=
  mkCandidate (EndorsedProposal c) (EndorsedEmptyProposal c) (CommittedProposal c) (CommittedEmptyProposal c) (ci_commitDone c) (SealedBlock c) (ci_Proposals c) (CommitMsgs c) m.

Definition sigs_of c : gmap Z (list CandidateEndorseSigInfo) := default ∅ (EndorseSigs c).

(** ** block_pool.go: operations *)

Definition history_candidate (blk : VBlock) : CandidateInfo := mkCandidate None None None None false (Some blk) [] [] None.
Definition new_candidate : CandidateInfo := mkCandidate None None None None false None [] [] (Some ∅).

Fixpoint load_history (ns : list Z) (m : gmap Z CandidateInfo) : M (ChainStore DB) (gmap Z CandidateInfo) :=
  match ns with
  | [] => mret m
  | n :: ns => blk ← wrap_err "failed to load block height : error:" (cs_getBlock n); load_history ns (<[n := history_candidate blk]> m)
  end.
Definition newBlockPool (historyLen : Z) (h : gmap loc VBlock) (store : ChainStore DB) : res PL :=
  let n := chainedBlockNum store in
  let first := if decide (historyLen < n) then n - historyLen else 0 in
  match load_history (seqZ first (n - first + 1)) ∅ store with
  | (Ok m, store) => Ok (mkPool historyLen store m h)
  | (Err e, _) => Err e
  | (Panic, _) => Panic
  end.
Definition pool_clean : PM unit := modify_pool (set_candidates ∅).

Definition getCandidateInfoLocked (blkNum : Z) : PM CandidateInfo :=
  pool ← get_state;
  match candidateBlocks pool !! blkNum with
  | Some c => mret c
  | None => modify_pool (set_candidates (<[blkNum := new_candidate]> (candidateBlocks pool))) ;; mret new_candidate
  end.

(** Assigning to the nil map panics. *)
Definition put_sigs (blkNum endorser : Z) (l : list CandidateEndorseSigInfo) c : PM unit :=
  match EndorseSigs c with
  | None => panic
  | Some m => update_candidate blkNum (set_EndorseSigs (Some (<[endorser := l]> m)))
  end.
Definition addBlockEndorsementLocked (blkNum endorser : Z) (eSig : CandidateEndorseSigInfo) (commitment : bool) : PM unit :=
  candidate ← getCandidateInfoLocked blkNum;
  match sigs_of candidate !! endorser with
  | Some eSigs =>
      if commitment then put_sigs blkNum endorser [eSig] candidate else
      if existsb es_ForEmpty eSigs then mret tt else
      if es_ForEmpty eSig then put_sigs blkNum endorser (eSigs ++ [eSig]) candidate else
      if existsb (λ e, bool_decide (EndorsedProposer e = EndorsedProposer eSig)) eSigs then mret tt else
      put_sigs blkNum endorser (eSigs ++ [eSig]) candidate
  | None => put_sigs blkNum endorser [eSig] candidate
  end.

(** The loop that looks for a proposal of the same proposer: [Some] whether it is the
    same one. *)
Fixpoint dup_proposal (blk : VBlock) (ps : list blockProposalMsg) : PM (option bool) :=
  match ps with
  | [] => mret None
  | p :: ps =>
      b ← deref (pm_Block p);
      if decide (getProposer b = getProposer blk) then
        s1 ← of_option (h_SigData (blk_Header (vb_Block b)) !! 0%nat);
        s2 ← of_option (h_SigData (blk_Header (vb_Block blk)) !! 0%nat);
        mret (Some (bool_decide (s1 = s2)))
      else dup_proposal blk ps
  end.
Definition newBlockProposal (msg : blockProposalMsg) : PM unit :=
  blk ← deref (pm_Block msg);
  let blkNum := getBlockNum blk in
  candidate ← getCandidateInfoLocked blkNum;
  dup ← dup_proposal blk (ci_Proposals candidate);
  match dup with
  | Some true => mret tt
  | Some false => fail "multi proposal from same proposer"
  | None =>
      update_candidate blkNum (set_Proposals (ci_Proposals candidate ++ [msg])) ;;
      sig ← of_option (h_SigData (blk_Header (vb_Block blk)) !! 0%nat);
      addBlockEndorsementLocked blkNum (getProposer blk) (mkESig (getProposer blk) sig false) false
  end.

Definition newBlockEndorsement (msg : blockEndorseMsg) : PM unit :=
  addBlockEndorsementLocked (em_BlockNum msg) (Endorser msg)
    (mkESig (em_EndorsedProposer msg) (EndorserSig msg) (EndorseForEmpty msg)) false.

Fixpoint add_endorsements (msg : blockCommitMsg) (l : list (Z * bytes)) : PM unit :=
  match l with
  | [] => mret tt
  | (endorser, sig) :: l =>
      wrap_err "failed to verify endorse sig from : "
        (addBlockEndorsementLocked (cm_BlockNum msg) endorser (mkESig (BlockProposer msg) sig (CommitForEmpty msg)) false) ;;
      add_endorsements msg l
  end.
Definition newBlockCommitment (msg : blockCommitMsg) : PM unit :=
  let blkNum := cm_BlockNum msg in
  candidate ← getCandidateInfoLocked blkNum;
  match list_find (λ m, Committer m = Committer msg) (CommitMsgs candidate) with
  | Some (_, m) => if decide (CommitBlockHash m = CommitBlockHash msg) then mret tt else fail "multi commit from same committer"
  | None =>
      add_endorsements msg (map_range (EndorsersSig msg)) ;;
      addBlockEndorsementLocked blkNum (Committer msg) (mkESig (BlockProposer msg) (CommitterSig msg) (CommitForEmpty msg)) true ;;
      update_candidate blkNum (λ c, set_CommitMsgs (CommitMsgs c ++ [msg]) c)
  end.

Definition getBlockProposals (blkNum : Z) pool : list blockProposalMsg :=
  match candidateBlocks pool !! blkNum with Some c => ci_Proposals c | None => [] end.
Definition endorsedForBlock (blkNum : Z) pool : bool :=
  if decide (blkNum ≤ chainedBlockNum (chainStore pool)) then true else
  match candidateBlocks pool !! blkNum with
  | Some c => bool_decide (is_Some (EndorsedProposal c) ∨ is_Some (EndorsedEmptyProposal c))
  | None => false
  end.
Definition getEndorsedProposal (blkNum : Z) pool : option blockProposalMsg * bool :=
  if negb (endorsedForBlock blkNum pool) then (None, false) else
  match candidateBlocks pool !! blkNum with
  | Some c =>
      match EndorsedEmptyProposal c, EndorsedProposal c with
      | Some p, _ => (Some p, true)
      | None, Some p => (Some p, false)
      | None, None => (None, false)
      end
  | None => (None, false)
  end.
Definition endorsedForEmptyBlock (blkNum : Z) pool : bool :=
  match candidateBlocks pool !! blkNum with Some c => bool_decide (is_Some (EndorsedEmptyProposal c)) | None => false end.
Definition committedForBlock (blkNum : Z) pool : bool :=
  if decide (blkNum ≤ chainedBlockNum (chainStore pool)) then true else
  match candidateBlocks pool !! blkNum with
  | Some c => bool_decide (is_Some (CommittedProposal c) ∨ is_Some (CommittedEmptyProposal c))
  | None => false
  end.

Definition setProposalEndorsed (proposal : blockProposalMsg) (forEmpty : bool) : PM unit :=
  blk ← deref (pm_Block proposal);
  let blkNum := getBlockNum blk in
  pool ← get_state;
  match candidateBlocks pool !! blkNum with
  | None => fail "non-candidates for block yet when set endorsed"
  | Some c =>
      if forEmpty then
        match EndorsedEmptyProposal c with
        | Some _ => fail "block has endorsed for empty"
        | None => update_candidate blkNum (set_EndorsedEmptyProposal (Some proposal))
        end
      else
        match EndorsedProposal c with
        | None => update_candidate blkNum (set_EndorsedProposal (Some proposal))
        | Some p =>
            b ← deref (pm_Block p);
            if decide (getProposer b = getProposer blk) then mret tt else fail "blk had endorsed for , skip "
        end
  end.

(** The inner tests of the source, on the field that is nil, never succeed. *)
Definition setProposalCommitted (proposal : blockProposalMsg) (forEmpty : bool) : PM unit :=
  blk ← deref (pm_Block proposal);
  let blkNum := getBlockNum blk in
  pool ← get_state;
  match candidateBlocks pool !! blkNum with
  | None => fail "non-candidates for block yet when set commit"
  | Some c =>
      if decide (is_Some (CommittedProposal c) ∨ is_Some (CommittedEmptyProposal c)) then fail "had committed for block"
      else if forEmpty then update_candidate blkNum (set_CommittedEmptyProposal (Some proposal))
      else update_candidate blkNum (set_CommittedProposal (Some proposal))
  end.

Definition setCommitDone (blkNum : Z) : PM unit := update_candidate blkNum (set_commitDone true).
Definition isCommitHadDone (blkNum : Z) pool : bool :=
  match candidateBlocks pool !! blkNum with Some c => ci_commitDone c | None => false end.

(** *** Counting *)

(** [for _, eSigs := range candidate.EndorseSigs { for _, esig := range eSigs ... }]
    visits the endorsements one endorser after the other. *)
Definition all_sigs c : list CandidateEndorseSigInfo := mjoin ((map_range (sigs_of c)).*2).

Definition count32 (m : gmap Z Z) (p : Z) : gmap Z Z := <[p := u32 (default 0 (m !! p) + 1)]> m.

Fixpoint endorse_loop (C : Z) (sigs : list CandidateEndorseSigInfo) (endorseCount : gmap Z Z) (emptyEndorseCount : Z) : Z * bool * bool :=
  match sigs with
  | [] => (MaxUint32, false, false)
  | esig :: sigs =>
      if es_ForEmpty esig then
        let emptyEndorseCount := emptyEndorseCount + 1 in
        if decide (C < emptyEndorseCount) then (EndorsedProposer esig, true, true)
        else endorse_loop C sigs endorseCount emptyEndorseCount
      else
        let endorseCount := count32 endorseCount (EndorsedProposer esig) in
        if decide (C < default 0 (endorseCount !! EndorsedProposer esig)) then (EndorsedProposer esig, false, true)
        else endorse_loop C sigs endorseCount emptyEndorseCount
  end.
Definition endorseDone (blkNum C : Z) pool : Z * bool * bool :=
  match candidateBlocks pool !! blkNum with
  | None => (MaxUint32, false, false)
  | Some candidate =>
      if decide (u32 (Z.of_nat (size (sigs_of candidate))) < u32 (C + 1)) then (MaxUint32, false, false)
      else endorse_loop C (all_sigs candidate) ∅ 0
  end.

(** [None]: the count of a proposal is above [C + 1]. *)
Fixpoint failed_loop (C : Z) (sigs : list CandidateEndorseSigInfo) (proposalCount : gmap Z Z) (emptyEndorseCnt : Z) : option (gmap Z Z * Z) :=
  match sigs with
  | [] => Some (proposalCount, emptyEndorseCnt)
  | esig :: sigs =>
      if es_ForEmpty esig then failed_loop C sigs proposalCount (u32 (emptyEndorseCnt + 1))
      else
        let proposalCount := count32 proposalCount (EndorsedProposer esig) in
        if decide (u32 (C + 1) < default 0 (proposalCount !! EndorsedProposer esig)) then None
        else failed_loop C sigs proposalCount emptyEndorseCnt
  end.
Definition endorseFailed (blkNum C : Z) pool : bool :=
  match candidateBlocks pool !! blkNum with
  | None => false
  | Some candidate =>
      let endorsers := u32 (Z.of_nat (size (sigs_of candidate))) in
      if decide (endorsers < u32 (C + 1)) then false else
      match failed_loop C (all_sigs candidate) ∅ 0 with
      | None => false
      | Some (proposalCount, emptyEndorseCnt) =>
          if decide (u32 (C + 1) < u32 (Z.of_nat (size proposalCount))) then true else
          if decide (C < emptyEndorseCnt) then true else
          let l := u32 (2 * C + 1 - endorsers) in
          negb (existsb (λ kv, bool_decide (C < u32 (kv.2 + l))) (map_range proposalCount))
      end
  end.

(** The variables of [commitDone]. *)
Record commit_scan := mkScan { sc_emptyCnt : Z; sc_endorseCnt : gmap Z Z; sc_proposer : Z; sc_forEmpty : bool }.
(** The inner loop, up to its [break]. *)
Fixpoint scan_sigs (C : Z) (sigs : list CandidateEndorseSigInfo) (s : commit_scan) : commit_scan :=
  match sigs with
  | [] => s
  | sig :: sigs =>
      if es_ForEmpty sig then scan_sigs C sigs (mkScan (u32 (sc_emptyCnt s + 1)) (sc_endorseCnt s) (sc_proposer s) (sc_forEmpty s))
      else
        let cnt := count32 (sc_endorseCnt s) (EndorsedProposer sig) in
        if decide (C < default 0 (cnt !! EndorsedProposer sig))
        then mkScan (sc_emptyCnt s) cnt (EndorsedProposer sig) (sc_forEmpty s || bool_decide (C < sc_emptyCnt s))
        else scan_sigs C sigs (mkScan (sc_emptyCnt s) cnt (sc_proposer s) (sc_forEmpty s))
  end.
Definition count_empty (sigs : list CandidateEndorseSigInfo) (s : commit_scan) : commit_scan :=
  mkScan (u32 (sc_emptyCnt s + blen (filter (λ sig, es_ForEmpty sig = true) sigs))) (sc_endorseCnt s) (sc_proposer s) (sc_forEmpty s).
Fixpoint scan_endorsers (blkNum C : Z) (l : list (Z * list CandidateEndorseSigInfo)) (s : commit_scan) : commit_scan :=
  match l with
  | [] => s
  | (endorser, eSigs) :: l =>
      let s := if srv_isEndorser blkNum endorser then s else count_empty eSigs s in
      let s := scan_sigs C eSigs s in
      if decide (sc_proposer s ≠ MaxUint32) then s else scan_endorsers blkNum C l s
  end.
Definition commitDone (blkNum C N : Z) pool : Z * bool * bool :=
  match candidateBlocks pool !! blkNum with
  | None => (MaxUint32, false, false)
  | Some candidate =>
      let '(proposer, forEmpty) := getCommitConsensus (CommitMsgs candidate) C N in
      let C := u32 (N - 1 - C) in
      let s :=
        if decide (proposer = MaxUint32) then scan_endorsers blkNum C (map_range (sigs_of candidate)) (mkScan 0 ∅ proposer forEmpty)
        else mkScan 0 ∅ proposer forEmpty in
      if decide (sc_proposer s ≠ MaxUint32) then (sc_proposer s, sc_forEmpty s, true) else (MaxUint32, false, false)
  end.

Fixpoint max_empty (sigs : list CandidateEndorseSigInfo) (msgHashCnt : gmap Z Z) (maxCnt maxEndorsedProposer : Z) : Z * Z :=
  match sigs with
  | [] => (maxCnt, maxEndorsedProposer)
  | esig :: sigs =>
      if es_ForEmpty esig then
        let p := EndorsedProposer esig in
        let n := default 0 (msgHashCnt !! p) + 1 in
        if decide (maxCnt < n) then max_empty sigs (<[p := n]> msgHashCnt) n p
        else max_empty sigs (<[p := n]> msgHashCnt) maxCnt maxEndorsedProposer
      else max_empty sigs msgHashCnt maxCnt maxEndorsedProposer
  end.
Fixpoint find_proposal (proposer : Z) (ps : list blockProposalMsg) : PM (option blockProposalMsg) :=
  match ps with
  | [] => mret None
  | p :: ps => b ← deref (pm_Block p); if decide (getProposer b = proposer) then mret (Some p) else find_proposal proposer ps
  end.
Definition findConsensusEmptyProposal (blockNum : Z) : PM blockProposalMsg :=
  pool ← get_state;
  match candidateBlocks pool !! blockNum with
  | None => fail "no candidate msgs for block"
  | Some c =>
      let '(maxCnt, maxEndorsedProposer) := max_empty (all_sigs c) ∅ 0 0 in
      r ← (if decide (0 < maxCnt) then find_proposal maxEndorsedProposer (ci_Proposals c) else mret None);
      match r with Some p => mret p | None => fail "failed to get block proposal of proposer" end
  end.

(** *** Sealing *)

Definition with_sigs (b : Block) (bookkeepers : list PublicKey) (sigData : list bytes) : Block :=
  mkBlock (header_with (blk_Header b) bookkeepers sigData) (Transactions b).

(** The endorsers' keys and signatures for the block. *)
Definition endorser_sig (proposer : Z) (forEmpty : bool) (e : Z * list CandidateEndorseSigInfo) : option (PublicKey * bytes) :=
  '(_, sig) ← list_find (λ sig, EndorsedProposer sig = proposer ∧ es_ForEmpty sig = forEmpty ∧ e.1 ≠ proposer) e.2;
  pk ← GetPeerPubKey e.1;
  Some (pk, es_Signature sig).

Definition addSignaturesToBlockLocked (l : loc) (forEmpty : bool) : PM unit :=
  block ← deref l;
  c ← getCandidateInfoLocked (getBlockNum block);
  let proposer := getProposer block in
  let proposerPk := default nil_key (GetPeerPubKey proposer) in
  target ← (if forEmpty then match EmptyBlock block with Some e => mret e | None => fail "block has no empty candidate" end
            else mret (vb_Block block));
  sig ← of_option (h_SigData (blk_Header target) !! 0%nat);
  let ends := omap (endorser_sig proposer forEmpty) (map_range (sigs_of c)) in
  let target := with_sigs target (proposerPk :: ends.*1) (sig :: ends.*2) in
  let block := if forEmpty then mkVBlock (vb_Block block) (Some target) (vb_Info block) else mkVBlock target (EmptyBlock block) (vb_Info block) in
  modify_pool (λ pool, set_heap (<[l := block]> (heap pool)) pool).

Definition setBlockSealed (l : loc) (forEmpty sigdata : bool) : PM unit :=
  block ← deref l;
  let blkNum := getBlockNum block in
  c ← getCandidateInfoLocked blkNum;
  match SealedBlock c with
  | Some b => if decide (getProposer b = getProposer block) then mret tt else fail "double seal for block"
  | None =>
      (if sigdata then wrap_err "failed to add sig to block: " (addSignaturesToBlockLocked l forEmpty) else mret tt) ;;
      block ← deref l;
      (* adding a nil block to the chain store panics *)
      sealed ← (if forEmpty then of_option (EmptyBlock block) else mret (vb_Block block));
      let sealed := mkVBlock sealed None (vb_Info block) in
      update_candidate blkNum (set_SealedBlock (Some sealed)) ;;
      wrap_err "failed to seal block to chainstore: " (on_store (cs_AddBlock (Some sealed)))
  end.

Definition getSealedBlock (blockNum : Z) : PM (option VBlock * Uint256) := λ pool,
  let from_store : PM (option VBlock * Uint256) := λ pool,
    match on_store (cs_getBlock blockNum) pool with
    | (Ok blk, pool) => (h ← of_res (Block_Hash (vb_Block blk)); mret (Some blk, h)) pool
    | (Err _, pool) => (Ok (None, EMPTY_HASH), pool)
    | (Panic, pool) => (Panic, pool)
    end in
  match candidateBlocks pool !! blockNum ≫= SealedBlock with
  | Some b => (h ← of_res (Block_Hash (vb_Block b)); if decide (h ≠ EMPTY_HASH) then mret (Some b, h) else from_store) pool
  | None => from_store pool
  end.

Definition pool_onBlockSealed (blockNum : Z) : PM unit :=
  pool ← get_state;
  if decide (blockNum ≤ HistoryLen pool) then mret tt else
  modify_pool (λ pool, set_candidates (filter (λ kv, ¬ kv.1 < blockNum - HistoryLen pool) (candidateBlocks pool)) pool).

Definition pool_getExecWriteSet (blkNum : Z) pool : option MemDB := getExecWriteSet blkNum (chainStore pool).
Definition pool_submitBlock (blkNum : Z) : PM unit := on_store (cs_submitBlock blkNum).
Definition pool_getCrossStatesRoot (blkNum : Z) : PM Uint256 := on_store (getCrossStateRoot blkNum).

End pool.
