(* ===== verification/VbftPoolSpec.v ===== *)
(** * What the block pool guarantees

    The effect of each operation of [VbftPool] on the candidate of its block number,
    the invariant of the pool, what is never taken back, and what the counts of
    endorsements mean for the block that is sealed. *)

From S2P Require Import Prelude Sha256 TxRoot Sink Source Serialization BytesOrder MemDB OverlayDB CacheDB Contract MerkleUtil MerkleSpec MerkleHasher HashStore MerkleTree Native ExCrypto Codec Types Signature LedgerExec StateStore BlockStore BlockStoreSpec EventStore Ledger LedgerSpec VbftNode VbftCommit VbftStore VbftPool.

(** ** The endorsements of one peer *)

Implicit Types (l : list CandidateEndorseSigInfo) (e : CandidateEndorseSigInfo).

(** Each proposer is endorsed once, and nothing follows an endorsement of the empty
    block. *)
Record sigs_wf l : Prop := {
  sw_nonempty : l ≠ [];
  sw_once : NoDup (EndorsedProposer <$> filter (λ e, es_ForEmpty e = false) l);
  sw_last : ∀ i e, l !! i = Some e → es_ForEmpty e = true → S i = length l;
}.

(** What an endorsement adds to those of the peer. *)
Definition add_esig (old : option (list CandidateEndorseSigInfo)) (e : CandidateEndorseSigInfo) (commitment : bool) : list CandidateEndorseSigInfo :=
  match old with
  | Some l =>
      if commitment then [e] else
      if existsb es_ForEmpty l then l else
      if es_ForEmpty e then l ++ [e] else
      if existsb (λ e', bool_decide (EndorsedProposer e' = EndorsedProposer e)) l then l else l ++ [e]
  | None => [e]
  end.

Lemma sigs_wf_one e : sigs_wf [e].
Proof.
  split; [done| |].
  - rewrite filter_cons, filter_nil. case_decide; [apply NoDup_singleton|apply NoDup_nil_2].
  - intros [|[]] e'; done.
Qed.

Lemma existsb_none {A} (f : A → bool) (l : list A) : existsb f l = false → ∀ x, x ∈ l → f x = false.
Proof.
  induction l as [|y l IH]; cbn; [by intros _ x ?%not_elem_of_nil|]. intros [Hy Hl]%orb_false_iff x [->|Hx]%elem_of_cons; [done|by apply IH].
Qed.

Lemma sigs_wf_snoc l e :
  sigs_wf l → existsb es_ForEmpty l = false →
  (es_ForEmpty e = false → EndorsedProposer e ∉ (EndorsedProposer <$> l)) → sigs_wf (l ++ [e]).
Proof.
  intros [Hne Hnd _] Hno Hnew. split; [by destruct l| |].
  - rewrite filter_app, fmap_app. apply NoDup_app. split_and!; [done| |apply sigs_wf_one].
    intros p (e1 & -> & [_ He1]%list_elem_of_filter)%list_elem_of_fmap. rewrite filter_cons, filter_nil. case_decide as He; cbn; [|apply not_elem_of_nil].
    intros E%list_elem_of_singleton. apply (Hnew He). rewrite <- E. by apply list_elem_of_fmap_2.
  - intros i e' Hi He'. apply lookup_app_Some in Hi as [Hi|[Hge Hi]].
    + apply list_elem_of_lookup_2 in Hi. by rewrite (existsb_none _ _ Hno e' Hi) in He'.
    + rewrite length_app. cbn. destruct (i - length l)%nat eqn:Ei; [lia|done].
Qed.

Lemma add_esig_wf old e commitment : (∀ l, old = Some l → sigs_wf l) → sigs_wf (add_esig old e commitment).
Proof.
  intros Hold. unfold add_esig. destruct old as [l|]; [|apply sigs_wf_one]. specialize (Hold l eq_refl). destruct commitment; [apply sigs_wf_one|].
  destruct (existsb es_ForEmpty l) eqn:Hno; [done|]. destruct (es_ForEmpty e) eqn:He; [apply sigs_wf_snoc; congruence|].
  destruct (existsb (λ e', bool_decide (EndorsedProposer e' = EndorsedProposer e)) l) eqn:Hdup; [done|]. apply sigs_wf_snoc; [done..|]. intros _ (e1 & E & He1)%list_elem_of_fmap.
  pose proof (existsb_none _ _ Hdup e1 He1) as Hn. apply bool_decide_eq_false in Hn. congruence.
Qed.

(** ** The effect of the operations *)

Section effects.
Context `{Hasher} `{Crypto} `{Rand} `{!LedgerEnv} `{!PoolEnv} {DB : Type} `{!LedgerDB DB}.
Abbreviation PL := (BlockPool DB).
Abbreviation PM := (M PL).
Implicit Types (pool : PL) (c : CandidateInfo) (n : Z).

Definition candidate_at pool n : CandidateInfo := default new_candidate (candidateBlocks pool !! n).
Definition put pool n c : PL := set_candidates (<[n := c]> (candidateBlocks pool)) pool.

Lemma put_same pool n c : candidateBlocks pool !! n = Some c → put pool n c = pool.
Proof. intros E. unfold put, set_candidates. rewrite insert_id by done. by destruct pool. Qed.
Lemma put_put pool n c c' : put (put pool n c) n c' = put pool n c'.
Proof. unfold put, set_candidates. cbn. by rewrite insert_insert_eq. Qed.
Lemma at_put pool n c : candidate_at (put pool n c) n = c.
Proof. unfold candidate_at. cbn. by rewrite lookup_insert_eq. Qed.

Lemma get_candidate_run n pool : getCandidateInfoLocked n pool = (Ok (candidate_at pool n), put pool n (candidate_at pool n)).
Proof.
  unfold getCandidateInfoLocked, mbind, M_bind, get_state, candidate_at. destruct (candidateBlocks pool !! n) as [c|] eqn:E; cbn; [|done].
  by rewrite put_same.
Qed.
Lemma update_put n (f : CandidateInfo → CandidateInfo) pool c : update_candidate n f (put pool n c) = (Ok tt, put pool n (f c)).
Proof. unfold update_candidate, modify_pool, put, set_candidates. cbn. by rewrite alter_insert_eq. Qed.

(** An endorsement. *)
Lemma add_endorsement_run n endorser e (commitment : bool) pool :
  let c := candidate_at pool n in
  addBlockEndorsementLocked n endorser e commitment pool =
    match EndorseSigs c with
    | None => (Panic, put pool n c)
    | Some m => (Ok tt, put pool n (set_EndorseSigs (Some (<[endorser := add_esig (m !! endorser) e commitment]> m)) c))
    end.
Proof.
  intros c. unfold addBlockEndorsementLocked. rewrite (bind_ok _ _ _ _ _ (get_candidate_run n pool)). fold c.
  unfold sigs_of, put_sigs. destruct (EndorseSigs c) as [m|] eqn:Em; cbn [default from_option id]; [|by rewrite lookup_empty].
  assert (∀ l, m !! endorser = Some l → (Ok tt, put pool n c) = (Ok tt, put pool n (set_EndorseSigs (Some (<[endorser := l]> m)) c))) as Hid.
  { intros l E. rewrite insert_id by done. rewrite <- Em. by destruct c. }
  unfold add_esig. destruct (m !! endorser) as [l|] eqn:El; [|by rewrite update_put]. destruct commitment; [by rewrite update_put|].
  destruct (existsb es_ForEmpty l); [by rewrite <- Hid|]. destruct (es_ForEmpty e); [by rewrite update_put|].
  destruct (existsb _ l); [by rewrite <- Hid|by rewrite update_put].
Qed.

(** The endorsements that a commit carries. *)
Definition add_esigs (msg : blockCommitMsg) (l : list (Z * bytes)) (m : gmap Z (list CandidateEndorseSigInfo)) : gmap Z (list CandidateEndorseSigInfo) :=
  foldl (λ m es, <[es.1 := add_esig (m !! es.1) (mkESig (BlockProposer msg) es.2 (CommitForEmpty msg)) false]> m) m l.

Lemma add_endorsements_run msg (l : list (Z * bytes)) pool c m :
  EndorseSigs c = Some m →
  add_endorsements msg l (put pool (cm_BlockNum msg) c) = (Ok tt, put pool (cm_BlockNum msg) (set_EndorseSigs (Some (add_esigs msg l m)) c)).
Proof.
  revert c m. induction l as [|[endorser sig] l IH]; intros c m Em; cbn [add_endorsements].
  { cbn. rewrite <- Em. by destruct c. }
  unfold mbind, M_bind, wrap_err. rewrite add_endorsement_run, at_put, Em, put_put. erewrite IH by reflexivity. by cbn.
Qed.

Definition commit_effect (msg : blockCommitMsg) c : res unit * CandidateInfo :=
  match list_find (λ m, Committer m = Committer msg) (CommitMsgs c) with
  | Some (_, m) => if decide (CommitBlockHash m = CommitBlockHash msg) then (Ok tt, c) else (Err "multi commit from same committer", c)
  | None =>
      match EndorseSigs c with
      | None => (Panic, c)
      | Some m =>
          let m := add_esigs msg (map_range (EndorsersSig msg)) m in
          let m := <[Committer msg := [mkESig (BlockProposer msg) (CommitterSig msg) (CommitForEmpty msg)]]> m in
          (Ok tt, set_CommitMsgs (CommitMsgs c ++ [msg]) (set_EndorseSigs (Some m) c))
      end
  end.

Lemma add_esig_commit old e : add_esig old e true = [e].
Proof. by destruct old. Qed.

Lemma newBlockCommitment_run msg pool :
  let '(r, c) := commit_effect msg (candidate_at pool (cm_BlockNum msg)) in
  newBlockCommitment msg pool = (r, put pool (cm_BlockNum msg) c) ∨ r = Panic ∧ (newBlockCommitment msg pool).1 = Panic.
Proof.
  unfold newBlockCommitment, commit_effect. rewrite (bind_ok _ _ _ _ _ (get_candidate_run _ pool)). set (c := candidate_at pool (cm_BlockNum msg)).
  destruct (list_find _ _) as [[i m]|]; [case_decide; by left|].
  destruct (EndorseSigs c) as [m|] eqn:Em.
  - left. rewrite (bind_ok _ _ _ _ _ (add_endorsements_run msg _ pool c m Em)). unfold mbind, M_bind.
    rewrite add_endorsement_run, at_put. cbn [EndorseSigs set_EndorseSigs]. rewrite add_esig_commit, put_put, update_put. by cbn.
  - right. split; [done|]. destruct (map_range (EndorsersSig msg)) as [|[endorser sig] rest]; unfold mbind, M_bind; cbn [add_endorsements].
    + cbn. unfold mret, M_ret. rewrite add_endorsement_run, at_put, Em. done.
    + unfold mbind, M_bind, wrap_err. rewrite add_endorsement_run, at_put, Em. done.
Qed.

Lemma dup_proposal_run blk ps pool r pool' :
  dup_proposal blk ps pool = (r, pool') →
  pool' = pool ∧ (r = Ok None → ∀ p, p ∈ ps → ∃ b, heap pool !! pm_Block p = Some b ∧ getProposer b ≠ getProposer blk).
Proof.
  revert r pool'. induction ps as [|p ps IH]; intros r pool'; cbn [dup_proposal].
  { intros [= <- <-]. split; [done|]. by intros _ p ?%not_elem_of_nil. }
  unfold mbind at 1, M_bind at 1, deref. unfold mbind at 1, M_bind at 1, get_state. destruct (heap pool !! pm_Block p) as [b|] eqn:Eb; cbn; [|by intros [= <- <-]].
  case_decide as Hp.
  - unfold mbind, M_bind. destruct (_ !! 0%nat); cbn; [|by intros [= <- <-]]. destruct (_ !! 0%nat); cbn; by intros [= <- <-].
  - intros [-> Hall]%IH. split; [done|]. intros Hr q [->|Hq]%elem_of_cons; [by exists b|by apply Hall].
Qed.

(** ** The invariant *)

Definition block_at (h : gmap loc VBlock) n (p : blockProposalMsg) : Prop := ∃ b, h !! pm_Block p = Some b ∧ getBlockNum b = n.
Definition proposer_at (h : gmap loc VBlock) (p : blockProposalMsg) : option Z := getProposer <$> h !! pm_Block p.
Definition votes c : list blockProposalMsg :=
  omap id [EndorsedProposal c; EndorsedEmptyProposal c; CommittedProposal c; CommittedEmptyProposal c].
Arguments votes c : simpl never.

(** One proposal per proposer and one commit per committer, all for this block; the
    endorsements of a peer are well formed; not both a block and an empty block were
    committed. *)
Record cand_ok (h : gmap loc VBlock) n c : Prop := {
  ck_props : ∀ p, p ∈ ci_Proposals c → block_at h n p;
  ck_props_nd : NoDup (proposer_at h <$> ci_Proposals c);
  ck_commits : ∀ m, m ∈ CommitMsgs c → cm_BlockNum m = n;
  ck_commits_nd : NoDup (Committer <$> CommitMsgs c);
  ck_sigs : map_Forall (λ _ l, sigs_wf l) (sigs_of c);
  ck_one : CommittedProposal c = None ∨ CommittedEmptyProposal c = None;
  ck_votes : ∀ p, p ∈ votes c → block_at h n p;
}.
Definition pool_ok pool : Prop := ∀ n c, candidateBlocks pool !! n = Some c → cand_ok (heap pool) n c.

(** What is never taken back. *)
Record cand_le c c' : Prop := {
  cl_sealed : ∀ b, SealedBlock c = Some b → SealedBlock c' = Some b;
  cl_committed : ∀ p, CommittedProposal c = Some p → CommittedProposal c' = Some p;
  cl_committed_empty : ∀ p, CommittedEmptyProposal c = Some p → CommittedEmptyProposal c' = Some p;
  cl_endorsed : ∀ p, EndorsedProposal c = Some p → EndorsedProposal c' = Some p;
  cl_endorsed_empty : ∀ p, EndorsedEmptyProposal c = Some p → EndorsedEmptyProposal c' = Some p;
  cl_done : ci_commitDone c = true → ci_commitDone c' = true;
  cl_props : ci_Proposals c `prefix_of` ci_Proposals c';
  cl_commits : CommitMsgs c `prefix_of` CommitMsgs c';
  cl_endorsers : dom (sigs_of c) ⊆ dom (sigs_of c');
}.
#[export] Instance cand_le_po : PreOrder cand_le.
Proof.
  split; [by intros c; split|]. intros c1 c2 c3 [] []. split; eauto; [by etrans..|set_solver].
Qed.

(** Blocks are only added to the heap or signed. *)
Definition heap_ext (h h' : gmap loc VBlock) : Prop :=
  ∀ (a : loc) b, h !! a = Some b → ∃ b', h' !! a = Some b' ∧ getBlockNum b' = getBlockNum b ∧ getProposer b' = getProposer b.

Lemma cand_ok_new h n : cand_ok h n new_candidate.
Proof.
  split; try (by intros ? ?%not_elem_of_nil); try apply NoDup_nil_2; [|by left]. intros k l E. unfold sigs_of in E. cbn in E. by rewrite lookup_empty in E.
Qed.

Lemma block_at_ext h h' n p : heap_ext h h' → block_at h n p → block_at h' n p.
Proof. intros Hx (b & Hb & Hn). destruct (Hx _ _ Hb) as (b' & Hb' & ? & _). exists b'. split; [done|congruence]. Qed.

Lemma cand_ok_ext h h' n c : heap_ext h h' → cand_ok h n c → cand_ok h' n c.
Proof.
  intros Hx [Hp Hnd Hm Hmnd Hs Ho Hv]. split; try done.
  - intros p Hin. by eapply block_at_ext, Hp.
  - assert (proposer_at h' <$> ci_Proposals c = proposer_at h <$> ci_Proposals c) as ->; [|done].
    apply list_fmap_ext. intros i p Hi. apply list_elem_of_lookup_2, Hp in Hi as (b & Hb & _). unfold proposer_at.
    destruct (Hx _ _ Hb) as (b' & -> & _ & E). rewrite Hb. cbn. by rewrite E.
  - intros p Hin. by eapply block_at_ext, Hv.
Qed.

Lemma pool_ok_at pool n : pool_ok pool → cand_ok (heap pool) n (candidate_at pool n).
Proof. intros Hok. unfold candidate_at. destruct (_ !! n) eqn:E; [by apply Hok|apply cand_ok_new]. Qed.

(** An operation changes at most one candidate. *)
Definition effect pool pool' : Prop :=
  heap_ext (heap pool) (heap pool') ∧
  (candidateBlocks pool' = candidateBlocks pool ∨
   ∃ n c, candidateBlocks pool' = <[n := c]> (candidateBlocks pool) ∧ cand_ok (heap pool') n c ∧ cand_le (candidate_at pool n) c).

Lemma effect_ok pool pool' : effect pool pool' → pool_ok pool → pool_ok pool'.
Proof.
  intros [Hx Heff] Hok n c Hc. destruct Heff as [E|(n' & c' & E & Hc' & _)]; rewrite E in Hc; [by eapply cand_ok_ext, Hok|].
  destruct (decide (n' = n)) as [->|]; [rewrite lookup_insert_eq in Hc; by injection Hc as <-|].
  rewrite lookup_insert_ne in Hc by done. by eapply cand_ok_ext, Hok.
Qed.

Lemma effect_le pool pool' n c : effect pool pool' → candidateBlocks pool !! n = Some c → ∃ c', candidateBlocks pool' !! n = Some c' ∧ cand_le c c'.
Proof.
  intros [_ Heff] Hc. destruct Heff as [E|(n' & c' & E & _ & Hle)]; rewrite E; [by exists c|].
  destruct (decide (n' = n)) as [->|]; [|rewrite lookup_insert_ne by done; by exists c]. rewrite lookup_insert_eq. exists c'. split; [done|].
  unfold candidate_at in Hle. by rewrite Hc in Hle.
Qed.

Lemma heap_ext_refl h : heap_ext h h.
Proof. intros l b E. by exists b. Qed.

Lemma effect_put pool n c :
  cand_ok (heap pool) n c → cand_le (candidate_at pool n) c → effect pool (put pool n c).
Proof. intros Hc Hle. split; [apply heap_ext_refl|]. right. by exists n, c. Qed.
Lemma effect_same pool n : pool_ok pool → effect pool (put pool n (candidate_at pool n)).
Proof. intros Hok. apply effect_put; [by apply pool_ok_at|reflexivity]. Qed.
Lemma effect_none pool : effect pool pool.
Proof. split; [apply heap_ext_refl|by left]. Qed.

(** *** One lemma per operation *)

Lemma cand_ok_sigs h n c m :
  cand_ok h n c → EndorseSigs c = Some m → ∀ endorser e (commitment : bool),
  cand_ok h n (set_EndorseSigs (Some (<[endorser := add_esig (m !! endorser) e commitment]> m)) c).
Proof.
  intros [] Em endorser e commitment. split; try done. unfold sigs_of in *. rewrite Em in ck_sigs0. cbn in *.
  apply map_Forall_insert_2; [|done]. apply add_esig_wf. intros l El. by apply (ck_sigs0 endorser).
Qed.
Lemma cand_le_sigs c m m' : EndorseSigs c = Some m → dom m ⊆ dom m' → cand_le c (set_EndorseSigs (Some m') c).
Proof. intros Em Hd. split; try done. unfold sigs_of. rewrite Em. done. Qed.

Lemma add_endorsement_effect n endorser e (commitment : bool) pool r pool' :
  pool_ok pool → addBlockEndorsementLocked n endorser e commitment pool = (r, pool') → r ≠ Panic → effect pool pool'.
Proof.
  intros Hok. rewrite add_endorsement_run. destruct (EndorseSigs _) as [m|] eqn:Em; intros [= <- <-]; [|done]. intros _.
  apply effect_put; [apply cand_ok_sigs; [by apply pool_ok_at|done]|]. apply (cand_le_sigs _ m); [done|]. rewrite dom_insert_L. set_solver.
Qed.

Lemma add_esigs_wf msg (l : list (Z * bytes)) m : map_Forall (λ _ l, sigs_wf l) m → map_Forall (λ _ l, sigs_wf l) (add_esigs msg l m).
Proof.
  revert m. induction l as [|[endorser sig] l IH]; intros m Hm; [done|]. cbn. apply IH. apply map_Forall_insert_2; [|done].
  apply add_esig_wf. intros l' El. by apply (Hm endorser).
Qed.
Lemma dom_add_esigs msg (l : list (Z * bytes)) m : dom m ⊆ dom (add_esigs msg l m).
Proof.
  revert m. induction l as [|[endorser sig] l IH]; intros m; [done|]. cbn. etrans; [|apply IH]. rewrite dom_insert_L. set_solver.
Qed.

Lemma newBlockCommitment_effect msg pool r pool' :
  pool_ok pool → newBlockCommitment msg pool = (r, pool') → r ≠ Panic → effect pool pool'.
Proof.
  intros Hok E Hr. pose proof (newBlockCommitment_run msg pool) as Hrun. unfold commit_effect in Hrun.
  pose proof (pool_ok_at pool (cm_BlockNum msg) Hok) as Hc. set (c := candidate_at pool (cm_BlockNum msg)) in *.
  destruct (list_find _ _) as [[i m]|] eqn:Ef.
  { case_decide; (destruct Hrun as [Hrun|[? _]]; [|done]); rewrite Hrun in E; injection E as <- <-; by apply effect_same. }
  destruct (EndorseSigs c) as [m|] eqn:Em; (destruct Hrun as [Hrun|[Hp Hrun]]; [|try done; rewrite E in Hrun; by destruct Hr]);
    rewrite Hrun in E; injection E as <- <-; [|by destruct Hr].
  apply effect_put; fold c.
  - destruct Hc as [Hp Hnd Hm Hmnd Hs Ho Hv]. split; try done; cbn.
    + intros m' [Hm'|Hm'%list_elem_of_singleton]%elem_of_app; [by apply Hm|by subst m'].
    + rewrite fmap_app. apply NoDup_app. split_and!; [done| |apply NoDup_singleton].
      intros x (m' & -> & Hm')%list_elem_of_fmap Hx%list_elem_of_singleton. apply list_find_None in Ef.
      rewrite Forall_forall in Ef. by apply (Ef m' Hm').
    + unfold sigs_of. cbn. apply map_Forall_insert_2; [apply sigs_wf_one|]. apply add_esigs_wf. unfold sigs_of in Hs. by rewrite Em in Hs.
  - split; try done; cbn; [by apply prefix_app_r|]. unfold sigs_of. rewrite Em. cbn. rewrite dom_insert_L.
    etrans; [apply (dom_add_esigs msg (map_range (EndorsersSig msg)))|]. set_solver.
Qed.

Lemma deref_inv a pool r pool' (k : VBlock → PM unit) :
  (deref a ≫= k) pool = (r, pool') → r ≠ Panic → ∃ b, heap pool !! a = Some b ∧ k b pool = (r, pool').
Proof.
  unfold deref, mbind, M_bind, get_state. destruct (heap pool !! a) as [b|]; cbn; [by exists b|]. by intros [= <- _].
Qed.

Lemma deref_ok a pool b : heap pool !! a = Some b → deref a pool = (Ok b, pool).
Proof. intros E. unfold deref, mbind, M_bind, get_state. by rewrite E. Qed.

Lemma newBlockProposal_effect msg pool r pool' :
  pool_ok pool → newBlockProposal msg pool = (r, pool') → r ≠ Panic → effect pool pool'.
Proof.
  intros Hok E Hr. apply deref_inv in E as (blk & Hb & E); [|done]. cbv zeta in E. set (n := getBlockNum blk) in *.
  rewrite (bind_ok _ _ _ _ _ (get_candidate_run n pool)) in E. pose proof (pool_ok_at pool n Hok) as Hc. set (c := candidate_at pool n) in *.
  unfold mbind at 1, M_bind at 1 in E. destruct (dup_proposal blk (ci_Proposals c) (put pool n c)) as [r1 pool1] eqn:Ed.
  apply dup_proposal_run in Ed as [-> Hdup]. destruct r1 as [[[]|]|e|]; [injection E as <- <-; by apply effect_same..| |injection E as <- <-; by apply effect_same|by injection E as <-].
  specialize (Hdup eq_refl). cbn [heap put set_candidates] in Hdup.
  unfold mbind at 1, M_bind at 1 in E. rewrite update_put in E. set (c1 := set_Proposals _ _) in E.
  assert (cand_ok (heap pool) n c1) as Hc1.
  { destruct Hc as [Hp Hnd Hm Hmnd Hs Ho Hv]. split; try done; cbn.
    - intros p [Hp'|Hp'%list_elem_of_singleton]%elem_of_app; [by apply Hp|subst p; by exists blk].
    - rewrite fmap_app. apply NoDup_app. split_and!; [done| |apply NoDup_singleton].
      intros x (p & -> & (b & Hb' & Hne)%Hdup)%list_elem_of_fmap Hx%list_elem_of_singleton. unfold proposer_at in Hx. rewrite Hb, Hb' in Hx.
      cbn in Hx. congruence. }
  unfold mbind, M_bind in E. destruct (_ !! 0%nat) as [sig|]; cbn in E; [|by injection E as <-].
  unfold mret, M_ret in E. rewrite add_endorsement_run, at_put in E. destruct (EndorseSigs c1) as [m|] eqn:Em; injection E as <- <-; [|done].
  rewrite put_put. apply effect_put; [by apply cand_ok_sigs|]. fold c. trans c1; [split; try done; by apply prefix_app_r|].
  apply (cand_le_sigs _ m); [done|]. rewrite dom_insert_L. set_solver.
Qed.

Lemma update_effect pool n (f : CandidateInfo → CandidateInfo) c :
  candidateBlocks pool !! n = Some c → cand_ok (heap pool) n (f c) → cand_le c (f c) → effect pool (update_candidate n f pool).2.
Proof.
  intros Hc Hok Hle. rewrite <- (put_same pool n c) at 2 by done. rewrite update_put. apply effect_put; [done|].
  unfold candidate_at. by rewrite Hc.
Qed.

Lemma elem_of_votes c p :
  p ∈ votes c ↔ EndorsedProposal c = Some p ∨ EndorsedEmptyProposal c = Some p ∨ CommittedProposal c = Some p ∨ CommittedEmptyProposal c = Some p.
Proof.
  unfold votes. rewrite list_elem_of_omap. split.
  - intros (o & Ho & E). cbn in E. subst o. set_solver.
  - intros Hp. exists (Some p). split; [|done]. set_solver.
Qed.

Lemma setProposalEndorsed_effect p (forEmpty : bool) pool r pool' :
  pool_ok pool → setProposalEndorsed p forEmpty pool = (r, pool') → r ≠ Panic → effect pool pool'.
Proof.
  intros Hok E Hr. apply deref_inv in E as (blk & Hb & E); [|done]. cbv zeta in E. set (n := getBlockNum blk) in *.
  unfold mbind at 1, M_bind at 1, get_state in E.
  destruct (candidateBlocks pool !! n) as [c|] eqn:Hc; [|injection E as _ <-; apply effect_none].
  pose proof (Hok n c Hc) as [Hp Hnd Hm Hmnd Hs Ho Hv]. assert (block_at (heap pool) n p) as Hat by by exists blk.
  destruct forEmpty; [destruct (EndorsedEmptyProposal c) eqn:Ev|destruct (EndorsedProposal c) as [q|] eqn:Ev].
  - injection E as _ <-. apply effect_none.
  - change pool' with (r, pool').2. rewrite <- E. apply (update_effect _ _ _ c Hc); split; try done; cbn; [|by rewrite Ev].
    intros q Hq%elem_of_votes. setoid_rewrite elem_of_votes in Hv. cbn in Hq. naive_solver.
  - destruct (deref_inv _ _ _ _ _ E Hr) as (b & _ & E'). case_decide; injection E' as _ <-; apply effect_none.
  - change pool' with (r, pool').2. rewrite <- E. apply (update_effect _ _ _ c Hc); split; try done; cbn; [|by rewrite Ev].
    intros q Hq%elem_of_votes. setoid_rewrite elem_of_votes in Hv. cbn in Hq. naive_solver.
Qed.

Lemma setProposalCommitted_effect p (forEmpty : bool) pool r pool' :
  pool_ok pool → setProposalCommitted p forEmpty pool = (r, pool') → r ≠ Panic → effect pool pool'.
Proof.
  intros Hok E Hr. apply deref_inv in E as (blk & Hb & E); [|done]. cbv zeta in E. set (n := getBlockNum blk) in *.
  unfold mbind at 1, M_bind at 1, get_state in E.
  destruct (candidateBlocks pool !! n) as [c|] eqn:Hc; [|injection E as _ <-; apply effect_none].
  pose proof (Hok n c Hc) as [Hp Hnd Hm Hmnd Hs Ho Hv]. assert (block_at (heap pool) n p) as Hat by by exists blk.
  case_decide as Hd; [injection E as _ <-; apply effect_none|].
  assert (CommittedProposal c = None ∧ CommittedEmptyProposal c = None) as [E1 E2].
  { split; apply eq_None_not_Some; tauto. }
  destruct forEmpty; change pool' with (r, pool').2; rewrite <- E; apply (update_effect _ _ _ c Hc); split; try done; cbn.
  1,4: by auto.
  1,3: intros q Hq%elem_of_votes; setoid_rewrite elem_of_votes in Hv; cbn in Hq; naive_solver.
  - by rewrite E2.
  - by rewrite E1.
Qed.

Lemma setCommitDone_effect n pool r pool' : pool_ok pool → setCommitDone n pool = (r, pool') → effect pool pool'.
Proof.
  intros Hok E. change pool' with (r, pool').2. rewrite <- E. destruct (candidateBlocks pool !! n) as [c|] eqn:Hc.
  - apply (update_effect _ _ _ c Hc); [|by split]. by destruct (Hok n c Hc).
  - split; [apply heap_ext_refl|]. left. unfold setCommitDone, update_candidate, modify_pool. cbn.
    apply map_eq. intros k. destruct (decide (k = n)) as [->|]; [by rewrite lookup_alter_eq, Hc|by rewrite lookup_alter_ne].
Qed.

(** The block after the signatures of the candidate were written into it. *)
Definition signed c (block : VBlock) (forEmpty : bool) (target : Block) (sig : bytes) : VBlock :=
  let ends := omap (endorser_sig (getProposer block) forEmpty) (map_range (sigs_of c)) in
  let target := with_sigs target (default nil_key (GetPeerPubKey (getProposer block)) :: ends.*1) (sig :: ends.*2) in
  if forEmpty then mkVBlock (vb_Block block) (Some target) (vb_Info block) else mkVBlock target (EmptyBlock block) (vb_Info block).
Definition seal_target (block : VBlock) (forEmpty : bool) : option Block := if forEmpty then EmptyBlock block else Some (vb_Block block).

Lemma addSignatures_run a (forEmpty : bool) pool block :
  heap pool !! a = Some block → let n := getBlockNum block in let c := candidate_at pool n in
  match seal_target block forEmpty with
  | None => ∃ msg, addSignaturesToBlockLocked a forEmpty pool = (Err msg, put pool n c)
  | Some target =>
      match h_SigData (blk_Header target) !! 0%nat with
      | None => (addSignaturesToBlockLocked a forEmpty pool).1 = Panic
      | Some sig => addSignaturesToBlockLocked a forEmpty pool = (Ok tt, set_heap (<[a := signed c block forEmpty target sig]> (heap pool)) (put pool n c))
      end
  end.
Proof.
  intros Hb n c. unfold addSignaturesToBlockLocked. rewrite (bind_ok _ _ _ _ _ (deref_ok _ _ _ Hb)). fold n.
  rewrite (bind_ok _ _ _ _ _ (get_candidate_run n pool)). fold c. unfold seal_target, signed.
  destruct forEmpty; [destruct (EmptyBlock block) as [target|]; [|by eexists]|set (target := vb_Block block)];
    rewrite (bind_ok _ _ (put pool n c) target (put pool n c) eq_refl);
    destruct (h_SigData (blk_Header target) !! 0%nat) as [sig|]; [|done| |done];
    rewrite (bind_ok _ _ (put pool n c) sig (put pool n c) eq_refl); reflexivity.
Qed.

Lemma signed_same c block (forEmpty : bool) target sig :
  seal_target block forEmpty = Some target →
  getBlockNum (signed c block forEmpty target sig) = getBlockNum block ∧ getProposer (signed c block forEmpty target sig) = getProposer block.
Proof. unfold signed, seal_target. destruct forEmpty; [done|]. by intros [= <-]. Qed.

Lemma heap_ext_insert (h : gmap loc VBlock) a b b' :
  h !! a = Some b → getBlockNum b' = getBlockNum b → getProposer b' = getProposer b → heap_ext h (<[a := b']> h).
Proof.
  intros Hb E1 E2 a' x Hx. destruct (decide (a' = a)) as [->|]; [|rewrite lookup_insert_ne by done; by exists x].
  rewrite lookup_insert_eq. exists b'. assert (x = b) as -> by congruence. done.
Qed.

(** Sealing a block that is not sealed yet. *)
Definition seal_effect pool n c (h : gmap loc VBlock) (sealed : VBlock) : res unit * PL :=
  wrap_err "failed to seal block to chainstore: " (on_store (cs_AddBlock (Some sealed))) (set_heap h (put pool n (set_SealedBlock (Some sealed) c))).

Lemma seal_tail pool n c h b (forEmpty : bool) r pool' :
  (sealed ← (if forEmpty then of_option (EmptyBlock b) else mret (vb_Block b));
   update_candidate n (set_SealedBlock (Some (mkVBlock sealed None (vb_Info b)))) ;;
   wrap_err "failed to seal block to chainstore: " (on_store (cs_AddBlock (Some (mkVBlock sealed None (vb_Info b)))))) (set_heap h (put pool n c)) = (r, pool') →
  r ≠ Panic → ∃ target, seal_target b forEmpty = Some target ∧ (r, pool') = seal_effect pool n c h (mkVBlock target None (vb_Info b)).
Proof.
  assert (∀ target, update_candidate n (set_SealedBlock (Some (mkVBlock target None (vb_Info b)))) (set_heap h (put pool n c)) =
    (Ok tt, set_heap h (put pool n (set_SealedBlock (Some (mkVBlock target None (vb_Info b))) c)))) as Hu.
  { intros target. unfold update_candidate, modify_pool, put, set_candidates, set_heap. cbn. by rewrite alter_insert_eq. }
  intros E Hr. unfold seal_target. destruct forEmpty.
  - destruct (EmptyBlock b) as [target|]; [|by injection E as <- _]. exists target. split; [done|].
    rewrite (bind_ok _ _ (set_heap h (put pool n c)) target _ eq_refl), (bind_ok _ _ _ _ _ (Hu target)) in E. symmetry. exact E.
  - exists (vb_Block b). split; [done|].
    rewrite (bind_ok _ _ (set_heap h (put pool n c)) (vb_Block b) _ eq_refl), (bind_ok _ _ _ _ _ (Hu _)) in E. symmetry. exact E.
Qed.

Lemma setBlockSealed_run a (forEmpty sigdata : bool) pool r pool' :
  setBlockSealed a forEmpty sigdata pool = (r, pool') → r ≠ Panic →
  ∃ block, heap pool !! a = Some block ∧ let n := getBlockNum block in let c := candidate_at pool n in
  (pool' = put pool n c ∧ (SealedBlock c = None → is_ok r = false)) ∨
  SealedBlock c = None ∧ ∃ b target, seal_target b forEmpty = Some target ∧
    (r, pool') = seal_effect pool n c (<[a := b]> (heap pool)) (mkVBlock target None (vb_Info block)) ∧
    (if sigdata then ∃ t sig, seal_target block forEmpty = Some t ∧ h_SigData (blk_Header t) !! 0%nat = Some sig ∧ b = signed c block forEmpty t sig
     else b = block).
Proof.
  intros E Hr. apply deref_inv in E as (block & Hb & E); [|done]. exists block. split; [done|]. intros n c. cbv zeta in E. fold n in E.
  rewrite (bind_ok _ _ _ _ _ (get_candidate_run n pool)) in E. fold c in E. destruct (SealedBlock c) as [s|] eqn:Es.
  { left. case_decide; injection E as <- <-; done. }
  assert (heap (put pool n c) !! a = Some block) as Hb' by done. destruct sigdata.
  - pose proof (addSignatures_run a forEmpty (put pool n c) block Hb') as Ha. cbv zeta in Ha. fold n in Ha. rewrite at_put, put_put in Ha.
    destruct (seal_target block forEmpty) as [t|] eqn:Et.
    2:{ left. destruct Ha as [msg Ha]. unfold mbind at 1, M_bind at 1, wrap_err at 1 in E. rewrite Ha in E. by injection E as <- <-. }
    destruct (h_SigData (blk_Header t) !! 0%nat) as [sig|] eqn:Esig.
    2:{ unfold mbind at 1, M_bind at 1, wrap_err at 1 in E. destruct (addSignaturesToBlockLocked _ _ _) as [r1 p1]. cbn in Ha. subst r1. by injection E as <- _. }
    unfold mbind at 1, M_bind at 1, wrap_err at 1 in E. rewrite Ha in E. cbn [heap put set_candidates] in E. right. split; [done|].
    set (b := signed c block forEmpty t sig) in *. exists b.
    rewrite (bind_ok _ _ _ _ _ (deref_ok a _ b (lookup_insert_eq _ _ _))) in E.
    destruct (seal_tail _ _ _ _ _ _ _ _ E Hr) as (target & Ht & Er). exists target. split_and!; [done| |by exists t, sig].
    rewrite Er. unfold b, signed. by destruct forEmpty.
  - right. split; [done|]. exists block.
    rewrite (bind_ok _ _ (put pool n c) tt (put pool n c) eq_refl), (bind_ok _ _ _ _ _ (deref_ok a _ block Hb')) in E.
    rewrite insert_id by done. destruct (seal_tail pool n c (heap pool) _ _ _ _ E Hr) as (target & Ht & Er). by exists target.
Qed.

Lemma seal_effect_candidates pool n c h sealed : candidateBlocks (seal_effect pool n c h sealed).2 = <[n := set_SealedBlock (Some sealed) c]> (candidateBlocks pool).
Proof. unfold seal_effect, wrap_err, on_store. destruct (cs_AddBlock _ _) as [[]]; done. Qed.
Lemma seal_effect_heap pool n c h sealed : heap (seal_effect pool n c h sealed).2 = h.
Proof. unfold seal_effect, wrap_err, on_store. destruct (cs_AddBlock _ _) as [[]]; done. Qed.

Lemma setBlockSealed_effect a (forEmpty sigdata : bool) pool r pool' :
  pool_ok pool → setBlockSealed a forEmpty sigdata pool = (r, pool') → r ≠ Panic → effect pool pool'.
Proof.
  intros Hok E Hr. apply setBlockSealed_run in E as (block & Hb & Hrun); [|done]. cbv zeta in Hrun.
  destruct Hrun as [[-> _]|(Hs & b & target & Ht & Er & Hsig)]; [by apply effect_same|]. set (n := getBlockNum block) in *. set (c := candidate_at pool n) in *.
  assert (getBlockNum b = getBlockNum block ∧ getProposer b = getProposer block) as [E1 E2].
  { destruct sigdata; [destruct Hsig as (t & sig & Et & _ & ->); by apply signed_same|by subst b]. }
  change pool' with (r, pool').2. rewrite Er. split; rewrite seal_effect_heap; [by eapply heap_ext_insert|]. right.
  rewrite seal_effect_candidates. eexists _, _. split; [reflexivity|]. split.
  - apply (cand_ok_ext (heap pool)); [by eapply heap_ext_insert|]. by destruct (pool_ok_at pool n Hok).
  - split; try done. intros b0 Hb0. fold c in Hb0. congruence.
Qed.

(** *** Sequences of operations *)

(** [OpReceive]: a message with a new block arrived. *)
Inductive pool_op :=
  | OpReceive (a : loc) (b : VBlock)
  | OpProposal (msg : blockProposalMsg)
  | OpEndorsement (msg : blockEndorseMsg)
  | OpCommitment (msg : blockCommitMsg)
  | OpEndorsed (p : blockProposalMsg) (forEmpty : bool)
  | OpCommitted (p : blockProposalMsg) (forEmpty : bool)
  | OpCommitDone (n : Z)
  | OpSeal (a : loc) (forEmpty sigdata : bool)
  | OpSubmit (n : Z)
  | OpBlockSealed (n : Z)
  | OpClean.
Definition exec_op (op : pool_op) : PM unit :=
  match op with
  | OpReceive a b => modify_pool (λ pool, if decide (heap pool !! a = None) then set_heap (<[a := b]> (heap pool)) pool else pool)
  | OpProposal msg => newBlockProposal msg
  | OpEndorsement msg => newBlockEndorsement msg
  | OpCommitment msg => newBlockCommitment msg
  | OpEndorsed p forEmpty => setProposalEndorsed p forEmpty
  | OpCommitted p forEmpty => setProposalCommitted p forEmpty
  | OpCommitDone n => setCommitDone n
  | OpSeal a forEmpty sigdata => setBlockSealed a forEmpty sigdata
  | OpSubmit n => pool_submitBlock n
  | OpBlockSealed n => pool_onBlockSealed n
  | OpClean => pool_clean
  end.
(** Does the operation free candidates? *)
Definition frees (op : pool_op) : bool := match op with OpBlockSealed _ | OpClean => true | _ => false end.

(** A run of operations that return, with whatever result. *)
Inductive pool_run : list pool_op → PL → PL → Prop :=
  | run_nil pool : pool_run [] pool pool
  | run_cons op ops pool r pool1 pool2 :
      exec_op op pool = (r, pool1) → r ≠ Panic → pool_run ops pool1 pool2 → pool_run (op :: ops) pool pool2.

Lemma op_effect op pool r pool' :
  pool_ok pool → frees op = false → exec_op op pool = (r, pool') → r ≠ Panic → effect pool pool'.
Proof.
  intros Hok Hf E Hr. destruct op; try done; cbn [exec_op] in E.
  - injection E as _ <-. split; [|left; by case_decide]. intros a' b' Hb'. case_decide as Hd; [|by exists b']. cbn.
    rewrite lookup_insert_ne by congruence. by exists b'.
  - by eapply newBlockProposal_effect.
  - by eapply add_endorsement_effect.
  - by eapply newBlockCommitment_effect.
  - by eapply setProposalEndorsed_effect.
  - by eapply setProposalCommitted_effect.
  - by eapply setCommitDone_effect.
  - by eapply setBlockSealed_effect.
  - unfold pool_submitBlock, on_store in E. destruct (cs_submitBlock n (chainStore pool)). injection E as _ <-.
    split; [apply heap_ext_refl|by left].
Qed.

Lemma op_ok op pool r pool' : pool_ok pool → exec_op op pool = (r, pool') → r ≠ Panic → pool_ok pool'.
Proof.
  intros Hok E Hr. destruct (frees op) eqn:Hf; [|by eapply effect_ok, Hok; eapply op_effect]. destruct op; try done; cbn [exec_op] in E.
  - unfold pool_onBlockSealed, mbind, M_bind, get_state in E. case_decide; injection E as _ <-; [done|].
    intros k c [Hc _]%map_lookup_filter_Some. by apply Hok.
  - injection E as _ <-. intros k c Hc. cbn in Hc. by rewrite lookup_empty in Hc.
Qed.

Lemma run_ok_pool ops pool pool' : pool_run ops pool pool' → pool_ok pool → pool_ok pool'.
Proof. induction 1; eauto using op_ok. Qed.

(** C14 (the block pool is consistent).  Whatever messages arrive, in whatever order,
    and whatever the operations of the pool return, every round keeps at most one
    proposal per proposer and one commit per committer, all for its own block
    number; a peer's endorsements name each proposer once and end with the one for
    the empty block; and this node never commits to both a block and an empty
    block. *)
Theorem pool_invariant ops pool pool' :
  pool_run ops pool pool' → (∀ n c, candidateBlocks pool !! n = Some c → cand_ok (heap pool) n c) →
  ∀ n c, candidateBlocks pool' !! n = Some c → cand_ok (heap pool') n c.
Proof. apply run_ok_pool. Qed.

(** Votes and seals are not taken back.  As long as the round of a block is kept,
    whatever operations run, the block this node sealed, committed or endorsed for it
    stays the same, the proposals and commits that were accepted stay in their
    order, and no endorser is forgotten. *)
Theorem votes_persist ops pool pool' n c :
  pool_run ops pool pool' → pool_ok pool → Forall (λ op, frees op = false) ops →
  candidateBlocks pool !! n = Some c → ∃ c', candidateBlocks pool' !! n = Some c' ∧ cand_le c c'.
Proof.
  intros Hrun. revert c. induction Hrun as [pool|op ops pool r pool1 pool2 E Hr _ IH]; intros c Hok Hf Hc; [by exists c|].
  apply Forall_cons in Hf as [Hf Hfs]. pose proof (op_effect _ _ _ _ Hok Hf E Hr) as Heff.
  destruct (effect_le _ _ _ _ Heff Hc) as (c1 & Hc1 & Hle). destruct (IH c1) as (c2 & Hc2 & Hle2); [by eapply op_ok|done..|].
  exists c2. split; [done|by etrans].
Qed.

End effects.
