(* ===== verification/VbftSeal.v ===== *)
(** * When a block is sealed, and with whose signatures

    [commitDone] decides by the commits or by the number of peers that endorsed a
    block; a block that is sealed on the endorsements carries enough signatures for
    the ledger. *)

From S2P Require Import Prelude Sha256 TxRoot Sink Source Serialization BytesOrder MemDB OverlayDB CacheDB Contract MerkleUtil MerkleSpec MerkleHasher HashStore MerkleTree Native ExCrypto Codec Types Signature NodeStates LedgerExec StateStore BlockStore BlockStoreSpec EventStore Ledger StateSpec LedgerSpec LedgerChain VbftNode VbftCommit VbftStore VbftPool VbftPoolSpec.

(** ** Counting endorsers *)

Definition endorses (p : Z) (l : list CandidateEndorseSigInfo) : Prop :=
  Exists (λ e, es_ForEmpty e = false ∧ EndorsedProposer e = p) l.
Definition endorsing (p : Z) (sigs : list (Z * list CandidateEndorseSigInfo)) : Z := blen (filter (λ kv, endorses p kv.2) sigs).

Lemma endorsing_cons p kv sigs : endorsing p (kv :: sigs) = (if decide (endorses p kv.2) then 1 else 0) + endorsing p sigs.
Proof. unfold endorsing. rewrite filter_cons. case_decide; cbn; lia. Qed.
Lemma endorsing_snoc p kv sigs : endorsing p (sigs ++ [kv]) = (if decide (endorses p kv.2) then 1 else 0) + endorsing p sigs.
Proof. unfold endorsing. rewrite filter_app, length_app, filter_cons. case_decide; cbn; lia. Qed.
Lemma endorsing_mono p sigs1 sigs2 : endorsing p sigs1 ≤ endorsing p (sigs1 ++ sigs2).
Proof. unfold endorsing. rewrite filter_app, length_app. lia. Qed.
Lemma endorsing_bound p sigs : 0 ≤ endorsing p sigs ≤ blen sigs.
Proof. unfold endorsing. pose proof (length_filter (λ kv, endorses p kv.2) sigs). lia. Qed.

(** ** The scan of the endorsements *)

Definition cnt (s : commit_scan) (p : Z) : Z := default 0 (sc_endorseCnt s !! p).

Lemma lookup_count32 m p q : default 0 (count32 m p !! q) = if decide (q = p) then u32 (default 0 (m !! p) + 1) else default 0 (m !! q).
Proof. unfold count32. case_decide as Hd; [subst q; by rewrite lookup_insert_eq|by rewrite lookup_insert_ne by done]. Qed.

(** The inner loop stops at a proposer of the list whose count passes [C], or counts
    each proposer of the list once. *)
Lemma scan_sigs_spec C (sigs : list CandidateEndorseSigInfo) s :
  NoDup (EndorsedProposer <$> filter (λ e, es_ForEmpty e = false) sigs) →
  (∀ p, endorses p sigs → 0 ≤ cnt s p < 2 ^ 32 - 1) →
  let s' := scan_sigs C sigs s in
  (∃ p, endorses p sigs ∧ sc_proposer s' = p ∧ C < cnt s p + 1) ∨
  (sc_proposer s' = sc_proposer s ∧ ∀ p, cnt s' p = cnt s p + (if decide (endorses p sigs) then 1 else 0) ∧ (endorses p sigs → cnt s p + 1 ≤ C)).
Proof.
  revert s. induction sigs as [|e sigs IH]; intros s Hnd Hr; cbn [scan_sigs].
  { right. split; [done|]. intros p. rewrite decide_False by (by intros ?%Exists_nil). split; [lia|by intros ?%Exists_nil]. }
  rewrite filter_cons in Hnd. destruct (es_ForEmpty e) eqn:He.
  - rewrite decide_False in Hnd by congruence.
    assert (∀ p, endorses p (e :: sigs) ↔ endorses p sigs) as Hiff.
    { intros p. unfold endorses. rewrite Exists_cons. split; [intros [[? _]|?]; [congruence|done]|by right]. }
    match goal with |- context [scan_sigs C sigs ?s1] => destruct (IH s1 Hnd) as [(p & Hp & Hsp & Hc)|[Hsp Hall]] end.
    + intros p Hp. apply (Hr p). by apply Hiff.
    + left. exists p. split; [by apply Hiff|done].
    + right. split; [done|]. intros p. destruct (Hall p) as [E Hle]. split; [|by intros ?%Hiff; apply Hle].
      rewrite E. unfold cnt. cbn. by rewrite (decide_ext _ _ _ _ (Hiff p)).
  - rewrite decide_True in Hnd by done. cbn in Hnd. apply NoDup_cons in Hnd as [Hnew Hnd].
    set (p0 := EndorsedProposer e) in *. set (m := count32 (sc_endorseCnt s) p0). 
    assert (0 ≤ cnt s p0 < 2 ^ 32 - 1) as Hr0 by (apply Hr, Exists_cons; by left). unfold cnt in Hr0.
    assert (∀ q, default 0 (m !! q) = cnt s q + (if decide (q = p0) then 1 else 0)) as Hm.
    { intros q. unfold m. rewrite lookup_count32. unfold cnt. case_decide as Hq; [subst q; apply uwrap_small; unfold in_range; lia|lia]. }
    assert (default 0 (m !! p0) = cnt s p0 + 1) as -> by by rewrite (Hm p0), decide_True.
    destruct (decide (C < cnt s p0 + 1)) as [HC|HC].
    + left. exists p0. split; [apply Exists_cons; by left|done].
    + assert (¬ endorses p0 sigs) as Hno.
      { intros (e' & Hin & He' & Hp')%Exists_exists. apply Hnew. rewrite <- Hp'. apply list_elem_of_fmap_2, list_elem_of_filter. done. }
      assert (∀ p, endorses p (e :: sigs) ↔ p = p0 ∨ endorses p sigs) as Hiff.
      { intros p. unfold endorses. rewrite Exists_cons. split; [intros [[_ <-]|?]; auto|intros [->|?]; auto]. }
      set (s1 := mkScan (sc_emptyCnt s) m (sc_proposer s) (sc_forEmpty s)).
      assert (∀ q, cnt s1 q = cnt s q + (if decide (q = p0) then 1 else 0)) as Hm1 by exact Hm.
      destruct (IH s1 Hnd) as [(p & Hp & Hsp & Hc)|[Hsp Hall]].
      * intros p Hp. rewrite Hm1, decide_False by (intros ->; done). pose proof (Hr p (proj2 (Hiff p) (or_intror Hp))). lia.
      * left. exists p. split_and!; [apply Hiff; by right|done|]. rewrite Hm1, decide_False in Hc by (intros ->; done). lia.
      * right. split; [done|]. intros p. destruct (Hall p) as [E Hle]. rewrite E, Hm1. split.
        -- destruct (decide (p = p0)) as [->|Hne].
           ++ rewrite (decide_False (P := endorses p0 sigs)) by done. rewrite decide_True by (apply Hiff; by left). lia.
           ++ rewrite (decide_ext _ (endorses p (e :: sigs)) _ _); [lia|]. rewrite Hiff. naive_solver.
        -- intros [->|Hp]%Hiff; [lia|]. specialize (Hle Hp). rewrite Hm1, decide_False in Hle by (intros ->; done). lia.
Qed.

Section seal.
Context `{Hasher} `{Crypto} `{Rand} `{!LedgerEnv} `{!PoolEnv} {DB : Type} `{!LedgerDB DB}.
Abbreviation PL := (BlockPool DB).
Implicit Types (pool : PL) (c : CandidateInfo) (n : Z) (sigs : list (Z * list CandidateEndorseSigInfo)).

(** No endorsement names the number that stands for no proposer. *)
Definition proposers_valid sigs : Prop := ∀ kv e, kv ∈ sigs → e ∈ kv.2 → EndorsedProposer e ≠ MaxUint32.

Lemma scan_endorsers_spec n C sigs seen s :
  Forall (λ kv, sigs_wf kv.2) sigs → proposers_valid sigs → blen (seen ++ sigs) < 2 ^ 32 - 1 →
  sc_proposer s = MaxUint32 → (∀ p, cnt s p = endorsing p seen ∧ endorsing p seen ≤ C) →
  let s' := scan_endorsers n C sigs s in
  (sc_proposer s' ≠ MaxUint32 ∧ C < endorsing (sc_proposer s') (seen ++ sigs)) ∨
  (sc_proposer s' = MaxUint32 ∧ ∀ p, endorsing p (seen ++ sigs) ≤ C).
Proof.
  revert seen s. induction sigs as [|[endorser l] sigs IH]; intros seen s Hwf Hv Hl Hs Hcnt; cbn [scan_endorsers].
  { right. rewrite app_nil_r. split; [done|]. intros p. apply Hcnt. }
  apply Forall_cons in Hwf as [Hwf Hwfs]. cbn in Hwf.
  set (s0 := if srv_isEndorser n endorser then s else count_empty l s).
  assert (sc_proposer s0 = MaxUint32 ∧ ∀ p, cnt s0 p = cnt s p) as [Hp0 Hc0] by (unfold s0; by destruct (srv_isEndorser n endorser)).
  assert (∀ p, 0 ≤ cnt s0 p < 2 ^ 32 - 1) as Hr.
  { intros p. rewrite Hc0. destruct (Hcnt p) as [-> _]. pose proof (endorsing_bound p seen). rewrite length_app in Hl. lia. }
  assert (∀ p, endorsing p (seen ++ (endorser, l) :: sigs) = endorsing p ((seen ++ [(endorser, l)]) ++ sigs)) as Happ by (intros p; by rewrite <- app_assoc).
  destruct (scan_sigs_spec C l s0 (sw_once _ Hwf)) as [(p & Hp & Hsp & HC)|[Hsp Hall]]; [intros p _; apply Hr| |].
  - assert (p ≠ MaxUint32) as Hne.
    { apply Exists_exists in Hp as (e & Hin & _ & <-). apply (Hv (endorser, l) e); [apply list_elem_of_here|done]. }
    rewrite decide_True by congruence. left. rewrite Hsp. split; [done|]. rewrite Happ.
    pose proof (endorsing_mono p (seen ++ [(endorser, l)]) sigs) as Hm. rewrite endorsing_snoc, decide_True in Hm by done.
    rewrite Hc0 in HC. destruct (Hcnt p) as [E _]. lia.
  - rewrite decide_False by (intros Hn; apply Hn; congruence).
    destruct (IH (seen ++ [(endorser, l)]) (scan_sigs C l s0)) as [[? ?]|[? ?]]; rewrite <- ?app_assoc; try done.
    + intros kv e Hin. apply Hv. by right.
    + congruence.
    + intros p. destruct (Hall p) as [E Hle]. rewrite E, Hc0, endorsing_snoc. destruct (Hcnt p) as [E' Hle']. cbn [snd].
      destruct (decide (endorses p l)) as [Hp|]; [|lia]. specialize (Hle Hp). rewrite Hc0 in Hle. lia.
    + left. rewrite <- app_assoc in *. done.
    + right. rewrite <- app_assoc in *. done.
Qed.

(** The peers that endorsed a proposer's block. *)
Definition endorsers_of c (p : Z) : gset Z := dom (filter (λ kv, endorses p kv.2) (sigs_of c)).

Lemma size_endorsers_of c p : Z.of_nat (size (endorsers_of c p)) = endorsing p (map_range (sigs_of c)).
Proof.
  unfold endorsers_of, endorsing. rewrite size_dom, <- size_filter_list. f_equal. apply Permutation_length. by rewrite map_range_perm.
Qed.
Lemma elem_of_range {V} (m : gmap Z V) k v : (k, v) ∈ map_range m ↔ m !! k = Some v.
Proof. rewrite map_range_perm. apply elem_of_map_to_list. Qed.
Lemma length_range {V} (m : gmap Z V) : length (map_range m) = size m.
Proof. by rewrite map_range_perm, length_map_to_list. Qed.

(** Votes for the round are votes for peers. *)
Record votes_valid c : Prop := {
  vv_commits : MaxUint32 ∉ (BlockProposer <$> CommitMsgs c);
  vv_endorsements : ∀ endorser l e, sigs_of c !! endorser = Some l → e ∈ l → EndorsedProposer e ≠ MaxUint32;
  vv_size : Z.of_nat (size (sigs_of c)) < 2 ^ 32 - 1;
}.

Lemma scan_candidate n C c s :
  map_Forall (λ _ l, sigs_wf l) (sigs_of c) → votes_valid c → 0 ≤ C → s = mkScan 0 ∅ MaxUint32 false →
  let s' := scan_endorsers n C (map_range (sigs_of c)) s in
  (sc_proposer s' ≠ MaxUint32 ∧ C < Z.of_nat (size (endorsers_of c (sc_proposer s')))) ∨
  (sc_proposer s' = MaxUint32 ∧ ∀ p, Z.of_nat (size (endorsers_of c p)) ≤ C).
Proof.
  intros Hwf [_ Hv Hsz] HC -> s'. rewrite size_endorsers_of. setoid_rewrite size_endorsers_of.
  apply (scan_endorsers_spec n C (map_range (sigs_of c)) []); cbn [app]; [| |by rewrite length_range|done|].
  - apply Forall_forall. intros [k l] Hin%elem_of_range. by apply (Hwf k).
  - intros [k l] e Hin%elem_of_range He. by eapply Hv.
  - intros p. unfold cnt. cbn. rewrite lookup_empty. unfold endorsing. by cbn.
Qed.

(** C15 (the round is decided by quorum).  In a pool that is consistent and whose votes
    are for peers, [commitDone] reports a decision exactly when some proposer's
    block has a quorum of commits or was endorsed by more than [N - 1 - C] peers,
    and the proposer it reports has one of them, whatever the order in which the
    maps are visited. *)
Theorem commitDone_spec n C N pool c :
  pool_ok pool → candidateBlocks pool !! n = Some c → votes_valid c → 0 ≤ C < N → N < 2 ^ 32 →
  let chosen p := decided (CommitMsgs c) N p ∨ N - 1 - C < Z.of_nat (size (endorsers_of c p)) in
  let '(p, _, ok) := commitDone n C N pool in
  (ok = true ↔ ∃ q, chosen q) ∧ (if ok then p ≠ MaxUint32 ∧ chosen p else p = MaxUint32).
Proof.
  intros Hok Hc Hv HC HN chosen. unfold commitDone. rewrite Hc. pose proof (vv_commits _ Hv) as Hmax.
  destruct (getCommitConsensus_spec (CommitMsgs c) C N ltac:(lia) Hmax) as (Hiff & Hdec & Hnone).
  destruct (getCommitConsensus (CommitMsgs c) C N) as [p forEmpty] eqn:Eg. cbn [fst snd] in *.
  rewrite (uwrap_small 32 (N - 1 - C)) by (unfold in_range; lia).
  destruct (decide (p = MaxUint32)) as [->|Hp].
  - rewrite (Hnone eq_refl). destruct (scan_candidate n (N - 1 - C) c _ (ck_sigs _ _ _ (Hok n c Hc)) Hv ltac:(lia) eq_refl) as [[Hs Hq]|[Hs Hq]].
    + rewrite decide_True by done. unfold chosen. split; [|by eauto]. split; [|done]. intros _. eauto.
    + rewrite decide_False by (intros Hn; by apply Hn). split; [|done]. split; [done|]. intros (q & [Hd|Hd]); [|specialize (Hq q); lia].
      exfalso. by apply (proj2 Hiff); eauto.
  - cbn [sc_proposer sc_forEmpty]. rewrite decide_True by done. destruct (Hdec Hp) as [Hd _]. unfold chosen. split; [|by eauto]. split; [|done]. eauto.
Qed.

(** ** The signatures of a sealed block *)

Lemma endorser_sig_Some p (forEmpty : bool) kv pk sg :
  endorser_sig p forEmpty kv = Some (pk, sg) →
  kv.1 ≠ p ∧ GetPeerPubKey kv.1 = Some pk ∧ ∃ e, e ∈ kv.2 ∧ EndorsedProposer e = p ∧ es_ForEmpty e = forEmpty ∧ sg = es_Signature e.
Proof.
  unfold endorser_sig. destruct (list_find _ _) as [[i e]|] eqn:Ef; cbn; [|done]. destruct (GetPeerPubKey kv.1) as [k|]; cbn; [|done].
  intros [= <- <-]. apply list_find_Some in Ef as (Hi & (Hp & He & Hne) & _). split_and!; [done..|]. exists e.
  split_and!; try done. by eapply list_elem_of_lookup_2.
Qed.
Lemma endorser_sig_is_Some p kv :
  is_Some (GetPeerPubKey kv.1) → kv.1 ≠ p → endorses p kv.2 → is_Some (endorser_sig p false kv).
Proof.
  intros [k Hk] Hne (e & Hin & He & Hp)%Exists_exists. unfold endorser_sig.
  destruct (list_find_elem_of (λ sig, EndorsedProposer sig = p ∧ es_ForEmpty sig = false ∧ kv.1 ≠ p) kv.2 e Hin) as [[i e'] ->]; [done|].
  cbn. rewrite Hk. by eexists.
Qed.

(** All endorsers but the proposer sign. *)
Lemma ends_length p sigs :
  NoDup sigs.*1 → (∀ kv, kv ∈ sigs → is_Some (GetPeerPubKey kv.1)) →
  endorsing p sigs ≤ blen (omap (endorser_sig p false) sigs) + (if decide (p ∈ sigs.*1) then 1 else 0).
Proof.
  induction sigs as [|[k l] sigs IH]; intros Hnd Hkeys; [unfold endorsing; cbn; case_decide; lia|]. cbn in Hnd. apply NoDup_cons in Hnd as [Hk Hnd].
  specialize (IH Hnd ltac:(intros kv Hkv; apply Hkeys; by right)). rewrite endorsing_cons. cbn [fmap list_fmap omap list_omap fst snd].
  set (ends := omap (endorser_sig p false) sigs) in *.
  assert (blen ends ≤ blen (match endorser_sig p false (k, l) with Some y => y :: ends | None => ends end)) as Hmono.
  { destruct (endorser_sig p false (k, l)); cbn [length]; lia. }
  destruct (decide (k = p)) as [->|Hne].
  - rewrite (decide_False (P := p ∈ sigs.*1)) in IH by done. rewrite (decide_True (P := p ∈ p :: sigs.*1)) by apply list_elem_of_here.
    case_decide; lia.
  - assert ((if decide (p ∈ k :: sigs.*1) then 1 else 0) = (if decide (p ∈ sigs.*1) then 1 else 0)) as ->.
    { apply decide_ext. rewrite elem_of_cons. naive_solver. }
    destruct (decide (endorses p l)) as [Hp|]; [|lia].
    destruct (endorser_sig_is_Some p (k, l)) as [x ->]; [apply Hkeys, list_elem_of_here|done|done|]. cbn [length]. lia.
Qed.

Lemma ends_NoDup p (forEmpty : bool) sigs :
  (∀ i j k, GetPeerPubKey i = Some k → GetPeerPubKey j = Some k → i = j) → NoDup sigs.*1 →
  NoDup (omap (endorser_sig p forEmpty) sigs).*1 ∧ ∀ pk, GetPeerPubKey p = Some pk → pk ∉ (omap (endorser_sig p forEmpty) sigs).*1.
Proof.
  intros Hinj Hnd.
  assert (∀ pk l, pk ∈ (omap (endorser_sig p forEmpty) l).*1 → ∃ kv, kv ∈ l ∧ kv.1 ≠ p ∧ GetPeerPubKey kv.1 = Some pk) as Hin.
  { intros pk l ([pk' sg] & -> & (kv & Hkv & E)%list_elem_of_omap)%list_elem_of_fmap. apply endorser_sig_Some in E as (? & ? & _). by exists kv. }
  split.
  - induction sigs as [|kv sigs IH]; [apply NoDup_nil_2|]. cbn in Hnd. apply NoDup_cons in Hnd as [Hk Hnd]. cbn.
    destruct (endorser_sig p forEmpty kv) as [[pk sg]|] eqn:E; [|by apply IH]. cbn. apply NoDup_cons. split; [|by apply IH].
    intros (kv' & Hkv' & _ & Hpk')%Hin. apply endorser_sig_Some in E as (_ & Hpk & _). apply Hk. rewrite (Hinj _ _ _ Hpk Hpk').
    by apply list_elem_of_fmap_2.
  - intros pk Hpk (kv & _ & Hne & Hk)%Hin. apply Hne. by eapply Hinj.
Qed.


End seal.

(** ** Example: four peers *)

#[local] Existing Instance ex_rand.
#[local] Instance ex_seal_db : LedgerDB (LedgerStore (LevelDBStore (gmap bytes bytes)) (option (Uint256 * Block)) (option (Uint256 * (Transaction * Z)))) :=
  ledger_db ex_registry.
#[export] Program Instance ex_pool_env : PoolEnv := {|
  srv_isEndorser _ _ := true;
  GetPeerPubKey i := if decide (1 ≤ i ≤ 4) then Some (ex_pk i) else None;
  nil_key := [] : bytes;
  map_range _ m := map_to_list m;
|}.
Next Obligation. done. Qed.

Definition ex_proposed : VBlock := mkVBlock (mkBlock (ex_signed 1 ex_gen_hash EMPTY_HASH [1]) []) None (mkVbftBlockInfo 1 [] [] 0 None).
Definition ex_pool : BlockPool _ := mkPool 10 (mkChainStore (ex_chain 0) 0 ∅ false []) ∅ ∅.
Definition ex_endorse (endorser : Z) : blockEndorseMsg := mkEndorseMsg endorser 1 1 EMPTY_HASH false [] [] (ex_sign endorser (to_slice EMPTY_HASH)).

(** Two peers endorse the block of a third. *)
Definition ex_ops : list pool_op :=
  [OpReceive 0 ex_proposed; OpProposal (mkProposal 0); OpEndorsement (ex_endorse 2); OpEndorsement (ex_endorse 3)].
Definition exec_ops (ops : list pool_op) (pool : BlockPool _) : BlockPool _ := foldl (λ p op, (exec_op op p).2) pool ops.
Definition ex_voted : BlockPool _ := exec_ops ex_ops ex_pool.
Definition ex_cand : CandidateInfo := candidate_at ex_voted 1.
Definition ex_seal := setBlockSealed 0 false true ex_voted.

Definition returns (ops : list pool_op) (pool : BlockPool _) : bool :=
  (fix go ops pool := match ops with [] => true | op :: ops => match exec_op op pool with (Panic, _) => false | (_, p) => go ops p end end) ops pool.
Lemma returns_run ops pool : returns ops pool = true → pool_run ops pool (exec_ops ops pool).
Proof.
  revert pool. induction ops as [|op ops IH]; intros pool Hr; [constructor|]. cbn in Hr. unfold exec_ops. cbn [foldl].
  destruct (exec_op op pool) as [r p] eqn:E. eapply run_cons; [exact E|by destruct r|]. apply IH. by destruct r.
Qed.

Lemma ex_pool_ok : pool_ok ex_pool.
Proof. intros n c E. cbn in E. by rewrite lookup_empty in E. Qed.
Lemma ex_ops_return : returns ex_ops ex_pool = true.
Proof. by vm_compute. Qed.
Lemma ex_voted_ok : pool_ok ex_voted.
Proof. exact (run_ok_pool _ _ _ (returns_run _ _ ex_ops_return) ex_pool_ok). Qed.

Lemma pool_invariant_witness : length (ci_Proposals ex_cand) = 1%nat ∧ ∀ n c, candidateBlocks ex_voted !! n = Some c → cand_ok (heap ex_voted) n c.
Proof. split; [by vm_compute|]. exact (pool_invariant _ _ _ (returns_run _ _ ex_ops_return) ex_pool_ok). Defined.

Lemma ex_cand_at : candidateBlocks ex_voted !! 1 = Some ex_cand.
Proof.
  assert (is_Some (candidateBlocks ex_voted !! 1)) as [c Hc] by (refine (bool_decide_unpack _ _); by vm_compute).
  unfold ex_cand, candidate_at. rewrite Hc. reflexivity.
Qed.
Lemma ex_votes_valid : votes_valid ex_cand.
Proof.
  split.
  - assert (CommitMsgs ex_cand = []) as -> by by vm_compute. apply not_elem_of_nil.
  - assert (map_Forall (λ _ l, Forall (λ e, EndorsedProposer e ≠ MaxUint32) l) (sigs_of ex_cand)) as Hv.
    { refine (bool_decide_unpack _ _). by vm_compute. }
    intros endorser l e Hl. specialize (Hv endorser l Hl). cbn in Hv. rewrite Forall_forall in Hv. apply Hv.
  - by vm_compute.
Qed.

(** Later votes do not change the proposals of the round. *)
Lemma votes_persist_example :
  ∃ c', candidateBlocks (exec_ops [OpEndorsement (ex_endorse 4); OpSeal 0 false true; OpSeal 0 false true] ex_voted) !! 1 = Some c' ∧ cand_le ex_cand c'.
Proof.
  refine (votes_persist _ _ _ 1 ex_cand (returns_run _ _ _) ex_voted_ok _ ex_cand_at); [by vm_compute|].
  repeat (apply Forall_cons; split; [reflexivity|]). apply Forall_nil. exact I.
Defined.

Lemma commitDone_spec_witness :
  commitDone 1 1 4 ex_voted = (1, false, true) ∧ ∃ q, decided (CommitMsgs ex_cand) 4 q ∨ 2 < Z.of_nat (size (endorsers_of ex_cand q)).
Proof.
  assert (commitDone 1 1 4 ex_voted = (1, false, true)) as E by by vm_compute. split; [exact E|].
  pose proof (commitDone_spec 1 1 4 ex_voted ex_cand ex_voted_ok ex_cand_at ex_votes_valid ltac:(lia) ltac:(lia)) as Hs. cbv zeta in Hs.
  rewrite E in Hs. apply Hs. reflexivity.
Defined.

Lemma ex_keys_inj (i j : Z) (k : PublicKey) : GetPeerPubKey i = Some k → GetPeerPubKey j = Some k → i = j.
Proof.
  cbn. destruct (decide (1 ≤ i ≤ 4)) as [Hi|]; [|done]. destruct (decide (1 ≤ j ≤ 4)) as [Hj|]; [|done]. intros [= <-] [= E].
  apply (f_equal byte_to_Z) in E. rewrite !byte_to_of_Z, !Z.mod_small in E by lia. done.
Qed.


(** With six peers the configuration allows [C = 2], and four endorsements decide,
    but the ledger asks for five signatures. *)
Example short_quorum :
  is_ok (GenesisChainConfig ex_conf ((λ i, mkVBFTPeerInfo i [byte_of_Z i] []) <$> seqZ 1 6) 1) = true ∧
  match GenesisChainConfig ex_conf ((λ i, mkVBFTPeerInfo i [byte_of_Z i] []) <$> seqZ 1 6) 1 with
  | Ok cfg => cc_N cfg - 1 - cc_C cfg + 1 < header_quorum false (cc_N cfg)
  | _ => False
  end.
Proof. by vm_compute. Qed.

(** A vote for a block that was loaded when the pool was made panics. *)
Example history_vote_panics :
  (newBlockEndorsement (ex_endorse 2) (mkPool 10 (mkChainStore (ex_chain 0) 1 ∅ false []) {[1 := history_candidate ex_proposed]} ∅)).1 = Panic.
Proof. by vm_compute. Qed.
