(* ===== verification/VbftState.v ===== *)
(** * The state machine of the VBFT server (consensus/vbft/state_mgmt.go)

    The states from the start of a node to its taking part in the consensus, and the
    events that move between them.  The server is behind the interface
    [StateServer]; the timers that were started and the requests that were sent to
    the syncer are part of the state.  An error of the server is only logged. *)

From S2P Require Import Prelude Sha256 TxRoot Sink Source Serialization BytesOrder MemDB OverlayDB CacheDB Contract MerkleUtil MerkleSpec MerkleHasher HashStore MerkleTree Native ExCrypto Codec Types Signature NodeStates LedgerExec StateStore BlockStore EventStore Ledger VbftNode VbftCommit.

Definition MAX_PEER_CONNECTIONS : Z := 100.
Definition MAX_SYNCING_CHECK_BLK_NUM : Z := 10.

Inductive ServerState := Init | LocalConfigured | Configured | Syncing | WaitNetworkReady | SyncReady | Synced | SyncingCheck.
#[export] Instance ServerState_eq_dec : EqDecision ServerState.
Proof. solve_decision. Defined.
(** The order of the constants. *)
Definition state_num (s : ServerState) : Z :=
  match s with
  | Init => 0 | LocalConfigured => 1 | Configured => 2 | Syncing => 3
  | WaitNetworkReady => 4 | SyncReady => 5 | Synced => 6 | SyncingCheck => 7
  end.
Definition isReady (s : ServerState) : bool := bool_decide (state_num SyncReady ≤ state_num s).
Definition isActive (s : ServerState) : bool := bool_decide (state_num Synced ≤ state_num s).

Record PeerState := mkPeerState { st_peerIdx : Z; chainConfigView : Z; st_committedBlockNum : Z; st_connected : bool }.

Inductive StateEvent :=
  | ConfigLoaded
  | UpdatePeerConfig (p : PeerState)
  | UpdatePeerState (p : PeerState)
  | SyncReadyTimeout (blockNum : Z)
  | SyncDone
  | LiveTick (blockNum : Z).

Record BlockSyncReq := mkSyncReq { targetPeers : list Z; startBlockNum : Z; targetBlockNum : Z }.

(** [sm_timers]: the block numbers of the started timers that did not fire yet;
    [sm_requests]: the requests to the syncer, latest first. *)
Record StateMgr := mkStateMgr {
  currentState : ServerState;
  sm_peers : gmap Z PeerState;
  lastTickChainHeight : Z;
  lastBlockSyncReqHeight : Z;
  sm_timers : list Z;
  sm_requests : list BlockSyncReq;
}.

(** What the state machine uses of the server, the pools and the syncer; the order in
    which the peers are visited. *)
Class StateServer (Srv : Type) := {
  srv_GetCurrentBlockNo : Srv → Z;
  srv_GetCommittedBlockNo : Srv → Z;
  srv_config : Srv → ChainConfig;
  srv_Index : Srv → Z;
  srv_getActivePeerCount : Srv → Z;
  srv_syncTarget : Srv → Z;
  srv_syncerActive : Srv → bool;
  srv_CommitMsgs : Srv → Z → list blockCommitMsg;
  srv_Proposers : Srv → Z → list Z;               (* of the proposals in the message pool *)
  srv_makeFastForward : M Srv unit;
  srv_startNewRound : M Srv unit;
  srv_reBroadcast : M Srv unit;
  peers_range : gmap Z PeerState → list (Z * PeerState);
  peers_range_perm : ∀ m, peers_range m ≡ₚ map_to_list m;
  srv_committed_range : ∀ s, 0 ≤ srv_GetCommittedBlockNo s < 2 ^ 32;   (* a [uint32] *)
}.

Section state_mgr.
Context `{StateServer Srv}.
Abbreviation ST := (StateMgr * Srv)%type.
Abbreviation SMM := (M ST).
Implicit Types (sm : StateMgr) (s : Srv).

Definition newStateMgr : StateMgr := mkStateMgr Init ∅ 0 0 [] [].

Definition goto (st : ServerState) sm : StateMgr := mkStateMgr st (sm_peers sm) (lastTickChainHeight sm) (lastBlockSyncReqHeight sm) (sm_timers sm) (sm_requests sm).
Definition set_peers (p : gmap Z PeerState) sm : StateMgr := mkStateMgr (currentState sm) p (lastTickChainHeight sm) (lastBlockSyncReqHeight sm) (sm_timers sm) (sm_requests sm).
Definition set_lastTick (h : Z) sm : StateMgr := mkStateMgr (currentState sm) (sm_peers sm) h (lastBlockSyncReqHeight sm) (sm_timers sm) (sm_requests sm).
Definition start_timer (blkNum : Z) sm : StateMgr := mkStateMgr (currentState sm) (sm_peers sm) (lastTickChainHeight sm) (lastBlockSyncReqHeight sm) (blkNum :: sm_timers sm) (sm_requests sm).
Definition send_sync (r : BlockSyncReq) sm : StateMgr := mkStateMgr (currentState sm) (sm_peers sm) (lastTickChainHeight sm) (targetBlockNum r) (sm_timers sm) (r :: sm_requests sm).

Definition modify_sm (f : StateMgr → StateMgr) : SMM unit := λ '(sm, s), (Ok tt, (f sm, s)).
(** A call of the server whose error is logged. *)
Definition try_server (m : M Srv unit) : SMM unit := λ '(sm, s),
  match m s with (Panic, s') => (Panic, (sm, s')) | (_, s') => (Ok tt, (sm, s')) end.

Definition nonConsensusNode s : bool := bool_decide (srv_Index s = MaxUint32).

Definition getMinActivePeerCount s : Z :=
  let n := cc_C (srv_config s) * 2 in
  if decide (MAX_PEER_CONNECTIONS < n) then MAX_PEER_CONNECTIONS else n.

(** The last loop visits a map in any order. *)
Definition getSyncedChainConfigView sm s : Z :=
  let min := getMinActivePeerCount s in
  if decide (Z.of_nat (size (sm_peers sm)) < min) then 0 else
  let views := foldl (λ m kp, bump m (chainConfigView kp.2)) ∅ (peers_range (sm_peers sm)) in
  match list_find (λ kv, min ≤ kv.2) (map_to_list views) with Some (_, (k, _)) => k | None => 0 end.

(** The loop that collects, for the block numbers that were reported so far, who
    reported at least that much: the lists and the last number that passed [C]. *)
Definition note_peer (n idx : Z) (peers : gmap Z (list Z)) : gmap Z (list Z) :=
  let peers := match peers !! n with Some _ => peers | None => <[n := []]> peers end in
  map_imap (λ k l, Some (if decide (k ≤ n) then l ++ [idx] else l)) peers.
Fixpoint committed_loop (counts : Z → bool) (C : Z) (ps : list PeerState) (peers : gmap Z (list Z)) (max : option Z) : gmap Z (list Z) * option Z :=
  match ps with
  | [] => (peers, max)
  | p :: ps =>
      let n := st_committedBlockNum p in
      if counts n then
        let peers := note_peer n (st_peerIdx p) peers in
        let max := if decide (C < blen (default [] (peers !! n))) then Some n else max in
        committed_loop counts C ps peers max
      else committed_loop counts C ps peers max
  end.

Definition getConsensusedCommittedBlockNum sm s : Z * bool :=
  let myCommitted := srv_GetCommittedBlockNo s in
  let '(_, max) := committed_loop (λ n, bool_decide (myCommitted ≤ n)) (cc_C (srv_config s)) (peers_range (sm_peers sm)).*2 ∅ None in
  match max with Some n => (n, true) | None => (0, false) end.

Definition fastforward_block s (blkNum : Z) : bool :=
  let '(proposer, _) := getCommitConsensus (srv_CommitMsgs s blkNum) (cc_C (srv_config s)) (cc_N (srv_config s)) in
  bool_decide (proposer ≠ MaxUint32) && bool_decide (proposer ∈ srv_Proposers s blkNum).
Definition canFastForward (targetBlkNum : Z) s : bool :=
  if decide (u32 (srv_GetCommittedBlockNo s + MAX_SYNCING_CHECK_BLK_NUM * 4) < targetBlkNum) then false else
  let cur := srv_GetCurrentBlockNo s in
  if forallb (fastforward_block s) (seqZ cur (targetBlkNum - cur + 1)) then negb (srv_syncerActive s) else false.

Definition isSyncedReady sm s : bool :=
  if decide (Z.of_nat (size (sm_peers sm)) < getMinActivePeerCount s) then false else
  let '(committedBlkNum, ok) := getConsensusedCommittedBlockNum sm s in
  if negb ok then false else
  if decide (committedBlkNum ≤ srv_GetCommittedBlockNo s) then true else canFastForward committedBlkNum s.

Definition setSyncedReady : SMM unit :=
  '(sm, s) ← get_state;
  let prevState := currentState sm in
  modify_sm (goto SyncReady) ;;
  if decide (state_num prevState ≤ state_num SyncReady) then
    modify_sm (start_timer (srv_GetCurrentBlockNo s)) ;; try_server srv_makeFastForward
  else mret tt.

Definition checkStartSyncing (startBlkNum : Z) (forceSync : bool) : SMM unit :=
  '(sm, s) ← get_state;
  if nonConsensusNode s then mret tt else
  let '(peers, max) := committed_loop (λ n, bool_decide (startBlkNum < n)) (cc_C (srv_config s)) (peers_range (sm_peers sm)).*2 ∅ None in
  let maxCommitted := default 0 max in
  if bool_decide (startBlkNum < maxCommitted) || forceSync then
    modify_sm (goto Syncing) ;;
    if decide (srv_syncTarget s < maxCommitted) then
      modify_sm (send_sync (mkSyncReq (default [] (peers !! maxCommitted)) (u32 (srv_GetCommittedBlockNo s + 1)) maxCommitted))
    else mret tt
  else if decide (currentState sm = Synced) then modify_sm (goto SyncingCheck)
  else mret tt.

(** The peers agree on a later block: move on by the messages at hand, or ask for the
    blocks. *)
Definition catch_up : SMM unit :=
  '(sm, s) ← get_state;
  let '(committedBlkNum, ok) := getConsensusedCommittedBlockNum sm s in
  if ok && bool_decide (srv_GetCommittedBlockNo s < committedBlkNum) then
    if canFastForward committedBlkNum s then try_server srv_makeFastForward
    else checkStartSyncing (srv_GetCommittedBlockNo s) false
  else mret tt.

Definition onPeerUpdate (peerState : PeerState) : SMM unit :=
  '(sm, s) ← get_state;
  let newPeer := bool_decide (sm_peers sm !! st_peerIdx peerState = None) in
  modify_sm (set_peers (<[st_peerIdx peerState := peerState]> (sm_peers sm))) ;;
  if negb newPeer && isActive (currentState sm) &&
     bool_decide (u32 (srv_GetCurrentBlockNo s + MAX_SYNCING_CHECK_BLK_NUM) < st_committedBlockNum peerState)
  then checkStartSyncing (u32 (srv_GetCommittedBlockNo s + MAX_SYNCING_CHECK_BLK_NUM)) false
  else
  '(sm, s) ← get_state;
  match currentState sm with
  | LocalConfigured =>
      if decide (getSyncedChainConfigView sm s = cc_View (srv_config s)) then modify_sm (goto Syncing) else mret tt
  | Syncing =>
      (if decide (srv_GetCommittedBlockNo s < st_committedBlockNum peerState) then catch_up else mret tt) ;;
      '(sm, s) ← get_state;
      if isSyncedReady sm s then setSyncedReady else mret tt
  | WaitNetworkReady => if isSyncedReady sm s then setSyncedReady else mret tt
  | Synced =>
      let '(committedBlkNum, ok) := getConsensusedCommittedBlockNum sm s in
      if ok && bool_decide (u32 (srv_GetCommittedBlockNo s + 1) < committedBlkNum) then try_server srv_makeFastForward else mret tt
  | SyncingCheck =>
      if isSyncedReady sm s then setSyncedReady
      else checkStartSyncing (u32 (srv_GetCommittedBlockNo s + MAX_SYNCING_CHECK_BLK_NUM)) false
  | Init | Configured | SyncReady => mret tt
  end.

Definition onPeerDisconnected (peerIdx : Z) : SMM unit :=
  '(sm, s) ← get_state;
  match sm_peers sm !! peerIdx with
  | None => mret tt
  | Some _ =>
      modify_sm (set_peers (delete peerIdx (sm_peers sm))) ;;
      if decide ((currentState sm = Synced ∨ currentState sm = SyncingCheck) ∧ srv_getActivePeerCount s < getMinActivePeerCount s)
      then modify_sm (goto WaitNetworkReady) else mret tt
  end.

Definition onLiveTick (blockNum : Z) : SMM unit :=
  '(sm, s) ← get_state;
  if decide (lastTickChainHeight sm < blockNum) then modify_sm (set_lastTick blockNum) else
  if decide (lastTickChainHeight sm = 0) then modify_sm (set_lastTick blockNum) else
  if decide (currentState sm ≠ Synced) then mret tt else
  catch_up ;; try_server srv_reBroadcast.

(** One round of the loop of [run]. *)
Definition handle (evt : StateEvent) : SMM unit :=
  '(sm, s) ← get_state;
  match evt with
  | ConfigLoaded => if decide (currentState sm = Init) then modify_sm (goto LocalConfigured) else mret tt
  | SyncReadyTimeout blockNum =>
      if decide (currentState sm = SyncReady) then
        modify_sm (goto Synced) ;;
        if decide (blockNum = srv_GetCurrentBlockNo s) then try_server srv_startNewRound else mret tt
      else mret tt
  | UpdatePeerConfig p =>
      modify_sm (set_peers (<[st_peerIdx p := p]> (sm_peers sm))) ;;
      '(sm, s) ← get_state;
      if decide (state_num LocalConfigured ≤ state_num (currentState sm)) then
        let v := getSyncedChainConfigView sm s in
        if decide (v = cc_View (srv_config s) ∧ state_num (currentState sm) < state_num Syncing) then modify_sm (goto Syncing)
        else if decide (cc_View (srv_config s) < v) then modify_sm (goto LocalConfigured)
        else mret tt
      else mret tt
  | UpdatePeerState p => if st_connected p then onPeerUpdate p else onPeerDisconnected (st_peerIdx p)
  | SyncDone => setSyncedReady
  | LiveTick blockNum => onLiveTick blockNum
  end.

(** ** The counts of reported block numbers *)

Implicit Types (ps seen : list PeerState) (l : list Z).

(** Those who reported [n] or more. *)
Definition reported (n : Z) ps : list Z := st_peerIdx <$> filter (λ p, n ≤ st_committedBlockNum p) ps.

Definition loop_ok (counts : Z → bool) (C : Z) seen (peers : gmap Z (list Z)) (max : option Z) : Prop :=
  (∀ k l, peers !! k = Some l → l `sublist_of` reported k seen ∧ counts k = true) ∧
  (∀ n, max = Some n → ∃ l, peers !! n = Some l ∧ C < blen l).

Lemma reported_snoc k seen p : reported k (seen ++ [p]) = if decide (k ≤ st_committedBlockNum p) then reported k seen ++ [st_peerIdx p] else reported k seen.
Proof. unfold reported. rewrite filter_app, filter_cons, filter_nil, fmap_app. case_decide; cbn; [done|by rewrite app_nil_r]. Qed.

Lemma lookup_note_peer n idx (peers : gmap Z (list Z)) k l :
  note_peer n idx peers !! k = Some l →
  ∃ l0, (peers !! k = Some l0 ∨ k = n ∧ l0 = [] ∧ peers !! k = None) ∧ l = if decide (k ≤ n) then l0 ++ [idx] else l0.
Proof.
  unfold note_peer. rewrite map_lookup_imap. set (peers' := match peers !! n with Some _ => peers | None => <[n := []]> peers end).
  destruct (peers' !! k) as [l0|] eqn:E; cbn; [|done]. intros [= <-]. exists l0. split; [|done]. unfold peers' in E.
  destruct (peers !! n) eqn:En; [by left|]. destruct (decide (k = n)) as [->|]; [rewrite lookup_insert_eq in E; injection E as <-; by right|].
  rewrite lookup_insert_ne in E by done. by left.
Qed.
Lemma note_peer_grows n idx (peers : gmap Z (list Z)) k l : peers !! k = Some l → ∃ l', note_peer n idx peers !! k = Some l' ∧ blen l ≤ blen l'.
Proof.
  intros Hk. unfold note_peer. rewrite map_lookup_imap.
  assert (match peers !! n with Some _ => peers | None => <[n := []]> peers end !! k = Some l) as ->.
  { destruct (peers !! n) eqn:En; [done|]. rewrite lookup_insert_ne by congruence. done. }
  cbn. eexists. split; [reflexivity|]. case_decide; [rewrite length_app|]; lia.
Qed.

Lemma committed_loop_ok counts C ps seen peers max :
  loop_ok counts C seen peers max → let '(peers', max') := committed_loop counts C ps peers max in loop_ok counts C (seen ++ ps) peers' max'.
Proof.
  revert seen peers max. induction ps as [|p ps IH]; intros seen peers max [Hp Hm]; cbn [committed_loop]; [by rewrite app_nil_r|].
  replace (seen ++ p :: ps) with ((seen ++ [p]) ++ ps) by (by rewrite <- app_assoc). set (n := st_committedBlockNum p).
  assert (∀ k l, l `sublist_of` reported k seen → l `sublist_of` reported k (seen ++ [p])) as Hgrow.
  { intros k l Hl. rewrite reported_snoc. case_decide; [by apply sublist_inserts_r|done]. }
  destruct (counts n) eqn:Hc; [|apply IH; split; [|done]; intros k l [? ?]%Hp; auto].
  set (peers1 := note_peer n (st_peerIdx p) peers). apply IH. split.
  - intros k l (l0 & Hl0 & ->)%lookup_note_peer. assert (l0 `sublist_of` reported k seen ∧ counts k = true) as [Hsub Hk].
    { destruct Hl0 as [?%Hp|(-> & -> & _)]; [done|]. split; [apply sublist_nil_l|done]. }
    split; [|done]. rewrite reported_snoc. fold n. case_decide; [by apply sublist_app|done].
  - intros n' Hn'. case_decide as Hq; [|by destruct (Hm n' Hn') as (l & (l' & ? & ?)%(note_peer_grows n (st_peerIdx p)) & ?); exists l'; split; [|lia]].
    injection Hn' as <-. destruct (peers1 !! n) as [l|] eqn:El; cbn in Hq; [by exists l|]. exfalso. revert El. unfold peers1, note_peer.
    rewrite map_lookup_imap. destruct (peers !! n) eqn:En; [by rewrite En|]. by rewrite lookup_insert_eq.
Qed.

(** ** Requests to the syncer *)

Definition peers_wf sm : Prop := ∀ k p, sm_peers sm !! k = Some p → st_peerIdx p = k.
(** The peers that reported [n] or more. *)
Definition backing (n : Z) sm : gset Z := dom (filter (λ kv, n ≤ st_committedBlockNum kv.2) (sm_peers sm)).

Lemma range_idx sm : peers_wf sm → st_peerIdx <$> (peers_range (sm_peers sm)).*2 = (peers_range (sm_peers sm)).*1.
Proof.
  intros Hwf. rewrite <- list_fmap_compose. apply list_fmap_ext. intros i [k p] Hi%list_elem_of_lookup_2. cbn.
  apply Hwf, elem_of_map_to_list. by rewrite <- peers_range_perm.
Qed.

Lemma reported_backing n sm : peers_wf sm →
  let l := reported n (peers_range (sm_peers sm)).*2 in NoDup l ∧ (∀ idx, idx ∈ l → idx ∈ backing n sm) ∧ (length l ≤ size (backing n sm))%nat.
Proof.
  intros Hwf l. assert (NoDup l) as Hnd.
  { eapply (sublist_NoDup _ (st_peerIdx <$> (peers_range (sm_peers sm)).*2)).
    - rewrite range_idx by done. rewrite peers_range_perm. apply NoDup_fst_map_to_list.
    - apply fmap_sublist, sublist_filter. }
  assert (∀ idx, idx ∈ l → idx ∈ backing n sm) as Hin.
  { intros idx (p & -> & [Hn ([k p'] & -> & Hkp)%list_elem_of_fmap]%list_elem_of_filter)%list_elem_of_fmap. cbn in *.
    rewrite peers_range_perm in Hkp. apply elem_of_map_to_list in Hkp. rewrite (Hwf _ _ Hkp).
    apply elem_of_dom. exists p'. by apply map_lookup_filter_Some. }
  split_and!; [done|done|]. rewrite <- (size_list_to_set (C := gset Z) l Hnd). apply subseteq_size. intros x Hx%elem_of_list_to_set. by apply Hin.
Qed.

Lemma committed_loop_backed counts C sm peers n : peers_wf sm →
  committed_loop counts C (peers_range (sm_peers sm)).*2 ∅ None = (peers, Some n) →
  ∃ l, peers !! n = Some l ∧ C < blen l ∧ counts n = true ∧ NoDup l ∧ (∀ idx, idx ∈ l → idx ∈ backing n sm) ∧ blen l ≤ Z.of_nat (size (backing n sm)).
Proof.
  intros Hwf E. pose proof (committed_loop_ok counts C (peers_range (sm_peers sm)).*2 [] ∅ None) as Hok. rewrite E in Hok.
  destruct Hok as [Hp Hm]; [split; [intros k l Hk; by rewrite lookup_empty in Hk|done]|]. destruct (Hm n eq_refl) as (l & Hl & HC).
  destruct (Hp n l Hl) as [Hsub Hc]. cbn [app] in Hsub. destruct (reported_backing n sm Hwf) as (Hnd & Hin & Hsz). exists l.
  split_and!; [done|done|done|by eapply sublist_NoDup| |].
  - intros idx Hidx. apply Hin. by eapply elem_of_submseteq, sublist_submseteq.
  - apply sublist_length in Hsub. lia.
Qed.

Lemma getConsensused_backed sm s n : peers_wf sm → getConsensusedCommittedBlockNum sm s = (n, true) →
  srv_GetCommittedBlockNo s ≤ n ∧ cc_C (srv_config s) < Z.of_nat (size (backing n sm)).
Proof.
  intros Hwf. unfold getConsensusedCommittedBlockNum. destruct (committed_loop _ _ _ _ _) as [peers [n'|]] eqn:E; [|done]. intros [= ->].
  destruct (committed_loop_backed _ _ _ _ _ Hwf E) as (l & _ & HC & Hc & _ & _ & Hsz). apply bool_decide_eq_true in Hc. split; [done|lia].
Qed.

(** A request for blocks goes to more than [C] different peers that reported the block
    it asks for, or a later one. *)
Record backed sm s (r : BlockSyncReq) : Prop := {
  bk_start : startBlockNum r = u32 (srv_GetCommittedBlockNo s + 1);
  bk_many : cc_C (srv_config s) < blen (targetPeers r);
  bk_distinct : NoDup (targetPeers r);
  bk_reported : ∀ idx, idx ∈ targetPeers r → idx ∈ backing (targetBlockNum r) sm;
}.
Definition asks sm sm' s : Prop :=
  sm_requests sm' = sm_requests sm ∨ ∃ r, sm_requests sm' = r :: sm_requests sm ∧ backed sm' s r.

Lemma asks_same sm sm1 sm2 s : sm_requests sm2 = sm_requests sm1 → sm_peers sm2 = sm_peers sm1 → asks sm sm1 s → asks sm sm2 s.
Proof.
  intros Er Ep [E|(r & E & [])]; [left; congruence|right]. exists r. split; [congruence|]. split; try done. unfold backing in *. by rewrite Ep.
Qed.

Lemma checkStartSyncing_run start sm s : peers_wf sm → 0 ≤ start →
  ∃ sm', checkStartSyncing start false (sm, s) = (Ok tt, (sm', s)) ∧ sm_peers sm' = sm_peers sm ∧ sm_timers sm' = sm_timers sm ∧ asks sm sm' s ∧
    (currentState sm' = currentState sm ∨ currentState sm' = Syncing ∨ currentState sm = Synced ∧ currentState sm' = SyncingCheck).
Proof.
  intros Hwf Hs. unfold checkStartSyncing, mbind, M_bind, get_state. destruct (nonConsensusNode s).
  { exists sm. split_and!; [done..|by left|by left]. }
  destruct (committed_loop _ _ _ _ _) as [peers max] eqn:E. rewrite orb_false_r. case_bool_decide as Hlt.
  - destruct max as [n|]; cbn [default] in *; [|lia]. destruct (committed_loop_backed _ _ _ _ _ Hwf E) as (l & Hl & HC & _ & Hnd & Hin & _).
    unfold modify_sm. case_decide; eexists; (split; [reflexivity|]); cbn; split_and!; try done; [|by auto|by left|by auto].
    right. eexists. split; [reflexivity|]. rewrite Hl. by split.
  - case_decide; eexists; (split; [reflexivity|]); cbn; split_and!; try done; try (by left); by auto.
Qed.

(** ** The transitions *)

Lemma try_server_run (m : M Srv unit) sm s r sm' s' : try_server m (sm, s) = (r, (sm', s')) → sm' = sm.
Proof. unfold try_server. destruct (m s) as [[] ?]; by intros [= _ <- _]. Qed.

Lemma setSyncedReady_run sm s r sm' s' :
  setSyncedReady (sm, s) = (r, (sm', s')) →
  sm' = if decide (state_num (currentState sm) ≤ state_num SyncReady) then start_timer (srv_GetCurrentBlockNo s) (goto SyncReady sm) else goto SyncReady sm.
Proof.
  unfold setSyncedReady, mbind, M_bind, get_state, modify_sm. case_decide; [intros E; by apply try_server_run in E|by intros [= _ <- _]].
Qed.

Lemma catch_up_run sm s r sm' s' : peers_wf sm → catch_up (sm, s) = (r, (sm', s')) →
  sm_peers sm' = sm_peers sm ∧ sm_timers sm' = sm_timers sm ∧ asks sm sm' s ∧
  (currentState sm' = currentState sm ∨ currentState sm' = Syncing ∨ currentState sm = Synced ∧ currentState sm' = SyncingCheck).
Proof.
  intros Hwf. unfold catch_up, mbind, M_bind, get_state. destruct (getConsensusedCommittedBlockNum sm s) as [n ok].
  assert (∀ sm', sm' = sm → sm_peers sm' = sm_peers sm ∧ sm_timers sm' = sm_timers sm ∧ asks sm sm' s ∧
    (currentState sm' = currentState sm ∨ currentState sm' = Syncing ∨ currentState sm = Synced ∧ currentState sm' = SyncingCheck)) as Hsame.
  { intros ? ->. split_and!; [done|done|by left|by left]. }
  destruct (ok && _); [|intros [= _ <- _]; by apply Hsame].
  destruct (canFastForward n s); [intros E; by apply try_server_run in E; apply Hsame|].
  destruct (checkStartSyncing_run (srv_GetCommittedBlockNo s) sm s Hwf (proj1 (srv_committed_range s))) as (sm1 & -> & Hrest).
  intros [= _ <- _]. exact Hrest.
Qed.

(** Which events move the server from a state to another. *)
Inductive moves : StateEvent → ServerState → ServerState → Prop :=
  | mv_stay evt st : moves evt st st
  | mv_config : moves ConfigLoaded Init LocalConfigured
  | mv_timeout n : moves (SyncReadyTimeout n) SyncReady Synced
  | mv_view p st : st = LocalConfigured ∨ st = Configured → moves (UpdatePeerConfig p) st Syncing
  | mv_new_view p st : st ≠ Init → moves (UpdatePeerConfig p) st LocalConfigured
  | mv_agreed p : moves (UpdatePeerState p) LocalConfigured Syncing
  | mv_ready p st : st = Syncing ∨ st = WaitNetworkReady ∨ st = SyncingCheck → moves (UpdatePeerState p) st SyncReady
  | mv_lost evt st : (∃ p, evt = UpdatePeerState p) ∨ (∃ n, evt = LiveTick n) → st = Synced ∨ st = SyncingCheck → moves evt st Syncing
  | mv_check evt : (∃ p, evt = UpdatePeerState p) ∨ (∃ n, evt = LiveTick n) → moves evt Synced SyncingCheck
  | mv_network p st : st = Synced ∨ st = SyncingCheck → moves (UpdatePeerState p) st WaitNetworkReady
  | mv_done st : moves SyncDone st SyncReady.

(** What an event does: the peers stay well formed, requests are backed by peers, and
    a timer is only started on the way up to [SyncReady]. *)
Record event_effect (evt : StateEvent) sm s sm' : Prop := {
  ee_peers : peers_wf sm';
  ee_asks : asks sm sm' s;
  ee_moves : moves evt (currentState sm) (currentState sm');
  ee_timers : sm_timers sm' = sm_timers sm ∨
    currentState sm' = SyncReady ∧ state_num (currentState sm) ≤ state_num SyncReady ∧ ∃ n, sm_timers sm' = n :: sm_timers sm;
}.

Lemma peers_wf_insert p sm : peers_wf sm → peers_wf (set_peers (<[st_peerIdx p := p]> (sm_peers sm)) sm).
Proof.
  intros Hwf k q. cbn. destruct (decide (k = st_peerIdx p)) as [->|]; [rewrite lookup_insert_eq; by intros [= <-]|].
  rewrite lookup_insert_ne by done. apply Hwf.
Qed.

(** After the peers were updated to [sm1]. *)
Lemma effect_after evt sm sm1 s sm' :
  peers_wf sm1 → currentState sm1 = currentState sm → sm_requests sm1 = sm_requests sm → sm_timers sm1 = sm_timers sm →
  event_effect evt sm1 s sm' → event_effect evt sm s sm'.
Proof. intros Hwf Ec Er Et [Hp Ha Hm Ht]. split; [done| |by rewrite <- Ec|by rewrite <- Ec, <- Et]. unfold asks in *. by rewrite <- Er. Qed.

Lemma effect_refl evt sm s : peers_wf sm → event_effect evt sm s sm.
Proof. intros Hwf. split; [done|by left|apply mv_stay|by left]. Qed.

Lemma ready_effect p sm s r sm' s' :
  peers_wf sm → currentState sm = Syncing ∨ currentState sm = WaitNetworkReady ∨ currentState sm = SyncingCheck →
  setSyncedReady (sm, s) = (r, (sm', s')) → event_effect (UpdatePeerState p) sm s sm'.
Proof.
  intros Hwf Hst ->%setSyncedReady_run. case_decide; (split; [done|by left|by apply mv_ready|]); [right|by left]. split_and!; [done..|by eexists].
Qed.

(** Loss of synchronisation. *)
Definition may_lose (st : ServerState) : Prop := st = Syncing ∨ st = Synced ∨ st = SyncingCheck.
Lemma lose_effect evt sm s sm' :
  peers_wf sm → (∃ p, evt = UpdatePeerState p) ∨ (∃ n, evt = LiveTick n) → may_lose (currentState sm) →
  sm_peers sm' = sm_peers sm → sm_timers sm' = sm_timers sm → asks sm sm' s →
  currentState sm' = currentState sm ∨ currentState sm' = Syncing ∨ currentState sm = Synced ∧ currentState sm' = SyncingCheck →
  event_effect evt sm s sm'.
Proof.
  intros Hwf He Hst Ep Et Ha Hs. split; [unfold peers_wf; by rewrite Ep|done| |by left].
  destruct Hs as [->|[->|[-> ->]]]; [apply mv_stay| |by apply mv_check].
  destruct Hst as [->|Hst]; [apply mv_stay|by apply mv_lost].
Qed.

Lemma isActive_lose st : isActive st = true → may_lose st.
Proof. unfold isActive, may_lose. destruct st; cbn; auto; by intros ?%bool_decide_eq_true. Qed.

(** Catching up, then maybe ready. *)
Lemma syncing_effect p sm s r sm' s' :
  peers_wf sm → currentState sm = Syncing →
  ((if decide (srv_GetCommittedBlockNo s < st_committedBlockNum p) then catch_up else mret tt) ;;
   '(sm, s) ← get_state; if isSyncedReady sm s then setSyncedReady else mret tt) (sm, s) = (r, (sm', s')) →
  event_effect (UpdatePeerState p) sm s sm'.
Proof.
  intros Hwf Hst. unfold mbind at 1, M_bind at 1.
  destruct ((if decide (srv_GetCommittedBlockNo s < st_committedBlockNum p) then catch_up else mret tt) (sm, s)) as [r1 [sm1 s1]] eqn:E1.
  assert (sm_peers sm1 = sm_peers sm ∧ sm_timers sm1 = sm_timers sm ∧ asks sm sm1 s ∧ currentState sm1 = Syncing) as (Ep & Et & Ha & Ec).
  { case_decide; [|injection E1 as _ <- _; split_and!; [done|done|by left|done]].
    apply catch_up_run in E1 as (Ep & Et & Ha & Hs); [|done]. split_and!; try done. destruct Hs as [->|[->|[? _]]]; [done|done|congruence]. }
  assert (peers_wf sm1) as Hwf1 by (unfold peers_wf; by rewrite Ep).
  assert (event_effect (UpdatePeerState p) sm s sm1) as Hsm1.
  { apply lose_effect; [done|left; eauto|by left|done|done|done|]. by left; rewrite Hst. }
  destruct r1; [|by intros [= _ <- _]..]. unfold mbind, M_bind, get_state. destruct (isSyncedReady sm1 s1); [|by intros [= _ <- _]].
  intros ->%setSyncedReady_run. rewrite decide_True by (rewrite Ec; cbn; lia).
  split; [done|by apply (asks_same _ sm1)|rewrite Hst; cbn; apply mv_ready; by left|]. right. rewrite Hst. cbn. rewrite <- Et. split_and!; [done|lia|by eexists].
Qed.

Lemma onPeerUpdate_effect p sm s r sm' s' : peers_wf sm → onPeerUpdate p (sm, s) = (r, (sm', s')) → event_effect (UpdatePeerState p) sm s sm'.
Proof.
  intros Hwf E. unfold onPeerUpdate in E. set (sm1 := set_peers (<[st_peerIdx p := p]> (sm_peers sm)) sm).
  assert (peers_wf sm1) as Hwf1 by by apply peers_wf_insert. apply (effect_after _ _ sm1); [done..|].
  change (currentState sm) with (currentState sm1) in E. revert E.
  unfold mbind at 1 2, M_bind at 1 2, get_state at 1, modify_sm at 1. fold sm1.
  destruct (_ && _ && _) eqn:Eb.
  { apply andb_true_iff in Eb as [[_ Eb]%andb_true_iff _].
    destruct (checkStartSyncing_run (u32 (srv_GetCommittedBlockNo s + MAX_SYNCING_CHECK_BLK_NUM)) sm1 s Hwf1) as (sm2 & E & Ep & Et & Ha & Hs);
      [apply uwrap_range; lia|]. rewrite E. intros [= _ <- _]. apply lose_effect; try done; [left; by eauto|by apply isActive_lose]. }
  unfold mbind at 1, M_bind at 1, get_state at 1. destruct (currentState sm1) eqn:Est.
  - intros [= _ <- _]. by apply effect_refl.
  - destruct (decide (getSyncedChainConfigView sm1 s = cc_View (srv_config s))); [|intros [= _ <- _]; by apply effect_refl]. unfold modify_sm. intros [= _ <- _]. split; [done|by left|rewrite Est; apply mv_agreed|by left].
  - intros [= _ <- _]. by apply effect_refl.
  - intros E. by eapply syncing_effect.
  - destruct (isSyncedReady sm1 s); [|intros [= _ <- _]; by apply effect_refl]. intros E. eapply ready_effect; [done| |exact E]. rewrite Est. auto.
  - intros [= _ <- _]. by apply effect_refl.
  - destruct (getConsensusedCommittedBlockNum sm1 s) as [n ok].
    destruct (ok && _); [intros E; apply try_server_run in E as ->|intros [= _ <- _]]; by apply effect_refl.
  - destruct (isSyncedReady sm1 s); [intros E; eapply ready_effect; [done| |exact E]; rewrite Est; auto|].
    destruct (checkStartSyncing_run (u32 (srv_GetCommittedBlockNo s + MAX_SYNCING_CHECK_BLK_NUM)) sm1 s Hwf1) as (sm2 & E & Ep & Et & Ha & Hs);
      [apply uwrap_range; lia|]. rewrite E. intros [= _ <- _]. apply lose_effect; try done; [left; by eauto|rewrite Est; unfold may_lose; auto].
Qed.

Lemma handle_effect evt sm s r sm' s' : peers_wf sm → handle evt (sm, s) = (r, (sm', s')) → event_effect evt sm s sm'.
Proof.
  intros Hwf. unfold handle. unfold mbind at 1, M_bind at 1, get_state at 1. destruct evt as [|p|p|n| |n].
  - case_decide as Hd; intros [= _ <- _]; [|by apply effect_refl]. split; [done|by left|rewrite Hd; apply mv_config|by left].
  - set (sm1 := set_peers (<[st_peerIdx p := p]> (sm_peers sm)) sm). assert (peers_wf sm1) as Hwf1 by by apply peers_wf_insert.
    intros E. apply (effect_after _ _ sm1); [done..|]. revert E. unfold mbind, M_bind, get_state, modify_sm. fold sm1.
    case_decide as Hd; [|intros [= _ <- _]; by apply effect_refl].
    case_decide as Hv; [|case_decide]; intros [= _ <- _]; [| |by apply effect_refl].
    + split; [done|by left| |by left]. apply mv_view. destruct Hv as [_ Hv]. destruct (currentState sm1); cbn in *; try lia; auto.
    + split; [done|by left| |by left]. apply mv_new_view. intros E0. rewrite E0 in Hd. cbn in Hd. lia.
  - destruct (st_connected p); [by apply onPeerUpdate_effect|]. unfold onPeerDisconnected, mbind, M_bind, get_state.
    destruct (sm_peers sm !! st_peerIdx p); [|intros [= _ <- _]; by apply effect_refl].
    assert (peers_wf (set_peers (delete (st_peerIdx p) (sm_peers sm)) sm)) as Hwf1.
    { intros k q Hq. cbn in Hq. apply lookup_delete_Some in Hq as [_ Hq]. by apply Hwf. }
    unfold modify_sm. case_decide as Hd; intros [= _ <- _]; (split; [done|by left| |by left]); [apply mv_network, Hd|apply mv_stay].
  - case_decide as Hd; [|intros [= _ <- _]; by apply effect_refl]. unfold mbind, M_bind, modify_sm.
    assert (event_effect (SyncReadyTimeout n) sm s (goto Synced sm)) by (split; [done|by left|rewrite Hd; apply mv_timeout|by left]).
    case_decide; [intros E; by apply try_server_run in E as ->|by intros [= _ <- _]].
  - intros ->%setSyncedReady_run. case_decide; (split; [done|by left|apply mv_done|]); [right|by left]. split_and!; [done..|by eexists].
  - unfold onLiveTick. unfold mbind at 1, M_bind at 1, get_state.
    assert (event_effect (LiveTick n) sm s (set_lastTick n sm)) by (split; [done|by left|apply mv_stay|by left]).
    case_decide; [by intros [= _ <- _]|]. case_decide; [by intros [= _ <- _]|]. case_decide as Hd; [intros [= _ <- _]; by apply effect_refl|].
    unfold mbind, M_bind. destruct (catch_up (sm, s)) as [r1 [sm1 s1]] eqn:E1.
    apply catch_up_run in E1 as (Ep & Et & Ha & Hs); [|done].
    assert (event_effect (LiveTick n) sm s sm1) by (apply lose_effect; try done; [right; by eauto|rewrite Hd; unfold may_lose; auto]).
    destruct r1; [|by intros [= _ <- _]..]. intros E. by apply try_server_run in E as ->.
Qed.

(** ** Runs *)

(** A timeout is the end of a timer that was started. *)
Definition fire (n : Z) sm : StateMgr :=
  mkStateMgr (currentState sm) (sm_peers sm) (lastTickChainHeight sm) (lastBlockSyncReqHeight sm) (match list_find (n =.) (sm_timers sm) with Some (i, _) => delete i (sm_timers sm) | None => sm_timers sm end) (sm_requests sm).
Definition begin_event (evt : StateEvent) sm : option StateMgr :=
  match evt with
  | SyncReadyTimeout n => if decide (n ∈ sm_timers sm) then Some (fire n sm) else None
  | _ => Some sm
  end.
Inductive sm_run : list StateEvent → ST → ST → Prop :=
  | sm_nil st : sm_run [] st st
  | sm_cons evt evts sm s sm0 r sm1 s1 st :
      begin_event evt sm = Some sm0 → handle evt (sm0, s) = (r, (sm1, s1)) → sm_run evts (sm1, s1) st → sm_run (evt :: evts) (sm, s) st.

Lemma begin_same evt sm sm0 : begin_event evt sm = Some sm0 →
  sm_peers sm0 = sm_peers sm ∧ sm_requests sm0 = sm_requests sm ∧ currentState sm0 = currentState sm.
Proof. destruct evt; cbn; try (by intros [= <-]). case_decide; [|done]. by intros [= <-]. Qed.

Lemma sm_run_wf evts st st' : sm_run evts st st' → peers_wf st.1 → peers_wf st'.1.
Proof.
  induction 1 as [|evt evts sm s sm0 r sm1 s1 st Eb E _ IH]; [done|]. intros Hwf. apply IH. cbn in *.
  apply begin_same in Eb as (Ep & _ & _). eapply ee_peers, handle_effect; [|exact E]. unfold peers_wf. by rewrite Ep.
Qed.

(** C17 (the state machine of a node).  In every run from the start, whatever events
    arrive and whatever the server does, an event moves the node only along the
    listed transitions, so that it becomes active only when a timer that was
    started on the way up to [SyncReady] ends; and whenever blocks are requested,
    the request goes to more than [C] different peers that each reported the
    requested block or a later one, so that one of them is not faulty. *)
Theorem state_machine_sound evts s st evt sm0 r sm' s' :
  sm_run evts (newStateMgr, s) st → begin_event evt st.1 = Some sm0 → handle evt (sm0, st.2) = (r, (sm', s')) →
  moves evt (currentState st.1) (currentState sm') ∧
  (sm_requests sm' = sm_requests st.1 ∨ ∃ req, sm_requests sm' = req :: sm_requests st.1 ∧ backed sm' st.2 req).
Proof.
  intros Hrun Eb E. apply sm_run_wf in Hrun; [|intros k p Hk; cbn in Hk; by rewrite lookup_empty in Hk].
  apply begin_same in Eb as (Ep & Er & Ec). assert (peers_wf sm0) as Hwf by (unfold peers_wf; by rewrite Ep).
  destruct (handle_effect _ _ _ _ _ _ Hwf E) as [_ Ha Hm _]. rewrite <- Ec, <- Er. done.
Qed.

(** Nothing happens to bring the node out of [SyncReady]. *)
Definition quiet evt sm s : Prop :=
  evt ≠ SyncDone ∧ ∀ p, evt = UpdatePeerConfig p → getSyncedChainConfigView (set_peers (<[st_peerIdx p := p]> (sm_peers sm)) sm) s ≤ cc_View (srv_config s).
Inductive quiet_run : ST → ST → Prop :=
  | quiet_nil st : quiet_run st st
  | quiet_cons evt sm s sm0 r sm1 s1 st :
      quiet evt sm s → begin_event evt sm = Some sm0 → handle evt (sm0, s) = (r, (sm1, s1)) → quiet_run (sm1, s1) st → quiet_run (sm, s) st.

Lemma quiet_step evt sm s sm0 r sm1 s1 :
  currentState sm = SyncReady → sm_timers sm = [] → quiet evt sm s → begin_event evt sm = Some sm0 → handle evt (sm0, s) = (r, (sm1, s1)) →
  currentState sm1 = SyncReady ∧ sm_timers sm1 = [].
Proof.
  intros Hc Ht [Hnd Hview] Eb E. destruct evt as [|p|p|n| |n]; cbn in Eb; try (injection Eb as <-); [| | | |done|].
  - revert E. unfold handle, mbind, M_bind, get_state. rewrite Hc. by intros [= _ <- _].
  - revert E. unfold handle, mbind, M_bind, get_state, modify_sm. specialize (Hview p eq_refl). cbn [currentState set_peers]. rewrite Hc.
    rewrite decide_True by (cbn; lia). rewrite decide_False by (cbn; lia). rewrite decide_False by lia. by intros [= _ <- _].
  - revert E. unfold handle, mbind, M_bind, get_state. destruct (st_connected p).
    + unfold onPeerUpdate, mbind, M_bind, get_state, modify_sm. cbn [currentState set_peers]. rewrite Hc. change (isActive SyncReady) with false.
      rewrite andb_false_r. cbn. rewrite Hc. by intros [= _ <- _].
    + unfold onPeerDisconnected, mbind, M_bind, get_state, modify_sm. destruct (_ !! st_peerIdx p); [|by intros [= _ <- _]].
      rewrite Hc, decide_False by (by intros [[]]). by intros [= _ <- _].
  - rewrite Ht, decide_False in Eb by apply not_elem_of_nil. done.
  - revert E. unfold handle, onLiveTick, mbind, M_bind, get_state, modify_sm. rewrite Hc. case_decide; [by intros [= _ <- _]|].
    case_decide; [by intros [= _ <- _]|]. rewrite decide_True by done. by intros [= _ <- _].
Qed.

Lemma quiet_run_stays st st' : quiet_run st st' → currentState st.1 = SyncReady → sm_timers st.1 = [] →
  currentState st'.1 = SyncReady.
Proof.
  induction 1 as [|evt sm s sm0 r sm1 s1 st Hq Eb E _ IH]; [done|]. cbn. intros Hc Ht.
  destruct (quiet_step _ _ _ _ _ _ _ Hc Ht Hq Eb E). by apply IH.
Qed.

(** Leaving the synchronisation check.  If no timer is running and a peer's report
    ends [SyncingCheck] because the node is synchronised after all, then the node
    goes to [SyncReady] without starting a timer, and, until a block
    synchronisation ends or the peers move to a later configuration, no event makes
    it active again: it does not propose, endorse or commit. *)
Theorem sync_check_stalls sm s p r st' :
  let sm1 := set_peers (<[st_peerIdx p := p]> (sm_peers sm)) sm in
  currentState sm = SyncingCheck → sm_timers sm = [] → st_connected p = true →
  sm_peers sm !! st_peerIdx p = None ∨ st_committedBlockNum p ≤ u32 (srv_GetCurrentBlockNo s + MAX_SYNCING_CHECK_BLK_NUM) →
  isSyncedReady sm1 s = true → handle (UpdatePeerState p) (sm, s) = (r, st') →
  ∀ st2, quiet_run st' st2 → currentState st2.1 = SyncReady ∧ isActive (currentState st2.1) = false.
Proof.
  intros sm1 Hc Ht Hcon Hord Hready E st2 Hq.
  assert (st' = (goto SyncReady sm1, s)) as ->.
  { revert E. unfold handle, mbind, M_bind, get_state. rewrite Hcon. unfold onPeerUpdate, mbind, M_bind, get_state. unfold modify_sm at 1. fold sm1.
    rewrite Hc. assert (negb (bool_decide (sm_peers sm !! st_peerIdx p = None)) && isActive SyncingCheck &&
      bool_decide (u32 (srv_GetCurrentBlockNo s + MAX_SYNCING_CHECK_BLK_NUM) < st_committedBlockNum p) = false) as ->.
    { destruct Hord as [Hn|Hle]; [by rewrite bool_decide_eq_true_2|]. rewrite (bool_decide_eq_false_2 (_ < _)) by lia. by rewrite andb_false_r. }
    change (currentState sm1) with (currentState sm). rewrite Hc, Hready. unfold setSyncedReady, mbind, M_bind, get_state, modify_sm.
    change (currentState sm1) with (currentState sm). rewrite Hc. rewrite decide_False by (cbn; lia). by intros [= _ <-]. }
  pose proof (quiet_run_stays _ _ Hq eq_refl Ht) as Hs. split; [exact Hs|]. by rewrite Hs.
Qed.

End state_mgr.

(** ** Examples *)

(** The result depends on the order in which the peers are visited, and a block that
    enough peers have may be missed. *)
Example consensus_depends_on_order :
  let p i n := mkPeerState i 1 n true in
  (committed_loop (λ _, true) 1 [p 1 5; p 2 5; p 3 4; p 4 4] ∅ None).2 = Some 4 ∧
  (committed_loop (λ _, true) 1 [p 3 4; p 4 4; p 1 5; p 2 5] ∅ None).2 = Some 5 ∧
  (committed_loop (λ _, true) 1 [p 1 5; p 2 4] ∅ None).2 = None ∧ (committed_loop (λ _, true) 1 [p 2 4; p 1 5] ∅ None).2 = None.
Proof. by vm_compute. Qed.

(** A server at block [z] with the configuration of four peers. *)
#[local] Program Instance ex_server : StateServer Z := {|
  srv_GetCurrentBlockNo z := u32 (z + 1);
  srv_GetCommittedBlockNo z := u32 z;
  srv_config _ := ex_chain_config;
  srv_Index _ := 1;
  srv_getActivePeerCount _ := 3;
  srv_syncTarget _ := 0;
  srv_syncerActive _ := false;
  srv_CommitMsgs _ _ := [];
  srv_Proposers _ _ := [];
  srv_makeFastForward := mret tt;
  srv_startNewRound := mret tt;
  srv_reBroadcast := mret tt;
  peers_range m := map_to_list m;
|}.
Next Obligation. done. Qed.
Next Obligation. intros s. apply uwrap_range. lia. Qed.

Definition ex_report (i n : Z) : PeerState := mkPeerState i 1 n true.
Definition ex_st1 := (handle ConfigLoaded (newStateMgr, 5)).2.
Definition ex_st2 := (handle (UpdatePeerConfig (ex_report 2 60)) ex_st1).2.
Definition ex_st3 := (handle (UpdatePeerConfig (ex_report 3 60)) ex_st2).2.
Definition ex_st4 := (handle (UpdatePeerState (ex_report 3 60)) ex_st3).2.

Lemma state_machine_sound_witness :
  currentState ex_st3.1 = Syncing ∧ length (sm_requests ex_st4.1) = 1%nat ∧ ∃ req, sm_requests ex_st4.1 = [req] ∧ backed ex_st4.1 5 req.
Proof.
  split; [by vm_compute|]. split; [by vm_compute|].
  assert (sm_run [ConfigLoaded; UpdatePeerConfig (ex_report 2 60); UpdatePeerConfig (ex_report 3 60)] (newStateMgr, 5) ex_st3) as Hrun.
  { apply (sm_cons _ _ _ _ newStateMgr (handle ConfigLoaded (newStateMgr, 5)).1 ex_st1.1 ex_st1.2); [reflexivity|by vm_compute|].
    apply (sm_cons _ _ _ _ ex_st1.1 (handle (UpdatePeerConfig (ex_report 2 60)) ex_st1).1 ex_st2.1 ex_st2.2); [reflexivity|by vm_compute|].
    apply (sm_cons _ _ _ _ ex_st2.1 (handle (UpdatePeerConfig (ex_report 3 60)) ex_st2).1 ex_st3.1 ex_st3.2); [reflexivity|by vm_compute|].
    destruct ex_st3. apply sm_nil. }
  destruct (state_machine_sound _ _ _ (UpdatePeerState (ex_report 3 60)) ex_st3.1 (handle (UpdatePeerState (ex_report 3 60)) ex_st3).1 ex_st4.1 ex_st4.2 Hrun)
    as [_ [Hno|(req & Hreq & Hb)]].
  - reflexivity.
  - by vm_compute.
  - exfalso. assert (length (sm_requests ex_st4.1) = 1%nat) as H1 by by vm_compute. rewrite Hno in H1. by vm_compute in H1.
  - exists req. split; [exact Hreq|exact Hb].
Defined.

Definition ex_check : StateMgr := mkStateMgr SyncingCheck {[2 := ex_report 2 5; 3 := ex_report 3 5]} 5 0 [] [].
Definition ex_stalled := (handle (UpdatePeerState (ex_report 2 5)) (ex_check, 5)).2.

Lemma sync_check_stalls_example :
  currentState ex_stalled.1 = SyncReady ∧ isActive (currentState (handle (LiveTick 6) ex_stalled).2.1) = false.
Proof.
  split; [by vm_compute|].
  apply (sync_check_stalls ex_check 5 (ex_report 2 5) (handle (UpdatePeerState (ex_report 2 5)) (ex_check, 5)).1 ex_stalled).
  - reflexivity.
  - reflexivity.
  - reflexivity.
  - right. vm_compute. discriminate.
  - by vm_compute.
  - exact (surjective_pairing _).
  - apply (quiet_cons (LiveTick 6) ex_stalled.1 ex_stalled.2 ex_stalled.1 (handle (LiveTick 6) ex_stalled).1 (handle (LiveTick 6) ex_stalled).2.1 (handle (LiveTick 6) ex_stalled).2.2).
    + split; [discriminate|]. intros p E. discriminate E.
    + reflexivity.
    + by vm_compute.
    + destruct (handle (LiveTick 6) ex_stalled).2. apply quiet_nil.
Defined.
