(* ===== verification/HsCommon.v ===== *)
(** * The header synchronisation contract: parameters, notifications and routing
    (header_sync/common/param.go, header_sync/entrance.go)

    A call names a registered side chain; the handler of the chain's router then
    reads the same input again.  The handlers are behind the interface
    [HeaderHandlers]; the handlers of the chains with proof of authority and of
    Ethereum are the ones of PoaSync and EthSync. *)

From S2P Require Import Prelude Sha256 Sink Source Serialization BytesOrder MemDB OverlayDB CacheDB Contract MerkleSpec MerkleHasher Native ExCrypto Codec NodeStates NodeManager CrossCommon ConsensusVote SideStates SideChain CrossChain.

(** ** Parameters *)

Record SyncGenesisHeaderParam := mkSyncGenesisHeaderParam { sg_ChainID : Z; sg_GenesisHeader : bytes }.
Definition SyncGenesisHeaderParam_Serialization (p : SyncGenesisHeaderParam) : list sink_op :=
  [OpUint64 (sg_ChainID p); OpVarBytes (sg_GenesisHeader p)].
Definition SyncGenesisHeaderParam_Deserialization : M ZeroCopySource SyncGenesisHeaderParam :=
  chainID ← must "SyncGenesisHeaderParam deserialize chainID error" NextUint64;
  genesisHeader ← must "utils.DecodeVarBytes, deserialize genesisHeader count error" NextVarBytes;
  mret (mkSyncGenesisHeaderParam chainID genesisHeader).

Record SyncBlockHeaderParam := mkSyncBlockHeaderParam { sb_ChainID : Z; sb_Address : Address; Headers : list bytes }.
Definition SyncBlockHeaderParam_Serialization (p : SyncBlockHeaderParam) : list sink_op :=
  [OpUint64 (sb_ChainID p); OpAddress (sb_Address p); OpUint64 (blen (Headers p))] ++
  enc_list (λ v, [OpVarBytes v]) (Headers p).
Definition SyncBlockHeaderParam_Deserialization : M ZeroCopySource SyncBlockHeaderParam :=
  chainID ← must "SyncGenesisHeaderParam deserialize chainID error" NextUint64;
  address ← must "utils.DecodeAddress, deserialize address error" NextAddress;
  n ← must "utils.DecodeVarUint, deserialize header count error" NextUint64;
  headers ← loopM n (must "utils.DecodeVarBytes, deserialize header error" NextVarBytes);
  mret (mkSyncBlockHeaderParam chainID address headers).

Record SyncCrossChainMsgParam := mkSyncCrossChainMsgParam { sm_ChainID : Z; sm_Address : Address; CrossChainMsgs : list bytes }.
Definition SyncCrossChainMsgParam_Serialization (p : SyncCrossChainMsgParam) : list sink_op :=
  [OpUint64 (sm_ChainID p); OpAddress (sm_Address p); OpUint64 (blen (CrossChainMsgs p))] ++
  enc_list (λ v, [OpVarBytes v]) (CrossChainMsgs p).
Definition SyncCrossChainMsgParam_Deserialization : M ZeroCopySource SyncCrossChainMsgParam :=
  chainID ← must "SyncGenesisHeaderParam deserialize chainID error" NextUint64;
  address ← must "utils.DecodeAddress, deserialize address error" NextAddress;
  n ← must "utils.DecodeVarUint, deserialize header count error" NextUint64;
  crossChainMsgs ← loopM n (must "utils.DecodeVarBytes, deserialize crossChainMsg error" NextVarBytes);
  mret (mkSyncCrossChainMsgParam chainID address crossChainMsgs).

#[export] Program Instance SyncGenesisHeaderParam_ser : Serializable SyncGenesisHeaderParam := {|
  Serialization := SyncGenesisHeaderParam_Serialization;
  Deserialization := SyncGenesisHeaderParam_Deserialization;
  ser_wf p := is_u64 (sg_ChainID p);
|}.
Next Obligation. intros [] ?. unfold SyncGenesisHeaderParam_Deserialization, SyncGenesisHeaderParam_Serialization. solve_roundtrip. Qed.
Next Obligation. unfold SyncGenesisHeaderParam_Deserialization. solve_total. Qed.

(** The two parameters with a list have the same layout. *)
Lemma decodes_bytes_list (e : string) (l : list bytes) :
  is_u64 (blen l) → decodes (loopM (blen l) (must e NextVarBytes)) (enc_ops (enc_list (λ v, [OpVarBytes v]) l)) l.
Proof.
  intros Hl. apply decodes_list; [done| |intros; apply enc_varbytes_pos].
  intros a _. rewrite enc_ops_cons, enc_ops_nil, app_nil_r. apply decodes_must, decodes_NextVarBytes.
Qed.

#[export] Program Instance SyncBlockHeaderParam_ser : Serializable SyncBlockHeaderParam := {|
  Serialization := SyncBlockHeaderParam_Serialization;
  Deserialization := SyncBlockHeaderParam_Deserialization;
  ser_wf p := is_u64 (sb_ChainID p) ∧ is_u64 (blen (Headers p));
|}.
Next Obligation.
  intros [c a l] [??]. unfold SyncBlockHeaderParam_Deserialization, SyncBlockHeaderParam_Serialization. cbn [Headers] in *.
  solve_roundtrip. eapply decodes_map; [by apply decodes_bytes_list|done].
Qed.
Next Obligation.
  unfold SyncBlockHeaderParam_Deserialization. do 3 (apply safe_bind; [solve_total|intros]).
  apply safe_bind; [apply safe_loopM; auto with safe|intros; apply safe_ret].
Qed.

#[export] Program Instance SyncCrossChainMsgParam_ser : Serializable SyncCrossChainMsgParam := {|
  Serialization := SyncCrossChainMsgParam_Serialization;
  Deserialization := SyncCrossChainMsgParam_Deserialization;
  ser_wf p := is_u64 (sm_ChainID p) ∧ is_u64 (blen (CrossChainMsgs p));
|}.
Next Obligation.
  intros [c a l] [??]. unfold SyncCrossChainMsgParam_Deserialization, SyncCrossChainMsgParam_Serialization. cbn [CrossChainMsgs] in *.
  solve_roundtrip. eapply decodes_map; [by apply decodes_bytes_list|done].
Qed.
Next Obligation.
  unfold SyncCrossChainMsgParam_Deserialization. do 3 (apply safe_bind; [solve_total|intros]).
  apply safe_bind; [apply safe_loopM; auto with safe|intros; apply safe_ret].
Qed.

(** ** Storage keys *)

Definition CURRENT_HEADER_HEIGHT : bytes := gs "currentHeaderHeight".
Definition HEADER_INDEX : bytes := gs "headerIndex".
Definition GENESIS_HEADER : bytes := gs "genesisHeader".
Definition MAIN_CHAIN : bytes := gs "mainChain".
Definition SYNC_HEADER_NAME : bytes := gs "syncHeader".
Definition SYNC_CROSSCHAIN_MSG : bytes := gs "syncCrossChainMsg".

Definition SYNC_GENESIS_HEADER : bytes := gs "syncGenesisHeader".
Definition SYNC_BLOCK_HEADER : bytes := gs "syncBlockHeader".
Definition SYNC_CROSS_CHAIN_MSG : bytes := gs "syncCrossChainMsg".

Definition hs_key (args : list bytes) : bytes := ConcatKey HeaderSyncContractAddress args.
Definition genesis_key (chainID : Z) : bytes := hs_key [GENESIS_HEADER; GetUint64Bytes chainID].
Definition header_key (chainID : Z) (hash : bytes) : bytes := hs_key [HEADER_INDEX; GetUint64Bytes chainID; hash].
Definition main_key (chainID height : Z) : bytes := hs_key [MAIN_CHAIN; GetUint64Bytes chainID; GetUint64Bytes height].
Definition current_key (chainID : Z) : bytes := hs_key [CURRENT_HEADER_HEIGHT; GetUint64Bytes chainID].

Section header_sync.
Context `{Hasher} `{Crypto} (cfg : Config).

(** ** Notifications *)

Definition NotifyPutHeader (chainID height : Z) (blockHash : bytes) : contract NativeService unit :=
  if negb (EnableEventLog cfg) then mret tt else
  h ← cask ns_height;
  AddNotify (mkNotify HeaderSyncContractAddress
    [NStr SYNC_HEADER_NAME; NInt chainID; NInt height; NStr blockHash; NInt h]).

Definition NotifyPutCrossChainMsg (chainID height : Z) : contract NativeService unit :=
  if negb (EnableEventLog cfg) then mret tt else
  h ← cask ns_height;
  AddNotify (mkNotify HeaderSyncContractAddress [NStr SYNC_CROSSCHAIN_MSG; NInt chainID; NInt height; NInt h]).

(** ** Routing *)

Record HeaderSyncHandler := mkHeaderSyncHandler {
  hh_SyncGenesisHeader : contract NativeService unit;
  hh_SyncBlockHeader : contract NativeService unit;
  hh_SyncCrossChainMsg : contract NativeService unit;
}.
Class HeaderHandlers := header_handler : Z → HeaderSyncHandler.   (* of a router *)

(** The routers with a handler for headers. *)
Definition header_routers : list Z :=
  [BTC_ROUTER; ETH_ROUTER; ONT_ROUTER; NEO_ROUTER; NEO3_ROUTER; NEO3_LEGACY_ROUTER; COSMOS_ROUTER; QUORUM_ROUTER; BSC_ROUTER;
   HECO_ROUTER; ZILLIQA_LEGACY_ROUTER; ZILLIQA_ROUTER; MSC_ROUTER; OKEX_ROUTER; POLYGON_HEIMDALL_ROUTER; POLYGON_BOR_ROUTER;
   PIXIECHAIN_ROUTER; STARCOIN_ROUTER; HSC_ROUTER; HARMONY_ROUTER; BYTOM_ROUTER].

Context `{!HeaderHandlers}.

Definition hs_GetChainHandler (router : Z) : res HeaderSyncHandler :=
  if decide (router ∈ header_routers) then Ok (header_handler router) else Err "not a supported router".

(** The handler of a registered chain whose router has started. *)
Definition chain_handler (name : string) (chainID : Z) : contract NativeService HeaderSyncHandler :=
  sideChain ← cwrap (name +:+ ", side_chain_manager.GetSideChain error: ") (GetSideChain chainID);
  match sideChain with
  | None => CFail (name +:+ ", side chain is not registered")
  | Some sideChain =>
      handler ← lift_res (hs_GetChainHandler (Router sideChain));
      height ← cask ns_height;
      lift_res (CheckRouterStartBlock cfg (Router sideChain) height) ;;
      mret handler
  end.

Definition hs_SyncGenesisHeader : Handler :=
  params ← input_as (A := SyncGenesisHeaderParam) "SyncGenesisHeader, contract params deserialize error: ";
  handler ← chain_handler "SyncGenesisHeader" (sg_ChainID params);
  hh_SyncGenesisHeader handler ;;
  mret BYTE_TRUE.

Definition hs_SyncBlockHeader : Handler :=
  params ← input_as (A := SyncBlockHeaderParam) "SyncBlockHeader, contract params deserialize error: ";
  handler ← chain_handler "SyncBlockHeader" (sb_ChainID params);
  hh_SyncBlockHeader handler ;;
  mret BYTE_TRUE.

Definition hs_SyncCrossChainMsg : Handler :=
  params ← input_as (A := SyncCrossChainMsgParam) "SyncCrossChainMsg, contract params deserialize error: ";
  handler ← chain_handler "SyncCrossChainMsg" (sm_ChainID params);
  hh_SyncCrossChainMsg handler ;;
  mret BYTE_TRUE.

Definition RegisterHeaderSyncContract : list (bytes * Handler) :=
  [(SYNC_GENESIS_HEADER, hs_SyncGenesisHeader); (SYNC_BLOCK_HEADER, hs_SyncBlockHeader);
   (SYNC_CROSS_CHAIN_MSG, hs_SyncCrossChainMsg)].

End header_sync.

(** ** Keys of different kinds and chains differ *)

Lemma hs_key_inj a b : hs_key a = hs_key b → mjoin a = mjoin b.
Proof. apply app_inv_head. Qed.

Lemma GetUint64Bytes_inj x y : is_u64 x → is_u64 y → GetUint64Bytes x = GetUint64Bytes y → x = y.
Proof. intros. by apply (le_put_inj 8). Qed.

Lemma header_key_inj c (h h' : bytes) : header_key c h = header_key c h' → h = h'.
Proof.
  intros E%hs_key_inj. change (HEADER_INDEX ++ GetUint64Bytes c ++ h ++ [] = HEADER_INDEX ++ GetUint64Bytes c ++ h' ++ []) in E.
  do 2 apply app_inv_head in E. by rewrite !app_nil_r in E.
Qed.
Lemma main_key_inj c i j : is_u64 i → is_u64 j → main_key c i = main_key c j → i = j.
Proof.
  intros Hi Hj E%hs_key_inj.
  change (MAIN_CHAIN ++ GetUint64Bytes c ++ GetUint64Bytes i ++ [] = MAIN_CHAIN ++ GetUint64Bytes c ++ GetUint64Bytes j ++ []) in E.
  do 2 apply app_inv_head in E. rewrite !app_nil_r in E. by apply GetUint64Bytes_inj.
Qed.

Ltac key_ne := let E := fresh in intros E%hs_key_inj; cbn in E; discriminate E.
Lemma header_ne_main c h i : header_key c h ≠ main_key c i.
Proof. key_ne. Qed.
Lemma header_ne_current c h : header_key c h ≠ current_key c.
Proof. key_ne. Qed.
Lemma header_ne_genesis c h : header_key c h ≠ genesis_key c.
Proof. key_ne. Qed.
Lemma main_ne_current c i : main_key c i ≠ current_key c.
Proof. key_ne. Qed.
Lemma main_ne_genesis c i : main_key c i ≠ genesis_key c.
Proof. key_ne. Qed.
Lemma current_ne_genesis c : current_key c ≠ genesis_key c.
Proof. key_ne. Qed.
Create HintDb hskeys.
#[export] Hint Resolve header_ne_main header_ne_current header_ne_genesis main_ne_current main_ne_genesis current_ne_genesis not_eq_sym : hskeys.
