(* ===== verification/HeaderTree.v ===== *)
(** * Trees of block headers and their heaviest branch

    The specification of a light client: the headers known of a chain form a tree
    that grows from the genesis header; the head is a header with the greatest
    total difficulty, and the main chain is the branch that ends in it.  PoaChain
    and EthChain show that the contracts implement it. *)

From S2P Require Import Prelude Sha256.

(** What the tree needs of a header: its parent's hash, its height and its total
    difficulty. *)
Class HeaderNode (A : Type) := {
  nd_parent : A → Uint256;
  nd_number : A → Z;
  nd_td : A → Z;
}.

Section tree.
Context `{HeaderNode A}.
Implicit Types (T : gmap Uint256 A) (g h a b : Uint256) (n p x : A).

Record tree_wf T g : Prop := mkTreeWf {
  wf_root : is_Some (T !! g);
  wf_step : ∀ h n, T !! h = Some n → h ≠ g →
    ∃ p, T !! nd_parent n = Some p ∧ nd_number n = nd_number p + 1 ∧ nd_td p < nd_td n;
  wf_above : ∀ h n p, T !! h = Some n → T !! g = Some p → h ≠ g → nd_number p < nd_number n;
}.

(** [a] is [h] or one of its ancestors. *)
Inductive anc T g : Uint256 → Uint256 → Prop :=
  | anc_refl h n : T !! h = Some n → anc T g h h
  | anc_up h n a : T !! h = Some n → h ≠ g → anc T g (nd_parent n) a → anc T g h a.

(** The header at height [i] of the branch that ends in [h]. *)
Definition at_height T g h (i : Z) a : Prop := anc T g h a ∧ ∃ n, T !! a = Some n ∧ nd_number n = i.

Lemma anc_mem_l T g h a : anc T g h a → is_Some (T !! h).
Proof. by destruct 1; eexists. Qed.
Lemma anc_mem_r T g h a : anc T g h a → is_Some (T !! a).
Proof. induction 1; [by eexists|done]. Qed.
Lemma anc_trans T g h a b : anc T g h a → anc T g a b → anc T g h b.
Proof. induction 1; [done|]. intros. eapply anc_up; eauto. Qed.

Lemma anc_root T g h : tree_wf T g → is_Some (T !! h) → anc T g h g.
Proof.
  intros Hwf. destruct (wf_root _ _ Hwf) as [r Hr]. intros [n Hn].
  remember (Z.to_nat (nd_number n - nd_number r)) as k eqn:Hk. revert h n Hn Hk.
  induction k as [|k IH]; intros h n Hn Hk; destruct (decide (h = g)) as [->|Hne]; [by eapply anc_refl| |by eapply anc_refl|].
  - pose proof (wf_above _ _ Hwf _ _ _ Hn Hr Hne). lia.
  - destruct (wf_step _ _ Hwf _ _ Hn Hne) as (p & Hp & Hnum & _). eapply anc_up; [done..|]. apply (IH _ p Hp).
    pose proof (wf_above _ _ Hwf _ _ _ Hn Hr Hne). lia.
Qed.

Lemma anc_number T g h a n x : tree_wf T g → anc T g h a → T !! h = Some n → T !! a = Some x →
  nd_number x ≤ nd_number n ∧ (nd_number x = nd_number n → a = h).
Proof.
  intros Hwf Ha. revert n. induction Ha as [h m Hm|h m a Hm Hne Ha IH]; intros n Hn Hx.
  - assert (x = n) as -> by congruence. split; [lia|done].
  - assert (m = n) as -> by congruence. destruct (wf_step _ _ Hwf _ _ Hn Hne) as (p & Hp & Hnum & _). destruct (IH p Hp Hx). split; [lia|]. lia.
Qed.

(** Two ancestors of the same header are ancestors of each other. *)
Lemma anc_linear T g h a b : anc T g h a → anc T g h b → anc T g a b ∨ anc T g b a.
Proof.
  induction 1 as [h m Hm|h m a Hm Hne Ha IH]; intros Hb; [by left|].
  inversion Hb as [h' n' Hn' E1 E2|h' n' b' Hn' Hne' Hb' E1 E2]; simplify_eq.
  - right. eapply anc_up; eauto.
  - by apply IH.
Qed.

Lemma at_height_unique T g h i a b : tree_wf T g → at_height T g h i a → at_height T g h i b → a = b.
Proof.
  intros Hwf (Ha & n & Hn & <-) (Hb & m & Hm & E).
  destruct (anc_linear _ _ _ _ _ Ha Hb) as [Hl|Hl].
  - symmetry. by apply (anc_number _ _ _ _ _ _ Hwf Hl Hn Hm).
  - by apply (anc_number _ _ _ _ _ _ Hwf Hl Hm Hn).
Qed.

Lemma at_height_self T g h n : T !! h = Some n → at_height T g h (nd_number n) h.
Proof. intros Hn. split; [by eapply anc_refl|]. by exists n. Qed.

Lemma at_height_total T g h n r i : tree_wf T g → T !! h = Some n → T !! g = Some r →
  nd_number r ≤ i ≤ nd_number n → ∃ a, at_height T g h i a.
Proof.
  intros Hwf Hn Hr Hi. remember (Z.to_nat (nd_number n - i)) as k eqn:Hk. revert h n Hn Hi Hk.
  induction k as [|k IH]; intros h n Hn Hi Hk.
  - exists h. replace i with (nd_number n) by lia. by apply at_height_self.
  - destruct (decide (h = g)) as [->|Hne]; [simplify_eq; lia|].
    destruct (wf_step _ _ Hwf _ _ Hn Hne) as (p & Hp & Hnum & _).
    destruct (IH _ p Hp) as (a & Ha & Hx); [lia|lia|]. exists a. split; [by eapply anc_up|done].
Qed.

(** Heights of a branch lie between the root and its end. *)
Lemma at_height_range T g h n r i a : tree_wf T g → T !! h = Some n → T !! g = Some r →
  at_height T g h i a → nd_number r ≤ i ≤ nd_number n.
Proof.
  intros Hwf Hn Hr (Ha & x & Hx & <-). destruct (anc_number _ _ _ _ _ _ Hwf Ha Hn Hx) as [? _]. split; [|done].
  destruct (decide (a = g)) as [->|Hne]; [simplify_eq; lia|]. pose proof (wf_above _ _ Hwf _ _ _ Hx Hr Hne). lia.
Qed.

Lemma at_height_root T g h r a : tree_wf T g → T !! g = Some r → at_height T g h (nd_number r) a → a = g.
Proof.
  intros Hwf Hr (Ha & x & Hx & E). destruct (decide (a = g)) as [|Hne]; [done|].
  pose proof (wf_above _ _ Hwf _ _ _ Hx Hr Hne). lia.
Qed.

(** Branches that share a header share everything below it. *)
Lemma at_height_below T g h a i j b : tree_wf T g → at_height T g h i a → j ≤ i → at_height T g h j b ↔ at_height T g a j b.
Proof.
  intros Hwf (Ha & n & Hn & <-) Hj. split; intros (Hb & x & Hx & <-).
  - split; [|by exists x]. destruct (anc_linear _ _ _ _ _ Ha Hb) as [|Hl]; [done|].
    destruct (anc_number _ _ _ _ _ _ Hwf Hl Hx Hn) as [? Heq]. rewrite (Heq ltac:(lia)). by eapply anc_refl.
  - split; [by eapply anc_trans|by exists x].
Qed.

Lemma at_height_agree T g h h' a i j b : tree_wf T g → at_height T g h i a → at_height T g h' i a → j ≤ i →
  at_height T g h j b ↔ at_height T g h' j b.
Proof. intros Hwf H1 H2 Hj. by rewrite (at_height_below _ _ _ _ _ _ _ Hwf H1 Hj), (at_height_below _ _ _ _ _ _ _ Hwf H2 Hj). Qed.

Lemma at_height_parent T g h i a n : tree_wf T g → at_height T g h i a → T !! a = Some n → a ≠ g →
  at_height T g h (i - 1) (nd_parent n).
Proof.
  intros Hwf (Ha & x & Hx & <-) Hn Hne. assert (x = n) as -> by congruence. destruct (wf_step _ _ Hwf _ _ Hn Hne) as (p & Hp & Hnum & _).
  split; [|exists p; split; [done|lia]]. eapply anc_trans; [done|]. eapply anc_up; [done..|]. by eapply anc_refl.
Qed.

(** ** Growing the tree *)

Section insert.
Context (T : gmap Uint256 A) (g h : Uint256) (x p : A).
Context (Hwf : tree_wf T g) (Hnew : T !! h = None).
Context (Hp : T !! nd_parent x = Some p) (Hnum : nd_number x = nd_number p + 1) (Htd : nd_td p < nd_td x).

Lemma insert_ne_root : h ≠ g.
Proof using Hwf Hnew. intros ->. destruct (wf_root _ _ Hwf). congruence. Qed.

Lemma tree_wf_insert : tree_wf (<[h := x]> T) g.
Proof using All.
  pose proof insert_ne_root as Hg. split.
  - rewrite lookup_insert_ne by done. apply Hwf.
  - intros k n Hk Hkg. destruct (decide (k = h)) as [->|Hkh].
    + rewrite lookup_insert_eq in Hk. simplify_eq. exists p. rewrite lookup_insert_ne by congruence. done.
    + rewrite lookup_insert_ne in Hk by done. destruct (wf_step _ _ Hwf _ _ Hk Hkg) as (q & Hq & ?). exists q.
      rewrite lookup_insert_ne by congruence. done.
  - intros k n r Hk Hr Hkg. rewrite lookup_insert_ne in Hr by done. destruct (decide (k = h)) as [->|Hkh].
    + rewrite lookup_insert_eq in Hk. simplify_eq. rewrite Hnum. destruct (decide (nd_parent n = g)) as [E|Hpg].
      * rewrite E in Hp. simplify_eq. lia.
      * pose proof (wf_above _ _ Hwf _ _ _ Hp Hr Hpg). lia.
    + rewrite lookup_insert_ne in Hk by done. by apply (wf_above _ _ Hwf _ _ _ Hk).
Qed.

(** Branches that were there do not change. *)
Lemma anc_insert_old k a : is_Some (T !! k) → anc (<[h := x]> T) g k a ↔ anc T g k a.
Proof using Hwf Hnew.
  intros Hk. split.
  - intros Ha. revert Hk. induction Ha as [k n Hn|k n a Hn Hne Ha IH]; intros [m Hm].
    + by eapply anc_refl.
    + rewrite lookup_insert_ne in Hn by congruence. simplify_eq. eapply anc_up; [done..|]. apply IH.
      destruct (wf_step _ _ Hwf _ _ Hn Hne) as (q & -> & _). done.
  - induction 1 as [k n Hn|k n a Hn Hne Ha IH].
    + eapply anc_refl. rewrite lookup_insert_ne by congruence. done.
    + eapply anc_up; [rewrite lookup_insert_ne by congruence; done|done|]. apply IH. by eapply anc_mem_l.
Qed.

Lemma at_height_insert_old k i a : is_Some (T !! k) → at_height (<[h := x]> T) g k i a ↔ at_height T g k i a.
Proof using Hwf Hnew.
  intros Hk. unfold at_height. rewrite anc_insert_old by done. split; intros (Ha & n & Hn & E); (split; [done|]); exists n.
  - rewrite lookup_insert_ne in Hn; [done|]. intros ->. destruct (anc_mem_r _ _ _ _ Ha). congruence.
  - rewrite lookup_insert_ne; [done|]. intros ->. congruence.
Qed.

(** The new branch is its parent's branch and the new header. *)
Lemma at_height_insert_new i a :
  at_height (<[h := x]> T) g h i a ↔ (a = h ∧ i = nd_number x) ∨ at_height T g (nd_parent x) i a.
Proof using All.
  rewrite <- (at_height_insert_old (nd_parent x)) by done. split.
  - intros (Ha & n & Hn & <-). inversion Ha as [k m Hm E1 E2|k m b Hm Hne Hb E1 E2]; subst.
    + left. rewrite lookup_insert_eq in Hn. by simplify_eq.
    + right. rewrite lookup_insert_eq in Hm. simplify_eq. split; [done|by exists n].
  - intros [[-> ->]|(Ha & n & Hn & E)].
    + apply at_height_self. by rewrite lookup_insert_eq.
    + split; [|by exists n]. eapply anc_up; [by rewrite lookup_insert_eq|apply insert_ne_root|done].
Qed.

End insert.

(** ** The light client *)

Record lightclient := mkLightclient { lc_tree : gmap Uint256 A; lc_root : Uint256; lc_head : Uint256 }.

(** The main chain: the branch of the head. *)
Definition main_chain (l : lightclient) (i : Z) (a : Uint256) : Prop := at_height (lc_tree l) (lc_root l) (lc_head l) i a.

Definition td_of (l : lightclient) (h : Uint256) : Z := from_option nd_td 0 (lc_tree l !! h).

Record lc_ok (l : lightclient) : Prop := mkLcOk {
  lc_wf : tree_wf (lc_tree l) (lc_root l);
  lc_head_in : is_Some (lc_tree l !! lc_head l);
  lc_heaviest : ∀ h n, lc_tree l !! h = Some n → nd_td n ≤ td_of l (lc_head l);
}.

(** A new header: it becomes the head only if it is heavier. *)
Definition lc_add (h : Uint256) (x : A) (l : lightclient) : lightclient :=
  mkLightclient (<[h := x]> (lc_tree l)) (lc_root l) (if decide (td_of l (lc_head l) < nd_td x) then h else lc_head l).

(** A header that fits: unknown, on top of a known one. *)
Definition fits_on (l : lightclient) (h : Uint256) (x : A) : Prop :=
  lc_tree l !! h = None ∧ ∃ p, lc_tree l !! nd_parent x = Some p ∧ nd_number x = nd_number p + 1 ∧ nd_td p < nd_td x.

Lemma lc_add_ok l h x : lc_ok l → fits_on l h x → lc_ok (lc_add h x l).
Proof.
  intros [Hwf [n Hn] Hmax] (Hnew & p & Hp & Hnum & Htd). unfold lc_add. split; cbn [lc_tree lc_root lc_head].
  - by apply (tree_wf_insert _ _ _ x p).
  - case_decide; [by rewrite lookup_insert_eq|]. rewrite lookup_insert_ne by congruence. by eexists.
  - unfold td_of in *. cbn [lc_tree]. rewrite Hn in Hmax. rewrite Hn. cbn in *. intros k m Hk.
    destruct (decide (nd_td n < nd_td x)) as [Hd|Hd].
    + rewrite lookup_insert_eq. cbn. destruct (decide (k = h)) as [->|Hne]; [rewrite lookup_insert_eq in Hk; by simplify_eq|].
      rewrite lookup_insert_ne in Hk by done. pose proof (Hmax _ _ Hk). lia.
    + rewrite (lookup_insert_ne _ h (lc_head l)) by congruence. rewrite Hn. cbn.
      destruct (decide (k = h)) as [->|Hne]; [rewrite lookup_insert_eq in Hk; simplify_eq; lia|].
      rewrite lookup_insert_ne in Hk by done. by apply Hmax in Hk.
Qed.

(** What becomes of the main chain. *)
Lemma lc_add_main l h x i a : lc_ok l → fits_on l h x →
  main_chain (lc_add h x l) i a ↔
  if decide (td_of l (lc_head l) < nd_td x)
  then (a = h ∧ i = nd_number x) ∨ at_height (lc_tree l) (lc_root l) (nd_parent x) i a
  else main_chain l i a.
Proof.
  intros [Hwf [n Hn] Hmax] (Hnew & p & Hp & Hnum & Htd). unfold main_chain, lc_add. cbn [lc_tree lc_root lc_head].
  case_decide.
  - by apply (at_height_insert_new _ _ _ x p).
  - apply at_height_insert_old; [done..|by eexists].
Qed.

(** The light client that knows one header. *)
Definition lc_single (h : Uint256) (x : A) : lightclient := mkLightclient {[ h := x ]} h h.

Lemma lc_single_ok h x : lc_ok (lc_single h x).
Proof.
  split; unfold lc_single, td_of; cbn.
  - split.
    + by rewrite lookup_singleton_eq.
    + intros k n [<- _]%lookup_singleton_Some. done.
    + intros k n p [<- _]%lookup_singleton_Some. done.
  - by rewrite lookup_singleton_eq.
  - intros k n [<- <-]%lookup_singleton_Some. rewrite lookup_singleton_eq. cbn. lia.
Qed.

Lemma lc_single_main h x i a : main_chain (lc_single h x) i a ↔ a = h ∧ i = nd_number x.
Proof.
  split.
  - intros (_ & n & Hn & <-). cbn in Hn. by apply lookup_singleton_Some in Hn as [<- <-].
  - intros [-> ->]. refine (at_height_self (lc_tree (lc_single h x)) _ _ x _). cbn. by rewrite lookup_singleton_eq.
Qed.

End tree.
Arguments lightclient : clear implicits.
