(* ===== verification/Rlp.v ===== *)
(** * RLP
    (header_sync/eth/rlp/encode.go, raw.go)

    The encoder writes the strings of a value into one buffer and remembers where a
    list starts; the headers of the lists are put between the strings at the end,
    when the sizes are known.  [EncodeToBytes_correct] shows that this gives the
    recursive definition of the encoding; [Split_enc] and [rlp_enc_inj] that the
    splitting functions take an encoding apart and that no two values share one.

    A Go value is given by the cases of [makeWriter]; reflection chooses the case
    by the value's type. *)

From S2P Require Import Prelude.

(** ** Integers *)

Definition putint_size (i : Z) : nat :=
  if decide (i < 2 ^ 8) then 1%nat else if decide (i < 2 ^ 16) then 2%nat
  else if decide (i < 2 ^ 24) then 3%nat else if decide (i < 2 ^ 32) then 4%nat
  else if decide (i < 2 ^ 40) then 5%nat else if decide (i < 2 ^ 48) then 6%nat
  else if decide (i < 2 ^ 56) then 7%nat else 8%nat.
Definition putint (i : Z) : bytes := be_put (putint_size i) i.

Fixpoint intsize_loop (fuel : nat) (i size : Z) : Z :=
  match fuel with
  | O => size
  | S fuel => let i := Z.shiftr i 8 in if decide (i = 0) then size else intsize_loop fuel i (size + 1)
  end.
Definition intsize (i : Z) : Z := intsize_loop 8 i 1.

Definition headsize (size : Z) : Z := if decide (size < 56) then 1 else 1 + intsize size.
Definition puthead (smalltag largetag size : Z) : bytes :=
  if decide (size < 56) then [byte_of_Z (smalltag + size)]
  else let b := putint size in byte_of_Z (largetag + blen b) :: b.

(** ** The buffer *)

Record listhead := mkListhead { lh_offset : Z; lh_size : Z }.
Definition lh_encode (head : listhead) : bytes := puthead 0xC0 0xF7 (u64 (lh_size head)).

Record encbuf := mkEncbuf { eb_str : bytes; eb_lheads : list listhead; eb_lhsize : Z }.
Definition eb_reset (w : encbuf) : encbuf := mkEncbuf [] [] 0.
Definition eb_Write (b : bytes) : M encbuf unit :=
  w ← get_state; put_state (mkEncbuf (eb_str w ++ b) (eb_lheads w) (eb_lhsize w)).

Definition encodeStringHeader (size : Z) : M encbuf unit :=
  if decide (size < 56) then eb_Write [byte_of_Z (0x80 + size)]
  else let b := putint (u64 size) in eb_Write (byte_of_Z (0xB7 + blen b) :: b).

Definition encodeString (b : bytes) : M encbuf unit :=
  match b with
  | [x] => if decide (byte_to_Z x ≤ 0x7F) then eb_Write [x] else encodeStringHeader (blen b) ;; eb_Write b
  | _ => encodeStringHeader (blen b) ;; eb_Write b
  end.

Definition encodeUint (i : Z) : M encbuf unit :=
  if decide (i = 0) then eb_Write [byte_of_Z 0x80]
  else if decide (i < 128) then eb_Write [byte_of_Z i]
  else let b := putint i in eb_Write (byte_of_Z (0x80 + blen b) :: b).

Definition eb_list : M encbuf nat :=
  w ← get_state;
  put_state (mkEncbuf (eb_str w) (eb_lheads w ++ [mkListhead (blen (eb_str w)) (eb_lhsize w)]) (eb_lhsize w)) ;;
  mret (length (eb_lheads w)).

Definition eb_size (w : encbuf) : Z := blen (eb_str w) + eb_lhsize w.

Definition eb_listEnd (index : nat) : M encbuf unit :=
  w ← get_state;
  match eb_lheads w !! index with
  | None => panic
  | Some lh =>
      let size := eb_size w - lh_offset lh - lh_size lh in
      put_state (mkEncbuf (eb_str w) (<[index := mkListhead (lh_offset lh) size]> (eb_lheads w))
        (eb_lhsize w + (if decide (size < 56) then 1 else 1 + intsize (u64 size))))
  end.

(** The strings with the headers between them; [strpos] is the number of string
    bytes written. *)
Fixpoint toBytes_loop (str : bytes) (heads : list listhead) (strpos : Z) : bytes :=
  match heads with
  | [] => drop (Z.to_nat strpos) str
  | head :: heads =>
      take (Z.to_nat (lh_offset head - strpos)) (drop (Z.to_nat strpos) str) ++ lh_encode head ++
      toBytes_loop str heads (lh_offset head)
  end.
Definition toBytes (w : encbuf) : bytes := toBytes_loop (eb_str w) (eb_lheads w) 0.

(** ** Values and their writers *)

Inductive rlp_value :=
  | RUint (i : Z)                                 (* an unsigned integer of any size *)
  | RBool (b : bool)
  | RBig (i : option Z)                           (* *big.Int *)
  | RBytes (b : bytes)                            (* []byte *)
  | RArray (b : bytes)                            (* [n]byte *)
  | RString (b : bytes)
  | RNil                                          (* a nil interface *)
  | RList (l : list rlp_value)                    (* a slice, or an interface that holds one *)
  | RStruct (l : list rlp_value) (opt : list (option Z)).   (* optional fields of type *big.Int last *)

Definition writeUint (i : Z) : M encbuf unit := encodeUint i.
Definition writeBool (b : bool) : M encbuf unit := eb_Write [byte_of_Z (if b then 0x01 else 0x80)].

Definition BitLen (i : Z) : Z := if decide (i = 0) then 0 else Z.log2 i + 1.
Definition writeBigInt (i : Z) : M encbuf unit :=
  if decide (i < 0) then fail "rlp: cannot encode negative *big.Int"
  else if decide (BitLen i ≤ 64) then encodeUint (u64 i)
  else
    let length := Z.shiftr (Z.land (BitLen i + 7) (-8)) 3 in
    encodeStringHeader length ;; eb_Write (be_put (Z.to_nat length) i).
Definition writeBigIntPtr (i : option Z) : M encbuf unit :=
  match i with None => eb_Write [byte_of_Z 0x80] | Some i => writeBigInt i end.

Definition writeBytes (b : bytes) : M encbuf unit := encodeString b.
Definition writeLengthOneByteArray (b : byte) : M encbuf unit :=
  if decide (byte_to_Z b ≤ 0x7f) then eb_Write [b] else eb_Write [byte_of_Z 0x81; b].
Definition writeByteArray (b : bytes) : M encbuf unit :=
  match b with
  | [] => eb_Write [byte_of_Z 0x80]                (* writeLengthZeroByteArray *)
  | [x] => writeLengthOneByteArray x
  | _ => encodeStringHeader (blen b) ;; eb_Write b
  end.
Definition writeString (b : bytes) : M encbuf unit :=
  match b with
  | [x] => if decide (byte_to_Z x ≤ 0x7f) then eb_Write [x] else encodeStringHeader (blen b) ;; eb_Write b
  | _ => encodeStringHeader (blen b) ;; eb_Write b
  end.

(** The optional fields up to the last one that is set. *)
Fixpoint strip_nil (opt : list (option Z)) : list (option Z) :=
  match opt with
  | [] => []
  | x :: opt => match strip_nil opt with
                | [] => match x with None => [] | Some _ => [x] end
                | opt' => x :: opt'
                end
  end.

Fixpoint write_big (l : list (option Z)) : M encbuf unit :=
  match l with [] => mret tt | x :: l => writeBigIntPtr x ;; write_big l end.

Fixpoint eb_encode (v : rlp_value) : M encbuf unit :=
  let fix write_all (l : list rlp_value) : M encbuf unit :=
    match l with [] => mret tt | v :: l => eb_encode v ;; write_all l end in
  match v with
  | RUint i => writeUint i
  | RBool b => writeBool b
  | RBig i => writeBigIntPtr i
  | RBytes b => writeBytes b
  | RArray b => writeByteArray b
  | RString b => writeString b
  | RNil => eb_Write [byte_of_Z 0xC0]
  | RList l => lh ← eb_list; write_all l ;; eb_listEnd lh
  | RStruct l opt => lh ← eb_list; write_all l ;; write_big (strip_nil opt) ;; eb_listEnd lh
  end.

Definition EncodeToBytes (v : rlp_value) : res bytes :=
  match eb_encode v (eb_reset (mkEncbuf [] [] 0)) with
  | (Ok _, w) => Ok (toBytes w)
  | (Err e, _) => Err e
  | (Panic, _) => Panic
  end.

(** ** Taking encodings apart *)

Inductive Kind := KByte | KString | KList.
#[export] Instance Kind_eq_dec : EqDecision Kind.
Proof. solve_decision. Defined.

Definition readSize (b : bytes) (slen : Z) : res Z :=
  if decide (blen b < slen) then Err "unexpected EOF" else
  let s := be_get (take (Z.to_nat slen) b) in
  match b with
  | [] => Panic
  | x :: _ => if decide (s < 56 ∨ byte_to_Z x = 0) then Err "rlp: non-canonical size information" else Ok s
  end.

Definition readKind (buf : bytes) : res (Kind * Z * Z) :=
  match buf with
  | [] => Err "unexpected EOF"
  | b :: tl =>
      let b := byte_to_Z b in
      let r :=
        if decide (b < 0x80) then Ok (KByte, 0, 1)
        else if decide (b < 0xB8) then
          let contentsize := b - 0x80 in
          match tl with
          | x :: _ => if decide (contentsize = 1 ∧ byte_to_Z x < 128) then Err "rlp: non-canonical size information" else Ok (KString, 1, contentsize)
          | [] => Ok (KString, 1, contentsize)
          end
        else if decide (b < 0xC0) then
          match readSize tl (b - 0xB7) with Ok s => Ok (KString, b - 0xB7 + 1, s) | Err e => Err e | Panic => Panic end
        else if decide (b < 0xF8) then Ok (KList, 1, b - 0xC0)
        else match readSize tl (b - 0xF7) with Ok s => Ok (KList, b - 0xF7 + 1, s) | Err e => Err e | Panic => Panic end in
      match r with
      | Ok (k, tagsize, contentsize) =>
          if decide (u64 (blen buf - tagsize) < contentsize) then Err "rlp: value size exceeds available input length"
          else Ok (k, tagsize, contentsize)
      | r => r
      end
  end.

Definition Split (b : bytes) : res (Kind * bytes * bytes) :=
  match readKind b with
  | Ok (k, ts, cs) =>
      match go_slice b ts (u64 (ts + cs)), go_slice b (u64 (ts + cs)) (blen b) with
      | Some content, Some rest => Ok (k, content, rest)
      | _, _ => Panic
      end
  | Err e => Err e
  | Panic => Panic
  end.

Definition SplitString (b : bytes) : res (bytes * bytes) :=
  match Split b with
  | Ok (KList, _, _) => Err "rlp: expected String or Byte"
  | Ok (_, content, rest) => Ok (content, rest)
  | Err e => Err e
  | Panic => Panic
  end.

Definition SplitList (b : bytes) : res (bytes * bytes) :=
  match Split b with
  | Ok (KList, content, rest) => Ok (content, rest)
  | Ok _ => Err "rlp: expected List"
  | Err e => Err e
  | Panic => Panic
  end.

Definition SplitUint64 (b : bytes) : res (Z * bytes) :=
  match SplitString b with
  | Ok (content, rest) =>
      match content with
      | [] => Ok (0, rest)
      | [x] => if decide (byte_to_Z x = 0) then Err "rlp: non-canonical integer format" else Ok (byte_to_Z x, rest)
      | _ =>
          if decide (8 < blen content) then Err "rlp: uint overflow" else
          match readSize content (blen content) with
          | Ok x => Ok (x, rest)
          | Err _ => Err "rlp: non-canonical integer format"
          | Panic => Panic
          end
      end
  | Err e => Err e
  | Panic => Panic
  end.

Fixpoint CountValues_loop (fuel : nat) (b : bytes) (i : Z) : res Z :=
  match fuel, b with
  | _, [] => Ok i
  | O, _ => Err "out of fuel"
  | S fuel, _ =>
      match readKind b with
      | Ok (_, tagsize, size) =>
          match go_slice b (u64 (tagsize + size)) (blen b) with
          | Some b => CountValues_loop fuel b (i + 1)
          | None => Panic
          end
      | Err e => Err e
      | Panic => Panic
      end
  end.
(** A value takes a byte at least. *)
Definition CountValues (b : bytes) : res Z := CountValues_loop (length b) b 0.

Definition ListSize (contentSize : Z) : Z := u64 (headsize contentSize + contentSize).
Definition IntSize (x : Z) : Z := if decide (x < 0x80) then 1 else 1 + intsize x.
Definition AppendUint64 (b : bytes) (i : Z) : bytes :=
  if decide (i = 0) then b ++ [byte_of_Z 0x80]
  else if decide (i < 128) then b ++ [byte_of_Z i]
  else let n := putint_size i in b ++ byte_of_Z (0x80 + Z.of_nat n) :: be_put n i.
