(* ===== verification/RlpSpec.v ===== *)
(** * Correctness of RLP

    The encoding as it is usually defined, by recursion on nested lists of strings,
    and that the encoder of Rlp computes it, the splitting functions invert it and
    different items have different encodings. *)

From S2P Require Import Prelude Rlp.

Arguments intsize : simpl never.

(** ** The encoding *)

Inductive rlp_item := Str (b : bytes) | Lst (l : list rlp_item).

Definition enc_string (b : bytes) : bytes :=
  match b with
  | [x] => if decide (byte_to_Z x < 128) then [x] else puthead 0x80 0xB7 (blen b) ++ b
  | _ => puthead 0x80 0xB7 (blen b) ++ b
  end.

Fixpoint rlp_enc (it : rlp_item) : bytes :=
  match it with
  | Str b => enc_string b
  | Lst l => let c := mjoin (rlp_enc <$> l) in puthead 0xC0 0xF7 (blen c) ++ c
  end.

Lemma rlp_item_ind' (P : rlp_item → Prop) :
  (∀ b, P (Str b)) → (∀ l, Forall P l → P (Lst l)) → ∀ it, P it.
Proof.
  intros Hs Hl. fix IH 1. intros [b|l]; [apply Hs|apply Hl]. induction l as [|it l IHl]; constructor; [apply IH|done].
Qed.

(** The big-endian bytes of a number without leading zeros; none for zero. *)
Definition int_bytes (i : Z) : bytes := if decide (i = 0) then [] else be_put (Z.to_nat (Z.log2 i / 8 + 1)) i.

(** The item of a Go value. *)
Fixpoint item_of (v : rlp_value) : rlp_item :=
  match v with
  | RUint i => Str (int_bytes i)
  | RBool b => Str (if b then [byte_of_Z 1] else [])
  | RBig i => Str (int_bytes (default 0 i))
  | RBytes b | RArray b | RString b => Str b
  | RNil => Lst []
  | RList l => Lst (item_of <$> l)
  | RStruct l opt => Lst ((item_of <$> l) ++ ((λ i, Str (int_bytes (default 0 i))) <$> strip_nil opt))
  end.

(** Values of their types: integers of 64 bits, big integers that are not negative. *)
Fixpoint value_ok (v : rlp_value) : Prop :=
  match v with
  | RUint i => is_u64 i
  | RBig i => 0 ≤ default 0 i
  | RList l => (fix all l := match l with [] => True | v :: l => value_ok v ∧ all l end) l
  | RStruct l opt => (fix all l := match l with [] => True | v :: l => value_ok v ∧ all l end) l ∧ Forall (λ i, 0 ≤ default 0 i) opt
  | _ => True
  end.

(** ** Sizes *)

Lemma log2_byte i n : 0 < i → Z.log2 i / 8 = n ↔ 2 ^ (8 * n) ≤ i < 2 ^ (8 * (n + 1)).
Proof.
  intros Hi. pose proof (Z.log2_nonneg i). pose proof (Z.log2_spec i Hi) as [Hlo Hhi]. split.
  - intros <-. split.
    + etransitivity; [|exact Hlo]. apply Z.pow_le_mono_r; [lia|]. pose proof (Z.mul_div_le (Z.log2 i) 8). lia.
    + eapply Z.lt_le_trans; [exact Hhi|]. apply Z.pow_le_mono_r; [lia|].
      pose proof (Z.mul_succ_div_gt (Z.log2 i) 8). lia.
  - intros [H1 H2]. assert (0 ≤ n). { destruct (Z.le_gt_cases 0 n) as [|Hn]; [done|].
      assert (8 * (n + 1) ≤ 0) as Hm by lia. pose proof (Z.pow_le_mono_r 2 (8 * (n + 1)) 0 ltac:(lia) Hm). lia. }
    assert (8 * n ≤ Z.log2 i) by (apply Z.log2_le_pow2; lia).
    assert (Z.log2 i < 8 * (n + 1)) by (apply Z.log2_lt_pow2; lia). symmetry. apply (Z.div_unique _ _ _ (Z.log2 i - 8 * n)); lia.
Qed.

Lemma putint_size_log i : 0 < i < 2 ^ 64 → Z.of_nat (putint_size i) = Z.log2 i / 8 + 1.
Proof.
  intros Hi. unfold putint_size. repeat case_decide; cbn [Z.of_nat Pos.of_succ_nat];
    match goal with |- ?k = _ => symmetry; apply (Z.add_move_r _ 1 k), log2_byte; cbn; lia end.
Qed.

Lemma putint_size_le i : (1 ≤ putint_size i ≤ 8)%nat.
Proof. unfold putint_size. repeat case_decide; lia. Qed.

Lemma intsize_correct i : is_u64 i → intsize i = Z.of_nat (putint_size i).
Proof.
  intros [H0 H1]. assert (∀ n, 0 ≤ n → Z.shiftr i n = 0 ↔ i < 2 ^ n) as Hz.
  { intros n Hn. rewrite Z.shiftr_div_pow2 by done. pose proof (Z.pow_pos_nonneg 2 n).
    rewrite Z.div_small_iff by lia. lia. }
  unfold intsize, putint_size. cbn [intsize_loop]. rewrite !Z.shiftr_shiftr by lia. cbn [Z.add Pos.add].
  repeat case_decide; try lia;
    repeat match goal with
    | E : Z.shiftr i ?n = 0 |- _ => apply Hz in E; [|lia]
    | E : Z.shiftr i ?n ≠ 0 |- _ => rewrite Hz in E by lia
    end; cbn in *; lia.
Qed.

Lemma length_putint i : blen (putint i) = Z.of_nat (putint_size i).
Proof. unfold putint. by rewrite length_be_put. Qed.

Lemma length_puthead a b n : is_u64 n → blen (puthead a b n) = headsize n.
Proof.
  intros Hn. unfold puthead, headsize. case_decide; [done|]. cbn [length]. rewrite intsize_correct by done.
  pose proof (length_putint n). lia.
Qed.

Lemma puthead_le a b n : is_u64 n → blen (puthead a b n) ≤ 9.
Proof.
  intros Hn. rewrite length_puthead by done. unfold headsize. case_decide; [lia|]. rewrite intsize_correct by done.
  pose proof (putint_size_le n). lia.
Qed.

(** ** Strings *)

Definition write_to (w : encbuf) (b : bytes) : encbuf := mkEncbuf (eb_str w ++ b) (eb_lheads w) (eb_lhsize w).

Lemma eb_Write_run b w : eb_Write b w = (Ok tt, write_to w b).
Proof. done. Qed.
Lemma write_to_app w a b : write_to (write_to w a) b = write_to w (a ++ b).
Proof. unfold write_to. cbn. by rewrite app_assoc. Qed.
Lemma write_bind {A} b (k : M encbuf A) w : (eb_Write b ;; k) w = k (write_to w b).
Proof. done. Qed.

Lemma header_run n w : is_u64 n → encodeStringHeader n w = (Ok tt, write_to w (puthead 0x80 0xB7 n)).
Proof. intros Hn. unfold encodeStringHeader, puthead. case_decide; [done|]. by rewrite uwrap_small. Qed.

Lemma header_string_run b w : is_u64 (blen b) →
  (encodeStringHeader (blen b) ;; eb_Write b) w = (Ok tt, write_to w (puthead 0x80 0xB7 (blen b) ++ b)).
Proof.
  intros Hb. erewrite bind_ok by (by apply header_run). rewrite eb_Write_run, write_to_app. done.
Qed.

Lemma encodeString_run b w : is_u64 (blen b) → encodeString b w = (Ok tt, write_to w (enc_string b)).
Proof.
  intros Hb. unfold encodeString, enc_string. destruct b as [|x [|y b]]; [by apply header_string_run| |by apply header_string_run].
  destruct (decide (byte_to_Z x ≤ 0x7F)).
  - by rewrite decide_True by lia.
  - rewrite decide_False by lia. by apply header_string_run.
Qed.

Lemma writeByteArray_run b w : is_u64 (blen b) → writeByteArray b w = (Ok tt, write_to w (enc_string b)).
Proof.
  intros Hb. unfold writeByteArray, enc_string. destruct b as [|x [|y b]]; [done| |by apply header_string_run].
  unfold writeLengthOneByteArray. destruct (decide (byte_to_Z x ≤ 0x7f)).
  - by rewrite decide_True by lia.
  - by rewrite decide_False by lia.
Qed.

Lemma int_bytes_small i : 0 < i < 128 → int_bytes i = [byte_of_Z i].
Proof.
  intros Hi. unfold int_bytes. rewrite decide_False by lia. replace (Z.log2 i / 8) with 0; [done|].
  symmetry. apply log2_byte; [lia|]. cbn. lia.
Qed.

Lemma encodeUint_run i w : is_u64 i → encodeUint i w = (Ok tt, write_to w (enc_string (int_bytes i))).
Proof.
  intros [H0 H1]. unfold encodeUint. case_decide as E0; [by subst i|]. case_decide as E1.
  - rewrite int_bytes_small by lia. cbn. rewrite decide_True; [done|]. rewrite byte_to_of_Z, Z.mod_small; lia.
  - assert (int_bytes i = putint i) as Hb.
    { unfold int_bytes, putint. rewrite decide_False by done. f_equal. pose proof (putint_size_log i). lia. }
    rewrite Hb, eb_Write_run. f_equal. f_equal. pose proof (length_putint i) as Hl. pose proof (putint_size_le i).
    unfold enc_string. destruct (putint i) as [|x [|y b]] eqn:Ep; [cbn in Hl; lia| |].
    + rewrite decide_False; [done|]. assert (putint_size i = 1%nat) as Hs by (cbn in Hl; lia).
      assert (i < 256). { unfold putint_size in Hs. repeat case_decide; lia. }
      unfold putint in Ep. rewrite Hs in Ep. cbn in Ep. injection Ep as <-. rewrite byte_to_of_Z, Z.mod_small; lia.
    + unfold puthead. rewrite decide_True by (cbn in *; lia). done.
Qed.

Lemma bitlen_bytes i : 0 < i → Z.shiftr (Z.land (BitLen i + 7) (-8)) 3 = Z.log2 i / 8 + 1.
Proof.
  intros Hi. unfold BitLen. rewrite decide_False by lia. pose proof (Z.log2_nonneg i).
  change (-8) with (Z.lnot (Z.ones 3)). rewrite <- Z.ldiff_land, Z.ldiff_ones_r, Z.shiftr_shiftl_r, Z.sub_diag by lia.
  rewrite Z.shiftr_0_r, Z.shiftr_div_pow2 by lia. replace (Z.log2 i + 1 + 7) with (Z.log2 i + 1 * 2 ^ 3) by lia.
  by rewrite Z.div_add by lia.
Qed.

Lemma writeBigInt_run i w : 0 ≤ i → blen (int_bytes i) < 2 ^ 63 →
  writeBigInt i w = (Ok tt, write_to w (enc_string (int_bytes i))).
Proof.
  intros Hi Hl. unfold writeBigInt. rewrite decide_False by lia. case_decide as Hb.
  - assert (is_u64 i) as Hu.
    { split; [done|]. unfold BitLen in Hb. destruct (decide (i = 0)); [lia|]. apply Z.log2_lt_pow2; lia. }
    rewrite uwrap_small by done. by apply encodeUint_run.
  - assert (0 < i). { destruct (decide (i = 0)) as [->|]; [|lia]. exfalso. apply Hb. unfold BitLen. by rewrite decide_True. }
    rewrite bitlen_bytes by done. assert (int_bytes i = be_put (Z.to_nat (Z.log2 i / 8 + 1)) i) as E
      by (unfold int_bytes; by rewrite decide_False by lia).
    pose proof (Z.log2_nonneg i) as Hg. assert (8 ≤ Z.log2 i / 8).
    { unfold BitLen in Hb. rewrite decide_False in Hb by lia. apply Z.div_le_lower_bound; lia. }
    assert (blen (int_bytes i) = Z.log2 i / 8 + 1) as El by (rewrite E, length_be_put; lia).
    rewrite <- E, <- El, header_string_run by (split; lia). f_equal. f_equal. unfold enc_string.
    destruct (int_bytes i) as [|? [|??]]; [done| |done]. cbn in El. lia.
Qed.

Lemma writeBigIntPtr_run i w : 0 ≤ default 0 i → blen (int_bytes (default 0 i)) < 2 ^ 63 →
  writeBigIntPtr i w = (Ok tt, write_to w (enc_string (int_bytes (default 0 i)))).
Proof. destruct i as [i|]; intros; [by apply writeBigInt_run|done]. Qed.

(** ** Lists *)

Definition shift (k : Z) (H : list listhead) : list listhead := (λ h, mkListhead (lh_offset h + k) (lh_size h)) <$> H.

(** The offsets rise from [pos] to at most [n]. *)
Fixpoint heads_in (pos n : Z) (H : list listhead) : Prop :=
  match H with [] => pos ≤ n | h :: H => pos ≤ lh_offset h ∧ heads_in (lh_offset h) n H end.

Fixpoint hsizes (H : list listhead) : Z :=
  match H with [] => 0 | h :: H => blen (lh_encode h) + hsizes H end.

Lemma heads_in_le pos n H : heads_in pos n H → pos ≤ n.
Proof. revert pos. induction H as [|h H IH]; intros pos; cbn; [done|]. intros [? ?%IH]. lia. Qed.

Lemma hsizes_app H K : hsizes (H ++ K) = hsizes H + hsizes K.
Proof. induction H; cbn; lia. Qed.
Lemma hsizes_shift k H : hsizes (shift k H) = hsizes H.
Proof. induction H as [|h H IH]; cbn; [done|]. unfold lh_encode in *. cbn. unfold shift in IH. lia. Qed.
Lemma shift_app k H K : shift k (H ++ K) = shift k H ++ shift k K.
Proof. apply fmap_app. Qed.
Lemma shift_shift a b H : shift a (shift b H) = shift (a + b) H.
Proof. unfold shift. rewrite <- list_fmap_compose. apply list_fmap_ext. intros ? [] _. cbn. f_equal. lia. Qed.
Lemma shift_0 H : shift 0 H = H.
Proof. unfold shift. rewrite <- (list_fmap_id H) at 2. apply list_fmap_ext. intros ? [] _. cbn. f_equal. lia. Qed.

Lemma heads_in_app n1 n2 pos H K : heads_in pos n1 H → heads_in 0 n2 K → heads_in pos (n1 + n2) (H ++ shift n1 K).
Proof.
  revert pos. induction H as [|h H IH]; intros pos; cbn.
  - intros Hp HK. assert (heads_in n1 (n1 + n2) (shift n1 K)) as HK'.
    { clear Hp. replace n1 with (n1 + 0) at 1 by lia. revert HK. generalize 0. induction K as [|k K IHK]; intros p; cbn; [lia|].
      intros [? ?]. split; [lia|]. rewrite (Z.add_comm (lh_offset k)). by apply IHK. }
    destruct K as [|k K]; cbn in *; [lia|]. destruct HK'. split; [lia|done].
  - intros [? ?] HK. split; [done|]. by apply IH.
Qed.

Lemma loop_length s H pos : 0 ≤ pos → heads_in pos (blen s) H → blen (toBytes_loop s H pos) = blen s - pos + hsizes H.
Proof.
  revert pos. induction H as [|h H IH]; intros pos Hp; cbn; [rewrite length_drop; lia|]. intros [H1 H2].
  rewrite !length_app, length_take, length_drop. pose proof (heads_in_le _ _ _ H2). pose proof (IH (lh_offset h) ltac:(lia) H2). lia.
Qed.

Lemma loop_shift s1 s2 H pos : 0 ≤ pos → heads_in pos (blen s2) H →
  toBytes_loop (s1 ++ s2) (shift (blen s1) H) (pos + blen s1) = toBytes_loop s2 H pos.
Proof.
  revert pos. induction H as [|h H IH]; intros pos Hp; cbn -[Z.of_nat].
  - intros _. rewrite drop_app_ge by lia. f_equal. lia.
  - intros [H1 H2]. rewrite drop_app_ge by lia. f_equal; [f_equal; [lia|f_equal; lia]|]. f_equal. apply IH; [lia|done].
Qed.

Lemma loop_app s1 s2 H K pos : 0 ≤ pos → heads_in pos (blen s1) H → heads_in 0 (blen s2) K →
  toBytes_loop (s1 ++ s2) (H ++ shift (blen s1) K) pos = toBytes_loop s1 H pos ++ toBytes_loop s2 K 0.
Proof.
  revert pos. induction H as [|h H IH]; intros pos Hp; cbn -[Z.of_nat].
  - intros Hs HK. destruct K as [|k K]; cbn -[Z.of_nat].
    + rewrite drop_app_le by lia. done.
    + destruct HK as [HK1 HK2]. rewrite drop_app_le by lia. rewrite (app_assoc (drop _ _)). f_equal; [|f_equal; by apply loop_shift].
      rewrite take_app_ge by (rewrite length_drop; lia). f_equal. rewrite length_drop. cbn. f_equal. lia.
  - intros [H1 H2] HK. pose proof (heads_in_le _ _ _ H2). rewrite IH by (done || lia). rewrite drop_app_le by lia.
    rewrite take_app_le by (rewrite length_drop; lia). by rewrite <- !app_assoc.
Qed.

(** A writer that adds the bytes [b], in their final form. *)
Definition writes (m : M encbuf unit) (b : bytes) : Prop :=
  ∃ s H, heads_in 0 (blen s) H ∧ toBytes_loop s H 0 = b ∧
    ∀ w, m w = (Ok tt, mkEncbuf (eb_str w ++ s) (eb_lheads w ++ shift (blen (eb_str w)) H) (eb_lhsize w + hsizes H)).

Lemma writes_string (m : M encbuf unit) b : (∀ w, m w = (Ok tt, write_to w b)) → writes m b.
Proof.
  intros Hm. exists b, []. split_and!; [cbn; lia|done|]. intros w. rewrite Hm. unfold write_to. cbn. rewrite app_nil_r. do 2 f_equal. lia.
Qed.
Lemma writes_ext (m m' : M encbuf unit) b : (∀ w, m' w = m w) → writes m b → writes m' b.
Proof. intros E (s & H & ? & ? & Hm). exists s, H. split_and!; [done..|]. intros w. by rewrite E. Qed.
Lemma writes_nil : writes (mret tt) [].
Proof. apply writes_string. intros [s H n]. unfold write_to. cbn. by rewrite app_nil_r. Qed.

Lemma writes_bind m1 m2 b1 b2 : writes m1 b1 → writes m2 b2 → writes (m1 ;; m2) (b1 ++ b2).
Proof.
  intros (s1 & H1 & Hin1 & <- & E1) (s2 & H2 & Hin2 & <- & E2). exists (s1 ++ s2), (H1 ++ shift (blen s1) H2). split_and!.
  - rewrite length_app, Nat2Z.inj_add. by apply heads_in_app.
  - by apply loop_app.
  - intros w. rewrite (bind_ok _ _ _ _ _ (E1 w)), E2. cbn [eb_str eb_lheads eb_lhsize]. rewrite shift_app, shift_shift, !app_assoc, hsizes_app, hsizes_shift.
    do 2 f_equal; [|lia]. do 2 f_equal. rewrite length_app. lia.
Qed.

Lemma writes_list m c : writes m c → blen c < 2 ^ 63 →
  writes (lh ← eb_list; m ;; eb_listEnd lh) (puthead 0xC0 0xF7 (blen c) ++ c).
Proof.
  intros (s & H & Hin & <- & E) Hc. set (n := blen (toBytes_loop s H 0)) in *.
  assert (n = blen s + hsizes H) as Hn by (subst n; rewrite loop_length by (done || lia); lia).
  assert (is_u64 n) as Hu by (split; lia).
  exists s, (mkListhead 0 n :: H). split_and!.
  - cbn. split; [lia|done].
  - cbn [toBytes_loop lh_offset]. unfold lh_encode. cbn [lh_size]. by rewrite uwrap_small.
  - intros w.
    erewrite bind_ok by done. erewrite bind_ok by apply E. cbn [eb_str eb_lheads eb_lhsize]. unfold eb_listEnd.
    erewrite bind_ok by done. cbn [eb_lheads].
    rewrite <- app_assoc, lookup_app_r, Nat.sub_diag by done. cbn.
    unfold eb_size. cbn [eb_str eb_lhsize lh_offset lh_size].
    assert (blen (eb_str w ++ s) + (eb_lhsize w + hsizes H) - blen (eb_str w) - eb_lhsize w = n) as ->
      by (rewrite length_app; lia).
    cbn. unfold put_state. do 2 f_equal.
    + rewrite insert_app_r_alt, Nat.sub_diag by done. cbn. by rewrite Z.add_0_l.
    + cbn [hsizes]. pose proof (length_puthead 0xC0 0xF7 n Hu) as Hp. unfold headsize in Hp. unfold lh_encode. cbn [lh_size].
      rewrite !uwrap_small by done. case_decide; lia.
Qed.

(** ** The encoder *)

Lemma rlp_value_ind' (P : rlp_value → Prop) :
  (∀ i, P (RUint i)) → (∀ b, P (RBool b)) → (∀ i, P (RBig i)) → (∀ b, P (RBytes b)) → (∀ b, P (RArray b)) →
  (∀ b, P (RString b)) → P RNil → (∀ l, Forall P l → P (RList l)) → (∀ l opt, Forall P l → P (RStruct l opt)) → ∀ v, P v.
Proof.
  intros H1 H2 H3 H4 H5 H6 H7 H8 H9. fix IH 1. intros [i|b|i|b|b|b| |l|l opt];
    [apply H1|apply H2|apply H3|apply H4|apply H5|apply H6|apply H7| |].
  - apply H8. induction l as [|v l IHl]; constructor; [apply IH|done].
  - apply H9. induction l as [|v l IHl]; constructor; [apply IH|done].
Qed.

Fixpoint write_all (l : list rlp_value) : M encbuf unit :=
  match l with [] => mret tt | v :: l => eb_encode v ;; write_all l end.
Fixpoint all_ok (l : list rlp_value) : Prop := match l with [] => True | v :: l => value_ok v ∧ all_ok l end.

Lemma enc_string_length b : blen b ≤ blen (enc_string b).
Proof. unfold enc_string. destruct b as [|x [|y b]]; [done|case_decide; rewrite ?length_app; lia|rewrite length_app; lia]. Qed.

Definition writes_item (v : rlp_value) : Prop :=
  value_ok v → blen (rlp_enc (item_of v)) < 2 ^ 63 → writes (eb_encode v) (rlp_enc (item_of v)).

Lemma write_all_writes l : Forall writes_item l → all_ok l → blen (mjoin (rlp_enc <$> (item_of <$> l))) < 2 ^ 63 →
  writes (write_all l) (mjoin (rlp_enc <$> (item_of <$> l))).
Proof.
  induction 1 as [|v l Hv Hl IH]; [intros; apply writes_nil|]. rewrite !fmap_cons. intros [Hok Hall] Hs.
  change (mjoin (?x :: ?l)) with (x ++ mjoin l) in *. rewrite length_app in Hs. cbn [write_all]. apply writes_bind; [apply Hv; [done|lia]|apply IH; [done|lia]].
Qed.

Lemma write_big_writes l : Forall (λ i, 0 ≤ default 0 i) l →
  blen (mjoin (rlp_enc <$> ((λ i, Str (int_bytes (default 0 i))) <$> l))) < 2 ^ 63 →
  writes (write_big l) (mjoin (rlp_enc <$> ((λ i, Str (int_bytes (default 0 i))) <$> l))).
Proof.
  induction 1 as [|i l Hi Hl IH]; [intros; apply writes_nil|]. rewrite !fmap_cons. intros Hs.
  change (mjoin (?x :: ?l)) with (x ++ mjoin l) in *. cbn [rlp_enc] in *. rewrite length_app in Hs. cbn [write_big]. apply writes_bind; [|apply IH; lia].
  apply writes_string. intros w. apply writeBigIntPtr_run; [done|]. pose proof (enc_string_length (int_bytes (default 0 i))). lia.
Qed.

Lemma strip_nil_Forall (P : option Z → Prop) opt : Forall P opt → Forall P (strip_nil opt).
Proof. induction 1 as [|x opt Hx Ho IH]; cbn; [done|]. destruct (strip_nil opt); [destruct x; auto|by constructor]. Qed.

Lemma encode_writes v : writes_item v.
Proof.
  induction v as [i|b|i|b|b|b| |l IH|l opt IH] using rlp_value_ind'; intros Hok Hs; cbn [item_of rlp_enc] in *;
    try (pose proof (enc_string_length b); apply writes_string; intros w).
  - apply writes_string. intros w. by apply encodeUint_run.
  - apply writes_string. intros w. by destruct b.
  - apply writes_string. intros w. apply writeBigIntPtr_run; [done|]. pose proof (enc_string_length (int_bytes (default 0 i))). lia.
  - apply encodeString_run. split; lia.
  - apply writeByteArray_run. split; lia.
  - change (writeString b w) with (encodeString b w). apply encodeString_run. split; lia.
  - by apply writes_string.
  - rewrite length_app in Hs. apply (writes_list (write_all l)); [|lia]. apply write_all_writes; [done|done|lia].
  - rewrite length_app in Hs. destruct Hok as [Hl Ho].
    apply (writes_ext (lh ← eb_list; (write_all l ;; write_big (strip_nil opt)) ;; eb_listEnd lh)).
    { intros w. change (eb_encode (RStruct l opt) w) with
        ((lh ← eb_list; write_all l ;; write_big (strip_nil opt) ;; eb_listEnd lh) w).
      unfold mbind, M_bind. destruct (eb_list w) as [[] w1]; [|done..]. by destruct (write_all l w1) as [[] ?]. }
    apply writes_list; [|lia].
    rewrite fmap_app, join_app in *. rewrite length_app in Hs. apply writes_bind.
    + apply write_all_writes; [done|done|lia].
    + apply write_big_writes; [by apply strip_nil_Forall|lia].
Qed.

Lemma encode_ok v : value_ok v → blen (rlp_enc (item_of v)) < 2 ^ 63 → EncodeToBytes v = Ok (rlp_enc (item_of v)).
Proof.
  intros Hok Hs. destruct (encode_writes v Hok Hs) as (s & H & Hin & <- & E). unfold EncodeToBytes. rewrite E. cbn -[shift].
  by rewrite shift_0.
Qed.

(** C23 (the encoder computes RLP).  For every value of its types whose encoding has
    fewer than 2^63 bytes, [EncodeToBytes] succeeds and returns the encoding of the
    value's item: the buffer of strings and the headers inserted afterwards give the
    recursive definition, lists in lists and optional fields included. *)
Theorem EncodeToBytes_correct v :
  value_ok v → blen (rlp_enc (item_of v)) < 2 ^ 63 → EncodeToBytes v = Ok (rlp_enc (item_of v)).
Proof. apply encode_ok. Qed.

(** ** Splitting *)

Lemma le_put_snoc n x : le_put (S n) x = le_put n x ++ [byte_of_Z (Z.shiftr x (8 * Z.of_nat n))].
Proof.
  revert x. induction n as [|n IH]; intros x; [cbn; by rewrite Z.shiftr_0_r|].
  change (le_put (S (S n)) x) with (byte_of_Z x :: le_put (S n) (Z.shiftr x 8)). rewrite IH, Z.shiftr_shiftr by lia.
  replace (8 * Z.of_nat (S n)) with (8 + 8 * Z.of_nat n) by lia. done.
Qed.

Lemma be_put_cons n x : be_put (S n) x = byte_of_Z (Z.shiftr x (8 * Z.of_nat n)) :: be_put n x.
Proof. unfold be_put. by rewrite le_put_snoc, reverse_snoc. Qed.

Lemma readSize_putint s r : 56 ≤ s < 2 ^ 64 → readSize (putint s ++ r) (blen (putint s)) = Ok s.
Proof.
  intros Hs. unfold readSize. rewrite decide_False by (rewrite length_app; lia). rewrite Nat2Z.id, take_app_length.
  pose proof (putint_size_log s ltac:(lia)) as Hsz. pose proof (putint_size_le s).
  destruct (log2_byte s (Z.log2 s / 8) ltac:(lia)) as [Hr _]. specialize (Hr eq_refl).
  assert (be_get (putint s) = s) as ->. { unfold putint. apply be_get_put_small. split; [lia|]. rewrite Hsz. lia. }
  unfold putint. destruct (putint_size s) as [|k] eqn:Ek; [lia|]. rewrite be_put_cons. cbn [app].
  rewrite decide_False; [done|]. intros [?|Hz]; [lia|]. rewrite byte_to_of_Z in Hz.
  replace (8 * Z.of_nat k) with (8 * (Z.log2 s / 8)) in Hz by lia. set (n := 8 * (Z.log2 s / 8)) in *.
  assert (0 ≤ n) by (pose proof (Z.log2_nonneg s); pose proof (Z.div_pos (Z.log2 s) 8); lia).
  rewrite Z.shiftr_div_pow2 in Hz by done. replace (8 * (Z.log2 s / 8 + 1)) with (n + 8) in Hr by lia.
  rewrite Z.pow_add_r in Hr by lia. change (2 ^ 8) with 256 in *. assert (0 < 2 ^ n) by (apply Z.pow_pos_nonneg; lia).
  assert (1 ≤ s / 2 ^ n) by (apply Z.div_le_lower_bound; lia). assert (s / 2 ^ n < 256) by (apply Z.div_lt_upper_bound; lia).
  rewrite Z.mod_small in Hz; lia.
Qed.

Lemma blen_cons {A} (x : A) l : blen (x :: l) = 1 + blen l.
Proof. cbn [length]. lia. Qed.
Lemma blen_app {A} (l1 l2 : list A) : blen (l1 ++ l2) = blen l1 + blen l2.
Proof. rewrite length_app. lia. Qed.

(** The kind, the header's size and the content's size, from a header. *)
Lemma readKind_head k tag c r : (k = KString ∧ tag = 0x80 ∨ k = KList ∧ tag = 0xC0) →
  (k = KString → ∀ x, c = [x] → 128 ≤ byte_to_Z x) → blen (c ++ r) < 2 ^ 63 →
  readKind (puthead tag (tag + 55) (blen c) ++ c ++ r) = Ok (k, headsize (blen c), blen c).
Proof.
  intros Hk Hc Hl. rewrite blen_app in Hl. set (n := blen c) in *. assert (is_u64 n) as Hn by (split; lia).
  unfold headsize, puthead. destruct (decide (n < 56)) as [Hs|Hs].
  - cbn [app readKind]. rewrite byte_to_of_Z, blen_cons, blen_app. fold n.
    destruct Hk as [[-> ->]|[-> ->]]; rewrite Z.mod_small by lia.
    + rewrite decide_False, decide_True by lia. destruct (c ++ r) as [|x l] eqn:E; [|rewrite decide_False].
      * rewrite decide_False by (rewrite uwrap_small by (split; lia); lia). do 2 f_equal. lia.
      * rewrite decide_False by (rewrite uwrap_small by (split; lia); lia). do 2 f_equal. lia.
      * intros [Hn1 Hx]. destruct c as [|y [|]]; [cbn in *; lia| |cbn in *; lia]. cbn in E. injection E as -> ->.
        pose proof (Hc eq_refl x eq_refl). lia.
    + rewrite 3!decide_False, decide_True by lia. rewrite decide_False by (rewrite uwrap_small by (split; lia); lia).
      do 2 f_equal. lia.
  - pose proof (putint_size_le n). pose proof (length_putint n) as Hp. rewrite intsize_correct by done.
    cbn [app readKind]. rewrite byte_to_of_Z, blen_cons, !blen_app, Hp. fold n.
    destruct Hk as [[-> ->]|[-> ->]]; rewrite Z.mod_small by lia.
    + rewrite 2!decide_False, decide_True by lia.
      replace (128 + 55 + Z.of_nat (putint_size n) - 183) with (blen (putint n)) by lia. rewrite readSize_putint by lia.
      rewrite decide_False by (rewrite uwrap_small by (split; lia); lia). do 2 f_equal. f_equal. lia.
    + rewrite 4!decide_False by lia.
      replace (192 + 55 + Z.of_nat (putint_size n) - 247) with (blen (putint n)) by lia. rewrite readSize_putint by lia.
      rewrite decide_False by (rewrite uwrap_small by (split; lia); lia). do 2 f_equal. f_equal. lia.
Qed.

Lemma Split_head k tag c r : (k = KString ∧ tag = 0x80 ∨ k = KList ∧ tag = 0xC0) →
  (k = KString → ∀ x, c = [x] → 128 ≤ byte_to_Z x) → blen (c ++ r) < 2 ^ 63 →
  Split (puthead tag (tag + 55) (blen c) ++ c ++ r) = Ok (k, c, r).
Proof.
  intros Hk Hc Hl. unfold Split. rewrite (readKind_head k) by done. rewrite blen_app in Hl.
  assert (is_u64 (blen c)) as Hn by (split; lia). rewrite <- (length_puthead tag (tag + 55)) by done.
  pose proof (puthead_le tag (tag + 55) _ Hn) as H9.
  set (p := puthead tag (tag + 55) (blen c)) in *. rewrite uwrap_small by (split; lia).
  rewrite <- blen_app, go_slice_app. pose proof (go_slice_app (p ++ c) r []) as E. rewrite !app_nil_r, <- !app_assoc in E. by rewrite E.
Qed.

(** The kind and the content of an item. *)
Definition item_content (it : rlp_item) : Kind * bytes :=
  match it with
  | Str b => (match b with [x] => if decide (byte_to_Z x < 128) then KByte else KString | _ => KString end, b)
  | Lst l => (KList, mjoin (rlp_enc <$> l))
  end.

Lemma Split_item it r : blen (rlp_enc it ++ r) < 2 ^ 63 →
  Split (rlp_enc it ++ r) = Ok ((item_content it).1, (item_content it).2, r).
Proof.
  destruct it as [b|l]; cbn [rlp_enc item_content fst snd]; intros Hl.
  - assert (enc_string b = puthead 0x80 (0x80 + 55) (blen b) ++ b ∧ (∀ x, b = [x] → 128 ≤ byte_to_Z x) ∨
            ∃ x, b = [x] ∧ byte_to_Z x < 128) as [[E Hb]|(x & -> & Hx)].
    { unfold enc_string. destruct b as [|x [|y b]]; [by left|case_decide; [by eauto|left]|by left].
      split; [done|]. intros ? [= ->]. lia. }
    + rewrite E in Hl |- *. rewrite <- app_assoc in *. rewrite (Split_head KString); [|by left|done|rewrite blen_app in Hl; lia].
      do 3 f_equal. destruct b as [|x [|y b]]; [done| |done]. rewrite decide_False; [done|]. pose proof (Hb x eq_refl). lia.
    + unfold enc_string in *. rewrite decide_True in * by done. cbn [app] in *. unfold Split, readKind.
      rewrite decide_True by lia. rewrite decide_False by (rewrite blen_cons in *; rewrite uwrap_small by (split; lia); lia).
      rewrite uwrap_small by (split; lia). pose proof (go_slice_app [] [x] r) as E1. pose proof (go_slice_app [x] r []) as E2.
      rewrite !app_nil_r in E2. cbn [app] in *. change (blen []) with 0 in E1. change (blen [x]) with (0 + 1) in E1, E2.
      rewrite E1, E2, decide_True by done. done.
  - rewrite <- app_assoc in *. rewrite (Split_head KList); [done|by right|done|rewrite blen_app in Hl; lia].
Qed.

Lemma rlp_enc_nonempty it : 1 ≤ blen (rlp_enc it).
Proof.
  assert (∀ a b n, 1 ≤ blen (puthead a b n)) as Hp.
  { intros a b n. unfold puthead. case_decide; cbn [length]; lia. }
  destruct it as [b|l]; cbn [rlp_enc].
  - pose proof (enc_string_length b). destruct b as [|x b]; [unfold enc_string; rewrite app_nil_r; apply Hp|rewrite blen_cons in *; lia].
  - rewrite blen_app. pose proof (Hp 0xC0 0xF7 (blen (mjoin (rlp_enc <$> l)))). lia.
Qed.

Definition enc_inj_at (it : rlp_item) : Prop := ∀ it' r r',
  blen (rlp_enc it ++ r) < 2 ^ 63 → rlp_enc it ++ r = rlp_enc it' ++ r' → it = it' ∧ r = r'.

Lemma enc_list_inj l l' : Forall enc_inj_at l → blen (mjoin (rlp_enc <$> l)) < 2 ^ 63 →
  mjoin (rlp_enc <$> l) = mjoin (rlp_enc <$> l') → l = l'.
Proof.
  intros Hl. revert l'. induction Hl as [|it l Hit Hl IH]; intros [|it' l'] Hs E; [done| | |].
  - apply (f_equal length) in E. cbn in E. rewrite length_app in E. pose proof (rlp_enc_nonempty it'). lia.
  - apply (f_equal length) in E. cbn in E. rewrite length_app in E. pose proof (rlp_enc_nonempty it). lia.
  - rewrite !fmap_cons in *. change (mjoin (?x :: ?l)) with (x ++ mjoin l) in *.
    destruct (Hit _ _ _ Hs E) as [-> E']. f_equal. apply IH; [rewrite blen_app in Hs; lia|done].
Qed.

Lemma enc_inj it : enc_inj_at it.
Proof.
  induction it as [b|l IH] using rlp_item_ind'; intros it' r r' Hs E.
  - pose proof (Split_item _ _ Hs) as E1. rewrite E in Hs, E1. rewrite (Split_item _ _ Hs) in E1.
    destruct it' as [b'|l']; cbn [item_content fst snd] in E1; [by simplify_eq|].
    destruct b as [|x [|y b]]; [done|case_decide; done|done].
  - pose proof (Split_item _ _ Hs) as E1. pose proof Hs as Hs'. rewrite E in Hs', E1. rewrite (Split_item _ _ Hs') in E1.
    destruct it' as [b'|l']; cbn [item_content fst snd] in E1.
    + destruct b' as [|x [|y b']]; [done|case_decide; done|done].
    + injection E1 as E1 ->. split; [|done]. f_equal. symmetry in E1. apply enc_list_inj; [done| |done].
      cbn [rlp_enc] in Hs. rewrite !blen_app in Hs. lia.
Qed.

Lemma count_loop l fuel i : blen (mjoin (rlp_enc <$> l)) < 2 ^ 63 → (length l ≤ fuel)%nat →
  CountValues_loop fuel (mjoin (rlp_enc <$> l)) i = Ok (i + blen l).
Proof.
  revert fuel i. induction l as [|it l IH]; intros fuel i Hs Hf.
  - cbn. destruct fuel; cbn; do 2 f_equal; lia.
  - destruct fuel as [|fuel]; [cbn in Hf; lia|]. rewrite fmap_cons in *. change (mjoin (?x :: ?l)) with (x ++ mjoin l) in *.
    pose proof (rlp_enc_nonempty it). pose proof (Split_item _ _ Hs) as E. unfold Split in E. rewrite blen_app in Hs.
    destruct (rlp_enc it ++ mjoin (rlp_enc <$> l)) as [|x b] eqn:Eb.
    { apply (f_equal length) in Eb. rewrite length_app in Eb. cbn in Eb. lia. }
    cbn [CountValues_loop]. destruct (readKind (x :: b)) as [[[k ts] cs]| |]; [|done..].
    destruct (go_slice _ ts _); [|done]. destruct (go_slice _ _ (blen (x :: b))) as [rest|]; [|done]. injection E as _ _ ->.
    rewrite IH by (cbn in Hf; lia). rewrite blen_cons. f_equal. lia.
Qed.

(** C24 (RLP can be read back).  An encoding followed by other bytes is split into
    the kind and the content of its item and the other bytes; the values in a list
    are counted; and two items followed by anything have the same bytes only if they
    are the same item, so that a hash of an encoding commits to the value. *)
Theorem rlp_roundtrip it r :
  blen (rlp_enc it ++ r) < 2 ^ 63 →
  Split (rlp_enc it ++ r) = Ok ((item_content it).1, (item_content it).2, r) ∧
  (∀ l, it = Lst l → SplitList (rlp_enc it ++ r) = Ok (mjoin (rlp_enc <$> l), r) ∧
    CountValues (mjoin (rlp_enc <$> l)) = Ok (blen l)) ∧
  ∀ it' r', rlp_enc it ++ r = rlp_enc it' ++ r' → it = it' ∧ r = r'.
Proof.
  intros Hs. split; [by apply Split_item|]. split; [|intros; by apply enc_inj]. intros l ->. split.
  - unfold SplitList. by rewrite Split_item.
  - unfold CountValues. rewrite count_loop, Z.add_0_l; [done|cbn [rlp_enc] in Hs; rewrite !blen_app in Hs; lia|].
    clear Hs. induction l as [|it l IH]; [done|]. rewrite fmap_cons. change (mjoin (?x :: ?l)) with (x ++ mjoin l).
    rewrite length_app. pose proof (rlp_enc_nonempty it). cbn [length]. lia.
Qed.

(** A list with a number of 5 bytes, an empty string, a nested list, a struct whose
    last optional field is absent, and a string of 60 bytes. *)
Definition ex_value : rlp_value :=
  RList [RUint 0x0102030405; RBytes []; RList [RBool true; RNil]; RStruct [RBig (Some (2 ^ 100))] [Some 7; None];
         RArray (replicate 60 Byte.x41)].

Lemma EncodeToBytes_correct_witness : EncodeToBytes ex_value = Ok (rlp_enc (item_of ex_value)) ∧ blen (rlp_enc (item_of ex_value)) = 90.
Proof.
  split; [|by vm_compute]. apply (EncodeToBytes_correct ex_value); [|by vm_compute].
  cbn. repeat split; try lia. repeat constructor; cbn; lia.
Defined.

Lemma rlp_roundtrip_witness :
  Split (rlp_enc (Lst [Str []; Lst [Str [Byte.x01]]]) ++ [Byte.x02]) = Ok (KList, [Byte.x80; Byte.xc1; Byte.x01], [Byte.x02]).
Proof.
  rewrite (proj1 (rlp_roundtrip (Lst [Str []; Lst [Str [Byte.x01]]]) [Byte.x02] ltac:(vm_compute; reflexivity))). vm_compute. reflexivity.
Defined.
