(* ===== verification/EthHeader.v ===== *)
(** * Ethereum headers
    (header_sync/eth/header1559.go, the difficulty rules and [HashHeader] of
    header_sync/eth/header_sync.go, common/config/config.go)

    The headers of Ethereum and of the chains derived from it, the rules for the gas
    limit, the base fee and the difficulty, and the hash of a header.  What the code
    takes from go-ethereum is the interface [EthLib]. *)

From S2P Require Import Prelude Sha256 Sink Native Rlp RlpSpec.

Record EthHeader := mkEthHeader {
  ParentHash : Uint256;
  UncleHash : Uint256;
  Coinbase : Address;
  eh_Root : Uint256;
  eh_TxHash : Uint256;
  ReceiptHash : Uint256;
  Bloom : array 256;
  Difficulty : Z;
  Number : Z;
  GasLimit : Z;
  GasUsed : Z;
  eh_Time : Z;
  eh_Extra : bytes;
  MixDigest : Uint256;
  eh_Nonce : array 8;
  BaseFee : option Z;          (* nil before EIP-1559, and always in go-ethereum's own type *)
}.
#[export] Instance EthHeader_eq_dec : EqDecision EthHeader.
Proof. solve_decision. Defined.

(** What a header read from JSON satisfies: [hexutil] reads no negative numbers. *)
Record header_wf (h : EthHeader) : Prop := mkHeaderWf {
  hw_difficulty : 0 ≤ Difficulty h < 2 ^ 256;
  hw_number : 0 ≤ Number h < 2 ^ 256;
  hw_gas : is_u64 (GasLimit h) ∧ is_u64 (GasUsed h) ∧ is_u64 (eh_Time h);
  hw_fee : 0 ≤ default 0 (BaseFee h) < 2 ^ 256;
  hw_extra : blen (eh_Extra h) < 2 ^ 40;
}.

(** [header.Number.Uint64()] and [header.Number.Int64()]. *)
Definition Number_u64 (h : EthHeader) : Z := u64 (Number h).
Definition Number_i64 (h : EthHeader) : Z := swrap 64 (Number h).

(** go-ethereum: hashing, recovery of a signer, conversions and protocol constants. *)
Class EthLib := {
  Keccak256 : bytes → Uint256;
  Keccak512 : bytes → array 64;
  Ecrecover : bytes → bytes → res bytes;
  EmptyUncleHash : Uint256;                (* types.EmptyUncleHash, types.CalcUncleHash(nil) *)
  BytesToHash : bytes → Uint256;
  BytesToAddress : bytes → Address;
  Hash_Hex : Uint256 → bytes;
  GasLimitBoundDivisor : Z;                (* package params *)
  MinGasLimit : Z;
  MinimumDifficulty : Z;
  DifficultyBoundDivisor : Z;
  MaximumExtraDataSize : Z;
}.

Class EthLibLaws `{EthLib} : Prop := {
  BytesToHash_slice : ∀ h : Uint256, BytesToHash (to_slice h) = h;
  BytesToAddress_slice : ∀ a : Address, BytesToAddress (to_slice a) = a;
  GasLimitBoundDivisor_pos : 0 < GasLimitBoundDivisor;
  MinimumDifficulty_pos : 0 < MinimumDifficulty;
  DifficultyBoundDivisor_pos : 0 < DifficultyBoundDivisor;
}.

(** ** Heights of hard forks *)

Definition ETH1559_HEIGHT_MAINNET : Z := 12965000.
Definition ETH1559_HEIGHT_TESTNET : Z := 10499401.
Definition ETH4345_HEIGHT_MAINNET : Z := 13773000.
Definition HECO120_HEIGHT_MAINNET : Z := 8577000.
Definition HECO120_HEIGHT_TESTNET : Z := 8290000.

(** The map gives zero for the networks it does not list. *)
Definition GetEth4345Height (id : Z) : Z := if decide (id = NETWORK_ID_MAIN_NET) then ETH4345_HEIGHT_MAINNET else 0.
Definition GetEth1559Height (id : Z) : Z :=
  let height := if decide (id = NETWORK_ID_MAIN_NET) then ETH1559_HEIGHT_MAINNET
                else if decide (id = NETWORK_ID_TEST_NET) then ETH1559_HEIGHT_TESTNET else 0 in
  if decide (height = 0) then ETH1559_HEIGHT_TESTNET else height.
Definition GetHeco120Height (id : Z) : Z :=
  let height := if decide (id = NETWORK_ID_MAIN_NET) then HECO120_HEIGHT_MAINNET
                else if decide (id = NETWORK_ID_TEST_NET) then HECO120_HEIGHT_TESTNET else 0 in
  if decide (height = 0) then HECO120_HEIGHT_TESTNET else height.

Section rules.
Context `{EthLib} (cfg : Config).

(** ** Hashes *)

(** The fields as the encoder sees the struct. *)
Definition header_value (h : EthHeader) : rlp_value :=
  RStruct [RArray (to_slice (ParentHash h)); RArray (to_slice (UncleHash h)); RArray (to_slice (Coinbase h)); RArray (to_slice (eh_Root h));
           RArray (to_slice (eh_TxHash h)); RArray (to_slice (ReceiptHash h)); RArray (to_slice (Bloom h)); RBig (Some (Difficulty h));
           RBig (Some (Number h)); RUint (GasLimit h); RUint (GasUsed h); RUint (eh_Time h); RBytes (eh_Extra h);
           RArray (to_slice (MixDigest h)); RArray (to_slice (eh_Nonce h))]
          [BaseFee h].

(** [rlp.Encode] to a hash; its error is dropped, and nothing is hashed then. *)
Definition rlpHash (v : rlp_value) : Uint256 :=
  Keccak256 (match EncodeToBytes v with Ok b => b | _ => [] end).
Definition eth_Hash (h : EthHeader) : Uint256 := rlpHash (header_value h).

(** What a miner searches a nonce for. *)
Definition HashHeader (h : EthHeader) : Uint256 :=
  rlpHash (RList ([RArray (to_slice (ParentHash h)); RArray (to_slice (UncleHash h)); RArray (to_slice (Coinbase h)); RArray (to_slice (eh_Root h));
                   RArray (to_slice (eh_TxHash h)); RArray (to_slice (ReceiptHash h)); RArray (to_slice (Bloom h)); RBig (Some (Difficulty h));
                   RBig (Some (Number h)); RUint (GasLimit h); RUint (GasUsed h); RUint (eh_Time h); RBytes (eh_Extra h)] ++
                  match BaseFee h with Some fee => [RBig (Some fee)] | None => [] end)).

Definition To1559 (h : EthHeader) : EthHeader :=
  mkEthHeader (ParentHash h) (UncleHash h) (Coinbase h) (eh_Root h) (eh_TxHash h) (ReceiptHash h) (Bloom h) (Difficulty h) (Number h)
    (GasLimit h) (GasUsed h) (eh_Time h) (eh_Extra h) (MixDigest h) (eh_Nonce h) None.

(** The fields of the JSON object; a field that is missing or null is [None]. *)
Record dec_header := mkDecHeader {
  dec_ParentHash : option Uint256; dec_UncleHash : option Uint256; dec_Coinbase : option Address; dec_Root : option Uint256;
  dec_TxHash : option Uint256; dec_ReceiptHash : option Uint256; dec_Bloom : option (array 256); dec_Difficulty : option Z;
  dec_Number : option Z; dec_GasLimit : option Z; dec_GasUsed : option Z; dec_Time : option Z; dec_Extra : option bytes;
  dec_MixDigest : option Uint256; dec_Nonce : option (array 8); dec_BaseFee : option Z;
}.

Definition required {A} (field : string) (x : option A) : res A :=
  match x with Some a => Ok a | None => Err ("missing required field '" +:+ field +:+ "' for Header") end.
Definition res_bind {A B} (r : res A) (k : A → res B) : res B :=
  match r with Ok a => k a | Err e => Err e | Panic => Panic end.

(** [UnmarshalJSON] after the object is read, into a zero header. *)
Definition UnmarshalJSON (dec : dec_header) : res EthHeader :=
  res_bind (required "parentHash" (dec_ParentHash dec)) (λ parent,
  res_bind (required "sha3Uncles" (dec_UncleHash dec)) (λ uncle,
  res_bind (required "miner" (dec_Coinbase dec)) (λ coinbase,
  res_bind (required "stateRoot" (dec_Root dec)) (λ root,
  res_bind (required "transactionsRoot" (dec_TxHash dec)) (λ tx,
  res_bind (required "receiptsRoot" (dec_ReceiptHash dec)) (λ receipt,
  res_bind (required "logsBloom" (dec_Bloom dec)) (λ bloom,
  res_bind (required "difficulty" (dec_Difficulty dec)) (λ difficulty,
  res_bind (required "number" (dec_Number dec)) (λ number,
  res_bind (required "gasLimit" (dec_GasLimit dec)) (λ gasLimit,
  res_bind (required "gasUsed" (dec_GasUsed dec)) (λ gasUsed,
  res_bind (required "timestamp" (dec_Time dec)) (λ time,
  res_bind (required "extraData" (dec_Extra dec)) (λ extra,
  Ok (mkEthHeader parent uncle coinbase root tx receipt bloom difficulty number gasLimit gasUsed time extra
        (default (zero_array 32) (dec_MixDigest dec)) (default (zero_array 8) (dec_Nonce dec)) (dec_BaseFee dec))))))))))))))).

(** The fields that [MarshalJSON] writes, beside the hash. *)
Definition MarshalJSON (h : EthHeader) : dec_header :=
  mkDecHeader (Some (ParentHash h)) (Some (UncleHash h)) (Some (Coinbase h)) (Some (eh_Root h)) (Some (eh_TxHash h)) (Some (ReceiptHash h))
    (Some (Bloom h)) (Some (Difficulty h)) (Some (Number h)) (Some (GasLimit h)) (Some (GasUsed h)) (Some (eh_Time h)) (Some (eh_Extra h))
    (Some (MixDigest h)) (Some (eh_Nonce h)) (BaseFee h).

(** ** Forks *)

Definition isLondon (h : EthHeader) : bool :=
  bool_decide (is_Some (BaseFee h)) || bool_decide (GetEth1559Height (NetworkId cfg) ≤ Number_u64 h).
Definition isArrowGlacier (h : EthHeader) : bool :=
  let forkHeight := GetEth4345Height (NetworkId cfg) in
  if decide (forkHeight = 0) then false else bool_decide (forkHeight ≤ Number_u64 h).

(** ** Gas limit and base fee *)

(** [int64(a) - int64(b)], its sign changed if it is negative, as a uint64. *)
Definition gas_diff (a b : Z) : Z :=
  let diff := swrap 64 (swrap 64 a - swrap 64 b) in u64 (if decide (diff < 0) then swrap 64 (diff * -1) else diff).

Definition VerifyGaslimit (parentGasLimit headerGasLimit : Z) : res unit :=
  let limit := parentGasLimit `div` GasLimitBoundDivisor in
  if decide (limit ≤ gas_diff parentGasLimit headerGasLimit) then Err "invalid gas limit"
  else if decide (headerGasLimit < MinGasLimit) then Err "invalid gas limit below 5000" else Ok tt.

Definition BaseFeeChangeDenominator : Z := 8.
Definition ElasticityMultiplier : Z := 2.
Definition InitialBaseFee : Z := 1000000000.

(** A nil base fee and a division by zero panic. *)
Definition CalcBaseFee (parent : EthHeader) : res Z :=
  if negb (isLondon parent) then Ok InitialBaseFee else
  let parentGasTarget := GasLimit parent `div` ElasticityMultiplier in
  match BaseFee parent with
  | None => Panic
  | Some fee =>
      if decide (GasUsed parent = parentGasTarget) then Ok fee
      else if decide (parentGasTarget = 0) then Panic
      else if decide (parentGasTarget < GasUsed parent) then
        let y := (fee * (GasUsed parent - parentGasTarget)) `div` parentGasTarget in
        Ok (fee + Z.max (y `div` BaseFeeChangeDenominator) 1)
      else
        let y := (fee * (parentGasTarget - GasUsed parent)) `div` parentGasTarget in
        Ok (Z.max (fee - y `div` BaseFeeChangeDenominator) 0)
  end.

Definition VerifyEip1559Header (parent header : EthHeader) : res unit :=
  let parentGasLimit := if isLondon parent then GasLimit parent else u64 (GasLimit parent * ElasticityMultiplier) in
  res_bind (VerifyGaslimit parentGasLimit (GasLimit header)) (λ _,
  match BaseFee header with
  | None => Err "header is missing baseFee"
  | Some fee =>
      res_bind (CalcBaseFee parent) (λ expectedBaseFee,
      if decide (fee = expectedBaseFee) then Ok tt else Err "invalid baseFee")
  end).

(** ** Difficulty *)

Definition makeDifficultyCalculator (bombDelay time : Z) (parent : EthHeader) : Z :=
  let bombDelayFromParent := bombDelay - 1 in
  let x := (time - eh_Time parent) `div` 9 in
  let x := (if decide (UncleHash parent = EmptyUncleHash) then 1 else 2) - x in
  let x := Z.max x (-99) in
  let x := Difficulty parent + Difficulty parent `div` DifficultyBoundDivisor * x in
  let x := Z.max x MinimumDifficulty in
  let fakeBlockNumber := if decide (bombDelayFromParent ≤ Number parent) then Number parent - bombDelayFromParent else 0 in
  let periodCount := fakeBlockNumber `div` 100000 in
  if decide (1 < periodCount) then x + 2 ^ (periodCount - 2) else x.

Definition BLOCK_DIFF_FACTOR : Z := 2048.
Definition DIFF_PERIOD : Z := 100000.
Definition BOMB_DELAY : Z := 8999999.

Definition difficultyCalculator (time : Z) (parent : EthHeader) : Z :=
  let x := (time - eh_Time parent) `div` 9 in
  let x := (if decide (UncleHash parent = EmptyUncleHash) then 1 else 2) - x in
  let x := if decide (x < -99) then -99 else x in
  let x := Difficulty parent + Difficulty parent `div` BLOCK_DIFF_FACTOR * x in
  let x := if decide (x < MinimumDifficulty) then MinimumDifficulty else x in
  let fakeBlockNumber := if decide (BOMB_DELAY ≤ Number parent) then Number parent - BOMB_DELAY else 0 in
  let periodCount := fakeBlockNumber `div` DIFF_PERIOD in
  if decide (1 < periodCount) then x + 2 ^ (periodCount - 2) else x.

(** The difficulty that [SyncBlockHeader] of Ethereum expects. *)
Definition expected_difficulty (header parent : EthHeader) : Z :=
  if isArrowGlacier header then makeDifficultyCalculator 10700000 (eh_Time header) parent
  else if isLondon header then makeDifficultyCalculator 9700000 (eh_Time header) parent
  else difficultyCalculator (eh_Time header) parent.

End rules.

(** ** Properties *)

Lemma UnmarshalJSON_Marshal h : UnmarshalJSON (MarshalJSON h) = Ok h.
Proof. by destruct h. Qed.

Lemma res_bind_ok_inv {A B : Type} (r : res A) (k : A → res B) (b : B) : res_bind r k = Ok b → ∃ a, r = Ok a ∧ k a = Ok b.
Proof. destruct r; cbn; [eauto|done..]. Qed.

Section properties.
Context `{EthLib} (cfg : Config).
Implicit Types (h parent header : EthHeader).

Lemma int_bytes_inj x y : 0 ≤ x → 0 ≤ y → int_bytes x = int_bytes y → x = y.
Proof.
  assert (∀ z, 0 < z → be_get (int_bytes z) = z) as Hg.
  { intros z Hz. unfold int_bytes. rewrite decide_False by lia. apply be_get_put_small. split; [lia|].
    pose proof (Z.log2_nonneg z). pose proof (Z.div_pos (Z.log2 z) 8).
    rewrite Z2Nat.id by lia. apply log2_byte; lia. }
  assert (∀ z, 0 < z → int_bytes z ≠ []) as Hn.
  { intros z Hz E. pose proof (Hg z Hz) as E'. rewrite E in E'. cbn in E'. lia. }
  intros Hx Hy E. destruct (decide (x = 0)) as [->|], (decide (y = 0)) as [->|]; [done| | |].
  - exfalso. apply (Hn y); [lia|]. by rewrite <- E.
  - exfalso. apply (Hn x); [lia|]. by rewrite E.
  - rewrite <- (Hg x), <- (Hg y), E by lia. done.
Qed.

Lemma int_bytes_length x : 0 ≤ x < 2 ^ 256 → blen (int_bytes x) ≤ 32.
Proof.
  intros Hx. unfold int_bytes. case_decide; [cbn; lia|]. rewrite length_be_put.
  assert (Z.log2 x < 256) by (apply Z.log2_lt_pow2; lia). pose proof (Z.div_lt_upper_bound (Z.log2 x) 8 32).
  pose proof (Z.log2_nonneg x). lia.
Qed.

Lemma enc_string_bound b : blen b < 2 ^ 62 → blen (enc_string b) ≤ blen b + 9.
Proof.
  intros Hb. unfold enc_string. pose proof (puthead_le 0x80 0xB7 (blen b) ltac:(split; lia)) as Hp.
  destruct b as [|x [|y b]]; [|case_decide; [cbn; lia|]|]; rewrite length_app; lia.
Qed.

(** The encoding of a header read from JSON is short enough for the encoder. *)
Lemma mjoin_bound (l : list rlp_item) : Forall (λ it, blen (rlp_enc it) ≤ 300) l → blen (mjoin (rlp_enc <$> l)) ≤ 300 * blen l.
Proof.
  induction 1 as [|it l Hit Hl IH]; [cbn; lia|]. rewrite fmap_cons. change (mjoin (?x :: ?l)) with (x ++ mjoin l).
  rewrite length_app. cbn [length]. lia.
Qed.

Definition small_items h : list rlp_item :=
  [Str (to_slice (ParentHash h)); Str (to_slice (UncleHash h)); Str (to_slice (Coinbase h)); Str (to_slice (eh_Root h));
   Str (to_slice (eh_TxHash h)); Str (to_slice (ReceiptHash h)); Str (to_slice (Bloom h)); Str (int_bytes (Difficulty h));
   Str (int_bytes (Number h)); Str (int_bytes (GasLimit h)); Str (int_bytes (GasUsed h)); Str (int_bytes (eh_Time h))].
Definition last_items h : list rlp_item :=
  [Str (to_slice (MixDigest h)); Str (to_slice (eh_Nonce h))] ++
  ((λ i, Str (int_bytes (default 0 i))) <$> strip_nil [BaseFee h]).

Lemma header_item h : item_of (header_value h) = Lst (small_items h ++ Str (eh_Extra h) :: last_items h).
Proof. done. Qed.

Lemma small_bound b : blen b ≤ 291 → blen (rlp_enc (Str b)) ≤ 300.
Proof. intros Hb. cbn [rlp_enc]. pose proof (enc_string_bound b). lia. Qed.
Lemma slice_bound n (a : array n) : (n ≤ 256)%nat → blen (rlp_enc (Str (to_slice a))) ≤ 300.
Proof. intros Hn. apply small_bound. rewrite length_to_slice. lia. Qed.
Lemma num_bound x : 0 ≤ x < 2 ^ 256 → blen (rlp_enc (Str (int_bytes x))) ≤ 300.
Proof. intros Hx. apply small_bound. pose proof (int_bytes_length x Hx). lia. Qed.
Lemma u64_bound x : is_u64 x → blen (rlp_enc (Str (int_bytes x))) ≤ 300.
Proof. intros [H1 H2]. apply num_bound. lia. Qed.

Lemma header_enc_bound h : header_wf h → blen (rlp_enc (item_of (header_value h))) < 2 ^ 63.
Proof.
  intros [Hd Hn (Hg1 & Hg2 & Hg3) Hf He]. rewrite header_item. cbn [rlp_enc].
  rewrite fmap_app, fmap_cons, join_app. change (mjoin (?x :: ?l)) with (x ++ mjoin l). rewrite !length_app.
  assert (blen (mjoin (rlp_enc <$> small_items h)) ≤ 300 * 12) as Hs.
  { apply mjoin_bound. repeat constructor; first [apply slice_bound; lia|by apply num_bound|by apply u64_bound]. }
  assert (blen (mjoin (rlp_enc <$> last_items h)) ≤ 300 * 3) as Hl.
  { transitivity (300 * blen (last_items h)); [apply mjoin_bound|].
    - unfold last_items. constructor; [apply slice_bound; lia|]. constructor; [apply slice_bound; lia|].
      destruct (BaseFee h) as [fee|]; cbn in Hf; [|constructor]. constructor; [by apply num_bound|constructor].
    - unfold last_items. destruct (BaseFee h); cbn; lia. }
  pose proof (enc_string_bound (eh_Extra h) ltac:(lia)) as Hx. cbn [rlp_enc].
  match goal with |- context [puthead _ _ ?n] => pose proof (puthead_le 0xC0 0xF7 n ltac:(split; lia)) end. lia.
Qed.

Lemma header_value_ok h : header_wf h → value_ok (header_value h).
Proof.
  intros [Hd Hn (?&?&?) Hf ?]. cbn [value_ok header_value default].
  split_and!; try done; try (cbn; lia). constructor; [lia|constructor].
Qed.

(** C22 (a header's hash commits to it).  Two headers that can be read from JSON and
    have the same hash are the same in every field, the presence of the base fee
    included, or their encodings are two different inputs of Keccak with the same
    hash. *)
Theorem eth_Hash_binding h1 h2 :
  header_wf h1 → header_wf h2 → eth_Hash h1 = eth_Hash h2 →
  h1 = h2 ∨ ∃ b1 b2, EncodeToBytes (header_value h1) = Ok b1 ∧ EncodeToBytes (header_value h2) = Ok b2 ∧
    b1 ≠ b2 ∧ Keccak256 b1 = Keccak256 b2.
Proof.
  intros H1 H2 E. unfold eth_Hash, rlpHash in E.
  rewrite !encode_ok in E by (by apply header_value_ok || by apply header_enc_bound).
  destruct (decide (rlp_enc (item_of (header_value h1)) = rlp_enc (item_of (header_value h2)))) as [Ee|Hne]; [left|right].
  2: { eexists _, _. rewrite !encode_ok by (by apply header_value_ok || by apply header_enc_bound). done. }
  assert (item_of (header_value h1) = item_of (header_value h2)) as Ei.
  { apply (enc_inj _ _ [] []); rewrite !app_nil_r; [by apply header_enc_bound|done]. }
  destruct H1 as [[? _] [? _] ([? _] & [? _] & [? _]) [? _] _], H2 as [[? _] [? _] ([? _] & [? _] & [? _]) [? _] _].
  rewrite !header_item in Ei. destruct h1 as [????????????????], h2 as [????????????????]. cbn in Ei. cbn in *.
  injection Ei as E1 E2 E3 E4 E5 E6 E7 E8 E9 E10 E11 E12 E13 E14 E15 Efee.
  apply to_slice_inj in E1, E2, E3, E4, E5, E6, E7, E14, E15.
  apply int_bytes_inj in E8, E9, E10, E11, E12; [|done..]. subst. f_equal.
  destruct BaseFee0 as [f|], BaseFee1 as [f'|]; cbn in Efee; try discriminate; [|done].
  injection Efee as Efee. apply int_bytes_inj in Efee; [by subst|done..].
Qed.


Lemma calculator_min delay time parent : MinimumDifficulty ≤ makeDifficultyCalculator delay time parent.
Proof.
  unfold makeDifficultyCalculator. destruct (decide (1 < _)); [|lia].
  match goal with |- context [2 ^ ?e] => pose proof (Z.pow_nonneg 2 e) end. lia.
Qed.

Lemma calculators_agree time parent : DifficultyBoundDivisor = 2048 →
  difficultyCalculator time parent = makeDifficultyCalculator 9000000 time parent.
Proof.
  intros E. unfold difficultyCalculator, makeDifficultyCalculator, BLOCK_DIFF_FACTOR, DIFF_PERIOD, BOMB_DELAY. rewrite E.
  change (9000000 - 1) with 8999999. set (u := (if decide (UncleHash parent = EmptyUncleHash) then 1 else 2) - _).
  replace (if decide (u < -99) then -99 else u) with (Z.max u (-99)) by (case_decide; lia).
  set (v := _ + _ * _). by replace (if decide (v < MinimumDifficulty) then MinimumDifficulty else v) with (Z.max v MinimumDifficulty)
    by (case_decide; lia).
Qed.

(** Difficulty rules.  With the bound divisor 2048 of the protocol, the expected
    difficulty is at least the minimum on every fork; before the bomb starts it is the
    minimum or at most 99 / 2048 below and 2 / 2048 above the parent's; and the
    calculator used before London is the general one with a delay of nine million
    blocks. *)
Theorem difficulty_rules header parent :
  DifficultyBoundDivisor = 2048 → 0 ≤ Difficulty parent → eh_Time parent < eh_Time header →
  let d := expected_difficulty cfg header parent in
  MinimumDifficulty ≤ d ∧
  (Number parent < 8999999 →
    d = MinimumDifficulty ∨
    Difficulty parent - 99 * (Difficulty parent / 2048) ≤ d ≤ Difficulty parent + 2 * (Difficulty parent / 2048)) ∧
  difficultyCalculator (eh_Time header) parent = makeDifficultyCalculator 9000000 (eh_Time header) parent.
Proof.
  intros E Hd Ht. pose proof (Z.div_pos (Difficulty parent) 2048 Hd ltac:(lia)) as Hp.
  pose proof (Z.div_pos (eh_Time header - eh_Time parent) 9 ltac:(lia) ltac:(lia)) as Hx.
  assert (difficultyCalculator (eh_Time header) parent = makeDifficultyCalculator 9000000 (eh_Time header) parent) as Heq
    by (by apply calculators_agree).
  assert (∃ delay, 9000000 ≤ delay ∧ expected_difficulty cfg header parent = makeDifficultyCalculator delay (eh_Time header) parent) as (delay & Hdel & ->).
  { unfold expected_difficulty. rewrite Heq. destruct (isArrowGlacier cfg header); [eexists; split; [|done]; lia|].
    destruct (isLondon cfg header); eexists; (split; [|done]); lia. }
  cbn zeta. split; [apply calculator_min|]. split; [|done]. intros Hn.
  unfold makeDifficultyCalculator. rewrite E. rewrite (decide_False (P := delay - 1 ≤ Number parent)) by lia.
  rewrite Z.div_0_l by lia. rewrite (decide_False (P := 1 < 0)) by lia. set (u := (if decide (UncleHash parent = EmptyUncleHash) then 1 else 2) - _).
  assert (u ≤ 2) by (subst u; case_decide; lia).
  destruct (Z.max_spec (Difficulty parent + Difficulty parent `div` 2048 * Z.max u (-99)) MinimumDifficulty) as [[_ ->]|[_ ->]];
    [by left|right; nia].
Qed.

End properties.
