(* ===== verification/PoaSync.v ===== *)
(** * Header synchronisation of chains with proof of authority
    (header_sync/bsc, bytom, heco and hsc: header_sync.go; heco/utils.go)

    The four handlers share their code but for the names in error messages, the
    library a header is hashed with, and the points where [poa_flavor] is asked:
    BSC and Bytom ([Parlia]) let a new validator set wait until half of the old one
    has signed, HECO and HSC use it at once and check the period between blocks.

    Loops that end only because of what is stored run on [fuel]; [addHeader_run] and
    [getPrev_run] in PoaChain and PoaEpoch say how much is enough. *)

From S2P Require Import Prelude Sha256 Sink Source Serialization BytesOrder MemDB OverlayDB CacheDB Contract MerkleSpec MerkleHasher Native Codec NodeStates NodeManager CrossCommon ConsensusVote SideStates SideChain CrossChain HsCommon Rlp RlpSpec EthHeader.

(** ** Data *)

Record HeightAndValidators := mkHeightAndValidators {
  hv_Height : option Z;
  Validators : list Address;
  hv_Hash : option Uint256;
}.
Record GenesisHeader := mkGenesisHeader { gh_Header : EthHeader; PrevValidators : list HeightAndValidators }.
Record PoaExtraInfo := mkPoaExtraInfo { xi_ChainID : Z; xi_Period : Z }.
Record PoaContext := mkPoaContext { ctx_ExtraInfo : PoaExtraInfo; ctx_ChainID : Z }.
Record HeaderWithDifficultySum := mkHeaderWithDifficultySum {
  ws_Header : EthHeader;
  DifficultySum : Z;
  EpochParentHash : option Uint256;
}.

Inductive flavor := Parlia | Heco | Hsc.
#[export] Instance flavor_eq_dec : EqDecision flavor.
Proof. solve_decision. Defined.

(** What differs between the chains, and the JSON text of the data, whose fields have
    types of go-ethereum. *)
Class PoaChain := {
  poa_name : string;
  poa_flavor : flavor;
  poa_Hash : EthHeader → Uint256;
  poa_rlp : rlp_value → res bytes;
  json_header : bytes → res EthHeader;
  json_extra : bytes → res PoaExtraInfo;
  json_genesis : bytes → res GenesisHeader;
  marshal_genesis : GenesisHeader → res bytes;
  json_sum : bytes → res HeaderWithDifficultySum;
  marshal_sum : HeaderWithDifficultySum → res bytes;
}.

Definition extraVanity : Z := 32.
Definition extraSeal : Z := 65.
Definition AddressLength : Z := 20.
Definition diffInTurn : Z := 2.
Definition diffNoTurn : Z := 1.
Definition parlia_GasLimitBoundDivisor : Z := 256.

(** A callee whose error is looked at and not returned. *)
Fixpoint ctry {E A} (m : contract E A) : contract E (res A) :=
  match m with
  | CRet a => CRet (Ok a)
  | CFail e => CRet (Err e)
  | CPanic => CPanic
  | CGet key f => CGet key (λ r, ctry (f r))
  | CPut key v c => CPut key v (ctry c)
  | CDel key c => CDel key (ctry c)
  | CGetS f => CGetS (λ s, ctry (f s))
  | CPutS s c => CPutS s (ctry c)
  end.

Section poa.
Context `{Hasher} `{Crypto} `{EthLib} `{PoaChain} (cfg : Config) (fuel : nat).

Definition msg (s : string) : string := poa_name +:+ " Handler " +:+ s.

(** ** Storage *)

Definition getGenesis (chainID : Z) : contract NativeService (option GenesisHeader) :=
  genesisBytes ← cwrap "getGenesis, GetCacheDB err:" (cget (genesis_key chainID));
  if decide (genesisBytes = []) then mret None else
  genesisBytes ← cwrap "getGenesis, GetValueFromRawStorageItem err:" (lift_res (GetValueFromRawStorageItem genesisBytes));
  genesisHeader ← cwrap "getGenesis, json.Unmarshal err:" (lift_res (json_genesis genesisBytes));
  mret (Some genesisHeader).

Definition isGenesisStored (params : SyncGenesisHeaderParam) : contract NativeService bool :=
  genesis ← getGenesis (sg_ChainID params);
  mret (bool_decide (is_Some genesis)).

Definition isHeaderExist (headerHash : Uint256) (ctx : PoaContext) : contract NativeService bool :=
  headerStore ← cwrap (msg "isHeaderExist error: ") (cget (header_key (ctx_ChainID ctx) (to_slice headerHash)));
  mret (bool_decide (headerStore ≠ [])).

Definition getHeader (hash : Uint256) (chainID : Z) : contract NativeService HeaderWithDifficultySum :=
  headerStore ← cwrap (msg "getHeader error: ") (cget (header_key chainID (to_slice hash)));
  if decide (headerStore = []) then CFail (msg "getHeader, can not find any header records") else
  storeBytes ← cwrap (msg "getHeader, deserialize headerBytes from raw storage item err:") (lift_res (GetValueFromRawStorageItem headerStore));
  cwrap (msg "getHeader, deserialize header error: ") (lift_res (json_sum storeBytes)).

Definition putHeaderWithSum (chainID : Z) (headerWithSum : HeaderWithDifficultySum) : contract NativeService unit :=
  headerBytes ← lift_res (marshal_sum headerWithSum);
  cput (header_key chainID (to_slice (poa_Hash (ws_Header headerWithSum)))) (GenRawStorageItem headerBytes).

Definition GetCanonicalHeight (chainID : Z) : contract NativeService Z :=
  heightStore ← cwrap (msg "GetCanonicalHeight err:") (cget (current_key chainID));
  storeBytes ← cwrap (msg "GetCanonicalHeight, GetValueFromRawStorageItem err:") (lift_res (GetValueFromRawStorageItem heightStore));
  mret (GetBytesUint64 storeBytes).
Definition putCanonicalHeight (chainID height : Z) : contract NativeService unit :=
  cput (current_key chainID) (GenRawStorageItem (GetUint64Bytes height)).

(** The zero hash where there is none. *)
Definition getCanonicalHash (chainID height : Z) : contract NativeService Uint256 :=
  hashBytesStore ← cget (main_key chainID height);
  if decide (hashBytesStore = []) then mret EMPTY_HASH else
  hashBytes ← cwrap (msg "getCanonicalHash, GetValueFromRawStorageItem err:") (lift_res (GetValueFromRawStorageItem hashBytesStore));
  mret (BytesToHash hashBytes).
Definition putCanonicalHash (chainID height : Z) (hash : Uint256) : contract NativeService unit :=
  cput (main_key chainID height) (GenRawStorageItem (to_slice hash)).
Definition deleteCanonicalHash (chainID height : Z) : contract NativeService unit := cdel (main_key chainID height).

Definition GetCanonicalHeader (chainID height : Z) : contract NativeService (option HeaderWithDifficultySum) :=
  hash ← getCanonicalHash chainID height;
  if decide (hash = EMPTY_HASH) then mret None else
  headerWithSum ← getHeader hash chainID;
  mret (Some headerWithSum).

(** ** Genesis *)

Fixpoint parse_addresses (n : nat) (b : bytes) : list Address :=
  match n with
  | O => []
  | S n => BytesToAddress (take 20 b) :: parse_addresses n (drop 20 b)
  end.
Definition ParseValidators (validatorsBytes : bytes) : res (list Address) :=
  if decide (blen validatorsBytes mod AddressLength ≠ 0) then Err "invalid validators bytes"
  else Ok (parse_addresses (length validatorsBytes / 20) validatorsBytes).

Definition storeGenesis (params : SyncGenesisHeaderParam) (genesisHeader : GenesisHeader) : contract NativeService unit :=
  let header := gh_Header genesisHeader in
  genesisBytes ← lift_res (marshal_genesis genesisHeader);
  cput (genesis_key (sg_ChainID params)) (GenRawStorageItem genesisBytes) ;;
  putHeaderWithSum (sg_ChainID params) (mkHeaderWithDifficultySum header (Difficulty header) None) ;;
  putCanonicalHeight (sg_ChainID params) (Number_u64 header) ;;
  putCanonicalHash (sg_ChainID params) (Number_u64 header) (poa_Hash header) ;;
  NotifyPutHeader cfg (sg_ChainID params) (Number_u64 header) (Hash_Hex (poa_Hash header)).

Definition SyncGenesisHeader : contract NativeService unit :=
  params ← input_as (A := SyncGenesisHeaderParam) (msg "SyncGenesisHeader, contract params deserialize error: ");
  operatorAddress ← cwrap (msg "SyncGenesisHeader, get current consensus operator address error: ") GetCurConOperator;
  cwrap (msg "SyncGenesisHeader, checkWitness error: ") (ValidateOwner operatorAddress) ;;
  stored ← cwrap (msg "SyncGenesisHeader, isGenesisStored error: ") (isGenesisStored params);
  cguard (negb stored) (msg "SyncGenesisHeader, genesis had been initialized") ;;
  genesis ← cwrap (msg "SyncGenesisHeader, deserialize GenesisHeader err: ") (lift_res (json_genesis (sg_GenesisHeader params)));
  let header := gh_Header genesis in
  let signersBytes := blen (eh_Extra header) - extraVanity - extraSeal in
  cguard (negb (bool_decide (signersBytes = 0 ∨ Z.rem signersBytes AddressLength ≠ 0))) "invalid signer list" ;;
  prev ← (match PrevValidators genesis with [p] => mret p | _ => CFail "invalid PrevValidators" end);
  height ← (match hv_Height prev with Some h => mret h | None => CPanic end);
  cguard (bool_decide (height < Number header)) "invalid height orders" ;;
  list ← (match go_slice (eh_Extra header) extraVanity (extraVanity + signersBytes) with Some b => mret b | None => CPanic end);
  validators ← lift_res (ParseValidators list);
  cwrap (msg "SyncGenesisHeader, storeGenesis error: ")
    (storeGenesis params (mkGenesisHeader header (mkHeightAndValidators (Some (Number header)) validators None :: PrevValidators genesis))).

(** ** Fork choice *)

Fixpoint delete_above (fuel : nat) (chainID i : Z) : contract NativeService unit :=
  match fuel with
  | O => CFail "out of fuel"
  | S fuel =>
      headerWithSum ← GetCanonicalHeader chainID i;
      match headerWithSum with
      | None => mret tt
      | Some _ => deleteCanonicalHash chainID i ;; delete_above fuel chainID (u64 (i + 1))
      end
  end.

Fixpoint overwrite_below (fuel : nat) (chainID cheight : Z) (headHash : Uint256) : contract NativeService unit :=
  match fuel with
  | O => CFail "out of fuel"
  | S fuel =>
      hash ← getCanonicalHash chainID cheight;
      if decide (hash = headHash) then mret tt else
      putCanonicalHash chainID cheight headHash ;;
      headHeader ← getHeader headHash chainID;
      overwrite_below fuel chainID (u64 (cheight - 1)) (ParentHash (ws_Header headHeader))
  end.

Definition addHeader (header : EthHeader) (phv : HeightAndValidators) (ctx : PoaContext) : contract NativeService unit :=
  let chainID := ctx_ChainID ctx in
  parentHeader ← getHeader (ParentHash header) chainID;
  cheight ← GetCanonicalHeight chainID;
  cheader ← GetCanonicalHeader chainID cheight;
  match cheader with
  | None => CFail "getCanonicalHeader returns nil"
  | Some cheader =>
      let localTd := DifficultySum cheader in
      let externTd := Difficulty header + DifficultySum parentHeader in
      putHeaderWithSum chainID (mkHeaderWithDifficultySum header externTd (hv_Hash phv)) ;;
      if decide (localTd < externTd) then
        delete_above fuel chainID (u64 (Number_u64 header + 1)) ;;
        overwrite_below fuel chainID (u64 (Number_u64 header - 1)) (ParentHash header) ;;
        putCanonicalHash chainID (Number_u64 header) (poa_Hash header) ;;
        putCanonicalHeight chainID (Number_u64 header)
      else mret tt
  end.

(** ** Validators *)

(** [genesis.PrevValidators[i]]. *)
Definition prev_validators (genesis : GenesisHeader) (i : nat) : contract NativeService HeightAndValidators :=
  match PrevValidators genesis !! i with Some hv => mret hv | None => CPanic end.

Definition with_hash (hash : Uint256) (hv : HeightAndValidators) : HeightAndValidators :=
  mkHeightAndValidators (hv_Height hv) (Validators hv) (Some hash).

(** The last two validator sets above [prevHeader], the second one once the first is
    known. *)
Fixpoint epoch_loop (fuel : nat) (chainID : Z) (genesis : GenesisHeader) (phv : option HeightAndValidators)
    (prevHeader : HeaderWithDifficultySum) : contract NativeService (HeightAndValidators * HeightAndValidators) :=
  match fuel with
  | O => CFail "out of fuel"
  | S fuel =>
      let genesisHeaderHash := poa_Hash (gh_Header genesis) in
      let header := ws_Header prevHeader in
      let walk phv :=
        let nextParentHash := default (ParentHash header) (EpochParentHash prevHeader) in
        if decide (nextParentHash = genesisHeaderHash) then
          match phv with
          | None => phv ← prev_validators genesis 0; pphv ← prev_validators genesis 1; mret (with_hash genesisHeaderHash phv, pphv)
          | Some phv => pphv ← prev_validators genesis 0; mret (phv, pphv)
          end
        else
          prevHeader ← cwrap (msg "getHeader error: ") (getHeader nextParentHash chainID);
          epoch_loop fuel chainID genesis phv prevHeader in
      if decide (extraVanity + extraSeal < blen (eh_Extra header)) then
        list ← (match go_slice (eh_Extra header) extraVanity (blen (eh_Extra header) - extraSeal) with Some b => mret b | None => CPanic end);
        validators ← cwrap (msg "ParseValidators error: ") (lift_res (ParseValidators list));
        let hv := mkHeightAndValidators (Some (Number header)) validators None in
        match phv with
        | None => walk (Some (with_hash (poa_Hash header) hv))
        | Some phv => mret (phv, hv)
        end
      else walk phv
  end.

(** The last height at which [target] signed, scanning [n] headers; an error of
    [getHeader] is assigned to a variable of the loop and lost. *)
Fixpoint recent_loop (n : nat) (chainID : Z) (target : Address) (genesisHeaderHash nextRecentParentHash : Uint256) (lastSeenHeight : Z) :
    contract NativeService Z :=
  match n with
  | O => mret lastSeenHeight
  | S n =>
      r ← ctry (getHeader nextRecentParentHash chainID);
      match r with
      | Ok prevHeader =>
          if decide (Coinbase (ws_Header prevHeader) = target) then mret (Number_i64 (ws_Header prevHeader))
          else if decide (nextRecentParentHash = genesisHeaderHash) then mret lastSeenHeight
          else recent_loop n chainID target genesisHeaderHash (ParentHash (ws_Header prevHeader)) lastSeenHeight
      | _ => mret lastSeenHeight
      end
  end.

Definition getPrevHeightAndValidators (header : EthHeader) (ctx : PoaContext) :
    contract NativeService (HeightAndValidators * HeightAndValidators * Z) :=
  let chainID := ctx_ChainID ctx in
  genesis ← cwrap (msg "getGenesis error: ") (getGenesis chainID);
  match genesis with
  | None => CFail (msg "genesis not set")
  | Some genesis =>
      let genesisHeaderHash := poa_Hash (gh_Header genesis) in
      cguard (bool_decide (poa_Hash header ≠ genesisHeaderHash)) "genesis header should not be synced again" ;;
      let target := Coinbase header in
      if decide (ParentHash header = genesisHeaderHash) then
        phv ← prev_validators genesis 0;
        pphv ← prev_validators genesis 1;
        mret (with_hash genesisHeaderHash phv, pphv,
              if decide (Coinbase (gh_Header genesis) = target) then Number_i64 (gh_Header genesis) else -1)
      else
        prevHeader ← cwrap (msg "getHeader error: ") (getHeader (ParentHash header) chainID);
        '(phv, pphv) ← epoch_loop fuel chainID genesis None prevHeader;
        if decide (Coinbase (ws_Header prevHeader) = target) then mret (phv, pphv, Number_i64 (ws_Header prevHeader)) else
        let maxLimit := (Nat.max (length (Validators phv)) (length (Validators pphv)) / 2)%nat in
        last ← recent_loop (maxLimit - 1) chainID target genesisHeaderHash (ParentHash (ws_Header prevHeader)) (-1);
        mret (phv, pphv, last)
  end.

(** ** Verification of a header *)

(** The clock and the height of the relay chain's block. *)
Context (now : Z).

Definition needFix (height : Z) : bool :=
  bool_decide (NetworkId cfg = NETWORK_ID_TEST_NET ∧ height < 14939298) ||
  bool_decide (NetworkId cfg = NETWORK_ID_MAIN_NET ∧ height ≤ 12553530).

Definition is120 (h : EthHeader) : bool :=
  bool_decide (is_Some (BaseFee h)) || bool_decide (GetHeco120Height (NetworkId cfg) ≤ Number_u64 h).

(** [VerifyEip1559Header] of HECO: the base fee is always zero. *)
Definition heco_CalcBaseFee (parent : EthHeader) : Z := 0.
Definition heco_VerifyEip1559Header (parent header : EthHeader) : res unit :=
  res_bind (VerifyGaslimit (GasLimit parent) (GasLimit header)) (λ _,
  match BaseFee header with
  | None => Err "header is missing baseFee"
  | Some fee => if decide (fee = heco_CalcBaseFee parent) then Ok tt else Err "invalid baseFee"
  end).

(** The fields that [encodeSigHeader] encodes; the chain's id is part of it for
    Parlia. *)
Definition seal_value (header : EthHeader) (chainID : Z) (extra : bytes) : rlp_value :=
  RList ((match poa_flavor with Parlia => [RBig (Some chainID)] | _ => [] end) ++
    [RArray (to_slice (ParentHash header)); RArray (to_slice (UncleHash header)); RArray (to_slice (Coinbase header));
     RArray (to_slice (eh_Root header)); RArray (to_slice (eh_TxHash header)); RArray (to_slice (ReceiptHash header));
     RArray (to_slice (Bloom header)); RBig (Some (Difficulty header)); RBig (Some (Number header)); RUint (GasLimit header);
     RUint (GasUsed header); RUint (eh_Time header); RBytes extra; RArray (to_slice (MixDigest header));
     RArray (to_slice (eh_Nonce header))]).
Definition encodeSigHeader (header : EthHeader) (chainID : Z) : res bytes :=
  match go_slice (eh_Extra header) 0 (blen (eh_Extra header) - 65) with
  | None => Panic
  | Some extra => match poa_rlp (seal_value header chainID extra) with Ok b => Ok b | _ => Panic end
  end.
Definition SealHash (header : EthHeader) (chainID : Z) : res Uint256 :=
  res_bind (encodeSigHeader header chainID) (λ b, Ok (Keccak256 b)).

Definition ecrecover (header : EthHeader) (chainID : Z) : res Address :=
  if decide (blen (eh_Extra header) < extraSeal) then Err "extra-data 65 byte signature suffix missing" else
  let signature := drop (Z.to_nat (blen (eh_Extra header) - extraSeal)) (eh_Extra header) in
  res_bind (SealHash header chainID) (λ h,
  res_bind (Ecrecover (to_slice h) signature) (λ pubkey,
  match pubkey with
  | [] => Panic
  | _ :: pubkey => Ok (copy_array 20 (drop 12 (to_slice (Keccak256 pubkey))))
  end)).

Definition verifySeal (header : EthHeader) (ctx : PoaContext) : res Address :=
  if decide (Number_u64 header = 0) then Err "unknown block" else
  res_bind (ecrecover header (xi_ChainID (ctx_ExtraInfo ctx))) (λ signer,
  if decide (signer = Coinbase header) then Ok signer else Err "coinbase do not match with signature").

Definition gas_capacity : Z := 0x7fffffffffffffff.

(** The checks against the parent, by chain. *)
Definition verify_fields (height : Z) (parent header : EthHeader) (ctx : PoaContext) : res unit :=
  match poa_flavor with
  | Parlia =>
      if decide (gas_capacity < GasLimit header) then Err "invalid gasLimit"
      else if decide (GasLimit header < GasUsed header) then Err "invalid gasUsed"
      else if decide (GasLimit parent `div` parlia_GasLimitBoundDivisor ≤ gas_diff (GasLimit parent) (GasLimit header) ∨
                      GasLimit header < MinGasLimit) then Err "invalid gas limit"
      else Ok tt
  | f =>
      if decide (eh_Time header < u64 (eh_Time parent + xi_Period (ctx_ExtraInfo ctx))) then Err "invalid timestamp"
      else if decide (GasLimit header < GasUsed header) then Err "invalid gasUsed"
      else if decide (f = Hsc) then Ok tt
      else if negb (is120 header) || needFix height then
        (if decide (BaseFee header = None) then VerifyGaslimit (GasLimit parent) (GasLimit header) else Err "invalid baseFee before fork")
      else heco_VerifyEip1559Header parent header
  end.

Definition verifyCascadingFields (header : EthHeader) (ctx : PoaContext) : contract NativeService Address :=
  parent ← getHeader (ParentHash header) (ctx_ChainID ctx);
  cguard (bool_decide (Number_u64 (ws_Header parent) = u64 (Number_u64 header - 1))) "unknown ancestor" ;;
  height ← cask ns_height;
  lift_res (verify_fields height (ws_Header parent) header ctx) ;;
  lift_res (verifySeal header ctx).

Definition poa_verifyHeader (header : EthHeader) (ctx : PoaContext) : contract NativeService Address :=
  cguard (bool_decide (eh_Time header ≤ now)) "block in the future" ;;
  cguard (bool_decide (extraVanity ≤ blen (eh_Extra header))) "extra-data 32 byte vanity prefix missing" ;;
  cguard (bool_decide (extraVanity + extraSeal ≤ blen (eh_Extra header))) "extra-data 65 byte signature suffix missing" ;;
  cguard (bool_decide ((blen (eh_Extra header) - extraVanity - extraSeal) mod AddressLength = 0)) "invalid signer list" ;;
  cguard (bool_decide (MixDigest header = EMPTY_HASH)) "non-zero mix digest" ;;
  cguard (bool_decide (UncleHash header = EmptyUncleHash)) "non empty uncle hash" ;;
  cguard (bool_decide (Difficulty header = diffInTurn ∨ Difficulty header = diffNoTurn)) "invalid difficulty" ;;
  cguard (bool_decide (poa_flavor = Parlia ∨ GasLimit header ≤ gas_capacity)) "invalid gasLimit" ;;
  verifyCascadingFields header ctx.

Definition verifySignature (header : EthHeader) (ctx : PoaContext) : contract NativeService Address := poa_verifyHeader header ctx.

(** ** Blocks *)

(** The validator set in force; a header that changes it again too early is refused. *)
Definition in_turn_set (header : EthHeader) (phv pphv : HeightAndValidators) : contract NativeService HeightAndValidators :=
  let changes := bool_decide (extraVanity + extraSeal < blen (eh_Extra header)) in
  let half hv := Z.of_nat (length (Validators hv) / 2) in
  match hv_Height phv with
  | None => CPanic
  | Some height =>
      let diffWithLastEpoch := swrap 64 (Number header - height) in
      match poa_flavor with
      | Parlia =>
          if decide (diffWithLastEpoch ≤ half pphv) then
            cguard (negb changes) (msg "SyncBlockHeader: can not change epoch continuously") ;; mret pphv
          else mret phv
      | _ =>
          cguard (negb (changes && bool_decide (diffWithLastEpoch ≤ half phv))) (msg "SyncBlockHeader: can not change epoch continuously") ;;
          mret phv
      end
  end.

(** The loop over the validators: whether the signer is one of them, with the
    difficulty of its turn. *)
Fixpoint turn_loop (header : EthHeader) (signer : Address) (indexInTurn idx : Z) (validators : list Address) (valid : bool) : res bool :=
  match validators with
  | [] => Ok valid
  | v :: validators =>
      if decide (v = signer) then
        if decide (indexInTurn = idx) then
          if decide (Difficulty header = diffInTurn) then turn_loop header signer indexInTurn (idx + 1) validators true else Err "invalid difficulty"
        else
          if decide (Difficulty header = diffNoTurn) then turn_loop header signer indexInTurn (idx + 1) validators true else Err "invalid difficulty"
      else turn_loop header signer indexInTurn (idx + 1) validators valid
  end.

Definition check_turn (header : EthHeader) (signer : Address) (inTurnHV : HeightAndValidators) : res unit :=
  let n := blen (Validators inTurnHV) in
  if decide (n = 0) then Panic else
  let indexInTurn := Z.rem (swrap 64 (Number_u64 header)) n in
  if decide (indexInTurn < 0) then Err "indexInTurn is negative" else
  res_bind (turn_loop header signer indexInTurn 0 (Validators inTurnHV) false) (λ valid,
  if (valid : bool) then Ok tt else Err (msg "SyncBlockHeader, invalid signer")).

Definition check_recent (header : EthHeader) (lastSeenHeight : Z) (inTurnHV : HeightAndValidators) : contract NativeService unit :=
  let limit := Z.of_nat (length (Validators inTurnHV) / 2) in
  cguard (bool_decide (lastSeenHeight ≤ 0 ∨ swrap 64 (lastSeenHeight + limit) < Number_i64 header))
    (msg "SyncBlockHeader, RecentlySigned").

Definition drop_base_fee (header : EthHeader) : EthHeader := To1559 header.

(** One header of the list: known headers and headers without a known parent are
    skipped. *)
Definition sync_header (ctx : PoaContext) (v : bytes) : contract NativeService unit :=
  header ← cwrap (msg "SyncBlockHeader, deserialize header err: ") (lift_res (json_header v));
  height ← cask ns_height;
  let header := if bool_decide (poa_flavor = Heco) && needFix height then drop_base_fee header else header in
  exist ← cwrap (msg "SyncBlockHeader, isHeaderExist headerHash err: ") (isHeaderExist (poa_Hash header) ctx);
  if (exist : bool) then mret tt else
  parentExist ← cwrap (msg "SyncBlockHeader, isHeaderExist ParentHash err: ") (isHeaderExist (ParentHash header) ctx);
  if negb parentExist then mret tt else
  signer ← cwrap (msg "SyncBlockHeader, verifySignature err: ") (verifySignature header ctx);
  '(phv, pphv, lastSeenHeight) ← cwrap (msg "SyncBlockHeader, getPrevHeightAndValidators err: ") (getPrevHeightAndValidators header ctx);
  inTurnHV ← in_turn_set header phv pphv;
  check_recent header lastSeenHeight inTurnHV ;;
  lift_res (check_turn header signer inTurnHV) ;;
  cwrap (msg "SyncBlockHeader, addHeader err: ") (addHeader header phv ctx) ;;
  NotifyPutHeader cfg (ctx_ChainID ctx) (Number_u64 header) (Hash_Hex (poa_Hash header)).

Definition SyncBlockHeader : contract NativeService unit :=
  headerParams ← input_as (A := SyncBlockHeaderParam) (msg "SyncBlockHeader, contract params deserialize error: ");
  side ← cwrap (msg "SyncBlockHeader, GetSideChain error: ") (GetSideChain (sb_ChainID headerParams));
  match side with
  | None => if decide (poa_flavor = Parlia) then CPanic else CFail (poa_name +:+ " Hander SyncBlockHeader, GetSideChain info nil")
  | Some side =>
      extraInfo ← cwrap (msg "SyncBlockHeader, ExtraInfo Unmarshal error: ") (lift_res (json_extra (ExtraInfo side)));
      let ctx := mkPoaContext extraInfo (sb_ChainID headerParams) in
      cforeach (Headers headerParams) tt (λ _ v, sync_header ctx v)
  end.

Definition SyncCrossChainMsg : contract NativeService unit := mret tt.

Definition poa_handler : HeaderSyncHandler := mkHeaderSyncHandler SyncGenesisHeader SyncBlockHeader SyncCrossChainMsg.

End poa.
