(* ===== verification/PoaChain.v ===== *)
(** * The main chain of a chain with proof of authority

    The store of a handler of PoaSync represents a light client ([HeaderTree]): the
    index of headers is its tree and the entries by height are its main chain.
    Adding a header moves the entries to the new branch exactly when the branch is
    heavier, however far back the branches part. *)

From S2P Require Import Prelude Sha256 Sink Source Serialization BytesOrder MemDB OverlayDB CacheDB Contract MerkleSpec MerkleHasher Native Codec NodeStates NodeManager NodeInv CrossCommon ConsensusVote SideStates SideChain CrossChain HsCommon Rlp RlpSpec EthHeader HeaderTree PoaSync.

#[export] Instance poa_node : HeaderNode HeaderWithDifficultySum := {|
  nd_parent x := ParentHash (ws_Header x);
  nd_number x := Number_u64 (ws_Header x);
  nd_td x := DifficultySum x;
|}.

(** Genesis data of a size that a call can carry. *)
Record genesis_wf (g : GenesisHeader) : Prop := mkGenesisWf {
  gw_header : header_wf (gh_Header g);
  gw_prev : ∀ hv, hv ∈ PrevValidators g → 0 ≤ default 0 (hv_Height hv) < 2 ^ 256 ∧ blen (Validators hv) < 2 ^ 40;
}.

(** What the handlers rely on: JSON text that was written can be read back, and a
    header that was read has the ranges of its types. *)
Class PoaLaws `{PoaChain} : Prop := {
  json_header_wf : ∀ v h, json_header v = Ok h → header_wf h;
  json_sum_marshal : ∀ x, header_wf (ws_Header x) → 0 ≤ DifficultySum x < 2 ^ 257 →
    ∃ b, marshal_sum x = Ok b ∧ blen b < 2 ^ 63 ∧ json_sum b = Ok x;
  json_genesis_marshal : ∀ g, genesis_wf g → length (PrevValidators g) = 2%nat →
    ∃ b, marshal_genesis g = Ok b ∧ blen b < 2 ^ 63 ∧ json_genesis b = Ok g;
}.

Lemma Number_u64_range h : is_u64 (Number_u64 h).
Proof. by apply uwrap_range. Qed.

#[local] Set Default Proof Using "Type*".

Section chain.
Context `{Hasher} `{Crypto} `{EthLib} `{!EthLibLaws} `{!PoaChain} `{!PoaLaws} (cfg : Config).
Implicit Types (m : kvmap) (s : NativeService) (c : Z) (h a : Uint256) (x : HeaderWithDifficultySum).
Implicit Types (T : gmap Uint256 HeaderWithDifficultySum) (C : Z → option Uint256).

(** ** What the store holds *)

(** A block adds at most two to the total difficulty. *)
Definition td_bound x : Prop := 0 ≤ DifficultySum x ≤ 2 ^ 256 + 2 * Number_u64 (ws_Header x).


(** The index of headers: each under its hash, and nothing else. *)
Record index_of m c T : Prop := mkIndex {
  ix_none : ∀ h, T !! h = None → kv_at m (header_key c (to_slice h)) = [];
  ix_some : ∀ h x, T !! h = Some x → ∃ b, kv_at m (header_key c (to_slice h)) = GenRawStorageItem b ∧ blen b < 2 ^ 63 ∧
    json_sum b = Ok x ∧ poa_Hash (ws_Header x) = h ∧ header_wf (ws_Header x) ∧ td_bound x;
}.

(** The entries by height. *)
Definition mains m c C : Prop := ∀ i, is_u64 i →
  kv_at m (main_key c i) = match C i with None => [] | Some a => GenRawStorageItem (to_slice a) end.

Definition height_is m c (n : Z) : Prop := kv_at m (current_key c) = GenRawStorageItem (GetUint64Bytes n).

(** The store represents the light client. *)
Record client m c (l : lightclient HeaderWithDifficultySum) : Prop := mkClient {
  cl_ok : lc_ok l;
  cl_index : index_of m c (lc_tree l);
  cl_zero : lc_tree l !! EMPTY_HASH = None;
  cl_bound : ∀ h x, lc_tree l !! h = Some x → Number_u64 (ws_Header x) < 2 ^ 64 - 1;
  cl_main : ∃ C, mains m c C ∧ ∀ i a, is_u64 i → C i = Some a ↔ main_chain l i a;
  cl_height : ∀ x, lc_tree l !! lc_head l = Some x → height_is m c (Number_u64 (ws_Header x));
}.

(** The stores differ only in the entries by height. *)
Definition same_but_main m m' c : Prop := ∀ k, (∀ i, k ≠ main_key c i) → kv_at m' k = kv_at m k.

Lemma same_but_main_refl m c : same_but_main m m c.
Proof. done. Qed.
Lemma same_but_main_trans m1 m2 m3 c : same_but_main m1 m2 c → same_but_main m2 m3 c → same_but_main m1 m3 c.
Proof. intros Ha Hb k Hk. by rewrite Hb, Ha. Qed.
Lemma same_but_main_insert m c i v : same_but_main m (<[main_key c i := v]> m) c.
Proof. intros k Hk. unfold kv_at. rewrite lookup_insert_ne; [done|]. intros E. by apply (Hk i). Qed.
Lemma same_but_main_delete m c i : same_but_main m (delete (main_key c i) m) c.
Proof. intros k Hk. unfold kv_at. rewrite lookup_delete_ne; [done|]. intros E. by apply (Hk i). Qed.

Lemma index_same m m' c T : same_but_main m m' c → index_of m c T → index_of m' c T.
Proof.
  intros Hs [Hn Hx]. split.
  - intros h Hh. rewrite Hs by auto with hskeys. by apply Hn.
  - intros h x Hh. rewrite Hs by auto with hskeys. by apply Hx.
Qed.

Lemma kv_at_insert m k k' v : kv_at (<[k := v]> m) k' = if decide (k' = k) then v else kv_at m k'.
Proof. unfold kv_at. case_decide as E; [subst; by rewrite lookup_insert_eq|by rewrite lookup_insert_ne]. Qed.
Lemma kv_at_delete m k k' : kv_at (delete k m) k' = if decide (k' = k) then [] else kv_at m k'.
Proof. unfold kv_at. case_decide as E; [subst; by rewrite lookup_delete_eq|by rewrite lookup_delete_ne]. Qed.

Lemma mains_put m c C i a : is_u64 i → mains m c C →
  mains (<[main_key c i := GenRawStorageItem (to_slice a)]> m) c (λ j, if decide (j = i) then Some a else C j).
Proof.
  intros Hi Hm j Hj. rewrite kv_at_insert. destruct (decide (j = i)) as [->|Hne]; [by rewrite decide_True|].
  rewrite decide_False; [by apply Hm|]. intros E. apply Hne. by apply (main_key_inj c).
Qed.
Lemma mains_delete m c C i : is_u64 i → mains m c C →
  mains (delete (main_key c i) m) c (λ j, if decide (j = i) then None else C j).
Proof.
  intros Hi Hm j Hj. rewrite kv_at_delete. destruct (decide (j = i)) as [->|Hne]; [by rewrite decide_True|].
  rewrite decide_False; [by apply Hm|]. intros E. apply Hne. by apply (main_key_inj c).
Qed.
Lemma mains_ext m c C C' : (∀ i, is_u64 i → C i = C' i) → mains m c C → mains m c C'.
Proof. intros E Hm i Hi. rewrite <- E by done. by apply Hm. Qed.

(** ** Reading *)

Lemma run_getHeader m s c T h x : index_of m c T → T !! h = Some x → run (getHeader h c) (m, s) = (Ok x, (m, s)).
Proof.
  intros [_ Hx] Hh. destruct (Hx h x Hh) as (b & Hk & Hb & Hj & _). unfold getHeader.
  erewrite run_bind_ok by (by apply run_cwrap_ok, run_cget). rewrite Hk, decide_False by apply GenRawStorageItem_nonempty.
  rewrite storage_item_roundtrip by done. cbn. by rewrite Hj.
Qed.

Lemma run_getHeader_inv m s c T h x st : index_of m c T → run (getHeader h c) (m, s) = (Ok x, st) → T !! h = Some x ∧ st = (m, s).
Proof.
  intros Hix Hr. destruct (T !! h) as [y|] eqn:E.
  - rewrite (run_getHeader _ _ _ _ _ _ Hix E) in Hr. by simplify_eq.
  - unfold getHeader in Hr. destruct st as [m' s']. crun Hr. rewrite (ix_none _ _ _ Hix) in Hr by done.
    rewrite decide_True in Hr by done. discriminate.
Qed.

Lemma run_getCanonicalHash m s c C i : mains m c C → is_u64 i →
  run (getCanonicalHash c i) (m, s) = (Ok (default EMPTY_HASH (C i)), (m, s)).
Proof.
  intros Hm Hi. unfold getCanonicalHash. erewrite run_bind_ok by apply run_cget. rewrite (Hm i Hi).
  destruct (C i) as [a|]; [|by rewrite decide_True]. rewrite decide_False by apply GenRawStorageItem_nonempty.
  rewrite storage_item_roundtrip by (rewrite length_to_slice; lia). cbn. by rewrite BytesToHash_slice.
Qed.

Lemma run_GetCanonicalHeader m s c T C i : index_of m c T → mains m c C → is_u64 i → T !! EMPTY_HASH = None →
  (∀ a, C i = Some a → is_Some (T !! a)) →
  run (GetCanonicalHeader c i) (m, s) = (Ok (C i ≫= λ a, T !! a), (m, s)).
Proof.
  intros Hix Hm Hi Hz HC. unfold GetCanonicalHeader. erewrite run_bind_ok by (by apply run_getCanonicalHash).
  destruct (C i) as [a|] eqn:E; [|by rewrite decide_True]. destruct (HC a eq_refl) as [x Hx].
  change (default EMPTY_HASH (Some a)) with a. change (Some a ≫= λ b, T !! b) with (T !! a). rewrite decide_False by (intros ->; congruence). by rewrite (run_bind_ok _ _ _ _ _ (run_getHeader m s c T a x Hix Hx)), Hx.
Qed.

Lemma run_putHeaderWithSum m s c x b : marshal_sum x = Ok b →
  run (putHeaderWithSum c x) (m, s) = (Ok tt, (<[header_key c (to_slice (poa_Hash (ws_Header x))) := GenRawStorageItem b]> m, s)).
Proof. intros E. unfold putHeaderWithSum. by rewrite E. Qed.

Lemma run_GetCanonicalHeight m s c n : is_u64 n → height_is m c n → run (GetCanonicalHeight c) (m, s) = (Ok n, (m, s)).
Proof.
  intros Hn Hh. unfold GetCanonicalHeight. erewrite run_bind_ok by (by apply run_cwrap_ok, run_cget). rewrite Hh.
  rewrite storage_item_roundtrip by (unfold GetUint64Bytes; rewrite length_le_put; lia). cbn -[GetBytesUint64 GetUint64Bytes].
  unfold GetBytesUint64, GetUint64Bytes. rewrite length_le_put, decide_False by lia. by rewrite le_get_put_small.
Qed.

(** ** The two loops of [addHeader] *)

Lemma delete_above_run fuel m s c T C i top :
  index_of m c T → mains m c C → T !! EMPTY_HASH = None → (∀ j a, is_u64 j → C j = Some a → is_Some (T !! a)) →
  0 ≤ i ≤ top → top < 2 ^ 64 → (∀ j, i ≤ j < top → is_Some (C j)) → C top = None → (Z.to_nat (top - i) < fuel)%nat →
  ∃ m', run (delete_above fuel c i) (m, s) = (Ok tt, (m', s)) ∧ same_but_main m m' c ∧
    mains m' c (λ j, if decide (i ≤ j < top) then None else C j).
Proof.
  revert m C i. induction fuel as [|fuel IH]; intros m C i Hix Hm Hz HC Hi Ht Hsome Htop Hf; [lia|]. cbn [delete_above].
  assert (is_u64 i) as Hu by (split; lia).
  erewrite run_bind_ok by (apply (run_GetCanonicalHeader m s c T C i); try done; intros a Ha; by apply (HC i)).
  destruct (decide (i = top)) as [->|Hne].
  - rewrite Htop. cbn. exists m. split_and!; [done..|]. eapply mains_ext; [|done]. intros j _. by rewrite decide_False by lia.
  - destruct (Hsome i ltac:(lia)) as [a Ha]. rewrite Ha. destruct (HC i a Hu Ha) as [x Hx]. cbn [mbind option_bind]. rewrite Hx.
    unfold deleteCanonicalHash. erewrite run_bind_ok by apply run_cdel. rewrite uwrap_small by (split; lia).
    destruct (IH (delete (main_key c i) m) (λ j, if decide (j = i) then None else C j) (i + 1)) as (m' & -> & Hs & Hm').
    + by eapply index_same; [apply same_but_main_delete|].
    + by apply mains_delete.
    + done.
    + intros j b Hj. case_decide; [done|]. by apply HC.
    + lia.
    + done.
    + intros j Hj. rewrite decide_False by lia. apply Hsome. lia.
    + by rewrite decide_False by lia.
    + lia.
    + exists m'. split; [done|]. split; [eapply same_but_main_trans; [apply same_but_main_delete|done]|].
      eapply mains_ext; [|exact Hm']. intros j _. cbn. repeat case_decide; try done; lia.
Qed.

(** [hd] is the old head and [p] the end of the branch that becomes the main chain. *)
Lemma overwrite_below_run fuel m s c T g r C hd p i a :
  tree_wf T g → T !! g = Some r → is_Some (T !! hd) → index_of m c T → mains m c C → T !! EMPTY_HASH = None →
  Number_u64 (ws_Header r) ≤ i < 2 ^ 64 → at_height T g p i a →
  (∀ j b, is_u64 j → j ≤ i → C j = Some b ↔ at_height T g hd j b) →
  (Z.to_nat (i - Number_u64 (ws_Header r)) < fuel)%nat →
  ∃ m' C', run (overwrite_below fuel c i a) (m, s) = (Ok tt, (m', s)) ∧ same_but_main m m' c ∧ mains m' c C' ∧
    (∀ j, is_u64 j → i < j → C' j = C j) ∧ ∀ j b, is_u64 j → j ≤ i → C' j = Some b ↔ at_height T g p j b.
Proof.
  intros Hwf Hr [hx Hhd]. revert m C i a. induction fuel as [|fuel IH]; intros m C i a Hix Hm Hz Hi Ha HC Hf; [lia|].
  cbn [overwrite_below]. pose proof (Number_u64_range (ws_Header r)) as [Hr0 _]. assert (is_u64 i) as Hu by (split; lia).
  erewrite run_bind_ok by (by apply run_getCanonicalHash).
  destruct (anc_mem_r _ _ _ _ (proj1 Ha)) as [n Hn].
  destruct (decide (default EMPTY_HASH (C i) = a)) as [Heq|Hne].
  - assert (C i = Some a) as HCi. { destruct (C i) as [b|]; cbn in Heq; [by rewrite Heq|]. rewrite <- Heq in Hn. congruence. }
    exists m, C. split_and!; [done..|]. intros j b Hj Hle. rewrite HC by done.
    apply (at_height_agree _ _ _ _ a i); [done| |done|done]. by apply HC.
  - assert (a ≠ g) as Hg.
    { intros ->. apply Hne. destruct Ha as (_ & y & Hy & Ey). assert (y = r) as -> by congruence. cbn in Ey.
      assert (at_height T g hd i g) as Hroot. { split; [by apply anc_root|]. exists r. split; [done|]. done. }
      apply HC in Hroot; [by rewrite Hroot|done|done]. }
    unfold putCanonicalHash. erewrite run_bind_ok by apply run_cput.
    set (m1 := <[_ := _]> m). assert (index_of m1 c T) as Hix1 by (eapply index_same; [apply same_but_main_insert|done]).
    rewrite (run_bind_ok _ _ _ _ _ (run_getHeader m1 s c T a n Hix1 Hn)).
    pose proof (at_height_parent _ _ _ _ _ _ Hwf Ha Hn Hg) as Hpar.
    assert (Number_u64 (ws_Header r) < i) as Hri.
    { destruct Ha as (_ & y & Hy & Ey). assert (y = n) as -> by congruence. pose proof (wf_above _ _ Hwf _ _ _ Hn Hr Hg) as Hab. cbn in *. lia. }
    rewrite uwrap_small by (split; lia).
    destruct (IH m1 (λ j, if decide (j = i) then Some a else C j) (i - 1) (ParentHash (ws_Header n))) as (m' & C' & -> & Hs & Hm' & Hab & Hbe).
    + done.
    + by apply mains_put.
    + done.
    + lia.
    + exact Hpar.
    + intros j b Hj Hle. rewrite decide_False by lia. apply HC; [done|lia].
    + lia.
    + exists m', C'. split; [done|]. split; [eapply same_but_main_trans; [apply same_but_main_insert|done]|]. split; [done|]. split.
      * intros j Hj Hlt. rewrite Hab by (done || lia). by rewrite decide_False by lia.
      * intros j b Hj Hle. destruct (decide (j = i)) as [->|Hji]; [|apply Hbe; [done|lia]].
        rewrite Hab by (done || lia). rewrite decide_True by done. split; [by intros [= <-]|].
        intros Hb. f_equal. by eapply at_height_unique.
Qed.

(** ** Adding a header *)

(** The stores agree outside the index, the entries by height and the height. *)
Definition same_but_chain m m' c : Prop := ∀ k,
  (∀ b : bytes, k ≠ header_key c b) → (∀ i, k ≠ main_key c i) → k ≠ current_key c → kv_at m' k = kv_at m k.

(** The header with its total difficulty. *)
Definition with_sum l (header : EthHeader) (epoch : option Uint256) : HeaderWithDifficultySum :=
  mkHeaderWithDifficultySum header (Difficulty header + td_of l (ParentHash header)) epoch.

(** A header that [addHeader] may be given: unknown, on top of a known one. *)
Record addable l (header : EthHeader) : Prop := mkAddable {
  ad_wf : header_wf header;
  ad_new : lc_tree l !! poa_Hash header = None;
  ad_nonzero : poa_Hash header ≠ EMPTY_HASH;
  ad_bound : Number_u64 header < 2 ^ 64 - 1;
  ad_pos : 0 < Difficulty header ≤ 2;
  ad_parent : ∃ p, lc_tree l !! ParentHash header = Some p ∧ Number_u64 header = Number_u64 (ws_Header p) + 1;
}.

Lemma addable_fits l header e : addable l header → fits_on l (poa_Hash header) (with_sum l header e).
Proof.
  intros [_ Hn _ _ Hd (p & Hp & Hnum)]. split; [done|]. exists p. unfold with_sum, td_of. cbn. rewrite Hp. cbn. split_and!; [done|done|lia].
Qed.

Lemma index_add m c l header e b : index_of m c (lc_tree l) → addable l header → (∀ x, lc_tree l !! ParentHash header = Some x → td_bound x) →
  blen b < 2 ^ 63 → json_sum b = Ok (with_sum l header e) →
  index_of (<[header_key c (to_slice (poa_Hash header)) := GenRawStorageItem b]> m) c (<[poa_Hash header := with_sum l header e]> (lc_tree l)).
Proof.
  intros [Hnone Hsome] [Hwf _ _ _ Hd (p & Hp & Hnum)] Htd Hb Hj. assert (∀ h, h ≠ poa_Hash header → header_key c (to_slice h) ≠ header_key c (to_slice (poa_Hash header))) as Hk.
  { intros h Hne E. apply Hne. by apply header_key_inj, to_slice_inj in E. }
  split.
  - intros h Hh. rewrite lookup_insert_None in Hh. destruct Hh as [Hh Hne]. rewrite kv_at_insert, decide_False by auto. by apply Hnone.
  - intros h x Hh. rewrite kv_at_insert. destruct (decide (h = poa_Hash header)) as [->|Hne].
    + rewrite lookup_insert_eq in Hh. simplify_eq. rewrite decide_True by done. exists b. split_and!; try done.
      unfold td_bound, with_sum, td_of in *. cbn. rewrite Hp. cbn. specialize (Htd p Hp). lia.
    + rewrite lookup_insert_ne in Hh by done. rewrite decide_False by auto. by apply Hsome.
Qed.

Lemma client_head m c l : client m c l → ∃ hd r, lc_tree l !! lc_head l = Some hd ∧ lc_tree l !! lc_root l = Some r ∧
  Number_u64 (ws_Header r) ≤ Number_u64 (ws_Header hd).
Proof.
  intros Hc. destruct (cl_ok _ _ _ Hc) as [Hwf [hd Hhd] _]. destruct (wf_root _ _ Hwf) as [r Hr]. exists hd, r. split_and!; [done..|].
  exact (proj1 (at_height_range _ _ _ _ _ _ _ Hwf Hhd Hr (at_height_self _ _ _ _ Hhd))).
Qed.

(** The main chain is complete up to its head and ends there. *)
Lemma main_entry_some l C i hd r : lc_ok l → lc_tree l !! lc_head l = Some hd → lc_tree l !! lc_root l = Some r →
  (∀ i a, is_u64 i → C i = Some a ↔ main_chain l i a) → is_u64 i →
  is_Some (C i) ↔ Number_u64 (ws_Header r) ≤ i ≤ Number_u64 (ws_Header hd).
Proof.
  intros [Hwf _ _] Hhd Hr HC Hi. split.
  - intros [a Ha]. apply HC in Ha; [|done]. exact (at_height_range _ _ _ hd r i a Hwf Hhd Hr Ha).
  - intros Hle. destruct (at_height_total _ _ _ hd r i Hwf Hhd Hr Hle) as [a Ha]. exists a. by apply HC.
Qed.

(** Enough fuel: the heights that may have to be visited. *)
Definition enough_fuel l (header : EthHeader) (fuel : nat) : Prop :=
  Number_u64 header + from_option (λ x, Number_u64 (ws_Header x)) 0 (lc_tree l !! lc_head l) + 2 < Z.of_nat fuel.

(** The header is stored; the entries have not moved. *)
Lemma client_store m c l header e b :
  client m c l → addable l header → blen b < 2 ^ 63 → json_sum b = Ok (with_sum l header e) →
  let m1 := <[header_key c (to_slice (poa_Hash header)) := GenRawStorageItem b]> m in
  let T1 := <[poa_Hash header := with_sum l header e]> (lc_tree l) in
  index_of m1 c T1 ∧ tree_wf T1 (lc_root l) ∧ T1 !! EMPTY_HASH = None ∧ same_but_chain m m1 c ∧
  (∀ C, mains m c C → mains m1 c C) ∧ (∀ n, height_is m c n → height_is m1 c n).
Proof.
  intros Hc Ha Hb Hj m1 T1. pose proof (cl_index _ _ _ Hc) as Hix. split_and!.
  - apply index_add; try done. intros x Hx. destruct (ix_some _ _ _ Hix _ _ Hx) as (? & _ & _ & _ & _ & _ & ?). done.
  - destruct (addable_fits _ _ e Ha) as (Hnew & p & Hp & Hn & Htd). apply (tree_wf_insert _ _ _ _ p); try done. apply Hc.
  - subst T1. rewrite lookup_insert_ne; [apply Hc|]. apply Ha.
  - intros k Hk _ _. subst m1. rewrite kv_at_insert, decide_False; [done|]. apply Hk.
  - intros C HC i Hi. subst m1. rewrite kv_at_insert, decide_False by auto with hskeys. by apply HC.
  - intros n Hn. unfold height_is. subst m1. rewrite kv_at_insert, decide_False by auto with hskeys. done.
Qed.

Lemma client_add_same m c l header e b : client m c l → addable l header → blen b < 2 ^ 63 → json_sum b = Ok (with_sum l header e) →
  ¬ td_of l (lc_head l) < Difficulty header + td_of l (ParentHash header) →
  client (<[header_key c (to_slice (poa_Hash header)) := GenRawStorageItem b]> m) c (lc_add (poa_Hash header) (with_sum l header e) l).
Proof.
  intros Hc Ha Hb Hj Hd. pose proof (addable_fits _ _ e Ha) as Hfit.
  destruct (client_store m c l header e b Hc Ha Hb Hj) as (Hix & _ & Hz & _ & Hm & Hh). split.
  - apply lc_add_ok; [apply Hc|done].
  - exact Hix.
  - exact Hz.
  - intros h x Hx. unfold lc_add in Hx. cbn [lc_tree] in Hx. rewrite lookup_insert_Some in Hx. destruct Hx as [[_ <-]|[_ Hx]]; [apply Ha|by apply (cl_bound _ _ _ Hc _ _ Hx)].
  - destruct (cl_main _ _ _ Hc) as (C & HC & Hmain). exists C. split; [by apply Hm|]. intros i a Hi.
    rewrite lc_add_main by (done || apply Hc). cbn [nd_td poa_node with_sum DifficultySum]. rewrite decide_False by done. by apply Hmain.
  - intros x. unfold lc_add. cbn [lc_tree lc_head nd_td poa_node with_sum DifficultySum]. rewrite decide_False by done.
    destruct (cl_ok _ _ _ Hc) as [_ [hd Hhd] _]. rewrite lookup_insert_ne by (intros E; rewrite E in *; destruct Ha; congruence).
    intros Hx. by apply Hh, Hc.
Qed.

(** The header is heavier: the entries move to its branch. *)
Lemma client_add_reorg m s c l header e b fuel :
  client m c l → addable l header → blen b < 2 ^ 63 → json_sum b = Ok (with_sum l header e) → enough_fuel l header fuel →
  td_of l (lc_head l) < Difficulty header + td_of l (ParentHash header) →
  let m1 := <[header_key c (to_slice (poa_Hash header)) := GenRawStorageItem b]> m in
  ∃ m2 m3, run (delete_above fuel c (u64 (Number_u64 header + 1))) (m1, s) = (Ok tt, (m2, s)) ∧
    run (overwrite_below fuel c (u64 (Number_u64 header - 1)) (ParentHash header)) (m2, s) = (Ok tt, (m3, s)) ∧
    let m' := <[current_key c := GenRawStorageItem (GetUint64Bytes (Number_u64 header))]>
                (<[main_key c (Number_u64 header) := GenRawStorageItem (to_slice (poa_Hash header))]> m3) in
    client m' c (lc_add (poa_Hash header) (with_sum l header e) l) ∧ same_but_chain m m' c.
Proof.
  intros Hc Ha Hb Hj Hf Hd m1. pose proof (addable_fits _ _ e Ha) as Hfit. pose proof (cl_ok _ _ _ Hc) as Hok.
  destruct (client_store m c l header e b Hc Ha Hb Hj) as (Hix & Hwf1 & Hz & Hsb & Hm & _).
  fold m1 in Hix, Hsb, Hm. set (T1 := <[poa_Hash header := with_sum l header e]> (lc_tree l)) in *.
  destruct (client_head _ _ _ Hc) as (hd & r & Hhd & Hr & Hrd). destruct (cl_main _ _ _ Hc) as (C & HC & Hmain). apply Hm in HC.
  pose proof Hok as [Hwf _ _]. pose proof (cl_bound _ _ _ Hc _ _ Hhd) as Hhb.
  destruct Ha as [Hhw Hnew Hnz Hbound Hpos (p & Hp & Hnum)]. set (n := Number_u64 header) in *.
  pose proof (Number_u64_range (ws_Header p)) as [Hp0 _]. pose proof (Number_u64_range (ws_Header hd)) as [Hd0 _].
  pose proof (Number_u64_range (ws_Header r)) as [Hr0 _]. unfold enough_fuel in Hf. rewrite Hhd in Hf. cbn [from_option] in Hf. fold n in Hf.
  assert (∀ k y, lc_tree l !! k = Some y → T1 !! k = Some y) as Hin by (intros k y Hk; subst T1; rewrite lookup_insert_ne; [done|congruence]).
  assert (Number_u64 (ws_Header r) ≤ Number_u64 (ws_Header p)) as Hrp
    by exact (proj1 (at_height_range _ _ _ _ _ _ _ Hwf Hp Hr (at_height_self _ _ _ _ Hp))).
  assert (∀ i, is_u64 i → is_Some (C i) ↔ Number_u64 (ws_Header r) ≤ i ≤ Number_u64 (ws_Header hd)) as HCs by (intros; by eapply main_entry_some).
  rewrite !uwrap_small by (split; lia). remember (Z.max (n + 1) (Number_u64 (ws_Header hd) + 1)) as top eqn:Etop.
  destruct (delete_above_run fuel m1 s c T1 C (n + 1) top) as (m2 & E2 & Hs2 & Hm2); [done|done|done| |lia|lia| | |lia|].
  { intros j a Hj' Hja. apply Hmain in Hja; [|done]. destruct Hja as [_ (y & Hy & _)]. eexists. by apply Hin. }
  { intros j Hj'. apply HCs; [split; lia|]. lia. }
  { destruct (C top) eqn:E; [|done]. assert (is_Some (C top)) as Hs by done. apply HCs in Hs; [lia|split; lia]. }
  assert (lc_tree l !! lc_head l ≠ None) as Hhd' by congruence.
  assert (∀ k i a, is_Some (lc_tree l !! k) → at_height T1 (lc_root l) k i a ↔ at_height (lc_tree l) (lc_root l) k i a) as Hold
    by (intros; by apply at_height_insert_old).
  destruct (overwrite_below_run fuel m2 s c T1 (lc_root l) r (λ j, if decide (n + 1 ≤ j < top) then None else C j) (lc_head l) (ParentHash header) (n - 1) (ParentHash header))
    as (m3 & C3 & E3 & Hs3 & Hm3 & Hab & Hbe); [done|by apply Hin|eexists; by apply Hin|by eapply index_same|done|done|lia| | |lia|].
  { apply Hold; [by eexists|]. replace (n - 1) with (Number_u64 (ws_Header p)) by lia. exact (at_height_self _ _ _ p Hp). }
  { intros j a Hj' Hle. rewrite decide_False by lia. rewrite Hmain by done. symmetry. apply Hold. by eexists. }
  exists m2, m3. split; [done|]. split; [done|]. intros m'.
  assert (∀ k, (∀ i, k ≠ main_key c i) → k ≠ current_key c → kv_at m' k = kv_at m1 k) as Hsame.
  { intros k Hk Hcur. subst m'. rewrite !kv_at_insert, !decide_False by auto. rewrite Hs3, Hs2 by done. done. }
  split; [split|].
  - by apply lc_add_ok.
  - unfold lc_add. cbn [lc_tree]. fold T1. split.
    + intros h Hh. rewrite Hsame by auto with hskeys. by apply Hix.
    + intros h x Hh. rewrite Hsame by auto with hskeys. by apply Hix.
  - exact Hz.
  - intros h x Hx. unfold lc_add in Hx. cbn [lc_tree] in Hx. rewrite lookup_insert_Some in Hx. destruct Hx as [[_ <-]|[_ Hx]]; [done|by apply (cl_bound _ _ _ Hc _ _ Hx)].
  - exists (λ j, if decide (j = n) then Some (poa_Hash header) else C3 j). split.
    + intros j Hj'. subst m'. rewrite kv_at_insert, decide_False by auto with hskeys.
      refine (mains_put m3 c C3 n (poa_Hash header) _ Hm3 j Hj'). split; lia.
    + intros j a Hj'. rewrite lc_add_main by done. cbn [nd_td nd_number nd_parent poa_node with_sum DifficultySum ws_Header]. rewrite (decide_True (P := td_of l (lc_head l) < _)) by done.
      fold n. rewrite <- Hold by (by eexists). destruct (decide (j = n)) as [->|Hjn].
      * split; [intros [= <-]; by left|]. intros [[-> _]|Hat]; [done|]. apply Hold in Hat; [|by eexists].
        pose proof (at_height_range _ _ _ _ _ _ _ Hwf Hp Hr Hat) as Hrg. cbn in Hrg. lia.
      * destruct (decide (j ≤ n - 1)) as [Hle|Hgt].
        { rewrite Hbe by done. split; [by right|]. intros [[_ ?]|]; [lia|done]. }
        rewrite Hab by (done || lia). split.
        { case_decide; [done|]. intros Hja. assert (is_Some (C j)) as Hs by done. apply HCs in Hs; [lia|done]. }
        intros [[_ ?]|Hat]; [lia|]. apply Hold in Hat; [|by eexists].
        pose proof (at_height_range _ _ _ _ _ _ _ Hwf Hp Hr Hat) as Hrg. cbn in Hrg. lia.
  - intros x. unfold lc_add. cbn [lc_tree lc_head nd_td poa_node with_sum DifficultySum]. rewrite decide_True by done.
    rewrite lookup_insert_eq. intros [= <-]. unfold height_is. subst m'. rewrite kv_at_insert, decide_True by done. done.
  - intros k Hk1 Hk2 Hk3. rewrite Hsame by done. by apply Hsb.
Qed.

Lemma addHeader_run m s c l header phv ctx fuel :
  client m c l → addable l header → enough_fuel l header fuel → ctx_ChainID ctx = c →
  ∃ m', run (addHeader fuel header phv ctx) (m, s) = (Ok tt, (m', s)) ∧
    client m' c (lc_add (poa_Hash header) (with_sum l header (hv_Hash phv)) l) ∧ same_but_chain m m' c.
Proof.
  intros Hc Ha Hf <-. destruct (ad_parent _ _ Ha) as (p & Hp & Hnum). set (c := ctx_ChainID ctx) in *.
  destruct (client_head _ _ _ Hc) as (hd & r & Hhd & Hr & Hrd). destruct (cl_main _ _ _ Hc) as (C & HC & Hmain).
  pose proof (cl_index _ _ _ Hc) as Hix. unfold addHeader. fold c.
  rewrite (run_bind_ok _ _ _ _ _ (run_getHeader m s c _ _ _ Hix Hp)).
  rewrite (run_bind_ok _ _ _ _ _ (run_GetCanonicalHeight m s c _ (Number_u64_range (ws_Header hd)) (cl_height _ _ _ Hc _ Hhd))).
  assert (C (Number_u64 (ws_Header hd)) = Some (lc_head l)) as HCh by (apply Hmain; [apply Number_u64_range|exact (at_height_self _ _ _ hd Hhd)]).
  erewrite run_bind_ok by (apply (run_GetCanonicalHeader m s c (lc_tree l) C); [done|done|apply Number_u64_range|apply Hc|];
    rewrite HCh; intros a [= <-]; by eexists).
  rewrite HCh. cbn [mbind option_bind]. rewrite Hhd.
  assert (mkHeaderWithDifficultySum header (Difficulty header + DifficultySum p) (hv_Hash phv) = with_sum l header (hv_Hash phv)) as Ews
    by (unfold with_sum, td_of; by rewrite Hp).
  rewrite Ews. destruct (json_sum_marshal (with_sum l header (hv_Hash phv))) as (b & Emar & Hb & Hj); [apply Ha| |].
  { unfold with_sum, td_of. cbn. rewrite Hp. cbn. destruct (ix_some _ _ _ Hix _ _ Hp) as (? & _ & _ & _ & _ & _ & Htd).
    pose proof (ad_pos _ _ Ha). unfold td_bound in Htd. pose proof (Number_u64_range (ws_Header p)) as [_ ?]. lia. }
  rewrite (run_bind_ok _ _ _ _ _ (run_putHeaderWithSum m s c _ b Emar)). cbn [ws_Header with_sum].
  assert (DifficultySum hd = td_of l (lc_head l)) as Etd by (unfold td_of; by rewrite Hhd).
  assert (DifficultySum p = td_of l (ParentHash header)) as Etp by (unfold td_of; by rewrite Hp). rewrite Etd, Etp.
  destruct (decide (td_of l (lc_head l) < Difficulty header + td_of l (ParentHash header))) as [Hlt|Hge].
  - destruct (client_add_reorg m s c l header (hv_Hash phv) b fuel Hc Ha Hb Hj Hf Hlt) as (m2 & m3 & E2 & E3 & Hcl & Hsb).
    rewrite (run_bind_ok _ _ _ _ _ E2), (run_bind_ok _ _ _ _ _ E3). unfold putCanonicalHash. erewrite run_bind_ok by apply run_cput.
    unfold putCanonicalHeight. rewrite run_cput. by eexists.
  - eexists. split; [done|]. split; [by apply client_add_same|]. by apply (client_store m c l header (hv_Hash phv) b).
Qed.

End chain.
