(* ===== verification/PoaEpoch.v ===== *)
(** * Validators of a chain with proof of authority

    Which validators are in force for a header is defined by its ancestors: the
    headers that carry a validator list, back to the genesis header.  The handler
    finds the last two lists through the links stored with the headers, in at most
    three steps, and the last block of a signer by a bounded scan;
    [getPrev_run] shows that it finds what the ancestors say. *)

From S2P Require Import Prelude Sha256 Sink Source Serialization BytesOrder MemDB OverlayDB CacheDB Contract MerkleSpec MerkleHasher Native Codec NodeStates NodeManager NodeInv CrossCommon ConsensusVote SideStates SideChain CrossChain HsCommon Rlp RlpSpec EthHeader HeaderTree PoaSync PoaChain.

#[local] Set Default Proof Using "Type*".

Section epochs.
Context `{Hasher} `{Crypto} `{EthLib} `{!EthLibLaws} `{!PoaChain} `{!PoaLaws} (cfg : Config).
Implicit Types (m : kvmap) (s : NativeService) (c : Z) (h g : Uint256) (x r : HeaderWithDifficultySum).
Implicit Types (T : gmap Uint256 HeaderWithDifficultySum) (G : GenesisHeader) (L : list HeaderWithDifficultySum).

(** ** The ancestors of a header *)

(** The headers from [h] to the root. *)
Inductive branch T g : Uint256 → list HeaderWithDifficultySum → Prop :=
  | br_root r : T !! g = Some r → branch T g g [r]
  | br_up h x L : T !! h = Some x → h ≠ g → branch T g (nd_parent x) L → branch T g h (x :: L).

Lemma branch_total T g h : tree_wf T g → is_Some (T !! h) → ∃ L, branch T g h L.
Proof.
  intros Hwf Hh. pose proof (anc_root T g h Hwf Hh) as Ha. clear Hh. remember g as k eqn:Ek in Ha at 2.
  induction Ha as [h n Hn|h n a Hn Hne Ha IH]; subst.
  - exists [n]. by constructor.
  - destruct (IH eq_refl) as [L HL]. exists (n :: L). by constructor.
Qed.

Lemma branch_fun T g h L L' : branch T g h L → branch T g h L' → L = L'.
Proof.
  intros HL. revert L'. induction HL as [r Hr|h x L Hx Hne HL IH]; intros L' HL'; inversion HL' as [r' Hr'|h' x' L1 Hx' Hne' HL1]; subst; [|done|done|].
  - congruence.
  - assert (x' = x) as -> by congruence. f_equal. by apply IH.
Qed.

Lemma branch_insert T g h h' x L : T !! h' = None → branch T g h L → branch (<[h' := x]> T) g h L.
Proof.
  intros Hn. induction 1 as [r Hr|h y L Hy Hne HL IH]; constructor; try done; rewrite lookup_insert_ne by congruence; done.
Qed.

(** ** Validator lists *)

Definition is_epoch x : bool := bool_decide (extraVanity + extraSeal < blen (eh_Extra (ws_Header x))).
(** The validators in a header's extra data. *)
Definition extra_validators (header : EthHeader) : list Address :=
  let n := length (eh_Extra header) in
  parse_addresses ((n - 97) / 20) (take (n - 97) (drop 32 (eh_Extra header))).
Definition epoch_set x : HeightAndValidators :=
  mkHeightAndValidators (Some (Number (ws_Header x))) (extra_validators (ws_Header x)) None.

(** The validator lists of the ancestors, the latest first; at the root are those
    stored with the genesis header. *)
Fixpoint sets G L : list HeightAndValidators :=
  match L with
  | [] | [_] => PrevValidators G
  | x :: L => if is_epoch x then epoch_set x :: sets G L else sets G L
  end.

(** The hash of the header with the latest list. *)
Fixpoint first_epoch G L : Uint256 :=
  match L with
  | [] | [_] => poa_Hash (gh_Header G)
  | x :: L => if is_epoch x then poa_Hash (ws_Header x) else first_epoch G L
  end.

(** The height of the latest header signed by [target]. *)
Fixpoint last_signed (target : Address) L : Z :=
  match L with
  | [] => -1
  | x :: L => if decide (Coinbase (ws_Header x) = target) then Number_i64 (ws_Header x) else last_signed target L
  end.

(** The links of the stored headers are right, and lists can be read. *)
Record epochs_ok T g G : Prop := mkEpochsOk {
  ep_root : g = poa_Hash (gh_Header G);
  ep_root_header : ∀ r, T !! g = Some r → ws_Header r = gh_Header G;
  ep_prev : ∃ v0 v1, PrevValidators G = [v0; v1];
  ep_hash : ∀ h x, T !! h = Some x → poa_Hash (ws_Header x) = h;
  ep_extra : ∀ h x, T !! h = Some x → h ≠ g → 97 ≤ blen (eh_Extra (ws_Header x)) ∧ (blen (eh_Extra (ws_Header x)) - 97) mod 20 = 0;
  ep_link : ∀ h x L, T !! h = Some x → h ≠ g → branch T g (nd_parent x) L → EpochParentHash x = Some (first_epoch G L);
}.

Lemma branch_nonempty T g h L : branch T g h L → L ≠ [].
Proof. by destruct 1. Qed.

Lemma sets_cons G x L : L ≠ [] → sets G (x :: L) = if is_epoch x then epoch_set x :: sets G L else sets G L.
Proof. by destruct L. Qed.
Lemma first_epoch_cons G x L : L ≠ [] → first_epoch G (x :: L) = if is_epoch x then poa_Hash (ws_Header x) else first_epoch G L.
Proof. by destruct L. Qed.

(** The latest list is the root's, or that of a header whose branch has the same
    lists. *)
Lemma first_epoch_spec T g G h L : epochs_ok T g G → branch T g h L →
  (first_epoch G L = g ∧ sets G L = PrevValidators G) ∨
  ∃ x L', first_epoch G L ≠ g ∧ branch T g (first_epoch G L) (x :: L') ∧ L' ≠ [] ∧ is_epoch x = true ∧
    sets G L = epoch_set x :: sets G L' ∧ T !! first_epoch G L = Some x ∧ branch T g (nd_parent x) L'.
Proof.
  intros Hep. induction 1 as [r Hr|h x L Hx Hne HL IH].
  - left. split; [|done]. symmetry. apply (ep_root _ _ _ Hep).
  - pose proof (branch_nonempty _ _ _ _ HL) as Hn. rewrite sets_cons, first_epoch_cons by done.
    destruct (is_epoch x) eqn:Ee; [|exact IH]. right. exists x, L. rewrite (ep_hash _ _ _ Hep _ _ Hx).
    split_and!; try done. by constructor.
Qed.

(** ** The search for the lists *)

Lemma parse_extra header : 97 ≤ blen (eh_Extra header) → (blen (eh_Extra header) - 97) mod 20 = 0 →
  ∃ b, go_slice (eh_Extra header) extraVanity (blen (eh_Extra header) - extraSeal) = Some b ∧
    ParseValidators b = Ok (extra_validators header).
Proof.
  intros Hl Hm. set (n := length (eh_Extra header)) in *. exists (take (n - 97) (drop 32 (eh_Extra header))).
  assert (length (take (n - 97) (drop 32 (eh_Extra header))) = n - 97)%nat as Hb by (rewrite length_take, length_drop; lia).
  unfold go_slice, ParseValidators, extraVanity, extraSeal, AddressLength. rewrite Hb. rewrite decide_True by lia. split.
  - do 2 f_equal; lia.
  - rewrite decide_False; [done|]. replace (Z.of_nat (n - 97)) with (Z.of_nat n - 97) by lia. lia.
Qed.

Section search.
Context m c (l : lightclient HeaderWithDifficultySum) G (Hc : client m c l) (Hep : epochs_ok (lc_tree l) (lc_root l) G).
Abbreviation T := (lc_tree l).
Abbreviation g := (lc_root l).

(** The link followed after [x]. *)
Lemma next_link h x L : T !! h = Some x → h ≠ g → branch T g (nd_parent x) L →
  default (ParentHash (ws_Header x)) (EpochParentHash x) = first_epoch G L.
Proof. intros Hx Hne HL. by rewrite (ep_link _ _ _ Hep _ _ _ Hx Hne HL). Qed.

Lemma run_list (s : NativeService) h x : T !! h = Some x → h ≠ g → is_epoch x = true →
  ∃ b, go_slice (eh_Extra (ws_Header x)) extraVanity (blen (eh_Extra (ws_Header x)) - extraSeal) = Some b ∧
    ParseValidators b = Ok (extra_validators (ws_Header x)).
Proof. intros Hx Hne _. by apply parse_extra; apply (ep_extra _ _ _ Hep _ _ Hx Hne). Qed.

Lemma epoch_loop_second fuel s p h x : T !! h = Some x → h ≠ g → is_epoch x = true →
  run (epoch_loop (S fuel) c G (Some p) x) (m, s) = (Ok (p, epoch_set x), (m, s)).
Proof.
  intros Hx Hne He. destruct (run_list s h x Hx Hne He) as (b & Hb & Hv). cbn [epoch_loop].
  unfold is_epoch in He. apply bool_decide_eq_true in He. rewrite decide_True by done. rewrite Hb. cbn. by rewrite Hv.
Qed.

(** From a header with a list. *)
Lemma epoch_loop_first fuel s h x L v : T !! h = Some x → h ≠ g → is_epoch x = true → branch T g (nd_parent x) L → sets G L !! 0%nat = Some v →
  run (epoch_loop (S (S fuel)) c G None x) (m, s) = (Ok (with_hash h (epoch_set x), v), (m, s)).
Proof.
  intros Hx Hne He HL Hv. destruct (run_list s h x Hx Hne He) as (b & Hb & Hp).
  remember (S fuel) as f eqn:Ef. cbn [epoch_loop]. unfold is_epoch in He. apply bool_decide_eq_true in He. rewrite decide_True by done.
  rewrite Hb. erewrite run_bind_ok by done. rewrite Hp. erewrite run_bind_ok by done.
  rewrite (next_link h x L Hx Hne HL), (ep_hash _ _ _ Hep _ _ Hx).
  destruct (first_epoch_spec _ _ _ _ _ Hep HL) as [[E1 E2]|(y & L' & Hg & _ & _ & Hey & Es & Hy & _)].
  - rewrite decide_True by (by rewrite E1, (ep_root _ _ _ Hep)). rewrite E2 in Hv. unfold prev_validators. by rewrite Hv.
  - rewrite decide_False by (by rewrite <- (ep_root _ _ _ Hep)). rewrite Es in Hv. injection Hv as <-.
    erewrite run_bind_ok by (apply run_cwrap_ok; apply (run_getHeader m s c T); [apply Hc|exact Hy]). subst f. by eapply epoch_loop_second.
Qed.

(** From any header. *)
Lemma epoch_loop_run fuel s h x L v0 v1 : T !! h = Some x → h ≠ g → branch T g h L →
  sets G L !! 0%nat = Some v0 → sets G L !! 1%nat = Some v1 →
  run (epoch_loop (S (S (S fuel))) c G None x) (m, s) = (Ok (with_hash (first_epoch G L) v0, v1), (m, s)).
Proof.
  intros Hx Hne HL Hv0 Hv1. inversion HL as [r Hr|h' x' L' Hx' Hne' HL']; subst; [done|]. assert (x' = x) as -> by congruence.
  pose proof (branch_nonempty _ _ _ _ HL') as Hn. rewrite sets_cons in Hv0, Hv1 by done. rewrite first_epoch_cons by done.
  destruct (is_epoch x) eqn:He.
  - injection Hv0 as <-. rewrite (ep_hash _ _ _ Hep _ _ Hx). eapply epoch_loop_first; done.
  - remember (S (S fuel)) as f eqn:Ef. cbn [epoch_loop]. unfold is_epoch in He. apply bool_decide_eq_false in He. rewrite decide_False by done.
    rewrite (next_link h x L' Hx Hne HL').
    destruct (first_epoch_spec _ _ _ _ _ Hep HL') as [[E1 E2]|(y & L2 & Hg & _ & _ & Hey & Es & Hy & HL2)].
    + rewrite decide_True by (by rewrite E1, (ep_root _ _ _ Hep)). rewrite E2 in Hv0, Hv1. unfold prev_validators. rewrite Hv0, Hv1. cbn.
      by rewrite E1, (ep_root _ _ _ Hep).
    + rewrite decide_False by (by rewrite <- (ep_root _ _ _ Hep)). rewrite Es in Hv0, Hv1. injection Hv0 as <-.
      erewrite run_bind_ok by (apply run_cwrap_ok; apply (run_getHeader m s c T); [apply Hc|exact Hy]). subst f. by eapply epoch_loop_first.
Qed.

(** ** The scan for the last block of a signer *)

Lemma run_ctry {A : Type} (k : contract NativeService A) (st : kvmap * NativeService) :
  run (ctry k) st = match run k st with
                    | (Ok a, st') => (Ok (Ok a), st')
                    | (Err e, st') => (Ok (Err e), st')
                    | (Panic, st') => (Panic, st')
                    end.
Proof. revert st. induction k; intros st; cbn; auto. Qed.

Lemma recent_loop_run n s target h L : branch T g h L →
  run (recent_loop n c target (poa_Hash (gh_Header G)) h (-1)) (m, s) = (Ok (last_signed target (take n L)), (m, s)).
Proof.
  revert h L. induction n as [|n IH]; intros h L HL; [done|]. cbn [recent_loop].
  assert (∃ x L', L = x :: L' ∧ T !! h = Some x ∧ (h = g ∧ L' = [] ∨ h ≠ g ∧ branch T g (nd_parent x) L')) as (x & L' & -> & Hx & Hcase).
  { destruct HL as [r Hr|h x L Hx Hne HL]; [exists r, []; split_and!; auto|]. exists x, L. split_and!; auto. }
  rewrite run_bind, run_ctry, (run_getHeader m s c T h x (cl_index _ _ _ Hc) Hx). cbn [take last_signed].
  destruct (decide (Coinbase (ws_Header x) = target)); [done|].
  destruct Hcase as [[-> ->]|[Hne HL']].
  - rewrite decide_True by apply Hep. by rewrite take_nil.
  - rewrite decide_False by (by rewrite <- (ep_root _ _ _ Hep)). by apply IH.
Qed.

(** ** Both *)

Definition genesis_stored : Prop := ∃ b, kv_at m (genesis_key c) = GenRawStorageItem b ∧ blen b < 2 ^ 63 ∧ json_genesis b = Ok G.

Lemma run_getGenesis s : genesis_stored → run (getGenesis c) (m, s) = (Ok (Some G), (m, s)).
Proof.
  intros (b & Hk & Hb & Hj). unfold getGenesis. erewrite run_bind_ok by (by apply run_cwrap_ok, run_cget).
  rewrite Hk, decide_False by apply GenRawStorageItem_nonempty. rewrite storage_item_roundtrip by done. cbn. by rewrite Hj.
Qed.

Lemma sets_two L : ∃ v0 v1 rest, sets G L = v0 :: v1 :: rest.
Proof.
  destruct (ep_prev _ _ _ Hep) as (a & b & E). induction L as [|x L IH]; [exists a, b, []; by rewrite <- E|].
  destruct L as [|y L]; [exists a, b, []; by rewrite <- E|]. rewrite sets_cons by done. destruct IH as (v0 & v1 & rest & ->).
  destruct (is_epoch x); eauto.
Qed.

(** The sets before a header and the last block of its signer, by its ancestors. *)
Definition set_at L (i : nat) : HeightAndValidators := default (mkHeightAndValidators None [] None) (sets G L !! i).
Definition scan_length L : nat := Nat.max 1 (Nat.max (length (Validators (set_at L 0))) (length (Validators (set_at L 1))) / 2).
Definition last_seen (header : EthHeader) L : Z := last_signed (Coinbase header) (take (scan_length L) L).

Lemma getPrev_run fuel s header ctx L : genesis_stored → ctx_ChainID ctx = c → T !! poa_Hash header = None →
  branch T g (ParentHash header) L →
  run (getPrevHeightAndValidators (S (S (S fuel))) header ctx) (m, s) =
    (Ok (with_hash (first_epoch G L) (set_at L 0), set_at L 1, last_seen header L), (m, s)).
Proof.
  intros Hgen Hctx Hnew HL. destruct (sets_two L) as (v0 & v1 & rest & Es).
  assert (sets G L !! 0%nat = Some v0) as Hv0 by (by rewrite Es). assert (sets G L !! 1%nat = Some v1) as Hv1 by (by rewrite Es).
  assert (set_at L 0 = v0) as Ea0 by (unfold set_at; by rewrite Hv0). assert (set_at L 1 = v1) as Ea1 by (unfold set_at; by rewrite Hv1).
  unfold getPrevHeightAndValidators. rewrite Hctx. erewrite run_bind_ok by (apply run_cwrap_ok; by apply run_getGenesis).
  assert (poa_Hash header ≠ poa_Hash (gh_Header G)) as Hne.
  { rewrite <- (ep_root _ _ _ Hep). intros E. rewrite E in Hnew. destruct (wf_root _ _ (lc_wf _ (cl_ok _ _ _ Hc))). congruence. }
  cbn beta iota zeta. rewrite bool_decide_true by done. erewrite run_bind_ok by done. unfold last_seen, scan_length. rewrite Ea0, Ea1.
  destruct HL as [r Hr|p x L Hx Hpg HL].
  - rewrite decide_True by apply Hep. unfold prev_validators. cbn [sets] in Hv0, Hv1. rewrite Hv0, Hv1. cbn [first_epoch].
    change (run ?a ?b) with (run a b). erewrite run_bind_ok by done. erewrite run_bind_ok by done.
    rewrite take_ge by (cbn; lia). cbn [last_signed]. by rewrite (ep_root_header _ _ _ Hep _ Hr).
  - rewrite decide_False by (by rewrite <- (ep_root _ _ _ Hep)).
    erewrite run_bind_ok by (apply run_cwrap_ok; apply (run_getHeader m s c T); [apply Hc|exact Hx]).
    erewrite run_bind_ok by (apply epoch_loop_run with (h := p) (L := x :: L); [done|done|by constructor|done|done]).
    destruct (decide (Coinbase (ws_Header x) = Coinbase header)) as [E|Hco].
    + destruct (Nat.max 1 _) eqn:Em; [lia|]. cbn [take last_signed]. by rewrite decide_True.
    + cbn [Validators with_hash]. set (k := (Nat.max _ _ / 2)%nat). erewrite run_bind_ok by (apply recent_loop_run; exact HL).
      replace (Nat.max 1 k) with (S (k - 1)) by lia. cbn [take last_signed]. by rewrite decide_False.
Qed.

End search.
End epochs.
