(* ===== verification/PoaSafe.v ===== *)
(** * Light clients of chains with proof of authority are sound

    Every header a handler of PoaSync accepts is signed by a validator in force for
    it, in or out of turn as its difficulty says and not again too early, and the
    store stays a light client whose main chain is the heaviest branch. *)

From S2P Require Import Prelude Sha256 Sink Source Serialization BytesOrder MemDB OverlayDB CacheDB Contract MerkleSpec MerkleHasher Native ExCrypto Codec NodeStates NodeManager NodeInv NodeGov CrossCommon ConsensusVote SideStates SideChain Approval SideGov CrossChain CrossSafe HsCommon Rlp RlpSpec EthHeader HeaderTree PoaSync PoaChain PoaEpoch.

#[local] Set Default Proof Using "Type*".

Section safe.
Context `{Hasher} `{Crypto} `{EthLib} `{!EthLibLaws} `{!PoaChain} `{!PoaLaws} (cfg : Config) (now : Z).
Implicit Types (m : kvmap) (s : NativeService) (c : Z) (h g : Uint256) (x : HeaderWithDifficultySum) (header : EthHeader).
Implicit Types (l : lightclient HeaderWithDifficultySum) (G : GenesisHeader) (L : list HeaderWithDifficultySum) (ctx : PoaContext).

(** ** Headers that may be added *)

(** The validators in force for a header with the ancestors [L]. *)
Definition in_force G header L : HeightAndValidators :=
  match poa_flavor with
  | Parlia =>
      let diff := swrap 64 (Number header - default 0 (hv_Height (set_at G L 0))) in
      if decide (diff ≤ Z.of_nat (length (Validators (set_at G L 1)) / 2)) then set_at G L 1 else set_at G L 0
  | _ => set_at G L 0
  end.

(** The position whose turn it is. *)
Definition turn_index header (validators : list Address) : Z := Z.rem (swrap 64 (Number_u64 header)) (blen validators).

Record authorised G ctx header L : Prop := mkAuthorised {
  au_seal : ecrecover header (xi_ChainID (ctx_ExtraInfo ctx)) = Ok (Coinbase header);
  au_member : Coinbase header ∈ Validators (in_force G header L);
  au_turn : ∀ i, Validators (in_force G header L) !! i = Some (Coinbase header) →
    Difficulty header = if decide (Z.of_nat i = turn_index header (Validators (in_force G header L))) then diffInTurn else diffNoTurn;
  au_recent : last_seen G header L ≤ 0 ∨
    swrap 64 (last_seen G header L + Z.of_nat (length (Validators (in_force G header L)) / 2)) < Number_i64 header;
  au_extra : 97 ≤ blen (eh_Extra header) ∧ (blen (eh_Extra header) - 97) mod 20 = 0;
  au_time : eh_Time header ≤ now;
}.

Lemma turn_loop_inv header signer idx k vs valid :
  turn_loop header signer idx k vs valid = Ok true → (valid = true ∨ signer ∈ vs) ∧
  ∀ i, vs !! i = Some signer → Difficulty header = if decide (k + Z.of_nat i = idx) then diffInTurn else diffNoTurn.
Proof.
  revert k valid. induction vs as [|v vs IH]; intros k valid; cbn [turn_loop].
  - intros [= ->]. split; [by left|]. intros i Hi. by rewrite lookup_nil in Hi.
  - destruct (decide (v = signer)) as [->|Hne].
    + assert (∀ d, (if decide (idx = k) then diffInTurn else diffNoTurn) = d → Difficulty header = d →
        turn_loop header signer idx (k + 1) vs true = Ok true →
        (valid = true ∨ signer ∈ signer :: vs) ∧
        ∀ i, (signer :: vs) !! i = Some signer → Difficulty header = if decide (k + Z.of_nat i = idx) then diffInTurn else diffNoTurn) as Hstep.
      { intros d Hd Hdiff Hr. split; [right; by left|]. destruct (IH _ _ Hr) as [_ Hi]. intros [|i] E.
        - rewrite Hdiff, <- Hd. by repeat case_decide; lia.
        - rewrite (Hi i E). by repeat case_decide; lia. }
      destruct (decide (idx = k)); case_decide; try done; intros Hr; by eapply Hstep.
    + intros Hr. destruct (IH _ _ Hr) as [Hm Hi]. split; [destruct Hm; [by left|right; by right]|].
      intros [|i] E; [by injection E|]. rewrite (Hi i E). by repeat case_decide; lia.
Qed.

Lemma check_turn_inv header signer hv : check_turn header signer hv = Ok tt →
  signer ∈ Validators hv ∧
  ∀ i, Validators hv !! i = Some signer →
    Difficulty header = if decide (Z.of_nat i = turn_index header (Validators hv)) then diffInTurn else diffNoTurn.
Proof.
  unfold check_turn, turn_index. destruct (decide (blen (Validators hv) = 0)) as [|Hn]; [done|]. destruct (decide (_ < 0)) as [|Hpos]; [done|].
  destruct (turn_loop _ _ _ _ _ _) as [[]| |] eqn:E; cbn; [|done..]. intros _. apply turn_loop_inv in E as [[?|Hm] Hi]; [done|].
  split; [done|]. intros i Ei. by rewrite (Hi i Ei), Z.add_0_l.
Qed.

(** ** What the verification establishes *)

Lemma verifyHeader_inv m s c T header ctx signer st :
  index_of m c T → ctx_ChainID ctx = c → run (poa_verifyHeader cfg now header ctx) (m, s) = (Ok signer, st) →
  st = (m, s) ∧ signer = Coinbase header ∧ ecrecover header (xi_ChainID (ctx_ExtraInfo ctx)) = Ok (Coinbase header) ∧
  eh_Time header ≤ now ∧ 97 ≤ blen (eh_Extra header) ∧ (blen (eh_Extra header) - 97) mod 20 = 0 ∧
  0 < Difficulty header ≤ 2 ∧ ∃ p, T !! ParentHash header = Some p ∧ Number_u64 header = Number_u64 (ws_Header p) + 1.
Proof.
  intros Hix Hctx Hr. unfold poa_verifyHeader in Hr.
  apply run_guard_bind in Hr as [Htime%bool_decide_eq_true Hr]. apply run_guard_bind in Hr as [_ Hr].
  apply run_guard_bind in Hr as [Hlen%bool_decide_eq_true Hr]. apply run_guard_bind in Hr as [Hmod%bool_decide_eq_true Hr].
  apply run_guard_bind in Hr as [_ Hr]. apply run_guard_bind in Hr as [_ Hr]. apply run_guard_bind in Hr as [Hdiff%bool_decide_eq_true Hr].
  apply run_guard_bind in Hr as [_ Hr].
  unfold verifyCascadingFields in Hr. apply run_bind_inv in Hr as (p & st1 & Hp & Hr). rewrite Hctx in Hp.
  apply (run_getHeader_inv _ _ _ _ _ _ _ Hix) in Hp as [Hp ->]. apply run_guard_bind in Hr as [Hn Hr]. apply bool_decide_eq_true in Hn.
  destruct st as [m' s']. crun Hr. unfold verifySeal in Hl0. destruct (decide (Number_u64 header = 0)) as [|Hn0]; [done|].
  destruct (ecrecover _ _) as [a| |] eqn:Ee; cbn in Hl0; [|done..]. case_decide; [|done]. simplify_eq.
  split_and!; try done.
  - unfold extraVanity, extraSeal, AddressLength in *. by replace (blen (eh_Extra header) - 97) with (blen (eh_Extra header) - 32 - 65) by lia.
  - unfold diffInTurn, diffNoTurn in *. lia.
  - unfold diffInTurn, diffNoTurn in *. lia.
  - exists p. split; [done|]. pose proof (Number_u64_range header) as [??]. rewrite uwrap_small in Hn by (split; lia). lia.
Qed.

Lemma in_turn_set_inv G header L m s hv st :
  run (in_turn_set header (with_hash (first_epoch G L) (set_at G L 0)) (set_at G L 1)) (m, s) = (Ok hv, st) →
  st = (m, s) ∧ Validators hv = Validators (in_force G header L).
Proof.
  unfold in_turn_set, in_force. cbn [hv_Height with_hash Validators]. destruct (hv_Height (set_at G L 0)) as [height|]; [|done].
  change (default 0 (Some height)) with height. cbv zeta. destruct poa_flavor.
  - destruct (decide (swrap 64 (Number header - height) ≤ _)).
    + intros [_ Hr]%run_guard_bind. by inversion Hr.
    + intros Hr. by inversion Hr.
  - intros [_ Hr]%run_guard_bind. by inversion Hr.
  - intros [_ Hr]%run_guard_bind. by inversion Hr.
Qed.

(** ** The state of a handler *)

Record poa_state m c l G : Prop := mkPoaState {
  ps_client : client m c l;
  ps_epochs : epochs_ok (lc_tree l) (lc_root l) G;
  ps_genesis : genesis_stored m c G;
}.

Lemma epochs_add l G header L e :
  lc_ok l → addable l header → epochs_ok (lc_tree l) (lc_root l) G →
  branch (lc_tree l) (lc_root l) (ParentHash header) L → e = Some (first_epoch G L) →
  97 ≤ blen (eh_Extra header) ∧ (blen (eh_Extra header) - 97) mod 20 = 0 →
  epochs_ok (lc_tree (lc_add (poa_Hash header) (with_sum l header e) l)) (lc_root l) G.
Proof.
  intros Hok Ha Hep HL -> Hex. pose proof (ad_new _ _ Ha) as Hnew. pose proof (lc_wf _ Hok) as Hwf. unfold lc_add. cbn [lc_tree].
  assert (poa_Hash header ≠ lc_root l) as Hg by (by apply (insert_ne_root (lc_tree l))).
  split.
  - apply Hep.
  - intros r Hr. rewrite lookup_insert_ne in Hr by done. by apply (ep_root_header _ _ _ Hep).
  - apply Hep.
  - intros h x Hx. rewrite lookup_insert_Some in Hx. destruct Hx as [[<- <-]|[_ Hx]]; [done|]. by apply (ep_hash _ _ _ Hep).
  - intros h x Hx Hne. rewrite lookup_insert_Some in Hx. destruct Hx as [[<- <-]|[_ Hx]]; [done|]. by apply (ep_extra _ _ _ Hep _ _ Hx).
  - intros h x L' Hx Hne HL'. rewrite lookup_insert_Some in Hx. destruct Hx as [[<- <-]|[Hh Hx]].
    + cbn [nd_parent poa_node with_sum ws_Header] in HL'. eapply branch_insert in HL; [|done]. by rewrite (branch_fun _ _ _ _ _ HL' HL).
    + destruct (wf_step _ _ Hwf _ _ Hx Hne) as (p & Hp & _). destruct (branch_total _ _ (nd_parent x) Hwf) as [L1 HL1]; [by eexists|].
      rewrite (ep_link _ _ _ Hep _ _ _ Hx Hne HL1). eapply branch_insert in HL1; [|exact Hnew]. by rewrite (branch_fun _ _ _ _ _ HL' HL1).
Qed.

(** The light client grows by authorised headers, one after the other. *)
Inductive grows G ctx : lightclient HeaderWithDifficultySum → lightclient HeaderWithDifficultySum → Prop :=
  | grows_refl l : grows G ctx l l
  | grows_add l header L l' :
      addable l header → branch (lc_tree l) (lc_root l) (ParentHash header) L → authorised G ctx header L →
      grows G ctx (lc_add (poa_Hash header) (with_sum l header (Some (first_epoch G L))) l) l' → grows G ctx l l'.

Lemma grows_trans G ctx l1 l2 l3 : grows G ctx l1 l2 → grows G ctx l2 l3 → grows G ctx l1 l3.
Proof. induction 1; [done|]. intros. eapply grows_add; eauto. Qed.

(** The header as the handler uses it. *)
Definition as_used s header : EthHeader := if bool_decide (poa_flavor = Heco) && needFix cfg (ns_height s) then drop_base_fee header else header.

Lemma as_used_wf s header : header_wf header → header_wf (as_used s header).
Proof. unfold as_used. destruct (_ && _); [|done]. intros [? ? ? ? ?]. split; try done. Qed.

(** Headers whose hash is not zero and whose height is at most [B]. *)
Definition in_bounds s (B : Z) (v : bytes) : Prop := ∀ header, json_header v = Ok header →
  poa_Hash (as_used s header) ≠ EMPTY_HASH ∧ Number_u64 (as_used s header) ≤ B.

Definition head_below l (B : Z) : Prop := ∀ x, lc_tree l !! lc_head l = Some x → Number_u64 (ws_Header x) ≤ B.

(** ** One header *)

Lemma run_isHeaderExist m s c T h ctx : index_of m c T → ctx_ChainID ctx = c →
  run (isHeaderExist h ctx) (m, s) = (Ok (bool_decide (is_Some (T !! h))), (m, s)).
Proof.
  intros Hix Hctx. unfold isHeaderExist. rewrite Hctx. erewrite run_bind_ok by (by apply run_cwrap_ok, run_cget).
  change (run (mret ?b) ?st) with (Ok b, st). do 2 f_equal. apply bool_decide_ext. destruct (T !! h) as [x|] eqn:E.
  - destruct (ix_some _ _ _ Hix _ _ E) as (b & -> & _). split; [by eexists|]. intros _. apply GenRawStorageItem_nonempty.
  - rewrite (ix_none _ _ _ Hix) by done. split; [done|]. by intros [].
Qed.

Lemma run_NotifyPutHeader c i (b : bytes) m s u m' s' :
  run (NotifyPutHeader cfg c i b) (m, s) = (Ok u, (m', s')) → m' = m ∧ ns_height s' = ns_height s ∧ ns_input s' = ns_input s.
Proof.
  unfold NotifyPutHeader. destruct (negb _); [intros Hr; by inversion Hr|]. intros Hr. unfold AddNotify in Hr. crun Hr. done.
Qed.

Lemma head_below_add l B h x : head_below l B → nd_number x ≤ B → lc_ok l → head_below (lc_add h x l) B.
Proof.
  intros Hb Hx [_ [y Hy] _] z. unfold lc_add. cbn [lc_tree lc_head]. case_decide.
  - rewrite lookup_insert_eq. intros [= <-]. done.
  - destruct (decide (h = lc_head l)) as [->|Hne]; [rewrite lookup_insert_eq; intros [= <-]; done|].
    rewrite lookup_insert_ne by done. apply Hb.
Qed.

Lemma check_recent_inv header (last : Z) (hv : HeightAndValidators) (st st' : kvmap * NativeService) (u : unit) : run (check_recent header last hv) st = (Ok u, st') →
  st' = st ∧ (last ≤ 0 ∨ swrap 64 (last + Z.of_nat (length (Validators hv) / 2)) < Number_i64 header).
Proof. unfold check_recent. intros [E ->]%run_guard_inv. apply bool_decide_eq_true in E. done. Qed.

Lemma genesis_same m m' c G : same_but_chain m m' c → genesis_stored m c G → genesis_stored m' c G.
Proof.
  intros Hs (b & Hk & ?). exists b. split; [|done]. rewrite Hs; [done|..]; intros; auto with hskeys.
Qed.

Lemma sync_header_sound fuel m s c l G ctx v B u m' s' :
  poa_state m c l G → ctx_ChainID ctx = c → in_bounds s B v → head_below l B → B < 2 ^ 64 - 1 → 2 * B + 2 < Z.of_nat fuel →
  run (sync_header cfg fuel now ctx v) (m, s) = (Ok u, (m', s')) →
  ns_height s' = ns_height s ∧ ∃ l', grows G ctx l l' ∧ poa_state m' c l' G ∧ head_below l' B.
Proof.
  intros [Hc Hep Hgen] Hctx Hin Hhb HB Hf Hr. unfold sync_header in Hr.
  apply run_bind_inv in Hr as (h0 & st & Hj & Hr). apply run_cwrap_ok, run_lift_inv in Hj as [Hj ->].
  apply run_bind_inv in Hr as (ht & st & Hht & Hr). rewrite run_cask in Hht. injection Hht as <- <-.
  change (if _ && _ then drop_base_fee h0 else h0) with (as_used s h0) in Hr. cbv zeta in Hr.
  destruct (Hin h0 Hj) as [Hnz Hnb]. pose proof (as_used_wf s h0 (json_header_wf _ _ Hj)) as Hwf. set (header := as_used s h0) in *.
  pose proof (cl_index _ _ _ Hc) as Hix. pose proof (cl_ok _ _ _ Hc) as Hok.
  erewrite run_bind_ok in Hr by (apply run_cwrap_ok; by apply (run_isHeaderExist m s c (lc_tree l))).
  case_bool_decide as Hex; [apply run_ret_inv in Hr as [_ [= -> ->]]; split; [done|]; exists l; split_and!; [constructor|done|done]|].
  erewrite run_bind_ok in Hr by (apply run_cwrap_ok; by apply (run_isHeaderExist m s c (lc_tree l))).
  case_bool_decide as Hpx; cbn [negb] in Hr; [|apply run_ret_inv in Hr as [_ [= -> ->]]; split; [done|]; exists l; split_and!; [constructor|done|done]].
  apply run_bind_inv in Hr as (signer & st & Hv & Hr). apply run_cwrap_ok in Hv.
  destruct (verifyHeader_inv _ _ _ _ _ _ _ _ Hix Hctx Hv) as (-> & -> & Hseal & Htime & He1 & He2 & Hpos & p & Hp & Hnum).
  assert (lc_tree l !! poa_Hash header = None) as Hnew by (destruct (lc_tree l !! poa_Hash header) eqn:E; [by destruct Hex|done]).
  destruct (branch_total _ _ (ParentHash header) (lc_wf _ Hok)) as [L HL]; [by eexists|].
  destruct (client_head _ _ _ Hc) as (hd & r & Hhd & _ & _). pose proof (Hhb _ Hhd) as Hhdb.
  pose proof (Number_u64_range (ws_Header hd)) as [Hd0 _].
  destruct fuel as [|[|[|f]]]; [lia..|]. set (fuel := S (S (S f))) in *.
  erewrite run_bind_ok in Hr by (apply run_cwrap_ok; by apply (getPrev_run m c l G Hc Hep f s header ctx L)).
  apply run_bind_inv in Hr as (hv & st & Hturn & Hr). apply in_turn_set_inv in Hturn as [-> Ehv].
  apply run_bind_inv in Hr as (u1 & st & Hrec & Hr). apply check_recent_inv in Hrec as [-> Hrec].
  apply run_bind_inv in Hr as (u2 & st & Hct & Hr). apply run_lift_inv in Hct as [Hct ->]. destruct u2.
  apply check_turn_inv in Hct as [Hmem Hti]. rewrite Ehv in *.
  assert (addable l header) as Hadd. { split; [done|done|done|lia|done|]. by exists p. }
  destruct (addHeader_run m s c l header (with_hash (first_epoch G L) (set_at G L 0)) ctx fuel Hc Hadd) as (m1 & Hrun & Hc1 & Hsb); [|done|].
  { unfold enough_fuel. rewrite Hhd. cbn [from_option]. lia. }
  erewrite run_bind_ok in Hr by (by apply run_cwrap_ok). apply run_NotifyPutHeader in Hr as (-> & Hht & _). split; [done|].
  cbn [hv_Hash with_hash] in Hc1.
  exists (lc_add (poa_Hash header) (with_sum l header (Some (first_epoch G L))) l). split_and!.
  - eapply grows_add; [done|exact HL| |constructor]. by split.
  - split; [done| |by eapply genesis_same]. by apply (epochs_add l G header L).
  - by apply head_below_add.
Qed.

(** ** The whole list *)

Lemma sync_headers_sound fuel c G ctx (B : Z) (vs : list bytes) m s l (u : unit) m' s' :
  poa_state m c l G → ctx_ChainID ctx = c → (∀ v, v ∈ vs → in_bounds s B v) → head_below l B → B < 2 ^ 64 - 1 → 2 * B + 2 < Z.of_nat fuel →
  run (cforeach vs tt (λ _ v, sync_header cfg fuel now ctx v)) (m, s) = (Ok u, (m', s')) →
  ∃ l', grows G ctx l l' ∧ poa_state m' c l' G ∧ head_below l' B.
Proof.
  intros Hst Hctx Hin Hhb HB Hf. revert m s l Hst Hin Hhb. induction vs as [|v vs IH]; intros m s l Hst Hin Hhb Hr; cbn [cforeach] in Hr.
  - apply run_ret_inv in Hr as [_ [= -> ->]]. exists l. split; [constructor|done].
  - change (cbind ?a ?f) with (a ≫= f) in Hr. apply run_bind_inv in Hr as ([] & [m1 s1] & Hone & Hr).
    apply (sync_header_sound fuel m s c l G ctx v B) in Hone as (Hht & l1 & Hg1 & Hst1 & Hhb1); [|done|done|apply Hin; by left|done..].
    destruct (IH m1 s1 l1 Hst1) as (l2 & Hg2 & Hrest); [|done|done|].
    + intros w Hw header Hj. unfold as_used. rewrite Hht. apply (Hin w); [by right|done].
    + exists l2. split; [by eapply grows_trans|done].
Qed.

(** C3 SyncBlockHeader of the proof-of-authority chains is sound: when it succeeds,
    every header it added was sealed by the validator it names, which was in the
    set in force after its ancestors, with the difficulty of its turn, and had not
    signed one of the last blocks; and the store represents the light client with
    exactly these headers, whose main chain is the heaviest branch, whatever forks
    they were on. *)
Theorem poa_sync_sound fuel m s l G (params : SyncBlockHeaderParam) (B : Z) m' s' :
  deserialize (ns_input s) = Ok params → poa_state m (sb_ChainID params) l G →
  (∀ v, v ∈ Headers params → in_bounds s B v) → head_below l B → B < 2 ^ 64 - 1 → 2 * B + 2 < Z.of_nat fuel →
  run (SyncBlockHeader cfg fuel now) (m, s) = (Ok tt, (m', s')) →
  ∃ ctx l', ctx_ChainID ctx = sb_ChainID params ∧ grows G ctx l l' ∧ poa_state m' (sb_ChainID params) l' G.
Proof.
  intros Hpar Hst Hin Hhb HB Hf Hr. unfold SyncBlockHeader in Hr. apply run_bind_inv in Hr as (p & st & Hi & Hr).
  apply input_as_inv in Hi as [-> Hi]. rewrite Hpar in Hi. injection Hi as <-. apply run_bind_inv in Hr as (side & [m1 s1] & Hside & Hr).
  pose proof (f_equal snd Hside) as Hsame. rewrite (GetSideChain_ro _ _) in Hsame. injection Hsame as <- <-.
  destruct side as [side|]; [|by destruct (decide _)]. apply run_bind_inv in Hr as (extra & st & Hex & Hr).
  apply run_cwrap_ok, run_lift_inv in Hex as [_ ->]. exists (mkPoaContext extra (sb_ChainID params)).
  destruct (sync_headers_sound fuel (sb_ChainID params) G (mkPoaContext extra (sb_ChainID params)) B (Headers params) m s l tt m' s' Hst eq_refl Hin Hhb HB Hf Hr) as (l' & Hg & Hst' & _).
  by exists l'.
Qed.

End safe.
