(* ===== verification/PoaGenesis.v ===== *)
(** * How a chain with proof of authority starts

    The genesis header that the operator sets makes a light client with one header,
    which is what PoaSafe assumes of the store. *)

From S2P Require Import Prelude Sha256 Sink Source Serialization BytesOrder MemDB OverlayDB CacheDB Contract MerkleSpec MerkleHasher Native ExCrypto Codec NodeStates NodeManager NodeInv NodeGov CrossCommon ConsensusVote SideStates SideChain Approval SideGov CrossChain CrossSafe HsCommon Rlp RlpSpec EthHeader HeaderTree PoaSync PoaChain PoaEpoch PoaSafe.

#[local] Set Default Proof Using "Type*".

Section genesis.
Context `{Hasher} `{Crypto} `{EthLib} `{!EthLibLaws} `{!PoaChain} `{!PoaLaws} (cfg : Config).
Implicit Types (m : kvmap) (s : NativeService) (c : Z) (G : GenesisHeader) (header : EthHeader).

Definition root_header header : HeaderWithDifficultySum := mkHeaderWithDifficultySum header (Difficulty header) None.

(** The light client that knows the genesis header only. *)
Definition root_client header : lightclient HeaderWithDifficultySum :=
  lc_single (poa_Hash header) (root_header header).

(** Nothing is stored of the chain. *)
Definition fresh m c : Prop :=
  (∀ h : Uint256, kv_at m (header_key c (to_slice h)) = []) ∧ ∀ i, is_u64 i → kv_at m (main_key c i) = [].

Lemma root_client_ok header : lc_ok (root_client header).
Proof. apply lc_single_ok. Qed.

Lemma root_client_main header i (a : Uint256) : main_chain (root_client header) i a ↔ a = poa_Hash header ∧ i = Number_u64 header.
Proof. exact (lc_single_main (poa_Hash header) (root_header header) i a). Qed.

Lemma root_epochs G (v0 v1 : HeightAndValidators) : PrevValidators G = [v0; v1] →
  epochs_ok (lc_tree (root_client (gh_Header G))) (poa_Hash (gh_Header G)) G.
Proof.
  intros HG. split; cbn.
  - done.
  - intros r [_ <-]%lookup_singleton_Some. done.
  - by exists v0, v1.
  - intros h x [<- <-]%lookup_singleton_Some. done.
  - intros h x [<- _]%lookup_singleton_Some. done.
  - intros h x L [<- _]%lookup_singleton_Some. done.
Qed.

Lemma NotifyPutHeader_run c (i : Z) (b : bytes) m s : ∃ s', run (NotifyPutHeader cfg c i b) (m, s) = (Ok tt, (m, s')).
Proof. unfold NotifyPutHeader. destruct (negb _); by eexists. Qed.

(** The store after the genesis header is set. *)
Definition genesis_store m c header (b g : bytes) : kvmap :=
  <[main_key c (Number_u64 header) := GenRawStorageItem (to_slice (poa_Hash header))]>
    (<[current_key c := GenRawStorageItem (GetUint64Bytes (Number_u64 header))]>
      (<[header_key c (to_slice (poa_Hash header)) := GenRawStorageItem b]>
        (<[genesis_key c := GenRawStorageItem g]> m))).

Lemma storeGenesis_state m c G (v0 v1 : HeightAndValidators) (b g : bytes) :
  fresh m c → header_wf (gh_Header G) → PrevValidators G = [v0; v1] → poa_Hash (gh_Header G) ≠ EMPTY_HASH → Number_u64 (gh_Header G) < 2 ^ 64 - 1 →
  blen b < 2 ^ 63 → json_sum b = Ok (root_header (gh_Header G)) → blen g < 2 ^ 63 → json_genesis g = Ok G →
  poa_state (genesis_store m c (gh_Header G) b g) c (root_client (gh_Header G)) G.
Proof.
  intros [Hfh Hfm] Hwf HG Hnz Hnum Hb Hjb Hg Hjg. set (header := gh_Header G) in *. split; [split| |].
  - apply root_client_ok.
  - split; unfold genesis_store; cbn [root_client lc_single lc_tree].
    + intros h Hne%lookup_singleton_None. rewrite !kv_at_insert.
      rewrite !decide_False; auto with hskeys. intros E. apply Hne. by apply header_key_inj, to_slice_inj in E.
    + intros h x [<- <-]%lookup_singleton_Some. rewrite !kv_at_insert. do 2 (rewrite decide_False by auto with hskeys).
      rewrite decide_True by done. exists b. do 5 (split; [done|]).
      unfold td_bound. cbn. pose proof (hw_difficulty _ Hwf). pose proof (Number_u64_range header) as [??]. lia.
  - cbn. by rewrite lookup_singleton_ne.
  - cbn [root_client lc_single lc_tree]. intros h x [_ <-]%lookup_singleton_Some. done.
  - exists (λ i, if decide (i = Number_u64 header) then Some (poa_Hash header) else None). split.
    + intros i Hi. unfold genesis_store. rewrite kv_at_insert. destruct (decide (i = Number_u64 header)) as [->|Hne]; [by rewrite decide_True|].
      rewrite decide_False by (intros E; apply Hne; apply (main_key_inj c) in E; [done|done|apply Number_u64_range]).
      rewrite !kv_at_insert, !decide_False by auto with hskeys. by apply Hfm.
    + intros i a Hi. rewrite root_client_main. case_decide; naive_solver.
  - cbn [root_client lc_single lc_tree lc_head]. intros x [_ <-]%lookup_singleton_Some. unfold height_is, genesis_store.
    rewrite !kv_at_insert. rewrite decide_False by auto with hskeys. by rewrite decide_True.
  - by apply (root_epochs G v0 v1).
  - exists g. unfold genesis_store. rewrite !kv_at_insert. split; [|done]. do 3 (rewrite decide_False by auto with hskeys). by rewrite decide_True.
Qed.

Lemma storeGenesis_run m s (params : SyncGenesisHeaderParam) G (v0 v1 : HeightAndValidators) :
  fresh m (sg_ChainID params) → genesis_wf G → PrevValidators G = [v0; v1] → poa_Hash (gh_Header G) ≠ EMPTY_HASH →
  Number_u64 (gh_Header G) < 2 ^ 64 - 1 →
  ∃ m' s', run (storeGenesis cfg params G) (m, s) = (Ok tt, (m', s')) ∧ poa_state m' (sg_ChainID params) (root_client (gh_Header G)) G.
Proof.
  intros Hfr Hwf HG Hnz Hnum. pose proof (gw_header _ Hwf) as Hh. set (c := sg_ChainID params) in *.
  destruct (json_genesis_marshal G Hwf) as (g & Eg & Hg & Hjg); [by rewrite HG|].
  destruct (json_sum_marshal (root_header (gh_Header G))) as (b & Eb & Hb & Hjb); [done|cbn; pose proof (hw_difficulty _ Hh); lia|].
  unfold storeGenesis. fold c. rewrite Eg. erewrite run_bind_ok by done. erewrite run_bind_ok by apply run_cput.
  rewrite (run_bind_ok _ _ _ _ _ (run_putHeaderWithSum _ s c (root_header (gh_Header G)) b Eb)).
  unfold putCanonicalHeight, putCanonicalHash. erewrite run_bind_ok by apply run_cput. erewrite run_bind_ok by apply run_cput.
  destruct (NotifyPutHeader_run c (Number_u64 (gh_Header G)) (Hash_Hex (poa_Hash (gh_Header G)))
    (genesis_store m c (gh_Header G) b g) s) as [s' Es].
  exists (genesis_store m c (gh_Header G) b g), s'. split; [exact Es|]. by eapply storeGenesis_state.
Qed.

(** What is stored of the operator's genesis data: the validators in the header
    come first. *)
Definition with_validators G (v : HeightAndValidators) : GenesisHeader := mkGenesisHeader (gh_Header G) (v :: PrevValidators G).

Lemma isGenesisStored_none m s (params : SyncGenesisHeaderParam) st :
  run (isGenesisStored params) (m, s) = (Ok false, st) → kv_at m (genesis_key (sg_ChainID params)) = [] ∧ st = (m, s).
Proof.
  unfold isGenesisStored, getGenesis. destruct st as [m1 s1]. intros Hr. crun Hr. destruct (decide _) as [E|Hne]; crun Hr0; done.
Qed.

Lemma ValidateOwner_inv m s (a : Address) (u : unit) st : run (ValidateOwner a) (m, s) = (Ok u, st) → CheckWitness a s = true ∧ st = (m, s).
Proof. unfold ValidateOwner. rewrite (run_bind_ok _ _ _ _ _ (run_cask _ m s)). apply run_guard_inv. Qed.

Lemma ParseValidators_nonempty (b : bytes) (vs : list Address) : ParseValidators b = Ok vs → 0 < blen b →
  vs ≠ [] ∧ blen vs ≤ blen b.
Proof.
  unfold ParseValidators, AddressLength. case_decide as Hm; [done|]. intros [= <-] Hpos.
  assert (∀ (n : nat) (w : bytes), length (parse_addresses n w) = n) as Hlen by (intros n; induction n as [|n IH]; intros w; cbn; [done|by rewrite IH]).
  assert (1 ≤ length b / 20 ≤ length b)%nat as Hq.
  { pose proof (Z.div_mod (blen b) 20). split; [apply Nat.div_le_lower_bound; lia|apply Nat.Div0.div_le_upper_bound; lia]. }
  split; [|rewrite Hlen; lia]. intros E. apply (f_equal length) in E. rewrite Hlen in E. cbn in E. lia.
Qed.

End genesis.
