(* ===== verification/ExPoa.v ===== *)
(** * A concrete chain with proof of authority

    Shows that what PoaChain and EthHeader assume of JSON, of go-ethereum and of its
    hash function can hold, and gives the examples of PoaSafe and PoaGenesis their
    data: "JSON" is a binary format, the hash is SHA-256 and the public key recovered
    from a signature is the signature. *)

From S2P Require Import Prelude Sha256 Sink Source Serialization BytesOrder MemDB OverlayDB CacheDB Contract MerkleSpec MerkleHasher Native ExCrypto Codec NodeStates NodeManager NodeInv NodeGov CrossCommon ConsensusVote SideStates SideChain Approval SideGov CrossChain CrossSafe HsCommon Rlp RlpSpec EthHeader HeaderTree PoaSync PoaChain PoaEpoch PoaSafe PoaGenesis.

#[export] Instance ex_ethlib : EthLib := {|
  Keccak256 b := copy_array 32 (rev (to_slice (Sum256 b)));
  Keccak512 b := copy_array 64 (rev (to_slice (Sum256 b)) ++ rev (to_slice (Sum256 (Byte.x01 :: b))));
  Ecrecover _ sig := Ok sig;
  EmptyUncleHash := EMPTY_HASH;
  BytesToHash b := copy_array 32 b;
  BytesToAddress b := copy_array 20 b;
  Hash_Hex h := hex_encode (to_slice h);
  GasLimitBoundDivisor := 1024;
  MinGasLimit := 5000;
  MinimumDifficulty := 1;
  DifficultyBoundDivisor := 2048;
  MaximumExtraDataSize := 32;
|}.
#[export] Instance ex_ethlib_laws : EthLibLaws.
Proof. split; cbn; try lia; intros; apply copy_to_slice. Qed.

(** ** The format *)

Definition OpArray {n} (a : array n) : sink_op := OpVarBytes (to_slice a).
Definition OpBig (x : Z) : sink_op := OpVarBytes (le_put 40 x).
Definition OpOption {A} (f : A → bytes) (x : option A) : sink_op := OpVarBytes (match x with None => [] | Some a => Byte.x01 :: f a end).

Definition read_array (n : nat) : M ZeroCopySource (array n) := b ← must "array" NextVarBytes; mret (copy_array n b).
Definition read_big : M ZeroCopySource Z := b ← must "number" NextVarBytes; mret (le_get b).
Definition read_option {A} (f : bytes → A) : M ZeroCopySource (option A) :=
  b ← must "option" NextVarBytes; mret (match b with [] => None | _ :: b => Some (f b) end).

Lemma decodes_array n (a : array n) : decodes (read_array n) (enc_op (OpArray a)) a.
Proof. eapply decodes_map; [apply decodes_must, decodes_NextVarBytes|]. cbn. by rewrite copy_to_slice. Qed.
Lemma decodes_big x : 0 ≤ x < 2 ^ 257 → decodes read_big (enc_op (OpBig x)) x.
Proof. intros Hx. eapply decodes_map; [apply decodes_must, decodes_NextVarBytes|]. rewrite le_get_put_small; [done|]. split; lia. Qed.
Lemma decodes_option {A} (f : A → bytes) (g : bytes → A) x : (∀ a, x = Some a → g (f a) = a) → decodes (read_option g) (enc_op (OpOption f x)) x.
Proof.
  intros Hfg. eapply decodes_map; [apply decodes_must, decodes_NextVarBytes|]. destruct x as [a|]; [|done]. by rewrite Hfg.
Qed.
Lemma decodes_opt_big (x : option Z) : 0 ≤ default 0 x < 2 ^ 256 → decodes (read_option le_get) (enc_op (OpOption (le_put 40) x)) x.
Proof. intros Hx. apply decodes_option. intros a ->. cbn in Hx. apply le_get_put_small. split; lia. Qed.
Lemma decodes_opt_hash (x : option Uint256) : decodes (read_option (copy_array 32)) (enc_op (OpOption (λ h : Uint256, to_slice h) x)) x.
Proof. apply decodes_option. intros a _. apply copy_to_slice. Qed.

Lemma safe_array n : safe (read_array n).
Proof. unfold read_array. solve_total. Qed.
Lemma safe_big : safe read_big.
Proof. unfold read_big. solve_total. Qed.
Lemma safe_option {A} (f : bytes → A) : safe (read_option f).
Proof. unfold read_option. solve_total. Qed.

Lemma progress_array n : progress (read_array n).
Proof. apply progress_bind; [auto using safe_must with safe|auto with safe|intros; apply safe_ret]. Qed.

Definition header_ops (h : EthHeader) : list sink_op :=
  [OpArray (ParentHash h); OpArray (UncleHash h); OpArray (Coinbase h); OpArray (eh_Root h); OpArray (eh_TxHash h); OpArray (ReceiptHash h);
   OpArray (Bloom h); OpBig (Difficulty h); OpBig (Number h); OpUint64 (GasLimit h); OpUint64 (GasUsed h); OpUint64 (eh_Time h);
   OpVarBytes (eh_Extra h); OpArray (MixDigest h); OpArray (eh_Nonce h); OpOption (le_put 40) (BaseFee h)].
Definition read_header : M ZeroCopySource EthHeader :=
  parent ← read_array 32; uncle ← read_array 32; coinbase ← read_array 20; root ← read_array 32; tx ← read_array 32; receipt ← read_array 32;
  bloom ← read_array 256; difficulty ← read_big; number ← read_big; limit ← must "limit" NextUint64; used ← must "used" NextUint64;
  time ← must "time" NextUint64; extra ← must "extra" NextVarBytes; mix ← read_array 32; nonce ← read_array 8; fee ← read_option le_get;
  mret (mkEthHeader parent uncle coinbase root tx receipt bloom difficulty number limit used time extra mix nonce fee).

Lemma header_big h : header_wf h → 0 ≤ Difficulty h < 2 ^ 257 ∧ 0 ≤ Number h < 2 ^ 257.
Proof. intros [Hd Hn _ _ _]. lia. Qed.

#[local] Hint Resolve decodes_array decodes_big decodes_opt_big decodes_opt_hash : codec.
#[local] Hint Resolve safe_array safe_big safe_option : safe.

Ltac ex_fields := rewrite ?enc_ops_app, ?enc_ops_cons, ?enc_ops_nil, <- ?app_assoc, ?app_nil_l; repeat codec_step.

#[export] Program Instance ex_header_ser : Serializable EthHeader := {|
  Serialization := header_ops; Deserialization := read_header; ser_wf := header_wf;
|}.
Next Obligation.
  intros h Hwf. destruct (header_big h Hwf) as [Hd Hn]. destruct Hwf as [_ _ (Hg1 & Hg2 & Hg3) Hf _]. destruct h as [h1 h2 h3 h4 h5 h6 h7 h8 h9 h10 h11 h12 h13 h14 h15 h16]. unfold header_ops, read_header.
  cbn [ParentHash UncleHash Coinbase eh_Root eh_TxHash ReceiptHash Bloom Difficulty Number GasLimit GasUsed eh_Time eh_Extra MixDigest eh_Nonce BaseFee] in *.
  ex_fields.
Qed.
Next Obligation. unfold read_header. solve_total. Qed.

Definition sum_ops (x : HeaderWithDifficultySum) : list sink_op :=
  header_ops (ws_Header x) ++ [OpBig (DifficultySum x); OpOption (λ h : Uint256, to_slice h) (EpochParentHash x)].
Definition read_sum : M ZeroCopySource HeaderWithDifficultySum :=
  header ← read_header; td ← read_big; epoch ← read_option (copy_array 32); mret (mkHeaderWithDifficultySum header td epoch).

#[export] Program Instance ex_sum_ser : Serializable HeaderWithDifficultySum := {|
  Serialization := sum_ops; Deserialization := read_sum; ser_wf x := header_wf (ws_Header x) ∧ 0 ≤ DifficultySum x < 2 ^ 257;
|}.
Next Obligation.
  intros [h td e] [Hh Htd]. unfold sum_ops, read_sum. cbn [ws_Header DifficultySum EpochParentHash] in *.
  rewrite enc_ops_app. eapply decodes_bind; [exact (ser_roundtrip (Serializable := ex_header_ser) h Hh)|]. ex_fields.
Qed.
Next Obligation.
  unfold read_sum. apply safe_bind; [exact (ser_safe (Serializable := ex_header_ser))|intros]. solve_total.
Qed.

Definition hv_ops (hv : HeightAndValidators) : list sink_op :=
  [OpOption (le_put 40) (hv_Height hv); OpOption (λ h : Uint256, to_slice h) (hv_Hash hv); OpUint64 (blen (Validators hv))] ++
  enc_list (λ a : Address, [OpArray a]) (Validators hv).
Definition read_hv : M ZeroCopySource HeightAndValidators :=
  height ← read_option le_get; hash ← read_option (copy_array 32); n ← must "count" NextUint64; vs ← loopM n (read_array 20);
  mret (mkHeightAndValidators height vs hash).
Definition hv_wf (hv : HeightAndValidators) : Prop := 0 ≤ default 0 (hv_Height hv) < 2 ^ 256 ∧ blen (Validators hv) < 2 ^ 40.

#[export] Program Instance ex_hv_ser : Serializable HeightAndValidators := {|
  Serialization := hv_ops; Deserialization := read_hv; ser_wf := hv_wf;
|}.
Next Obligation.
  intros [height vs hash] [Hh Hv]. unfold hv_ops, read_hv. cbn [hv_Height Validators hv_Hash] in *. ex_fields.
  - eapply decodes_must_bind; [apply decodes_NextUint64; split; lia|]. eapply decodes_map; [|done].
    apply decodes_list; [done| |intros; apply enc_varbytes_pos]. intros a _. rewrite enc_ops_cons, enc_ops_nil, app_nil_r. apply decodes_array.
Qed.
Next Obligation.
  unfold read_hv. do 3 (apply safe_bind; [solve_total|intros]).
  apply safe_bind; [apply safe_loopM; [apply safe_array|apply progress_array]|intros; apply safe_ret].
Qed.

Definition genesis_ops (g : GenesisHeader) : list sink_op :=
  header_ops (gh_Header g) ++ [OpUint64 (blen (PrevValidators g))] ++ enc_list hv_ops (PrevValidators g).
Definition read_genesis : M ZeroCopySource GenesisHeader :=
  header ← read_header; n ← must "count" NextUint64; vs ← loopM n read_hv; mret (mkGenesisHeader header vs).

Lemma progress_hv : progress read_hv.
Proof.
  unfold read_hv. apply progress_bind; [apply safe_option| |intros].
  - apply progress_bind; [auto using safe_must with safe|auto with safe|intros; apply safe_ret].
  - do 2 (apply safe_bind; [solve_total|intros]). apply safe_bind; [apply safe_loopM; [apply safe_array|apply progress_array]|intros; apply safe_ret].
Qed.

#[export] Program Instance ex_genesis_ser : Serializable GenesisHeader := {|
  Serialization := genesis_ops; Deserialization := read_genesis; ser_wf g := genesis_wf g ∧ blen (PrevValidators g) ≤ 2;
|}.
Next Obligation.
  intros [h vs] [[Hh Hv] Hn]. unfold genesis_ops, read_genesis. cbn [gh_Header PrevValidators] in *. rewrite !enc_ops_app.
  eapply decodes_bind; [exact (ser_roundtrip (Serializable := ex_header_ser) h Hh)|]. rewrite enc_ops_cons, enc_ops_nil, app_nil_r.
  eapply decodes_must_bind; [apply decodes_NextUint64; split; lia|]. eapply decodes_map; [|done].
  apply decodes_list; [done| |intros; apply enc_varbytes_pos]. intros hv Hin. exact (ser_roundtrip (Serializable := ex_hv_ser) hv (Hv hv Hin)).
Qed.
Next Obligation.
  unfold read_genesis. apply safe_bind; [exact (ser_safe (Serializable := ex_header_ser))|intros].
  apply safe_bind; [solve_total|intros]. apply safe_bind; [apply safe_loopM; [exact (ser_safe (Serializable := ex_hv_ser))|apply progress_hv]|intros; apply safe_ret].
Qed.

(** ** Sizes *)

Lemma varbytes_le p : blen (enc_op (OpVarBytes p)) ≤ blen p + 9.
Proof.
  cbn [enc_op]. rewrite length_app. pose proof (length_enc_varuint (blen p)) as E. unfold varuint_size in E. repeat case_decide; lia.
Qed.
Lemma array_le n (a : array n) : (n ≤ 256)%nat → blen (enc_op (OpArray a)) ≤ 300.
Proof. intros Hn. pose proof (varbytes_le (to_slice a)) as E. rewrite length_to_slice in E. unfold OpArray. lia. Qed.
Lemma big_le x : blen (enc_op (OpBig x)) ≤ 300.
Proof. pose proof (varbytes_le (le_put 40 x)) as E. rewrite length_le_put in E. unfold OpBig. lia. Qed.
Lemma option_le {A} (f : A → bytes) x : (∀ a, length (f a) ≤ 40)%nat → blen (enc_op (OpOption f x)) ≤ 300.
Proof. intros Hf. unfold OpOption. destruct x as [a|]; [|done]. pose proof (varbytes_le (Byte.x01 :: f a)) as E. specialize (Hf a). rewrite length_cons in E. lia. Qed.
Lemma u64_le x : blen (enc_op (OpUint64 x)) ≤ 300.
Proof. done. Qed.

Lemma ops_le (k : Z) (l : list sink_op) : Forall (λ o, blen (enc_op o) ≤ k) l → blen (enc_ops l) ≤ k * blen l.
Proof. induction 1 as [|o l Ho _ IH]; [cbn; lia|]. rewrite enc_ops_cons, length_app. cbn [length]. lia. Qed.

Lemma op_le_trans (o : sink_op) : blen (enc_op o) ≤ 300 → blen (enc_op o) ≤ 2 ^ 41.
Proof. intros. lia. Qed.
Lemma le_put_le n x : (n ≤ 40)%nat → (length (le_put n x) ≤ 40)%nat.
Proof. by rewrite length_le_put. Qed.
Lemma hash_le (h : Uint256) : (length (to_slice h) ≤ 40)%nat.
Proof. rewrite length_to_slice. lia. Qed.

Create HintDb opsize.
#[local] Hint Extern 1 (blen (enc_op (OpArray _)) ≤ 2 ^ 41) => (apply op_le_trans, array_le; lia) : opsize.
#[local] Hint Extern 1 (blen (enc_op (OpBig _)) ≤ 2 ^ 41) => (apply op_le_trans, big_le) : opsize.
#[local] Hint Extern 1 (blen (enc_op (OpUint64 _)) ≤ 2 ^ 41) => (apply op_le_trans, u64_le) : opsize.
#[local] Hint Extern 1 (blen (enc_op (OpOption _ _)) ≤ 2 ^ 41) => (apply op_le_trans, option_le; intros; first [apply hash_le|apply le_put_le; lia]) : opsize.

Lemma header_ops_le h : header_wf h → Forall (λ o, blen (enc_op o) ≤ 2 ^ 41) (header_ops h).
Proof.
  intros Hwf. pose proof (hw_extra _ Hwf) as Hx. unfold header_ops. repeat constructor; auto with opsize.
  pose proof (varbytes_le (eh_Extra h)). lia.
Qed.

Lemma addresses_le (vs : list Address) : blen (enc_ops (enc_list (λ a : Address, [OpArray a]) vs)) ≤ 300 * blen vs.
Proof.
  induction vs as [|a vs IH]; [done|]. unfold enc_list in *. rewrite fmap_cons.
  change (mjoin (?x :: ?l)) with (x ++ mjoin l). rewrite enc_ops_app, length_app, enc_ops_cons, enc_ops_nil, app_nil_r.
  pose proof (array_le 20 a ltac:(lia)). cbn [length]. lia.
Qed.

Lemma hv_ops_le hv : hv_wf hv → blen (enc_ops (hv_ops hv)) ≤ 2 ^ 60.
Proof.
  intros [_ Hv]. unfold hv_ops. rewrite enc_ops_app, length_app.
  assert (blen (enc_ops [OpOption (le_put 40) (hv_Height hv); OpOption (λ h : Uint256, to_slice h) (hv_Hash hv); OpUint64 (blen (Validators hv))]) ≤ 2 ^ 41 * 3) as H1.
  { apply ops_le. repeat constructor; auto with opsize. }
  pose proof (addresses_le (Validators hv)). lia.
Qed.

(** ** The chain *)

Definition header_wf_b (h : EthHeader) : bool :=
  bool_decide (0 ≤ Difficulty h < 2 ^ 256) && bool_decide (0 ≤ Number h < 2 ^ 256) && bool_decide (0 ≤ default 0 (BaseFee h) < 2 ^ 256) &&
  bool_decide (0 ≤ GasLimit h < 2 ^ 64 ∧ 0 ≤ GasUsed h < 2 ^ 64 ∧ 0 ≤ eh_Time h < 2 ^ 64) && bool_decide (blen (eh_Extra h) < 2 ^ 40).
Lemma header_wf_reflect h : header_wf_b h = true → header_wf h.
Proof. unfold header_wf_b. rewrite !andb_true_iff, !bool_decide_eq_true. intros [[[[??]?]?]?]. by split. Qed.

#[export] Instance ex_poa : PoaChain := {|
  poa_name := "bsc";
  poa_flavor := Parlia;
  poa_Hash := eth_Hash;
  poa_rlp := EncodeToBytes;
  json_header b := match deserialize (A := EthHeader) b with
                   | Ok h => if header_wf_b h then Ok h else Err "invalid header"
                   | r => r
                   end;
  json_extra b := Ok (mkPoaExtraInfo (le_get b) 0);
  json_genesis b := deserialize (A := GenesisHeader) b;
  marshal_genesis g := Ok (sink_bytes g);
  json_sum b := deserialize (A := HeaderWithDifficultySum) b;
  marshal_sum x := Ok (sink_bytes x);
|}.

#[export] Instance ex_poa_laws : PoaLaws.
Proof.
  split; cbn [json_header json_sum json_genesis marshal_sum marshal_genesis ex_poa].
  - intros v h. destruct (deserialize v) as [h'| |]; try done. destruct (header_wf_b h') eqn:E; [|done]. intros [= <-]. by apply header_wf_reflect.
  - intros x Hh Htd. exists (sink_bytes x). split; [done|]. assert (blen (sink_bytes x) < 2 ^ 63) as Hl.
    { unfold sink_bytes. cbn [Serialization ex_sum_ser]. eapply Z.le_lt_trans; [apply (ops_le (2 ^ 41))|].
      - unfold sum_ops. apply Forall_app. split; [by apply header_ops_le|]. repeat constructor; auto with opsize.
      - done. }
    split; [done|]. by apply deserialize_sink.
  - intros g Hg Hn. exists (sink_bytes g). split; [done|]. assert (blen (sink_bytes g) < 2 ^ 63) as Hl.
    { unfold sink_bytes. cbn [Serialization ex_genesis_ser]. unfold genesis_ops. destruct g as [h vs]. cbn [gh_Header PrevValidators] in *.
      destruct vs as [|v0 [|v1 [|]]]; try done. destruct Hg as [Hh Hv]. cbn [gh_Header PrevValidators] in *.
      unfold enc_list. rewrite !enc_ops_app, !fmap_cons. change (mjoin (?x :: ?l)) with (x ++ mjoin l). rewrite !enc_ops_app, !length_app.
      pose proof (ops_le _ _ (header_ops_le h Hh)) as H1. pose proof (hv_ops_le v0 (Hv v0 ltac:(set_solver))) as H2.
      pose proof (hv_ops_le v1 (Hv v1 ltac:(set_solver))) as H3. pose proof (u64_le (blen [v0; v1])) as H4.
      rewrite enc_ops_cons, enc_ops_nil, app_nil_r. cbn [fmap list_fmap mjoin list_join] in *. change (blen (header_ops h)) with 16 in H1.
      rewrite app_nil_r. lia. }
    split; [done|]. apply deserialize_sink; [|done]. split; [done|lia].
Qed.

(** ** Two validators

    The genesis header at height 100 lists them; two headers at height 101 are signed
    by the second one, whose turn it is, and the header at height 102 by the first
    one, on top of the later of the two: the main chain moves to its branch. *)

Definition ex_sig (i : Z) : bytes := byte_of_Z 4 :: replicate 64 (byte_of_Z i).
Definition ex_validator (i : Z) : Address := copy_array 20 (drop 12 (to_slice (Keccak256 (replicate 64 (byte_of_Z i))))).
Definition ex_header (parent : Uint256) (coinbase : Address) (difficulty number time : Z) (extra : bytes) : EthHeader :=
  mkEthHeader parent EMPTY_HASH coinbase EMPTY_HASH EMPTY_HASH EMPTY_HASH (zero_array 256) difficulty number 8000000 21000 time extra
    EMPTY_HASH (zero_array 8) None.

Definition ex_root : EthHeader :=
  ex_header EMPTY_HASH (ex_validator 1) 2 100 500
    (replicate 32 Byte.x00 ++ to_slice (ex_validator 1) ++ to_slice (ex_validator 2) ++ replicate 65 Byte.x00).
Definition ex_vanity (i : Z) : bytes := replicate 32 Byte.x00 ++ ex_sig i.
Definition ex_h1 : EthHeader := ex_header (eth_Hash ex_root) (ex_validator 2) 2 101 503 (ex_vanity 2).
Definition ex_h2 : EthHeader := ex_header (eth_Hash ex_root) (ex_validator 2) 2 101 504 (ex_vanity 2).
Definition ex_h3 : EthHeader := ex_header (eth_Hash ex_h2) (ex_validator 1) 2 102 507 (ex_vanity 1).

Definition ex_old : HeightAndValidators := mkHeightAndValidators (Some 50) [ex_validator 1; ex_validator 2] None.
Definition ex_new : HeightAndValidators := mkHeightAndValidators (Some 100) [ex_validator 1; ex_validator 2] None.
Definition ex_genesis : GenesisHeader := mkGenesisHeader ex_root [ex_old].
Definition ex_params : SyncGenesisHeaderParam := mkSyncGenesisHeaderParam 9 (sink_bytes ex_genesis).
Definition ex_sync : SyncBlockHeaderParam := mkSyncBlockHeaderParam 9 ADDRESS_EMPTY [sink_bytes ex_h1; sink_bytes ex_h2; sink_bytes ex_h3].
Definition ex_sync_call : NativeService := ex_service 1 100 (sink_bytes ex_sync).
Definition ex_poa_cfg : Config := mkConfig 1 true.

Definition ex_poa_base : kvmap := <[sideChain_key 9 := GenRawStorageItem (sink_bytes ex_side)]> ∅.
Definition ex_poa_store : kvmap :=
  (run (storeGenesis ex_poa_cfg ex_params (with_validators ex_genesis ex_new)) (ex_poa_base, ex_sync_call)).2.1.

Definition ex_stored : GenesisHeader := with_validators ex_genesis ex_new.

Lemma ex_fresh : fresh ex_poa_base 9.
Proof.
  assert (∀ k, k ≠ sideChain_key 9 → kv_at ex_poa_base k = []) as Hk.
  { intros k Hne. unfold ex_poa_base, kv_at. by rewrite lookup_insert_ne. }
  split; intros; apply Hk; intros E; apply (f_equal (take 20)) in E; vm_compute in E; discriminate E.
Qed.

Lemma ex_state : poa_state ex_poa_store 9 (root_client ex_root) ex_stored.
Proof.
  destruct (storeGenesis_run ex_poa_cfg ex_poa_base ex_sync_call ex_params ex_stored ex_new ex_old) as (m' & s' & Hr & Hs);
    [exact ex_fresh| |done|by vm_compute|by vm_compute|].
  - split; [by apply header_wf_reflect; vm_compute|]. intros hv Hin. apply list_elem_of_In in Hin. cbn in Hin.
    destruct Hin as [<-|[<-|[]]]; by vm_compute.
  - assert (ex_poa_store = m') as -> by (unfold ex_poa_store, ex_stored in *; by rewrite Hr). exact Hs.
Qed.

Lemma ex_json h : header_wf_b h = true → blen (sink_bytes h) < 2 ^ 63 → json_header (sink_bytes h) = Ok h.
Proof.
  intros Hb Hl. unfold json_header, ex_poa. rewrite deserialize_sink; [by rewrite Hb|by apply header_wf_reflect|done].
Qed.

Lemma ex_in_bounds h :
  header_wf_b h && bool_decide (blen (sink_bytes h) < 2 ^ 63) && bool_decide (eth_Hash h ≠ EMPTY_HASH) && bool_decide (Number_u64 h ≤ 102) = true →
  in_bounds ex_poa_cfg ex_sync_call 102 (sink_bytes h).
Proof.
  rewrite !andb_true_iff, !bool_decide_eq_true. intros [[[Hb Hl] Hz] Hn] header Hj. rewrite ex_json in Hj by done. by injection Hj as <-.
Qed.

Lemma ex_sync_wf : ser_wf ex_sync.
Proof. split; split; cbn; lia. Qed.
Lemma ex_sync_small : blen (sink_bytes ex_sync) < 2 ^ 63.
Proof. apply Z.ltb_lt. vm_compute. reflexivity. Qed.

Lemma poa_sync_sound_witness : ∃ m' s', run (SyncBlockHeader ex_poa_cfg 300 1000) (ex_poa_store, ex_sync_call) = (Ok tt, (m', s')) ∧
  kv_at m' (main_key 9 101) = GenRawStorageItem (to_slice (eth_Hash ex_h2)) ∧
  ∃ ctx l', ctx_ChainID ctx = 9 ∧ grows 1000 ex_stored ctx (root_client ex_root) l' ∧ poa_state m' 9 l' ex_stored.
Proof.
  destruct (run (SyncBlockHeader ex_poa_cfg 300 1000) (ex_poa_store, ex_sync_call)) as [r [m' s']] eqn:E.
  assert (r = Ok tt) as -> by (by run_compute E). exists m', s'. split; [reflexivity|]. split.
  { assert (m' = (run (SyncBlockHeader ex_poa_cfg 300 1000) (ex_poa_store, ex_sync_call)).2.1) as -> by (by rewrite E). by vm_compute. }
  apply (poa_sync_sound ex_poa_cfg 1000 300 ex_poa_store ex_sync_call (root_client ex_root) ex_stored ex_sync 102 m' s').
  - exact (deserialize_sink ex_sync ex_sync_wf ex_sync_small).
  - exact ex_state.
  - intros v Hv header Hj. apply list_elem_of_In in Hv. cbn [In Headers ex_sync] in Hv.
    destruct Hv as [<-|[<-|[<-|[]]]]; revert header Hj; apply ex_in_bounds; vm_compute; reflexivity.
  - intros x Hx. cbn [lc_tree lc_head lc_single root_client] in Hx. apply lookup_singleton_Some in Hx as [_ <-]. by vm_compute.
  - lia.
  - lia.
  - exact E.
Defined.

(** A single consensus peer is the operator. *)
Definition ex_solo : kvmap :=
  <[nm_key [GOVERNANCE_VIEW] := GenRawStorageItem (sink_bytes ex_view)]>
  (<[peerPool_key 1 := GenRawStorageItem (sink_bytes ({[ ex_hex 1 := ex_peer 1 ]} : PeerPoolMap))]> ∅).
Definition ex_genesis_call : NativeService := ex_service 1 100 (sink_bytes ex_params).

Lemma ex_solo_fresh : fresh ex_solo 9.
Proof.
  assert (∀ k, k ≠ nm_key [GOVERNANCE_VIEW] → k ≠ peerPool_key 1 → kv_at ex_solo k = []) as Hk.
  { intros k H1 H2. unfold ex_solo, kv_at. rewrite lookup_insert_ne by done. by rewrite lookup_insert_ne. }
  split; intros; apply Hk; intros E; apply (f_equal (take 20)) in E; vm_compute in E; discriminate E.
Qed.

Lemma ex_genesis_wf : genesis_wf ex_genesis.
Proof.
  split; [by apply header_wf_reflect; vm_compute|]. intros hv Hin. apply list_elem_of_In in Hin. cbn in Hin.
  destruct Hin as [<-|[]]; by vm_compute.
Qed.
Lemma ex_params_wf : ser_wf ex_params.
Proof. split; cbn; lia. Qed.
Lemma ex_params_small : blen (sink_bytes ex_params) < 2 ^ 63.
Proof. apply Z.ltb_lt. vm_compute. reflexivity. Qed.
Lemma ex_genesis_small : blen (sink_bytes ex_genesis) < 2 ^ 63.
Proof. apply Z.ltb_lt. vm_compute. reflexivity. Qed.


(** ** Headers *)

Lemma eth_Hash_binding_witness : eth_Hash ex_h1 ≠ eth_Hash ex_h2 ∧ (eth_Hash ex_h1 = eth_Hash ex_h1 →
  ex_h1 = ex_h1 ∨ ∃ b1 b2 : bytes, EncodeToBytes (header_value ex_h1) = Ok b1 ∧ EncodeToBytes (header_value ex_h1) = Ok b2 ∧
    b1 ≠ b2 ∧ Keccak256 b1 = Keccak256 b2).
Proof.
  split; [by vm_compute|]. intros E. apply (eth_Hash_binding ex_h1 ex_h1); [by apply header_wf_reflect; vm_compute..|exact E].
Defined.

Definition ex_parent : EthHeader :=
  mkEthHeader EMPTY_HASH EMPTY_HASH (ex_validator 1) EMPTY_HASH EMPTY_HASH EMPTY_HASH (zero_array 256) 10000000 8000000 30000000 20000000 1000 []
    EMPTY_HASH (zero_array 8) (Some 1000000000).
Definition ex_child : EthHeader :=
  mkEthHeader EMPTY_HASH EMPTY_HASH (ex_validator 1) EMPTY_HASH EMPTY_HASH EMPTY_HASH (zero_array 256) 10004882 8000001 30000000 20000000 1010 []
    EMPTY_HASH (zero_array 8) (Some 1041666666).


Lemma difficulty_rules_example : let d := expected_difficulty ex_poa_cfg ex_child ex_parent in d = 10000000 ∧
  MinimumDifficulty ≤ d ∧
  (Number ex_parent < 8999999 → d = MinimumDifficulty ∨
    Difficulty ex_parent - 99 * (Difficulty ex_parent / 2048) ≤ d ≤ Difficulty ex_parent + 2 * (Difficulty ex_parent / 2048)) ∧
  difficultyCalculator (eh_Time ex_child) ex_parent = makeDifficultyCalculator 9000000 (eh_Time ex_child) ex_parent.
Proof.
  cbv zeta. split; [by vm_compute|]. by apply (difficulty_rules ex_poa_cfg ex_child ex_parent); vm_compute.
Defined.
