(* ===== verification/EvmProof.v ===== *)
(** * Transfers from chains with Ethereum's state
    (cross_chain_manager/bsc, bytom, heco, hsc, msc, pixiechain, polygon: *_handler.go;
    cross_chain_manager/eth: eth_handler.go, utils.go, proof.go; common/utils.go)

    A transfer is accepted when a Merkle proof shows that the contract of the chain
    has stored the hash of the transfer, in the state of a header of the chain's
    light client that enough blocks confirm.  The handlers of these chains share the
    code; which light client they ask is the interface [EvmClient].  The proofs of
    go-ethereum's tries are the interface [EvmLib]. *)

From S2P Require Import Prelude Sha256 Sink Source Serialization BytesOrder MemDB OverlayDB CacheDB Contract MerkleSpec MerkleHasher Native ExCrypto Codec NodeStates NodeManager NodeInv NodeGov CrossCommon ConsensusVote SideStates SideChain Approval SideGov CrossChain CrossSafe Rlp RlpSpec EthHeader.

(** ** Data *)

Record StorageProof := mkStorageProof { sp_Key : bytes; sp_Value : bytes; sp_Proof : list bytes }.
Record EvmProof := mkEvmProof {
  pf_Address : bytes;
  pf_Balance : bytes;
  pf_CodeHash : bytes;
  pf_Nonce : bytes;
  pf_StorageHash : bytes;
  AccountProof : list bytes;
  StorageProofs : list StorageProof;
}.
Record ProofAccount := mkProofAccount { Nounce : Z; pa_Balance : Z; pa_Storage : Uint256; pa_Codehash : Uint256 }.

(** go-ethereum: [trie.VerifyProof] on a list of nodes ([None] when the proof shows
    that the key is absent), [rlp], conversions, and JSON text of a proof. *)
Class EvmLib := {
  VerifyProof : Uint256 → bytes → list bytes → res (option bytes);
  rlp_Encode : rlp_value → res bytes;
  rlp_DecodeBytes : bytes → res bytes;
  Hex2Bytes : bytes → bytes;
  HexToHash : bytes → Uint256;
  json_proof : bytes → res EvmProof;
  ToLower_unicode : bytes → bytes;             (* [strings.ToLower] of text that is not ASCII *)
}.

(** The light client of a chain: the height of its main chain and the headers on it. *)
Class EvmClient `{Crypto} := {
  client_name : string;
  best_height : Z → contract NativeService Z;
  header_at : Z → Z → contract NativeService (option EthHeader);
}.

(** ** Strings *)

Definition is_ascii (b : byte) : bool := bool_decide (byte_to_Z b < 128).
Definition lower_byte (b : byte) : byte := if decide (65 ≤ byte_to_Z b ≤ 90) then byte_of_Z (byte_to_Z b + 32) else b.

(** [strings.Replace(s, "0x", "", 1)]. *)
Fixpoint remove_0x (s : bytes) : bytes :=
  match s with
  | a :: (b :: s') as s1 => if decide (byte_to_Z a = 48 ∧ byte_to_Z b = 120) then s' else a :: remove_0x s1
  | s => s
  end.

(** [big.Int.SetString(s, 16)]: an optional sign and at least one digit. *)
Definition hex_value (b : byte) : option Z :=
  let c := byte_to_Z b in
  if decide (48 ≤ c ≤ 57) then Some (c - 48)
  else if decide (97 ≤ c ≤ 102) then Some (c - 87)
  else if decide (65 ≤ c ≤ 70) then Some (c - 55)
  else None.
Fixpoint hex_digits (acc : Z) (s : bytes) : option Z :=
  match s with
  | [] => Some acc
  | b :: s => d ← hex_value b; hex_digits (16 * acc + d) s
  end.
Definition SetString16 (s : bytes) : option Z :=
  let digits s := match s with [] => None | _ => hex_digits 0 s end in
  match s with
  | b :: s' => if decide (byte_to_Z b = 45) then Z.opp <$> digits s'
               else if decide (byte_to_Z b = 43) then digits s'
               else digits s
  | [] => None
  end.

Section evm.
Context `{Crypto} `{EthLib} `{EvmLib}.

Definition ToLower (s : bytes) : bytes := if forallb is_ascii s then lower_byte <$> s else ToLower_unicode s.
Definition Replace0x (s : bytes) : bytes := remove_0x (ToLower s).

(** ** The proof *)

Definition account_value (acct : ProofAccount) : rlp_value :=
  RList [RBig (Some (Nounce acct)); RBig (Some (pa_Balance acct)); RArray (to_slice (pa_Storage acct)); RArray (to_slice (pa_Codehash acct))].

Definition need {A} (e : string) (x : option A) : res A := match x with Some a => Ok a | None => Err e end.

Definition verifyMerkleProof (proof : EvmProof) (blockData : EthHeader) (contractAddr : bytes) : res (option bytes) :=
  let ns := (λ s, Hex2Bytes (Replace0x s)) <$> AccountProof proof in
  let addr := Hex2Bytes (Replace0x (pf_Address proof)) in
  if decide (addr ≠ contractAddr) then Err "verifyMerkleProof, contract address is error" else
  let acctKey := to_slice (Keccak256 addr) in
  res_bind (VerifyProof (eh_Root blockData) acctKey ns) (λ acctVal,
  res_bind (need "verifyMerkleProof, invalid format of nounce" (SetString16 (Replace0x (pf_Nonce proof)))) (λ nounce,
  res_bind (need "verifyMerkleProof, invalid format of balance" (SetString16 (Replace0x (pf_Balance proof)))) (λ balance,
  let storageHash := HexToHash (Replace0x (pf_StorageHash proof)) in
  let codeHash := HexToHash (Replace0x (pf_CodeHash proof)) in
  res_bind (rlp_Encode (account_value (mkProofAccount nounce balance storageHash codeHash))) (λ acctrlp,
  if decide (acctrlp ≠ default [] acctVal) then Err "verifyMerkleProof, verify account proof failed" else
  match StorageProofs proof with
  | [sp] =>
      let storageKey := to_slice (Keccak256 (to_slice (HexToHash (Replace0x (sp_Key sp))))) in
      let ns := (λ s, Hex2Bytes (Replace0x s)) <$> sp_Proof sp in
      VerifyProof storageHash storageKey ns
  | _ => Err "verifyMerkleProof, invalid storage proof format"
  end)))).

Definition checkProofResult (result value : bytes) : bool :=
  match rlp_DecodeBytes result with
  | Ok tempBytes =>
      let s := replicate (32 - length tempBytes) Byte.x00 ++ tempBytes in
      bool_decide (s = to_slice (Keccak256 value))
  | _ => false
  end.

(** ** The handlers *)

Context `{!EvmClient}.

(** A pointer is followed. *)
Definition deref {A} (x : option A) : contract NativeService A := match x with Some a => mret a | None => CPanic end.

(** The chain and the header are dereferenced without a check. *)
Definition verifyFromTx (proof extra : bytes) (fromChainID height : Z) (sideChain : option SideChain) : contract NativeService MakeTxParam :=
  cheight ← best_height fromChainID;
  cguard (negb (bool_decide (u32 cheight < height))) "verifyFromTx, transaction is not confirmed" ;;
  sideChain ← deref sideChain;
  cguard (negb (bool_decide (u32 (u32 cheight - height) < u32 (u64 (BlocksToWait sideChain - 1))))) "verifyFromTx, transaction is not confirmed" ;;
  header ← cwrap "verifyFromTx, GetCanonicalHeader" (header_at fromChainID height);
  evmProof ← cwrap "verifyFromTx, unmarshal proof error:" (lift_res (json_proof proof));
  cguard (bool_decide (blen (StorageProofs evmProof) = 1)) "verifyFromTx, incorrect proof format" ;;
  header ← deref header;
  proofResult ← cwrap "verifyFromTx, verifyMerkleProof error:" (lift_res (verifyMerkleProof evmProof header (CCMCAddress sideChain)));
  match proofResult return contract NativeService MakeTxParam with
  | None => CFail "verifyFromTx, verifyMerkleProof failed"
  | Some proofResult =>
      cguard (checkProofResult proofResult extra) "verifyFromTx, verify proof value hash failed" ;;
      cwrap "verifyFromTx, deserialize merkleValue error:" (cdeserialize (A := MakeTxParam) extra)
  end.

Definition evm_MakeDepositProposal : Proposal :=
  params ← input_as (A := EntranceParam) (client_name +:+ " MakeDepositProposal, contract params deserialize error: ");
  sideChain ← cwrap (client_name +:+ " MakeDepositProposal, side_chain_manager.GetSideChain error: ") (GetSideChain (SourceChainID params));
  value ← cwrap (client_name +:+ " MakeDepositProposal, verifyFromTx error: ")
    (verifyFromTx (Proof_ params) (Extra params) (SourceChainID params) (ep_Height params) sideChain);
  cwrap (client_name +:+ " MakeDepositProposal, check done transaction error:") (CheckDoneTx (CrossChainID value) (SourceChainID params)) ;;
  cwrap (client_name +:+ " MakeDepositProposal, PutDoneTx error:") (PutDoneTx (CrossChainID value) (SourceChainID params)) ;;
  mret (Some value).

End evm.

(** ** What an accepted proof shows *)

Section proofs.
Context `{Crypto} `{EthLib} `{EvmLib}.
Implicit Types (proof : EvmProof) (header : EthHeader) (ccmc extra : bytes).

(** In the state with root [root], the account [ccmc] has stored the hash of [extra]:
    its account is in the state trie, and the trie with the account's storage root
    has a value that decodes to the hash, without its leading zeros. *)
Definition stored_in_state (root : Uint256) ccmc extra : Prop :=
  ∃ (acct : ProofAccount) (slot : Uint256) (n1 n2 : list bytes) (acctrlp val tmp : bytes),
    rlp_Encode (account_value acct) = Ok acctrlp ∧ VerifyProof root (to_slice (Keccak256 ccmc)) n1 = Ok (Some acctrlp) ∧
    VerifyProof (pa_Storage acct) (to_slice (Keccak256 (to_slice slot))) n2 = Ok (Some val) ∧
    rlp_DecodeBytes val = Ok tmp ∧ replicate (32 - length tmp) Byte.x00 ++ tmp = to_slice (Keccak256 extra).

Lemma checkProofResult_inv (val : bytes) extra : checkProofResult val extra = true →
  ∃ tmp, rlp_DecodeBytes val = Ok tmp ∧ replicate (32 - length tmp) Byte.x00 ++ tmp = to_slice (Keccak256 extra).
Proof. unfold checkProofResult. destruct (rlp_DecodeBytes val) as [tmp| |]; [|done..]. intros E%bool_decide_eq_true. eauto. Qed.

(** The encoding of an account is not empty. *)
Lemma verifyMerkleProof_inv proof header ccmc extra (val : bytes) :
  (∀ acct, rlp_Encode (account_value acct) ≠ Ok []) →
  verifyMerkleProof proof header ccmc = Ok (Some val) → checkProofResult val extra = true → stored_in_state (eh_Root header) ccmc extra.
Proof.
  intros Hne Hv (tmp & Hd & Hs)%checkProofResult_inv. unfold verifyMerkleProof in Hv. destruct (decide _) as [|Ha]; [done|]. apply dec_stable in Ha.
  apply res_bind_ok_inv in Hv as (acctVal & Hacct & Hv). apply res_bind_ok_inv in Hv as (nounce & _ & Hv). apply res_bind_ok_inv in Hv as (balance & _ & Hv).
  apply res_bind_ok_inv in Hv as (acctrlp & Hrlp & Hv). destruct (decide _) as [|He]; [done|]. apply dec_stable in He.
  destruct (StorageProofs proof) as [|sp [|]]; [done| |done]. rewrite Ha in Hacct.
  eexists (mkProofAccount nounce balance _ _), _, _, _, acctrlp, val, tmp. split; [exact Hrlp|]. split; [|split; [exact Hv|done]].
  rewrite Hacct. destruct acctVal as [b|]; cbn in He; [by rewrite He|]. subst. by apply Hne in Hrlp.
Qed.

Context `{!EvmClient} (best_ro : ∀ c, read_only (best_height c)) (header_ro : ∀ c i, read_only (header_at c i)).
Context (account_nonempty : ∀ acct, rlp_Encode (account_value acct) ≠ Ok []).
Implicit Types (m : kvmap) (s : NativeService) (c : Z).

Lemma verifyFromTx_inv (proof extra : bytes) c (height : Z) (side : option SideChain) m s (tx : MakeTxParam) (st : kvmap * NativeService) :
  run (verifyFromTx proof extra c height side) (m, s) = (Ok tx, st) →
  st = (m, s) ∧ ∃ sc cheight header, side = Some sc ∧ run (best_height c) (m, s) = (Ok cheight, (m, s)) ∧
    run (header_at c height) (m, s) = (Ok (Some header), (m, s)) ∧ height ≤ u32 cheight ∧
    u32 (u64 (BlocksToWait sc - 1)) ≤ u32 (u32 cheight - height) ∧ stored_in_state (eh_Root header) (CCMCAddress sc) extra ∧
    deserialize extra = Ok tx.
Proof using All.
  intros Hr. unfold verifyFromTx in Hr. apply run_bind_inv in Hr as (cheight & st1 & Hb & Hr).
  pose proof (f_equal snd Hb) as E. rewrite best_ro in E. cbn in E. subst st1.
  apply run_guard_bind in Hr as [Hh%negb_true_iff%bool_decide_eq_false Hr]. destruct side as [sc|]; [|discriminate].
  cbn [deref] in Hr. erewrite run_bind_ok in Hr by done. apply run_guard_bind in Hr as [Hw%negb_true_iff%bool_decide_eq_false Hr].
  apply run_bind_inv in Hr as (header & st1 & Hhd & Hr). apply run_cwrap_ok in Hhd. pose proof (f_equal snd Hhd) as E. rewrite header_ro in E. cbn in E. subst st1.
  apply run_bind_inv in Hr as (evmProof & st1 & Hj & Hr). apply run_cwrap_ok, run_lift_inv in Hj as [_ ->]. apply run_guard_bind in Hr as [_ Hr].
  destruct header as [header|]; [|discriminate]. cbn [deref] in Hr. erewrite run_bind_ok in Hr by done.
  apply run_bind_inv in Hr as (res & st1 & Hv & Hr). apply run_cwrap_ok, run_lift_inv in Hv as [Hv ->]. destruct res as [val|]; [|discriminate].
  apply run_guard_bind in Hr as [Hc Hr]. apply run_cwrap_ok in Hr. unfold cdeserialize in Hr. apply run_lift_inv in Hr as [Hd ->]. split; [done|].
  exists sc, cheight, header. split_and!; try done; try lia. by eapply verifyMerkleProof_inv.
Qed.
End proofs.
