(* ===== verification/EvmSafe.v ===== *)
(** * Transfers from chains with Ethereum's state are proven and happen once

    The handlers of EvmProof keep the promise of [HandlerLaws], so that the
    cross-chain manager lets no transfer through twice; and with the light clients of
    PoaSync a transfer is accepted only if the chain's contract has stored its hash in
    the state of a header on the heaviest branch, with the blocks to wait on top. *)

From S2P Require Import Prelude Sha256 Sink Source Serialization BytesOrder MemDB OverlayDB CacheDB Contract MerkleSpec MerkleHasher Native ExCrypto Codec NodeStates NodeManager NodeInv NodeGov CrossCommon ConsensusVote SideStates SideChain Approval SideGov CrossChain CrossSafe HsCommon Rlp RlpSpec EthHeader HeaderTree PoaSync PoaChain PoaEpoch PoaSafe PoaGenesis ExPoa EvmProof.

(** ** No replay *)

(** What a light client promises to a handler: it only reads. *)
Class EvmClientLaws `{Crypto} `{!EvmClient} : Prop := {
  best_ro : ∀ c, read_only (best_height c);
  header_ro : ∀ c i, read_only (header_at c i);
}.
(** The encoding of an account is not empty. *)
Class EvmLibLaws `{EvmLib} : Prop := { account_nonempty : ∀ acct, rlp_Encode (account_value acct) ≠ Ok [] }.

#[local] Set Default Proof Using "Type*".

Section handler.
Context `{Crypto} `{EthLib} `{EvmLib} `{!EvmLibLaws} `{!EvmClient} `{!EvmClientLaws}.
Implicit Types (m : kvmap) (s : NativeService).

(** The header that confirms a transfer and the chain that it comes from. *)
Record accepted m s (params : EntranceParam) (tx : MakeTxParam) (sc : SideChain) (cheight : Z) (header : EthHeader) : Prop := mkAccepted {
  ac_side : ∀ e, run (cwrap e (GetSideChain (SourceChainID params))) (m, s) = (Ok (Some sc), (m, s));
  ac_best : run (best_height (SourceChainID params)) (m, s) = (Ok cheight, (m, s));
  ac_header : run (header_at (SourceChainID params) (ep_Height params)) (m, s) = (Ok (Some header), (m, s));
  ac_below : ep_Height params ≤ u32 cheight;
  ac_wait : u32 (u64 (BlocksToWait sc - 1)) ≤ u32 (u32 cheight - ep_Height params);
  ac_stored : stored_in_state (eh_Root header) (CCMCAddress sc) (Extra params);
  ac_value : deserialize (Extra params) = Ok tx;
}.

Lemma run_wrap_any {A : Type} (e e' : string) (k : contract NativeService A) (st st' : kvmap * NativeService) (a : A) :
  run (cwrap e k) st = (Ok a, st') → run (cwrap e' k) st = (Ok a, st').
Proof. intros E%run_cwrap_ok. by apply run_cwrap_ok. Qed.

Lemma evm_accepts m s (r : option MakeTxParam) m' s' : run evm_MakeDepositProposal (m, s) = (Ok r, (m', s')) →
  ∃ params tx sc cheight header, deserialize (ns_input s) = Ok params ∧ r = Some tx ∧ accepted m s params tx sc cheight header ∧
    ¬ done_tx (SourceChainID params) (CrossChainID tx) m ∧
    m' = <[doneTx_key (SourceChainID params) (CrossChainID tx) := GenRawStorageItem (CrossChainID tx)]> m.
Proof.
  intros Hr. unfold evm_MakeDepositProposal in Hr. apply run_bind_inv in Hr as (params & st & Hi & Hr). apply input_as_inv in Hi as [-> Hi].
  apply run_bind_inv in Hr as (side & st & Hs & Hr). pose proof (f_equal snd Hs) as E. rewrite GetSideChain_ro in E. cbn in E. subst st.
  apply run_bind_inv in Hr as (tx & st & Hv & Hr). apply run_cwrap_ok in Hv.
  apply (verifyFromTx_inv best_ro header_ro account_nonempty) in Hv as (-> & sc & cheight & header & -> & Hb & Hh & Hle & Hw & Hst & Hd).
  unfold CheckDoneTx, PutDoneTx in Hr. crun Hr. apply bool_decide_eq_true in Hg.
  exists params, tx, sc, cheight, header. split; [done|]. split; [done|]. split.
  - split; try done. intros e. by eapply run_wrap_any.
  - split; [by intros Hdone|done].
Qed.

Lemma evm_no_replay (router : Z) : router ≠ BTC_ROUTER → no_replay router evm_MakeDepositProposal.
Proof.
  intros Hb m s r m' s' Hr. apply evm_accepts in Hr as (params & tx & sc & ch & header & Hi & -> & _ & Hn & ->). split.
  - exists params. split; [done|]. intros tx' [= <-]. unfold transfer_id. rewrite decide_False by done. split; [done|].
    unfold done_tx, kv_at. rewrite lookup_insert_eq. apply GenRawStorageItem_nonempty.
  - intros c x Hd. unfold done_tx, kv_at in *. destruct (decide (doneTx_key (SourceChainID params) (CrossChainID tx) = doneTx_key c x)) as [->|Hne].
    + rewrite lookup_insert_eq. apply GenRawStorageItem_nonempty.
    + by rewrite lookup_insert_ne.
Qed.
End handler.

(** ** In the cross-chain manager *)

(** The handlers of a base, with the ones of EvmProof for the routers whose light
    client is given. *)
Definition evm_handlers `{Crypto} `{EthLib} `{EvmLib} (clients : Z → option EvmClient) (base : ChainHandlers) : ChainHandlers := {|
  MakeDepositProposal router :=
    match clients router with
    | Some c => evm_MakeDepositProposal (H2 := c)
    | None => @MakeDepositProposal _ base router
    end;
  btc_MakeTransaction := @btc_MakeTransaction _ base;
  btc_MultiSign := @btc_MultiSign _ base;
  ripple_MakeTransaction := @ripple_MakeTransaction _ base;
  ripple_MultiSign := @ripple_MultiSign _ base;
  ripple_ReconstructTx := @ripple_ReconstructTx _ base;
|}.

(** C19 The manager may rely on the EVM handlers: whatever light clients they ask, as
    long as these only read, the handlers let through only transfers that were not
    done and record them, so that with other handlers that do the same the promise
    [HandlerLaws] holds, from which no transfer happens twice. *)
Theorem evm_handlers_lawful `{Crypto} `{EthLib} `{EvmLib} `{!EvmLibLaws} (clients : Z → option EvmClient) (base : ChainHandlers) :
  HandlerLaws base → clients BTC_ROUTER = None → (∀ router c, clients router = Some c → @EvmClientLaws _ c) →
  HandlerLaws (evm_handlers clients base).
Proof.
  intros [Hp Hb Hr] Hbtc Hc. split; [|exact Hb|exact Hr]. intros router Hin. cbn [MakeDepositProposal evm_handlers].
  destruct (clients router) as [c|] eqn:E; [|by apply Hp]. pose proof (Hc _ _ E). apply evm_no_replay. congruence.
Qed.

(** ** With a light client of PoaSync *)

Section poa.
Context `{Hasher} `{Crypto} `{EthLib} `{!EthLibLaws} `{!PoaChain} `{!PoaLaws} `{EvmLib} `{!EvmLibLaws}.
Implicit Types (m : kvmap) (s : NativeService) (c : Z) (l : lightclient HeaderWithDifficultySum).

Definition poa_header_at (c i : Z) : contract NativeService (option EthHeader) :=
  x ← GetCanonicalHeader c i;
  mret (option_map ws_Header x).
#[export] Instance poa_client : EvmClient := {|
  client_name := poa_name;
  best_height := GetCanonicalHeight;
  header_at := poa_header_at;
|}.

#[export] Instance poa_client_laws : EvmClientLaws.
Proof.
  split; cbn [best_height header_at poa_client].
  - intros c. unfold GetCanonicalHeight. solve_ro.
  - intros c i. unfold poa_header_at, GetCanonicalHeader, getCanonicalHash, getHeader. solve_ro.
Qed.

(** C2 A transfer from a chain with proof of authority is accepted only if it is
    proven and buried: its text is the extra data of the call, whose hash the
    contract of the chain has stored in the state of the header at the given height
    of the main chain of the light client, that is of its heaviest branch; the head
    of the chain is at least as many blocks on as the chain waits; the transfer was
    not recorded as done before and is now, and nothing else in the store changes. *)
Theorem evm_transfer_proven m s l (params : EntranceParam) (r : option MakeTxParam) m' s' (hd : HeaderWithDifficultySum) :
  deserialize (ns_input s) = Ok params → is_u32 (ep_Height params) → client m (SourceChainID params) l →
  lc_tree l !! lc_head l = Some hd → Number_u64 (ws_Header hd) < 2 ^ 32 →
  run evm_MakeDepositProposal (m, s) = (Ok r, (m', s')) →
  ∃ tx sc a x, r = Some tx ∧ deserialize (Extra params) = Ok tx ∧
    run (GetSideChain (SourceChainID params)) (m, s) = (Ok (Some sc), (m, s)) ∧
    main_chain l (ep_Height params) a ∧ lc_tree l !! a = Some x ∧
    stored_in_state (eh_Root (ws_Header x)) (CCMCAddress sc) (Extra params) ∧
    (1 ≤ BlocksToWait sc ≤ 2 ^ 32 → BlocksToWait sc ≤ Number_u64 (ws_Header hd) - ep_Height params + 1) ∧
    ¬ done_tx (SourceChainID params) (CrossChainID tx) m ∧ done_tx (SourceChainID params) (CrossChainID tx) m' ∧
    ∀ k, k ≠ doneTx_key (SourceChainID params) (CrossChainID tx) → kv_at m' k = kv_at m k.
Proof.
  intros Hi [Hu1 Hu2] Hc Hhd Hb Hr. apply evm_accepts in Hr as (params' & tx & sc & ch & header & Hi' & -> & Hac & Hn & ->).
  rewrite Hi in Hi'. injection Hi' as <-. set (c := SourceChainID params) in *. destruct Hac as [Hs Hbest Hhead Hle Hw Hst Hv]. fold c in Hs, Hbest, Hhead.
  pose proof (Number_u64_range (ws_Header hd)) as Hrg. cbn [best_height header_at poa_client] in Hbest, Hhead. unfold poa_header_at in Hhead.
  rewrite (run_GetCanonicalHeight m s c _ Hrg (cl_height _ _ _ Hc _ Hhd)) in Hbest. injection Hbest as <-.
  destruct (cl_main _ _ _ Hc) as (C & HC & Hmain). assert (is_u64 (ep_Height params)) as Hi64 by (split; lia).
  assert (∀ a, C (ep_Height params) = Some a → is_Some (lc_tree l !! a)) as HCt.
  { intros a Ha. apply Hmain in Ha; [|done]. destruct Ha as [_ (y & Hy & _)]. by eexists. }
  rewrite (run_bind_ok _ _ _ _ _ (run_GetCanonicalHeader m s c _ C _ (cl_index _ _ _ Hc) HC Hi64 (cl_zero _ _ _ Hc) HCt)) in Hhead.
  change (run (mret ?b) ?st) with (Ok b, st) in Hhead. injection Hhead as Hhead.
  destruct (C (ep_Height params)) as [a|] eqn:Ea; [|done]. cbn in Hhead. destruct (lc_tree l !! a) as [x|] eqn:Ex; [|done]. injection Hhead as <-.
  destruct Hrg as [Hh0 _]. rewrite (uwrap_small 32 (Number_u64 (ws_Header hd))) in Hle, Hw by (split; lia).
  exists tx, sc, a, x. split_and!; try done.
  - specialize (Hs EmptyString). by apply run_cwrap_ok in Hs.
  - by apply Hmain.
  - intros Hbw. rewrite (uwrap_small 64 (BlocksToWait sc - 1)) in Hw by (split; lia). rewrite !(uwrap_small 32) in Hw by (split; lia). lia.
  - unfold done_tx, kv_at. rewrite lookup_insert_eq. apply GenRawStorageItem_nonempty.
  - intros k Hk. unfold kv_at. by rewrite lookup_insert_ne.
Qed.

End poa.

(** ** A concrete transfer

    A proof is the value it proves; the JSON text of every proof is the same. *)

Definition ex_extra : bytes := sink_bytes ex_transfer.
Definition ex_account : ProofAccount := mkProofAccount 1 0 EMPTY_HASH EMPTY_HASH.
Definition ex_account_rlp : bytes := match EncodeToBytes (account_value ex_account) with Ok b => b | _ => [] end.
Definition ex_slot_rlp : bytes := match EncodeToBytes (RBytes (to_slice (Keccak256 ex_extra))) with Ok b => b | _ => [] end.

Fixpoint ex_unhex (b : bytes) : bytes :=
  match b with
  | x :: y :: b => byte_of_Z (16 * default 0 (hex_value x) + default 0 (hex_value y)) :: ex_unhex b
  | _ => []
  end.

#[export] Instance ex_evmlib : EvmLib := {|
  VerifyProof _ _ ns := match ns with [v] => Ok (Some v) | _ => Ok None end;
  rlp_Encode v := match EncodeToBytes v with Ok [] => Err "empty" | r => r end;
  rlp_DecodeBytes b := match SplitString b with Ok (content, []) => Ok content | _ => Err "rlp" end;
  Hex2Bytes := ex_unhex;
  HexToHash b := copy_array 32 (ex_unhex b);
  json_proof _ := Ok (mkEvmProof (hex_encode (gs "ccmc")) (gs "0x0") [] (gs "0x1") [] [hex_encode ex_account_rlp]
                        [mkStorageProof [] [] [hex_encode ex_slot_rlp]]);
  ToLower_unicode b := b;
|}.
#[export] Instance ex_evmlib_laws : EvmLibLaws.
Proof. split. intros acct. cbn [rlp_Encode ex_evmlib]. by destruct (EncodeToBytes _) as [[|]| |]. Qed.

Definition ex_transfer_call : NativeService := ex_service 1 100 (sink_bytes (mkEntranceParam 9 100 [] [] ex_extra [])).

Definition ex_entrance : EntranceParam := mkEntranceParam 9 100 [] [] ex_extra [].
Definition ex_head : HeaderWithDifficultySum := root_header ex_root.

Lemma ex_entrance_ok : deserialize (ns_input ex_transfer_call) = Ok ex_entrance.
Proof.
  apply (deserialize_sink ex_entrance); [split; split; cbn; lia|]. apply Z.ltb_lt. vm_compute. reflexivity.
Qed.

Lemma evm_transfer_proven_witness :
  ∃ m' s', run evm_MakeDepositProposal (ex_poa_store, ex_transfer_call) = (Ok (Some ex_transfer), (m', s')) ∧
  ∃ tx sc a x, Some ex_transfer = Some tx ∧ deserialize (Extra ex_entrance) = Ok tx ∧
    run (GetSideChain 9) (ex_poa_store, ex_transfer_call) = (Ok (Some sc), (ex_poa_store, ex_transfer_call)) ∧
    main_chain (root_client ex_root) 100 a ∧ lc_tree (root_client ex_root) !! a = Some x ∧
    stored_in_state (eh_Root (ws_Header x)) (CCMCAddress sc) ex_extra ∧
    (1 ≤ BlocksToWait sc ≤ 2 ^ 32 → BlocksToWait sc ≤ Number_u64 ex_root - 100 + 1) ∧
    ¬ done_tx 9 (CrossChainID tx) ex_poa_store ∧ done_tx 9 (CrossChainID tx) m' ∧
    ∀ k, k ≠ doneTx_key 9 (CrossChainID tx) → kv_at m' k = kv_at ex_poa_store k.
Proof.
  destruct (run evm_MakeDepositProposal (ex_poa_store, ex_transfer_call)) as [r [m' s']] eqn:E.
  assert (r = Ok (Some ex_transfer)) as -> by (by run_compute E). exists m', s'. split; [reflexivity|].
  apply (evm_transfer_proven ex_poa_store ex_transfer_call (root_client ex_root) ex_entrance (Some ex_transfer) m' s' ex_head).
  - exact ex_entrance_ok.
  - split; cbn; lia.
  - exact (ps_client _ _ _ _ ex_state).
  - cbn [lc_tree lc_head lc_single root_client]. by rewrite lookup_singleton_eq.
  - by vm_compute.
  - exact E.
Defined.

Lemma evm_handlers_lawful_witness :
  HandlerLaws (evm_handlers (λ router, if decide (router = BSC_ROUTER) then Some poa_client else None) recording_handlers).
Proof.
  apply (evm_handlers_lawful _ recording_handlers).
  - apply recording_laws.
  - reflexivity.
  - intros router c. destruct (decide (router = BSC_ROUTER)); [|discriminate]. intros [= <-]. apply poa_client_laws.
Defined.
