(* ===== verification/Ethash.v ===== *)
(** * Ethash: the proof of work of Ethereum
    (header_sync/eth/cache.go, the functions on words of header_sync/eth/utils.go,
    [verifyHeader] and [seedHash] of header_sync/eth/header_sync.go)

    A cache of 64-byte rows is derived from the epoch's seed; items of the dataset are
    derived from the cache as they are needed.  Caches are kept in the contract's
    store, the last three epochs of them, and in memory during a call.  Slices of
    uint32 are lists of numbers below 2^32; an index out of range is [Panic].  The
    reinterpretation of []uint32 as bytes is that of a little-endian machine. *)

From S2P Require Import Prelude Sha256 Sink Source Serialization BytesOrder MemDB OverlayDB CacheDB Contract MerkleSpec MerkleHasher Native ExCrypto Codec NodeStates NodeManager NodeInv CrossCommon ConsensusVote SideStates SideChain CrossChain HsCommon Rlp RlpSpec EthHeader EthashSizes.

Definition loopAccesses : nat := 64.
Definition hashWords : Z := 16.
Definition datasetParents : nat := 256.
Definition cacheRounds : nat := 3.
Definition ETH_CACHE : bytes := gs "ethCaches".

(** ** Words *)

Fixpoint words_bytes (ws : list Z) : bytes :=
  match ws with
  | [] => []
  | w :: ws => le_put 4 w ++ words_bytes ws
  end.
(** A rest of fewer than four bytes is dropped. *)
Fixpoint bytes_words (n : nat) (b : bytes) : list Z :=
  match n with
  | O => []
  | S n => le_get (take 4 b) :: bytes_words n (drop 4 b)
  end.
Definition to_words (b : bytes) : list Z := bytes_words (length b / 4) b.

Definition fnv (a b : Z) : Z := Z.lxor (u32 (a * 0x01000193)) b.
Definition fnvHash (mix data : list Z) : res (list Z) :=
  if decide (length mix ≤ length data)%nat then Ok (zip_with fnv mix data) else Panic.

Definition at_index (l : list Z) (i : Z) : res Z :=
  if decide (i < 0) then Panic else match l !! Z.to_nat i with Some x => Ok x | None => Panic end.
(** [l[i:]]. *)
Definition from_index (l : list Z) (i : Z) : res (list Z) :=
  if decide (0 ≤ i ≤ blen l) then Ok (drop (Z.to_nat i) l) else Panic.

Fixpoint res_iter {A} (n : nat) (i : Z) (f : Z → A → res A) (a : A) : res A :=
  match n with
  | O => Ok a
  | S n => res_bind (f i a) (res_iter n (i + 1) f)
  end.
Fixpoint res_list {A} (n : nat) (i : Z) (f : Z → res A) : res (list A) :=
  match n with
  | O => Ok []
  | S n => res_bind (f i) (λ a, res_bind (res_list n (i + 1) f) (λ l, Ok (a :: l)))
  end.

(** ** The cache *)

Definition cache_key (epoch : Z) : bytes := hs_key [ETH_CACHE; GetUint64Bytes epoch].

Record Caches := mkCaches { cap : Z; items : gmap Z (list Z) }.
Definition NewCaches (size : Z) : Caches := mkCaches size ∅.
Definition deleteCaches (self : Caches) : Caches := mkCaches (cap self) ∅.
Definition cache_serialize (values : list Z) : bytes := words_bytes values.
Definition cache_deserialize (buf : bytes) : list Z := to_words buf.

Definition xor_bytes (a b : bytes) : bytes := zip_with (λ x y, byte_of_Z (Z.lxor (byte_to_Z x) (byte_to_Z y))) a b.

Section ethash.
Context `{Crypto} `{EthLib} (fuel : nat).

(** The row [i] of the buffer. *)
Definition row_at (rows : list bytes) (i : Z) : res bytes :=
  if decide (i < 0) then Panic else match rows !! Z.to_nat i with Some r => Ok r | None => Panic end.

Fixpoint initial_rows (n : nat) (prev : bytes) : list bytes :=
  match n with
  | O => []
  | S n => let row := to_slice (Keccak512 prev) : bytes in row :: initial_rows n row
  end.

(** One step of a round: the row before, xored with a row that the row selects. *)
Definition mix_row (n j : Z) (cache : list bytes) : res (list bytes) :=
  res_bind (row_at cache ((j - 1 + n) mod n)) (λ src,
  res_bind (row_at cache j) (λ dst,
  let xorOff := u32 (le_get (take 4 dst) mod u32 n * hashBytes) in
  res_bind (row_at cache (xorOff / hashBytes)) (λ other,
  Ok (<[Z.to_nat j := to_slice (Keccak512 (xor_bytes src other)) : bytes]> cache)))).

(** A buffer that is not a whole number of rows cannot be filled. *)
Definition generateCache (size : Z) (seed : bytes) : res (list Z) :=
  if decide (size ≤ 0 ∨ size mod hashBytes ≠ 0) then Panic else
  let rows := size / hashBytes in
  let n := Z.to_nat rows in
  res_bind (res_iter cacheRounds 0 (λ _ cache, res_iter n 0 (mix_row rows) cache) (initial_rows n seed)) (λ cache,
  Ok (to_words (mjoin cache))).

Fixpoint hash_times (n : nat) (seed : bytes) : bytes :=
  match n with
  | O => seed
  | S n => hash_times n (to_slice (Keccak256 seed))
  end.
Definition seedHash (block : Z) : bytes :=
  if decide (block < epochLength) then replicate 32 Byte.x00
  else hash_times (Z.to_nat (block / epochLength)) (replicate 32 Byte.x00).

Definition tryCache (self : Caches) (epoch : Z) : contract NativeService (option (list Z) * Caches) :=
  match items self !! epoch with
  | Some current => mret (Some current, self)
  | None =>
      currentStorge ← cget (cache_key epoch);
      if decide (currentStorge = []) then mret (None, self) else
      match GetValueFromRawStorageItem currentStorge with
      | Ok current1 => let current := cache_deserialize current1 in mret (Some current, mkCaches (cap self) (<[epoch := current]> (items self)))
      | _ => mret (None, self)
      end
  end.

Definition addCache (self : Caches) (epoch : Z) (cache : list Z) : contract NativeService Caches :=
  cput (cache_key epoch) (GenRawStorageItem (cache_serialize cache)) ;;
  cdel (cache_key (u64 (epoch - 3))) ;;
  mret (mkCaches (cap self) (<[epoch := cache]> (items self))).

(** The cache of an epoch when it has to be generated. *)
Definition epoch_cache (epoch : Z) : res (list Z) :=
  let block := u64 (u64 (epoch * epochLength) + 1) in
  match cacheSize fuel block with
  | Some size => generateCache (4 * (size / 4)) (seedHash block)
  | None => Panic
  end.

Definition getCache (self : Caches) (block : Z) : contract NativeService (list Z * Caches) :=
  let epoch := block / epochLength in
  '(current, self) ← tryCache self epoch;
  match current with
  | Some current => mret (current, self)
  | None =>
      cache ← lift_res (epoch_cache epoch);
      self ← addCache self epoch cache;
      mret (cache, self)
  end.

(** ** The dataset *)

Definition generateDatasetItem (cache : list Z) (index : Z) : res bytes :=
  let rows := u32 (blen cache / hashWords) in
  if decide (rows = 0) then Panic else
  let base := u32 ((index mod rows) * hashWords) in
  res_bind (res_list 16 0 (λ i, res_bind (at_index cache (u32 (base + i))) (λ w, Ok (if decide (i = 0) then Z.lxor w index else w)))) (λ mix,
  let mix := to_slice (Keccak512 (words_bytes mix)) : bytes in
  res_bind (res_iter datasetParents 0 (λ i intMix,
    res_bind (at_index intMix (i mod 16)) (λ w,
    let parent := fnv (Z.lxor index i) w mod rows in
    res_bind (from_index cache (u32 (parent * hashWords))) (fnvHash intMix))) (to_words mix)) (λ intMix,
  Ok (to_slice (Keccak512 (words_bytes intMix)) : bytes))).

Definition lookup_item (cache : list Z) (index : Z) : res (list Z) :=
  res_bind (generateDatasetItem cache index) (λ rawData, Ok (to_words rawData)).

(** ** The proof of work *)

Definition two256 : Z := 2 ^ 256.

Fixpoint compress (mix : list Z) : list Z :=
  match mix with
  | a :: b :: c :: d :: mix => fnv (fnv (fnv a b) c) d :: compress mix
  | _ => []
  end.

(** The mix of a seed, with two dataset items in every access. *)
Definition hashimoto (cache : list Z) (size : Z) (seed : bytes) : res (list Z) :=
  let mix := to_words seed ++ to_words seed in
  let rows := u32 (size / mixBytes) in
  if decide (rows = 0) then Panic else
  let seedHead := le_get (take 4 seed) in
  res_bind (res_iter loopAccesses 0 (λ i mix,
    res_bind (at_index mix (i mod 32)) (λ w,
    let parent := fnv (Z.lxor i seedHead) w mod rows in
    res_bind (lookup_item cache (u32 (2 * parent))) (λ a,
    res_bind (lookup_item cache (u32 (u32 (2 * parent) + 1))) (λ b,
    fnvHash mix (a ++ b))))) mix) (λ mix, Ok (compress mix)).

(** [verifyHeader] with the cache at hand. *)
Definition verify_pow (header : EthHeader) (size : Z) (cache : list Z) : res unit :=
  let nonce := be_get (to_slice (eh_Nonce header)) in
  let seed := to_slice (Keccak512 (to_slice (HashHeader header) ++ le_put 8 nonce)) : bytes in
  if decide (blen cache ≤ 1) then Err "cache of proof-of-work is not generated!" else
  res_bind (hashimoto cache size seed) (λ mix,
  let digest := words_bytes mix in
  let result := to_slice (Keccak256 (seed ++ digest)) : bytes in
  if decide (to_slice (MixDigest header) ≠ digest) then Err "invalid mix digest!" else
  if decide (Difficulty header = 0) then Panic else
  let target := Z.quot two256 (Difficulty header) in
  if decide (target < be_get result) then Err "invalid proof-of-work!" else Ok tt).

Definition eth_verifyHeader (header : EthHeader) (caches : Caches) : contract NativeService Caches :=
  let number := Number_u64 header in
  match datasetSize fuel number return contract NativeService Caches with
  | None => CPanic
  | Some size =>
      '(cache, caches) ← getCache caches number;
      lift_res (verify_pow header size cache) ;;
      mret caches
  end.

End ethash.
