(* ===== verification/EthashSpec.v ===== *)
(** * Ethash computes without a panic, and its caches are transparent

    On a cache of whole rows every index is in range, whatever the header: [verify_pow]
    accepts or rejects.  The caches in the store and in memory hold what generating a
    cache anew would give, so that which of them is used makes no difference. *)

From S2P Require Import Prelude Sha256 Sink Source Serialization BytesOrder MemDB OverlayDB CacheDB Contract MerkleSpec MerkleHasher Native ExCrypto Codec NodeStates NodeManager NodeInv CrossCommon ConsensusVote SideStates SideChain CrossChain HsCommon Rlp RlpSpec EthHeader EthashSizes Ethash.

(** ** Words *)

Definition is_words (n : nat) (l : list Z) : Prop := length l = n ∧ Forall (in_range 32) l.

Lemma lxor_u32 a b : in_range 32 a → in_range 32 b → in_range 32 (Z.lxor a b).
Proof.
  intros [Ha0 Ha] [Hb0 Hb]. assert (0 ≤ Z.lxor a b) as H0 by (by apply Z.lxor_nonneg). split; [done|].
  apply Z.lt_nge. intros Hge. assert (32 ≤ Z.log2 (Z.lxor a b)) by (by apply Z.log2_le_pow2; lia).
  pose proof (Z.log2_lxor a b Ha0 Hb0) as Hl.
  assert (∀ x, 0 ≤ x < 2 ^ 32 → Z.log2 x < 32) as Hlog.
  { intros x Hx. destruct (decide (x = 0)) as [->|]; [done|]. apply Z.log2_lt_pow2; lia. }
  pose proof (Hlog a ltac:(lia)). pose proof (Hlog b ltac:(lia)). lia.
Qed.

Lemma fnv_u32 a b : in_range 32 b → in_range 32 (fnv a b).
Proof. intros Hb. unfold fnv. apply lxor_u32; [by apply uwrap_range|done]. Qed.

Lemma fnvHash_ok n mix data : is_words n mix → Forall (in_range 32) data → (n ≤ length data)%nat →
  ∃ mix', fnvHash mix data = Ok mix' ∧ is_words n mix'.
Proof.
  intros [Hn Hm] Hd Hl. unfold fnvHash. rewrite decide_True by lia. eexists. split; [done|]. split.
  - rewrite length_zip_with. lia.
  - apply Forall_zip_with_snd with (P := in_range 32); [|done]. apply Forall_forall. intros x _ y Hy. by apply fnv_u32.
Qed.

Lemma bytes_words_ok n b : is_words n (bytes_words n b).
Proof.
  revert b. induction n as [|n IH]; intros b; [by split|]. destruct (IH (drop 4 b)) as [Hl Hf]. split; [cbn; by rewrite Hl|]. constructor; [|done].
  pose proof (le_get_range (take 4 b)) as [H1 H2]. split; [done|]. eapply Z.lt_le_trans; [exact H2|]. apply Z.pow_le_mono_r; [lia|]. rewrite length_take. lia.
Qed.
Lemma to_words_ok b : is_words (length b / 4) (to_words b).
Proof. apply bytes_words_ok. Qed.

Lemma length_words_bytes l : length (words_bytes l) = (4 * length l)%nat.
Proof. induction l as [|w l IH]; [done|]. cbn [words_bytes length]. rewrite length_app, length_le_put, IH. lia. Qed.

(** A cache survives the store. *)
Lemma words_roundtrip l : Forall (in_range 32) l → to_words (words_bytes l) = l.
Proof.
  intros Hl. unfold to_words. rewrite length_words_bytes, Nat.mul_comm, Nat.div_mul by lia.
  induction Hl as [|w l Hw Hl IH]; [done|]. cbn [words_bytes length bytes_words].
  rewrite take_app_length' by (by rewrite length_le_put). rewrite drop_app_length' by (by rewrite length_le_put). by rewrite le_get_put_small, IH.
Qed.

(** ** Loops *)

Lemma res_iter_ok {A : Type} (P : A → Prop) (f : Z → A → res A) (n : nat) (i : Z) (a : A) :
  (∀ j b, i ≤ j < i + Z.of_nat n → P b → ∃ b', f j b = Ok b' ∧ P b') → P a → ∃ a', res_iter n i f a = Ok a' ∧ P a'.
Proof.
  revert i a. induction n as [|n IH]; intros i a Hf Ha; [by exists a|]. cbn [res_iter].
  destruct (Hf i a ltac:(lia) Ha) as (b & -> & Hb). cbn [res_bind]. apply IH; [|done]. intros j c Hj. apply Hf. lia.
Qed.

Lemma res_list_ok {A : Type} (P : A → Prop) (f : Z → res A) (n : nat) (i : Z) :
  (∀ j, i ≤ j < i + Z.of_nat n → ∃ a, f j = Ok a ∧ P a) → ∃ l, res_list n i f = Ok l ∧ length l = n ∧ Forall P l.
Proof.
  revert i. induction n as [|n IH]; intros i Hf; [by exists []|]. cbn [res_list]. destruct (Hf i ltac:(lia)) as (a & -> & Ha). cbn [res_bind].
  destruct (IH (i + 1)) as (l & -> & Hl & Hall); [intros j Hj; apply Hf; lia|]. cbn [res_bind]. exists (a :: l). split_and!; [done|cbn; lia|by constructor].
Qed.

Lemma at_index_ok n l i : is_words n l → 0 ≤ i < Z.of_nat n → ∃ w, at_index l i = Ok w ∧ in_range 32 w.
Proof.
  intros [Hn Hl] Hi. unfold at_index. rewrite decide_False by lia. destruct (lookup_lt_is_Some_2 l (Z.to_nat i) ltac:(lia)) as [w Hw].
  rewrite Hw. exists w. split; [done|]. by eapply Forall_lookup_1.
Qed.

(** ** Dataset items *)

Section items.
Context `{Crypto} `{EthLib}.

(** A cache of [n] rows. *)
Definition rows_ok (n : Z) (cache : list Z) : Prop := 0 < n < 2 ^ 28 ∧ is_words (16 * Z.to_nat n) cache.

Lemma rows_count n cache : rows_ok n cache → u32 (blen cache / hashWords) = n.
Proof.
  intros [Hn [Hl _]]. unfold hashWords. rewrite Hl, Nat2Z.inj_mul, Z2Nat.id by lia.
  change (Z.of_nat 16) with 16. rewrite Z.mul_comm, Z.div_mul by lia. apply uwrap_small. split; lia.
Qed.

Lemma keccak512_words b : is_words 16 (to_words (to_slice (Keccak512 b))).
Proof. pose proof (to_words_ok (to_slice (Keccak512 b))) as Hw. by rewrite length_to_slice in Hw. Qed.

Lemma generateDatasetItem_ok n cache index : rows_ok n cache → in_range 32 index →
  ∃ b, generateDatasetItem cache index = Ok b ∧ length b = 64%nat.
Proof.
  intros Hr Hi. unfold generateDatasetItem. rewrite (rows_count n cache Hr). destruct Hr as [Hn Hc]. rewrite decide_False by lia.
  pose proof (Z.mod_pos_bound index n ltac:(lia)) as Hmod. unfold hashWords. rewrite (uwrap_small 32 (index mod n * 16)) by (split; lia).
  destruct (res_list_ok (in_range 32) (λ i, res_bind (at_index cache (u32 (index mod n * 16 + i))) (λ w, Ok (if decide (i = 0) then Z.lxor w index else w))) 16 0)
    as (mix & -> & _ & _).
  { intros j Hj. rewrite uwrap_small by (split; lia). destruct (at_index_ok _ _ (index mod n * 16 + j) Hc ltac:(lia)) as (w & -> & Hw).
    cbn [res_bind]. eexists. split; [done|]. case_decide; [by apply lxor_u32|done]. }
  cbn [res_bind]. cbv zeta. edestruct (res_iter_ok (is_words 16)) as (mix' & -> & _); [|apply keccak512_words|].
  - intros j intMix Hj Hm. cbv beta. pose proof (Z.mod_pos_bound j 16 ltac:(lia)).
    destruct (at_index_ok _ _ (j mod 16) Hm ltac:(lia)) as (w & -> & Hw). cbn [res_bind].
    pose proof (Z.mod_pos_bound (fnv (Z.lxor index j) w) n ltac:(lia)) as Hp. set (parent := _ mod n) in *.
    unfold hashWords. rewrite (uwrap_small 32) by (split; lia). unfold from_index. destruct Hc as [Hl Hf].
    rewrite decide_True by lia. cbn [res_bind]. apply fnvHash_ok; [done|by apply Forall_drop|]. rewrite length_drop. lia.
  - cbn [res_bind]. eexists. split; [done|]. by rewrite length_to_slice.
Qed.

Lemma lookup_item_ok n cache index : rows_ok n cache → in_range 32 index → ∃ ws, lookup_item cache index = Ok ws ∧ is_words 16 ws.
Proof.
  intros Hr Hi. unfold lookup_item. destruct (generateDatasetItem_ok n cache index Hr Hi) as (b & -> & Hb). cbn [res_bind]. eexists. split; [done|].
  pose proof (to_words_ok b) as Hw. by rewrite Hb in Hw.
Qed.

Lemma compress_length k l : length l = (4 * k)%nat → length (compress l) = k.
Proof.
  revert l. induction k as [|k IH]; intros l Hl; [by destruct l|].
  destruct l as [|a [|b [|c [|d l]]]]; try (cbn in Hl; lia). cbn [compress length]. f_equal. apply IH. cbn in Hl. lia.
Qed.

Lemma hashimoto_ok n cache size seed : rows_ok n cache → length seed = 64%nat → u32 (size / mixBytes) ≠ 0 →
  ∃ mix, hashimoto cache size seed = Ok mix ∧ length mix = 8%nat.
Proof.
  intros Hr Hs Hz. unfold hashimoto. rewrite decide_False by done.
  assert (0 < u32 (size / mixBytes)) as Hpos by (pose proof (uwrap_range 32 (size / mixBytes) ltac:(lia)) as [??]; lia).
  set (rows := u32 (size / mixBytes)) in *.
  pose proof (to_words_ok seed) as Hw. rewrite Hs in Hw. change (64 / 4)%nat with 16%nat in Hw.
  edestruct (res_iter_ok (is_words 32)) as (mix' & -> & Hm'); [| |].
  - intros j mix Hj Hm. cbv beta. pose proof (Z.mod_pos_bound j 32 ltac:(lia)).
    destruct (at_index_ok _ _ (j mod 32) Hm ltac:(lia)) as (w & -> & Hww). cbn [res_bind].
    destruct (lookup_item_ok n cache (u32 (2 * (fnv (Z.lxor j (le_get (take 4 seed))) w mod rows))) Hr) as (a & Ea & [Hla Hfa]); [by apply uwrap_range|].
    destruct (lookup_item_ok n cache (u32 (u32 (2 * (fnv (Z.lxor j (le_get (take 4 seed))) w mod rows)) + 1)) Hr) as (b & Eb & [Hlb Hfb]); [by apply uwrap_range|].
    rewrite Ea. cbn [res_bind]. rewrite Eb. cbn [res_bind]. apply fnvHash_ok; [done|by apply Forall_app|]. rewrite length_app. lia.
  - split; [rewrite length_app; destruct Hw; lia|]. apply Forall_app. split; apply Hw.
  - cbn [res_bind]. eexists. split; [done|]. apply compress_length. by destruct Hm' as [-> _].
Qed.

End items.

(** ** The cache of an epoch *)

Section caches.
Context `{Crypto} `{EthLib} (fuel : nat).
Implicit Types (m : kvmap) (s : NativeService) (e : Z).

Definition buffer_ok (n : nat) (rows : list bytes) : Prop := length rows = n ∧ Forall (λ r, length r = 64%nat) rows.

Lemma initial_rows_ok n seed : buffer_ok n (initial_rows n seed).
Proof.
  revert seed. induction n as [|n IH]; intros seed; [by split|]. cbn [initial_rows]. destruct (IH (to_slice (Keccak512 seed))) as [Hl Hf]. split; [cbn; by rewrite Hl|].
  constructor; [by rewrite length_to_slice|done].
Qed.

Lemma row_at_ok n rows i : buffer_ok n rows → 0 ≤ i < Z.of_nat n → ∃ r, row_at rows i = Ok r ∧ length r = 64%nat.
Proof.
  intros [Hn Hl] Hi. unfold row_at. rewrite decide_False by lia. destruct (lookup_lt_is_Some_2 rows (Z.to_nat i) ltac:(lia)) as [r Hr].
  rewrite Hr. exists r. split; [done|]. by eapply (Forall_lookup_1 (λ r, length r = 64%nat)).
Qed.

Lemma mix_row_ok (n j : Z) rows : 0 < n < 2 ^ 26 → 0 ≤ j < n → buffer_ok (Z.to_nat n) rows →
  ∃ rows', mix_row n j rows = Ok rows' ∧ buffer_ok (Z.to_nat n) rows'.
Proof.
  intros Hn Hj Hb. unfold mix_row. pose proof (Z.mod_pos_bound (j - 1 + n) n ltac:(lia)) as Hm.
  destruct (row_at_ok _ _ ((j - 1 + n) mod n) Hb ltac:(lia)) as (src & -> & Hsrc). cbn [res_bind].
  destruct (row_at_ok _ _ j Hb ltac:(lia)) as (dst & -> & Hdst). cbn [res_bind]. unfold hashBytes.
  rewrite (uwrap_small 32 n) by (split; lia). pose proof (Z.mod_pos_bound (le_get (take 4 dst)) n ltac:(lia)) as Hx.
  rewrite (uwrap_small 32) by (split; lia). rewrite Z.div_mul by lia.
  destruct (row_at_ok _ _ (le_get (take 4 dst) mod n) Hb ltac:(lia)) as (oth & -> & Hoth). cbn [res_bind]. eexists. split; [done|].
  destruct Hb as [Hl Hf]. split; [by rewrite length_insert|]. apply Forall_insert; [done|by rewrite length_to_slice].
Qed.

Lemma buffer_bytes n rows : buffer_ok n rows → length (mjoin rows) = (64 * n)%nat.
Proof.
  intros [<- Hf]. induction Hf as [|r rows Hr Hf IH]; [done|]. change (mjoin (?x :: ?l)) with (x ++ mjoin l). rewrite length_app, IH, Hr. cbn [length]. lia.
Qed.

Lemma generateCache_ok size seed : 0 < size < 2 ^ 32 → size mod 64 = 0 →
  ∃ c, generateCache size seed = Ok c ∧ rows_ok (size / 64) c.
Proof.
  intros Hs Hm. pose proof (Z.div_mod size 64 ltac:(lia)) as Hd. unfold generateCache, hashBytes. rewrite decide_False by lia.
  set (n := size / 64) in *. assert (0 < n < 2 ^ 26) as Hn by lia.
  edestruct (res_iter_ok (buffer_ok (Z.to_nat n))) as (c & -> & Hc); [|apply initial_rows_ok|].
  - intros k cache _ Hb. cbv beta. apply res_iter_ok; [|done]. intros j rows Hj Hr. apply mix_row_ok; [done|lia|done].
  - cbn [res_bind]. eexists. split; [done|]. split; [lia|]. pose proof (to_words_ok (mjoin c)) as Hw. rewrite (buffer_bytes _ _ Hc) in Hw.
    by replace (64 * Z.to_nat n / 4)%nat with (16 * Z.to_nat n)%nat in Hw by (rewrite (Nat.mul_comm 64), <- (Nat.div_mul (16 * Z.to_nat n) 4); [f_equal; lia|lia]).
Qed.

(** The sizes in the tables. *)
Lemma cache_sizes_ok : forallb (λ x, bool_decide (0 < x < 2 ^ 32) && bool_decide (x mod 64 = 0)) cacheSizes = true.
Proof. vm_compute. reflexivity. Qed.
Lemma dataset_sizes_ok : forallb (λ x, bool_decide (128 ≤ x < 2 ^ 38)) datasetSizes = true.
Proof. vm_compute. reflexivity. Qed.

Lemma table_lookup (l : list Z) (P : Z → bool) (i : Z) : length l = 2048%nat → forallb P l = true → 0 ≤ i < 2048 →
  ∃ x, l !! Z.to_nat i = Some x ∧ P x = true.
Proof.
  intros Hl HP Hi. destruct (lookup_lt_is_Some_2 l (Z.to_nat i) ltac:(lia)) as [x Hx]. exists x. split; [done|].
  rewrite forallb_forall in HP. apply HP, list_elem_of_In. by eapply list_elem_of_lookup_2.
Qed.

Definition max_block : Z := 2048 * 30000.

Lemma epoch_cache_ok e : 0 ≤ e < 2048 → ∃ c n, epoch_cache fuel e = Ok c ∧ rows_ok n c ∧ n < 2 ^ 26.
Proof.
  intros He. unfold epoch_cache, cacheSize, epochLength, maxEpoch. rewrite (uwrap_small 64 (e * 30000)) by (split; lia).
  rewrite (uwrap_small 64) by (split; lia). replace ((e * 30000 + 1) / 30000) with e by (rewrite Z.add_comm, Z.div_add by lia; done).
  rewrite decide_True by lia. destruct (table_lookup cacheSizes _ e eq_refl cache_sizes_ok He) as (x & -> & [Hx Hm]%andb_true_iff).
  apply bool_decide_eq_true in Hx, Hm. pose proof (Z.div_mod x 64 ltac:(lia)) as Hd.
  replace (4 * (x / 4)) with x by (replace x with (x / 64 * 16 * 4) at 2 by lia; rewrite Z.div_mul; lia).
  destruct (generateCache_ok x (seedHash (e * 30000 + 1)) Hx Hm) as (c & -> & Hc). exists c, (x / 64). split_and!; [done|done|]. lia.
Qed.

Lemma datasetSize_ok (b : Z) : 0 ≤ b < max_block → ∃ size, datasetSize fuel b = Some size ∧ u32 (size / mixBytes) ≠ 0.
Proof.
  intros Hb. unfold max_block in Hb. unfold datasetSize, epochLength, maxEpoch. assert (0 ≤ b / 30000 < 2048) as He by (split; [apply Z.div_pos; lia|apply Z.div_lt_upper_bound; lia]).
  rewrite decide_True by lia. destruct (table_lookup datasetSizes _ (b / 30000) eq_refl dataset_sizes_ok He) as (x & -> & Hx).
  apply bool_decide_eq_true in Hx. exists x. split; [done|]. unfold mixBytes. pose proof (Z.div_mod x 128 ltac:(lia)).
  pose proof (Z.mod_pos_bound x 128 ltac:(lia)). rewrite uwrap_small by (split; lia). lia.
Qed.

Lemma verify_pow_no_panic n header size cache : rows_ok n cache → u32 (size / mixBytes) ≠ 0 → Difficulty header ≠ 0 →
  verify_pow header size cache ≠ Panic.
Proof.
  intros Hr Hz Hd. unfold verify_pow. destruct (decide (blen cache ≤ 1)); [done|].
  edestruct (hashimoto_ok n cache size) as (mix & -> & Hmix); [done| |done|].
  - by rewrite length_to_slice.
  - cbn [res_bind]. destruct (decide (to_slice _ ≠ _)); [done|]. rewrite decide_False by done. by destruct (decide _).
Qed.

(** ** Transparency *)

(** Everything in the store and in memory is the cache of its epoch. *)
Definition coherent m (caches : Caches) : Prop :=
  (∀ e c, items caches !! e = Some c → epoch_cache fuel e = Ok c) ∧
  ∀ e, 0 ≤ e < 2048 → kv_at m (cache_key e) = [] ∨
    ∃ c, epoch_cache fuel e = Ok c ∧ kv_at m (cache_key e) = GenRawStorageItem (cache_serialize c).

Definition same_but_caches m m' : Prop := ∀ k, (∀ e, k ≠ cache_key e) → kv_at m' k = kv_at m k.

Lemma cache_key_inj e e' : is_u64 e → is_u64 e' → cache_key e = cache_key e' → e = e'.
Proof.
  intros He He' E%hs_key_inj. change (ETH_CACHE ++ GetUint64Bytes e ++ [] = ETH_CACHE ++ GetUint64Bytes e' ++ []) in E.
  apply app_inv_head in E. rewrite !app_nil_r in E. by apply GetUint64Bytes_inj.
Qed.

Lemma epoch_cache_read e c : 0 ≤ e < 2048 → epoch_cache fuel e = Ok c →
  GetValueFromRawStorageItem (GenRawStorageItem (cache_serialize c)) = Ok (cache_serialize c) ∧ cache_deserialize (cache_serialize c) = c.
Proof.
  intros He Hc. destruct (epoch_cache_ok e He) as (c' & n & Hc' & [Hn [Hl Hf]] & Hn26). rewrite Hc in Hc'. injection Hc' as <-. split.
  - apply storage_item_roundtrip. unfold cache_serialize. rewrite length_words_bytes, Hl. lia.
  - by apply words_roundtrip.
Qed.

Lemma coherent_add m caches e c : coherent m caches → 0 ≤ e < 2048 → epoch_cache fuel e = Ok c →
  coherent (delete (cache_key (u64 (e - 3))) (<[cache_key e := GenRawStorageItem (cache_serialize c)]> m))
    (mkCaches (cap caches) (<[e := c]> (items caches))).
Proof.
  intros [Hi Hs] He Hc. split.
  - intros e' c'. cbn. rewrite lookup_insert_Some. intros [[<- <-]|[_ Hl]]; [done|by apply Hi].
  - intros e' He'. unfold kv_at. destruct (decide (cache_key (u64 (e - 3)) = cache_key e')) as [->|Hne]; [left; by rewrite lookup_delete_eq|].
    rewrite lookup_delete_ne by done. destruct (decide (e' = e)) as [->|Hee].
    + right. exists c. rewrite lookup_insert_eq. done.
    + rewrite lookup_insert_ne; [by apply Hs|]. intros E. apply Hee. apply cache_key_inj in E; [done|split; lia..].
Qed.

Lemma getCache_run m s caches (b : Z) : coherent m caches → 0 ≤ b < max_block →
  ∃ c caches' m', epoch_cache fuel (b / 30000) = Ok c ∧ run (getCache fuel caches b) (m, s) = (Ok (c, caches'), (m', s)) ∧
    coherent m' caches' ∧ same_but_caches m m'.
Proof.
  intros Hco Hb. unfold max_block in Hb. assert (0 ≤ b / 30000 < 2048) as He by (split; [apply Z.div_pos; lia|apply Z.div_lt_upper_bound; lia]).
  unfold getCache, epochLength. set (e := b / 30000) in *. destruct (epoch_cache_ok e He) as (c & n & Hc & _).
  pose proof Hco as [Hi Hs]. unfold tryCache. destruct (items caches !! e) as [c'|] eqn:El.
  - apply Hi in El as Hc'. rewrite Hc in Hc'. injection Hc' as <-. by exists c, caches, m.
  - rewrite run_bind. erewrite run_bind_ok by apply run_cget. destruct (Hs e He) as [E|(c' & Hc' & E)].
    + rewrite E, decide_True by done. change (run (mret ?b) ?st) with (Ok b, st). cbn beta iota zeta.
      rewrite Hc. unfold addCache. exists c, (mkCaches (cap caches) (<[e := c]> (items caches))).
      exists (delete (cache_key (u64 (e - 3))) (<[cache_key e := GenRawStorageItem (cache_serialize c)]> m)). split; [done|]. split; [reflexivity|]. split; [by apply coherent_add|].
      intros k Hk. unfold kv_at. rewrite lookup_delete_ne by (by apply not_eq_sym). by rewrite lookup_insert_ne by (by apply not_eq_sym).
    + rewrite Hc in Hc'. injection Hc' as <-. rewrite E, decide_False by apply GenRawStorageItem_nonempty.
      destruct (epoch_cache_read e c He Hc) as [-> Hd]. cbv zeta. rewrite Hd. change (run (mret ?b) ?st) with (Ok b, st). cbn beta iota zeta.
      eexists c, _, m. split; [done|]. split; [reflexivity|]. split; [|done]. split; [|done].
      intros e' c'. cbn. rewrite lookup_insert_Some. intros [[<- <-]|[_ Hl]]; [done|by apply Hi].
Qed.

Lemma eth_verifyHeader_run m s caches header : coherent m caches → Number_u64 header < max_block → Difficulty header ≠ 0 →
  ∃ size c caches' m', datasetSize fuel (Number_u64 header) = Some size ∧ epoch_cache fuel (Number_u64 header / 30000) = Ok c ∧
    verify_pow header size c ≠ Panic ∧
    run (eth_verifyHeader fuel header caches) (m, s) =
      (match verify_pow header size c with Ok _ => Ok caches' | Err e => Err e | Panic => Panic end, (m', s)) ∧
    coherent m' caches' ∧ same_but_caches m m'.
Proof.
  intros Hco Hn Hd. assert (0 ≤ Number_u64 header) as Hnn by (unfold Number_u64; apply (uwrap_range 64); lia).
  destruct (datasetSize_ok (Number_u64 header)) as (size & Es & Hz); [lia|].
  destruct (getCache_run m s caches (Number_u64 header) Hco) as (c & caches' & m' & Hc & Hr & Hco' & Hsame); [lia|].
  assert (0 ≤ Number_u64 header / 30000 < 2048) as He.
  { unfold max_block in Hn. split; [apply Z.div_pos; lia|apply Z.div_lt_upper_bound; lia]. }
  destruct (epoch_cache_ok _ He) as (c1 & n & Hc1 & Hrows & _). rewrite Hc in Hc1. injection Hc1 as <-.
  pose proof (verify_pow_no_panic n header size c Hrows Hz Hd) as Hnp.
  exists size, c, caches', m'. split; [done|]. split; [done|]. split; [done|]. split; [|done].
  unfold eth_verifyHeader. rewrite Es. cbv zeta. rewrite (run_bind_ok _ _ _ _ _ Hr). by destruct (verify_pow header size c).
Qed.


End caches.
