(* ===== verification/EthSync.v ===== *)
(** * Header synchronisation of Ethereum
    (header_sync/eth/header_sync.go, header_sync/eth/utils.go)

    The handler keeps every header with its total difficulty and the hashes of the
    main chain by height.  A header on top of the head extends the main chain; one on
    another branch that is heavier replaces it down to where the branches part.
    Entries above the height of the main chain may be left over; they are not read.

    [RestructChain] walks back along two branches and runs on [fuel]; EthChain says
    how much is enough. *)

From S2P Require Import Prelude Sha256 Sink Source Serialization BytesOrder MemDB OverlayDB CacheDB Contract MerkleSpec MerkleHasher Native ExCrypto Codec NodeStates NodeManager NodeInv CrossCommon ConsensusVote SideStates SideChain CrossChain HsCommon Rlp RlpSpec EthHeader HeaderTree PoaSync EthashSizes Ethash.

Record EthSum := mkEthSum { es_Header : EthHeader; es_Sum : Z }.

(** The JSON text of headers, whose fields have types of go-ethereum. *)
Class EthJson := {
  eth_json_header : bytes → res EthHeader;
  json_eth_sum : bytes → res EthSum;
  marshal_eth_sum : EthSum → res bytes;
}.

Section eth.
Context `{Hasher} `{Crypto} `{EthLib} `{EthJson} (cfg : Config) (fuel : nat).

(** ** Storage (utils.go) *)

(** The error of [json.Marshal] is dropped. *)
Definition sum_bytes (x : EthSum) : bytes := match marshal_eth_sum x with Ok b => b | _ => [] end.

Definition putGenesisBlockHeader (blockHeader : EthHeader) (chainID : Z) : contract NativeService unit :=
  let storeBytes := sum_bytes (mkEthSum blockHeader (Difficulty blockHeader)) in
  cput (genesis_key chainID) (GenRawStorageItem storeBytes) ;;
  cput (header_key chainID (to_slice (eth_Hash blockHeader))) (GenRawStorageItem storeBytes) ;;
  cput (main_key chainID (Number_u64 blockHeader)) (GenRawStorageItem (to_slice (eth_Hash blockHeader))) ;;
  cput (current_key chainID) (GenRawStorageItem (GetUint64Bytes (Number_u64 blockHeader))) ;;
  NotifyPutHeader cfg chainID (Number_u64 blockHeader) (Hash_Hex (eth_Hash blockHeader)).

Definition putBlockHeader (blockHeader : EthHeader) (difficultySum chainID : Z) : contract NativeService unit :=
  cput (header_key chainID (to_slice (eth_Hash blockHeader))) (GenRawStorageItem (sum_bytes (mkEthSum blockHeader difficultySum))) ;;
  NotifyPutHeader cfg chainID (Number_u64 blockHeader) (Hash_Hex (eth_Hash blockHeader)).

Definition appendHeader2Main (height : Z) (txhash : Uint256) (chainID : Z) : contract NativeService unit :=
  cput (main_key chainID height) (GenRawStorageItem (to_slice txhash)) ;;
  cput (current_key chainID) (GenRawStorageItem (GetUint64Bytes height)) ;;
  NotifyPutHeader cfg chainID height (Hash_Hex txhash).

Definition eth_GetCurrentHeaderHeight (chainID : Z) : contract NativeService Z :=
  heightStore ← cwrap "getPrevHeaderHeight error: " (cget (current_key chainID));
  cguard (bool_decide (heightStore ≠ [])) "getPrevHeaderHeight, heightStore is nil" ;;
  heightBytes ← cwrap "GetHeaderByHeight, deserialize headerBytes from raw storage item err:" (lift_res (GetValueFromRawStorageItem heightStore));
  mret (GetBytesUint64 heightBytes).

Definition eth_GetHeaderByHash (hash : bytes) (chainID : Z) : contract NativeService EthSum :=
  headerStore ← cwrap "GetHeaderByHash, get blockHashStore error: " (cget (header_key chainID hash));
  cguard (bool_decide (headerStore ≠ [])) "GetHeaderByHash, can not find any header records" ;;
  storeBytes ← cwrap "GetHeaderByHash, deserialize headerBytes from raw storage item err:" (lift_res (GetValueFromRawStorageItem headerStore));
  cwrap "GetHeaderByHash, deserialize header error: " (lift_res (json_eth_sum storeBytes)).

Definition eth_GetHeaderByHeight (height chainID : Z) : contract NativeService EthSum :=
  latestHeight ← eth_GetCurrentHeaderHeight chainID;
  cguard (bool_decide (height ≤ latestHeight)) "GetHeaderByHeight, height is too big" ;;
  headerStore ← cwrap "GetHeaderByHeight, get blockHashStore error: " (cget (main_key chainID height));
  cguard (bool_decide (headerStore ≠ [])) "GetHeaderByHeight, can not find any header records" ;;
  hashBytes ← cwrap "GetHeaderByHeight, deserialize headerBytes from raw storage item err:" (lift_res (GetValueFromRawStorageItem headerStore));
  eth_GetHeaderByHash hashBytes chainID.

Definition GetCurrentHeader (chainID : Z) : contract NativeService EthSum :=
  height ← eth_GetCurrentHeaderHeight chainID;
  eth_GetHeaderByHeight height chainID.

Definition IsHeaderExist (hash : bytes) (chainID : Z) : contract NativeService bool :=
  headerStore ← cwrap "IsHeaderExist, get blockHashStore error: " (cget (header_key chainID hash));
  mret (bool_decide (headerStore ≠ [])).

(** ** Another branch *)

(** [new, _, err = eth_GetHeaderByHash(...)]: on an error the message dereferences the
    nil header. *)
Definition parent_of (new : EthHeader) (chainID : Z) : contract NativeService EthHeader :=
  r ← ctry (eth_GetHeaderByHash (to_slice (ParentHash new)) chainID);
  match r with Ok x => mret (es_Header x) | _ => CPanic end.

(** The new branch, down to the height [si]. *)
Fixpoint roll_new (n : nat) (chainID si ti : Z) (new : EthHeader) (newHashs : list Uint256) :
    contract NativeService (Z * EthHeader * list Uint256) :=
  if decide (ti ≤ si) then mret (ti, new, newHashs) else
  match n with
  | O => CFail "out of fuel"
  | S n =>
      new' ← parent_of new chainID;
      roll_new n chainID si (u64 (ti - 1)) new' (newHashs ++ [eth_Hash new])
  end.

(** Both branches, down to a common parent. *)
Fixpoint roll_both (n : nat) (chainID si ti : Z) (current new : EthHeader) (newHashs : list Uint256) :
    contract NativeService (Z * EthHeader * list Uint256) :=
  if decide (ParentHash current = ParentHash new) then mret (ti, new, newHashs) else
  match n with
  | O => CFail "out of fuel"
  | S n =>
      new' ← parent_of new chainID;
      current' ← cwrap "RestructChain GetHeaderByHeight" (eth_GetHeaderByHeight (u64 (si - 1)) chainID);
      roll_both n chainID (u64 (si - 1)) (u64 (ti - 1)) (es_Header current') new' (newHashs ++ [eth_Hash new])
  end.

(** The hashes that were pushed, the last one first. *)
Fixpoint append_all_main (chainID ti : Z) (hashes : list Uint256) : contract NativeService unit :=
  match hashes with
  | [] => mret tt
  | h :: hashes => appendHeader2Main ti h chainID ;; append_all_main chainID (u64 (ti + 1)) hashes
  end.

Definition RestructChain (current new : EthHeader) (chainID : Z) : contract NativeService unit :=
  let si := Number_u64 current in
  let ti := Number_u64 new in
  '(current, si) ← (if decide (ti < si)
    then x ← cwrap "RestructChain GetHeaderByHeight" (eth_GetHeaderByHeight ti chainID); mret (es_Header x, ti)
    else mret (current, si));
  '(ti, new, newHashs) ← roll_new fuel chainID si ti new [];
  '(ti, new, newHashs) ← roll_both fuel chainID si ti current new newHashs;
  append_all_main chainID ti (reverse (newHashs ++ [eth_Hash new])).

(** ** Blocks (header_sync.go) *)

(** The clock. *)
Context (now : Z).
Definition allowedFutureBlockTime : Z := 15.

(** The checks against the parent. *)
Definition verify_block (header parent : EthHeader) : res unit :=
  if decide (Number_u64 header ≠ u64 (Number_u64 parent + 1)) then Err "SyncBlockHeader, invalid header height"
  else if decide (eth_Hash parent ≠ ParentHash header) then Err "SyncBlockHeader, parent header is not right"
  else if decide (MaximumExtraDataSize < blen (eh_Extra header)) then Err "SyncBlockHeader, SyncBlockHeader extra-data too long"
  else if decide (u64 (now + allowedFutureBlockTime) < eh_Time header) then Err "SyncBlockHeader,  verify header time error"
  else if decide (eh_Time header ≤ eh_Time parent) then Err "SyncBlockHeader, verify header time fail"
  else if decide (0x7fffffffffffffff < GasLimit header) then Err "SyncBlockHeader, invalid gasLimit"
  else if decide (GasLimit header < GasUsed header) then Err "SyncBlockHeader, invalid gasUsed"
  else res_bind (if isLondon cfg header then VerifyEip1559Header cfg parent header else VerifyGaslimit (GasLimit parent) (GasLimit header)) (λ _,
  if decide (expected_difficulty cfg header parent ≠ Difficulty header) then Err "SyncBlockHeader, invalid difficulty" else Ok tt).

(** A verified header: it is stored, and the main chain is extended or moved; the
    result of [RestructChain] is dropped. *)
Definition store_header (chainID : Z) (header : EthHeader) (headerDifficultySum : Z) : contract NativeService unit :=
  putBlockHeader header headerDifficultySum chainID ;;
  current ← cwrap "SyncBlockHeader, get the current block failed. error:" (GetCurrentHeader chainID);
  if decide (eth_Hash (es_Header current) = ParentHash header) then
    appendHeader2Main (Number_u64 header) (eth_Hash header) chainID
  else if decide (es_Sum current < headerDifficultySum) then
    ctry (RestructChain (es_Header current) header chainID) ;; mret tt
  else mret tt.

(** One header of the list. *)
Definition eth_sync_header (chainID : Z) (caches : Caches) (v : bytes) : contract NativeService Caches :=
  header ← cwrap "SyncBlockHeader, deserialize header err: " (lift_res (eth_json_header v));
  exist ← cwrap "SyncBlockHeader, check header exist err: " (IsHeaderExist (to_slice (eth_Hash header)) chainID);
  if (exist : bool) then mret caches else
  parent ← cwrap "SyncBlockHeader, get the parent block failed. Error:" (eth_GetHeaderByHash (to_slice (ParentHash header)) chainID);
  lift_res (verify_block header (es_Header parent)) ;;
  caches ← cwrap "SyncBlockHeader, verify header error: " (eth_verifyHeader fuel header caches);
  store_header chainID header (Difficulty header + es_Sum parent) ;;
  mret caches.

Definition eth_SyncBlockHeader : contract NativeService unit :=
  headerParams ← input_as (A := SyncBlockHeaderParam) "SyncBlockHeader, contract params deserialize error: ";
  caches ← cforeach (Headers headerParams) (NewCaches 3) (λ caches v, eth_sync_header (sb_ChainID headerParams) caches v);
  mret tt.

Definition getGenesisHeader (input : bytes) : res EthHeader :=
  match deserialize (A := SyncGenesisHeaderParam) input with
  | Ok params =>
      match eth_json_header (sg_GenesisHeader params) with
      | Ok header => Ok header
      | Err e => Err ("getGenesisHeader, deserialize header err: " +:+ e)
      | Panic => Panic
      end
  | Err e => Err ("getGenesisHeader, contract params deserialize error: " +:+ e)
  | Panic => Panic
  end.

Definition eth_SyncGenesisHeader : contract NativeService unit :=
  params ← input_as (A := SyncGenesisHeaderParam) "ETHHandler SyncGenesisHeader, contract params deserialize error: ";
  operatorAddress ← cwrap "ETHHandler SyncGenesisHeader, get current consensus operator address error: " GetCurConOperator;
  cwrap "ETHHandler SyncGenesisHeader, checkWitness error: " (ValidateOwner operatorAddress) ;;
  input ← cask ns_input;
  header ← cwrap "ETHHandler SyncGenesisHeader: " (lift_res (getGenesisHeader input));
  headerStore ← cwrap "ETHHandler GetHeaderByHeight, get blockHashStore error: " (cget (genesis_key (sg_ChainID params)));
  cguard (bool_decide (headerStore = [])) "ETHHandler GetHeaderByHeight, genesis header had been initialized" ;;
  cwrap "ETHHandler SyncGenesisHeader, put blockHeader error: " (putGenesisBlockHeader header (sg_ChainID params)).

Definition eth_SyncCrossChainMsg : contract NativeService unit := mret tt.
Definition eth_handler : HeaderSyncHandler := mkHeaderSyncHandler eth_SyncGenesisHeader eth_SyncBlockHeader eth_SyncCrossChainMsg.

End eth.
