(* ===== verification/EthChain.v ===== *)
(** * The main chain of Ethereum's light client

    The store of the handler of EthSync represents a light client ([HeaderTree]), with
    entries by height that are right up to the head.  A new header moves the entries to
    its branch exactly when the branch is heavier: [RestructChain] finds where the
    branches part, never follows a nil header, and writes the new branch from there. *)

From S2P Require Import Prelude Sha256 Sink Source Serialization BytesOrder MemDB OverlayDB CacheDB Contract MerkleSpec MerkleHasher Native ExCrypto Codec NodeStates NodeManager NodeInv CrossCommon ConsensusVote SideStates SideChain CrossChain HsCommon Rlp RlpSpec EthHeader HeaderTree PoaSync PoaChain PoaEpoch PoaSafe PoaGenesis EthashSizes Ethash EthashSpec EthSync.

#[export] Instance eth_node : HeaderNode EthSum := {|
  nd_parent x := ParentHash (es_Header x);
  nd_number x := Number_u64 (es_Header x);
  nd_td x := es_Sum x;
|}.

Class EthLaws `{EthJson} : Prop := {
  eth_json_wf : ∀ v h, eth_json_header v = Ok h → header_wf h;
  eth_sum_marshal : ∀ x, header_wf (es_Header x) → 0 ≤ es_Sum x < 2 ^ 321 →
    ∃ b, marshal_eth_sum x = Ok b ∧ blen b < 2 ^ 63 ∧ json_eth_sum b = Ok x;
}.

#[local] Set Default Proof Using "Type*".

Section chain.
Context `{Hasher} `{Crypto} `{EthLib} `{!EthLibLaws} `{!EthJson} `{!EthLaws} (cfg : Config).
Implicit Types (m : kvmap) (s : NativeService) (c : Z) (h a g : Uint256) (x : EthSum) (header : EthHeader).
Implicit Types (T : gmap Uint256 EthSum) (C : Z → option Uint256) (l : lightclient EthSum).

(** ** What the store holds *)

Definition eth_td_bound x : Prop := 0 ≤ es_Sum x ≤ 2 ^ 256 * (Number_u64 (es_Header x) + 1).

Record eth_index m c T : Prop := mkEthIndex {
  ei_none : ∀ h, T !! h = None → kv_at m (header_key c (to_slice h)) = [];
  ei_some : ∀ h x, T !! h = Some x → ∃ b, kv_at m (header_key c (to_slice h)) = GenRawStorageItem b ∧ blen b < 2 ^ 63 ∧
    json_eth_sum b = Ok x ∧ eth_Hash (es_Header x) = h ∧ header_wf (es_Header x) ∧ eth_td_bound x;
}.

(** The entries by height, up to [n]. *)
Definition mains_upto m c C (n : Z) : Prop := ∀ i, 0 ≤ i ≤ n →
  kv_at m (main_key c i) = match C i with None => [] | Some a => GenRawStorageItem (to_slice a) end.

Record eth_client m c l : Prop := mkEthClient {
  ec_ok : lc_ok l;
  ec_index : eth_index m c (lc_tree l);
  ec_bound : ∀ h x, lc_tree l !! h = Some x → Number_u64 (es_Header x) < 2 ^ 64 - 1;
  ec_main : ∀ x, lc_tree l !! lc_head l = Some x →
    height_is m c (Number_u64 (es_Header x)) ∧
    ∃ C, mains_upto m c C (Number_u64 (es_Header x)) ∧ ∀ i a, C i = Some a ↔ main_chain l i a;
}.

(** ** Reading *)

Lemma run_GetHeaderByHash m s c T h x : eth_index m c T → T !! h = Some x →
  run (eth_GetHeaderByHash (to_slice h) c) (m, s) = (Ok x, (m, s)).
Proof.
  intros [_ Hx] Hh. destruct (Hx h x Hh) as (b & Hk & Hb & Hj & _). unfold eth_GetHeaderByHash.
  erewrite run_bind_ok by (by apply run_cwrap_ok, run_cget). rewrite Hk, bool_decide_true by apply GenRawStorageItem_nonempty.
  erewrite run_bind_ok by done. rewrite storage_item_roundtrip by done. cbn. by rewrite Hj.
Qed.

Lemma run_GetHeaderByHash_inv m s c T h x (st : kvmap * NativeService) :
  eth_index m c T → run (eth_GetHeaderByHash (to_slice h) c) (m, s) = (Ok x, st) → T !! h = Some x ∧ st = (m, s).
Proof.
  intros Hix Hr. destruct (T !! h) as [y|] eqn:E.
  - rewrite (run_GetHeaderByHash _ _ _ _ _ _ Hix E) in Hr. by simplify_eq.
  - unfold eth_GetHeaderByHash in Hr. erewrite run_bind_ok in Hr by (by apply run_cwrap_ok, run_cget).
    rewrite (ei_none _ _ _ Hix) in Hr by done. discriminate.
Qed.

Lemma run_IsHeaderExist m s c T h : eth_index m c T →
  run (IsHeaderExist (to_slice h) c) (m, s) = (Ok (bool_decide (is_Some (T !! h))), (m, s)).
Proof.
  intros Hix. unfold IsHeaderExist. erewrite run_bind_ok by (by apply run_cwrap_ok, run_cget).
  change (run (mret ?b) ?st) with (Ok b, st). do 2 f_equal. apply bool_decide_ext. destruct (T !! h) as [x|] eqn:E.
  - destruct (ei_some _ _ _ Hix _ _ E) as (b & -> & _). split; [by eexists|]. intros _. apply GenRawStorageItem_nonempty.
  - rewrite (ei_none _ _ _ Hix) by done. split; [done|]. by intros [].
Qed.

Lemma run_GetCurrentHeaderHeight m s c (n : Z) : is_u64 n → height_is m c n → run (eth_GetCurrentHeaderHeight c) (m, s) = (Ok n, (m, s)).
Proof.
  intros Hn Hh. unfold eth_GetCurrentHeaderHeight. erewrite run_bind_ok by (by apply run_cwrap_ok, run_cget). rewrite Hh.
  rewrite bool_decide_true by apply GenRawStorageItem_nonempty. erewrite run_bind_ok by done.
  rewrite storage_item_roundtrip by (unfold GetUint64Bytes; rewrite length_le_put; lia). cbn -[GetBytesUint64 GetUint64Bytes].
  unfold GetBytesUint64, GetUint64Bytes. rewrite length_le_put, decide_False by lia. by rewrite le_get_put_small.
Qed.

Lemma run_GetHeaderByHeight m s c T C (n i : Z) a x : eth_index m c T → is_u64 n → height_is m c n → mains_upto m c C n → 0 ≤ i ≤ n →
  C i = Some a → T !! a = Some x → run (eth_GetHeaderByHeight i c) (m, s) = (Ok x, (m, s)).
Proof.
  intros Hix Hn Hh Hm Hi Ha Hx. unfold eth_GetHeaderByHeight. rewrite (run_bind_ok _ _ _ _ _ (run_GetCurrentHeaderHeight m s c n Hn Hh)).
  rewrite bool_decide_true by lia. erewrite run_bind_ok by done. erewrite run_bind_ok by (by apply run_cwrap_ok, run_cget).
  rewrite (Hm i Hi), Ha. rewrite bool_decide_true by apply GenRawStorageItem_nonempty. erewrite run_bind_ok by done.
  rewrite storage_item_roundtrip by (rewrite length_to_slice; lia). cbn [lift_res cwrap]. erewrite run_bind_ok by done.
  by apply (run_GetHeaderByHash m s c T).
Qed.

Lemma run_parent_of m s c T header x : eth_index m c T → T !! ParentHash header = Some x →
  run (parent_of header c) (m, s) = (Ok (es_Header x), (m, s)).
Proof. intros Hix Hx. unfold parent_of. rewrite run_bind, run_ctry. by rewrite (run_GetHeaderByHash m s c T _ x Hix Hx). Qed.

(** ** Walking back *)

Section walk.
Context m s c T g (Hix : eth_index m c T) (Hwf : tree_wf T g) (r : EthSum) (Hr : T !! g = Some r).

(** Hashes of the branch that ends in [h], from height [i] downwards. *)
Definition falling h (i : Z) (hs : list Uint256) : Prop := ∀ (j : nat) a, hs !! j = Some a → at_height T g h (i - Z.of_nat j) a.

Lemma falling_snoc h i hs a : falling h i hs → at_height T g h (i - Z.of_nat (length hs)) a → falling h i (hs ++ [a]).
Proof.
  intros Hf Ha j b Hj. apply lookup_app_Some in Hj as [Hj|[Hge Hj]]; [by apply Hf|].
  apply list_lookup_singleton_Some in Hj as [Hz <-]. by replace j with (length hs) by lia.
Qed.

(** The header at a height of a branch, and the one below it. *)
Lemma branch_step h (i : Z) a x : at_height T g h i a → T !! a = Some x → Number_u64 (es_Header r) < i →
  ∃ p, T !! ParentHash (es_Header x) = Some p ∧ at_height T g h (i - 1) (ParentHash (es_Header x)).
Proof.
  intros Ha Hx Hi. assert (a ≠ g) as Hg.
  { intros ->. destruct Ha as (_ & y & Hy & E). rewrite Hr in Hy. injection Hy as <-. cbn in E. lia. }
  destruct (wf_step _ _ Hwf _ _ Hx Hg) as (p & Hp & _). exists p. split; [done|]. exact (at_height_parent _ _ _ _ _ _ Hwf Ha Hx Hg).
Qed.

Lemma at_number h (i : Z) a x : at_height T g h i a → T !! a = Some x → Number_u64 (es_Header x) = i.
Proof. intros (_ & y & Hy & <-) Hx. rewrite Hx in Hy. by injection Hy as <-. Qed.

Lemma hash_of a x : T !! a = Some x → eth_Hash (es_Header x) = a.
Proof. intros Hx. by destruct (ei_some _ _ _ Hix _ _ Hx) as (? & _ & _ & _ & ? & _). Qed.

Lemma roll_new_run n h (top si ti : Z) a x hs :
  at_height T g h ti a → T !! a = Some x → falling h top hs → ti = top - Z.of_nat (length hs) →
  Number_u64 (es_Header r) ≤ si ≤ ti → is_u64 ti → (Z.to_nat (ti - si) ≤ n)%nat →
  ∃ a' x' hs', run (roll_new n c si ti (es_Header x) hs) (m, s) = (Ok (si, es_Header x', hs'), (m, s)) ∧
    at_height T g h si a' ∧ T !! a' = Some x' ∧ falling h top hs' ∧ si = top - Z.of_nat (length hs').
Proof.
  revert ti a x hs. induction n as [|n IH]; intros ti a x hs Ha Hx Hf Hti Hsi Hu Hn; cbn [roll_new].
  - rewrite decide_True by lia. assert (ti = si) as Eti by lia. rewrite Eti. exists a, x, hs. rewrite <- Eti. done.
  - destruct (decide (ti ≤ si)) as [Hle|Hgt].
    + assert (ti = si) as Eti by lia. rewrite Eti. exists a, x, hs. rewrite <- Eti. done.
    + destruct (branch_step h ti a x Ha Hx ltac:(lia)) as (p & Hp & Hpa).
      rewrite (run_bind_ok _ _ _ _ _ (run_parent_of m s c T (es_Header x) p Hix Hp)). destruct Hu as [Hu0 Hu1].
      pose proof (Number_u64_range (es_Header r)) as [Hr0 _]. rewrite uwrap_small by (split; lia). rewrite (hash_of a x Hx).
      destruct (IH (ti - 1) (ParentHash (es_Header x)) p (hs ++ [a])) as (a' & x' & hs' & Hrun & Hrest); [done|done| | |lia|split; lia|lia|].
      * apply falling_snoc; [done|]. by rewrite <- Hti.
      * rewrite length_app. cbn [length]. lia.
      * by exists a', x', hs'.
Qed.

(** Below [i] the branches that end in [h] and [h'] agree. *)
Definition agree_below h h' (i : Z) : Prop := ∀ j a, j < i → at_height T g h j a ↔ at_height T g h' j a.

Lemma agree_parents h h' (i : Z) a x a' x' : is_Some (T !! h) → is_Some (T !! h') → Number_u64 (es_Header r) ≤ i →
  at_height T g h i a → T !! a = Some x → at_height T g h' i a' → T !! a' = Some x' →
  ParentHash (es_Header x) = ParentHash (es_Header x') → agree_below h h' i.
Proof.
  intros [y Hy] [y' Hy'] Hi Ha Hx Ha' Hx' Hp j b Hj. destruct (decide (i = Number_u64 (es_Header r))) as [->|Hne].
  - split; intros Hb.
    + pose proof (at_height_range _ _ _ _ _ _ _ Hwf Hy Hr Hb) as Hrg. cbn in Hrg. lia.
    + pose proof (at_height_range _ _ _ _ _ _ _ Hwf Hy' Hr Hb) as Hrg. cbn in Hrg. lia.
  - destruct (branch_step h i a x Ha Hx ltac:(lia)) as (p & _ & Hpa). destruct (branch_step h' i a' x' Ha' Hx' ltac:(lia)) as (p' & _ & Hpa').
    rewrite <- Hp in Hpa'. exact (at_height_agree _ _ _ _ _ (i - 1) j b Hwf Hpa Hpa' ltac:(lia)).
Qed.

(** [hd] is the end of the main chain, whose entries are read. *)
Context C (top : Z) hd (Hd : is_Some (T !! hd)) (Htop : is_u64 top) (Hh : height_is m c top) (Hm : mains_upto m c C top).
Context (HC : ∀ i a, i ≤ top → C i = Some a ↔ at_height T g hd i a).

Lemma roll_both_run n h (from i : Z) a x a' x' hs : is_Some (T !! h) →
  at_height T g hd i a → T !! a = Some x → at_height T g h i a' → T !! a' = Some x' →
  falling h from hs → i = from - Z.of_nat (length hs) → Number_u64 (es_Header r) ≤ i ≤ top → (Z.to_nat (i - Number_u64 (es_Header r)) ≤ n)%nat →
  ∃ i' b y hs', run (roll_both n c i i (es_Header x) (es_Header x') hs) (m, s) = (Ok (i', es_Header y, hs'), (m, s)) ∧
    Number_u64 (es_Header r) ≤ i' ≤ i ∧ at_height T g h i' b ∧ T !! b = Some y ∧ falling h from hs' ∧ i' = from - Z.of_nat (length hs') ∧
    agree_below h hd i'.
Proof using Type* Hix Hwf Hr Hd Htop Hh Hm HC.
  intros Hsh. revert i a x a' x' hs. induction n as [|n IH]; intros i a x a' x' hs Ha Hx Ha' Hx' Hf Hi Hrg Hn; cbn [roll_both].
  - assert (i = Number_u64 (es_Header r)) as Ei by lia. rewrite Ei in Ha, Ha'.
    apply (at_height_root T g hd r a Hwf Hr) in Ha as Ea. apply (at_height_root T g h r a' Hwf Hr) in Ha' as Ea'.
    assert (x' = x) as -> by congruence. rewrite decide_True by done.
    exists i, a', x, hs. rewrite <- Ei in Ha, Ha'. split_and!; try done; try lia. exact (agree_parents h hd i a' x a x Hsh Hd ltac:(lia) Ha' Hx' Ha Hx eq_refl).
  - destruct (decide (ParentHash (es_Header x) = ParentHash (es_Header x'))) as [Hp|Hp].
    + exists i, a', x', hs. split_and!; try done; try lia. exact (agree_parents h hd i a' x' a x Hsh Hd ltac:(lia) Ha' Hx' Ha Hx (eq_sym Hp)).
    + assert (Number_u64 (es_Header r) < i) as Hri.
      { destruct (decide (i = Number_u64 (es_Header r))) as [Ei|]; [|lia]. exfalso. apply Hp. rewrite Ei in Ha, Ha'.
        apply (at_height_root T g hd r a Hwf Hr) in Ha. apply (at_height_root T g h r a' Hwf Hr) in Ha'. congruence. }
      pose proof (Number_u64_range (es_Header r)) as [Hr0 _]. destruct Htop as [Ht0 Ht1].
      destruct (branch_step h i a' x' Ha' Hx' Hri) as (p' & Hp' & Hpa').
      destruct (branch_step hd i a x Ha Hx Hri) as (p & Hpp & Hpa).
      rewrite (run_bind_ok _ _ _ _ _ (run_parent_of m s c T (es_Header x') p' Hix Hp')).
      rewrite !(uwrap_small 64 (i - 1)) by (split; lia).
      assert (run (eth_GetHeaderByHeight (i - 1) c) (m, s) = (Ok p, (m, s))) as Hget.
      { apply (run_GetHeaderByHeight m s c T C top (i - 1) (ParentHash (es_Header x))); try done; try lia. apply HC; [lia|done]. }
      erewrite run_bind_ok by (by apply run_cwrap_ok). rewrite (hash_of a' x' Hx').
      destruct (IH (i - 1) (ParentHash (es_Header x)) p (ParentHash (es_Header x')) p' (hs ++ [a'])) as (i' & b & y & hs' & Hrun & Hb1 & Hrest);
        [done|done|done|done| | |lia|lia|].
      * apply falling_snoc; [done|]. by rewrite <- Hi.
      * rewrite length_app. cbn [length]. lia.
      * exists i', b, y, hs'. split; [exact Hrun|]. split; [lia|done].
Qed.

End walk.

(** ** Writing *)

(** The stores agree outside the entries by height and the height. *)
Definition same_but_mains m m' c : Prop := ∀ k, (∀ i, k ≠ main_key c i) → k ≠ current_key c → kv_at m' k = kv_at m k.

Lemma appendHeader2Main_run m s c (i : Z) a :
  ∃ s', run (appendHeader2Main cfg i a c) (m, s) =
    (Ok tt, (<[current_key c := GenRawStorageItem (GetUint64Bytes i)]> (<[main_key c i := GenRawStorageItem (to_slice a)]> m), s')).
Proof.
  unfold appendHeader2Main. do 2 (erewrite run_bind_ok by apply run_cput). apply NotifyPutHeader_run.
Qed.

Lemma kv_main_insert m c (i k : Z) (v : bytes) : is_u64 i → is_u64 k →
  kv_at (<[main_key c i := v]> m) (main_key c k) = if decide (k = i) then v else kv_at m (main_key c k).
Proof.
  intros Hi Hk. rewrite kv_at_insert. destruct (decide (k = i)) as [->|Hne]; [by rewrite decide_True|]. rewrite decide_False; [done|].
  intros E. apply Hne. by apply (main_key_inj c).
Qed.
Lemma kv_main_current m c (k : Z) (v : bytes) : kv_at (<[current_key c := v]> m) (main_key c k) = kv_at m (main_key c k).
Proof. rewrite kv_at_insert, decide_False by auto with hskeys. done. Qed.

Lemma append_all_run c (hs : list Uint256) (i : Z) m s : 0 ≤ i → i + blen hs < 2 ^ 64 →
  ∃ m' s', run (append_all_main cfg c i hs) (m, s) = (Ok tt, (m', s')) ∧
    (∀ (j : nat) a, hs !! j = Some a → kv_at m' (main_key c (i + Z.of_nat j)) = GenRawStorageItem (to_slice a)) ∧
    (∀ k, is_u64 k → k < i → kv_at m' (main_key c k) = kv_at m (main_key c k)) ∧ same_but_mains m m' c ∧
    (hs ≠ [] → height_is m' c (i + blen hs - 1)).
Proof.
  revert i m s. induction hs as [|a hs IH]; intros i m s Hi Hl; cbn [append_all_main].
  - exists m, s. split_and!; try done.
  - rewrite length_cons in Hl. destruct (appendHeader2Main_run m s c i a) as [s1 E1]. rewrite (run_bind_ok _ _ _ _ _ E1). clear E1.
    set (m1 := <[current_key c := _]> _). destruct (decide (hs = [])) as [->|Hne].
    + exists m1, s1. split; [done|]. split_and!.
      * intros [|j] b Hj; [|done]. injection Hj as <-. subst m1. rewrite kv_at_insert, decide_False by auto with hskeys.
        rewrite Z.add_0_r, kv_at_insert. by rewrite decide_True.
      * intros k Hk Hlt. subst m1. rewrite kv_main_current, kv_main_insert, decide_False by (done || lia || (split; lia)). done.
      * intros k Hk Hc. subst m1. by rewrite !kv_at_insert, !decide_False by auto.
      * intros _. unfold height_is. subst m1. rewrite kv_at_insert, decide_True by done. do 2 f_equal. cbn. lia.
    + rewrite uwrap_small by (split; lia). destruct (IH (i + 1) m1 s1 ltac:(lia) ltac:(lia)) as (m' & s' & Hrun & Hmain & Hlow & Hsame & Hh).
      exists m', s'. split; [done|]. split_and!.
      * intros [|j] b Hj.
        { injection Hj as <-. rewrite Z.add_0_r, Hlow by (try split; lia). subst m1. rewrite kv_at_insert, decide_False by auto with hskeys.
          rewrite kv_at_insert. by rewrite decide_True. }
        replace (i + Z.of_nat (S j)) with (i + 1 + Z.of_nat j) by lia. by apply Hmain.
      * intros k Hk Hlt. rewrite Hlow by (done || lia). subst m1.
        rewrite kv_main_current, kv_main_insert, decide_False by (done || lia || (split; lia)). done.
      * intros k Hk Hc. rewrite Hsame by done. subst m1. by rewrite !kv_at_insert, !decide_False by auto.
      * intros _. rewrite length_cons. replace (i + Z.of_nat (S (length hs)) - 1) with (i + 1 + blen hs - 1) by lia. by apply Hh.
Qed.

(** ** Moving to another branch *)

(** The index of [T], and the main chain up to [hd] at height [top]. *)
Record restruct_pre m c T g C (top : Z) hd : Prop := mkRestructPre {
  rp_index : eth_index m c T;
  rp_wf : tree_wf T g;
  rp_head : ∃ y, T !! hd = Some y ∧ Number_u64 (es_Header y) = top;
  rp_top : top < 2 ^ 64 - 1;
  rp_height : height_is m c top;
  rp_mains : mains_upto m c C top;
  rp_chain : ∀ i a, i ≤ top → C i = Some a ↔ at_height T g hd i a;
}.

(** The header of the main chain at the height where the walk starts. *)
Lemma find_start m s c T g r C (top : Z) hd y (n : Z) :
  eth_index m c T → tree_wf T g → T !! g = Some r → is_u64 top → height_is m c top → mains_upto m c C top →
  (∀ i a, i ≤ top → C i = Some a ↔ at_height T g hd i a) → T !! hd = Some y → Number_u64 (es_Header y) = top →
  Number_u64 (es_Header r) ≤ top → Number_u64 (es_Header r) ≤ n →
  ∃ a x, run (if decide (n < top)
              then x ← cwrap "RestructChain GetHeaderByHeight" (eth_GetHeaderByHeight n c); mret (es_Header x, n)
              else mret (es_Header y, top)) (m, s) = (Ok (es_Header x, Z.min top n), (m, s)) ∧
    at_height T g hd (Z.min top n) a ∧ T !! a = Some x.
Proof.
  intros Hix Hwf Hr Hut Hh Hm HC Hy Htop Hrt Hn. pose proof (Number_u64_range (es_Header r)) as [Hr0 _].
  destruct (decide (n < top)) as [Hlt|Hge].
  - rewrite Z.min_r by lia. destruct (at_height_total T g hd y r n Hwf Hy Hr) as [a Ha]; [cbn; lia|].
    destruct (anc_mem_r _ _ _ _ (proj1 Ha)) as [x Hx]. exists a, x. split; [|done].
    assert (run (eth_GetHeaderByHeight n c) (m, s) = (Ok x, (m, s))) as Hget.
    { apply (run_GetHeaderByHeight m s c T C top n a); try done; try lia. apply HC; [lia|done]. }
    erewrite run_bind_ok by (by apply run_cwrap_ok). done.
  - rewrite Z.min_l by lia. exists hd, y. split; [done|]. split; [|done]. rewrite <- Htop. exact (at_height_self T g hd y Hy).
Qed.

Lemma RestructChain_run fuel m s c T g C (top : Z) hd h y x :
  restruct_pre m c T g C top hd → T !! hd = Some y → T !! h = Some x → Number_u64 (es_Header x) < 2 ^ 64 - 1 →
  Z.max top (Number_u64 (es_Header x)) < Z.of_nat fuel →
  ∃ m' s' C', run (RestructChain cfg fuel (es_Header y) (es_Header x) c) (m, s) = (Ok tt, (m', s')) ∧
    same_but_mains m m' c ∧ height_is m' c (Number_u64 (es_Header x)) ∧ mains_upto m' c C' (Number_u64 (es_Header x)) ∧
    ∀ i a, C' i = Some a ↔ at_height T g h i a.
Proof.
  intros [Hix Hwf (y' & Hy' & Htop) Ht Hh Hm HC] Hy Hx Hxb Hf. rewrite Hy in Hy'. injection Hy' as <-.
  destruct (wf_root _ _ Hwf) as [r Hr]. set (n := Number_u64 (es_Header x)) in *.
  pose proof (at_height_self T g h x Hx : at_height T g h n h) as Hself. pose proof (at_height_self T g hd y Hy) as Hself'. cbn in Hself'. rewrite Htop in Hself'.
  pose proof (at_height_range _ _ _ _ _ _ _ Hwf Hx Hr Hself) as Hrn. pose proof (at_height_range _ _ _ _ _ _ _ Hwf Hy Hr Hself') as Hrt. cbn in Hrn, Hrt.
  pose proof (Number_u64_range (es_Header r)) as [Hr0 _]. assert (is_u64 top) as Hut by (split; lia). assert (is_u64 n) as Hun by (split; lia).
  destruct (find_start m s c T g r C top hd y n Hix Hwf Hr Hut Hh Hm HC Hy Htop ltac:(lia) ltac:(lia)) as (a & x0 & Hrun & Ha & Hx0).
  unfold RestructChain. cbv zeta. fold n. rewrite Htop, (run_bind_ok _ _ _ _ _ Hrun). cbn beta iota.
  destruct (roll_new_run m s c T g Hix Hwf r Hr fuel h n (Z.min top n) n h x []) as (a' & x' & hs' & Hrun' & Ha' & Hx' & Hfal & Hlen);
    [done|done|by intros j b|cbn; lia|lia|done|lia|].
  rewrite (run_bind_ok _ _ _ _ _ Hrun'). cbn beta iota.
  destruct (roll_both_run m s c T g Hix Hwf r Hr C top hd ltac:(by eexists) Hut Hh Hm HC fuel h n (Z.min top n) a x0 a' x' hs')
    as (i' & b & z & hs & Hrun2 & Hi' & Hb & Hz & Hfal2 & Hlen2 & Hag); [by eexists|done|done|done|done|done|done|lia|lia|].
  rewrite (run_bind_ok _ _ _ _ _ Hrun2). cbn beta iota. rewrite (hash_of m c T g Hix Hwf r Hr b z Hz).
  rewrite Hlen2 in Hb. pose proof (falling_snoc m c T g Hix Hwf r Hr h n hs b Hfal2 Hb) as Hall.
  destruct (append_all_run c (reverse (hs ++ [b])) i' m s ltac:(lia)) as (m' & s' & Hrun3 & Hnew & Hlow & Hsame & Hheight).
  { rewrite length_reverse, length_app. cbn [length]. lia. }
  exists m', s', (λ i, if decide (i < i') then C i else if decide (i ≤ n) then reverse (hs ++ [b]) !! Z.to_nat (i - i') else None).
  rewrite length_reverse, length_app in Hheight. cbn [length] in Hheight. split; [done|]. split; [done|]. split.
  { replace n with (i' + Z.of_nat (length hs + 1) - 1) by lia. apply Hheight. intros E. apply (f_equal length) in E. rewrite length_reverse, length_app in E. cbn in E. lia. }
  assert (∀ i, i' ≤ i ≤ n → ∃ e, reverse (hs ++ [b]) !! Z.to_nat (i - i') = Some e ∧ at_height T g h i e) as Hent.
  { intros i Hi. destruct (lookup_lt_is_Some_2 (reverse (hs ++ [b])) (Z.to_nat (i - i'))) as [e He].
    { rewrite length_reverse, length_app. cbn [length]. lia. }
    exists e. split; [done|]. apply reverse_lookup_Some in He as [He _]. apply Hall in He. rewrite length_app in He. cbn [length] in He.
    replace (n - Z.of_nat (length hs + 1 - S (Z.to_nat (i - i')))) with i in He by lia. done. }
  split.
  - intros i Hi. destruct (decide (i < i')) as [Hlt|Hge].
    + rewrite Hlow by (try split; lia). apply Hm. lia.
    + rewrite decide_True by lia. destruct (Hent i ltac:(lia)) as (e & He & _). rewrite He.
      apply Hnew in He. by replace (i' + Z.of_nat (Z.to_nat (i - i'))) with i in He by lia.
  - intros i e. destruct (decide (i < i')) as [Hlt|Hge]; [rewrite HC by lia; symmetry; by apply Hag|].
    destruct (decide (i ≤ n)) as [Hle|Hgt].
    + destruct (Hent i ltac:(lia)) as (e' & -> & He'). split; [by intros [= <-]|]. intros He. f_equal. by eapply at_height_unique.
    + split; [done|]. intros He. pose proof (at_height_range _ _ _ _ _ _ _ Hwf Hx Hr He) as Hrg. cbn in Hrg. fold n in Hrg. lia.
Qed.

(** ** Adding a header *)

Definition eth_with_sum l header : EthSum := mkEthSum header (Difficulty header + td_of l (ParentHash header)).

Record eth_addable l header : Prop := mkEthAddable {
  ea_wf : header_wf header;
  ea_new : lc_tree l !! eth_Hash header = None;
  ea_bound : Number_u64 header < 2 ^ 64 - 1;
  ea_pos : 0 < Difficulty header;
  ea_parent : ∃ p, lc_tree l !! ParentHash header = Some p ∧ Number_u64 header = Number_u64 (es_Header p) + 1;
}.

Lemma eth_fits l header : eth_addable l header → fits_on l (eth_Hash header) (eth_with_sum l header).
Proof.
  intros [_ Hn _ Hd (p & Hp & Hnum)]. split; [done|]. exists p. unfold eth_with_sum, td_of. cbn. rewrite Hp. cbn. split_and!; [done|done|lia].
Qed.

(** Enough fuel: the heights that may have to be visited. *)
Definition eth_fuel l header (fuel : nat) : Prop :=
  Z.max (from_option (λ x, Number_u64 (es_Header x)) 0 (lc_tree l !! lc_head l)) (Number_u64 header) < Z.of_nat fuel.

Lemma eth_index_add m c l header (b : bytes) : eth_index m c (lc_tree l) → eth_addable l header →
  blen b < 2 ^ 63 → json_eth_sum b = Ok (eth_with_sum l header) → eth_td_bound (eth_with_sum l header) →
  eth_index (<[header_key c (to_slice (eth_Hash header)) := GenRawStorageItem b]> m) c (<[eth_Hash header := eth_with_sum l header]> (lc_tree l)).
Proof.
  intros [Hnone Hsome] [Hwf _ _ _ _] Hb Hj Htd.
  assert (∀ h, h ≠ eth_Hash header → header_key c (to_slice h) ≠ header_key c (to_slice (eth_Hash header))) as Hk.
  { intros h Hne E. apply Hne. by apply header_key_inj, to_slice_inj in E. }
  split.
  - intros h Hh. rewrite lookup_insert_None in Hh. destruct Hh as [Hh Hne]. rewrite kv_at_insert, decide_False by auto. by apply Hnone.
  - intros h x Hh. rewrite kv_at_insert. destruct (decide (h = eth_Hash header)) as [->|Hne].
    + rewrite lookup_insert_eq in Hh. injection Hh as <-. rewrite decide_True by done. by exists b.
    + rewrite lookup_insert_ne in Hh by done. rewrite decide_False by auto. by apply Hsome.
Qed.

Lemma eth_index_same m m' c T : same_but_mains m m' c → eth_index m c T → eth_index m' c T.
Proof.
  intros Hs [Hn Hx]. split.
  - intros h Hh. rewrite Hs by auto with hskeys. by apply Hn.
  - intros h x Hh. rewrite Hs by auto with hskeys. by apply Hx.
Qed.

(** The total difficulty of a new header is in range. *)
Lemma eth_sum_bound m c l header : eth_client m c l → eth_addable l header → eth_td_bound (eth_with_sum l header) ∧ 0 ≤ es_Sum (eth_with_sum l header) < 2 ^ 321.
Proof.
  intros Hc [Hwf _ Hb Hpos (p & Hp & Hnum)]. destruct (ei_some _ _ _ (ec_index _ _ _ Hc) _ _ Hp) as (_ & _ & _ & _ & _ & _ & Htd).
  unfold eth_td_bound, eth_with_sum, td_of in *. cbn. rewrite Hp. cbn. pose proof (hw_difficulty _ Hwf) as Hd. rewrite Hnum. lia.
Qed.

(** What holds once the header is stored: the old main chain, in the new tree. *)
Lemma eth_stored m c l header (b : bytes) hd :
  eth_client m c l → eth_addable l header → lc_tree l !! lc_head l = Some hd → blen b < 2 ^ 63 → json_eth_sum b = Ok (eth_with_sum l header) →
  let m1 := <[header_key c (to_slice (eth_Hash header)) := GenRawStorageItem b]> m in
  let T1 := <[eth_Hash header := eth_with_sum l header]> (lc_tree l) in
  ∃ C, restruct_pre m1 c T1 (lc_root l) C (Number_u64 (es_Header hd)) (lc_head l) ∧ ∀ i a, C i = Some a ↔ main_chain l i a.
Proof.
  intros Hc Ha Hhd Hb Hj m1 T1. destruct (ec_main _ _ _ Hc _ Hhd) as (Hh & C & Hm & HC). exists C. split; [|done].
  destruct (eth_fits _ _ Ha) as (Hnew & p & Hp & Hnum & Htd). pose proof (ec_ok _ _ _ Hc) as Hok. split.
  - apply eth_index_add; try done; [apply Hc|by eapply eth_sum_bound].
  - apply (tree_wf_insert _ _ _ _ p); try done. apply Hok.
  - exists hd. split; [|done]. subst T1. rewrite lookup_insert_ne; [done|]. intros E. rewrite E in Hnew. congruence.
  - by apply (ec_bound _ _ _ Hc _ _ Hhd).
  - unfold height_is. subst m1. rewrite kv_at_insert, decide_False by auto with hskeys. done.
  - intros i Hi. subst m1. rewrite kv_at_insert, decide_False by auto with hskeys. by apply Hm.
  - intros i a _. rewrite HC. unfold main_chain. symmetry. apply at_height_insert_old; [apply Hok|done|by eexists].
Qed.

Lemma run_GetCurrentHeader m s c T g C (top : Z) hd y : restruct_pre m c T g C top hd → T !! hd = Some y → run (GetCurrentHeader c) (m, s) = (Ok y, (m, s)).
Proof.
  intros [Hix Hwf (y' & Hy' & Htop) Ht Hh Hm HC] Hy. rewrite Hy in Hy'. injection Hy' as <-.
  pose proof (Number_u64_range (es_Header y)) as Hu. rewrite Htop in Hu. unfold GetCurrentHeader.
  rewrite (run_bind_ok _ _ _ _ _ (run_GetCurrentHeaderHeight m s c top Hu Hh)).
  apply (run_GetHeaderByHeight m s c T C top top hd); try done; [destruct Hu; lia|].
  apply HC; [lia|]. rewrite <- Htop. exact (at_height_self T g hd y Hy).
Qed.

Lemma eth_client_add m m' c l header C (n : Z) :
  eth_client m c l → eth_addable l header → eth_index m' c (<[eth_Hash header := eth_with_sum l header]> (lc_tree l)) →
  let l' := lc_add (eth_Hash header) (eth_with_sum l header) l in
  (∀ x, lc_tree l' !! lc_head l' = Some x → Number_u64 (es_Header x) = n) → height_is m' c n → mains_upto m' c C n →
  (∀ i a, C i = Some a ↔ main_chain l' i a) → eth_client m' c l'.
Proof.
  intros Hc Ha Hix l' Hn Hh Hm HC. split.
  - apply lc_add_ok; [apply Hc|by apply eth_fits].
  - exact Hix.
  - intros h x Hx. subst l'. unfold lc_add in Hx. cbn [lc_tree] in Hx. rewrite lookup_insert_Some in Hx.
    destruct Hx as [[_ <-]|[_ Hx]]; [apply Ha|by apply (ec_bound _ _ _ Hc _ _ Hx)].
  - intros x Hx. rewrite (Hn x Hx). split; [done|]. by exists C.
Qed.

(** The head after a header is added. *)
Lemma eth_head_new l header : td_of l (lc_head l) < Difficulty header + td_of l (ParentHash header) →
  lc_head (lc_add (eth_Hash header) (eth_with_sum l header) l) = eth_Hash header.
Proof. intros Hd. unfold lc_add. cbn [lc_head nd_td eth_node eth_with_sum es_Sum]. by rewrite decide_True. Qed.
Lemma eth_head_old l header : ¬ td_of l (lc_head l) < Difficulty header + td_of l (ParentHash header) →
  lc_head (lc_add (eth_Hash header) (eth_with_sum l header) l) = lc_head l.
Proof. intros Hd. unfold lc_add. cbn [lc_head nd_td eth_node eth_with_sum es_Sum]. by rewrite decide_False. Qed.

(** On top of the head. *)
Lemma eth_append m m1 c l header C hd :
  eth_client m c l → eth_addable l header → lc_tree l !! lc_head l = Some hd → ParentHash header = lc_head l →
  restruct_pre m1 c (<[eth_Hash header := eth_with_sum l header]> (lc_tree l)) (lc_root l) C (Number_u64 (es_Header hd)) (lc_head l) →
  (∀ i a, C i = Some a ↔ main_chain l i a) →
  eth_client (<[current_key c := GenRawStorageItem (GetUint64Bytes (Number_u64 header))]>
    (<[main_key c (Number_u64 header) := GenRawStorageItem (to_slice (eth_Hash header))]> m1)) c (lc_add (eth_Hash header) (eth_with_sum l header) l).
Proof.
  intros Hc Ha Hhd Hp Hpre HC. destruct (ea_parent _ _ Ha) as (p & Hpp & Hnum). rewrite Hp, Hhd in Hpp. injection Hpp as <-.
  assert (td_of l (lc_head l) < Difficulty header + td_of l (ParentHash header)) as Hd by (rewrite Hp; pose proof (ea_pos _ _ Ha); lia).
  pose proof (Number_u64_range (es_Header hd)) as [Hd0 _]. pose proof (ea_bound _ _ Ha) as Hb. set (n := Number_u64 header) in *.
  apply (eth_client_add m _ c l header (λ i, if decide (i = n) then Some (eth_Hash header) else C i) n Hc Ha).
  - eapply eth_index_same; [|apply Hpre]. intros k Hk Hcur. by rewrite !kv_at_insert, !decide_False by auto.
  - rewrite (eth_head_new l header Hd). intros x. unfold lc_add. cbn [lc_tree]. rewrite lookup_insert_eq. by intros [= <-].
  - unfold height_is. rewrite kv_at_insert. by rewrite decide_True.
  - intros i Hi. rewrite kv_main_current, kv_main_insert by (split; lia). destruct (decide (i = n)); [done|]. apply (rp_mains _ _ _ _ _ _ _ Hpre). lia.
  - intros i a. rewrite lc_add_main by (apply Hc || by apply eth_fits). cbn [nd_td nd_number nd_parent eth_node eth_with_sum es_Sum es_Header].
    rewrite (decide_True (P := td_of l (lc_head l) < _)) by done. fold n. rewrite Hp. change (at_height (lc_tree l) (lc_root l) (lc_head l) i a) with (main_chain l i a).
    destruct (decide (i = n)) as [->|Hne]; [|rewrite HC; split; [by right|by intros [[_ ?]|]]].
    split; [intros [= <-]; by left|]. intros [[-> _]|Hm]; [done|]. destruct (ec_ok _ _ _ Hc) as [Hwf _ _]. destruct (wf_root _ _ Hwf) as [r Hr].
    pose proof (at_height_range _ _ _ _ _ _ _ Hwf Hhd Hr Hm) as Hrg. cbn in Hrg. lia.
Qed.

Lemma putBlockHeader_run m s c header (d : Z) (b : bytes) : marshal_eth_sum (mkEthSum header d) = Ok b →
  ∃ s', run (putBlockHeader cfg header d c) (m, s) = (Ok tt, (<[header_key c (to_slice (eth_Hash header)) := GenRawStorageItem b]> m, s')).
Proof. intros E. unfold putBlockHeader, sum_bytes. rewrite E. erewrite run_bind_ok by apply run_cput. apply NotifyPutHeader_run. Qed.

Lemma index_hash m c T a x : eth_index m c T → T !! a = Some x → eth_Hash (es_Header x) = a.
Proof. intros Hix Hx. by destruct (ei_some _ _ _ Hix _ _ Hx) as (? & _ & _ & _ & ? & _). Qed.

Lemma store_header_run fuel m s c l header :
  eth_client m c l → eth_addable l header → eth_fuel l header fuel →
  ∃ m' s', run (store_header cfg fuel c header (Difficulty header + td_of l (ParentHash header))) (m, s) = (Ok tt, (m', s')) ∧
    eth_client m' c (lc_add (eth_Hash header) (eth_with_sum l header) l) ∧ same_but_chain m m' c.
Proof.
  intros Hc Ha Hf. destruct (ec_ok _ _ _ Hc) as [Hwf [hd Hhd] Hmax]. destruct (eth_sum_bound m c l header Hc Ha) as [_ Htd].
  destruct (eth_sum_marshal (eth_with_sum l header) (ea_wf _ _ Ha) Htd) as (b & Emar & Hb & Hj).
  destruct (eth_stored m c l header b hd Hc Ha Hhd Hb Hj) as (C & Hpre & HC).
  set (h := eth_Hash header) in *. set (m1 := <[header_key c (to_slice h) := GenRawStorageItem b]> m) in *. set (T1 := <[h := eth_with_sum l header]> (lc_tree l)) in *.
  assert (T1 !! lc_head l = Some hd) as Hhd1 by (subst T1; rewrite lookup_insert_ne; [done|]; intros E; pose proof (ea_new _ _ Ha) as Hn; fold h in Hn; congruence).
  assert (same_but_chain m m1 c) as Hsb by (intros k Hk _ _; subst m1; rewrite kv_at_insert, decide_False; [done|]; apply Hk).
  assert (∀ m', same_but_mains m1 m' c → same_but_chain m m' c) as Hsb' by (intros m' Hs k Hk1 Hk2 Hk3; rewrite Hs by done; by apply Hsb).
  destruct (putBlockHeader_run m s c header _ b Emar) as [s1 Hput]. fold h m1 in Hput. unfold store_header. rewrite (run_bind_ok _ _ _ _ _ Hput).
  pose proof (run_GetCurrentHeader m1 s1 c T1 _ C _ _ hd Hpre Hhd1) as Hcur. erewrite run_bind_ok by (apply run_cwrap_ok; exact Hcur).
  rewrite (index_hash _ _ _ _ _ (rp_index _ _ _ _ _ _ _ Hpre) Hhd1). assert (es_Sum hd = td_of l (lc_head l)) as -> by (unfold td_of; by rewrite Hhd).
  destruct (decide (lc_head l = ParentHash header)) as [Hp|Hp].
  - destruct (appendHeader2Main_run m1 s1 c (Number_u64 header) h) as [s2 Happ]. fold h. rewrite Happ. eexists _, s2. split; [done|].
    split; [by apply (eth_append m m1 c l header C hd)|]. apply Hsb'. intros k Hk Hk'. by rewrite !kv_at_insert, !decide_False by auto.
  - destruct (decide (td_of l (lc_head l) < Difficulty header + td_of l (ParentHash header))) as [Hlt|Hge].
    + unfold eth_fuel in Hf. rewrite Hhd in Hf. cbn [from_option] in Hf.
      destruct (RestructChain_run fuel m1 s1 c T1 (lc_root l) C _ (lc_head l) h hd (eth_with_sum l header) Hpre Hhd1) as (m' & s' & C' & Hrun & Hs & Hh & Hm & HC');
        [subst T1; by rewrite lookup_insert_eq|by apply Ha|done|].
      cbn [es_Header eth_with_sum] in Hrun, Hh, Hm. exists m', s'. rewrite run_bind, run_ctry, Hrun. split; [done|]. split; [|by apply Hsb'].
      apply (eth_client_add m m' c l header C' (Number_u64 header) Hc Ha); [eapply eth_index_same; [done|apply Hpre]| |done|done|].
      * rewrite (eth_head_new l header Hlt). intros x. unfold lc_add. cbn [lc_tree]. rewrite lookup_insert_eq. by intros [= <-].
      * intros i a. rewrite HC'. unfold main_chain. by rewrite (eth_head_new l header Hlt).
    + exists m1, s1. split; [done|]. split; [|done].
      apply (eth_client_add m m1 c l header C (Number_u64 (es_Header hd)) Hc Ha); [apply Hpre| |apply Hpre|apply Hpre|].
      * rewrite (eth_head_old l header Hge). intros x Hx. unfold lc_add in Hx. cbn [lc_tree] in Hx. fold h T1 in Hx. congruence.
      * intros i a. rewrite HC, lc_add_main by (apply Hc || by apply eth_fits). cbn [nd_td eth_node eth_with_sum es_Sum]. by rewrite (decide_False (P := td_of l (lc_head l) < _)).
Qed.

End chain.
