(* ===== verification/EthSafe.v ===== *)
(** * Ethereum's light client is sound and accepts valid blocks

    Every header the handler of EthSync adds follows the protocol's rules against its
    parent and carries a proof of work for the epoch's cache, and the store stays a
    light client whose main chain is the heaviest branch; and a header with these
    properties is accepted. *)

From S2P Require Import Prelude Sha256 Sink Source Serialization BytesOrder MemDB OverlayDB CacheDB Contract MerkleSpec MerkleHasher Native ExCrypto Codec NodeStates NodeManager NodeInv NodeGov CrossCommon ConsensusVote SideStates SideChain Approval SideGov CrossChain CrossSafe HsCommon Rlp RlpSpec EthHeader HeaderTree PoaSync PoaChain PoaEpoch PoaSafe PoaGenesis ExPoa EvmProof EvmSafe EthashSizes Ethash EthashSpec EthSync EthChain.

#[local] Set Default Proof Using "Type*".

(** ** Caches and headers do not meet *)

Lemma cache_ne_header e c (b : bytes) : cache_key e ≠ header_key c b.
Proof. key_ne. Qed.
Lemma cache_ne_main e c (i : Z) : cache_key e ≠ main_key c i.
Proof. key_ne. Qed.
Lemma cache_ne_current e c : cache_key e ≠ current_key c.
Proof. key_ne. Qed.
#[local] Hint Resolve cache_ne_header cache_ne_main cache_ne_current : hskeys.

Section safe.
Context `{Hasher} `{Crypto} `{EthLib} `{!EthLibLaws} `{!EthJson} `{!EthLaws} (cfg : Config) (fuel : nat) (now : Z).
Implicit Types (m : kvmap) (s : NativeService) (c : Z) (header : EthHeader) (l : lightclient EthSum) (caches : Caches).

Lemma eth_client_caches m m' c l : same_but_caches m m' → eth_client m c l → eth_client m' c l.
Proof.
  intros Hs [Hok [Hn Hx] Hb Hm]. split; [done| |done|].
  - split.
    + intros h Hh. rewrite Hs by auto with hskeys. by apply Hn.
    + intros h x Hh. rewrite Hs by auto with hskeys. by apply Hx.
  - intros x Hx'. destruct (Hm x Hx') as (Hh & C & HC & Hmain). split; [unfold height_is; by rewrite Hs by auto with hskeys|].
    exists C. split; [|done]. intros i Hi. rewrite Hs by auto with hskeys. by apply HC.
Qed.

Lemma coherent_chain m m' c caches : same_but_chain m m' c → coherent fuel m caches → coherent fuel m' caches.
Proof. intros Hs [Hi Hst]. split; [done|]. intros e He. assert (kv_at m' (cache_key e) = kv_at m (cache_key e)) as -> by (apply Hs; auto with hskeys). by apply Hst. Qed.

(** ** Valid headers *)

(** The work is checked with the cache of the header's epoch. *)
Definition pow_valid header : Prop :=
  ∃ size cache, datasetSize fuel (Number_u64 header) = Some size ∧ epoch_cache fuel (Number_u64 header / epochLength) = Ok cache ∧
    verify_pow header size cache = Ok tt.

Definition eth_valid header (parent : EthHeader) : Prop :=
  verify_block cfg now header parent = Ok tt ∧ pow_valid header.

(** What a header that is offered does to the light client: one that is known does
    nothing, a valid one on a known parent is added. *)
Inductive offer : lightclient EthSum → bytes → lightclient EthSum → Prop :=
  | offer_known l v header : eth_json_header v = Ok header → is_Some (lc_tree l !! eth_Hash header) → offer l v l
  | offer_new l v header p :
      eth_json_header v = Ok header → eth_addable l header → lc_tree l !! ParentHash header = Some p → eth_valid header (es_Header p) →
      offer l v (lc_add (eth_Hash header) (eth_with_sum l header) l).

Inductive offers : lightclient EthSum → list bytes → lightclient EthSum → Prop :=
  | offers_nil l : offers l [] l
  | offers_cons l v l1 vs l2 : offer l v l1 → offers l1 vs l2 → offers l (v :: vs) l2.

Lemma expected_pos header parent : 0 < expected_difficulty cfg header parent.
Proof.
  pose proof MinimumDifficulty_pos as Hmin. unfold expected_difficulty. destruct (isArrowGlacier cfg header); [|destruct (isLondon cfg header)].
  - eapply Z.lt_le_trans; [done|apply calculator_min].
  - eapply Z.lt_le_trans; [done|apply calculator_min].
  - unfold difficultyCalculator. set (y := if decide (_ < MinimumDifficulty) then _ else _).
    assert (0 < y) by (subst y; case_decide; lia). destruct (decide (1 < _)); [|done].
    match goal with |- context [2 ^ ?e] => pose proof (Z.pow_nonneg 2 e ltac:(lia)) end. lia.
Qed.

Lemma verify_block_inv header parent : verify_block cfg now header parent = Ok tt →
  Number_u64 header = u64 (Number_u64 parent + 1) ∧ Difficulty header = expected_difficulty cfg header parent.
Proof.
  unfold verify_block. intros Hv. destruct (decide (_ ≠ u64 _)) as [|Hn]; [done|]. apply dec_stable in Hn. split; [done|].
  repeat (destruct (decide _) in Hv; [done|]). apply res_bind_ok_inv in Hv as (u & _ & Hv). destruct (decide _) as [|He]; [done|]. apply dec_stable in He. done.
Qed.

(** ** One header *)

Definition max_height l : Z := from_option (λ x, Number_u64 (es_Header x)) 0 (lc_tree l !! lc_head l).

Record eth_state m c l caches : Prop := mkEthState { st_client : eth_client m c l; st_caches : coherent fuel m caches }.

(** A valid header on a known parent is accepted. *)
Lemma eth_accept m s c l caches (v : bytes) header p :
  eth_state m c l caches → eth_json_header v = Ok header → eth_addable l header → Number_u64 header < max_block →
  lc_tree l !! ParentHash header = Some p → eth_valid header (es_Header p) → Z.max (max_height l) (Number_u64 header) < Z.of_nat fuel →
  ∃ caches' m' s', run (eth_sync_header cfg fuel now c caches v) (m, s) = (Ok caches', (m', s')) ∧
    eth_state m' c (lc_add (eth_Hash header) (eth_with_sum l header) l) caches'.
Proof.
  intros [Hc Hco] Hj Ha Hmb Hp [Hvb (size & cache & Hsz & Hca & Hpow)] Hf. unfold eth_sync_header. rewrite Hj. erewrite run_bind_ok by done.
  pose proof (ec_index _ _ _ Hc) as Hix. erewrite run_bind_ok by (apply run_cwrap_ok; by apply (run_IsHeaderExist m s c (lc_tree l))).
  rewrite (ea_new _ _ Ha), bool_decide_false by (by intros []).
  erewrite run_bind_ok by (apply run_cwrap_ok; by apply (run_GetHeaderByHash m s c (lc_tree l))). rewrite Hvb. erewrite run_bind_ok by done.
  destruct (eth_verifyHeader_run fuel m s caches header Hco Hmb) as (size' & cache' & caches' & m1 & Hsz' & Hca' & _ & Hrun & Hco1 & Hs1).
  { pose proof (ea_pos _ _ Ha). lia. }
  rewrite Hsz in Hsz'. injection Hsz' as <-. unfold epochLength in Hca. rewrite Hca in Hca'. injection Hca' as <-. rewrite Hpow in Hrun.
  erewrite run_bind_ok by (apply run_cwrap_ok; exact Hrun). pose proof (eth_client_caches _ _ _ _ Hs1 Hc) as Hc1.
  destruct (store_header_run cfg fuel m1 s c l header Hc1 Ha Hf) as (m' & s' & Hst & Hc' & Hsc).
  assert (es_Sum p = td_of l (ParentHash header)) as -> by (unfold td_of; by rewrite Hp). rewrite (run_bind_ok _ _ _ _ _ Hst).
  exists caches', m', s'. split; [done|]. split; [done|]. by eapply coherent_chain.
Qed.

(** A header that is accepted was known, or is valid and added. *)
Lemma eth_header_sound m s c l caches (v : bytes) (B : Z) caches' m' s' :
  eth_state m c l caches → (∀ header, eth_json_header v = Ok header → Number_u64 header ≤ B) → max_height l ≤ B → B < max_block → B < Z.of_nat fuel →
  run (eth_sync_header cfg fuel now c caches v) (m, s) = (Ok caches', (m', s')) →
  ∃ l', offer l v l' ∧ eth_state m' c l' caches'.
Proof.
  intros Hst Hin Hmh HB Hf Hr. pose proof Hst as [Hc Hco]. pose proof (ec_index _ _ _ Hc) as Hix. unfold eth_sync_header in Hr.
  apply run_bind_inv in Hr as (header & st & Hj & Hr). apply run_cwrap_ok, run_lift_inv in Hj as [Hj ->]. pose proof (Hin header Hj) as Hnb.
  erewrite run_bind_ok in Hr by (apply run_cwrap_ok; by apply (run_IsHeaderExist m s c (lc_tree l))).
  case_bool_decide as Hex; [apply run_ret_inv in Hr as [-> [= -> ->]]; exists l; split; [by eapply offer_known|done]|].
  apply run_bind_inv in Hr as (p & st & Hp & Hr). apply run_cwrap_ok in Hp. apply (run_GetHeaderByHash_inv _ _ _ _ _ _ _ Hix) in Hp as [Hp ->].
  apply run_bind_inv in Hr as ([] & st & Hvb & Hr). apply run_lift_inv in Hvb as [Hvb ->]. destruct (verify_block_inv _ _ Hvb) as [Hnum Hdiff].
  pose proof (ec_bound _ _ _ Hc _ _ Hp) as Hpb. pose proof (Number_u64_range (es_Header p)) as [Hp0 _]. rewrite uwrap_small in Hnum by (split; lia).
  pose proof (expected_pos header (es_Header p)) as Hpos. rewrite <- Hdiff in Hpos.
  assert (eth_addable l header) as Ha.
  { split; [by eapply eth_json_wf| |unfold max_block in HB; lia|done|by exists p]. destruct (lc_tree l !! eth_Hash header) eqn:E; [by destruct Hex|done]. }
  destruct (eth_verifyHeader_run fuel m s caches header Hco) as (size & cache & caches1 & m1 & Hsz & Hca & Hnp & Hrun & _ & _); [lia|lia|].
  apply run_bind_inv in Hr as (caches2 & st & Hvh & Hr). apply run_cwrap_ok in Hvh. rewrite Hrun in Hvh.
  destruct (verify_pow header size cache) as [[]| |] eqn:Epow; [|done..]. injection Hvh as <- <-.
  assert (eth_valid header (es_Header p)) as Hval by (split; [done|]; by exists size, cache).
  destruct (eth_accept m s c l caches v header p Hst Hj Ha ltac:(lia) Hp Hval ltac:(lia)) as (caches3 & m3 & s3 & Hrun3 & Hst3).
  assert ((Ok caches', (m', s')) = (Ok caches3, (m3, s3))) as [= -> -> ->].
  { rewrite <- Hrun3. unfold eth_sync_header. rewrite Hj. erewrite run_bind_ok by done.
    erewrite run_bind_ok by (apply run_cwrap_ok; by apply (run_IsHeaderExist m s c (lc_tree l))). rewrite bool_decide_false by done.
    erewrite run_bind_ok by (apply run_cwrap_ok; by apply (run_GetHeaderByHash m s c (lc_tree l))). rewrite Hvb. erewrite run_bind_ok by done.
    erewrite run_bind_ok by (apply run_cwrap_ok; exact Hrun). by rewrite <- Hr. }
  exists (lc_add (eth_Hash header) (eth_with_sum l header) l). split; [by eapply offer_new|done].
Qed.

Lemma offer_height l v l' (B : Z) : lc_ok l → offer l v l' → (∀ header, eth_json_header v = Ok header → Number_u64 header ≤ B) → max_height l ≤ B →
  max_height l' ≤ B.
Proof.
  intros Hok Ho Hin Hmh. inversion Ho as [l0 v0 header Hj Hk|l0 v0 header p Hj Ha Hp _]; subst; [done|]. pose proof (Hin header Hj) as Hn.
  unfold max_height, lc_add in *. cbn [lc_tree lc_head]. destruct (lc_head_in _ Hok) as [hd Hhd]. case_decide.
  - rewrite lookup_insert_eq. done.
  - rewrite lookup_insert_ne; [done|]. intros E. pose proof (ea_new _ _ Ha) as Hnew. rewrite E in Hnew. congruence.
Qed.

Lemma eth_offer_accepted m s c l caches (v : bytes) (B : Z) l' :
  eth_state m c l caches → (∀ header, eth_json_header v = Ok header → Number_u64 header ≤ B) → max_height l ≤ B → B < max_block → B < Z.of_nat fuel →
  offer l v l' → ∃ caches' m' s', run (eth_sync_header cfg fuel now c caches v) (m, s) = (Ok caches', (m', s')) ∧ eth_state m' c l' caches'.
Proof.
  intros Hst Hin Hmh HB Hf Ho. pose proof Hst as [Hc _]. inversion Ho as [l0 v0 header Hj Hk|l0 v0 header p Hj Ha Hp Hval]; subst.
  - exists caches, m, s. split; [|done]. unfold eth_sync_header. rewrite Hj. erewrite run_bind_ok by done.
    erewrite run_bind_ok by (apply run_cwrap_ok; by apply (run_IsHeaderExist m s c (lc_tree l')), Hc). by rewrite bool_decide_true.
  - pose proof (Hin header Hj). eapply eth_accept; try done; lia.
Qed.

(** ** The whole list *)

Lemma input_as_ok `{Serializable A} (e : string) m s (a : A) : deserialize (ns_input s) = Ok a → run (input_as e) (m, s) = (Ok a, (m, s)).
Proof.
  intros E. unfold input_as. rewrite (run_bind_ok _ _ _ _ _ (run_cask _ m s)). apply run_cwrap_ok. unfold cdeserialize. by rewrite E.
Qed.

Section list.
Context (c B : Z) (HB : B < max_block) (Hf : B < Z.of_nat fuel).

Definition below (v : bytes) : Prop := ∀ header, eth_json_header v = Ok header → Number_u64 header ≤ B.

Lemma eth_list_sound (vs : list bytes) m s l caches caches' m' s' :
  eth_state m c l caches → (∀ v, v ∈ vs → below v) → max_height l ≤ B →
  run (cforeach vs caches (λ caches v, eth_sync_header cfg fuel now c caches v)) (m, s) = (Ok caches', (m', s')) →
  ∃ l', offers l vs l' ∧ eth_state m' c l' caches'.
Proof using Type* HB Hf.
  revert m s l caches. induction vs as [|v vs IH]; intros m s l caches Hst Hin Hmh Hr; cbn [cforeach] in Hr.
  - apply run_ret_inv in Hr as [-> [= -> ->]]. exists l. split; [constructor|done].
  - change (cbind ?a ?f) with (a ≫= f) in Hr. apply run_bind_inv in Hr as (caches1 & [m1 s1] & Hone & Hr).
    assert (below v) as Hv by (apply Hin; by left).
    apply (eth_header_sound m s c l caches v B) in Hone as (l1 & Ho & Hst1); [|done..].
    assert (max_height l1 ≤ B) as Hmh1 by (eapply offer_height; [apply Hst|done..]).
    destruct (IH m1 s1 l1 caches1 Hst1) as (l2 & Hos & Hst2); [intros w Hw; apply Hin; by right|done|done|].
    exists l2. split; [by econstructor|done].
Qed.

Lemma eth_list_complete (vs : list bytes) m s l caches l' :
  eth_state m c l caches → (∀ v, v ∈ vs → below v) → max_height l ≤ B → offers l vs l' →
  ∃ caches' m' s', run (cforeach vs caches (λ caches v, eth_sync_header cfg fuel now c caches v)) (m, s) = (Ok caches', (m', s')) ∧
    eth_state m' c l' caches'.
Proof using Type* HB Hf.
  intros Hst Hin Hmh Hos. revert m s caches Hst Hin Hmh. induction Hos as [l|l v l1 vs l2 Ho Hos IH]; intros m s caches Hst Hin Hmh; cbn [cforeach].
  - by exists caches, m, s.
  - assert (below v) as Hv by (apply Hin; by left).
    destruct (eth_offer_accepted m s c l caches v B l1 Hst Hv Hmh HB Hf Ho) as (caches1 & m1 & s1 & Hone & Hst1).
    change (cbind ?a ?f) with (a ≫= f). rewrite (run_bind_ok _ _ _ _ _ Hone).
    apply IH; [done|intros w Hw; apply Hin; by right|]. eapply offer_height; [apply Hst|done..].
Qed.

(** C4 (Ethereum's SyncBlockHeader refines the light client).  For headers below block
    61,440,000: the call succeeds exactly when every header in the list is known, or
    follows the rules of the protocol against its known parent (height, times, gas,
    base fee, difficulty) and carries a proof of work for its epoch's cache; and the
    store then represents the light client with the new headers added one after the
    other, whose main chain is the heaviest branch however the branches part. *)
Theorem eth_sync_refines m s l (params : SyncBlockHeaderParam) :
  deserialize (ns_input s) = Ok params → sb_ChainID params = c → eth_state m c l (NewCaches 3) →
  (∀ v, v ∈ Headers params → below v) → max_height l ≤ B →
  (∀ m' s', run (eth_SyncBlockHeader cfg fuel now) (m, s) = (Ok tt, (m', s')) →
     ∃ l' caches, offers l (Headers params) l' ∧ eth_state m' c l' caches) ∧
  (∀ l', offers l (Headers params) l' →
     ∃ m' s' caches, run (eth_SyncBlockHeader cfg fuel now) (m, s) = (Ok tt, (m', s')) ∧ eth_state m' c l' caches).
Proof using Type* HB Hf.
  intros Hpar Hc Hst Hin Hmh. split.
  - intros m' s' Hr. unfold eth_SyncBlockHeader in Hr. apply run_bind_inv in Hr as (p & st & Hi & Hr). apply input_as_inv in Hi as [-> Hi].
    rewrite Hpar in Hi. injection Hi as <-. rewrite Hc in Hr. apply run_bind_inv in Hr as (caches & [m1 s1] & Hl & Hr). apply run_ret_inv in Hr as [_ [= -> ->]].
    destruct (eth_list_sound (Headers params) m s l (NewCaches 3) caches m1 s1 Hst Hin Hmh Hl) as (l' & ? & ?). by exists l', caches.
  - intros l' Hos. destruct (eth_list_complete (Headers params) m s l (NewCaches 3) l' Hst Hin Hmh Hos) as (caches & m' & s' & Hrun & Hst').
    exists m', s', caches. split; [|done]. unfold eth_SyncBlockHeader. rewrite (run_bind_ok _ _ _ _ _ (input_as_ok _ m s params Hpar)), Hc. by rewrite (run_bind_ok _ _ _ _ _ Hrun).
Qed.
End list.
End safe.

(** ** How Ethereum's light client starts, and a chain with it

    The genesis header makes a light client with one header; an example offers it a
    valid header, whose proof of work is found without evaluating the cache. *)

Section genesis.
Context `{Hasher} `{Crypto} `{EthLib} `{!EthLibLaws} `{!EthJson} `{!EthLaws} (cfg : Config) (fuel : nat).
Implicit Types (m : kvmap) (s : NativeService) (c : Z) (header : EthHeader).

Definition eth_root header : lightclient EthSum := lc_single (eth_Hash header) (mkEthSum header (Difficulty header)).

Definition eth_genesis_store m c header (b : bytes) : kvmap :=
  <[current_key c := GenRawStorageItem (GetUint64Bytes (Number_u64 header))]>
    (<[main_key c (Number_u64 header) := GenRawStorageItem (to_slice (eth_Hash header))]>
      (<[header_key c (to_slice (eth_Hash header)) := GenRawStorageItem b]>
        (<[genesis_key c := GenRawStorageItem b]> m))).

Lemma eth_genesis_client m c header (b : bytes) : fresh m c → header_wf header → Number_u64 header < 2 ^ 64 - 1 →
  blen b < 2 ^ 63 → json_eth_sum b = Ok (mkEthSum header (Difficulty header)) →
  eth_client (eth_genesis_store m c header b) c (eth_root header).
Proof.
  intros [Hfh Hfm] Hwf Hnum Hb Hj. unfold eth_genesis_store. split.
  - apply lc_single_ok.
  - split; cbn [eth_root lc_single lc_tree].
    + intros h Hne%lookup_singleton_None. rewrite !kv_at_insert.
      rewrite !decide_False; auto with hskeys. intros E. apply Hne. by apply header_key_inj, to_slice_inj in E.
    + intros h x [<- <-]%lookup_singleton_Some. rewrite !kv_at_insert. do 2 (rewrite decide_False by auto with hskeys).
      rewrite decide_True by done. exists b. do 5 (split; [done|]). unfold eth_td_bound. cbn. pose proof (hw_difficulty _ Hwf).
      pose proof (Number_u64_range header) as [??]. lia.
  - cbn [eth_root lc_single lc_tree]. intros h x [_ <-]%lookup_singleton_Some. done.
  - cbn [eth_root lc_single lc_tree lc_head]. intros x [_ <-]%lookup_singleton_Some. cbn [es_Header]. split.
    + unfold height_is. rewrite kv_at_insert. by rewrite decide_True.
    + exists (λ i, if decide (i = Number_u64 header) then Some (eth_Hash header) else None). split.
      * intros i Hi. rewrite kv_main_current, kv_main_insert by (try apply Number_u64_range; split; lia). destruct (decide (i = Number_u64 header)); [done|].
        rewrite !kv_at_insert, !decide_False by auto with hskeys. apply Hfm. split; lia.
      * intros i a. unfold eth_root. rewrite lc_single_main. cbn. case_decide; naive_solver.
Qed.

Lemma putGenesis_run m s c header : fresh m c → header_wf header → Number_u64 header < 2 ^ 64 - 1 →
  ∃ b s', run (putGenesisBlockHeader cfg header c) (m, s) = (Ok tt, (eth_genesis_store m c header b, s')) ∧
    eth_client (eth_genesis_store m c header b) c (eth_root header).
Proof.
  intros Hfr Hwf Hnum. pose proof (hw_difficulty _ Hwf). destruct (eth_sum_marshal (mkEthSum header (Difficulty header)) Hwf) as (b & Em & Hb & Hj); [cbn; lia|].
  exists b. unfold putGenesisBlockHeader, sum_bytes. rewrite Em. do 4 (erewrite run_bind_ok by apply run_cput).
  destruct (NotifyPutHeader_run cfg c (Number_u64 header) (Hash_Hex (eth_Hash header)) (eth_genesis_store m c header b) s) as [s' Es].
  exists s'. split; [exact Es|]. by apply eth_genesis_client.
Qed.

(** The genesis header is set once, by the operator. *)
Lemma eth_genesis_sound m s (params : SyncGenesisHeaderParam) header m' s' :
  deserialize (ns_input s) = Ok params → eth_json_header (sg_GenesisHeader params) = Ok header → fresh m (sg_ChainID params) →
  Number_u64 header < 2 ^ 64 - 1 → run (eth_SyncGenesisHeader cfg) (m, s) = (Ok tt, (m', s')) →
  ∃ op, run GetCurConOperator (m, s) = (Ok op, (m, s)) ∧ CheckWitness op s = true ∧ kv_at m (genesis_key (sg_ChainID params)) = [] ∧
    eth_client m' (sg_ChainID params) (eth_root header).
Proof.
  intros Hpar Hj Hfr Hnum Hr. unfold eth_SyncGenesisHeader in Hr. apply run_bind_inv in Hr as (p & st & Hi & Hr).
  apply input_as_inv in Hi as [-> Hi]. rewrite Hpar in Hi. injection Hi as <-.
  apply run_bind_inv in Hr as (op & st & Hop & Hr). apply run_cwrap_ok in Hop.
  pose proof (f_equal snd Hop) as Est. rewrite ro_GetCurConOperator in Est. cbn in Est. subst st.
  apply run_bind_inv in Hr as (u & st & Hown & Hr). apply run_cwrap_ok, ValidateOwner_inv in Hown as [Hw ->].
  rewrite (run_bind_ok _ _ _ _ _ (run_cask ns_input m s)) in Hr. unfold getGenesisHeader in Hr. rewrite Hpar, Hj in Hr. erewrite run_bind_ok in Hr by done.
  erewrite run_bind_ok in Hr by (by apply run_cwrap_ok, run_cget). apply run_guard_bind in Hr as [Hn%bool_decide_eq_true Hr]. apply run_cwrap_ok in Hr.
  destruct (putGenesis_run m s (sg_ChainID params) header Hfr (eth_json_wf _ _ Hj) Hnum) as (b & s1 & Hrun & Hc). rewrite Hrun in Hr. injection Hr as <- <-.
  by exists op.
Qed.

(** ** Transfers from Ethereum *)

Definition eth_best_height (c : Z) : contract NativeService Z := x ← GetCurrentHeader c; mret (Number_u64 (es_Header x)).
Definition eth_header_at (c i : Z) : contract NativeService (option EthHeader) := x ← eth_GetHeaderByHeight i c; mret (Some (es_Header x)).
Definition eth_evm_client : EvmClient := {| client_name := "eth"; best_height := eth_best_height; header_at := eth_header_at |}.

Lemma eth_evm_client_laws : @EvmClientLaws _ eth_evm_client.
Proof.
  assert (∀ c i, read_only (eth_GetHeaderByHeight i c)) as Hro by (intros c i; unfold eth_GetHeaderByHeight, eth_GetCurrentHeaderHeight, eth_GetHeaderByHash; solve_ro).
  split; cbn [best_height header_at eth_evm_client].
  - intros c. apply read_only_bind; [|intros; apply read_only_ret]. unfold GetCurrentHeader, eth_GetCurrentHeaderHeight. apply read_only_bind; [solve_ro|auto].
  - intros c i. apply read_only_bind; [auto|intros; apply read_only_ret].
Qed.

Context `{EvmLib} `{!EvmLibLaws}.
#[local] Existing Instance eth_evm_client.
#[local] Existing Instance eth_evm_client_laws.

(** A transfer from Ethereum is accepted only if it is stored in the state of a header
    on the main chain with enough blocks on top, and was not done before. *)
Lemma eth_transfer_proven m s (l : lightclient EthSum) (params : EntranceParam) (r : option MakeTxParam) m' s' (hd : EthSum) :
  deserialize (ns_input s) = Ok params → is_u32 (ep_Height params) → eth_client m (SourceChainID params) l →
  lc_tree l !! lc_head l = Some hd → Number_u64 (es_Header hd) < 2 ^ 32 →
  run evm_MakeDepositProposal (m, s) = (Ok r, (m', s')) →
  ∃ tx sc a x, r = Some tx ∧ deserialize (Extra params) = Ok tx ∧
    main_chain l (ep_Height params) a ∧ lc_tree l !! a = Some x ∧
    stored_in_state (eh_Root (es_Header x)) (CCMCAddress sc) (Extra params) ∧
    (1 ≤ BlocksToWait sc ≤ 2 ^ 32 → BlocksToWait sc ≤ Number_u64 (es_Header hd) - ep_Height params + 1) ∧
    ¬ done_tx (SourceChainID params) (CrossChainID tx) m ∧ done_tx (SourceChainID params) (CrossChainID tx) m'.
Proof.
  intros Hi [Hu1 Hu2] Hc Hhd Hb Hr. apply evm_accepts in Hr as (params' & tx & sc & ch & header & Hi' & -> & Hac & Hn & ->).
  rewrite Hi in Hi'. injection Hi' as <-. set (c := SourceChainID params) in *. destruct Hac as [Hs Hbest Hhead Hle Hw Hst Hv]. fold c in Hs, Hbest, Hhead.
  cbn [best_height header_at eth_evm_client] in Hbest, Hhead. unfold eth_best_height, eth_header_at in *.
  destruct (ec_main _ _ _ Hc _ Hhd) as (Hh & C & Hm & HC). pose proof (Number_u64_range (es_Header hd)) as Hrg.
  pose proof (ec_index _ _ _ Hc) as Hix. pose proof (ec_ok _ _ _ Hc) as Hok.
  assert (main_chain l (Number_u64 (es_Header hd)) (lc_head l)) as Hself by exact (at_height_self _ _ _ hd Hhd).
  assert (run (GetCurrentHeader c) (m, s) = (Ok hd, (m, s))) as Hcur.
  { unfold GetCurrentHeader. rewrite (run_bind_ok _ _ _ _ _ (run_GetCurrentHeaderHeight m s c _ Hrg Hh)).
    apply (run_GetHeaderByHeight m s c (lc_tree l) C (Number_u64 (es_Header hd)) _ (lc_head l)); try done; [destruct Hrg; lia|by apply HC]. }
  rewrite (run_bind_ok _ _ _ _ _ Hcur) in Hbest. injection Hbest as <-. destruct Hrg as [Hh0 Hh1].
  rewrite (uwrap_small 32 (Number_u64 (es_Header hd))) in Hle, Hw by (split; lia).
  apply run_bind_inv in Hhead as (x & st & Hget & Hret). injection Hret as <- ->.
  assert (∃ a, C (ep_Height params) = Some a) as [a Ha].
  { destruct (C (ep_Height params)) as [a|] eqn:Ea; [by exists a|]. exfalso. unfold eth_GetHeaderByHeight in Hget.
    rewrite (run_bind_ok _ _ _ _ _ (run_GetCurrentHeaderHeight m s c _ (Number_u64_range (es_Header hd)) Hh)) in Hget. apply run_guard_bind in Hget as [_ Hget].
    erewrite run_bind_ok in Hget by (by apply run_cwrap_ok, run_cget). rewrite (Hm (ep_Height params)), Ea in Hget by lia. discriminate. }
  assert (main_chain l (ep_Height params) a) as Hma by (by apply HC). destruct Hma as [Hanc (y & Hy & Ey)].
  rewrite (run_GetHeaderByHeight m s c (lc_tree l) C (Number_u64 (es_Header hd)) (ep_Height params) a y) in Hget by (done || (split; lia)).
  injection Hget as <-. exists tx, sc, a, y. split_and!; try done.
  - by apply HC.
  - intros Hbw. rewrite (uwrap_small 64 (BlocksToWait sc - 1)) in Hw by (split; lia). rewrite !(uwrap_small 32) in Hw by (split; lia). lia.
  - unfold done_tx, kv_at. rewrite lookup_insert_eq. apply GenRawStorageItem_nonempty.
Qed.

End genesis.

(** ** A concrete chain

    Difficulty one, so that every hash is good enough; the mix digest is whatever the
    computation gives. *)

Definition ex_eth_ops (x : EthSum) : list sink_op := header_ops (es_Header x) ++ [OpVarBytes (le_put 48 (es_Sum x))].
Definition ex_read_eth : M ZeroCopySource EthSum :=
  header ← read_header; td ← read_big; mret (mkEthSum header td).

#[export] Program Instance ex_eth_ser : Serializable EthSum := {|
  Serialization := ex_eth_ops; Deserialization := ex_read_eth; ser_wf x := header_wf (es_Header x) ∧ 0 ≤ es_Sum x < 2 ^ 321;
|}.
Next Obligation.
  intros [h td] [Hh Htd]. unfold ex_eth_ops, ex_read_eth. cbn [es_Header es_Sum] in *.
  rewrite enc_ops_app. eapply decodes_bind; [exact (ser_roundtrip (Serializable := ex_header_ser) h Hh)|].
  rewrite enc_ops_cons, enc_ops_nil. eapply decodes_bind; [|apply decodes_ret].
  eapply decodes_map; [apply decodes_must, decodes_NextVarBytes|]. rewrite le_get_put_small; [done|]. split; lia.
Qed.
Next Obligation.
  unfold ex_read_eth. apply safe_bind; [exact (ser_safe (Serializable := ex_header_ser))|intros]. apply safe_bind; [apply safe_big|intros; apply safe_ret].
Qed.

#[export] Instance ex_eth_json : EthJson := {|
  eth_json_header := json_header;
  json_eth_sum b := deserialize (A := EthSum) b;
  marshal_eth_sum x := Ok (sink_bytes x);
|}.
#[export] Instance ex_eth_laws : EthLaws.
Proof.
  split; cbn [eth_json_header json_eth_sum marshal_eth_sum ex_eth_json].
  - apply json_header_wf.
  - intros x Hh Htd. exists (sink_bytes x). split; [done|]. assert (blen (sink_bytes x) < 2 ^ 63) as Hl.
    { unfold sink_bytes. cbn [Serialization ex_eth_ser]. unfold ex_eth_ops. rewrite enc_ops_app, length_app.
      pose proof (ops_le _ _ (header_ops_le _ Hh)) as H1. change (blen (header_ops (es_Header x))) with 16 in H1.
      rewrite enc_ops_cons, enc_ops_nil, app_nil_r. pose proof (varbytes_le (le_put 48 (es_Sum x))) as H2. rewrite length_le_put in H2. lia. }
    split; [done|]. by apply deserialize_sink.
Qed.

Definition ex_eth_root : EthHeader :=
  mkEthHeader EMPTY_HASH EMPTY_HASH (ex_validator 1) EMPTY_HASH EMPTY_HASH EMPTY_HASH (zero_array 256) 1 100 8000000 21000 1000 []
    EMPTY_HASH (zero_array 8) None.
Definition ex_eth_child (mix : Uint256) : EthHeader :=
  mkEthHeader (eth_Hash ex_eth_root) EMPTY_HASH (ex_validator 1) EMPTY_HASH EMPTY_HASH EMPTY_HASH (zero_array 256) 1 101 8000000 21000 1010 []
    mix (zero_array 8) None.

Lemma ex_eth_wf h : h = ex_eth_root ∨ (∃ mix, h = ex_eth_child mix) → header_wf_b h = true ∧ blen (sink_bytes h) < 2 ^ 63.
Proof.
  intros Hh. assert (header_wf_b h = true) as Hb by (destruct Hh as [->|[mix ->]]; reflexivity). split; [done|].
  unfold sink_bytes. cbn [Serialization ex_header_ser]. eapply Z.le_lt_trans; [apply (ops_le (2 ^ 41)), header_ops_le, header_wf_reflect, Hb|]. done.
Qed.

Lemma ex_eth_rules mix : verify_block ex_poa_cfg 2000 (ex_eth_child mix) ex_eth_root = Ok tt.
Proof. vm_compute. reflexivity. Qed.

(** Some digest makes the proof of work valid. *)
Lemma ex_eth_pow : ∃ mix, pow_valid 300 (ex_eth_child mix).
Proof.
  destruct (datasetSize_ok 300 101) as (size & Hsz & Hz); [unfold max_block; lia|].
  destruct (epoch_cache_ok 300 0) as (cache & n & Hca & Hrows & _); [lia|].
  set (seed := to_slice (Keccak512 (to_slice (HashHeader (ex_eth_child EMPTY_HASH)) ++ le_put 8 (be_get (to_slice (zero_array 8))))) : bytes).
  destruct (hashimoto_ok n cache size seed Hrows) as (ws & Hws & Hlen); [subst seed; apply length_to_slice|done|].
  exists (copy_array 32 (words_bytes ws)), size, cache. split; [exact Hsz|]. split; [exact Hca|].
  unfold verify_pow. rewrite decide_False by (destruct Hrows as [Hn [Hl _]]; lia).
  change (to_slice (Keccak512 _) : bytes) with seed. rewrite Hws. cbn [res_bind].
  rewrite decide_False by (intros Hne; apply Hne; apply to_slice_copy; rewrite length_words_bytes; lia).
  rewrite decide_False by done. rewrite decide_False; [done|].
  change (Z.quot two256 (Difficulty _)) with (2 ^ 256). intros Hlt. unfold be_get in Hlt.
  pose proof (le_get_range (reverse (to_slice (Keccak256 (seed ++ words_bytes ws))))) as [_ Hr]. rewrite length_reverse, length_to_slice in Hr. lia.
Qed.

Lemma ex_eth_state m : fresh m 2 → (∀ e, kv_at m (cache_key e) = []) →
  ∃ b, eth_state 300 (eth_genesis_store m 2 ex_eth_root b) 2 (eth_root ex_eth_root) (NewCaches 3).
Proof.
  intros Hfr Hca. destruct (putGenesis_run ex_poa_cfg m ex_sync_call 2 ex_eth_root Hfr) as (b & s' & _ & Hc).
  - apply header_wf_reflect. reflexivity.
  - reflexivity.
  - exists b. split; [done|]. split; [done|]. intros e He. left. unfold eth_genesis_store.
    rewrite !kv_at_insert, !decide_False by (key_ne). done.
Qed.

Lemma ex_sync_size mix : header_wf_b (ex_eth_child mix) = true →
  blen (sink_bytes (mkSyncBlockHeaderParam 2 ADDRESS_EMPTY [sink_bytes (ex_eth_child mix)])) < 2 ^ 63.
Proof.
  intros Hb. pose proof (ops_le _ _ (header_ops_le _ (header_wf_reflect _ Hb))) as H1. change (blen (header_ops (ex_eth_child mix))) with 16 in H1.
  change (sink_bytes (mkSyncBlockHeaderParam 2 ADDRESS_EMPTY [sink_bytes (ex_eth_child mix)]))
    with (enc_ops [OpUint64 2; OpAddress ADDRESS_EMPTY; OpUint64 1; OpVarBytes (sink_bytes (ex_eth_child mix))]).
  rewrite !enc_ops_cons, enc_ops_nil, app_nil_r, !length_app.
  pose proof (varbytes_le (sink_bytes (ex_eth_child mix))) as H2. change (sink_bytes (ex_eth_child mix)) with (enc_ops (header_ops (ex_eth_child mix))) in *.
  pose proof (u64_le 2). pose proof (u64_le 1). assert (blen (enc_op (OpAddress ADDRESS_EMPTY)) = 20) by reflexivity. lia.
Qed.

Lemma eth_sync_refines_witness : ∃ (mix : Uint256) m s m' s' l' caches,
  offers ex_poa_cfg 300 2000 (eth_root ex_eth_root) [sink_bytes (ex_eth_child mix)] l' ∧
  run (eth_SyncBlockHeader ex_poa_cfg 300 2000) (m, s) = (Ok tt, (m', s')) ∧ eth_state 300 m' 2 l' caches.
Proof.
  destruct ex_eth_pow as [mix Hpow]. exists mix.
  destruct (ex_eth_state ∅) as [b Hst]; [split; done|done|].
  set (params := mkSyncBlockHeaderParam 2 ADDRESS_EMPTY [sink_bytes (ex_eth_child mix)]).
  set (m := eth_genesis_store ∅ 2 ex_eth_root b) in *. set (s := ex_service 1 100 (sink_bytes params)).
  destruct (ex_eth_wf (ex_eth_child mix)) as [Hwf Hsmall]; [right; by exists mix|].
  assert (json_header (sink_bytes (ex_eth_child mix)) = Ok (ex_eth_child mix)) as Hj by (by apply ex_json).
  assert (∃ l', offers ex_poa_cfg 300 2000 (eth_root ex_eth_root) [sink_bytes (ex_eth_child mix)] l') as [l' Hos].
  { destruct (decide (eth_Hash (ex_eth_child mix) = eth_Hash ex_eth_root)) as [E|Hne].
    - eexists. eapply offers_cons; [|apply offers_nil]. eapply offer_known; [exact Hj|]. rewrite E. cbn [eth_root lc_single lc_tree]. by rewrite lookup_singleton_eq.
    - eexists. eapply offers_cons; [|apply offers_nil]. eapply offer_new with (p := mkEthSum ex_eth_root 1); [exact Hj| | |].
      + split; [by apply header_wf_reflect| |reflexivity|reflexivity|].
        * cbn [eth_root lc_single lc_tree]. by rewrite lookup_singleton_ne.
        * exists (mkEthSum ex_eth_root 1). split; [|reflexivity]. cbn [eth_root lc_single lc_tree]. apply lookup_singleton_eq.
      + cbn [eth_root lc_single lc_tree]. apply lookup_singleton_eq.
      + split; [apply ex_eth_rules|exact Hpow]. }
  assert (deserialize (ns_input s) = Ok params) as Hin.
  { apply (deserialize_sink params); [split; split; cbn; lia|]. by apply ex_sync_size. }
  assert (∀ v, v ∈ Headers params → below 200 v) as Hbelow.
  { intros v Hv%list_elem_of_singleton header Hjv. subst v. cbn [eth_json_header ex_eth_json] in Hjv. rewrite Hj in Hjv. injection Hjv as <-. by vm_compute. }
  assert (max_height (eth_root ex_eth_root) ≤ 200) as Hmax.
  { unfold max_height. cbn [eth_root lc_single lc_tree lc_head]. rewrite lookup_singleton_eq. by vm_compute. }
  destruct (proj2 (eth_sync_refines ex_poa_cfg 300 2000 2 200 ltac:(reflexivity) ltac:(reflexivity) m s (eth_root ex_eth_root) params Hin eq_refl Hst
    Hbelow Hmax) l' Hos) as (m' & s' & caches & Hrun & Hst').
  exists m, s, m', s', l', caches. split; [exact Hos|]. split; [exact Hrun|exact Hst'].
Defined.

