(* ===== verification/VbftMsg.v ===== *)
(** * Messages, the message pool and the timers of VBFT
    (consensus/vbft/msg_types.go, msg_pool.go, event_timer.go)

    A message is a Go interface that holds a pointer; a proposal is known by the
    location of its block in the heap of the block pool.  The message pool keeps the
    proposals, endorsements and commits that were received or made, by block number
    and without duplicates; each of its operations runs under its lock. *)

From S2P Require Import Prelude Sha256 TxRoot Sink Source Serialization BytesOrder MemDB OverlayDB CacheDB Contract MerkleUtil MerkleSpec MerkleHasher HashStore MerkleTree Native ExCrypto Codec Types Signature LedgerExec StateStore BlockStore BlockStoreSpec EventStore Ledger LedgerSpec VbftNode VbftCommit VbftStore VbftPool.

(** ** msg_types.go *)

Definition BlockProposalMessage : Z := 0.
Definition BlockEndorseMessage : Z := 1.
Definition BlockCommitMessage : Z := 2.
Definition PeerHeartbeatMessage : Z := 4.
Definition BlockInfoFetchMessage : Z := 5.
Definition BlockInfoFetchRespMessage : Z := 6.
Definition ProposalFetchMessage : Z := 7.
Definition BlockFetchMessage : Z := 8.
Definition BlockFetchRespMessage : Z := 9.

Record peerHeartbeatMsg := mkHeartbeat {
  CommittedBlockNumber : Z;
  CommittedBlockHash : Uint256;
  CommittedBlockLeader : Z;
  hb_Endorsers : list bytes;
  hb_EndorsersSig : list bytes;
  ChainConfigView : Z;
}.
Record BlockInfo_ := mkBlockInfo_ { bi_BlockNum : Z; bi_Proposer : Z }.
Record BlockFetchRespMsg `{Crypto} := mkFetchResp { BlockNumber : Z; fr_BlockHash : Uint256; BlockData : option VBlock }.
Record proposalFetchMsg := mkProposalFetch { ProposerID : Z; pf_BlockNum : Z }.

Inductive ConsensusMsg `{Crypto} :=
  | MProposal (msg : blockProposalMsg)
  | MEndorse (msg : blockEndorseMsg)
  | MCommit (msg : blockCommitMsg)
  | MHeartbeat (msg : peerHeartbeatMsg)
  | MBlockInfoFetch (StartBlockNum : Z)
  | MBlockInfoFetchResp (Blocks : list BlockInfo_)
  | MProposalFetch (msg : proposalFetchMsg)
  | MBlockFetch (BlockNum : Z)
  | MBlockFetchResp (msg : BlockFetchRespMsg).

Section messages.
Context `{Crypto}.
Implicit Types (m : ConsensusMsg) (h : gmap loc VBlock).

Definition msg_Type m : Z :=
  match m with
  | MProposal _ => BlockProposalMessage
  | MEndorse _ => BlockEndorseMessage
  | MCommit _ => BlockCommitMessage
  | MHeartbeat _ => PeerHeartbeatMessage
  | MBlockInfoFetch _ => BlockInfoFetchMessage
  | MBlockInfoFetchResp _ => BlockInfoFetchRespMessage
  | MProposalFetch _ => ProposalFetchMessage
  | MBlockFetch _ => BlockFetchMessage
  | MBlockFetchResp _ => BlockFetchRespMessage
  end.
(** [None]: a pointer that leads nowhere. *)
Definition msg_GetBlockNum h m : option Z :=
  match m with
  | MProposal p => getBlockNum <$> h !! pm_Block p
  | MEndorse e => Some (em_BlockNum e)
  | MCommit c => Some (cm_BlockNum c)
  | _ => Some 0
  end.

(** [m == msg] for messages of the type [*blockProposalMsg], the only ones that are
    dropped. *)
Definition same_proposal m (p : blockProposalMsg) : bool :=
  match m with MProposal p' => bool_decide (pm_Block p' = pm_Block p) | _ => false end.

(** ** msg_pool.go *)

Record ConsensusRound := mkRound {
  cr_blockNum : Z;
  cr_msgs : gmap Z (list ConsensusMsg);              (* by type *)
  cr_msgHashs : gmap Uint256 ConsensusMsg;
}.
Record MsgPool := mkMsgPool { mp_historyLen : Z; rounds : gmap Z ConsensusRound }.
Implicit Types (r : ConsensusRound) (pool : MsgPool).

Definition newConsensusRound (num : Z) : ConsensusRound :=
  mkRound num {[ BlockProposalMessage := []; BlockEndorseMessage := []; BlockCommitMessage := [] ]} ∅.
Definition round_addMsg m (msgHash : Uint256) r : ConsensusRound :=
  match cr_msgHashs r !! msgHash with
  | Some _ => r
  | None =>
      mkRound (cr_blockNum r) (<[msg_Type m := default [] (cr_msgs r !! msg_Type m) ++ [m]]> (cr_msgs r)) (<[msgHash := m]> (cr_msgHashs r))
  end.
(** The hash of the message is the first one that is found. *)
Definition round_dropMsg (p : blockProposalMsg) r : ConsensusRound :=
  let msgs := default [] (cr_msgs r !! BlockProposalMessage) in
  match list_find (λ m, same_proposal m p = true) msgs with
  | None => r
  | Some (i, _) =>
      let hashes := match list_find (λ km, same_proposal km.2 p = true) (map_to_list (cr_msgHashs r)) with
                    | Some (_, (h, _)) => delete h (cr_msgHashs r)
                    | None => cr_msgHashs r
                    end in
      mkRound (cr_blockNum r) (<[BlockProposalMessage := take i msgs ++ drop (S i) msgs]> (cr_msgs r)) hashes
  end.
Definition round_hasMsg (msgHash : Uint256) r : bool := bool_decide (is_Some (cr_msgHashs r !! msgHash)).

Definition newMsgPool (historyLen : Z) : MsgPool := mkMsgPool historyLen ∅.
Definition mp_clean pool : MsgPool := mkMsgPool (mp_historyLen pool) ∅.
(** [current] is the server's block number, [blkNum] that of the message. *)
Definition mp_AddMsg (current blkNum : Z) m (msgHash : Uint256) pool : res unit * MsgPool :=
  if decide (u32 (current + mp_historyLen pool) < blkNum) then (Err "msg pool dropped msg for far future", pool) else
  let r := default (newConsensusRound blkNum) (rounds pool !! blkNum) in
  (Ok tt, mkMsgPool (mp_historyLen pool) (<[blkNum := round_addMsg m msgHash r]> (rounds pool))).
Definition mp_DropMsg (blkNum : Z) (p : blockProposalMsg) pool : MsgPool :=
  mkMsgPool (mp_historyLen pool) (alter (round_dropMsg p) blkNum (rounds pool)).
Definition mp_HasMsg (blkNum : Z) (msgHash : Uint256) pool : bool :=
  match rounds pool !! blkNum with Some r => round_hasMsg msgHash r | None => false end.
Definition mp_msgs (t blocknum : Z) pool : list ConsensusMsg :=
  match rounds pool !! blocknum with Some r => default [] (cr_msgs r !! t) | None => [] end.
Definition GetProposalMsgs : Z → MsgPool → list ConsensusMsg := mp_msgs BlockProposalMessage.
Definition GetEndorsementsMsgs : Z → MsgPool → list ConsensusMsg := mp_msgs BlockEndorseMessage.
Definition GetCommitMsgs : Z → MsgPool → list ConsensusMsg := mp_msgs BlockCommitMessage.
Definition mp_onBlockSealed (blockNum : Z) pool : MsgPool :=
  if decide (blockNum ≤ mp_historyLen pool) then pool else
  mkMsgPool (mp_historyLen pool) (filter (λ kr, ¬ kr.1 < blockNum - mp_historyLen pool) (rounds pool)).

(** *** Properties *)

Definition msg_in pool m : Prop := ∃ t n, m ∈ mp_msgs t n pool.

Lemma round_addMsg_in m hash r t m' :
  m' ∈ default [] (cr_msgs (round_addMsg m hash r) !! t) → m' ∈ default [] (cr_msgs r !! t) ∨ m' = m.
Proof.
  unfold round_addMsg. destruct (cr_msgHashs r !! hash); [by left|]. cbn. destruct (decide (msg_Type m = t)) as [<-|Hne].
  - rewrite lookup_insert_eq. cbn. rewrite elem_of_app, list_elem_of_singleton. tauto.
  - rewrite lookup_insert_ne by done. by left.
Qed.

Lemma mp_add_in cur n m hash pool m' : msg_in (mp_AddMsg cur n m hash pool).2 m' → msg_in pool m' ∨ m' = m.
Proof.
  unfold mp_AddMsg. case_decide; [by left|]. intros (t & k & Hin). unfold mp_msgs in Hin. cbn in Hin. destruct (decide (n = k)) as [<-|Hne].
  - rewrite lookup_insert_eq in Hin. apply round_addMsg_in in Hin as [Hin| ->]; [|by right]. left. exists t, n. unfold mp_msgs.
    destruct (rounds pool !! n) as [r|]; [done|]. exfalso. revert Hin. cbn [default from_option id newConsensusRound cr_msgs].
    rewrite !lookup_insert, lookup_singleton. repeat case_decide; by intros ?%not_elem_of_nil.
  - rewrite lookup_insert_ne in Hin by done. left. by exists t, k.
Qed.
Lemma mp_drop_in n p pool m : msg_in (mp_DropMsg n p pool) m → msg_in pool m.
Proof.
  intros (t & k & Hin). exists t, k. unfold mp_msgs in *. cbn in Hin. destruct (decide (n = k)) as [<-|Hne]; [|by rewrite lookup_alter_ne in Hin].
  rewrite lookup_alter_eq in Hin. destruct (rounds pool !! n) as [r|]; cbn in Hin; [|done]. revert Hin. unfold round_dropMsg.
  destruct (list_find _ _) as [[i m0]|]; [|done]. cbn. destruct (decide (BlockProposalMessage = t)) as [<-|]; [|by rewrite lookup_insert_ne].
  rewrite lookup_insert_eq. cbn. intros Hin. apply elem_of_app in Hin as [Hin|Hin].
  - apply elem_of_take in Hin as (j & Hj & _). by apply list_elem_of_lookup_2 in Hj.
  - rewrite <- (take_drop (S i) (default [] _)). apply elem_of_app. by right.
Qed.
Lemma mp_sealed_in n pool m : msg_in (mp_onBlockSealed n pool) m → msg_in pool m.
Proof.
  unfold mp_onBlockSealed. case_decide; [done|]. intros (t & k & Hin). exists t, k. unfold mp_msgs in *. cbn in Hin.
  destruct (filter _ _ !! k) as [r|] eqn:E; [|by apply not_elem_of_nil in Hin]. apply map_lookup_filter_Some in E as [E _]. by rewrite E.
Qed.

(** A message that was accepted is known, and is listed unless its hash was known
    before. *)
Lemma mp_add_has cur n m hash pool pool' :
  mp_AddMsg cur n m hash pool = (Ok tt, pool') →
  mp_HasMsg n hash pool' = true ∧ (mp_HasMsg n hash pool = false → m ∈ mp_msgs (msg_Type m) n pool').
Proof.
  unfold mp_AddMsg. case_decide; [done|]. intros [= <-]. unfold mp_HasMsg, mp_msgs. cbn. rewrite lookup_insert_eq. unfold round_hasMsg, round_addMsg.
  destruct (rounds pool !! n) as [r|]; cbn [default from_option id].
  - destruct (cr_msgHashs r !! hash) eqn:E; [by rewrite E, bool_decide_true|]. cbn.
    rewrite !lookup_insert_eq. split; [by apply bool_decide_true|]. intros _. cbn. apply elem_of_app. right. by apply list_elem_of_singleton.
  - cbn [newConsensusRound cr_msgHashs cr_msgs]. rewrite lookup_empty. cbn. rewrite !lookup_insert_eq. split; [by apply bool_decide_true|]. intros _.
    cbn. apply elem_of_app. right. by apply list_elem_of_singleton.
Qed.

End messages.

(** ** event_timer.go *)

Inductive TimerEventType :=
  | EventProposeBlockTimeout
  | EventProposalBackoff
  | EventRandomBackoff
  | EventPropose2ndBlockTimeout
  | EventEndorseBlockTimeout
  | EventEndorseEmptyBlockTimeout
  | EventCommitBlockTimeout
  | EventPeerHeartbeat
  | EventTxPool
  | EventTxBlockTimeout.
#[export] Instance TimerEventType_eq_dec : EqDecision TimerEventType.
Proof. solve_decision. Defined.
Record TimerEvent := mkTimerEvent { evtType : TimerEventType; te_blockNum : Z }.
#[export] Instance TimerEvent_eq_dec : EqDecision TimerEvent.
Proof. solve_decision. Defined.

(** The timers that run; [et_C] is the channel the server reads. *)
Record EventTimer := mkEventTimer { eventTimers : list TimerEvent; et_C : list TimerEvent }.
Definition startEventTimer (t : TimerEventType) (blockNum : Z) (self : EventTimer) : EventTimer :=
  mkEventTimer (mkTimerEvent t blockNum :: filter (.≠ mkTimerEvent t blockNum) (eventTimers self)) (et_C self).
Definition cancelEventTimer (t : TimerEventType) (blockNum : Z) (self : EventTimer) : EventTimer :=
  mkEventTimer (filter (.≠ mkTimerEvent t blockNum) (eventTimers self)) (et_C self).
Definition timer_onBlockSealed (blockNum : Z) (self : EventTimer) : EventTimer :=
  mkEventTimer (filter (λ e, te_blockNum e ≠ blockNum) (eventTimers self)) (et_C self).
Definition timer_stop (self : EventTimer) : EventTimer := mkEventTimer [] (et_C self).
(** [self.C <- evt]. *)
Definition post_event (e : TimerEvent) (self : EventTimer) : EventTimer := mkEventTimer (eventTimers self) (et_C self ++ [e]).
