(* ===== verification/Goroutine.v ===== *)
(** * Goroutines over a shared state

    A goroutine is a sequence of atomic steps on the shared state: the operations
    that run under a lock, reads, and sends to a channel.  Several goroutines run
    interleaved in any way.  [tsafe] is the condition under which a goroutine keeps an
    invariant whatever the others do in between, as long as they respect the relation
    [R]; it is checked step by step and composes along [mbind].  [assumed] is what is
    taken for granted of every state that a step starts from. *)

From S2P Require Import Prelude.

Inductive prog (S A : Type) :=
  | PRet (a : A)
  | PPanic                                            (* the node crashes *)
  | PAtomic (f : S → prog S A) (g : S → S).           (* what comes next, and the new state *)
Arguments PRet {S A}.
Arguments PPanic {S A}.
Arguments PAtomic {S A}.

Fixpoint pbind {S A B} (p : prog S A) (k : A → prog S B) : prog S B :=
  match p with
  | PRet a => k a
  | PPanic => PPanic
  | PAtomic f g => PAtomic (λ s, pbind (f s) k) g
  end.
#[export] Instance prog_ret {S} : MRet (prog S) := λ A a, PRet a.
#[export] Instance prog_bind {S} : MBind (prog S) := λ A B k p, pbind p k.

(** One step that gives a value. *)
Definition atomic {S A} (f : S → A * S) : prog S A := PAtomic (λ s, PRet (f s).1) (λ s, (f s).2).
Definition pread {S A} (f : S → A) : prog S A := atomic (λ s, (f s, s)).
Definition pupdate {S} (f : S → S) : prog S unit := atomic (λ s, (tt, f s)).
(** An operation of a component of the state; a panic is a crash, and what is left in
    memory is lost. *)
Definition pcall {S A} (m : M S A) : prog S (res A) :=
  PAtomic (λ s, match (m s).1 with Panic => PPanic | r => PRet r end) (λ s, match m s with (Panic, _) => s | (_, s') => s' end).
Definition pget {S A} (f : S → option A) : prog S A := PAtomic (λ s, match f s with Some a => PRet a | None => PPanic end) id.

Fixpoint pforeach {S A} (l : list A) (f : A → prog S unit) : prog S unit :=
  match l with
  | [] => PRet tt
  | a :: l => pbind (f a) (λ _, pforeach l f)
  end.
Fixpoint pfind {S A} (l : list A) (f : A → prog S bool) : prog S (option A) :=
  match l with
  | [] => PRet None
  | a :: l => pbind (f a) (λ b : bool, if b then PRet (Some a) else pfind l f)
  end.

(** ** Interleaving *)

(** The goroutines that run, and their next steps.  A goroutine that panics ends the
    node; here it only stops itself, which adds runs and removes none. *)
Inductive steps_to {S} : S * list (prog S unit) → S * list (prog S unit) → Prop :=
  | step_run s ps i f g : ps !! i = Some (PAtomic f g) → steps_to (s, ps) (g s, <[i := f s]> ps).

(** ** Safety *)

Section tsafe.
Context {S : Type} (Inv : S → Prop) (R : S → S → Prop) (assumed : S → Prop) `{!PreOrder R}.

Fixpoint tsafe {A} (p : prog S A) (Q : A → S → Prop) (s : S) : Prop :=
  match p with
  | PRet a => Q a s
  | PPanic => True
  | PAtomic f g => ∀ s', R s s' → Inv s' ∧ assumed s' → Inv (g s') ∧ R s' (g s') ∧ tsafe (f s') Q (g s')
  end.

Definition stable (P : S → Prop) : Prop := ∀ s s', R s s' → P s → P s'.

Lemma tsafe_bind {A B} (p : prog S A) (k : A → prog S B) (Q : B → S → Prop) s :
  tsafe p (λ a s, tsafe (k a) Q s) s → tsafe (p ≫= k) Q s.
Proof.
  change (p ≫= k) with (pbind p k). revert s. induction p as [a| |f IH g]; intros s; cbn; [done..|]. intros Hs s' HR Hi.
  destruct (Hs s' HR Hi) as (H1 & H2 & H3). auto.
Qed.
Lemma tsafe_later {A} (p : prog S A) (Q : A → S → Prop) s s' : (∀ a, stable (Q a)) → R s s' → tsafe p Q s → tsafe p Q s'.
Proof using Type*. intros HQ HR. destruct p as [a| |f g]; cbn; [by apply HQ|done|]. intros Hs s2 H2. apply Hs. by etrans. Qed.
Lemma tsafe_mono {A} (p : prog S A) (Q Q' : A → S → Prop) s : (∀ a s, Q a s → Q' a s) → tsafe p Q s → tsafe p Q' s.
Proof.
  intros HQ. revert s. induction p as [a| |f IH g]; intros s; cbn; [by apply HQ|done|]. intros Hs s' HR Hi.
  destruct (Hs s' HR Hi) as (H1 & H2 & H3). auto.
Qed.

(** What the other goroutines cannot change stays known. *)
Lemma tsafe_keep {A} (p : prog S A) (Q : A → S → Prop) (P : S → Prop) s : stable P → P s → tsafe p Q s → tsafe p (λ a s, Q a s ∧ P s) s.
Proof.
  intros HP. revert s. induction p as [a| |f IH g]; intros s Hs; cbn; [done..|]. intros Hp s' HR Hi.
  destruct (Hp s' HR Hi) as (H1 & H2 & H3). split_and!; [done..|]. apply IH; [|done]. eauto.
Qed.

(** A step that does not change the state. *)
Lemma tsafe_read {A B} (f : S → A) (k : A → prog S B) (Q : B → S → Prop) s :
  (∀ s', R s s' → Inv s' → tsafe (k (f s')) Q s') → tsafe (pread f ≫= k) Q s.
Proof using Type*. intros Hk. apply tsafe_bind. cbn. intros s' HR [Hi _]. split; [done|]. split; [reflexivity|]. by apply Hk. Qed.
Lemma tsafe_get {A B} (f : S → option A) (k : A → prog S B) (Q : B → S → Prop) s :
  (∀ s' a, R s s' → Inv s' → f s' = Some a → tsafe (k a) Q s') → tsafe (pget f ≫= k) Q s.
Proof using Type*.
  intros Hk. apply tsafe_bind. cbn. intros s' HR [Hi _]. split; [done|]. split; [reflexivity|]. destruct (f s') as [a|] eqn:E; cbn; [|done].
  by apply Hk.
Qed.
(** A step that changes it. *)
Lemma tsafe_update {B} (f : S → S) (k : unit → prog S B) (Q : B → S → Prop) s :
  (∀ s', R s s' → Inv s' → assumed s' → Inv (f s') ∧ R s' (f s') ∧ tsafe (k tt) Q (f s')) → tsafe (pupdate f ≫= k) Q s.
Proof. intros Hk. apply tsafe_bind. cbn. intros s' HR [Hi Ha]. by apply Hk. Qed.
Lemma tsafe_call {A B} (m : M S A) (k : res A → prog S B) (Q : B → S → Prop) s :
  (∀ s' r s'', R s s' → Inv s' → m s' = (r, s'') → r ≠ Panic → Inv s'' ∧ R s' s'' ∧ tsafe (k r) Q s'') → tsafe (pcall m ≫= k) Q s.
Proof using Type*.
  intros Hk. apply tsafe_bind. cbn. intros s' HR [Hi _]. destruct (m s') as [r s''] eqn:E. specialize (Hk _ _ _ HR Hi E).
  destruct r; cbn; [by apply Hk..|]. by split_and!.
Qed.

Lemma tsafe_foreach {A} (l : list A) (f : A → prog S unit) (P : S → Prop) s :
  stable P → P s → (∀ a s, a ∈ l → P s → tsafe (f a) (λ _, P) s) → tsafe (pforeach l f) (λ _, P) s.
Proof.
  intros HP. revert s. induction l as [|a l IH]; intros s Hs Hf; cbn; [done|]. change (pbind ?p ?k) with (p ≫= k). apply tsafe_bind.
  eapply tsafe_mono; [|apply Hf; [by left|done]]. intros ? s' Hs'. apply IH; [done|]. intros b s2 Hb. apply Hf. by right.
Qed.
Lemma tsafe_find {A} (l : list A) (f : A → prog S bool) (P : S → Prop) s :
  stable P → P s → (∀ a s, a ∈ l → P s → tsafe (f a) (λ _, P) s) →
  tsafe (pfind l f) (λ r s, P s ∧ ∀ a, r = Some a → a ∈ l) s.
Proof.
  intros HP. revert s. induction l as [|a l IH]; intros s Hs Hf; cbn; [done|]. change (pbind ?p ?k) with (p ≫= k). apply tsafe_bind.
  eapply tsafe_mono; [|apply Hf; [by left|done]]. intros b s' Hs'. cbn beta in Hs'. destruct b; cbn; [split; [done|]; intros ? [= ->]; by left|].
  eapply tsafe_mono; [|apply IH; [done|intros x s2 Hx; apply Hf; by right]]. cbn. intros r s2 [H1 H2]. split; [done|]. intros x Hx. right. by apply H2.
Qed.

(** Goroutines that are safe stay safe, in every interleaving. *)
Definition threads_safe (s : S) (ps : list (prog S unit)) : Prop := ∀ p, p ∈ ps → tsafe p (λ _ _, True) s.

Lemma threads_step s ps s' ps' :
  Inv s → assumed s → threads_safe s ps → steps_to (s, ps) (s', ps') → Inv s' ∧ R s s' ∧ threads_safe s' ps'.
Proof using Type*.
  intros Hi Ha Hps Hst. inversion Hst as [? ? i f g Hp]; subst. destruct (Hps _ (list_elem_of_lookup_2 _ _ _ Hp) s ltac:(reflexivity) (conj Hi Ha)) as (H1 & H2 & H3).
  split; [done|]. split; [done|]. intros q Hq. apply list_elem_of_lookup_1 in Hq as [j Hj].
  destruct (decide (i = j)) as [<-|Hne].
  - rewrite list_lookup_insert_eq in Hj by (by eapply lookup_lt_Some). injection Hj as <-. done.
  - rewrite list_lookup_insert_ne in Hj by done. eapply tsafe_later; [|exact H2|by eapply Hps, list_elem_of_lookup_2]. by intros _ ???.
Qed.
End tsafe.
