(* ===== verification/VbftServer.v ===== *)
(** * The VBFT server (consensus/vbft/service.go, msg_builder.go, node_utils.go)

    The goroutines of the server: the handlers of network messages, of the messages
    of the current round, of actions and of timers, and what the state machine and
    the syncer call.  They share the block pool, the message pool, the timers and the
    channels, and run interleaved: every operation that takes a lock, every read and
    every send is a step of its own (see Goroutine).

    The state of the peers, the state machine and the configuration change under the
    server's feet: they are part of [ServerEnv], which may change between any two
    steps.  Channels are unbounded, [sent] is everything that was put on the channel
    to the network.  How this node fills a proposal of its own (the transactions of
    the pool, the configuration, VRF and JSON) is the function [build_proposal]. *)

From S2P Require Import Prelude Sha256 TxRoot Sink Source Serialization BytesOrder MemDB OverlayDB CacheDB Contract MerkleUtil MerkleSpec MerkleHasher HashStore MerkleTree Native ExCrypto Codec Types Signature NodeStates NodeManager LedgerExec StateStore BlockStore BlockStoreSpec EventStore Ledger LedgerSpec VbftNode VbftCommit VbftStore VbftPool VbftState VbftMsg Goroutine.

Definition CAP_ACTION_CHANNEL : Z := 8.

(** ** Data *)

Inductive BftAction :=
  | MakeProposal (BlockNum : Z) (forEmpty : bool)
  | EndorseBlock (Proposal : blockProposalMsg) (forEmpty : bool)
  | CommitBlock (Proposal : blockProposalMsg) (forEmpty : bool)
  | SealBlock (Proposal : blockProposalMsg) (forEmpty : bool)
  | FastForward (BlockNum : Z)
  | ReBroadcast (BlockNum : Z).
Record SendMsgEvent `{Crypto} := mkSend { ToPeer : Z; sm_Msg : ConsensusMsg }.
Record SyncCheckReq `{Crypto} := mkSyncCheck { sc_msg : ConsensusMsg; sc_blockNum : Z }.

Arguments mkSend {_}.
Arguments mkSyncCheck {_}.

(** What the peer pool, the state machine, the clock and the transaction pool say at
    the moment, and the current configuration. *)
Record ServerEnv `{Crypto} := mkServerEnv {
  env_state : ServerState;
  env_isPeerAlive : Z → bool;
  env_isPeerActive : Z → bool;
  env_peerKey : Z → option PublicKey;
  env_config : ChainConfig;
  env_LastConfigBlockNum : Z;
  env_completedBlockNum : Z;
  env_now : Z;
  env_txsValid : bool;                                (* the transactions of a proposal verify *)
  env_hasTxs : bool;
}.

Record Server `{Crypto} `{Rand} (DB : Type) := mkServer {
  sv_Index : Z;
  currentBlockNum : Z;
  currentParticipantConfig : BlockParticipantConfig;
  blockPool : BlockPool DB;
  msgPool : MsgPool;
  sv_timer : EventTimer;
  msgC : list ConsensusMsg;
  bftActionC : list BftAction;
  sent : list SendMsgEvent;                           (* [msgSendC], latest first *)
  syncCheckReqC : list SyncCheckReq;                  (* to the syncer, latest first *)
  syncMsgC : list (Z * ConsensusMsg);
  resyncs : list Z;                                   (* calls of [checkStartSyncing], forced *)
  heartbeats : list (Z * peerHeartbeatMsg);           (* to the peer pool and the state machine *)
  sv_env : ServerEnv;
}.
Arguments mkServer {_ _ DB}.
Arguments sv_Index {_ _ DB}.
Arguments currentBlockNum {_ _ DB}.
Arguments currentParticipantConfig {_ _ DB}.
Arguments blockPool {_ _ DB}.
Arguments msgPool {_ _ DB}.
Arguments sv_timer {_ _ DB}.
Arguments msgC {_ _ DB}.
Arguments bftActionC {_ _ DB}.
Arguments sent {_ _ DB}.
Arguments syncCheckReqC {_ _ DB}.
Arguments syncMsgC {_ _ DB}.
Arguments resyncs {_ _ DB}.
Arguments heartbeats {_ _ DB}.
Arguments sv_env {_ _ DB}.

(** Signing with the account, hashes of JSON texts, the VRF. *)
Class VbftAccount `{Crypto} := {
  acct_Sign : Uint256 → res bytes;
  HashMsg : gmap loc VBlock → ConsensusMsg → Uint256;
  config_Hash : ChainConfig → Uint256;
  verifyVrf : PublicKey → Z → bytes → bytes → bytes → bool;
}.

Section server.
Context `{Hasher} `{Crypto} `{Rand} `{!LedgerEnv} `{!VbftEnv} `{!PoolEnv} `{!VbftAccount} {DB : Type} `{!LedgerDB DB}.
Abbreviation SV := (Server DB).
Abbreviation SP := (prog SV).
Abbreviation PL := (BlockPool DB).
Abbreviation PM := (M PL).
Implicit Types s : SV.

Definition set_current (n : Z) s : SV := mkServer (sv_Index s) n (currentParticipantConfig s) (blockPool s) (msgPool s) (sv_timer s) (msgC s) (bftActionC s) (sent s) (syncCheckReqC s) (syncMsgC s) (resyncs s) (heartbeats s) (sv_env s).
Definition set_participants (c : BlockParticipantConfig) s : SV := mkServer (sv_Index s) (currentBlockNum s) c (blockPool s) (msgPool s) (sv_timer s) (msgC s) (bftActionC s) (sent s) (syncCheckReqC s) (syncMsgC s) (resyncs s) (heartbeats s) (sv_env s).
Definition set_pool (p : PL) s : SV := mkServer (sv_Index s) (currentBlockNum s) (currentParticipantConfig s) p (msgPool s) (sv_timer s) (msgC s) (bftActionC s) (sent s) (syncCheckReqC s) (syncMsgC s) (resyncs s) (heartbeats s) (sv_env s).
Definition set_msgPool (p : MsgPool) s : SV := mkServer (sv_Index s) (currentBlockNum s) (currentParticipantConfig s) (blockPool s) p (sv_timer s) (msgC s) (bftActionC s) (sent s) (syncCheckReqC s) (syncMsgC s) (resyncs s) (heartbeats s) (sv_env s).
Definition set_timer (t : EventTimer) s : SV := mkServer (sv_Index s) (currentBlockNum s) (currentParticipantConfig s) (blockPool s) (msgPool s) t (msgC s) (bftActionC s) (sent s) (syncCheckReqC s) (syncMsgC s) (resyncs s) (heartbeats s) (sv_env s).
Definition set_msgC (l : list ConsensusMsg) s : SV := mkServer (sv_Index s) (currentBlockNum s) (currentParticipantConfig s) (blockPool s) (msgPool s) (sv_timer s) l (bftActionC s) (sent s) (syncCheckReqC s) (syncMsgC s) (resyncs s) (heartbeats s) (sv_env s).
Definition set_actions (l : list BftAction) s : SV := mkServer (sv_Index s) (currentBlockNum s) (currentParticipantConfig s) (blockPool s) (msgPool s) (sv_timer s) (msgC s) l (sent s) (syncCheckReqC s) (syncMsgC s) (resyncs s) (heartbeats s) (sv_env s).
Definition set_sent (l : list SendMsgEvent) s : SV := mkServer (sv_Index s) (currentBlockNum s) (currentParticipantConfig s) (blockPool s) (msgPool s) (sv_timer s) (msgC s) (bftActionC s) l (syncCheckReqC s) (syncMsgC s) (resyncs s) (heartbeats s) (sv_env s).
Definition set_syncs (checks : list SyncCheckReq) (msgs : list (Z * ConsensusMsg)) (re : list Z) (hb : list (Z * peerHeartbeatMsg)) s : SV :=
  mkServer (sv_Index s) (currentBlockNum s) (currentParticipantConfig s) (blockPool s) (msgPool s) (sv_timer s) (msgC s) (bftActionC s) (sent s) checks msgs re hb (sv_env s).
Definition set_env (e : ServerEnv) s : SV := mkServer (sv_Index s) (currentBlockNum s) (currentParticipantConfig s) (blockPool s) (msgPool s) (sv_timer s) (msgC s) (bftActionC s) (sent s) (syncCheckReqC s) (syncMsgC s) (resyncs s) (heartbeats s) e.

(** ** Reading the server *)

Definition sv_config s : ChainConfig := env_config (sv_env s).
Definition sv_C s : Z := cc_C (sv_config s).
Definition sv_isProposer (peerIdx : Z) s : bool :=
  isProposer (env_isPeerAlive (sv_env s)) (sv_Index s) (isActive (env_state (sv_env s))) (currentParticipantConfig s) peerIdx.
Definition sv_is2ndProposer (blockNum peerIdx : Z) s : bool := is2ndProposer (sv_C s) (currentParticipantConfig s) blockNum peerIdx.
Definition sv_isEndorser (peerIdx : Z) s : bool := isEndorser (env_isPeerActive (sv_env s)) (sv_C s) (currentParticipantConfig s) peerIdx.
Definition sv_isCommitter (peerIdx : Z) s : bool := isCommitter (env_isPeerActive (sv_env s)) (sv_C s) (currentParticipantConfig s) peerIdx.
Definition GetCommittedBlockNo s : Z := chainedBlockNum (chainStore (blockPool s)).

(** The server as the block pool sees it. *)
Definition pool_env s : PoolEnv := {|
  srv_isEndorser := λ _ peerIdx, sv_isEndorser peerIdx s;
  GetPeerPubKey := env_peerKey (sv_env s);
  nil_key := nil_key;
  map_range := @map_range _ _;
  map_range_perm := @map_range_perm _ _;
|}.
Definition on_pool {A} (m : PoolEnv → PM A) : M SV A := λ s, let '(r, p) := m (pool_env s) (blockPool s) in (r, set_pool p s).
(** The block of a proposal. *)
Definition p_block (p : blockProposalMsg) : SP VBlock := pget (λ s, heap (blockPool s) !! pm_Block p).
Definition getState : SP ServerState := pread (λ s, env_state (sv_env s)).

(** ** Sending *)

Definition push_msg (m : ConsensusMsg) s : SV := set_msgC (msgC s ++ [m]) s.
Definition push_action (a : BftAction) s : SV := set_actions (bftActionC s ++ [a]) s.
Definition send (to : Z) (m : ConsensusMsg) s : SV := set_sent (mkSend to m :: sent s) s.
Definition on_timer (f : EventTimer → EventTimer) s : SV := set_timer (f (sv_timer s)) s.
Definition sync_check (m : ConsensusMsg) (n : Z) s : SV := set_syncs (mkSyncCheck m n :: syncCheckReqC s) (syncMsgC s) (resyncs s) (heartbeats s) s.

Definition processConsensusMsg (m : ConsensusMsg) : SP unit :=
  st ← getState;
  if isReady st then pupdate (push_msg m) else mret tt.
Definition broadcast (m : ConsensusMsg) : SP unit := pupdate (send MaxUint32 m).
Definition fetchProposal (blkNum proposer : Z) : SP unit := pupdate (send MaxUint32 (MProposalFetch (mkProposalFetch proposer blkNum))).
Definition restartSyncing : SP unit := pupdate (λ s, set_syncs (syncCheckReqC s) (syncMsgC s) (GetCommittedBlockNo s :: resyncs s) (heartbeats s) s).
Definition StartTimer (t : TimerEventType) (n : Z) : SP unit := pupdate (on_timer (startEventTimer t n)).
Definition CancelTimer (t : TimerEventType) (n : Z) : SP unit := pupdate (on_timer (cancelEventTimer t n)).

(** [self.msgPool.AddMsg(m, hash)]. *)
Definition AddMsg (m : ConsensusMsg) (hash : Uint256) : SP (res unit) := pcall (λ s,
  match msg_GetBlockNum (heap (blockPool s)) m with
  | None => (Panic, s)
  | Some n => let '(r, p) := mp_AddMsg (currentBlockNum s) n m hash (msgPool s) in (r, set_msgPool p s)
  end).
Definition add_own (m : ConsensusMsg) : SP unit :=
  h ← pread (λ s, HashMsg (heap (blockPool s)) m);
  AddMsg m h ;; mret tt.
Definition DropMsg (n : Z) (p : blockProposalMsg) : SP unit := pupdate (λ s, set_msgPool (mp_DropMsg n p (msgPool s)) s).

(** ** msg_builder.go *)

(** The block that is voted for. *)
Definition vote_target (blk : VBlock) (forEmpty : bool) : PM Block :=
  if forEmpty then match EmptyBlock blk with Some e => mret e | None => fail "proposal has no empty proposal" end
  else mret (vb_Block blk).

Definition constructEndorseMsg (index : Z) (proposal : blockProposalMsg) (forEmpty : bool) : PM blockEndorseMsg :=
  blk ← deref (pm_Block proposal);
  target ← vote_target blk forEmpty;
  proposerSig ← of_option (h_SigData (blk_Header target) !! 0%nat);
  blkHash ← of_res (Block_Hash target);
  endorserSig ← wrap_err "endorser failed to sign block" (of_res (acct_Sign blkHash));
  mret (mkEndorseMsg index (getProposer blk) (getBlockNum blk) blkHash forEmpty [] proposerSig endorserSig).

Definition constructCommitMsg (index : Z) (proposal : blockProposalMsg) (endorses : list blockEndorseMsg) (forEmpty : bool) : PM blockCommitMsg :=
  blk ← deref (pm_Block proposal);
  target ← vote_target blk forEmpty;
  proposerSig ← of_option (h_SigData (blk_Header target) !! 0%nat);
  blkHash ← of_res (Block_Hash target);
  committerSig ← wrap_err "endorser failed to sign block" (of_res (acct_Sign blkHash));
  let endorsersSig := foldl (λ m e, <[Endorser e := EndorserSig e]> m) (∅ : gmap Z bytes) endorses in
  mret (mkCommitMsg index (getProposer blk) (getBlockNum blk) blkHash forEmpty [] proposerSig endorsersSig committerSig).

Definition constructHeartbeatMsg : M SV (option peerHeartbeatMsg) :=
  s ← get_state;
  let blkNum := u32 (currentBlockNum s - 1) in
  '(block, blockhash) ← on_pool (λ _, getSealedBlock blkNum);
  match block with
  | None => mret None
  | Some block =>
      let h := blk_Header (vb_Block block) in
      let '(endorsers, sigs) := if decide (length (Bookkeepers h) = length (h_SigData h))
        then (SerializePublicKey <$> Bookkeepers h, h_SigData h) else ([], []) in
      mret (Some (mkHeartbeat blkNum blockhash (getProposer block) endorsers sigs (cc_View (sv_config s))))
  end.
Definition heartbeat : SP unit :=
  r ← pcall constructHeartbeatMsg;
  match r with Ok (Some m) => broadcast (MHeartbeat m) | _ => mret tt end.

(** ** Voting *)

Definition endorseBlock (proposal : blockProposalMsg) (forEmpty : bool) : SP (res unit) :=
  blk ← p_block proposal;
  index ← pread sv_Index;
  if decide (getProposer blk = index) then mret (Ok tt) else
  let blkNum := getBlockNum blk in
  endorsed ← pread (λ s, if forEmpty then endorsedForEmptyBlock blkNum (blockPool s) else endorsedForBlock blkNum (blockPool s));
  if (endorsed : bool) then mret (Ok tt) else
  forEmpty ← (if forEmpty then mret true else pread (λ s, @endorseFailed _ _ (pool_env s) _ blkNum (sv_C s) (blockPool s)));
  endorseMsg ← pcall (on_pool (λ _, constructEndorseMsg index proposal forEmpty));
  match endorseMsg with
  | Ok endorseMsg =>
      r ← pcall (on_pool (λ _, setProposalEndorsed proposal forEmpty));
      match r with
      | Ok _ =>
          processConsensusMsg (MEndorse endorseMsg) ;;
          mine ← (if (forEmpty : bool) then mret true else pread (sv_isEndorser index));
          if (mine : bool) then
            add_own (MEndorse endorseMsg) ;; broadcast (MEndorse endorseMsg) ;; mret (Ok tt)
          else
            StartTimer (if (forEmpty : bool) then EventEndorseEmptyBlockTimeout else EventEndorseBlockTimeout) blkNum ;; mret (Ok tt)
      | Err e => mret (Err ("failed to set proposal as endorsed: " +:+ e))
      | Panic => PPanic
      end
  | Err e => mret (Err ("failed to construct endorse msg: " +:+ e))
  | Panic => PPanic
  end.

Definition endorses_for (hash : Uint256) (forEmpty : bool) (msgs : list ConsensusMsg) : list blockEndorseMsg :=
  omap (λ m, match m with
             | MEndorse e => if decide (EndorsedBlockHash e = hash ∧ EndorseForEmpty e = forEmpty) then Some e else None
             | _ => None
             end) msgs.

Definition commitBlock (proposal : blockProposalMsg) (forEmpty : bool) : SP (res unit) :=
  blk ← p_block proposal;
  index ← pread sv_Index;
  if decide (getProposer blk = index) then mret (Ok tt) else
  let blkNum := getBlockNum blk in
  committed ← pread (λ s, committedForBlock blkNum (blockPool s));
  if (committed : bool) then mret (Ok tt) else
  blkHash ← pcall (on_pool (λ _, blk ← deref (pm_Block proposal); target ← vote_target blk forEmpty; of_res (Block_Hash target)));
  match blkHash with
  | Ok blkHash =>
      endorses ← pread (λ s, endorses_for blkHash forEmpty (GetEndorsementsMsgs blkNum (msgPool s)));
      commitMsg ← pcall (on_pool (λ _, constructCommitMsg index proposal endorses forEmpty));
      match commitMsg with
      | Ok commitMsg =>
          r ← pcall (on_pool (λ _, setProposalCommitted proposal forEmpty));
          match r with
          | Ok _ =>
              processConsensusMsg (MCommit commitMsg) ;;
              mine ← (if forEmpty then mret true else pread (sv_isCommitter index));
              if (mine : bool) then
                add_own (MCommit commitMsg) ;; broadcast (MCommit commitMsg) ;; mret (Ok tt)
              else StartTimer EventCommitBlockTimeout blkNum ;; mret (Ok tt)
          | Err e => mret (Err ("failed to set proposal as committed: " +:+ e))
          | Panic => PPanic
          end
      | Err e => mret (Err ("failed to construct commit msg: " +:+ e))
      | Panic => PPanic
      end
  | Err e => mret (Err e)
  | Panic => PPanic
  end.

Definition makeCommitment (proposal : blockProposalMsg) (forEmpty : bool) : SP (res unit) := commitBlock proposal forEmpty.

(** ** Proposals *)

(** The first proposal of the list whose proposer is [proposer]. *)
Definition proposal_of (proposer : Z) (ps : list blockProposalMsg) : SP (option blockProposalMsg) :=
  pfind ps (λ p, b ← p_block p; mret (bool_decide (getProposer b = proposer))).
Definition proposals_in (ms : list ConsensusMsg) : list blockProposalMsg := omap (λ m, match m with MProposal p => Some p | _ => None end) ms.
Definition commits_in (ms : list ConsensusMsg) : list blockCommitMsg := omap (λ m, match m with MCommit c => Some c | _ => None end) ms.
Definition endorses_in (ms : list ConsensusMsg) : list blockEndorseMsg := omap (λ m, match m with MEndorse e => Some e | _ => None end) ms.
Definition pool_proposals (n : Z) : SP (list blockProposalMsg) := pread (λ s, proposals_in (GetProposalMsgs n (msgPool s))).

Definition findBlockProposal (blkNum proposer : Z) : SP (option blockProposalMsg) :=
  ps ← pread (λ s, getBlockProposals blkNum (blockPool s));
  r ← proposal_of proposer ps;
  match r with
  | Some p => mret (Some p)
  | None => ms ← pool_proposals blkNum; proposal_of proposer ms
  end.

(** The proposals with their ranks; the last one of the smallest rank below the
    first bound wins. *)
Fixpoint highest_rank (blockNum : Z) (ps : list blockProposalMsg) (rank : Z) (best : option blockProposalMsg) : SP (option blockProposalMsg) :=
  match ps with
  | [] => mret best
  | p :: ps =>
      b ← p_block p;
      if decide (getBlockNum b ≠ blockNum) then highest_rank blockNum ps rank best else
      r ← pread (λ s, getProposerRankLocked (currentParticipantConfig s) blockNum (getProposer b));
      if decide (r < rank) then highest_rank blockNum ps r (Some p) else highest_rank blockNum ps rank best
  end.
Definition getHighestRankProposal (blockNum : Z) (ps : list blockProposalMsg) : SP (option blockProposalMsg) :=
  best ← highest_rank blockNum ps 10000 None;
  match best, ps with
  | None, _ :: _ => PPanic
  | _, _ => mret best
  end.

Definition verifyPrevBlockHash (blkNum : Z) (proposal : blockProposalMsg) : SP (res unit) :=
  r ← pcall (on_pool (λ _, getSealedBlock (u32 (blkNum - 1))));
  match r with
  | Ok (Some _, prevBlkHash) =>
      b ← p_block proposal;
      mret (if decide (prevBlkHash = PrevBlockHash (blk_Header (vb_Block b))) then Ok tt else Err "inconsistent prev-block hash")
  | _ => mret (Err "failed to get prevBlock of current round")
  end.

Definition makeSealed (proposal : blockProposalMsg) (forEmpty : bool) : SP (res unit) :=
  b ← p_block proposal;
  r ← verifyPrevBlockHash (getBlockNum b) proposal;
  match r with
  | Ok _ => pupdate (push_action (SealBlock proposal forEmpty)) ;; mret (Ok tt)
  | _ => restartSyncing ;; mret (Err "verify prev block hash failed")
  end.

(** The space that is left in the channel of actions. *)
Definition room_left s : bool := bool_decide (blen (bftActionC s) + 3 < CAP_ACTION_CHANNEL).
Definition makeFastForward : SP unit :=
  ok ← pread room_left;
  if (ok : bool) then n ← pread currentBlockNum; pupdate (push_action (FastForward n)) else mret tt.
Definition reBroadcastCurrentRoundMsgs : SP unit :=
  ok ← pread room_left;
  if (ok : bool) then n ← pread currentBlockNum; pupdate (push_action (ReBroadcast n)) else mret tt.

(** *** A proposal is checked *)

Definition COMMIT_DPOS : bytes := gs "commitDpos".
(** The code of [createGovernaceTransaction]. *)
Definition gov_code : bytes :=
  enc_ops (InvokeParam_Serialization (mkInvokeParam Byte.x00 NodeManagerContractAddress COMMIT_DPOS [])).
Definition checkNeedUpdateChainConfig (blockNum : Z) : SP bool :=
  r ← pcall (on_pool (λ _, getSealedBlock (u32 (blockNum - 1))));
  max ← pread (λ s, cc_MaxBlockChangeView (sv_config s));
  mret (match r with
        | Ok (Some prevBlk, _) => bool_decide (max ≤ u32 (blockNum - LastConfigBlockNum (vb_Info prevBlk)))
        | _ => false
        end).
Definition nonSystxs (sysTxs : list Transaction) (blkNum : Z) : SP bool :=
  need ← checkNeedUpdateChainConfig blkNum;
  match (need : bool), sysTxs with
  | true, [tx] => match Payload tx with Some code => mret (negb (bool_decide (code = gov_code))) | None => PPanic end
  | _, _ => mret true
  end.

Definition processProposalMsg (msg : blockProposalMsg) : SP unit :=
  b ← p_block msg;
  let msgBlkNum := getBlockNum b in
  r ← pcall (on_pool (λ _, getSealedBlock (u32 (msgBlkNum - 1))));
  match r with
  | Ok (Some blk, prevBlkHash) =>
      if decide (prevBlkHash ≠ PrevBlockHash (blk_Header (vb_Block b))) then DropMsg msgBlkNum msg else
      last ← pread (λ s, env_LastConfigBlockNum (sv_env s));
      if decide (last ≠ MaxUint32 ∧ LastConfigBlockNum (vb_Info blk) ≠ last) then mret tt else
      root ← pcall (on_pool (λ _, pool_getCrossStatesRoot (u32 (msgBlkNum - 1))));
      match root with
      | Ok root =>
          if decide (root ≠ CrossStateRoot (blk_Header (vb_Block b))) then mret tt else
          cfg ← pread sv_config;
          if match NewChainConfig (vb_Info blk) with Some c => bool_decide (config_Hash c ≠ config_Hash cfg) | None => false end
          then DropMsg msgBlkNum msg else
          now ← pread (λ s, env_now (sv_env s));
          let t := Timestamp (blk_Header (vb_Block b)) in
          if decide (t ≤ Timestamp (blk_Header (vb_Block blk)) ∨ u32 (now + 600) < t) then DropMsg msgBlkNum msg else
          pk ← pread (λ s, env_peerKey (sv_env s) (getProposer b));
          match pk with
          | None => DropMsg msgBlkNum msg
          | Some pk =>
              if negb (verifyVrf pk msgBlkNum (VrfValue (vb_Info blk)) (VrfValue (vb_Info b)) (VrfProof (vb_Info b))) then DropMsg msgBlkNum msg else
              let txs := Transactions (vb_Block b) in
              user ← (match txs with [] => mret false | _ => nonSystxs txs msgBlkNum end);
              if (user : bool) then
                ok ← pread (λ s, env_txsValid (sv_env s));
                if (ok : bool) then processConsensusMsg (MProposal msg) else mret tt
              else processConsensusMsg (MProposal msg)
          end
      | _ => mret tt
      end
  | _ => mret tt
  end.

(** *** A proposal of this node *)

Context (build_proposal : Z → bool → SV → res VBlock).

(** A new block in the heap. *)
Definition alloc (b : VBlock) s : blockProposalMsg * SV :=
  let l := fresh (dom (heap (blockPool s))) in
  (mkProposal l, set_pool (set_heap (<[l := b]> (heap (blockPool s))) (blockPool s)) s).
Definition construct_proposal (blkNum : Z) (forEmpty : bool) : M SV blockProposalMsg := λ s,
  match build_proposal blkNum forEmpty s with
  | Ok b => let '(p, s) := alloc b s in (Ok p, s)
  | Err e => (Err e, s)
  | Panic => (Panic, s)
  end.
Definition makeProposal (blkNum : Z) (forEmpty : bool) : SP (res unit) :=
  cur ← pread currentBlockNum;
  if decide (blkNum < cur) then mret (Err "ignore deprecatd blk proposal") else
  r ← pcall (construct_proposal blkNum forEmpty);
  match r with
  | Ok proposal =>
      add_own (MProposal proposal) ;; processProposalMsg proposal ;; broadcast (MProposal proposal) ;; mret (Ok tt)
  | Err e => mret (Err ("failed to construct proposal: " +:+ e))
  | Panic => PPanic
  end.

(** ** Rounds *)

(** The error of [buildParticipantConfig] is assigned to a variable of the [if]. *)
Definition updateParticipantConfig : SP (res unit) :=
  blkNum ← pread currentBlockNum;
  r ← pcall (on_pool (λ _, getSealedBlock (u32 (blkNum - 1))));
  match r with
  | Ok (Some block, _) =>
      pcall (λ s,
        match buildParticipantConfig blkNum block (default (sv_config s) (NewChainConfig (vb_Info block))) with
        | Ok cfg => (Ok tt, set_participants cfg s)
        | Err _ => (Ok tt, s)
        | Panic => (Panic, s)
        end)
  | _ => mret (Err "failed to get sealed block")
  end.

Definition add_proposal (p : blockProposalMsg) : SP (res unit) := pcall (on_pool (λ _, newBlockProposal p)).
Definition add_endorse (e : blockEndorseMsg) : SP (res unit) := pcall (on_pool (λ _, newBlockEndorsement e)).
Definition add_commit (c : blockCommitMsg) : SP (res unit) := pcall (on_pool (λ E, @newBlockCommitment _ _ E _ c)).
Definition commit_done (blkNum : Z) s : Z * bool * bool :=
  @commitDone _ _ (pool_env s) _ blkNum (sv_C s) (cc_N (sv_config s)) (blockPool s).
Definition endorse_done (blkNum : Z) s : Z * bool * bool := @endorseDone _ _ (pool_env s) _ blkNum (sv_C s) (blockPool s).
Definition endorse_failed (blkNum : Z) s : bool := @endorseFailed _ _ (pool_env s) _ blkNum (sv_C s) (blockPool s).

(** The proposals of the message pool: the leader's is returned, the others go to the
    block pool. *)
Fixpoint round_proposals (ps : list blockProposalMsg) (leader : option blockProposalMsg) : SP (option blockProposalMsg) :=
  match ps with
  | [] => mret leader
  | p :: ps =>
      b ← p_block p;
      first ← pread (sv_isProposer (getProposer b));
      if (first : bool) then round_proposals ps (Some p) else add_proposal p ;; round_proposals ps leader
  end.

Definition startNewRound : SP (res unit) :=
  blkNum ← pread currentBlockNum;
  r ← updateParticipantConfig;
  match r with
  | Ok _ =>
      ps ← pool_proposals blkNum;
      proposal ← round_proposals ps None;
      endorses ← pread (λ s, endorses_in (GetEndorsementsMsgs blkNum (msgPool s)));
      pforeach endorses (λ e, add_endorse e ;; mret tt) ;;
      commits ← pread (λ s, commits_in (GetCommitMsgs blkNum (msgPool s)));
      pforeach commits (λ c, add_commit c ;; mret tt) ;;
      '(_, _, cdone) ← pread (commit_done blkNum);
      match (cdone : bool), commits with
      | true, c :: _ => pcall (on_pool (λ _, setCommitDone blkNum)) ;; processConsensusMsg (MCommit c) ;; mret (Ok tt)
      | _, _ =>
          '(_, _, edone) ← pread (endorse_done blkNum);
          match (edone : bool), endorses, proposal with
          | true, e :: _, _ => processConsensusMsg (MEndorse e) ;; mret (Ok tt)
          | _, _, Some p => processProposalMsg p ;; mret (Ok tt)
          | _, _, None => StartTimer EventTxPool blkNum ;; StartTimer EventTxBlockTimeout blkNum ;; mret (Ok tt)
          end
      end
  | r => mret r
  end.

Definition startNewProposal (blkNum : Z) : SP unit :=
  index ← pread sv_Index;
  first ← pread (sv_isProposer index);
  (if (first : bool) then pupdate (push_action (MakeProposal blkNum false))
   else second ← pread (sv_is2ndProposer blkNum index); if (second : bool) then StartTimer EventProposalBackoff blkNum else mret tt) ;;
  StartTimer EventProposeBlockTimeout blkNum.

(** *** Sealing *)

Definition seal_timers (n : Z) : SP unit := pupdate (on_timer (timer_onBlockSealed n)).
Definition seal_msgs (n : Z) : SP unit := pupdate (λ s, set_msgPool (mp_onBlockSealed n (msgPool s)) s).
Definition seal_candidates (n : Z) : SP (res unit) := pcall (on_pool (λ _, pool_onBlockSealed n)).
Definition advance (n : Z) : SP unit := pupdate (λ s, if decide (currentBlockNum s ≤ n) then set_current (u32 (n + 1)) s else s).

Definition sealBlock (l : loc) (empty sigdata : bool) : SP (res unit) :=
  block ← p_block (mkProposal l);
  let sealedBlkNum := getBlockNum block in
  cur ← pread currentBlockNum;
  if decide (sealedBlkNum < cur) then mret (Ok tt) else
  cur ← pread currentBlockNum;
  if decide (cur < sealedBlkNum) then restartSyncing ;; mret (Err "future seal") else
  r ← pcall (on_pool (λ E, @setBlockSealed _ _ E _ _ l empty sigdata));
  match r with
  | Ok _ =>
      seal_timers sealedBlkNum ;;
      seal_msgs sealedBlkNum ;;
      seal_candidates sealedBlkNum ;;
      pcall (on_pool (λ _, getSealedBlock sealedBlkNum)) ;;
      advance sealedBlkNum ;;
      mret (Ok tt)
  | Err e => mret (Err ("failed to seal proposal: " +:+ e))
  | Panic => PPanic
  end.

(** The counts of [hasBlockConsensused]. *)
Fixpoint consensused (C : Z) (cs : list blockCommitMsg) (emptyCnt : Z) (proposers : gmap Z Z) : bool :=
  match cs with
  | [] => bool_decide (C < emptyCnt)
  | c :: cs =>
      let emptyCnt := if CommitForEmpty c then emptyCnt + 1 else emptyCnt in
      let proposers := bump proposers (BlockProposer c) in
      if decide (C < default 0 (proposers !! BlockProposer c)) then true else consensused C cs emptyCnt proposers
  end.
Definition hasBlockConsensused : SP bool :=
  blkNum ← pread currentBlockNum;
  C ← pread sv_C;
  cs ← pread (λ s, commits_in (GetCommitMsgs blkNum (msgPool s)));
  mret (consensused C cs 0 ∅).

Definition sealProposal (proposal : blockProposalMsg) (empty : bool) : SP unit :=
  r ← sealBlock (pm_Block proposal) empty true;
  match r with
  | Ok _ =>
      more ← hasBlockConsensused;
      if (more : bool) then makeFastForward else startNewRound ;; mret tt
  | _ => mret tt
  end.

(** A block of the syncer. *)
Definition fastForwardBlock (l : loc) : SP unit :=
  st ← getState;
  if isActive st then mret tt else
  block ← p_block (mkProposal l);
  cur ← pread currentBlockNum;
  if decide (getBlockNum block < cur) then mret tt else
  cur ← pread currentBlockNum;
  if decide (cur = getBlockNum block)
  then sealBlock l false (bool_decide (blen (h_SigData (blk_Header (vb_Block block))) ≤ 1)) ;; mret tt
  else mret tt.

(** ** Messages of the current round *)

Definition on_proposal (msg : blockProposalMsg) : SP unit :=
  b ← p_block msg;
  let msgBlkNum := getBlockNum b in
  cur ← pread currentBlockNum;
  if decide (msgBlkNum ≠ cur) then mret tt else
  r ← add_proposal msg;
  match r with
  | Ok _ =>
      index ← pread sv_Index;
      leader ← pread (sv_isProposer (getProposer b));
      if (leader : bool) then
        r ← verifyPrevBlockHash msgBlkNum msg;
        match r with
        | Ok _ =>
            CancelTimer EventProposeBlockTimeout msgBlkNum ;;
            mine ← pread (sv_isEndorser index);
            if (mine : bool) then endorseBlock msg false ;; mret tt else mret tt
        | _ => mret tt
        end
      else
        me ← pread (sv_isProposer index);
        if (me : bool) then
          ps ← pool_proposals msgBlkNum;
          own ← proposal_of index ps;
          match own with Some p => broadcast (MProposal p) | None => mret tt end
        else mret tt
  | _ => mret tt
  end.

Definition on_endorse (msg : blockEndorseMsg) : SP unit :=
  let msgBlkNum := em_BlockNum msg in
  cur ← pread currentBlockNum;
  if decide (msgBlkNum ≠ cur) then mret tt else
  index ← pread sv_Index;
  (if decide (em_EndorsedProposer msg ≠ index) then
     ps ← pool_proposals msgBlkNum;
     match ps with [] => fetchProposal msgBlkNum (em_EndorsedProposer msg) | _ => mret tt end
   else mret tt) ;;
  r ← add_endorse msg;
  match r with
  | Ok _ =>
      committed ← pread (λ s, committedForBlock msgBlkNum (blockPool s));
      if (committed : bool) then StartTimer EventCommitBlockTimeout msgBlkNum else
      endorser ← pread (sv_isEndorser (Endorser msg));
      r ← (if (endorser : bool) then
        '(proposer, forEmpty, done) ← pread (endorse_done msgBlkNum);
        if (done : bool) then
          CancelTimer EventEndorseBlockTimeout msgBlkNum ;;
          CancelTimer EventEndorseEmptyBlockTimeout msgBlkNum ;;
          proposal ← findBlockProposal msgBlkNum proposer;
          match proposal with
          | None => mret (Ok tt)
          | Some p => mine ← pread (sv_isCommitter index); if (mine : bool) then makeCommitment p forEmpty else mret (Ok tt)
          end
        else mret (Ok tt)
      else mret (Ok tt));
      match r with
      | Ok _ =>
          failed ← pread (endorse_failed msgBlkNum);
          if (failed : bool) then pupdate (on_timer (post_event (mkTimerEvent EventEndorseBlockTimeout msgBlkNum))) else mret tt
      | _ => mret tt
      end
  | _ => mret tt
  end.

Definition on_commit (msg : blockCommitMsg) : SP unit :=
  let msgBlkNum := cm_BlockNum msg in
  cur ← pread currentBlockNum;
  if decide (msgBlkNum ≠ cur) then mret tt else
  r ← add_commit msg;
  match r with
  | Ok _ =>
      '(proposer, forEmpty, done) ← pread (commit_done msgBlkNum);
      if (done : bool) then
        pcall (on_pool (λ _, setCommitDone msgBlkNum)) ;;
        proposal ← findBlockProposal msgBlkNum proposer;
        match proposal with
        | None => mret tt
        | Some p =>
            index ← pread sv_Index;
            mine ← pread (sv_isCommitter index);
            (if (mine : bool) then makeCommitment p forEmpty ;; mret tt else mret tt) ;;
            CancelTimer EventCommitBlockTimeout msgBlkNum ;;
            makeSealed p forEmpty ;; mret tt
        end
      else mret tt
  | _ => mret tt
  end.

Definition processMsgEvent (m : ConsensusMsg) : SP unit :=
  match m with
  | MProposal p => on_proposal p
  | MEndorse e => on_endorse e
  | MCommit c => on_commit c
  | _ => mret tt
  end.

(** *** Catching up with a round *)

Fixpoint by_proposer (ps : list blockProposalMsg) (acc : gmap Z blockProposalMsg) : SP (gmap Z blockProposalMsg) :=
  match ps with
  | [] => mret acc
  | p :: ps => b ← p_block p; by_proposer ps (<[getProposer b := p]> acc)
  end.
(** The proposer with the most endorsements, their number, and the empty ones. *)
Fixpoint most_endorsed (es : list blockEndorseMsg) (proposers : gmap Z Z) (maxProposer maxCnt emptyCnt : Z) : Z * Z * Z :=
  match es with
  | [] => (maxProposer, maxCnt, emptyCnt)
  | e :: es =>
      let emptyCnt := if EndorseForEmpty e then emptyCnt + 1 else emptyCnt in
      let p := em_EndorsedProposer e in
      let proposers := bump proposers p in
      let n := default 0 (proposers !! p) in
      if decide (maxCnt < n) then most_endorsed es proposers p n emptyCnt else most_endorsed es proposers maxProposer maxCnt emptyCnt
  end.
(** The largest count is never updated: the last commit decides. *)
Fixpoint most_committed (cs : list blockCommitMsg) (proposers : gmap Z Z) (maxProposer maxCnt emptyCnt : Z) : Z * Z :=
  match cs with
  | [] => (maxProposer, emptyCnt)
  | c :: cs =>
      let emptyCnt := if CommitForEmpty c then emptyCnt + 1 else emptyCnt in
      let p := BlockProposer c in
      let proposers := bump proposers p in
      if decide (maxCnt < default 0 (proposers !! p)) then most_committed cs proposers p maxCnt emptyCnt
      else most_committed cs proposers maxProposer maxCnt emptyCnt
  end.

Definition catchConsensus (blkNum : Z) : SP unit :=
  index ← pread sv_Index;
  endorser ← pread (sv_isEndorser index);
  committer ← pread (sv_isCommitter index);
  if negb endorser && negb committer then mret tt else
  ps ← pool_proposals blkNum;
  proposals ← by_proposer ps ∅;
  C ← pread sv_C;
  eMsgs ← pread (λ s, endorses_in (GetEndorsementsMsgs blkNum (msgPool s)));
  let '(proposal, endorseDone, endorseEmpty) :=
    if decide (C < blen eMsgs) then
      let '(maxProposer, maxCnt, emptyCnt) := most_endorsed eMsgs ∅ 0 0 0 in
      (proposals !! maxProposer, bool_decide (C < maxCnt ∨ C < emptyCnt), bool_decide (C < emptyCnt))
    else (None, false, false) in
  (match proposal with
   | Some p => b ← p_block p; leader ← pread (sv_isProposer (getProposer b)); if (leader : bool) then processProposalMsg p else mret tt
   | None => mret tt
   end) ;;
  endorser ← pread (sv_isEndorser index);
  match endorser && negb endorseDone, proposal with
  | true, Some p => endorseBlock p endorseEmpty ;; mret tt
  | _, _ =>
      if negb endorseDone then mret tt else
      committer ← pread (sv_isCommitter index);
      if negb committer then mret tt else
      cMsgs ← pread (λ s, commits_in (GetCommitMsgs blkNum (msgPool s)));
      let '(maxProposer, emptyCnt) := most_committed cMsgs ∅ 0 0 0 in
      match proposals !! maxProposer with
      | Some p => commitBlock p (bool_decide (0 < emptyCnt)) ;; mret tt
      | None => mret tt
      end
  end.

(** ** Timers *)

Definition handleProposalTimeout (evt : TimerEvent) : SP unit :=
  let n := te_blockNum evt in
  endorsed ← pread (λ s, endorsedForBlock n (blockPool s));
  if (endorsed : bool) then mret tt else
  st ← getState;
  if negb (isReady st) then mret tt else
  proposals ← pread (λ s, getBlockProposals n (blockPool s));
  index ← pread sv_Index;
  match proposals with
  | [] =>
      match evtType evt with
      | EventProposeBlockTimeout => StartTimer EventRandomBackoff n
      | EventRandomBackoff =>
          second ← pread (sv_is2ndProposer n index);
          if (second : bool) then
            r ← makeProposal n true;
            match r with Ok _ => StartTimer EventPropose2ndBlockTimeout n | _ => mret tt end
          else mret tt
      | EventPropose2ndBlockTimeout => restartSyncing
      | _ => PPanic
      end
  | _ =>
      if decide (evtType evt = EventRandomBackoff) then mret tt else
      proposal ← getHighestRankProposal n proposals;
      match proposal with
      | None => mret tt
      | Some p =>
          b ← p_block p;
          leader ← pread (sv_isProposer (getProposer b));
          if (leader : bool) then mret tt else pupdate (push_action (EndorseBlock p false))
      end
  end.

Definition endorse_timeout (n : Z) : SP unit :=
  committed ← pread (λ s, committedForBlock n (blockPool s));
  if (committed : bool) then mret tt else
  st ← getState;
  if negb (isReady st) then mret tt else
  '(proposer, forEmpty, done) ← pread (endorse_done n);
  if (done : bool) then
    proposal ← findBlockProposal n proposer;
    match proposal with
    | None => fetchProposal n proposer ;; StartTimer EventEndorseBlockTimeout n
    | Some p =>
        r ← verifyPrevBlockHash n p;
        match r with
        | Ok _ => makeCommitment p forEmpty ;; mret tt
        | _ => StartTimer EventEndorseBlockTimeout n
        end
    end
  else
    st ← getState;
    if negb (isActive st) then mret tt else
    endorsed ← pread (λ s, endorsedForEmptyBlock n (blockPool s));
    if (endorsed : bool) then mret tt else
    proposals ← pread (λ s, getBlockProposals n (blockPool s));
    match proposals with
    | [] => restartSyncing
    | _ =>
        proposal ← getHighestRankProposal n proposals;
        match proposal with Some p => endorseBlock p true ;; mret tt | None => mret tt end
    end.

Definition empty_timeout (n : Z) : SP unit :=
  committed ← pread (λ s, committedForBlock n (blockPool s));
  if (committed : bool) then mret tt else
  st ← getState;
  if negb (isReady st) then mret tt else
  '(proposer, forEmpty, done) ← pread (endorse_done n);
  if (done : bool) then
    proposal ← findBlockProposal n proposer;
    match proposal with
    | None => fetchProposal n proposer ;; StartTimer EventEndorseEmptyBlockTimeout n
    | Some p => makeCommitment p forEmpty ;; mret tt
    end
  else
    st ← getState;
    if isActive st then StartTimer EventEndorseEmptyBlockTimeout n else
    proposals ← pread (λ s, getBlockProposals n (blockPool s));
    proposal ← getHighestRankProposal n proposals;
    match proposal with Some p => endorseBlock p true ;; mret tt | None => mret tt end.

Definition commit_timeout (n : Z) : SP unit :=
  r ← pcall (on_pool (λ _, getSealedBlock n));
  match r with
  | Ok (Some _, _) => mret tt
  | _ =>
      st ← getState;
      if negb (isReady st) then mret tt else
      had ← pread (λ s, isCommitHadDone n (blockPool s));
      if (had : bool) then mret tt else
      '(proposer, forEmpty, done) ← pread (commit_done n);
      if (done : bool) then
        pcall (on_pool (λ _, setCommitDone n)) ;;
        proposal ← findBlockProposal n proposer;
        match proposal with
        | None => restartSyncing
        | Some p => makeSealed p forEmpty ;; mret tt
        end
      else restartSyncing
  end.

Definition processTimerEvent (evt : TimerEvent) : SP unit :=
  let n := te_blockNum evt in
  match evtType evt with
  | EventProposalBackoff =>
      endorsed ← pread (λ s, endorsedForBlock n (blockPool s));
      if (endorsed : bool) then mret tt else
      st ← getState;
      if negb (isReady st) then mret tt else
      proposals ← pread (λ s, getBlockProposals n (blockPool s));
      match proposals with
      | [] =>
          index ← pread sv_Index;
          second ← pread (sv_is2ndProposer n index);
          if (second : bool) then makeProposal n false ;; mret tt else mret tt
      | _ => mret tt
      end
  | EventProposeBlockTimeout | EventRandomBackoff | EventPropose2ndBlockTimeout => handleProposalTimeout evt
  | EventEndorseBlockTimeout => endorse_timeout n
  | EventEndorseEmptyBlockTimeout => empty_timeout n
  | EventCommitBlockTimeout => commit_timeout n
  | EventPeerHeartbeat => heartbeat
  | EventTxPool =>
      CancelTimer EventTxPool n ;;
      completed ← pread (λ s, env_completedBlockNum (sv_env s));
      if decide (u32 (completed + 1) = n) then
        txs ← pread (λ s, env_hasTxs (sv_env s));
        if (txs : bool) then CancelTimer EventTxBlockTimeout n ;; startNewProposal n else StartTimer EventTxPool n
      else StartTimer EventTxPool n
  | EventTxBlockTimeout => CancelTimer EventTxPool n ;; CancelTimer EventTxBlockTimeout n ;; startNewProposal n
  end.

(** ** Actions *)

Fixpoint add_commits (cs : list blockCommitMsg) : SP (list blockCommitMsg) :=
  match cs with
  | [] => mret []
  | c :: cs => r ← add_commit c; rest ← add_commits cs; mret (match r with Ok _ => c :: rest | _ => rest end)
  end.

(** [n] rounds of the loop; each one seals a block. *)
Fixpoint fast_forward (n : nat) : SP unit :=
  match n with
  | O => mret tt
  | S n =>
      blkNum ← pread currentBlockNum;
      C ← pread sv_C;
      N ← pread (λ s, cc_N (sv_config s));
      updateParticipantConfig ;;
      pMsgs ← pool_proposals blkNum;
      pforeach pMsgs (λ p, add_proposal p ;; mret tt) ;;
      cMsgs ← pread (λ s, commits_in (GetCommitMsgs blkNum (msgPool s)));
      commitMsgs ← add_commits cMsgs;
      match pMsgs, cMsgs with
      | [], [] => startNewRound ;; mret tt
      | _, _ =>
          let '(proposer, forEmpty) := getCommitConsensus commitMsgs C N in
          if decide (proposer = MaxUint32) then catchConsensus blkNum else
          proposal ← proposal_of proposer pMsgs;
          match proposal with
          | None => fetchProposal blkNum proposer ;; StartTimer EventCommitBlockTimeout blkNum
          | Some p =>
              r ← sealBlock (pm_Block p) forEmpty true;
              match r with Ok _ => fast_forward n | _ => mret tt end
          end
      end
  end.

(** This node's votes of the round are sent again. *)
Definition rebroadcast_endorses (blkNum index : Z) (proposals : list blockProposalMsg) : SP unit :=
  endorser ← pread (sv_isEndorser index);
  if (endorser : bool) then
    failed ← pread (endorse_failed blkNum);
    eMsgs ← pread (λ s, endorses_in (GetEndorsementsMsgs blkNum (msgPool s)));
    let mine := filter (λ e, Endorser e = index ∧ EndorseForEmpty e = failed) eMsgs in
    pforeach mine (λ e, broadcast (MEndorse e)) ;;
    match mine with
    | [] =>
        proposal ← getHighestRankProposal blkNum proposals;
        match proposal with Some p => endorseBlock p false ;; mret tt | None => mret tt end
    | _ => mret tt
    end
  else
    '(proposal, forEmpty) ← pread (λ s, getEndorsedProposal blkNum (blockPool s));
    match proposal with
    | None => mret tt
    | Some p =>
        r ← pcall (on_pool (λ _, constructEndorseMsg index p forEmpty));
        match r with Ok e => broadcast (MEndorse e) | _ => mret tt end
    end.
Definition rebroadcast_commits (blkNum index : Z) : SP unit :=
  committer ← pread (sv_isCommitter index);
  if (committer : bool) then
    cur ← pread currentBlockNum;
    cMsgs ← pread (λ s, commits_in (GetCommitMsgs cur (msgPool s)));
    let mine := filter (λ c, Committer c = index) cMsgs in
    pforeach mine (λ c, broadcast (MCommit c)) ;;
    match mine with
    | [] =>
        '(proposer, forEmpty, done) ← pread (endorse_done blkNum);
        if (done : bool) then
          proposal ← findBlockProposal blkNum proposer;
          match proposal with
          | None => fetchProposal blkNum proposer ;; StartTimer EventEndorseBlockTimeout blkNum
          | Some p => makeCommitment p forEmpty ;; mret tt
          end
        else
          failed ← pread (endorse_failed blkNum);
          if (failed : bool) then pupdate (on_timer (post_event (mkTimerEvent EventEndorseBlockTimeout blkNum))) else mret tt
    | _ => mret tt
    end
  else mret tt.

(** [fuel] bounds the blocks that one action seals. *)
Definition actionLoop (fuel : nat) (action : BftAction) : SP unit :=
  match action with
  | MakeProposal n forEmpty =>
      blkNum ← pread currentBlockNum;
      if decide (n < blkNum) then mret tt else
      index ← pread sv_Index;
      ps ← pool_proposals blkNum;
      own ← proposal_of index ps;
      match own with Some _ => mret tt | None => makeProposal blkNum forEmpty ;; mret tt end
  | EndorseBlock p forEmpty => endorseBlock p forEmpty ;; mret tt
  | CommitBlock p forEmpty => commitBlock p forEmpty ;; mret tt
  | SealBlock p forEmpty =>
      b ← p_block p;
      cur ← pread currentBlockNum;
      if decide (getBlockNum b < cur) then mret tt else sealProposal p forEmpty
  | FastForward _ => fast_forward fuel
  | ReBroadcast n =>
      blkNum ← pread currentBlockNum;
      if decide (n < blkNum) then mret tt else
      index ← pread sv_Index;
      proposals ← pool_proposals blkNum;
      pforeach proposals (λ p, b ← p_block p; if decide (getProposer b = index) then broadcast (MProposal p) else mret tt) ;;
      rebroadcast_endorses blkNum index proposals ;;
      rebroadcast_commits blkNum index
  end.

(** ** Messages of the network *)

Definition post_heartbeat (n : Z) : SP unit := pupdate (on_timer (post_event (mkTimerEvent EventPeerHeartbeat n))).

(** A proposal, endorsement or commit of [author]: one of a later round is kept, one
    of an earlier round may start the syncing check, one of the current round goes
    on to [process]. *)
Definition on_round_msg (m : ConsensusMsg) (msgHash : Uint256) (msgBlkNum author : Z) (process : SP unit) : SP unit :=
  cur ← pread currentBlockNum;
  if decide (cur < msgBlkNum) then
    r ← AddMsg m msgHash;
    match r with
    | Ok _ => st ← getState; if isReady st then cur ← pread currentBlockNum; pupdate (sync_check m cur) else mret tt
    | _ => mret tt
    end
  else
    cur ← pread currentBlockNum;
    if decide (msgBlkNum < cur) then
      committed ← pread GetCommittedBlockNo;
      if decide (msgBlkNum ≤ committed) then
        committed ← pread GetCommittedBlockNo;
        if decide (u32 (msgBlkNum + MAX_SYNCING_CHECK_BLK_NUM) < committed) then post_heartbeat author else mret tt
      else
        st ← getState; if isReady st then pupdate (sync_check m msgBlkNum) else mret tt
    else
      r ← AddMsg m msgHash;
      match r with Ok _ => process | _ => mret tt end.

(** The sealed blocks from [start] on, at most [n] and not above [target]. *)
Fixpoint block_infos (n : nat) (start target : Z) : SP (list BlockInfo_) :=
  match n with
  | O => mret []
  | S n =>
      if decide (target < start) then mret [] else
      r ← pcall (on_pool (λ _, getSealedBlock start));
      match r with
      | Ok (Some blk, _) => rest ← block_infos n (u32 (start + 1)) target; mret (mkBlockInfo_ start (getProposer blk) :: rest)
      | _ => mret []
      end
  end.

Definition onConsensusMsg (peerIdx : Z) (m : ConsensusMsg) (msgHash : Uint256) : SP unit :=
  n ← pget (λ s, msg_GetBlockNum (heap (blockPool s)) m);
  dup ← pread (λ s, mp_HasMsg n msgHash (msgPool s));
  if dup && negb (bool_decide (msg_Type m = BlockCommitMessage)) then mret tt else
  match m with
  | MProposal p => b ← p_block p; on_round_msg m msgHash (getBlockNum b) (getProposer b) (processProposalMsg p)
  | MEndorse e => on_round_msg m msgHash (em_BlockNum e) (Endorser e) (processConsensusMsg m)
  | MCommit c => on_round_msg m msgHash (cm_BlockNum c) (Committer c) (processConsensusMsg m)
  | MHeartbeat hb =>
      pupdate (λ s, set_syncs (syncCheckReqC s) (syncMsgC s) (resyncs s) ((peerIdx, hb) :: heartbeats s) s) ;;
      committed ← pread GetCommittedBlockNo;
      if decide (u32 (CommittedBlockNumber hb + MAX_SYNCING_CHECK_BLK_NUM) < committed) then post_heartbeat peerIdx else mret tt
  | MProposalFetch f =>
      index ← pread sv_Index;
      cur ← pread currentBlockNum;
      found ← (if decide (index = ProposerID f ∨ pf_BlockNum f = cur)
               then ps ← pool_proposals (pf_BlockNum f); proposal_of (ProposerID f) (reverse ps) else mret None);
      match found with
      | Some p => pupdate (send peerIdx (MProposal p))
      | None =>
          if decide (index = ProposerID f) then
            r ← pcall (on_pool (λ _, getSealedBlock (pf_BlockNum f)));
            match r with
            | Ok (Some blk, _) => p ← atomic (alloc blk); pupdate (send peerIdx (MProposal p))
            | _ => mret tt
            end
          else mret tt
      end
  | MBlockFetch n =>
      r ← pcall (on_pool (λ _, getSealedBlock n));
      match r with
      | Ok (blk, hash) => pupdate (send peerIdx (MBlockFetchResp (mkFetchResp _ n hash blk)))
      | _ => mret tt
      end
  | MBlockInfoFetch start =>
      target ← pread GetCommittedBlockNo;
      infos ← block_infos 64 start target;
      pupdate (send peerIdx (MBlockInfoFetchResp infos))
  | MBlockFetchResp _ | MBlockInfoFetchResp _ => pupdate (λ s, set_syncs (syncCheckReqC s) ((peerIdx, m) :: syncMsgC s) (resyncs s) (heartbeats s) s)
  end.

(** ** The node *)

(** A node: the shared state and the goroutines that run.  Goroutines start when a
    message arrives or is read from a channel; the syncer and the state machine call
    the server; timers fire; the environment changes.  The handlers of one loop, which
    run one after the other, may interleave here as well.  [peer_msg] are the
    messages that peers may send; a proposal carries any block. *)
Definition node : Type := SV * list (SP unit).

Inductive node_step (peer_msg : ConsensusMsg → Prop) : node → node → Prop :=
  | step_goroutine n n' : steps_to n n' → node_step peer_msg n n'
  | step_env s ps e : node_step peer_msg (s, ps) (set_env e s, ps)
  | step_fire s ps ev : ev ∈ eventTimers (sv_timer s) →
      node_step peer_msg (s, ps) (on_timer (post_event ev) (on_timer (cancelEventTimer (evtType ev) (te_blockNum ev)) s), ps)
  | step_receive s ps peer m hash :
      (∀ p, m ≠ MProposal p) → peer_msg m → node_step peer_msg (s, ps) (s, ps ++ [onConsensusMsg peer m hash])
  | step_receive_proposal s ps peer b hash :
      node_step peer_msg (s, ps) ((alloc b s).2, ps ++ [onConsensusMsg peer (MProposal (alloc b s).1) hash])
  | step_msg s ps m ms : msgC s = m :: ms → node_step peer_msg (s, ps) (set_msgC ms s, ps ++ [processMsgEvent m])
  | step_action s ps a acts fuel : bftActionC s = a :: acts → node_step peer_msg (s, ps) (set_actions acts s, ps ++ [actionLoop fuel a])
  | step_timer s ps ev evs : et_C (sv_timer s) = ev :: evs →
      node_step peer_msg (s, ps) (set_timer (mkEventTimer (eventTimers (sv_timer s)) evs) s, ps ++ [processTimerEvent ev])
  | step_sync s ps b : 
      node_step peer_msg (s, ps) ((alloc b s).2, ps ++ [fastForwardBlock (pm_Block (alloc b s).1)])
  | step_state s ps p : p ∈ [makeFastForward; reBroadcastCurrentRoundMsgs; startNewRound ;; mret tt] → node_step peer_msg (s, ps) (s, ps ++ [p]).

End server.
