(* ===== verification/VbftServerSpec.v ===== *)
(** * A node does not equivocate

    The votes that a VBFT node sends, in every interleaving of its goroutines: as long
    as the round of a block number is kept, every commit that this node sends for it is
    for the same block, and every endorsement of a block is for the same proposer.  The
    proof is a rely-guarantee argument (see Goroutine): each step of each goroutine keeps
    [Inv] and respects [later], whatever the others did since its last step. *)

From S2P Require Import Prelude Sha256 TxRoot Sink Source Serialization BytesOrder MemDB OverlayDB CacheDB Contract MerkleUtil MerkleSpec MerkleHasher HashStore MerkleTree Native ExCrypto Codec Types Signature NodeStates NodeManager LedgerExec StateStore BlockStore BlockStoreSpec EventStore Ledger StateSpec LedgerSpec LedgerChain VbftNode VbftCommit VbftStore VbftPool VbftPoolSpec VbftSeal VbftState VbftMsg Goroutine VbftServer.

(** ** Operations that keep a part of the state *)

Section fixes.
Context {S X : Type} (view : S → X).
#[local] Set Default Proof Using "Type*".

Definition fixes {A} (m : M S A) : Prop := ∀ s, view (m s).2 = view s.

Lemma fixes_bind {A B} (m : M S A) (k : A → M S B) : fixes m → (∀ a, fixes (k a)) → fixes (m ≫= k).
Proof.
  intros Hm Hk s. unfold mbind, M_bind. specialize (Hm s). destruct (m s) as [[a|e|] s1]; cbn in *; [by rewrite (Hk a s1)|done..].
Qed.
Lemma fixes_ret {A} (a : A) : fixes (mret a).
Proof. done. Qed.
Lemma fixes_fail {A} (e : string) : fixes (fail e : M S A).
Proof. done. Qed.
Lemma fixes_panic {A} : fixes (panic : M S A).
Proof. done. Qed.
Lemma fixes_get : fixes (get_state : M S S).
Proof. done. Qed.
Lemma fixes_option {A} (o : option A) : fixes (of_option o : M S A).
Proof. by destruct o. Qed.
Lemma fixes_res {A} (r : res A) : fixes (of_res r : M S A).
Proof. by destruct r. Qed.
Lemma fixes_wrap {A} (e : string) (m : M S A) : fixes m → fixes (wrap_err e m).
Proof. intros Hm s. specialize (Hm s). unfold wrap_err. destruct (m s) as [[] s1]; done. Qed.
End fixes.

Create HintDb fixes discriminated.
Create HintDb okp.
#[export] Hint Resolve fixes_ret fixes_fail fixes_panic fixes_get fixes_option fixes_res : fixes.

Ltac fixes_step :=
  match goal with
  | |- fixes _ (_ ≫= _) => apply fixes_bind; [|intros ?]
  | |- fixes _ (wrap_err _ _) => apply fixes_wrap
  | |- fixes _ (match ?x with _ => _ end) => destruct x
  | |- fixes _ (let '_ := ?x in _) => destruct x
  | |- fixes _ _ => solve [eauto with fixes]
  end.
Ltac fixes := repeat fixes_step.

Section equivocation.
Context `{Hasher} `{Crypto} `{Rand} `{!LedgerEnv} `{!VbftEnv} `{!PoolEnv} `{!VbftAccount} {DB : Type} `{!LedgerDB DB}.
Abbreviation SV := (Server DB).
Abbreviation SP := (prog SV).
Abbreviation PL := (BlockPool DB).
Abbreviation PM := (M PL).
Implicit Types (s : SV) (pool : PL).
#[local] Set Default Proof Using "Type*".

(** *** What the operations of the pool leave alone *)

Definition blocks_view pool : Z * gmap loc VBlock := (HistoryLen pool, heap pool).
Definition pool_view pool : Z * gmap loc VBlock * gmap Z CandidateInfo := (HistoryLen pool, heap pool, candidateBlocks pool).

Lemma fixes_store {A} (m : M (ChainStore DB) A) : fixes pool_view (on_store m).
Proof. intros pool. unfold on_store. by destruct (m _). Qed.
Lemma fixes_store_blocks {A} (m : M (ChainStore DB) A) : fixes blocks_view (on_store m).
Proof. intros pool. unfold on_store. by destruct (m _). Qed.
Lemma fixes_update n (f : CandidateInfo → CandidateInfo) : fixes blocks_view (update_candidate n f : PM unit).
Proof. done. Qed.
Lemma fixes_candidate n : fixes blocks_view (getCandidateInfoLocked n : PM CandidateInfo).
Proof. intros pool. by rewrite get_candidate_run. Qed.
Lemma fixes_deref {X} (view : PL → X) a : fixes view (deref a : PM VBlock).
Proof. unfold deref. fixes. Qed.
#[local] Hint Resolve fixes_store fixes_store_blocks fixes_update fixes_candidate fixes_deref : fixes.
Lemma fixes_dup {X} (view : PL → X) blk ps : fixes view (dup_proposal blk ps : PM (option bool)).
Proof. induction ps as [|p ps IH]; cbn [dup_proposal]; fixes. Qed.
#[local] Hint Resolve fixes_dup : fixes.
Lemma fixes_endorsement n k e b : fixes blocks_view (addBlockEndorsementLocked n k e b : PM unit).
Proof. unfold addBlockEndorsementLocked, put_sigs. fixes. Qed.
#[local] Hint Resolve fixes_endorsement : fixes.
Lemma fixes_endorsements msg l : fixes blocks_view (add_endorsements msg l : PM unit).
Proof. induction l as [|[k sig] l IH]; cbn [add_endorsements]; fixes. Qed.
#[local] Hint Resolve fixes_endorsements : fixes.
Lemma fixes_proposal msg : fixes blocks_view (newBlockProposal msg : PM unit).
Proof. unfold newBlockProposal. fixes. Qed.
Lemma fixes_commitment E msg : fixes blocks_view (@newBlockCommitment _ _ E _ msg : PM unit).
Proof.
  unfold newBlockCommitment. fixes.
Qed.
Lemma fixes_endorsed p b : fixes blocks_view (setProposalEndorsed p b : PM unit).
Proof. unfold setProposalEndorsed. fixes. Qed.
Lemma fixes_committed p b : fixes blocks_view (setProposalCommitted p b : PM unit).
Proof. unfold setProposalCommitted. fixes. Qed.

Lemma fixes_sealed n : fixes pool_view (getSealedBlock n : PM (option VBlock * Uint256)).
Proof.
  intros pool. unfold getSealedBlock.
  assert (∀ pool, pool_view (match on_store (cs_getBlock n) pool with
    | (Ok blk, pool) => (h ← of_res (Block_Hash (vb_Block blk)); mret (Some blk, h)) pool
    | (Err _, pool) => (Ok (None, EMPTY_HASH), pool)
    | (Panic, pool) => (Panic, pool)
    end : res (option VBlock * Uint256) * PL).2 = pool_view pool) as Hst.
  { clear pool. intros pool. rewrite <- (fixes_store (cs_getBlock n) pool). destruct (on_store (cs_getBlock n) pool) as [[blk|e|] pool1]; try done.
    cbn. apply (fixes_bind pool_view (of_res _)); [apply fixes_res|intros; apply fixes_ret]. }
  destruct (candidateBlocks pool !! n ≫= SealedBlock) as [b|]; [|apply Hst]. unfold mbind, M_bind, of_res.
  destruct (Block_Hash (vb_Block b)); try done. case_decide; [done|apply Hst].
Qed.
Lemma fixes_target {X} (view : PL → X) blk b : fixes view (vote_target blk b : PM Block).
Proof. unfold vote_target. fixes. Qed.
#[local] Hint Resolve fixes_target : fixes.
Lemma fixes_construct_endorse {X} (view : PL → X) i p b : fixes view (constructEndorseMsg i p b : PM blockEndorseMsg).
Proof. unfold constructEndorseMsg. fixes. Qed.
Lemma fixes_construct_commit {X} (view : PL → X) i p es b : fixes view (constructCommitMsg i p es b : PM blockCommitMsg).
Proof. unfold constructCommitMsg. fixes. Qed.

(** ** The invariant *)

Context (idx hist : Z).                               (* this node, and the length of the history *)

(** The same block up to its signatures. *)
Definition same_block (b b' : VBlock) : Prop :=
  getBlockNum b' = getBlockNum b ∧ getProposer b' = getProposer b ∧
  ∀ empty, Block_Hash <$> seal_target b' empty = Block_Hash <$> seal_target b empty.
Definition heap_le (h h' : gmap loc VBlock) : Prop := ∀ (a : loc) b, h !! a = Some b → ∃ b', h' !! a = Some b' ∧ same_block b b'.

Definition recent s (n : Z) : Prop := currentBlockNum s ≤ n + hist.
Definition vote_of (f : CandidateInfo → option blockProposalMsg) s (n : Z) : option blockProposalMsg := candidateBlocks (blockPool s) !! n ≫= f.
Definition committed_as s (n : Z) (empty : bool) : option blockProposalMsg := vote_of (if empty then CommittedEmptyProposal else CommittedProposal) s n.
Definition endorsed_as s (n : Z) (empty : bool) : option blockProposalMsg := vote_of (if empty then EndorsedEmptyProposal else EndorsedProposal) s n.
(** The block of the proposal, or its empty one, has this proposer and this hash. *)
Definition stands_for s (p : blockProposalMsg) (proposer : Z) (empty : bool) (hash : Uint256) : Prop :=
  ∃ b, heap (blockPool s) !! pm_Block p = Some b ∧ getProposer b = proposer ∧ Block_Hash <$> seal_target b empty = Some (Ok hash).
Definition proposed_by s (p : blockProposalMsg) (proposer : Z) : Prop := proposer_at (heap (blockPool s)) p = Some proposer.

Definition commit_backed s (c : blockCommitMsg) : Prop :=
  ∃ p, committed_as s (cm_BlockNum c) (CommitForEmpty c) = Some p ∧ stands_for s p (BlockProposer c) (CommitForEmpty c) (CommitBlockHash c).
Definition endorse_backed s (e : blockEndorseMsg) : Prop :=
  ∃ p, endorsed_as s (em_BlockNum e) (EndorseForEmpty e) = Some p ∧ proposed_by s p (em_EndorsedProposer e) ∧
  (EndorseForEmpty e = true → stands_for s p (em_EndorsedProposer e) true (EndorsedBlockHash e)).
(** A vote of this node in a round that is kept is backed by the block pool. *)
Definition own s (m : ConsensusMsg) : Prop :=
  match m with
  | MEndorse e => Endorser e = idx → recent s (em_BlockNum e) → endorse_backed s e
  | MCommit c => Committer c = idx → recent s (cm_BlockNum c) → commit_backed s c
  | _ => True
  end.

(** The chain has not run out of block numbers. *)
Definition short s : Prop := currentBlockNum s < MaxUint32.

Record Inv s : Prop := {
  iv_index : sv_Index s = idx;
  iv_history : HistoryLen (blockPool s) = hist;
  iv_pool : pool_ok (blockPool s);
  iv_current : 0 ≤ currentBlockNum s;
  iv_msgs : ∀ m, msg_in (msgPool s) m → own s m;
  iv_sent : ∀ e, e ∈ sent s → own s (sm_Msg e);
}.

(** What every step respects. *)
Record later s s' : Prop := {
  lt_current : currentBlockNum s ≤ currentBlockNum s';
  lt_heap : heap_le (heap (blockPool s)) (heap (blockPool s'));
  lt_cands : ∀ n c, recent s' n → candidateBlocks (blockPool s) !! n = Some c → ∃ c', candidateBlocks (blockPool s') !! n = Some c' ∧ cand_le c c';
}.

Lemma same_block_refl b : same_block b b.
Proof. done. Qed.
Lemma heap_le_refl h : heap_le h h.
Proof. intros a b E. by exists b. Qed.
#[local] Instance later_po : PreOrder later.
Proof.
  split.
  - intros s. split; [done|apply heap_le_refl|]. intros n c _ Hc. by exists c.
  - intros s1 s2 s3 [C1 P1 L1] [C2 P2 L2]. split; [lia| |].
    + intros a b Hb. destruct (P1 a b Hb) as (b2 & Hb2 & E1 & E2 & E3). destruct (P2 a b2 Hb2) as (b3 & Hb3 & F1 & F2 & F3).
      exists b3. split; [done|]. split_and!; [congruence..|]. intros empty. by rewrite F3, E3.
    + intros n c Hn Hc. assert (recent s2 n) as Hn2 by (unfold recent in *; lia). destruct (L1 n c Hn2 Hc) as (c2 & Hc2 & Hle).
      destruct (L2 n c2 Hn Hc2) as (c3 & Hc3 & Hle3). exists c3. split; [done|by etrans].
Qed.

Abbreviation stable := (Goroutine.stable later).

Lemma stands_for_stable p proposer empty hash : stable (λ s, stands_for s p proposer empty hash).
Proof. intros s s' HR (b & Hb & Hp & Hh). destruct (lt_heap _ _ HR _ _ Hb) as (b' & Hb' & _ & E2 & E3). exists b'. split_and!; [done|congruence|by rewrite E3]. Qed.
Lemma proposed_by_stable p proposer : stable (λ s, proposed_by s p proposer).
Proof.
  intros s s' HR Hp. unfold proposed_by, proposer_at in *. apply fmap_Some in Hp as (b & Hb & ->).
  destruct (lt_heap _ _ HR _ _ Hb) as (b' & -> & _ & E2 & _). cbn. by rewrite E2.
Qed.
Lemma numbered_at_stable n p : stable (λ s, block_at (heap (blockPool s)) n p).
Proof. intros s s' HR (b & Hb & Hn). destruct (lt_heap _ _ HR _ _ Hb) as (b' & Hb' & E & _). exists b'. split; [done|congruence]. Qed.

(** A field of the candidate that is never taken back. *)
Definition kept (f : CandidateInfo → option blockProposalMsg) : Prop := ∀ c c' p, cand_le c c' → f c = Some p → f c' = Some p.
Lemma kept_committed (empty : bool) : kept (if empty then CommittedEmptyProposal else CommittedProposal).
Proof. intros c c' p []. destruct empty; auto. Qed.
Lemma kept_endorsed (empty : bool) : kept (if empty then EndorsedEmptyProposal else EndorsedProposal).
Proof. intros c c' p []. destruct empty; auto. Qed.
Lemma vote_of_later f s s' n p : kept f → later s s' → recent s' n → vote_of f s n = Some p → vote_of f s' n = Some p.
Proof.
  intros Hf HR Hn Hv. unfold vote_of in *. apply bind_Some in Hv as (c & Hc & Hp). destruct (lt_cands _ _ HR n c Hn Hc) as (c' & -> & Hle). by apply (Hf c).
Qed.

Lemma own_stable m : stable (λ s, own s m).
Proof.
  intros s s' HR Hm. assert (∀ n, recent s' n → recent s n) as Hr. { intros n Hn. pose proof (lt_current _ _ HR). unfold recent in *. lia. }
  destruct m as [|e|c| | | | | |]; cbn in *; try done; intros Hi Hn.
  - destruct (Hm Hi (Hr _ Hn)) as (p & Hp & Hq & Hh). exists p. split_and!; [by eapply vote_of_later; [apply kept_endorsed|..]|by eapply proposed_by_stable|].
    intros He. by eapply stands_for_stable; [|apply Hh].
  - destruct (Hm Hi (Hr _ Hn)) as (p & Hp & Hh). exists p. split; [by eapply vote_of_later; [apply kept_committed|..]|by eapply stands_for_stable].
Qed.

(** ** Steps *)

(** The part of the server the invariant is about. *)
Definition core s : Z * Z * PL * MsgPool * list SendMsgEvent := (sv_Index s, currentBlockNum s, blockPool s, msgPool s, sent s).

Lemma core_ok s s' : core s' = core s → Inv s → Inv s' ∧ later s s'.
Proof.
  intros [= E1 E2 E3 E4 E5] [I1 I2 I3 I4 I5 I6]. assert (later s s') as HR.
  { split; rewrite E2 || rewrite E3; [done|apply heap_le_refl|]. intros n c _ Hc. by exists c. }
  split; [|done]. split; rewrite ?E1, ?E2, ?E3, ?E4, ?E5; try done; intros; eapply own_stable; eauto.
Qed.

(** An operation of the block pool that frees nothing. *)
Record good pool pool' : Prop := {
  gd_effect : effect pool pool';
  gd_heap : heap_le (heap pool) (heap pool');
  gd_history : HistoryLen pool' = HistoryLen pool;
}.

Lemma pool_ok_step s pool' : good (blockPool s) pool' → Inv s → Inv (set_pool pool' s) ∧ later s (set_pool pool' s).
Proof.
  intros [G1 G2 G3] [I1 I2 I3 I4 I5 I6]. assert (later s (set_pool pool' s)) as HR.
  { split; [done..|]. intros n c _ Hc. by eapply effect_le. }
  split; [|done]. split; cbn; [done|congruence|by eapply effect_ok|done|..]; intros; eapply own_stable; eauto.
Qed.

Lemma view_good {A} (m : PM A) pool r pool' :
  fixes blocks_view m → m pool = (r, pool') → effect pool pool' → good pool pool'.
Proof.
  intros Hf E He. specialize (Hf pool). rewrite E in Hf. injection Hf as E1 E2. split; rewrite ?E2; [done|apply heap_le_refl|done].
Qed.
Lemma quiet_good {A} (m : PM A) pool r pool' : fixes pool_view m → m pool = (r, pool') → good pool pool'.
Proof.
  intros Hf E. specialize (Hf pool). rewrite E in Hf. injection Hf as E1 E2 E3. split; rewrite ?E2; [|apply heap_le_refl|done].
  split; [rewrite E2; apply heap_ext_refl|by left].
Qed.

(** *** Goroutines that keep the invariant *)

Definition okp {A} (p : SP A) : Prop := ∀ s, tsafe Inv later short p (λ _ _, True) s.

Lemma okp_ret {A} (a : A) : okp (mret a).
Proof. done. Qed.
Lemma okp_panic {A} : okp (PPanic : SP A).
Proof. done. Qed.
Lemma okp_bind {A B} (p : SP A) (k : A → SP B) : okp p → (∀ a, okp (k a)) → okp (p ≫= k).
Proof. intros Hp Hk s. apply tsafe_bind. apply (tsafe_mono Inv later short _ (λ _ _, True)); [|apply Hp]. intros a s' _. apply Hk. Qed.
Lemma okp_read {A} (f : SV → A) : okp (pread f).
Proof. by intros s s' HR [Hi _]. Qed.
Lemma okp_get {A} (f : SV → option A) : okp (pget f).
Proof. intros s s' HR [Hi _]. split; [done|]. split; [reflexivity|]. by destruct (f s'). Qed.
Lemma okp_update f : (∀ s, core (f s) = core s) → okp (pupdate f).
Proof. intros Hf s s' HR [Hi _]. cbn. destruct (core_ok s' (f s') (Hf s') Hi). by split_and!. Qed.
Lemma okp_call {A} (m : M SV A) : (∀ s r s', Inv s → m s = (r, s') → r ≠ Panic → Inv s' ∧ later s s') → okp (pcall m).
Proof.
  intros Hm s s' HR [Hi _]. specialize (Hm s'). destruct (m s') as [r s2]; cbn. specialize (Hm r s2 Hi eq_refl).
  destruct r; cbn; [by destruct Hm..|]. split_and!; [done|reflexivity|done].
Qed.
Lemma okp_pool {A} (m : PoolEnv → PM A) :
  (∀ E pool r pool', pool_ok pool → m E pool = (r, pool') → r ≠ Panic → good pool pool') → okp (pcall (on_pool m)).
Proof.
  intros Hm. apply okp_call. intros s r s' Hi E Hr. unfold on_pool in E. destruct (m (pool_env s) (blockPool s)) as [r1 pool'] eqn:Em.
  injection E as <- <-. apply pool_ok_step; [|done]. exact (Hm _ _ _ _ (iv_pool s Hi) Em Hr).
Qed.
Lemma okp_quiet {A} (m : PoolEnv → PM A) : (∀ E, fixes pool_view (m E)) → okp (pcall (on_pool m)).
Proof. intros Hf. apply okp_pool. intros E pool r pool' _ Em _. by eapply quiet_good. Qed.
Lemma okp_foreach {A} (l : list A) (f : A → SP unit) : (∀ a, okp (f a)) → okp (pforeach l f).
Proof. intros Hf. induction l as [|a l IH]; [done|]. apply (okp_bind (f a)); [apply Hf|by intros]. Qed.
Lemma okp_find {A} (l : list A) (f : A → SP bool) : (∀ a, okp (f a)) → okp (pfind l f).
Proof. intros Hf. induction l as [|a l IH]; [done|]. apply (okp_bind (f a)); [apply Hf|]. by intros []. Qed.
(** With what is known and cannot change. *)
Lemma okp_keep {A} (p : SP A) (P : SV → Prop) s : okp p → stable P → P s → tsafe Inv later short p (λ _, P) s.
Proof. intros Hp HP Hs. apply (tsafe_mono Inv later short _ (λ _ s, True ∧ P s)); [|apply (tsafe_keep Inv later short p (λ _ _, True) P s HP Hs), Hp]. by intros a s' [_ ?]. Qed.
Lemma tsafe_seq {A B} (p : SP A) (k : A → SP B) (P : SV → Prop) Q s :
  okp p → stable P → P s → (∀ a s, P s → tsafe Inv later short (k a) Q s) → tsafe Inv later short (p ≫= k) Q s.
Proof.
  intros Hp HP Hs Hk. apply tsafe_bind. apply (tsafe_mono Inv later short p (λ _, P)); [|by apply okp_keep]. intros a s'. apply Hk.
Qed.

(** *** The operations of the pool *)

Lemma okp_proposal p : okp (add_proposal p : SP (res unit)).
Proof. apply okp_pool. intros E pool r pool' Hok Em Hr. eapply view_good; [apply fixes_proposal|done|]. by eapply newBlockProposal_effect. Qed.
Lemma okp_endorse e : okp (add_endorse e : SP (res unit)).
Proof. apply okp_pool. intros E pool r pool' Hok Em Hr. eapply view_good; [apply fixes_endorsement|done|]. by eapply add_endorsement_effect. Qed.
Lemma okp_commit c : okp (add_commit c : SP (res unit)).
Proof. apply okp_pool. intros E pool r pool' Hok Em Hr. eapply view_good; [apply fixes_commitment|done|]. by eapply newBlockCommitment_effect. Qed.
Lemma okp_commitDone n : okp (pcall (on_pool (λ _, setCommitDone n)) : SP (res unit)).
Proof. apply okp_pool. intros E pool r pool' Hok Em Hr. eapply view_good; [apply fixes_update|done|]. by eapply setCommitDone_effect. Qed.
Lemma okp_sealed n : okp (pcall (on_pool (λ _, getSealedBlock n)) : SP (res (option VBlock * Uint256))).
Proof. apply okp_quiet. intros E. apply fixes_sealed. Qed.
Lemma okp_root n : okp (pcall (on_pool (λ _, pool_getCrossStatesRoot n)) : SP (res Uint256)).
Proof. apply okp_quiet. intros E. apply fixes_store. Qed.

Lemma signed_block (E : PoolEnv) c block (forEmpty : bool) target sig :
  seal_target block forEmpty = Some target → same_block block (signed c block forEmpty target sig).
Proof.
  intros Ht. destruct (signed_same c block forEmpty target sig Ht) as [E1 E2]. split_and!; [done..|]. intros empty.
  unfold signed, seal_target in *. destruct forEmpty, empty; cbn; try done; [by rewrite Ht|by injection Ht as <-].
Qed.
Lemma setBlockSealed_good (E : PoolEnv) a (forEmpty sigdata : bool) pool r pool' :
  pool_ok pool → @setBlockSealed _ _ E _ _ a forEmpty sigdata pool = (r, pool') → r ≠ Panic → good pool pool'.
Proof.
  intros Hok Em Hr. pose proof (setBlockSealed_effect _ _ _ _ _ _ Hok Em Hr) as Heff.
  apply setBlockSealed_run in Em as (block & Hb & Hrun); [|done]. cbv zeta in Hrun.
  destruct Hrun as [[-> _]|(Hs & b & target & Ht & Er & Hsig)]; [split; try done; apply heap_le_refl|].
  assert (same_block block b) as Hsame.
  { destruct sigdata; [destruct Hsig as (t & sig & Et & _ & ->); by apply signed_block|subst b; apply same_block_refl]. }
  assert (pool' = (r, pool').2) as Ep by done. rewrite Er in Ep. split; [done| |]; rewrite Ep, ?seal_effect_heap.
  - intros a' b' Hb'. destruct (decide (a' = a)) as [->|]; [|rewrite lookup_insert_ne by done; by exists b'].
    rewrite lookup_insert_eq. exists b. by assert (b' = block) as -> by congruence.
  - unfold seal_effect, wrap_err, on_store. by destruct (cs_AddBlock _ _) as [[]].
Qed.

Lemma alloc_ok b s : Inv s → Inv (alloc b s).2 ∧ later s (alloc b s).2.
Proof.
  intros Hi. apply pool_ok_step; [|done]. set (l := fresh _). assert (heap (blockPool s) !! l = None) as Hl by (apply not_elem_of_dom, is_fresh).
  assert (∀ (a : loc) b', heap (blockPool s) !! a = Some b' → <[l := b]> (heap (blockPool s)) !! a = Some b') as Hk.
  { intros a b' Hb'. rewrite lookup_insert_ne by congruence. done. }
  split; cbn; try done.
  - split; [intros a b' Hb'; exists b'; split; [by apply Hk|done]|by left].
  - intros a b' Hb'. exists b'. split; [by apply Hk|apply same_block_refl].
Qed.

(** *** Messages *)

Lemma send_ok to m s : own s m → Inv s → Inv (send to m s) ∧ later s (send to m s).
Proof.
  intros Hm [I1 I2 I3 I4 I5 I6]. assert (later s (send to m s)) as HR by (split; [done|apply heap_le_refl|intros n c _ Hc; by exists c]).
  split; [|done]. split; cbn; [done..|]. intros e [->|He]%elem_of_cons; cbn; [by apply (own_stable m s)|]. apply (own_stable _ s); auto.
Qed.
Lemma send_safe to m s : own s m → tsafe Inv later short (pupdate (send to m)) (λ _ _, True) s.
Proof. intros Hm s' HR [Hi _]. cbn. destruct (send_ok to m s') as [? ?]; [by eapply own_stable|done|]. by split_and!. Qed.

Lemma msgs_ok s p : (∀ m, msg_in p m → own s m) → Inv s → Inv (set_msgPool p s) ∧ later s (set_msgPool p s).
Proof.
  intros Hp [I1 I2 I3 I4 I5 I6]. assert (later s (set_msgPool p s)) as HR by (split; [done|apply heap_le_refl|intros n c _ Hc; by exists c]).
  split; [|done]. split; cbn; try done; intros; apply (own_stable _ s); auto.
Qed.
Lemma AddMsg_safe m h s : own s m → tsafe Inv later short (AddMsg m h) (λ _ _, True) s.
Proof.
  intros Hm s' HR [Hi _]. assert (own s' m) as Hm' by by eapply own_stable. cbn.
  destruct (msg_GetBlockNum (heap (blockPool s')) m) as [n|]; cbn; [|by split_and!; [|reflexivity|]].
  pose proof (mp_add_in (currentBlockNum s') n m h (msgPool s')) as Hin. destruct (mp_AddMsg _ _ _ _ _) as [r p]; cbn in *.
  destruct (msgs_ok s' p) as [? ?]; [|done|destruct r; by split_and!; try reflexivity].
  intros m' Hm2. destruct (Hin m' Hm2) as [Hold| ->]; [by apply (iv_msgs s' Hi)|done].
Qed.
Lemma okp_drop n p : okp (DropMsg n p).
Proof.
  intros s s' HR [Hi _]. cbn. destruct (msgs_ok s' (mp_DropMsg n p (msgPool s'))) as [? ?]; [|done|by split_and!].
  intros m Hm%mp_drop_in. by apply (iv_msgs s' Hi).
Qed.
Lemma okp_seal_msgs n : okp (seal_msgs n).
Proof.
  intros s s' HR [Hi _]. cbn. destruct (msgs_ok s' (mp_onBlockSealed n (msgPool s'))) as [? ?]; [|done|by split_and!].
  intros m Hm%mp_sealed_in. by apply (iv_msgs s' Hi).
Qed.
(** A message that is not a vote of this node. *)
Definition foreign (m : ConsensusMsg) : Prop := ∀ s, own s m.
Lemma okp_send to m : foreign m → okp (pupdate (send to m)).
Proof. intros Hm s. by apply send_safe. Qed.
Lemma okp_AddMsg m h : foreign m → okp (AddMsg m h).
Proof. intros Hm s. by apply AddMsg_safe. Qed.

(** *** Handlers without votes *)

Lemma okp_block p : okp (p_block p : SP VBlock).
Proof. apply okp_get. Qed.
Lemma okp_state : okp (getState : SP ServerState).
Proof. apply okp_read. Qed.
Lemma okp_atomic b : okp (atomic (alloc b)).
Proof. intros s s' HR [Hi _]. cbn. destruct (alloc_ok b s' Hi). by split_and!. Qed.
#[local] Hint Resolve okp_ret okp_panic okp_read okp_get okp_block okp_state okp_proposal okp_endorse okp_commit okp_commitDone okp_sealed okp_root okp_drop okp_seal_msgs okp_atomic : okp.
#[local] Hint Extern 1 (okp (pupdate _)) => apply okp_update; done : okp.
#[local] Hint Extern 2 (okp (pupdate (send _ _))) => apply okp_send; done : okp.
#[local] Hint Extern 1 (okp (broadcast _)) => apply okp_send; done : okp.

Ltac okp_step :=
  match goal with
  | |- okp (_ ≫= _) => apply okp_bind; [|intros ?]
  | |- okp (pforeach _ _) => apply okp_foreach; intros ?
  | |- okp (pfind _ _) => apply okp_find; intros ?
  | |- okp (let '_ := ?x in _) => destruct x
  | |- okp (match ?x with _ => _ end) => destruct x
  | |- okp (match ?x with _ => _ end _) => destruct x
  | |- okp _ => solve [eauto with okp]
  end.
Ltac okp := repeat (cbv zeta; okp_step).

Lemma okp_process m : okp (processConsensusMsg m).
Proof. unfold processConsensusMsg. okp. Qed.
Lemma okp_fetch n p : okp (fetchProposal n p : SP unit).
Proof. unfold fetchProposal. okp. Qed.
Lemma okp_restart : okp (restartSyncing : SP unit).
Proof. unfold restartSyncing. okp. Qed.
Lemma okp_start t n : okp (StartTimer t n : SP unit).
Proof. unfold StartTimer. okp. Qed.
Lemma okp_cancel t n : okp (CancelTimer t n : SP unit).
Proof. unfold CancelTimer. okp. Qed.
Lemma okp_proposal_of n ps : okp (proposal_of n ps : SP (option blockProposalMsg)).
Proof. unfold proposal_of. okp. Qed.
Lemma okp_pool_proposals n : okp (pool_proposals n : SP (list blockProposalMsg)).
Proof. unfold pool_proposals. okp. Qed.
#[local] Hint Resolve okp_process okp_fetch okp_restart okp_start okp_cancel okp_proposal_of okp_pool_proposals : okp.
Lemma okp_findBlockProposal n p : okp (findBlockProposal n p : SP (option blockProposalMsg)).
Proof. unfold findBlockProposal. okp. Qed.
Lemma okp_highest n ps : okp (getHighestRankProposal n ps : SP (option blockProposalMsg)).
Proof.
  unfold getHighestRankProposal. assert (∀ rank best, okp (highest_rank n ps rank best : SP (option blockProposalMsg))) as Hh; [|okp].
  induction ps as [|p ps IH]; intros rank best; cbn [highest_rank]; okp.
Qed.
Lemma okp_verifyPrev n p : okp (verifyPrevBlockHash n p : SP (res unit)).
Proof. unfold verifyPrevBlockHash. okp. Qed.
#[local] Hint Resolve okp_findBlockProposal okp_highest okp_verifyPrev : okp.
Lemma okp_makeSealed p b : okp (makeSealed p b : SP (res unit)).
Proof. unfold makeSealed. okp. Qed.
Lemma okp_makeFastForward : okp (makeFastForward : SP unit).
Proof. unfold makeFastForward. okp. Qed.
Lemma okp_reBroadcast : okp (reBroadcastCurrentRoundMsgs : SP unit).
Proof. unfold reBroadcastCurrentRoundMsgs. okp. Qed.
Lemma okp_nonSystxs txs n : okp (nonSystxs txs n : SP bool).
Proof. unfold nonSystxs, checkNeedUpdateChainConfig. okp. Qed.
#[local] Hint Resolve okp_makeSealed okp_makeFastForward okp_reBroadcast okp_nonSystxs : okp.
Lemma okp_processProposal p : okp (processProposalMsg p : SP unit).
Proof. unfold processProposalMsg. okp. Qed.
Lemma okp_by_proposer ps acc : okp (by_proposer ps acc : SP (gmap Z blockProposalMsg)).
Proof. revert acc. induction ps as [|p ps IH]; intros acc; cbn [by_proposer]; okp. Qed.
Lemma okp_participants : okp (updateParticipantConfig : SP (res unit)).
Proof.
  unfold updateParticipantConfig. okp. apply okp_call. intros s r s' Hi E _. destruct (buildParticipantConfig _ _ _); injection E as _ <-; by apply core_ok.
Qed.
Lemma okp_round_proposals ps leader : okp (round_proposals ps leader : SP (option blockProposalMsg)).
Proof. revert leader. induction ps as [|p ps IH]; intros leader; cbn [round_proposals]; okp. Qed.
#[local] Hint Resolve okp_processProposal okp_by_proposer okp_participants okp_round_proposals : okp.
Lemma okp_startNewRound : okp (startNewRound : SP (res unit)).
Proof. unfold startNewRound. okp. Qed.
Lemma okp_startNewProposal n : okp (startNewProposal n : SP unit).
Proof. unfold startNewProposal. okp. Qed.
Lemma okp_heartbeat : okp (heartbeat : SP unit).
Proof.
  unfold heartbeat. okp. apply okp_call. intros s r s' Hi E _. unfold constructHeartbeatMsg in E. unfold mbind, M_bind, get_state, on_pool in E.
  destruct (getSealedBlock _ _) as [r1 pool'] eqn:Eg. destruct (pool_ok_step s pool'); [by eapply quiet_good; [apply fixes_sealed|]|done|].
  destruct r1 as [[[block|] hash]|e|]; [case_decide|..]; injection E as _ <-; done.
Qed.
Lemma okp_infos k start target : okp (block_infos k start target : SP (list BlockInfo_)).
Proof. revert start. induction k as [|k IH]; intros start; cbn [block_infos]; okp. Qed.
Lemma okp_consensused : okp (hasBlockConsensused : SP bool).
Proof. unfold hasBlockConsensused. okp. Qed.
Lemma okp_add_commits cs : okp (add_commits cs : SP (list blockCommitMsg)).
Proof. induction cs as [|c cs IH]; cbn [add_commits]; okp. Qed.
#[local] Hint Resolve okp_startNewRound okp_startNewProposal okp_heartbeat okp_infos okp_consensused okp_add_commits : okp.

(** *** Votes *)

(** What a vote says is true of the block it is for. *)
Ltac vote_run p pool empty :=
  let E := fresh in let b := fresh in
  unfold deref, vote_target, seal_target, mbind, M_bind, get_state, of_option, of_res, wrap_err;
  destruct (heap pool !! pm_Block p) as [b|]; [|done]; cbn; intros E;
  destruct empty; [destruct (EmptyBlock b) eqn:?; [|done]|];
  cbn in E; (destruct (_ !! 0%nat); [|done]); cbn in E; (destruct (Block_Hash _) eqn:?; [|done..]); cbn in E;
  (destruct (acct_Sign _); [|done..]); injection E as <- _; (split; [done|]); exists b; cbn; split_and!; try done;
  try (match goal with H : EmptyBlock _ = _ |- _ => rewrite H end; cbn); congruence.
Lemma construct_endorse_run i p (empty : bool) pool e pool' :
  constructEndorseMsg i p empty pool = (Ok e, pool') →
  EndorseForEmpty e = empty ∧ ∃ b, heap pool !! pm_Block p = Some b ∧ em_BlockNum e = getBlockNum b ∧ em_EndorsedProposer e = getProposer b ∧
  Block_Hash <$> seal_target b empty = Some (Ok (EndorsedBlockHash e)).
Proof.
  unfold constructEndorseMsg. vote_run p pool empty.
Qed.
Lemma construct_commit_run i p es (empty : bool) pool c pool' :
  constructCommitMsg i p es empty pool = (Ok c, pool') →
  CommitForEmpty c = empty ∧ ∃ b, heap pool !! pm_Block p = Some b ∧ cm_BlockNum c = getBlockNum b ∧ BlockProposer c = getProposer b ∧
  Block_Hash <$> seal_target b empty = Some (Ok (CommitBlockHash c)).
Proof.
  unfold constructCommitMsg. vote_run p pool empty.
Qed.

(** The proposal [p] is for block [n] of [proposer], and has this hash. *)
Definition described s p (n proposer : Z) (empty : bool) (hash : Uint256) : Prop :=
  block_at (heap (blockPool s)) n p ∧ stands_for s p proposer empty hash.
Lemma described_stable p n proposer empty hash : stable (λ s, described s p n proposer empty hash).
Proof. intros s s' HR [H6 H7]. split; [by eapply numbered_at_stable|by eapply stands_for_stable]. Qed.

Lemma committed_run s p (empty : bool) pool' :
  setProposalCommitted p empty (blockPool s) = (Ok tt, pool') →
  ∃ b, heap (blockPool s) !! pm_Block p = Some b ∧ committed_as (set_pool pool' s) (getBlockNum b) empty = Some p.
Proof.
  intros E. apply deref_inv in E as (b & Hb & E); [|done]. exists b. split; [done|]. cbv zeta in E. unfold mbind, M_bind, get_state in E.
  destruct (candidateBlocks (blockPool s) !! getBlockNum b) as [c|] eqn:Hc; [|done]. case_decide; [done|].
  unfold committed_as, vote_of. destruct empty; injection E as <-; cbn; by rewrite lookup_alter_eq, Hc.
Qed.
Lemma endorsed_run s p (empty : bool) pool' :
  setProposalEndorsed p empty (blockPool s) = (Ok tt, pool') →
  ∃ b q, heap (blockPool s) !! pm_Block p = Some b ∧ endorsed_as (set_pool pool' s) (getBlockNum b) empty = Some q ∧
  proposed_by s q (getProposer b) ∧ (empty = true → q = p).
Proof.
  intros E. apply deref_inv in E as (b & Hb & E); [|done]. exists b. cbv zeta in E. unfold mbind at 1, M_bind at 1, get_state in E.
  destruct (candidateBlocks (blockPool s) !! getBlockNum b) as [c|] eqn:Hc; [|done].
  assert (proposed_by s p (getProposer b)) as Hp by (unfold proposed_by, proposer_at; by rewrite Hb). unfold endorsed_as, vote_of.
  destruct empty; [destruct (EndorsedEmptyProposal c); [done|]|destruct (EndorsedProposal c) as [q|] eqn:Eq].
  - exists p. injection E as <-. cbn. by rewrite lookup_alter_eq, Hc.
  - apply deref_inv in E as (b' & Hb' & E); [|done]. case_decide as Hd; [|done]. injection E as <-. exists q. split_and!; [done| | |done].
    + cbn. by rewrite Hc.
    + unfold proposed_by, proposer_at. rewrite Hb'. cbn. by rewrite Hd.
  - exists p. injection E as <-. cbn. by rewrite lookup_alter_eq, Hc.
Qed.

(** A vote that is backed is stored and sent. *)
Lemma vote_tail m (mine : SP bool) t n s :
  okp mine → own s m →
  tsafe Inv later short (processConsensusMsg m ;; mine ← mine; if (mine : bool) then add_own m ;; broadcast m ;; mret (Ok tt) else StartTimer t n ;; mret (Ok tt))
    (λ (_ : res unit) _, True) s.
Proof.
  intros Hmine Hm. apply (tsafe_seq _ _ (λ s, own s m)); [apply okp_process|apply own_stable|done|]. intros _ s1 Hs1.
  apply (tsafe_seq _ _ (λ s, own s m)); [done|apply own_stable|done|]. intros [] s2 Hs2; [|apply okp_bind; [apply okp_start|done]].
  apply tsafe_bind. apply (tsafe_mono Inv later short _ (λ _ s, own s m)).
  { intros _ s3 Hs3. apply tsafe_bind. apply (tsafe_mono Inv later short _ (λ _ _, True)); [done|]. by apply send_safe. }
  unfold add_own. apply (tsafe_seq _ _ (λ s, own s m)); [apply okp_read|apply own_stable|done|]. intros h s3 Hs3.
  apply tsafe_bind. apply (tsafe_mono Inv later short _ (λ _ s, True ∧ own s m)); [by intros ? ? [_ ?]|].
  apply (tsafe_keep Inv later short _ (λ _ _, True)); [apply own_stable|done|]. by apply AddMsg_safe.
Qed.

(** A call of the pool that keeps what is known and tells something more. *)
Lemma tsafe_pool {A B} (m : PoolEnv → PM A) (k : res A → SP B) (P : SV → Prop) (F : res A → SV → Prop) Q s :
  (∀ E pool r pool', pool_ok pool → m E pool = (r, pool') → r ≠ Panic → good pool pool') → stable P → P s →
  (∀ s r pool', Inv s → P s → m (pool_env s) (blockPool s) = (r, pool') → r ≠ Panic → F r (set_pool pool' s)) →
  (∀ r s, Inv s → P s → F r s → tsafe Inv later short (k r) Q s) → tsafe Inv later short (pcall (on_pool m) ≫= k) Q s.
Proof.
  intros Hg HP Hs HF Hk. apply tsafe_call; [apply _|]. intros s' r s'' HR Hi E Hr. unfold on_pool in E.
  destruct (m (pool_env s') (blockPool s')) as [r1 pool'] eqn:Em. injection E as <- <-.
  destruct (pool_ok_step s' pool') as [Hi' HR']; [exact (Hg _ _ _ _ (iv_pool s' Hi) Em Hr)|done|]. split_and!; [done..|].
  apply Hk; [done|by eapply HP, HP|]. apply HF; [done|by eapply HP|done..].
Qed.

Lemma described_committed p c s :
  described s p (cm_BlockNum c) (BlockProposer c) (CommitForEmpty c) (CommitBlockHash c) →
  committed_as s (cm_BlockNum c) (CommitForEmpty c) = Some p → own s (MCommit c).
Proof. intros [_ Hd] Hp _ _. by exists p. Qed.
Lemma described_endorsed p q e s :
  described s p (em_BlockNum e) (em_EndorsedProposer e) (EndorseForEmpty e) (EndorsedBlockHash e) →
  endorsed_as s (em_BlockNum e) (EndorseForEmpty e) = Some q → proposed_by s q (em_EndorsedProposer e) → (EndorseForEmpty e = true → q = p) →
  own s (MEndorse e).
Proof. intros [_ Hd] Hq Hp Hsame _ _. exists q. split_and!; [done..|]. intros He. rewrite (Hsame He). by rewrite He in Hd. Qed.

Lemma okp_commitBlock p (empty : bool) : okp (commitBlock p empty : SP (res unit)).
Proof.
  unfold commitBlock. apply okp_bind; [apply okp_block|intros blk]. apply okp_bind; [apply okp_read|intros index]. case_decide; [done|]. cbv zeta.
  apply okp_bind; [apply okp_read|intros []]; [done|].
  apply okp_bind; [apply okp_quiet; intros E; fixes|]. intros [blkHash|?|]; [|done..].
  apply okp_bind; [apply okp_read|]. intros endorses s.
  apply (tsafe_pool _ _ (λ _, True) (λ r s, ∀ c, r = Ok c → CommitForEmpty c = empty ∧
    described s p (cm_BlockNum c) (BlockProposer c) (CommitForEmpty c) (CommitBlockHash c))); [|by intros ???|done| |].
  { intros E pool r pool' _ Em _. eapply quiet_good; [apply fixes_construct_commit|done]. }
  { intros s1 r pool' _ _ Em _ c ->. pose proof (fixes_construct_commit pool_view index p endorses empty (blockPool s1)) as Hf.
    rewrite Em in Hf. injection Hf as _ Eh _. apply construct_commit_run in Em as [Ee (b & Hb & En & Ep & Hh)]. split; [done|]. rewrite Ee.
    split; exists b; cbn; by rewrite Eh. }
  intros [c|?|] s1 _ _ HF; [|done..]. destruct (HF c eq_refl) as [Ee Hd].
  apply (tsafe_pool _ _ (λ s, described s p (cm_BlockNum c) (BlockProposer c) (CommitForEmpty c) (CommitBlockHash c))
    (λ r s, r = Ok tt → committed_as s (cm_BlockNum c) empty = Some p)); [|apply described_stable|done| |].
  { intros E pool r pool' Hok Em Hr. eapply view_good; [apply fixes_committed|done|]. by eapply setProposalCommitted_effect. }
  { intros s2 r pool' _ [(b1 & Hb1 & Hn) _] Em _ ->. apply committed_run in Em as (b & Hb & Hv). assert (b1 = b) as -> by congruence. by rewrite <- Hn. }
  intros [[]|?|] s2 _ Hd2 Hv; [|done..]. apply vote_tail; [by destruct empty; okp|].
  apply (described_committed p); [done|]. rewrite Ee. by apply Hv.
Qed.

Lemma construct_endorse_fact index p (empty : bool) s e pool' :
  constructEndorseMsg index p empty (blockPool s) = (Ok e, pool') →
  EndorseForEmpty e = empty ∧ described (set_pool pool' s) p (em_BlockNum e) (em_EndorsedProposer e) (EndorseForEmpty e) (EndorsedBlockHash e).
Proof.
  intros Em. pose proof (fixes_construct_endorse pool_view index p empty (blockPool s)) as Hf. rewrite Em in Hf. injection Hf as _ Eh _.
  apply construct_endorse_run in Em as [Ee (b & Hb & En & Ep & Hh)]. split; [done|]. rewrite Ee. split; exists b; cbn; by rewrite Eh.
Qed.

Lemma okp_endorseBlock p (empty : bool) : okp (endorseBlock p empty : SP (res unit)).
Proof.
  unfold endorseBlock. apply okp_bind; [apply okp_block|intros blk]. apply okp_bind; [apply okp_read|intros index]. case_decide; [done|]. cbv zeta.
  apply okp_bind; [apply okp_read|intros []]; [done|]. apply okp_bind; [okp|]. clear empty. intros empty s.
  apply (tsafe_pool _ _ (λ _, True) (λ r s, ∀ e, r = Ok e → EndorseForEmpty e = empty ∧
    described s p (em_BlockNum e) (em_EndorsedProposer e) (EndorseForEmpty e) (EndorsedBlockHash e))); [|by intros ???|done| |].
  { intros E pool r pool' _ Em _. eapply quiet_good; [apply fixes_construct_endorse|done]. }
  { intros s1 r pool' _ _ Em _ e ->. by eapply construct_endorse_fact. }
  intros [e|?|] s1 _ _ HF; [|done..]. destruct (HF e eq_refl) as [Ee Hd].
  apply (tsafe_pool _ _ (λ s, described s p (em_BlockNum e) (em_EndorsedProposer e) (EndorseForEmpty e) (EndorsedBlockHash e))
    (λ r s, r = Ok tt → own s (MEndorse e))); [|apply described_stable|done| |].
  { intros E pool r pool' Hok Em Hr. eapply view_good; [apply fixes_endorsed|done|]. by eapply setProposalEndorsed_effect. }
  { intros s2 r pool' Hi Hd2 Em _ ->. assert (good (blockPool s2) pool') as Hg.
    { eapply view_good; [apply fixes_endorsed|done|]. by eapply setProposalEndorsed_effect; [apply iv_pool|..]. }
    destruct (pool_ok_step s2 pool' Hg Hi) as [_ HR]. apply endorsed_run in Em as (b & q & Hb & Hv & Hp & Hq).
    destruct (Hd2) as [(b1 & Hb1 & Hn) (b2 & Hb2 & Hp2 & _)]. assert (b1 = b) as -> by congruence. assert (b2 = b) as -> by congruence.
    apply (described_endorsed p q); [by eapply described_stable| | |by rewrite Ee].
    - rewrite Ee, <- Hn. done.
    - rewrite <- Hp2. by eapply proposed_by_stable. }
  intros [[]|?|] s2 _ _ Hv; [|done..]. apply vote_tail; [by destruct empty; okp|by apply Hv].
Qed.
#[local] Hint Resolve okp_commitBlock okp_endorseBlock : okp.

(** The votes that the message pool holds are sent again. *)
Lemma broadcast_all {A} (l : list A) (f : A → ConsensusMsg) s (k : SP unit) :
  okp k → (∀ a, a ∈ l → own s (f a)) → tsafe Inv later short (pforeach l (λ a, broadcast (f a)) ;; k) (λ _ _, True) s.
Proof.
  intros Hk Hl. apply tsafe_bind. apply (tsafe_mono Inv later short _ (λ _ s, ∀ a, a ∈ l → own s (f a))); [intros _ s' _; apply Hk|].
  apply tsafe_foreach; [|done|].
  - intros s1 s2 HR Hs1 a Ha. eapply own_stable; [done|by apply Hs1].
  - intros a s1 Ha Hs1. apply (tsafe_mono Inv later short _ (λ _ s, True ∧ ∀ a, a ∈ l → own s (f a))); [by intros ? ? [_ ?]|].
    apply (tsafe_keep Inv later short _ (λ _ _, True)); [|done|by apply send_safe, Hs1].
    intros s2 s3 HR Hs2 a' Ha'. eapply own_stable; [done|by apply Hs2].
Qed.
Lemma in_endorses n mp e : e ∈ endorses_in (GetEndorsementsMsgs n mp) → msg_in mp (MEndorse e).
Proof. intros (m & Hm & E)%list_elem_of_omap. destruct m; try done. injection E as ->. by exists BlockEndorseMessage, n. Qed.
Lemma in_commits n mp c : c ∈ commits_in (GetCommitMsgs n mp) → msg_in mp (MCommit c).
Proof. intros (m & Hm & E)%list_elem_of_omap. destruct m; try done. injection E as ->. by exists BlockCommitMessage, n. Qed.

Lemma okp_rebroadcast_commits n index : okp (rebroadcast_commits n index : SP unit).
Proof.
  unfold rebroadcast_commits. apply okp_bind; [apply okp_read|intros []]; [|done]. apply okp_bind; [apply okp_read|]. intros cur s.
  apply tsafe_read; [apply _|]. intros s1 _ Hi. apply broadcast_all; [unfold makeCommitment; okp|].
  intros c [_ Hc%in_commits]%list_elem_of_filter. by apply (iv_msgs s1 Hi).
Qed.

(** What this node endorsed in a round that is kept. *)
Definition endorsed_in s n (empty : bool) p : Prop :=
  block_at (heap (blockPool s)) n p ∧ (recent s n → endorsed_as s n empty = Some p).
Lemma endorsed_in_stable n empty p : stable (λ s, endorsed_in s n empty p).
Proof.
  intros s s' HR [Hb Hv]. split; [by eapply numbered_at_stable|]. intros Hn. eapply vote_of_later; [apply kept_endorsed|done..|]. apply Hv.
  pose proof (lt_current _ _ HR). unfold recent in *. lia.
Qed.
Lemma getEndorsed_in s n p empty : Inv s → getEndorsedProposal n (blockPool s) = (Some p, empty) → endorsed_in s n empty p.
Proof.
  intros Hi E. unfold getEndorsedProposal in E. destruct (negb _); [done|]. destruct (candidateBlocks (blockPool s) !! n) as [c|] eqn:Hc; [|done].
  assert (∀ q, q ∈ votes c → block_at (heap (blockPool s)) n q) as Hv by exact (ck_votes _ _ _ (iv_pool s Hi n c Hc)). setoid_rewrite elem_of_votes in Hv.
  unfold endorsed_in, endorsed_as, vote_of. rewrite Hc. destruct (EndorsedEmptyProposal c) as [q|] eqn:E1; [injection E as -> <-|
    destruct (EndorsedProposal c) as [q|] eqn:E2; [injection E as -> <-|done]]; (split; [apply Hv; auto|done]).
Qed.

Lemma okp_rebroadcast_endorses n index ps : okp (rebroadcast_endorses n index ps : SP unit).
Proof.
  unfold rebroadcast_endorses. apply okp_bind; [apply okp_read|intros []].
  - apply okp_bind; [apply okp_read|]. intros failed s. apply tsafe_read; [apply _|]. intros s1 _ Hi. apply broadcast_all; [okp|].
    intros e [_ He%in_endorses]%list_elem_of_filter. by apply (iv_msgs s1 Hi).
  - intros s. apply tsafe_read; [apply _|]. intros s1 _ Hi. destruct (getEndorsedProposal n (blockPool s1)) as [[p|] empty] eqn:Eg; [|done].
    apply getEndorsed_in in Eg; [|done].
    apply (tsafe_pool _ _ (λ s, endorsed_in s n empty p) (λ r s, ∀ e, r = Ok e → own s (MEndorse e))); [|apply endorsed_in_stable|done| |].
    { intros E pool r pool' _ Em _. eapply quiet_good; [apply fixes_construct_endorse|done]. }
    { intros s2 r pool' Hi2 [(b & Hb & Hn) Hv] Em _ e -> Hx Hrec. pose proof Em as Hrun. apply construct_endorse_run in Hrun as [_ (b' & Hb' & En & Ep & _)].
      assert (b' = b) as -> by congruence. assert (good (blockPool s2) pool') as Hg by (eapply quiet_good; [apply fixes_construct_endorse|done]).
      destruct (pool_ok_step s2 pool' Hg Hi2) as [_ HR]. apply construct_endorse_fact in Em as [Ee Hd]. assert (em_BlockNum e = n) as Hen by congruence.
      apply (described_endorsed p p); [done| | |done|done|done].
      - rewrite Ee. eapply vote_of_later; [apply kept_endorsed|done..|]. rewrite Hen in *. by apply Hv.
      - apply (proposed_by_stable _ _ s2); [done|]. unfold proposed_by, proposer_at. rewrite Hb. cbn. by rewrite Ep. }
    intros [e|?|] s2 _ _ HF; [|done..]. by apply send_safe, HF.
Qed.
#[local] Hint Resolve okp_rebroadcast_commits okp_rebroadcast_endorses : okp.

(** *** Sealing *)

Lemma free_ok n s r pool' :
  n ≤ currentBlockNum s → Inv s → pool_onBlockSealed n (blockPool s) = (r, pool') → Inv (set_pool pool' s) ∧ later s (set_pool pool' s).
Proof.
  intros Hn Hi E. pose proof Hi as [I1 I2 I3 I4 I5 I6]. unfold pool_onBlockSealed, mbind, M_bind, get_state in E. case_decide.
  { injection E as _ <-. by apply core_ok; [destruct s|]. }
  injection E as _ <-. set (s' := set_pool _ s). assert (later s s') as HR.
  { split; [done|apply heap_le_refl|]. intros k c Hk Hc. exists c. split; [|reflexivity]. cbn. apply map_lookup_filter_Some. split; [done|]. cbn.
    unfold recent in Hk. cbn in Hk. rewrite I2. lia. }
  split; [|done]. split; cbn; try done.
  - intros k c [Hc _]%map_lookup_filter_Some. by apply I3.
  - intros m Hm. apply (own_stable m s); auto.
  - intros e He. apply (own_stable _ s); auto.
Qed.
Lemma advance_ok n s : n ≤ currentBlockNum s → short s → Inv s → let s' := (if decide (currentBlockNum s ≤ n) then set_current (u32 (n + 1)) s else s) in Inv s' ∧ later s s'.
Proof.
  intros Hn Hs Hi s'. pose proof Hi as [I1 I2 I3 I4 I5 I6]. unfold s', short in *. case_decide; [|done].
  assert (u32 (n + 1) = currentBlockNum s + 1) as E by (unfold u32; rewrite Z.mod_small; unfold MaxUint32 in Hs; lia).
  assert (later s (set_current (u32 (n + 1)) s)) as HR by (split; [cbn; lia|apply heap_le_refl|intros k c _ Hc; by exists c]).
  split; [|done]. split; cbn; try done; [lia|..]; intros; apply (own_stable _ s); auto.
Qed.

Lemma okp_sealBlock l (empty sigdata : bool) : okp (sealBlock l empty sigdata : SP (res unit)).
Proof.
  intros s. unfold sealBlock. apply tsafe_get; [apply _|]. intros s1 block _ Hi1 Hb. cbv zeta.
  set (n := getBlockNum block) in *. clear s. apply tsafe_read; [apply _|]. intros s2 _ _. case_decide as Hlt; [done|].
  apply tsafe_read; [apply _|]. intros s3 _ _. case_decide as Hgt; [apply okp_bind; [apply okp_restart|done]|].
  apply (tsafe_seq _ _ (λ s, n ≤ currentBlockNum s)); [|by intros ?? [? _ _] ?; lia|lia|].
  { apply okp_pool. intros E pool r pool' Hok Em Hr. by eapply setBlockSealed_good. }
  clear s1 s2 s3 Hi1 Hb Hlt Hgt. intros [[]|?|] s Hs; [|done..].
  assert (stable (λ s, n ≤ currentBlockNum s)) as Hst by (intros ?? [? _ _] ?; lia).
  apply (tsafe_seq _ _ (λ s, n ≤ currentBlockNum s)); [unfold seal_timers; okp|done..|]. intros _ s1 Hs1.
  apply (tsafe_seq _ _ (λ s, n ≤ currentBlockNum s)); [okp|done..|]. intros _ s2 Hs2.
  apply tsafe_call; [apply _|]. intros s3 r s4 HR Hi E Hr. unfold on_pool in E. destruct (pool_onBlockSealed n (blockPool s3)) as [r1 pool'] eqn:Em.
  injection E as <- <-. destruct (free_ok n s3 r1 pool') as [? ?]; [by eapply Hst|done..|]. split_and!; [done..|].
  apply (tsafe_seq _ _ (λ s, n ≤ currentBlockNum s)); [okp|done|apply (Hst s2); [by trans s3|done]|]. intros _ s5 Hs5. apply tsafe_update. intros s6 HR6 Hi6 Hs6.
  destruct (advance_ok n s6) as [? ?]; [by apply (Hst s5)|done..|]. by split_and!.
Qed.
#[local] Hint Resolve okp_sealBlock : okp.

Lemma okp_sealProposal p b : okp (sealProposal p b : SP unit).
Proof. unfold sealProposal. okp. Qed.
Lemma okp_fastForward l : okp (fastForwardBlock l : SP unit).
Proof. unfold fastForwardBlock. okp. Qed.
Lemma okp_processMsg m : okp (processMsgEvent m : SP unit).
Proof. unfold processMsgEvent, on_proposal, on_endorse, on_commit, makeCommitment. okp. Qed.
Lemma okp_catchConsensus n : okp (catchConsensus n : SP unit).
Proof. unfold catchConsensus. okp. Qed.
Lemma okp_endorse_timeout n : okp (endorse_timeout n : SP unit).
Proof. unfold endorse_timeout, makeCommitment. okp. Qed.
Lemma okp_empty_timeout n : okp (empty_timeout n : SP unit).
Proof. unfold empty_timeout, makeCommitment. okp. Qed.
Lemma okp_commit_timeout n : okp (commit_timeout n : SP unit).
Proof. unfold commit_timeout. okp. Qed.
#[local] Hint Resolve okp_sealProposal okp_fastForward okp_processMsg okp_catchConsensus okp_endorse_timeout okp_empty_timeout okp_commit_timeout : okp.
Lemma okp_fast_forward k : okp (fast_forward k : SP unit).
Proof. induction k as [|k IH]; cbn [fast_forward]; okp. Qed.
Lemma okp_round_msg m h n author process : foreign m → okp process → okp (on_round_msg m h n author process).
Proof. intros Hm Hp. unfold on_round_msg, post_heartbeat. okp; by apply okp_AddMsg. Qed.
Lemma okp_round_proposal p h n author process : okp process → okp (on_round_msg (MProposal p) h n author process).
Proof. by apply okp_round_msg. Qed.
#[local] Hint Resolve okp_fast_forward okp_round_proposal : okp.

(** ** The node *)

Section node.
Context (build_proposal : Z → bool → SV → res VBlock).

Lemma okp_add_own m : foreign m → okp (add_own m).
Proof. intros Hm. unfold add_own. okp. by apply okp_AddMsg. Qed.
Lemma okp_makeProposal n b : okp (makeProposal build_proposal n b).
Proof.
  unfold makeProposal. okp; [|by apply okp_add_own]. apply okp_call. intros s r s' Hi E _. unfold construct_proposal in E.
  destruct (build_proposal n b s) as [blk|?|]; [|injection E as _ <-; by apply core_ok..].
  pose proof (alloc_ok blk s Hi) as Ha. destruct (alloc blk s) as [p s1]. by injection E as _ <-.
Qed.
#[local] Hint Resolve okp_makeProposal : okp.
Lemma okp_proposal_timeout evt : okp (handleProposalTimeout build_proposal evt).
Proof. unfold handleProposalTimeout. okp. Qed.
#[local] Hint Resolve okp_proposal_timeout : okp.
Lemma okp_processTimer evt : okp (processTimerEvent build_proposal evt).
Proof. unfold processTimerEvent. okp. Qed.
Lemma okp_action fuel a : okp (actionLoop build_proposal fuel a).
Proof. unfold actionLoop. okp. Qed.
Lemma okp_onConsensusMsg peer m h : foreign m → okp (onConsensusMsg peer m h).
Proof.
  intros Hm. unfold onConsensusMsg, post_heartbeat. apply okp_bind; [okp|intros n]. apply okp_bind; [okp|intros dup]. destruct (dup && _); [done|].
  destruct m; try solve [okp]; (apply okp_round_msg; [done|okp]).
Qed.

Definition node_inv (n : node) : Prop := Inv n.1 ∧ threads_safe Inv later short n.1 n.2.

Lemma threads_later s s' ps : later s s' → threads_safe Inv later short s ps → threads_safe Inv later short s' ps.
Proof. intros HR Hps p Hp. eapply tsafe_later; [apply _|by intros _ ???|done|by apply Hps]. Qed.
Lemma node_inv_spawn s s' ps p : Inv s' → later s s' → threads_safe Inv later short s ps → okp p → node_inv (s', ps ++ [p]).
Proof.
  intros Hi HR Hps Hp. split; [done|]. intros q [Hq|Hq%list_elem_of_singleton]%elem_of_app; [by apply (threads_later s s' ps)|]. subst q. apply Hp.
Qed.

Lemma node_inv_step peer_msg n n' :
  (∀ m, peer_msg m → foreign m) → node_step build_proposal peer_msg n n' → short n.1 → node_inv n → node_inv n'.
Proof.
  intros Hpm Hst Hsh [Hi Hps]. destruct Hst as [n n' Hrun|s ps e|s ps ev Hev|s ps peer m hash Hm Hp|s ps peer b hash|s ps m ms Em|s ps a acts fuel Ea|s ps ev evs Ee|s ps b|s ps p Hp]; cbn [fst snd] in Hsh, Hi, Hps.
  - destruct n as [s ps], n' as [s' ps']. destruct (threads_step Inv later short s ps s' ps') as (H6 & _ & H7); done.
  - destruct (core_ok s (set_env e s)) as [? ?]; [done..|]. split; [done|]. by eapply threads_later.
  - destruct (core_ok s (on_timer (post_event ev) (on_timer (cancelEventTimer (evtType ev) (te_blockNum ev)) s))) as [? ?]; [done..|].
    split; [done|]. by eapply threads_later.
  - eapply node_inv_spawn; [done|reflexivity|done|]. by apply okp_onConsensusMsg, Hpm.
  - destruct (alloc_ok b s Hi) as [? ?]. eapply node_inv_spawn; [done..|]. by apply okp_onConsensusMsg.
  - destruct (core_ok s (set_msgC ms s)) as [? ?]; [done..|]. eapply node_inv_spawn; [done..|]. apply okp_processMsg.
  - destruct (core_ok s (set_actions acts s)) as [? ?]; [done..|]. eapply node_inv_spawn; [done..|]. apply okp_action.
  - destruct (core_ok s (set_timer (mkEventTimer (eventTimers (sv_timer s)) evs) s)) as [? ?]; [done..|]. eapply node_inv_spawn; [done..|]. apply okp_processTimer.
  - destruct (alloc_ok b s Hi) as [? ?]. eapply node_inv_spawn; [done..|]. apply okp_fastForward.
  - eapply node_inv_spawn; [done|reflexivity|done|]. rewrite !elem_of_cons in Hp.
    destruct Hp as [->|[->|[->|[]%not_elem_of_nil]]]; [okp..|]. apply okp_bind; [okp|done].
Qed.
End node.
End equivocation.

(** ** The theorem *)

Section theorem.
Context `{Hasher} `{Crypto} `{Rand} `{!LedgerEnv} `{!VbftEnv} `{!PoolEnv} `{!VbftAccount} {DB : Type} `{!LedgerDB DB}.
Abbreviation SV := (Server DB).
Implicit Types s : SV.
#[local] Set Default Proof Using "Type*".

(** The server after [initialize] and [start]: the block pool holds the last sealed
    blocks, nothing was received or sent. *)
Record started s : Prop := {
  st_current : 0 ≤ currentBlockNum s;
  st_history : ∀ n c, candidateBlocks (blockPool s) !! n = Some c → ∃ b, c = history_candidate b;
  st_msgs : rounds (msgPool s) = ∅;
  st_sent : sent s = [];
}.
(** The message is a vote of the peer [i]. *)
Definition vote_by (i : Z) (m : ConsensusMsg) : Prop :=
  match m with MEndorse e => Endorser e = i | MCommit c => Committer c = i | _ => False end.
(** The node sent this vote for block [n] as its own. *)
Definition voted s (n : Z) (m : ConsensusMsg) : Prop :=
  vote_by (sv_Index s) m ∧ (∃ to, mkSend to m ∈ sent s) ∧
  match m with MEndorse e => em_BlockNum e = n | MCommit c => cm_BlockNum c = n | _ => False end.
(** Two votes for the same block number that do not contradict each other. *)
Definition agree (m m' : ConsensusMsg) : Prop :=
  match m, m' with
  | MCommit c, MCommit c' =>
      BlockProposer c = BlockProposer c' ∧ CommitForEmpty c = CommitForEmpty c' ∧ CommitBlockHash c = CommitBlockHash c'
  | MEndorse e, MEndorse e' =>
      EndorseForEmpty e = EndorseForEmpty e' →
      em_EndorsedProposer e = em_EndorsedProposer e' ∧ (EndorseForEmpty e = true → EndorsedBlockHash e = EndorsedBlockHash e')
  | _, _ => True
  end.
(** One step, as long as there are block numbers left. *)
Definition step_within (build_proposal : Z → bool → SV → res VBlock) (peer_msg : ConsensusMsg → Prop) (n n' : node) : Prop :=
  currentBlockNum n.1 < MaxUint32 ∧ node_step build_proposal peer_msg n n'.

Lemma history_ok (h : gmap loc VBlock) n b : cand_ok h n (history_candidate b).
Proof.
  split; try (by intros ? ?%not_elem_of_nil); try apply NoDup_nil_2; [|by left]. intros k l E. unfold sigs_of in E. cbn in E. by rewrite lookup_empty in E.
Qed.
Lemma started_inv s : started s → Inv (sv_Index s) (HistoryLen (blockPool s)) s.
Proof.
  intros [H6 H7 H8 H9]. split; try done.
  - intros n c Hc. destruct (H7 n c Hc) as [b ->]. apply history_ok.
  - intros m (t & n & Hm). unfold mp_msgs in Hm. rewrite H8, lookup_empty in Hm. by apply not_elem_of_nil in Hm.
  - intros e He. rewrite H9 in He. by apply not_elem_of_nil in He.
Qed.

Lemma stands_for_agree s p pr pr' empty hash hash' : stands_for s p pr empty hash → stands_for s p pr' empty hash' → pr = pr' ∧ hash = hash'.
Proof. intros (b & Hb & <- & Hh) (b' & Hb' & <- & Hh'). assert (b' = b) as -> by congruence. split; [done|]. rewrite Hh in Hh'. by injection Hh'. Qed.
Lemma committed_one idx hist s n e e' p p' :
  Inv idx hist s → committed_as s n e = Some p → committed_as s n e' = Some p' → e = e' ∧ p = p'.
Proof.
  intros Hi Hp Hp'. unfold committed_as, vote_of in *. apply bind_Some in Hp as (c & Hc & Hp). rewrite Hc in Hp'. cbn in Hp'.
  pose proof (ck_one _ _ _ (iv_pool _ _ s Hi n c Hc)) as Hone. destruct e, e'; destruct Hone as [Hn|Hn]; rewrite ?Hn in *; try done; by simplify_eq.
Qed.

Lemma own_agree idx hist s m m' :
  Inv idx hist s → own idx hist s m → own idx hist s m' → vote_by idx m → vote_by idx m' →
  ∀ n, currentBlockNum s ≤ n + hist →
  (match m with MEndorse e => em_BlockNum e = n | MCommit c => cm_BlockNum c = n | _ => False end) →
  (match m' with MEndorse e => em_BlockNum e = n | MCommit c => cm_BlockNum c = n | _ => False end) → agree m m'.
Proof.
  intros Hi Hm Hm' Hv Hv' n Hn En En'. destruct m as [|e|c| | | | | |], m' as [|e'|c'| | | | | |]; try done; cbn in *.
  - intros Ee. destruct (Hm Hv) as (p & Hp & Hq & Hh); [unfold recent; lia|]. destruct (Hm' Hv') as (p' & Hp' & Hq' & Hh'); [unfold recent; lia|].
    rewrite En, Ee in Hp. rewrite En' in Hp'. rewrite Hp in Hp'. injection Hp' as <-. unfold proposed_by in *. split; [congruence|]. intros Et.
    by destruct (stands_for_agree _ _ _ _ _ _ _ (Hh Et) (Hh' ltac:(congruence))).
  - destruct (Hm Hv) as (p & Hp & Hh); [unfold recent; lia|]. destruct (Hm' Hv') as (p' & Hp' & Hh'); [unfold recent; lia|].
    rewrite En in Hp. rewrite En' in Hp'. destruct (committed_one _ _ _ _ _ _ _ _ Hi Hp Hp') as [E <-]. rewrite <- E in Hh'.
    by destruct (stands_for_agree _ _ _ _ _ _ _ Hh Hh').
Qed.

Lemma node_inv_run idx hist (build_proposal : Z → bool → SV → res VBlock) peer_msg n n' :
  (∀ m, peer_msg m → ¬ vote_by idx m) → rtc (step_within build_proposal peer_msg) n n' → node_inv idx hist n → node_inv idx hist n'.
Proof.
  intros Hpeer Hrun. induction Hrun as [|n1 n2 n3 [Hsh Hstep] _ IH]; [done|]. intros Hinv. apply IH.
  eapply node_inv_step; [|done..]. intros m Hm s. specialize (Hpeer m Hm). destruct m; try done; by intros ?.
Qed.

(** C5 (a node does not equivocate).  Whatever peers send, however the goroutines of
    the server interleave and whatever they read of the state machine, the peers and
    the clock: as long as the round of a block number is within the history that the
    pools keep, all commits that the node sent for it as its own, when they were made
    and when they were sent again, are for the same proposer, the same choice between
    block and empty block and the same hash; and all endorsements of a block (of an
    empty block) are for the same proposer (and the same hash).  Peers do not send
    votes in the name of this node; the server does not check that. *)
Theorem node_never_equivocates build_proposal peer_msg (s0 s : SV) ps n m m' :
  started s0 → (∀ m, peer_msg m → ¬ vote_by (sv_Index s0) m) →
  rtc (step_within build_proposal peer_msg) (s0, []) (s, ps) →
  currentBlockNum s ≤ n + HistoryLen (blockPool s0) → voted s n m → voted s n m' → agree m m'.
Proof.
  intros Hst Hpeer Hrun Hn (Hv & [to Hs] & En) (Hv' & [to' Hs'] & En').
  set (idx := sv_Index s0) in *. set (hist := HistoryLen (blockPool s0)) in *.
  destruct (node_inv_run idx hist build_proposal peer_msg (s0, []) (s, ps)) as [Hi _]; [done..| |].
  { split; [by apply started_inv|by intros p ?%not_elem_of_nil]. }
  cbn [fst] in Hi.
  assert (sv_Index s = idx) as Ei by apply (iv_index _ _ s Hi). rewrite Ei in Hv, Hv'.
  apply (own_agree idx hist s m m' Hi (iv_sent _ _ s Hi _ Hs) (iv_sent _ _ s Hi _ Hs') Hv Hv' n); done.
Qed.
End theorem.

(** ** Example: a node of four *)

(** What runs next: a step of a goroutine several times, or the start of one. *)
Inductive choice `{Crypto} := CRun (i k : nat) | CMsg | CAction | CReceive (peer : Z) (m : ConsensusMsg) (hash : Uint256).

Section schedule.
Context `{Hasher} `{Crypto} `{Rand} `{!LedgerEnv} `{!VbftEnv} `{!PoolEnv} `{!VbftAccount} {DB : Type} `{!LedgerDB DB}.
Context (build_proposal : Z → bool → Server DB → res VBlock) (peer_ok : ConsensusMsg → bool).
#[local] Set Default Proof Using "Type*".
Abbreviation ND := (Server DB * list (prog (Server DB) unit))%type.
Abbreviation peer_msg := (λ m, peer_ok m = true).
Abbreviation steps := (step_within build_proposal peer_msg).

Fixpoint run_thread (i k : nat) (n : ND) : option ND :=
  match k with
  | O => Some n
  | S k => match n.2 !! i with
           | Some (PAtomic f g) => if decide (currentBlockNum n.1 < MaxUint32) then run_thread i k (g n.1, <[i := f n.1]> n.2) else None
           | _ => Some n
           end
  end.
Definition is_proposal (m : ConsensusMsg) : bool := match m with MProposal _ => true | _ => false end.
Definition choose (c : choice) (n : ND) : option ND :=
  if decide (currentBlockNum n.1 < MaxUint32) then
    match c with
    | CRun i k => run_thread i k n
    | CMsg => match msgC n.1 with m :: ms => Some (set_msgC ms n.1, n.2 ++ [processMsgEvent m]) | [] => None end
    | CAction => match bftActionC n.1 with a :: acts => Some (set_actions acts n.1, n.2 ++ [actionLoop build_proposal 1 a]) | [] => None end
    | CReceive peer m hash => if negb (is_proposal m) && peer_ok m then Some (n.1, n.2 ++ [onConsensusMsg peer m hash]) else None
    end
  else None.
Fixpoint schedule (cs : list choice) (n : ND) : option ND :=
  match cs with [] => Some n | c :: cs => n' ← choose c n; schedule cs n' end.

Lemma run_thread_steps i k n n' : run_thread i k n = Some n' → rtc steps n n'.
Proof.
  revert n. induction k as [|k IH]; intros [s ps] E; cbn in E; [by injection E as <-|].
  destruct (ps !! i) as [[a| |f g]|] eqn:Ei; [by injection E as <-..| |by injection E as <-]. case_decide as Hs; [|done].
  eapply rtc_l; [split; [exact Hs|]|exact (IH _ E)]. apply step_goroutine. by apply step_run.
Qed.
Lemma choose_steps c n n' : choose c n = Some n' → rtc steps n n'.
Proof.
  unfold choose. case_decide as Hs; [|done]. destruct n as [s ps]. destruct c as [i k| | |peer m hash]; cbn [fst snd] in *.
  - apply run_thread_steps.
  - destruct (msgC s) as [|m ms] eqn:Em; [done|]. intros [= <-]. apply rtc_once. split; [done|]. by apply step_msg.
  - destruct (bftActionC s) as [|a acts] eqn:Ea; [done|]. intros [= <-]. apply rtc_once. split; [done|]. by apply step_action.
  - destruct (is_proposal m) eqn:Ep; [done|]. destruct (peer_ok m) eqn:Eo; [|done]. intros [= <-]. apply rtc_once. split; [done|].
    apply step_receive; [|done]. intros p ->. done.
Qed.
Lemma schedule_steps cs n n' : schedule cs n = Some n' → rtc steps n n'.
Proof.
  revert n. induction cs as [|c cs IH]; intros n E; cbn in E; [by injection E as <-|]. apply bind_Some in E as (n1 & Hc & E).
  etrans; [by apply (choose_steps c)|by apply IH].
Qed.
End schedule.

#[local] Existing Instance ex_rand.
#[local] Instance ex_node_db : LedgerDB (LedgerStore (LevelDBStore (gmap bytes bytes)) (option (Uint256 * Block)) (option (Uint256 * (Transaction * Z)))) :=
  ledger_db ex_registry.
#[export] Instance ex_account : VbftAccount := {|
  acct_Sign hash := Ok (ex_sign 2 (to_slice hash));
  HashMsg _ m := dsum [byte_of_Z (msg_Type m)];
  config_Hash _ := EMPTY_HASH;
  verifyVrf _ _ _ _ _ := true;
|}.
(** Peer 2 has the proposal of peer 1 for block 1, is asked three times to commit it,
    and once to send its votes again. *)
Definition ex_participants : BlockParticipantConfig := mkParticipants 1 0 (zero_array VRF_SIZE) ex_chain_config [1] [2; 3] [2; 3].
Definition ex_node_env : ServerEnv := mkServerEnv _ Synced (λ _, true) (λ _, true) GetPeerPubKey ex_chain_config 0 0 0 true true.
Definition ex_commit_action : BftAction := CommitBlock (mkProposal 0) false.
Definition ex_sv0 : Server _ :=
  mkServer 2 1 ex_participants (mkPool 10 (mkChainStore (ex_chain 0) 0 ∅ false []) ∅ {[0%nat := ex_proposed]}) (newMsgPool 10) (mkEventTimer [] [])
    [MProposal (mkProposal 0)] [ex_commit_action; ex_commit_action; ReBroadcast 1] [] [] [] [] [] ex_node_env.
Definition ex_build {DB : Type} (_ : Z) (_ : bool) (_ : Server DB) : res VBlock := Err "no proposal".
(** Both commits check that nothing is committed yet before either is recorded. *)
Definition ex_choices : list choice := [CMsg; CRun 0 100; CAction; CAction; CRun 1 3; CRun 2 3; CRun 1 100; CRun 2 100; CAction; CRun 3 100].
Definition not_mine (m : ConsensusMsg) : bool :=
  match m with MEndorse e => bool_decide (Endorser e ≠ 2) | MCommit c => bool_decide (Committer c ≠ 2) | _ => true end.
Definition ex_end := schedule ex_build not_mine ex_choices (ex_sv0, []).
Definition commits_sent {DB : Type} (o : option (Server DB * list (prog (Server DB) unit))) : list blockCommitMsg :=
  match o with Some (s, _) => commits_in (sm_Msg <$> sent s) | None => [] end.

Lemma ex_started : started ex_sv0.
Proof. by split. Qed.
Lemma not_mine_ok m : not_mine m = true → ¬ vote_by 2 m.
Proof. destruct m; cbn; try (by intros _ []); intros ?%bool_decide_eq_true; done. Qed.
Lemma commits_sent_voted {DB : Type} (s : Server DB) ps c n :
  c ∈ commits_sent (Some (s, ps)) → Committer c = sv_Index s → cm_BlockNum c = n → voted s n (MCommit c).
Proof.
  intros (m & Hm & E)%list_elem_of_omap Hc Hn. destruct m; try done. injection E as ->.
  apply list_elem_of_fmap in Hm as ([to m] & Em & Hs). cbn in Em. subst m. split; [done|]. split; [by exists to|done].
Qed.

Lemma ex_end_steps s ps : ex_end = Some (s, ps) → rtc (step_within ex_build (λ m, not_mine m = true)) (ex_sv0, []) (s, ps).
Proof. unfold ex_end. apply schedule_steps. Qed.
(** The commit is sent when it is made and once more; the second goroutine that was
    about to commit sends nothing. *)
Lemma ex_end_commits :
  ∃ s ps c c', ex_end = Some (s, ps) ∧ currentBlockNum s = 1 ∧ commits_sent ex_end = [c; c'] ∧ voted s 1 (MCommit c) ∧ voted s 1 (MCommit c').
Proof.
  assert (length (commits_sent ex_end) = 2%nat) as Hl by by vm_compute.
  assert (Forall (λ c, Committer c = 2 ∧ cm_BlockNum c = 1) (commits_sent ex_end)) as Hf by (refine (bool_decide_unpack _ _); by vm_compute).
  assert ((λ n, (sv_Index n.1, currentBlockNum n.1)) <$> ex_end = Some (2, 1)) as Hs by by vm_compute.
  generalize dependent ex_end. intros [[s ps]|] Hl Hf Hs; [|discriminate Hs]. cbn in Hs. injection Hs as Hi Hn.
  destruct (commits_sent (Some (s, ps))) as [|c [|c' []]] eqn:Ec; try discriminate Hl. exists s, ps, c, c'.
  apply Forall_cons in Hf as [[H1 H2] Hf]. apply Forall_cons in Hf as [[H3 H4] _].
  split_and!; [done..| |]; apply (commits_sent_voted s ps); rewrite ?Ec; set_solver || congruence.
Qed.
Lemma node_never_equivocates_witness :
  ∃ s ps c c', ex_end = Some (s, ps) ∧ commits_sent ex_end = [c; c'] ∧ voted s 1 (MCommit c) ∧ voted s 1 (MCommit c') ∧ agree (MCommit c) (MCommit c').
Proof.
  destruct ex_end_commits as (s & ps & c & c' & E & Hn & Hc & Hv & Hv'). exists s, ps, c, c'. do 4 (split; [assumption|]).
  apply (node_never_equivocates ex_build (λ m, not_mine m = true) ex_sv0 s ps 1 (MCommit c) (MCommit c') ex_started not_mine_ok (ex_end_steps s ps E)).
  - rewrite Hn. cbn. lia.
  - exact Hv.
  - exact Hv'.
Defined.

(** The name of the voter in a message is not compared with the peer that sent it: a
    peer can have this node send a commit for another block as its own. *)
Definition ex_forged : blockCommitMsg := mkCommitMsg 2 3 1 (dsum (gs "other")) false [] [] ∅ [].
Definition ex_forge_choices : list choice := CReceive 4 (MCommit ex_forged) (dsum (gs "forged")) :: CRun 0 100 :: [CMsg; CRun 1 100; CAction; CRun 2 100; CAction; CRun 3 100; CAction; CRun 4 100].
Example forged_vote_is_sent :
  (BlockProposer <$> commits_sent (schedule ex_build (λ _, true) ex_forge_choices (ex_sv0, []))) = [1; 3; 1] ∧
  (Committer <$> commits_sent (schedule ex_build (λ _, true) ex_forge_choices (ex_sv0, []))) = [2; 2; 2].
Proof. by vm_compute. Qed.
